(* ===== verification/_CoqProject ===== *)
-Q . S2P
Prelude.v
JsString.v
Encodings.v
JsValue.v
Json.v
JsRegex.v
RegexFacts.v
Markup.v
JsDate.v
NodePath.v
Vocabulary.v
EventValidation.v
SessionStore.v
SessionJournal.v
PollLanes.v
PollQueue.v
LiveServer.v
RollSelection.v
SourceLock.v
Files.v
ManualEditsBuffer.v
InjectJournal.v
TagStrategy.v
VariantBlock.v
VariantScan.v
Adapters.v
Frameworks.v
ApplyFiles.v
ApplyBatch.v
ApplyController.v
ApplyPromises.v
ServerApply.v
Globs.v
IgnoreConfig.v
LiveInject.v
InlineIgnores.v
TemplateExtensions.v
SourceSearch.v
LiveWrap.v
LiveInsert.v
BlockText.v
WrittenBlock.v
VariantRoundtrip.v
LiveAccept.v
AcceptVerify.v
HookConfig.v
HookCache.v
HookEvent.v
HookText.v
HookRun.v
HookGate.v
Preflight.v
CssDeclarations.v
CssCascade.v
CascadeFacts.v
CommitVerify.v
CopyEvidence.v
CommitEdits.v
CommitFacts.v
HookManifests.v
HookAdmin.v
AcceptCss.v
