(* ===== verification/Prelude.v ===== *)
(** * Impeccable live mode, detector filters and design hook: a verification library

    Impeccable ([src/.agents/skills/impeccable/scripts/]) is the JavaScript tooling of this
    repository with logic and state of its own. Three parts of it are modelled. Live mode: a command puts a script
    into the pages of a project; the overlay it loads posts events to a local server, the server stores them in a journal
    per session and queues them for coding agents, and agents poll, wrap an element of a source file in a block of
    variants, reply, and accept or discard the block; text edited in the page is staged and committed to the sources by an
    agent whose result is checked. The detector: which findings a project waives, and the styles its static engine computes
    for a page. The design hook: after an edit, at the end of a turn and before a write, the detector runs on the files
    concerned and the hook decides what the agent is told; a command administers it. Paths below are relative to that
    directory.

    * How the code is modelled

    A definition keeps the name of the function it translates. A function that can throw returns [result]
    (this file); one that changes state is an [eff S A], a function from a state to a result and a state in
    which an exception keeps the changes made before it, and [attempt] is try/catch. A JavaScript value is
    a [js] (JsValue): objects are association lists in insertion order, numbers are exact fractions
    with [NaN] and the infinities, strings are sequences of code units below 256. Where the code shares a
    mutable object the state says so: PollQueue has a heap of queue entries, HookCache returns the cache an operation
    has changed. Asynchronous code is cut at its awaits into turns; the theorems quantify over the order of the
    turns. Time is a part of the state or an argument.

    * The files

    The language: Prelude (exceptions, effects, lists, sorting), JsString, JsValue, Json ([JSON.stringify] and
    [JSON.parse] with their round trip), JsRegex (a backtracking matcher and the language it decides), RegexFacts (how
    the matcher runs on texts of a known shape), Encodings (base64 and percent encoding), JsDate,
    NodePath, Files (a file system of texts and directories, and [only_touches], the frame property).

    Live mode:
    - Vocabulary: [live/vocabulary.mjs], the protocol constants.
    - EventValidation: [live/event-validation.mjs], what a browser event must look like.
    - SessionStore: the reducer [applyEvent] of [live/session-store.mjs]; a snapshot is a [js] object.
    - SessionJournal: the store itself; [world] holds files, process caches and clock. [session_reads_are_replays]
      and [appendEvent_refines] refine it to a list of entries per session, whatever the interleaving of processes,
      restarts and reads of the cache. An append is whole in these; [raced_append_forgets] is an append of another
      process between its read and its write, which the code does not exclude.
    - PollLanes ([live/poll-lanes.mjs], [live/completion.mjs]), PollQueue (the queue, leases and deliveries of
      [live-server.mjs]; [srv] is [state.pendingEvents], the parked polls and the deliveries in flight), LiveServer
      (the handlers of /events and /poll). PollQueue is proved against the class [Store], which SessionJournal
      implements; the handlers are refined to sequences of queue turns.
    - SourceLock ([live/source-lock.mjs]): processes that interleave at system calls.
    - ManualEditsBuffer ([live/manual-edits-buffer.mjs]): staging is an insertion in a map.
    - TagStrategy, Adapters, Frameworks ([live/frameworks/], [live/sveltekit-adapter.mjs], [live/tanstack-adapter.mjs]):
      the script block and the content security policy of a page, the adapters, the registry; LiveInject
      ([live-inject.mjs]) is the command, InjectJournal ([live/frameworks/journal.mjs]) its record and the healing.
    - SourceSearch ([live/source-search.mjs], [lib/is-generated.mjs]): the walk over a project that finds a source file.
    - LiveWrap ([live-wrap.mjs]) and LiveInsert ([live-insert.mjs]): from the queries to the element, the staged edits it
      is shown with, the wrapper, the command. VariantBlock: the text operations of [live-accept.mjs] on the block, as
      functions on lists of lines; LiveAccept: its command, with receipts, refusals and the lock; AcceptVerify
      ([live/accept-verify.mjs], [live-complete.mjs]): the leftovers and the gate.
    - Markup (a grammar of well-nested markup), VariantScan (the scans of [div] tags on it), BlockText (markers and white
      space in texts partly known), WrittenBlock (what the two commands write, read back) and VariantRoundtrip hold
      the facts that join writer and reader.
    - ApplyFiles, ApplyBatch, ApplyController, ApplyPromises, ServerApply ([live/manual-apply.mjs]): files and
      transactions, batches and replies, the conversation chunk by chunk, promises with timers and cancellation, and the
      controller on the server's queue. The queue is the class [ApplyQueue]; ServerApply is its instance.
    - CopyEvidence ([live-manual-edit-evidence.mjs]): the places of the sources where staged edits may be; CommitVerify and
      CommitEdits ([live-commit-manual-edits.mjs]): when a source shows an edit, what is saved and rolled back, the repairs,
      the command; CommitFacts: its guarantees, for any agent.
    - AcceptCss ([live/accept-css.mjs]): the style sheet of an accepted variant parsed, merged into the one of the
      component, its parameters baked in, its unused selectors removed.
    - Preflight ([live/generation-preflight.mjs]): the helper that scaffolds a generation is called with the fields of the
      event; its results are cached between runs that overlap.
    - RollSelection ([lib/roll-selection.mjs]): the synchronous and the asynchronous driver of the selection.

    Detector and design hook:
    - Globs, IgnoreConfig ([lib/impeccable-config.mjs]): globs against a reference meaning, the configuration
      read, merged, written and applied to findings.
    - CssDeclarations, CssCascade ([detector/engines/static-html/css-cascade.mjs]): declarations with their shorthands, and
      the cascade over the elements of a document; CascadeFacts refines the latter to a sort by priority.
    - InlineIgnores ([detector/shared/inline-ignores.mjs]): the waivers written in a source file.
    - TemplateExtensions ([lib/template-extensions.mjs]): configured extensions, shared by the hook and Live.
    - HookConfig, HookCache, HookEvent, HookText, HookRun ([hook-lib.mjs], [hook.mjs]): settings; the session
      cache; from an event to files; the messages; the two passes and the audit log. The functions that [hook-lib.mjs] repeats word for
      word from [lib/impeccable-config.mjs] are modelled once, in Globs and IgnoreConfig.
    - HookGate ([hook-before-edit.mjs]): the content a write would leave, the verdict, the count of denials.
    - HookManifests, HookAdmin ([hook-admin.mjs]): the manifests of the harnesses, and the command that switches the hook,
      records waivers and resets the configuration, on the files.

    * What the theorems show

    Session data: a read is the replay of the journal, the reducer keeps snapshots well formed and throws in one case
    only ([applyEvent_total]), late generation events are inert after an accept, session ids stay in their directory.
    Input: what an accepted event is. Queue: no second delivery under a lease, no duplicate entries, every parked poll
    that can be served is served, every delivery answers once and with its own event; an accepted generate is in its
    journal and queued. Apply: a reply of an event that timed out is undone, promises settle once, a crashed Apply is
    rolled back inside the project, chunks partition a batch and an entry counts as applied only when all of it is.
    Lock: mutual exclusion. Injection: a session leaves no trace in pages without a policy of their own, removing the
    block undoes inserting it, the patched root route is restored. Source files: discarding what was wrapped puts the
    lines of the element back ([discard_undoes_wrap], with at most an empty line on either side that the code adds) and
    discarding an insertion restores the file exactly, for well-nested markup in both comment syntaxes
    ([discard_deletes_beyond] is what happens otherwise); a handled accept or discard is final; an accept that asks for
    cleanup does not pass the completion gate untouched. Copy edits: the search for evidence is complete and its
    matches are where they say, what a commit reports as applied was found in the sources, and a commit that is rolled
    back restores each file of its batch or lists it ([directory_not_restored] is the exception). Styles: accepting a
    variant merges its rules into the component's, selector by selector and block by block, changes no other rule, and
    prints every rule. Selection: both drivers agree, what a roll deals. Filters: globs mean what the reference says,
    waivers are local to their files, and the styles of a page are those of the cascade. Hook: an edit is answered for
    what is new and a regression is reported again, the hook never throws and writes its cache, an exclude file and the
    audit log only, a clean run leaves no trace, writes are denied for findings only and, as long as the cache file
    keeps the count, six times at most; [stop_repeats_known]: the pass at the end of a turn forgets what it does not
    report, a defect against its own comment. Administration: repairing a manifest keeps the hooks of the user and is
    idempotent, and a rule that is ignored is read back with everything that was there.

    * Fuel and bounds

    The recursions of the source that are not structural take fuel computed from their input: the regular expressions
    one unit per remaining character beyond a minimum, [json_parse] the length of the text, [flush_loop] the
    parked polls (a theorem shows it is enough), [nearest_root], [git_target] and [canonical_from] the length of a path
    ([dirname_shorter]: a parent is shorter), [drop_lines] the number of lines. Walks over directories take the depth limit of
    the code, repairs of a commit the limit of [repairAttemptLimit], between one and ten ([repairs_are_bounded]). The parser of
    style sheets takes the length of its text ([parse_fuel]). Sums and counters are
    unbounded integers: the code's stay far below 2^53.

    * Not modelled

    Characters above U+00FF; objects with a [toString] of their own, on which a conversion throws, except in the
    reducer of session data and in the configuration of the hook; the prototype chain, except where a finding rests on
    it; arrays that carry named properties; symbolic links, except through the parameter [realpathSync]; file-system
    errors other than a missing file, a directory in the place of a file and a directory that is not empty; the audit
    log of the write gate, and the fields of the hook's log records other than time, event and project; the colour
    arithmetic of [parseIgnoreColor], which is floating point (parameter [colorIgnoreKey]); the platform of a project
    ([context.mjs], parameter [resolveProjectPlatform]).
    The answers of [git check-ignore] and of [realpathSync] are parameters; so are, in the commands on source files, the source
    lock (its own machine in SourceLock) and the component sessions of [live/svelte-component.mjs], which run the
    Svelte compiler. The agent of a commit is an argument that may do anything, and so are the syntax checks after it; the
    child process of the preflight; and, in the static engine, the parsers of CSS and selectors and the arithmetic of
    colours and lengths. Regular expressions built at run time from an id, a tag or a class name are built from literals, which is
    what escaping gives.
    Left out as whole components: the detector's rules (heuristics over HTML and CSS; the hook takes
    the detector as an argument) and its other engines, the component sessions of Svelte files, the agent's
    child processes and HTTP routes, the remaining command-line clients, the browser bundles (generated, or DOM code), catalogs and palettes, and
    the Go backend, the Vue frontend and the deployment of the repository, which are not JavaScript logic. *)
From Stdlib Require Export ZArith Lia Ascii String.
From stdpp Require Export prelude strings gmap sorting.
Export list_basics.list.
#[global] Arguments String.append !_ _ / : simpl nomatch.

(** ** JavaScript exceptions

    A JavaScript function that can throw is modelled by a function into
    [result A]: [Ok v] is a normal return, [Throw e] an exception that leaves
    the function. *)
Record js_error := JsError { err_message : string; err_code : option string }.

Definition error (msg : string) : js_error := JsError msg None.

Inductive result (A : Type) : Type :=
| Ok (a : A)
| Throw (e : js_error).
Arguments Ok {A} a.
Arguments Throw {A} e.

#[export] Instance result_ret : MRet result := fun A a => Ok a.
#[export] Instance result_bind : MBind result := fun A B f m =>
  match m with Ok a => f a | Throw e => Throw e end.
#[export] Instance result_fmap : FMap result := fun A B f m =>
  match m with Ok a => Ok (f a) | Throw e => Throw e end.

(** [try { m } catch (e) { h e }]. *)
Definition try_catch {A} (m : result A) (h : js_error -> result A) : result A :=
  match m with Ok a => Ok a | Throw e => h e end.

Definition is_ok {A} (m : result A) : bool := match m with Ok _ => true | Throw _ => false end.

Lemma Ok_inj {A} (x y : A) : Ok x = Ok y -> x = y.
Proof. congruence. Qed.

Lemma bind_ok {A B} (f : A -> result B) (m : result A) b :
  m ≫= f = Ok b -> exists a, m = Ok a /\ f a = Ok b.
Proof. destruct m; simpl; [eauto | discriminate]. Qed.

Lemma bind_ret_l {A B} (f : A -> result B) (a : A) : Ok a ≫= f = f a.
Proof. reflexivity. Qed.

(** ** Stateful code

    A JavaScript function that reads and writes shared state of type [S] and can
    throw: it keeps what it did to the state when it throws. *)
Definition eff (S A : Type) : Type := S -> result A * S.
#[export] Instance eff_ret {S} : MRet (eff S) := fun A a s => (Ok a, s).
#[export] Instance eff_bind {S} : MBind (eff S) := fun A B f m s =>
  match m s with (Ok a, s) => f a s | (Throw e, s) => (Throw e, s) end.
Definition lift {S A} (r : result A) : eff S A := fun s => (r, s).
Definition get {S A} (f : S -> A) : eff S A := fun s => (Ok (f s), s).
Definition upd {S} (f : S -> S) : eff S unit := fun s => (Ok tt, f s).
Definition run_if {S} (b : bool) (m : eff S unit) : eff S unit := if b then m else mret tt.
(** [try { m } catch (e) { h e }]. *)
Definition attempt {S A} (m : eff S A) (h : js_error -> eff S A) : eff S A := fun s =>
  match m s with (Ok a, s) => (Ok a, s) | (Throw e, s) => h e s end.

Lemma eff_bind_ok {S A B} (f : A -> eff S B) (m : eff S A) s b s' :
  (m ≫= f) s = (Ok b, s') -> exists a s1, m s = (Ok a, s1) /\ f a s1 = (Ok b, s').
Proof. unfold mbind, eff_bind. destruct (m s) as [[a|e] s1]; [eauto|discriminate]. Qed.

(** [m] keeps [P], whether it returns or throws. *)
Definition keeps {S A} (P : S -> Prop) (m : eff S A) : Prop := forall s, P s -> P (m s).2.

Lemma keeps_bind {S A B} (P : S -> Prop) (m : eff S A) (f : A -> eff S B) :
  keeps P m -> (forall a, keeps P (f a)) -> keeps P (m ≫= f).
Proof.
  intros Hm Hf s Hs. specialize (Hm s Hs). unfold mbind, eff_bind.
  destruct (m s) as [[a|e] s']; [by apply Hf|done].
Qed.
Lemma keeps_ret {S A} (P : S -> Prop) (a : A) : keeps P (mret a : eff S A).
Proof. by intros s. Qed.
Lemma keeps_get {S A} (P : S -> Prop) (f : S -> A) : keeps P (get f).
Proof. by intros s. Qed.
Lemma keeps_lift {S A} (P : S -> Prop) (r : result A) : keeps P (lift r : eff S A).
Proof. by intros s. Qed.
Lemma keeps_upd {S} (P : S -> Prop) (f : S -> S) : (forall s, P s -> P (f s)) -> keeps P (upd f).
Proof. intros H s. apply H. Qed.
Lemma keeps_run_if {S} (P : S -> Prop) b (m : eff S unit) : keeps P m -> keeps P (run_if b m).
Proof. destruct b; [done|]. intros _ s. done. Qed.
Lemma keeps_attempt {S A} (P : S -> Prop) (m : eff S A) (h : js_error -> eff S A) :
  keeps P m -> (forall e, keeps P (h e)) -> keeps P (attempt m h).
Proof.
  intros Hm Hh s Hs. specialize (Hm s Hs). unfold attempt.
  destruct (m s) as [[a|e] s']; [done|by apply Hh].
Qed.
Create HintDb keeps.
#[export] Hint Resolve keeps_bind keeps_ret keeps_get keeps_lift keeps_run_if keeps_attempt : keeps.
(** Decompose a [keeps] goal along the code. *)
Ltac keep_step :=
  match goal with
  | |- keeps _ (_ ≫= _) => apply keeps_bind; [|intros ?]
  | |- keeps _ (mret _) => apply keeps_ret
  | |- keeps _ (get _) => apply keeps_get
  | |- keeps _ (lift _) => apply keeps_lift
  | |- keeps _ (run_if _ _) => apply keeps_run_if
  | |- keeps _ (attempt _ _) => apply keeps_attempt; [|intros ?]
  | |- keeps _ (if ?b then _ else _) => destruct b
  | |- keeps _ (match ?x with _ => _ end) => destruct x
  | |- keeps _ _ => solve [auto with keeps]
  end.
Ltac keep := cbv zeta; repeat keep_step.

(** ** Tactics shared by the development *)

(** Split the boolean connectives of the context and of the goal. *)
Ltac split_bools :=
  repeat match goal with
  | H : _ && _ = true |- _ => apply andb_true_iff in H as [? ?]
  | H : _ || _ = false |- _ => apply orb_false_iff in H as [? ?]
  | H : negb _ = true |- _ => apply negb_true_iff in H
  | H : negb _ = false |- _ => apply negb_false_iff in H
  | |- _ && _ = true => apply andb_true_iff; split
  | |- _ || _ = false => apply orb_false_iff; split
  end.

(** Case split on the scrutinee of the first [if] or [match] of the goal. *)
Ltac case_goal :=
  match goal with
  | |- context [match ?x with _ => _ end] => destruct x eqn:?
  end.

(** ** Lists *)

Lemma filter_length_le {A} (P : A -> Prop) `{forall x, Decision (P x)} (l : list A) :
  (length (filter P l) <= length l)%nat.
Proof. apply length_filter. Qed.

(** [Array.prototype.filter] with a boolean callback. *)
Fixpoint bfilter {A} (f : A -> bool) (l : list A) : list A :=
  match l with
  | [] => []
  | x :: l => if f x then x :: bfilter f l else bfilter f l
  end.

Lemma bfilter_In {A} (f : A -> bool) l x : In x (bfilter f l) <-> In x l /\ f x = true.
Proof.
  induction l as [|y l IH]; simpl; [tauto|].
  destruct (f y) eqn:E; simpl; rewrite IH; intuition congruence.
Qed.

Lemma bfilter_elem_of {A} (f : A -> bool) l x : x ∈ bfilter f l <-> x ∈ l /\ f x = true.
Proof. rewrite !list_elem_of_In. apply bfilter_In. Qed.

Lemma bfilter_sublist {A} (f : A -> bool) (l : list A) : bfilter f l `sublist_of` l.
Proof. induction l; simpl; [constructor|]. destruct (f a); by constructor. Qed.

Lemma bfilter_mono {A} (f : A -> bool) (l1 l2 : list A) :
  l1 `sublist_of` l2 -> bfilter f l1 `sublist_of` bfilter f l2.
Proof.
  induction 1 as [|x l1 l2 _ IH|x l1 l2 _ IH]; simpl; [constructor| |];
    destruct (f x); by try constructor.
Qed.

Lemma bfilter_length {A} (f : A -> bool) (l : list A) : (length (bfilter f l) <= length l)%nat.
Proof. apply sublist_length, bfilter_sublist. Qed.

Lemma bfilter_all {A} (f : A -> bool) (l : list A) :
  (forall x, x ∈ l -> f x = true) -> bfilter f l = l.
Proof.
  induction l as [|y l IH]; simpl; [done|]. intros H.
  rewrite (H y) by (apply elem_of_cons; auto). f_equal.
  apply IH. intros x Hx. apply H, elem_of_cons; auto.
Qed.

Lemma bfilter_none {A} (f : A -> bool) (l : list A) :
  (forall x, x ∈ l -> f x = false) -> bfilter f l = [].
Proof.
  induction l as [|y l IH]; simpl; [done|]. intros H.
  rewrite (H y) by (apply elem_of_cons; auto).
  apply IH. intros x Hx. apply H, elem_of_cons; auto.
Qed.

Lemma bfilter_app {A} (f : A -> bool) (l1 l2 : list A) :
  bfilter f (l1 ++ l2) = bfilter f l1 ++ bfilter f l2.
Proof. induction l1 as [|y l IH]; simpl; [done|]. destruct (f y); simpl; by rewrite IH. Qed.

Lemma bfilter_bfilter {A} (f g : A -> bool) (l : list A) :
  bfilter f (bfilter g l) = bfilter (fun x => g x && f x) l.
Proof.
  induction l as [|y l IH]; simpl; [done|].
  destruct (g y); simpl; [destruct (f y); simpl; by rewrite IH | done].
Qed.

Lemma bfilter_ext {A} (f g : A -> bool) (l : list A) : (forall x, f x = g x) -> bfilter f l = bfilter g l.
Proof. intros H. induction l as [|x l IH]; [done|]. cbn [bfilter]. by rewrite H, IH. Qed.
Lemma bfilter_fmap {A B} (g : A -> B) (q : B -> bool) l : bfilter q (g <$> l) = g <$> bfilter (fun x => q (g x)) l.
Proof. induction l as [|x l IH]; [done|]. cbn [fmap list_fmap bfilter]. destruct (q (g x)); cbn [fmap list_fmap]; by rewrite IH. Qed.

(** [Array.prototype.findIndex] and [Array.prototype.some]. *)
Fixpoint find_index {A} (f : A -> bool) (l : list A) : option nat :=
  match l with
  | [] => None
  | x :: l => if f x then Some 0%nat else S <$> find_index f l
  end.

Lemma find_index_Some {A} (f : A -> bool) (l : list A) i :
  find_index f l = Some i ->
  exists x, l !! i = Some x /\ f x = true /\
            forall j y, (j < i)%nat -> l !! j = Some y -> f y = false.
Proof.
  revert i; induction l as [|x l IH]; intros i; simpl; [done|].
  destruct (f x) eqn:E.
  - intros [= <-]. exists x. split_and!; [done..|lia].
  - destruct (find_index f l) as [k|]; simpl; [|done]. intros [= <-].
    destruct (IH k eq_refl) as (y & Hy & Hf & Hlt).
    exists y. split_and!; [done..|]. intros [|j] z Hj Hz; simpl in *; [congruence|].
    eapply Hlt; [|done]. lia.
Qed.

Lemma find_index_None {A} (f : A -> bool) (l : list A) :
  find_index f l = None <-> forall x, x ∈ l -> f x = false.
Proof.
  induction l as [|x l IH]; simpl.
  { split; [|done]. intros _ x Hx%elem_of_nil. done. }
  destruct (f x) eqn:E.
  - split; [done|]. intros H. rewrite (H x) in E; [done|]. apply elem_of_cons; auto.
  - rewrite fmap_None, IH. split.
    + intros H y [->|?]%elem_of_cons; auto.
    + intros H y Hy. apply H, elem_of_cons; auto.
Qed.

(** [list.slice(-n)]: the last [n] elements. *)
Definition slice_last {A} (n : nat) (l : list A) : list A := drop (length l - n) l.

Lemma slice_last_length {A} n (l : list A) : (length (slice_last n l) <= n)%nat.
Proof. unfold slice_last. rewrite length_drop. lia. Qed.

Lemma slice_last_sublist {A} n (l : list A) : slice_last n l `sublist_of` l.
Proof. unfold slice_last. apply sublist_drop. Qed.

Lemma slice_last_last {A} n (l : list A) x : (0 < n)%nat -> last (slice_last n (l ++ [x])) = Some x.
Proof.
  intros Hn. unfold slice_last. rewrite length_app; simpl.
  rewrite drop_app_le by lia. apply last_snoc.
Qed.

(** [l.sort(cmp)] for a comparator whose negative results are [lt]: stable. *)
Section Sort.
Context {A : Type} (lt : A -> A -> bool).

Fixpoint insert_by (x : A) (l : list A) : list A :=
  match l with
  | [] => [x]
  | y :: l => if lt x y then x :: y :: l else y :: insert_by x l
  end.
Definition sort_by (l : list A) : list A := foldl (fun acc x => insert_by x acc) [] l.

Lemma insert_by_elem x l y : y ∈ insert_by x l <-> y = x \/ y ∈ l.
Proof.
  induction l as [|z l IH]; simpl; [set_solver|]. destruct (lt x z); set_solver.
Qed.

Lemma sort_by_elem l y : y ∈ sort_by l <-> y ∈ l.
Proof.
  unfold sort_by. assert (forall acc, y ∈ foldl (fun acc x => insert_by x acc) acc l <-> y ∈ acc \/ y ∈ l) as H.
  { induction l as [|x l IH]; intros acc; simpl; [set_solver|].
    rewrite IH, insert_by_elem. set_solver. }
  rewrite H. set_solver.
Qed.

Lemma insert_by_perm x l : insert_by x l ≡ₚ x :: l.
Proof.
  induction l as [|y l IH]; simpl; [done|]. destruct (lt x y); [done|]. rewrite IH. constructor.
Qed.

Lemma sort_by_perm l : sort_by l ≡ₚ l.
Proof.
  unfold sort_by. assert (forall acc, foldl (fun acc x => insert_by x acc) acc l ≡ₚ acc ++ l) as H.
  { induction l as [|x l IH]; intros acc; simpl; [by rewrite app_nil_r|].
    rewrite IH, insert_by_perm. apply Permutation_middle. }
  apply H.
Qed.

(** The first element of a sorted list is a minimum. *)
Context (irrefl : forall x, lt x x = false).
Context (trans : forall x y z, lt x y = true -> lt y z = true -> lt x z = true).

Definition head_min (l : list A) : Prop := forall h y, head l = Some h -> y ∈ l -> lt y h = false.

Lemma insert_by_head_min x l : head_min l -> head_min (insert_by x l).
Proof.
  unfold head_min. destruct l as [|z l]; simpl; intros H h y.
  - intros [= <-] Hy. apply elem_of_cons in Hy as [->|Hy]; [apply irrefl|by apply elem_of_nil in Hy].
  - specialize (H z). destruct (lt x z) eqn:E; simpl; intros [= <-] Hy.
    + apply elem_of_cons in Hy as [->|Hy]; [apply irrefl|].
      apply not_true_iff_false. intros Hyx. specialize (H y eq_refl Hy).
      by rewrite (trans _ _ _ Hyx E) in H.
    + apply elem_of_cons in Hy as [->|Hy]; [apply irrefl|].
      apply insert_by_elem in Hy as [->|Hy]; [done|]. apply H; [done|]. apply elem_of_cons; by right.
Qed.

Lemma sort_by_head_min l : head_min (sort_by l).
Proof.
  unfold sort_by. assert (forall acc, head_min acc -> head_min (foldl (fun acc x => insert_by x acc) acc l)) as H.
  { induction l as [|x l IH]; intros acc Ha; simpl; [done|]. by apply IH, insert_by_head_min. }
  apply H. intros h y. discriminate.
Qed.
End Sort.
