(* ===== verification/JsString.v ===== *)
(** * JavaScript strings

    A JavaScript string is a sequence of 16-bit code units. The development
    represents it by a Rocq [string], so a code unit is below 256 (Latin-1):
    every string the modelled code writes itself is in that range. This file
    holds the [String.prototype] operations the modelled code uses and the
    lemmas the components share. *)
From S2P Require Import Prelude.
Local Open Scope Z_scope.

(** ** Characters *)

Definition code (c : ascii) : Z := Z.of_nat (nat_of_ascii c).
Definition chr (n : nat) : ascii := ascii_of_nat n.

Definition NL : ascii := chr 10.
Definition CR : ascii := chr 13.
Definition DQ : ascii := chr 34.
Definition s_nl : string := String NL "".
Definition s_dq : string := String DQ "".

Definition in_range (lo hi : Z) (c : ascii) : bool := (lo <=? code c) && (code c <=? hi).
Definition is_digit (c : ascii) : bool := in_range 48 57 c.
Definition is_lower (c : ascii) : bool := in_range 97 122 c.
Definition is_upper (c : ascii) : bool := in_range 65 90 c.
Definition is_alpha (c : ascii) : bool := is_lower c || is_upper c.
(** The regular-expression class [\w]. *)
Definition is_word (c : ascii) : bool := is_alpha c || is_digit c || Ascii.eqb c "_".
(** White space and line terminators below 256: the class [\s], what [trim]
    removes. *)
Definition is_space (c : ascii) : bool := in_range 9 13 c || (code c =? 32) || (code c =? 160).

(** [toLowerCase] on Latin-1: ASCII capitals, and U+00C0..U+00DE except U+00D7. *)
Definition lower_char (c : ascii) : ascii :=
  if is_upper c || (in_range 192 222 c && negb (code c =? 215))
  then chr (nat_of_ascii c + 32) else c.

Fixpoint to_lower (s : string) : string :=
  match s with
  | EmptyString => EmptyString
  | String c s => String (lower_char c) (to_lower s)
  end.

(** ** Length, slices *)

Notation slen := String.length.
Definition js_length (s : string) : Z := Z.of_nat (String.length s).

Fixpoint sdrop (n : nat) (s : string) : string :=
  match n, s with
  | S n, String _ s => sdrop n s
  | _, _ => s
  end.

Fixpoint stake (n : nat) (s : string) : string :=
  match n, s with
  | S n, String c s => String c (stake n s)
  | _, _ => EmptyString
  end.

(** [s.slice(i, j)] for [0 <= i], [0 <= j]. *)
Definition slice (i j : nat) (s : string) : string := stake (j - i) (sdrop i s).

Fixpoint srev_app (s acc : string) : string :=
  match s with EmptyString => acc | String c s => srev_app s (String c acc) end.
Definition srev (s : string) : string := srev_app s EmptyString.

Definition char_at (s : string) (i : nat) : option ascii := String.get i s.

(** UTF-8 size in bytes: what [fs.statSync(file).size] reports. *)
Fixpoint utf8_size (s : string) : Z :=
  match s with
  | EmptyString => 0
  | String c s => (if code c <? 128 then 1 else 2) + utf8_size s
  end.

(** ** Searching *)

Fixpoint starts_with (p s : string) : bool :=
  match p, s with
  | EmptyString, _ => true
  | String a p, String b s => Ascii.eqb a b && starts_with p s
  | _, EmptyString => false
  end.

Definition ends_with (p s : string) : bool := starts_with (srev p) (srev s).

(** [s.indexOf(p)]: the first position where [p] occurs. *)
Fixpoint index_of (p s : string) : option nat :=
  if starts_with p s then Some 0%nat
  else match s with
       | EmptyString => None
       | String _ s => S <$> index_of p s
       end.

(** [s.indexOf(p, from)]. *)
Definition index_of_from (p s : string) (from : nat) : option nat :=
  (fun i => i + from)%nat <$> index_of p (sdrop from s).

Definition includes (p s : string) : bool :=
  match index_of p s with Some _ => true | None => false end.

(** ** Trimming, splitting, joining *)

Fixpoint trim_start (s : string) : string :=
  match s with
  | String c s' => if is_space c then trim_start s' else s
  | EmptyString => EmptyString
  end.
Definition trim_end (s : string) : string := srev (trim_start (srev s)).
Definition trim (s : string) : string := trim_end (trim_start s).

(** [s.split(c)] for a one-character separator. *)
Fixpoint split_char (sep : ascii) (s : string) : list string :=
  match s with
  | EmptyString => [EmptyString]
  | String c s' =>
    if Ascii.eqb c sep then EmptyString :: split_char sep s'
    else match split_char sep s' with
         | w :: ws => String c w :: ws
         | [] => [String c EmptyString]
         end
  end.

(** [list.join(sep)]. *)
Fixpoint join (sep : string) (l : list string) : string :=
  match l with
  | [] => ""
  | [s] => s
  | s :: l => s +:+ sep +:+ join sep l
  end.

Definition split_lines (s : string) : list string := split_char NL s.

(** The default ordering of [Array.prototype.sort]: by code units. *)
Fixpoint string_leb (a b : string) : bool :=
  match a, b with
  | EmptyString, _ => true
  | String _ _, EmptyString => false
  | String x a, String y b =>
    if code x <? code y then true
    else if code y <? code x then false else string_leb a b
  end.

(** ** Lemmas *)

Lemma sapp_nil_r s : s +:+ "" = s.
Proof. induction s; simpl; congruence. Qed.

Lemma sapp_assoc s1 s2 s3 : (s1 +:+ s2) +:+ s3 = s1 +:+ (s2 +:+ s3).
Proof. induction s1; simpl; congruence. Qed.

Lemma slen_app s1 s2 : slen (s1 +:+ s2) = (slen s1 + slen s2)%nat.
Proof. induction s1; simpl; congruence. Qed.

Lemma sdrop_app s1 s2 : sdrop (slen s1) (s1 +:+ s2) = s2.
Proof. induction s1; simpl; [by destruct s2 | done]. Qed.

Lemma stake_app s1 s2 : stake (slen s1) (s1 +:+ s2) = s1.
Proof. induction s1; simpl; [by destruct s2 | congruence]. Qed.

Lemma stake_sdrop n s : stake n s +:+ sdrop n s = s.
Proof. revert n; induction s; intros [|n]; simpl; try done. by rewrite IHs. Qed.

Lemma slen_sdrop n s : slen (sdrop n s) = (slen s - n)%nat.
Proof. revert n; induction s; intros [|n]; simpl; try done. Qed.

Lemma slen_stake n s : slen (stake n s) = (n `min` slen s)%nat.
Proof. revert n; induction s; intros [|n]; simpl; try done. by rewrite IHs. Qed.

Lemma srev_app_spec s acc : srev_app s acc = srev s +:+ acc.
Proof.
  revert acc; induction s as [|c s IH]; intros acc; simpl; [done|].
  unfold srev; simpl. rewrite (IH (String c acc)), (IH (String c "")), sapp_assoc. done.
Qed.

Lemma srev_cons c s : srev (String c s) = srev s +:+ String c "".
Proof. unfold srev at 1; simpl. apply srev_app_spec. Qed.

Lemma srev_append s1 s2 : srev (s1 +:+ s2) = srev s2 +:+ srev s1.
Proof.
  induction s1 as [|c s1 IH]; simpl; [by rewrite sapp_nil_r|].
  by rewrite !srev_cons, IH, sapp_assoc.
Qed.

Lemma srev_involutive s : srev (srev s) = s.
Proof. induction s as [|c s IH]; [done|]. by rewrite srev_cons, srev_append, IH. Qed.

Lemma slen_srev s : slen (srev s) = slen s.
Proof. induction s as [|c s IH]; [done|]. rewrite srev_cons, slen_app, IH; simpl. lia. Qed.

Lemma starts_with_app p s : starts_with p (p +:+ s) = true.
Proof. induction p; simpl; [done|]. by rewrite Ascii.eqb_refl. Qed.

Lemma starts_with_iff p s : starts_with p s = true <-> exists r, s = p +:+ r.
Proof.
  split.
  - revert s; induction p as [|a p IH]; intros s H; [by exists s|].
    destruct s as [|b s]; simpl in H; [done|]. split_bools.
    apply Ascii.eqb_eq in H as ->. destruct (IH s) as [r ->]; [done|]. by exists r.
  - intros [r ->]. apply starts_with_app.
Qed.

Lemma ends_with_iff p s : ends_with p s = true <-> exists r, s = r +:+ p.
Proof.
  unfold ends_with. rewrite starts_with_iff. split; intros [r Hr].
  - exists (srev r). rewrite <-(srev_involutive s), Hr, srev_append, srev_involutive. done.
  - exists (srev r). by rewrite Hr, srev_append.
Qed.

Lemma index_of_Some p s i :
  index_of p s = Some i -> exists a b, s = a +:+ p +:+ b /\ slen a = i.
Proof.
  revert i; induction s as [|c s IH]; intros i; simpl.
  - destruct (starts_with p "") eqn:E; [|done]. intros [= <-].
    apply starts_with_iff in E as [r ->]. by exists "", r.
  - destruct (starts_with p (String c s)) eqn:E.
    + intros [= <-]. apply starts_with_iff in E as [r ->]. by exists "", r.
    + destruct (index_of p s) as [k|]; simpl; [|done]. intros [= <-].
      destruct (IH k eq_refl) as (a & b & -> & <-). by exists (String c a), b.
Qed.

Lemma index_of_lt p s i : index_of p s = Some i -> (i + slen p <= slen s)%nat.
Proof. intros (a & b & -> & <-)%index_of_Some. rewrite !slen_app. lia. Qed.

Lemma includes_iff p s : includes p s = true <-> exists a b, s = a +:+ p +:+ b.
Proof.
  unfold includes. split.
  - destruct (index_of p s) eqn:E; [|done]. intros _.
    apply index_of_Some in E as (a & b & ? & _). eauto.
  - intros (a & b & ->). destruct (index_of p (a +:+ p +:+ b)) eqn:E; [done|].
    exfalso. induction a as [|c a IH]; simpl in *.
    + destruct p as [|x p]; simpl in E; [by destruct b|].
      rewrite Ascii.eqb_refl, starts_with_app in E. done.
    + destruct (starts_with p _); [done|].
      apply IH. by destruct (index_of p (a +:+ p +:+ b)).
Qed.

Lemma split_char_nonempty sep s : split_char sep s <> [].
Proof.
  destruct s as [|c s]; simpl; [done|].
  destruct (Ascii.eqb c sep); [done|]. by destruct (split_char sep s).
Qed.

(** [s.split(c).join(c)] is [s]. *)
Lemma join_split_char sep s : join (String sep "") (split_char sep s) = s.
Proof.
  induction s as [|c s IH]; simpl; [done|].
  destruct (Ascii.eqb_spec c sep) as [->|Hc].
  - destruct (split_char sep s) eqn:E; [by apply split_char_nonempty in E|].
    rewrite <-IH. done.
  - destruct (split_char sep s) as [|w [|w' ws]] eqn:E; simpl in *; congruence.
Qed.

Fixpoint sforall (f : ascii -> bool) (s : string) : bool :=
  match s with EmptyString => true | String c s => f c && sforall f s end.

Lemma sforall_app f s1 s2 : sforall f (s1 +:+ s2) = sforall f s1 && sforall f s2.
Proof. induction s1; simpl; [done|]. by rewrite IHs1, andb_assoc. Qed.

Definition no_char (c : ascii) (s : string) : bool := sforall (fun d => negb (Ascii.eqb d c)) s.

Lemma split_char_none sep s : no_char sep s = true -> split_char sep s = [s].
Proof.
  unfold no_char. induction s as [|c s IH]; simpl; [done|]. intros H; split_bools.
  by rewrite H, IH.
Qed.

(** A line without the separator, followed by the separator, is the first
    element of the split. *)
Lemma split_char_cons sep l s :
  no_char sep l = true -> split_char sep (l +:+ String sep s) = l :: split_char sep s.
Proof.
  unfold no_char. induction l as [|c l IH]; simpl; intros H.
  - by rewrite Ascii.eqb_refl.
  - split_bools. by rewrite H, IH.
Qed.

Lemma utf8_size_app s1 s2 : utf8_size (s1 +:+ s2) = utf8_size s1 + utf8_size s2.
Proof. induction s1 as [|c s1 IH]; simpl; [done|]. rewrite IH. lia. Qed.

Lemma utf8_size_nonneg s : 0 <= utf8_size s.
Proof. induction s as [|c s IH]; simpl; [lia|]. destruct (code c <? 128); lia. Qed.

Lemma utf8_size_pos s : s <> "" -> 0 < utf8_size s.
Proof.
  destruct s as [|c s]; [done|]; simpl. pose proof (utf8_size_nonneg s).
  destruct (code c <? 128); lia.
Qed.

#[export] Hint Rewrite sapp_nil_r sapp_assoc slen_app srev_append srev_involutive : js_str.
