(* ===== verification/Encodings.v ===== *)
(** * Encodings: UTF-8, percent-encoding and Base64

    [encodeURIComponent], [Buffer.from(text, 'utf-8').toString('base64')] and the way back, for texts
    of code units below 256. Bytes are characters of a string. *)
From S2P Require Import Prelude JsString.
Local Open Scope Z_scope.

Definition byte (z : Z) : ascii := ascii_of_nat (Z.to_nat z).

(** ** UTF-8 *)

Fixpoint utf8_bytes (s : string) : string :=
  match s with
  | "" => ""
  | String c s =>
    if code c <? 128 then String c (utf8_bytes s)
    else String (byte (192 + code c / 64)) (String (byte (128 + code c mod 64)) (utf8_bytes s))
  end.

(** [None]: bytes that stand for a character above 255, or for none. *)
Fixpoint utf8_text (s : string) : option string :=
  match s with
  | "" => Some ""
  | String a s =>
    if code a <? 128 then String a <$> utf8_text s
    else match s with
         | String b s =>
           if (194 <=? code a) && (code a <=? 195) && (128 <=? code b) && (code b <? 192)
           then String (byte ((code a - 192) * 64 + (code b - 128))) <$> utf8_text s else None
         | "" => None
         end
  end.

(** ** Percent-encoding *)

Definition hex_digit (z : Z) : ascii := if z <? 10 then byte (48 + z) else byte (55 + z).
Definition unreserved (c : ascii) : bool :=
  is_alpha c || is_digit c || existsb (Ascii.eqb c) (list_ascii_of_string "-_.!~*'()").
Fixpoint percent (s : string) : string :=
  match s with
  | "" => ""
  | String c s => if unreserved c then String c (percent s)
                  else String "%" (String (hex_digit (code c / 16)) (String (hex_digit (code c mod 16)) (percent s)))
  end.
Definition encodeURIComponent (s : string) : string := percent (utf8_bytes s).

(** ** Base64 *)

Definition B64 : string := "ABCDEFGHIJKLMNOPQRSTUVWXYZabcdefghijklmnopqrstuvwxyz0123456789+/".
Definition b64 (z : Z) : ascii := default "A"%char (String.get (Z.to_nat z) B64).
Definition unb64 (c : ascii) : option Z :=
  if is_upper c then Some (code c - 65) else if is_lower c then Some (code c - 71)
  else if is_digit c then Some (code c + 4) else if Ascii.eqb c "+" then Some 62 else if Ascii.eqb c "/" then Some 63 else None.

Fixpoint base64_bytes (s : string) : string :=
  match s with
  | "" => ""
  | String a "" => String (b64 (code a / 4)) (String (b64 (code a mod 4 * 16)) "==")
  | String a (String b "") =>
    String (b64 (code a / 4)) (String (b64 (code a mod 4 * 16 + code b / 16)) (String (b64 (code b mod 16 * 4)) "="))
  | String a (String b (String c s)) =>
    String (b64 (code a / 4)) (String (b64 (code a mod 4 * 16 + code b / 16))
      (String (b64 (code b mod 16 * 4 + code c / 64)) (String (b64 (code c mod 64)) (base64_bytes s))))
  end.

(** [None]: not the Base64 form of any bytes. *)
Fixpoint unbase64_bytes (s : string) : option string :=
  match s with
  | "" => Some ""
  | String c1 (String c2 (String c3 (String c4 rest))) =>
    x1 ← unb64 c1; x2 ← unb64 c2;
    let b1 := byte (x1 * 4 + x2 / 16) in
    if Ascii.eqb c3 "=" then
      if Ascii.eqb c4 "=" && String.eqb rest "" && (x2 mod 16 =? 0) then Some (String b1 "") else None
    else
      x3 ← unb64 c3;
      let b2 := byte (x2 mod 16 * 16 + x3 / 4) in
      if Ascii.eqb c4 "=" then
        if String.eqb rest "" && (x3 mod 4 =? 0) then Some (String b1 (String b2 "")) else None
      else
        x4 ← unb64 c4;
        String b1 <$> (String b2 <$> (String (byte (x3 mod 4 * 64 + x4)) <$> unbase64_bytes rest))
  | _ => None
  end.

Definition to_base64 (text : string) : string := base64_bytes (utf8_bytes text).
Definition of_base64 (v : string) : option string := bytes ← unbase64_bytes v; utf8_text bytes.

(** * Theorems *)

Lemma code_byte z : 0 <= z < 256 -> code (byte z) = z.
Proof. intros H. unfold code, byte. rewrite nat_ascii_embedding; lia. Qed.
Lemma byte_code c : byte (code c) = c.
Proof. unfold code, byte. by rewrite Nat2Z.id, ascii_nat_embedding. Qed.
Lemma code_range c : 0 <= code c < 256.
Proof. unfold code. pose proof (nat_ascii_bounded c). lia. Qed.

Lemma utf8_roundtrip s : utf8_text (utf8_bytes s) = Some s.
Proof.
  induction s as [|c s IH]; [done|]. cbn [utf8_bytes]. pose proof (code_range c) as Hc. destruct (Z.ltb_spec (code c) 128) as [H|H].
  - cbn [utf8_text]. apply Z.ltb_lt in H. by rewrite H, IH.
  - cbn [utf8_text]. assert (2 <= code c / 64 <= 3) as Hq by (split; [apply Z.div_le_lower_bound|apply Z.lt_succ_r, Z.div_lt_upper_bound]; lia).
    pose proof (Z.mod_pos_bound (code c) 64 ltac:(lia)) as Hm. rewrite !code_byte by lia.
    destruct (Z.ltb_spec (192 + code c / 64) 128) as [?|_]; [lia|].
    assert ((194 <=? 192 + code c / 64) && (192 + code c / 64 <=? 195) && (128 <=? 128 + code c mod 64) && (128 + code c mod 64 <? 192) = true) as ->.
    { rewrite !andb_true_iff, !Z.leb_le, Z.ltb_lt. lia. }
    rewrite IH. cbn [fmap option_fmap option_map]. do 2 f_equal.
    replace ((192 + code c / 64 - 192) * 64 + (128 + code c mod 64 - 128)) with (code c); [apply byte_code|].
    pose proof (Z.div_mod (code c) 64 ltac:(lia)). lia.
Qed.

Lemma unb64_b64 z : 0 <= z < 64 -> unb64 (b64 z) = Some z /\ Ascii.eqb (b64 z) "=" = false.
Proof.
  intros H. assert (forallb (fun n => bool_decide (unb64 (b64 (Z.of_nat n)) = Some (Z.of_nat n)) && negb (Ascii.eqb (b64 (Z.of_nat n)) "=")) (seq 0 64) = true) as Hall
    by (vm_compute; reflexivity).
  rewrite forallb_forall in Hall. specialize (Hall (Z.to_nat z)). rewrite Z2Nat.id in Hall by lia.
  apply andb_true_iff in Hall as [E1 E2]; [|apply in_seq; lia]. split; [by apply bool_decide_eq_true in E1|by apply negb_true_iff].
Qed.

(** The induction of Base64: three bytes at a time. *)
Lemma string_ind3 (P : string -> Prop) : P "" -> (forall a, P (String a "")) -> (forall a b, P (String a (String b ""))) ->
  (forall a b c s, P s -> P (String a (String b (String c s)))) -> forall s, P s.
Proof.
  intros H0 H1 H2 H3 s. assert (P s /\ (forall a, P (String a s)) /\ forall a b, P (String a (String b s))) as [? _]; [|done].
  induction s as [|c s (IH0 & IH1 & IH2)]; [done|]. split_and!; [done|done|]. intros a b. by apply H3.
Qed.

Lemma div_range a n m : 0 < n -> 0 <= a < n * m -> 0 <= a / n < m.
Proof. intros Hn Ha. split; [apply Z.div_pos; lia|apply Z.div_lt_upper_bound; lia]. Qed.

Lemma base64_roundtrip_bytes s : unbase64_bytes (base64_bytes s) = Some s.
Proof.
  induction s as [|a|a b|a b c s IH] using string_ind3; [done|..]; cbn [base64_bytes].
  all: pose proof (code_range a) as Ha; pose proof (div_range (code a) 4 64 ltac:(lia) ltac:(lia)) as Ha1; pose proof (Z.mod_pos_bound (code a) 4 ltac:(lia)) as Ha2;
    pose proof (Z.div_mod (code a) 4 ltac:(lia)) as Ha3.
  - cbn [unbase64_bytes].
    destruct (unb64_b64 (code a / 4)) as [-> _]; [lia|]. destruct (unb64_b64 (code a mod 4 * 16)) as [-> _]; [lia|].
    cbn [mbind option_bind Ascii.eqb Bool.eqb andb String.eqb]. rewrite Z_mod_mult, Z.div_mul by lia.
    replace (code a / 4 * 4 + code a mod 4) with (code a) by lia. by rewrite byte_code.
  - pose proof (code_range b) as Hb. pose proof (div_range (code b) 16 16 ltac:(lia) ltac:(lia)) as Hb1. pose proof (Z.mod_pos_bound (code b) 16 ltac:(lia)) as Hb2.
    pose proof (Z.div_mod (code b) 16 ltac:(lia)) as Hb3. cbn [unbase64_bytes].
    destruct (unb64_b64 (code a / 4)) as [-> _]; [lia|]. destruct (unb64_b64 (code a mod 4 * 16 + code b / 16)) as [-> _]; [lia|].
    destruct (unb64_b64 (code b mod 16 * 4)) as [-> ->]; [lia|].
    cbn [mbind option_bind Ascii.eqb Bool.eqb andb String.eqb]. rewrite Z_mod_mult.
    rewrite !(Z.add_comm (code a mod 4 * 16)), Z.div_add, Z_mod_plus_full, (Z.div_small (code b / 16)), (Z.mod_small (code b / 16)), Z.div_mul by lia.
    replace (code a / 4 * 4 + (0 + code a mod 4)) with (code a) by lia. replace (code b / 16 * 16 + code b mod 16) with (code b) by lia. by rewrite !byte_code.
  - pose proof (code_range b) as Hb. pose proof (div_range (code b) 16 16 ltac:(lia) ltac:(lia)) as Hb1. pose proof (Z.mod_pos_bound (code b) 16 ltac:(lia)) as Hb2.
    pose proof (Z.div_mod (code b) 16 ltac:(lia)) as Hb3. pose proof (code_range c) as Hc. pose proof (div_range (code c) 64 4 ltac:(lia) ltac:(lia)) as Hc1.
    pose proof (Z.mod_pos_bound (code c) 64 ltac:(lia)) as Hc2. pose proof (Z.div_mod (code c) 64 ltac:(lia)) as Hc3. cbn [unbase64_bytes].
    destruct (unb64_b64 (code a / 4)) as [-> _]; [lia|]. destruct (unb64_b64 (code a mod 4 * 16 + code b / 16)) as [-> _]; [lia|].
    destruct (unb64_b64 (code b mod 16 * 4 + code c / 64)) as [-> ->]; [lia|]. destruct (unb64_b64 (code c mod 64)) as [-> ->]; [lia|].
    cbn [mbind option_bind]. rewrite IH. cbn [fmap option_fmap option_map].
    rewrite !(Z.add_comm (code a mod 4 * 16)), Z.div_add, Z_mod_plus_full, (Z.div_small (code b / 16)), (Z.mod_small (code b / 16)) by lia.
    rewrite !(Z.add_comm (code b mod 16 * 4)), Z.div_add, Z_mod_plus_full, (Z.div_small (code c / 64)), (Z.mod_small (code c / 64)) by lia.
    replace (code a / 4 * 4 + (0 + code a mod 4)) with (code a) by lia. replace (code b / 16 * 16 + (0 + code b mod 16)) with (code b) by lia.
    replace (code c / 64 * 64 + code c mod 64) with (code c) by lia. by rewrite !byte_code.
Qed.

(** What was encoded decodes to itself. *)
Lemma base64_roundtrip s : of_base64 (to_base64 s) = Some s.
Proof. unfold of_base64, to_base64. rewrite base64_roundtrip_bytes. apply utf8_roundtrip. Qed.

(** ** The characters of the encodings *)

Lemma sforall_impl (p q : ascii -> bool) s : (forall c, p c = true -> q c = true) -> sforall p s = true -> sforall q s = true.
Proof.
  intros H. induction s as [|c s IH]; [done|]. cbn [sforall]. intros [Hc Hs]%andb_true_iff. by rewrite (H c Hc), IH.
Qed.

Definition url_char (c : ascii) : bool := unreserved c || Ascii.eqb c "%".

Lemma hex_digit_safe z : 0 <= z < 16 -> unreserved (hex_digit z) = true.
Proof.
  intros H. assert (forallb (fun n => unreserved (hex_digit (Z.of_nat n))) (seq 0 16) = true) as Hall by (vm_compute; reflexivity).
  rewrite forallb_forall in Hall. specialize (Hall (Z.to_nat z)). rewrite Z2Nat.id in Hall by lia. apply Hall, in_seq. lia.
Qed.

Lemma encoded_chars s : sforall url_char (encodeURIComponent s) = true.
Proof.
  unfold encodeURIComponent. induction (utf8_bytes s) as [|c t IH]; [done|]. cbn [percent]. destruct (unreserved c) eqn:E; cbn [sforall].
  - unfold url_char at 1. by rewrite E.
  - pose proof (code_range c) as Hc. unfold url_char at 1 2 3. rewrite Ascii.eqb_refl, orb_true_r.
    rewrite (hex_digit_safe (code c / 16)), (hex_digit_safe (code c mod 16)); [done|apply Z.mod_pos_bound; lia|apply (div_range _ 16 16); lia].
Qed.

Definition b64_char (c : ascii) : bool := is_alpha c || is_digit c || Ascii.eqb c "+" || Ascii.eqb c "/" || Ascii.eqb c "=".
Lemma b64_safe z : b64_char (b64 z) = true.
Proof.
  unfold b64. destruct (String.get _ B64) as [c|] eqn:E; [|done]. cbn [default from_option].
  assert (forallb (fun c => b64_char c) (list_ascii_of_string B64) = true) as Hall by (vm_compute; reflexivity).
  rewrite forallb_forall in Hall. apply Hall. clear Hall. revert E. generalize (Z.to_nat z). generalize B64 as s.
  induction s as [|d s IH]; intros n; [done|]. destruct n as [|n]; cbn [String.get list_ascii_of_string]; [intros [= ->]; by left|]. intros H. right. by apply (IH n).
Qed.
Lemma base64_chars s : sforall b64_char (to_base64 s) = true.
Proof.
  unfold to_base64. induction (utf8_bytes s) as [|a|a b|a b c t IH] using string_ind3; [done|..]; cbn [base64_bytes sforall]; rewrite !b64_safe; done.
Qed.
