(* ===== verification/JsValue.v ===== *)
(** * JavaScript values

    The value type of the modelled code: primitives, arrays and plain objects,
    with the coercions of the language ([Boolean], [Number], [String], [??],
    [||], [===], [typeof]) and property access.

    A number is exact: an integer, a reduced fraction, an infinity or [NaN].
    The modelled code only adds, subtracts and compares integers, which is exact
    in IEEE doubles up to 2^53. [-0] is identified with [0]. An object is the
    association list of its own enumerable properties in insertion order; the
    prototype chain is not modelled. Objects are values: where the code shares
    a mutable object between two places, the component's state says so. *)
From S2P Require Import Prelude JsString.
Local Open Scope Z_scope.

(** ** Association lists: objects and [Map]s in insertion order *)

Section Assoc.
Context {A : Type}.
Implicit Types (l : list (string * A)) (k : string) (v : A).

Fixpoint assoc_get k l : option A :=
  match l with
  | [] => None
  | (k', v) :: l => if String.eqb k k' then Some v else assoc_get k l
  end.

(** Assignment replaces in place or appends. *)
Fixpoint assoc_set k v l : list (string * A) :=
  match l with
  | [] => [(k, v)]
  | (k', v') :: l => if String.eqb k k' then (k', v) :: l else (k', v') :: assoc_set k v l
  end.

Fixpoint assoc_del k l : list (string * A) :=
  match l with
  | [] => []
  | (k', v') :: l => if String.eqb k k' then assoc_del k l else (k', v') :: assoc_del k l
  end.

(** [{ ...base, ...extra }]. *)
Definition assoc_merge (base extra : list (string * A)) : list (string * A) :=
  foldl (fun acc kv => assoc_set kv.1 kv.2 acc) base extra.

Definition keys l : list string := l.*1.

Lemma assoc_get_set k k' v l :
  assoc_get k (assoc_set k' v l) = if String.eqb k k' then Some v else assoc_get k l.
Proof.
  induction l as [|[k1 v1] l IH]; simpl; [done|].
  destruct (String.eqb_spec k' k1) as [->|H]; simpl.
  - by destruct (String.eqb k k1).
  - rewrite IH. destruct (String.eqb_spec k k1) as [->|]; [|done].
    destruct (String.eqb_spec k1 k') as [->|]; done.
Qed.

Lemma assoc_get_set_eq k v l : assoc_get k (assoc_set k v l) = Some v.
Proof. by rewrite assoc_get_set, String.eqb_refl. Qed.

Lemma assoc_get_set_ne k k' v l : k <> k' -> assoc_get k (assoc_set k' v l) = assoc_get k l.
Proof. intros H. rewrite assoc_get_set. by apply String.eqb_neq in H as ->. Qed.

Lemma assoc_get_del k k' l :
  assoc_get k (assoc_del k' l) = if String.eqb k k' then None else assoc_get k l.
Proof.
  induction l as [|[k1 v1] l IH]; simpl; [by destruct (String.eqb k k')|].
  destruct (String.eqb_spec k' k1) as [->|H]; simpl; rewrite IH.
  - by destruct (String.eqb k k1).
  - destruct (String.eqb_spec k k1) as [->|]; [|done].
    destruct (String.eqb_spec k1 k') as [->|]; done.
Qed.

Lemma assoc_get_In k v l : assoc_get k l = Some v -> In (k, v) l.
Proof.
  induction l as [|[k1 v1] l IH]; simpl; [done|].
  destruct (String.eqb_spec k k1) as [->|]; [intros [= ->]; auto | auto].
Qed.

Lemma assoc_get_None k l : assoc_get k l = None <-> k ∉ keys l.
Proof.
  induction l as [|[k1 v1] l IH]; simpl; [split; [|done]; intros _ H%elem_of_nil; done|].
  rewrite not_elem_of_cons. destruct (String.eqb_spec k k1); [naive_solver|]. rewrite IH. naive_solver.
Qed.

Lemma assoc_set_fresh k v l : assoc_get k l = None -> assoc_set k v l = l ++ [(k, v)].
Proof.
  induction l as [|[k1 v1] l IH]; simpl; [done|].
  destruct (String.eqb k k1); [done|]. intros H. by rewrite IH.
Qed.

Lemma keys_assoc_set k v l :
  keys (assoc_set k v l) = if decide (k ∈ keys l) then keys l else keys l ++ [k].
Proof.
  induction l as [|[k1 v1] l IH]; simpl; [done|].
  destruct (String.eqb_spec k k1) as [->|H]; simpl.
  - rewrite decide_True; [done|]. apply elem_of_cons; auto.
  - rewrite IH. repeat case_decide; try done; exfalso; rewrite elem_of_cons in *; naive_solver.
Qed.

Lemma assoc_set_NoDup k v l : NoDup (keys l) -> NoDup (keys (assoc_set k v l)).
Proof.
  intros H. rewrite keys_assoc_set. case_decide; [done|].
  apply NoDup_app. split_and!; [done| |apply NoDup_singleton].
  intros x Hx ->%list_elem_of_singleton. done.
Qed.

Lemma assoc_merge_NoDup l1 l2 : NoDup (keys l1) -> NoDup (keys (assoc_merge l1 l2)).
Proof.
  unfold assoc_merge. revert l1; induction l2 as [|[k v] l2 IH]; intros l1 H; simpl; [done|].
  by apply IH, assoc_set_NoDup.
Qed.

Lemma assoc_merge_app l1 l2 : NoDup (keys (l1 ++ l2)) -> assoc_merge l1 l2 = l1 ++ l2.
Proof.
  unfold assoc_merge. revert l1; induction l2 as [|[k v] l2 IH]; intros l1 H; simpl.
  { by rewrite app_nil_r. }
  rewrite assoc_set_fresh.
  - rewrite IH; rewrite <-app_assoc; done.
  - apply assoc_get_None. unfold keys in *. rewrite fmap_app in H; simpl in H.
    apply NoDup_app in H as (_ & H & _). intros Hk. eapply H; [done|]. apply elem_of_cons; auto.
Qed.

Lemma assoc_del_fresh k l : assoc_get k l = None -> assoc_del k l = l.
Proof.
  induction l as [|[k' v'] l IH]; simpl; [done|].
  destruct (String.eqb k k'); [done|]. intros H. by rewrite IH.
Qed.

Lemma assoc_del_app k l1 l2 : assoc_del k (l1 ++ l2) = assoc_del k l1 ++ assoc_del k l2.
Proof. induction l1 as [|[k' v'] l1 IH]; simpl; [done|]. rewrite IH. by destruct (String.eqb k k'). Qed.

Lemma assoc_get_app k l1 l2 :
  assoc_get k (l1 ++ l2) = match assoc_get k l1 with Some v => Some v | None => assoc_get k l2 end.
Proof. induction l1 as [|[k' v'] l1 IH]; simpl; [done|]. by destruct (String.eqb k k'). Qed.

Lemma keys_app l1 l2 : keys (l1 ++ l2) = keys l1 ++ keys l2.
Proof. apply fmap_app. Qed.

Lemma assoc_ext l1 l2 : NoDup (keys l1) -> keys l1 = keys l2 ->
  (forall k, assoc_get k l1 = assoc_get k l2) -> l1 = l2.
Proof.
  revert l2; induction l1 as [|[k v] l1 IH]; intros [|[k2 v2] l2] Hd Hk Hg; try done.
  injection Hk as -> Hk. apply NoDup_cons in Hd as [Hn Hd]. simpl in *.
  pose proof (Hg k2) as Hv. rewrite String.eqb_refl in Hv. injection Hv as ->.
  f_equal. apply IH; [done..|]. intros k. specialize (Hg k).
  destruct (String.eqb_spec k k2) as [E|]; [subst k|done].
  assert (k2 ∉ keys l2) by (unfold keys in *; by rewrite <- Hk).
  transitivity (@None A); [by apply assoc_get_None|symmetry; by apply assoc_get_None].
Qed.

Lemma assoc_get_merge k l1 l2 :
  NoDup (keys l2) ->
  assoc_get k (assoc_merge l1 l2) =
    match assoc_get k l2 with Some v => Some v | None => assoc_get k l1 end.
Proof.
  unfold assoc_merge. revert l1; induction l2 as [|[k1 v1] l2 IH]; intros l1 H; simpl; [done|].
  apply NoDup_cons in H as [Hk H]. simpl in Hk. rewrite IH by done. rewrite assoc_get_set.
  destruct (String.eqb_spec k k1) as [->|]; [|done].
  apply assoc_get_None in Hk. by rewrite Hk.
Qed.

Lemma keys_merge_known l extra : Forall (fun k => k ∈ keys l) (keys extra) ->
  keys (assoc_merge l extra) = keys l.
Proof.
  unfold assoc_merge. revert l; induction extra as [|[k v] extra IH]; intros l H; [done|].
  apply Forall_cons in H as [Hk H]. cbn [foldl fst snd].
  assert (keys (assoc_set k v l) = keys l) as Hs by (rewrite keys_assoc_set; by rewrite decide_True).
  rewrite IH, Hs; [done|]. by rewrite Hs.
Qed.

(** Merging onto [b] a list that has the keys of [b], in order, and then others. *)
Lemma assoc_merge_cover b l extra : NoDup (keys l) -> keys l = keys b ++ extra -> assoc_merge b l = l.
Proof.
  intros Hd Hk.
  assert (keys (take (length b) l) = keys b) as H1.
  { unfold keys in *. rewrite fmap_take, Hk, take_app_length'; [done|]. by rewrite length_fmap. }
  assert (NoDup (keys (take (length b) l))) as H2.
  { rewrite H1. rewrite Hk in Hd. by apply NoDup_app in Hd as [? _]. }
  transitivity (assoc_merge (assoc_merge b (take (length b) l)) (drop (length b) l)).
  { unfold assoc_merge. by rewrite <- foldl_app, take_drop. }
  assert (assoc_merge b (take (length b) l) = take (length b) l) as ->.
  { apply assoc_ext.
    - rewrite keys_merge_known; [by rewrite <- H1|]. rewrite H1. by apply Forall_forall.
    - rewrite keys_merge_known; [done|]. rewrite H1. by apply Forall_forall.
    - intros k. rewrite assoc_get_merge by done.
      destruct (assoc_get k (take (length b) l)) eqn:E; [done|].
      apply assoc_get_None in E. apply assoc_get_None. by rewrite <- H1. }
  rewrite assoc_merge_app; by rewrite take_drop.
Qed.
End Assoc.

(** ** Numbers *)

Inductive num : Type :=
| NInt (z : Z)
| NFrac (n : Z) (d : positive)  (* reduced, [d > 1] *)
| NInf (negative : bool)
| NNaN.

#[export] Instance num_eq_dec : EqDecision num.
Proof. solve_decision. Defined.

(** The number [n / d]. *)
Definition mk_num (n : Z) (d : positive) : num :=
  let g := Z.gcd n (Zpos d) in
  let d' := Zpos d / g in
  if d' =? 1 then NInt (n / g) else NFrac (n / g) (Z.to_pos d').

Definition num_cmp (a b : num) : option comparison :=
  match a, b with
  | NNaN, _ | _, NNaN => None
  | NInf s, NInf t => Some (match s, t with true, false => Lt | false, true => Gt | _, _ => Eq end)
  | NInf s, _ => Some (if s then Lt else Gt)
  | _, NInf t => Some (if t then Gt else Lt)
  | NInt x, NInt y => Some (x ?= y)
  | NInt x, NFrac m e => Some (x * Zpos e ?= m)
  | NFrac n d, NInt y => Some (n ?= y * Zpos d)
  | NFrac n d, NFrac m e => Some (n * Zpos e ?= m * Zpos d)
  end.

Definition num_ltb (a b : num) : bool :=
  match num_cmp a b with Some Lt => true | _ => false end.
Definition num_leb (a b : num) : bool :=
  match num_cmp a b with Some Lt | Some Eq => true | _ => false end.
Definition num_eqb (a b : num) : bool :=
  match num_cmp a b with Some Eq => true | _ => false end.

Definition num_add (a b : num) : num :=
  match a, b with
  | NNaN, _ | _, NNaN => NNaN
  | NInf s, NInf t => if Bool.eqb s t then NInf s else NNaN
  | NInf s, _ | _, NInf s => NInf s
  | NInt x, NInt y => NInt (x + y)
  | NInt x, NFrac m e => mk_num (x * Zpos e + m) e
  | NFrac n d, NInt y => mk_num (n + y * Zpos d) d
  | NFrac n d, NFrac m e => mk_num (n * Zpos e + m * Zpos d) (d * e)
  end.

(** [Number.isInteger] and [Number.isFinite] on a number. *)
Definition num_is_integer (a : num) : bool := match a with NInt _ => true | _ => false end.
Definition num_is_finite (a : num) : bool :=
  match a with NInt _ | NFrac _ _ => true | _ => false end.

(** ** Decimal text *)

Definition digit_char (d : Z) : ascii := chr (Z.to_nat (48 + d)).

Fixpoint print_digits (fuel : nat) (n : Z) (acc : string) : string :=
  match fuel with
  | O => acc
  | S fuel =>
    if n <? 10 then String (digit_char n) acc
    else print_digits fuel (n / 10) (String (digit_char (n mod 10)) acc)
  end.

Definition print_nat (n : Z) : string := print_digits (S (Z.to_nat (Z.log2 n))) n "".
Definition print_Z (z : Z) : string :=
  if z <? 0 then String "-" (print_nat (- z)) else print_nat z.

Fixpoint read_digits (acc : Z) (s : string) : Z * string :=
  match s with
  | String c s' => if is_digit c then read_digits (acc * 10 + (code c - 48)) s' else (acc, s)
  | EmptyString => (acc, s)
  end.

Fixpoint count_digits (s : string) : nat :=
  match s with String c s' => if is_digit c then S (count_digits s') else 0%nat | _ => 0%nat end.

(** Decimal expansion of [n / d], at most [k] digits. *)
Fixpoint frac_digits (k : nat) (r d : Z) : string :=
  match k with
  | O => ""
  | S k => if r =? 0 then "" else
           String (digit_char (r * 10 / d)) (frac_digits k ((r * 10) mod d) d)
  end.

Definition num_to_string (a : num) : string :=
  match a with
  | NInt z => print_Z z
  | NFrac n d =>
    let s := print_Z (Z.abs n / Zpos d) +:+ "." +:+ frac_digits 25 (Z.abs n mod Zpos d) (Zpos d) in
    if n <? 0 then String "-" s else s
  | NInf s => if s then "-Infinity" else "Infinity"
  | NNaN => "NaN"
  end.

(** ** Numeric literals: the text [Number(string)], [parseInt], [parseFloat] and
    [JSON.parse] read. *)

Definition scale10 (m : Z) (e : Z) : num :=
  if 0 <=? e then NInt (m * 10 ^ e) else mk_num m (Z.to_pos (10 ^ (- e))).

(** An unsigned decimal literal: digits, optional fraction, optional exponent.
    Returns the value and the rest; [None] when there is no digit. *)
Definition read_exponent (s : string) : Z * string :=
  match s with
  | String c s1 =>
    if Ascii.eqb c "e" || Ascii.eqb c "E" then
      let '(neg, s2) := match s1 with
        | String "+" r => (false, r) | String "-" r => (true, r) | _ => (false, s1) end in
      if (0 <? Z.of_nat (count_digits s2))
      then let '(e, r) := read_digits 0 s2 in ((if neg : bool then - e else e), r)
      else (0, s)
    else (0, s)
  | EmptyString => (0, s)
  end.

Definition read_decimal (s : string) : option (num * string) :=
  let '(ip, s1) := read_digits 0 s in
  let ni := count_digits s in
  let '(m, nf, s2) := match s1 with
    | String "." r => let '(m, r') := read_digits ip r in (m, count_digits r, r')
    | _ => (ip, 0%nat, s1) end in
  if (ni + nf =? 0)%nat then None
  else let '(e, s3) := read_exponent s2 in Some (scale10 m (e - Z.of_nat nf), s3).

Definition num_opp (a : num) : num :=
  match a with
  | NInt z => NInt (- z) | NFrac n d => NFrac (- n) d | NInf s => NInf (negb s) | NNaN => NNaN
  end.

Definition digit_value (c : ascii) : option Z :=
  if is_digit c then Some (code c - 48)
  else if is_lower c then Some (code c - 87)
  else if is_upper c then Some (code c - 55) else None.

(** Digits of a given radix. *)
Fixpoint read_radix (radix acc : Z) (any : bool) (s : string) : option Z * string :=
  match s with
  | String c s' =>
    match digit_value c with
    | Some d => if d <? radix then read_radix radix (acc * radix + d) true s'
                else ((if any then Some acc else None), s)
    | None => ((if any then Some acc else None), s)
    end
  | EmptyString => ((if any then Some acc else None), s)
  end.

Definition whole_radix (radix : Z) (s : string) : num :=
  match read_radix radix 0 false s with (Some z, EmptyString) => NInt z | _ => NNaN end.

Definition signed (f : string -> num) (s : string) : num :=
  match s with
  | String "-" r => num_opp (f r)
  | String "+" r => f r
  | _ => f s
  end.

(** [Number(s)] for a string. *)
Definition string_to_num (s : string) : num :=
  let t := trim s in
  match t with
  | EmptyString => NInt 0
  | String "0" (String "x" r) | String "0" (String "X" r) => whole_radix 16 r
  | String "0" (String "o" r) | String "0" (String "O" r) => whole_radix 8 r
  | String "0" (String "b" r) | String "0" (String "B" r) => whole_radix 2 r
  | _ => signed (fun u => if String.eqb u "Infinity" then NInf false else
                   match read_decimal u with Some (n, EmptyString) => n | _ => NNaN end) t
  end.

(** [parseInt(s, 10)]. *)
Definition parse_int (s : string) : num :=
  signed (fun u => if (0 <? Z.of_nat (count_digits u))
                   then NInt (fst (read_digits 0 u)) else NNaN) (trim_start s).

(** [Number.parseFloat(s)]. *)
Definition parse_float (s : string) : num :=
  signed (fun u => if starts_with "Infinity" u then NInf false else
            match read_decimal u with Some (n, _) => n | None => NNaN end) (trim_start s).

(** ** Values *)

Unset Elimination Schemes.
Inductive js : Type :=
| JUndef
| JNull
| JBool (b : bool)
| JNum (n : num)
| JStr (s : string)
| JArr (l : list js)
| JObj (o : list (string * js)).
Set Elimination Schemes.

Section JsInd.
Variable P : js -> Prop.
Hypothesis Hundef : P JUndef.
Hypothesis Hnull : P JNull.
Hypothesis Hbool : forall b, P (JBool b).
Hypothesis Hnum : forall n, P (JNum n).
Hypothesis Hstr : forall s, P (JStr s).
Hypothesis Harr : forall l, Forall P l -> P (JArr l).
Hypothesis Hobj : forall o, Forall (fun kv => P kv.2) o -> P (JObj o).

Fixpoint js_ind (v : js) : P v :=
  match v with
  | JUndef => Hundef
  | JNull => Hnull
  | JBool b => Hbool b
  | JNum n => Hnum n
  | JStr s => Hstr s
  | JArr l => Harr l ((fix go l : Forall P l :=
      match l with [] => Forall_nil_2 _ | x :: l => Forall_cons_2 _ _ _ (js_ind x) (go l) end) l)
  | JObj o => Hobj o ((fix go o : Forall (fun kv => P kv.2) o :=
      match o with [] => Forall_nil_2 _ | x :: o => Forall_cons_2 _ _ _ (js_ind x.2) (go o) end) o)
  end.
End JsInd.

Fixpoint js_dec (a b : js) {struct a} : {a = b} + {a <> b}.
Proof.
  refine (match a, b with
  | JUndef, JUndef => left eq_refl
  | JNull, JNull => left eq_refl
  | JBool x, JBool y => if Bool.bool_dec x y then left _ else right _
  | JNum x, JNum y => if num_eq_dec x y then left _ else right _
  | JStr x, JStr y => if string_dec x y then left _ else right _
  | JArr x, JArr y => if List.list_eq_dec js_dec x y then left _ else right _
  | JObj x, JObj y => if List.list_eq_dec (fun p q =>
        match string_dec p.1 q.1, js_dec p.2 q.2 with
        | left _, left _ => left _ | _, _ => right _ end) x y then left _ else right _
  | _, _ => right _
  end); try congruence; try (destruct p, q; simpl in *; congruence).
Defined.
#[export] Instance js_eq_dec : EqDecision js := js_dec.

(** [typeof v]. *)
Definition typeof (v : js) : string :=
  match v with
  | JUndef => "undefined" | JNull => "object" | JBool _ => "boolean" | JNum _ => "number"
  | JStr _ => "string" | JArr _ | JObj _ => "object"
  end.

Definition is_string (v : js) : bool := match v with JStr _ => true | _ => false end.
Definition is_array (v : js) : bool := match v with JArr _ => true | _ => false end.
(** [typeof v === 'object'], [null] included. *)
Definition is_objecty (v : js) : bool :=
  match v with JNull | JArr _ | JObj _ => true | _ => false end.

(** [Boolean(v)]. *)
Definition truthy (v : js) : bool :=
  match v with
  | JUndef | JNull => false
  | JBool b => b
  | JNum (NInt z) => negb (z =? 0)
  | JNum NNaN => false
  | JNum _ => true
  | JStr s => negb (String.eqb s "")
  | JArr _ | JObj _ => true
  end.

Definition is_undef (v : js) : bool := match v with JUndef => true | _ => false end.
Definition nullish (v : js) : bool := match v with JUndef | JNull => true | _ => false end.

(** [a ?? b] and [a || b]. *)
Definition coalesce (a b : js) : js := if nullish a then b else a.
Definition or_else (a b : js) : js := if truthy a then a else b.

(** [String(v)]. *)
Fixpoint to_str (v : js) : string :=
  match v with
  | JUndef => "undefined"
  | JNull => "null"
  | JBool b => if b then "true" else "false"
  | JNum n => num_to_string n
  | JStr s => s
  | JArr l => join "," ((fix go l := match l with
      | [] => []
      | x :: l => (if nullish x then "" else to_str x) :: go l end) l)
  | JObj _ => "[object Object]"
  end.

(** [String(v)] and [Number(v)] of a JSON value throw on an object with a property [toString] of its own, which is not
    callable; an array is converted element by element. [to_str] and [to_num] are what they give otherwise. *)
Fixpoint converts (v : js) : bool :=
  match v with
  | JArr l => (fix go l := match l with [] => true | x :: l => converts x && go l end) l
  | JObj o => negb (bool_decide (is_Some (assoc_get "toString" o)))
  | _ => true
  end.
Definition not_primitive : js_error := error "Cannot convert object to primitive value".

(** [Number(v)]. *)
Definition to_num (v : js) : num :=
  match v with
  | JUndef => NNaN
  | JNull => NInt 0
  | JBool b => NInt (if b then 1 else 0)
  | JNum n => n
  | JStr s => string_to_num s
  | JArr _ | JObj _ => string_to_num (to_str v)
  end.

(** [a === b] when one side is a primitive; two objects are the same only when
    they are the same reference, a comparison the modelled code never makes. *)
Definition strict_eq (a b : js) : bool :=
  match a, b with
  | JUndef, JUndef | JNull, JNull => true
  | JBool x, JBool y => Bool.eqb x y
  | JNum x, JNum y => num_eqb x y
  | JStr x, JStr y => String.eqb x y
  | _, _ => false
  end.

(** [Array.prototype.includes] and [Set.prototype.has]: SameValueZero. *)
Definition same_value_zero (a b : js) : bool :=
  match a, b with JNum NNaN, JNum NNaN => true | _, _ => strict_eq a b end.

(** [new Set(l)]: each value once, in order of first insertion. *)
Definition set_has (set : list js) (v : js) : bool := existsb (fun x => same_value_zero x v) set.
Definition set_add (set : list js) (v : js) : list js := if set_has set v then set else set ++ [v].
Definition set_of (l : list js) : list js := foldl set_add [] l.

(** A [Map]: keys in insertion order. *)
Definition jmap (A : Type) : Type := list (js * A).
Fixpoint map_get {A} (k : js) (m : jmap A) : option A :=
  match m with
  | [] => None
  | (k', v) :: m => if same_value_zero k' k then Some v else map_get k m
  end.
Fixpoint map_set {A} (k : js) (v : A) (m : jmap A) : jmap A :=
  match m with
  | [] => [(k, v)]
  | (k', v') :: m => if same_value_zero k' k then (k', v) :: m else (k', v') :: map_set k v m
  end.
Definition map_has {A} (k : js) (m : jmap A) : bool := bool_decide (is_Some (map_get k m)).

(** [a >= b]: both strings are compared by code units, everything else as
    numbers. *)
Definition to_prim (v : js) : js :=
  match v with JArr _ | JObj _ => JStr (to_str v) | _ => v end.
Definition js_geb (a b : js) : bool :=
  match to_prim a, to_prim b with
  | JStr x, JStr y => string_leb y x
  | x, y => num_leb (to_num y) (to_num x)
  end.

(** [Number.isInteger(v)], [Number.isFinite(v)]. *)
Definition is_integer (v : js) : bool := match v with JNum n => num_is_integer n | _ => false end.
Definition is_finite (v : js) : bool := match v with JNum n => num_is_finite n | _ => false end.

(** ** Properties *)

(** Decimal array index. *)
Definition index_key (k : string) : option nat :=
  if negb (String.eqb k "") && sforall is_digit k && String.eqb (print_Z (fst (read_digits 0 k))) k
  then Some (Z.to_nat (fst (read_digits 0 k))) else None.

(** [v[k]], [undefined] for an absent property. A read on [undefined] or [null]
    throws in JavaScript: the components guard those reads. *)
Definition jget (v : js) (k : string) : js :=
  match v with
  | JObj o => default JUndef (assoc_get k o)
  | JArr l => if String.eqb k "length" then JNum (NInt (Z.of_nat (length l)))
              else match index_key k with Some i => default JUndef (l !! i) | None => JUndef end
  | JStr s => if String.eqb k "length" then JNum (NInt (js_length s))
              else match index_key k with
                   | Some i => match char_at s i with Some c => JStr (String c "") | None => JUndef end
                   | None => JUndef end
  | _ => JUndef
  end.

(** [v[k] = x]. *)
Definition jset (v : js) (k : string) (x : js) : js :=
  match v with JObj o => JObj (assoc_set k x o) | _ => v end.

(** [delete v[k]]. *)
Definition jdel (v : js) (k : string) : js :=
  match v with JObj o => JObj (assoc_del k o) | _ => v end.

(** The own properties [{ ...v }] copies. *)
Definition own_props (v : js) : list (string * js) :=
  match v with
  | JObj o => o
  | JArr l => imap (fun i x => (print_Z (Z.of_nat i), x)) l
  | JStr s => imap (fun i c => (print_Z (Z.of_nat i), JStr (String c ""))) (list_ascii_of_string s)
  | _ => []
  end.
Definition spread (v : js) : js := JObj (own_props v).
Definition spread_with (v : js) (extra : list (string * js)) : js :=
  JObj (assoc_merge (own_props v) extra).

(** The elements [[...v]] copies; [None] when [v] is not iterable (a TypeError). *)
Definition iterate (v : js) : result (list js) :=
  match v with
  | JArr l => Ok l
  | JStr s => Ok ((fun c => JStr (String c "")) <$> list_ascii_of_string s)
  | _ => Throw (error "object is not iterable")
  end.

Declare Scope js_scope.
Delimit Scope js_scope with js.
Notation "v .[ k ]" := (jget v k) (at level 8, left associativity, format "v .[ k ]") : js_scope.
Notation "v .[ k := x ]" := (jset v k x)
  (at level 8, left associativity, format "v .[ k  :=  x ]") : js_scope.
Notation "a ?? b" := (coalesce a b) (at level 51, right associativity) : js_scope.
Notation "a ||? b" := (or_else a b) (at level 52, right associativity) : js_scope.
Notation int z := (JNum (NInt z)).
Notation "a === b" := (strict_eq a b) (at level 70) : js_scope.
Open Scope js_scope.

(** ** Lemmas *)

Definition is_obj (v : js) : bool := match v with JObj _ => true | _ => false end.

Lemma jget_jset v k k' x :
  is_obj v = true -> (v.[k' := x]).[k] = if String.eqb k k' then x else v.[k].
Proof.
  destruct v; simpl; try done. intros _. rewrite assoc_get_set.
  by destruct (String.eqb k k').
Qed.

Lemma is_obj_jset v k x : is_obj (v.[k := x]) = is_obj v.
Proof. by destruct v. Qed.

Lemma jget_spread_with v k extra :
  is_obj v = true -> NoDup (keys extra) ->
  (spread_with v extra).[k] = match assoc_get k extra with Some x => x | None => v.[k] end.
Proof.
  destruct v; simpl; try done. intros _ H. rewrite assoc_get_merge by done.
  by destruct (assoc_get k extra).
Qed.

Lemma jget_jdel v k k' :
  is_obj v = true -> (jdel v k').[k] = if String.eqb k k' then JUndef else v.[k].
Proof.
  destruct v; simpl; try done. intros _. rewrite assoc_get_del.
  by destruct (String.eqb k k').
Qed.

Lemma truthy_not_nullish v : truthy v = true -> nullish v = false.
Proof. by destruct v. Qed.

Lemma coalesce_l a b : nullish a = false -> (a ?? b) = a.
Proof. unfold coalesce. by intros ->. Qed.
Lemma coalesce_r a b : nullish a = true -> (a ?? b) = b.
Proof. unfold coalesce. by intros ->. Qed.

Lemma num_eqb_sym a b : num_eqb a b = num_eqb b a.
Proof.
  unfold num_eqb, num_cmp. destruct a as [x|n d|[]|], b as [y|m e|[]|]; try done;
    rewrite Z.compare_antisym; by destruct (_ ?= _).
Qed.

Lemma strict_eq_sym a b : (a === b) = (b === a).
Proof.
  destruct a as [| |x|x|x| |], b as [| |y|y|y| |]; try done; simpl;
    [by destruct x, y|apply num_eqb_sym|apply String.eqb_sym].
Qed.

Lemma strict_eq_str v s : (v === JStr s) = true <-> v = JStr s.
Proof. destruct v; simpl; try done. rewrite String.eqb_eq. naive_solver. Qed.

Lemma strict_eq_true v : (v === JBool true) = true <-> v = JBool true.
Proof. destruct v as [| |[]| | | |]; simpl; naive_solver. Qed.

Lemma num_cmp_int x y : num_cmp (NInt x) (NInt y) = Some (x ?= y).
Proof. done. Qed.

Lemma num_leb_int x y : num_leb (NInt x) (NInt y) = (x <=? y).
Proof. unfold num_leb, Z.leb; simpl. by destruct (x ?= y). Qed.

Lemma num_ltb_int x y : num_ltb (NInt x) (NInt y) = (x <? y).
Proof. unfold num_ltb, Z.ltb; simpl. by destruct (x ?= y). Qed.

Lemma num_eqb_int x y : num_eqb (NInt x) (NInt y) = (x =? y).
Proof.
  unfold num_eqb; simpl. destruct (Z.compare_spec x y); symmetry;
    [by apply Z.eqb_eq | apply Z.eqb_neq; lia..].
Qed.

#[export] Hint Rewrite num_leb_int num_ltb_int num_eqb_int : js.
#[export] Hint Rewrite @assoc_get_set_eq : js.

(** Resolve property reads through a chain of writes to literal keys. *)
Ltac js_get :=
  cbv zeta;
  repeat first
    [ rewrite jget_jset by (repeat rewrite is_obj_jset; first [assumption | reflexivity])
    | progress cbn [String.eqb Ascii.eqb Bool.eqb] ].

(** *** Decimal round trip *)

Lemma digit_char_code d : 0 <= d < 10 -> code (digit_char d) = 48 + d.
Proof.
  intros H. unfold code, digit_char, chr. rewrite nat_ascii_embedding; lia.
Qed.

Lemma is_digit_digit_char d : 0 <= d < 10 -> is_digit (digit_char d) = true.
Proof.
  intros H. unfold is_digit, in_range. rewrite digit_char_code by done.
  apply andb_true_iff; split; apply Z.leb_le; lia.
Qed.

Lemma read_print_digits fuel n acc :
  0 <= n -> n < 10 ^ Z.of_nat fuel ->
  (0 < fuel)%nat ->
  read_digits 0 (print_digits fuel n acc) = read_digits n acc.
Proof.
  revert n acc; induction fuel as [|fuel IH]; intros n acc H0 Hn Hf; [lia|]; simpl.
  destruct (Z.ltb_spec n 10) as [Hlt|Hge]; simpl.
  - rewrite is_digit_digit_char, digit_char_code by lia. f_equal; lia.
  - pose proof (Z.mod_pos_bound n 10 ltac:(lia)).
    assert (n / 10 < 10 ^ Z.of_nat fuel).
    { apply Z.div_lt_upper_bound; [lia|]. rewrite Nat2Z.inj_succ, Z.pow_succ_r in Hn; lia. }
    pose proof (Z.div_pos n 10 ltac:(lia) ltac:(lia)).
    rewrite IH; [|done|done|].
    + simpl. rewrite is_digit_digit_char, digit_char_code by lia.
      f_equal. pose proof (Z.div_mod n 10 ltac:(lia)). lia.
    + destruct fuel; [simpl in *; lia | lia].
Qed.

Lemma print_nat_fuel n : 0 <= n -> n < 10 ^ Z.of_nat (S (Z.to_nat (Z.log2 n))).
Proof.
  intros H. rewrite Nat2Z.inj_succ, Z2Nat.id by apply Z.log2_nonneg.
  destruct (Z.eq_dec n 0) as [->|Hn]; [done|].
  pose proof (Z.log2_spec n ltac:(lia)) as [_ Hu].
  eapply Z.lt_le_trans; [exact Hu|]. apply Z.pow_le_mono_l.
  pose proof (Z.log2_nonneg n). lia.
Qed.

Lemma print_digits_app fuel n acc :
  print_digits fuel n acc = print_digits fuel n "" +:+ acc.
Proof.
  revert n acc; induction fuel as [|fuel IH]; intros n acc; simpl; [done|].
  destruct (n <? 10); [done|].
  rewrite IH, (IH _ (String _ "")), sapp_assoc. done.
Qed.

(** Reading back a printed natural number stops exactly at the following text. *)
Lemma read_print_nat n rest :
  0 <= n -> read_digits 0 (print_nat n +:+ rest) = read_digits n rest.
Proof.
  intros H. unfold print_nat. rewrite <-print_digits_app.
  apply read_print_digits; [done|by apply print_nat_fuel|lia].
Qed.

Lemma print_nat_head n : 0 <= n ->
  exists c s, print_nat n = String c s /\ is_digit c = true.
Proof.
  intros H. assert (forall fuel m acc, 0 <= m -> (0 < fuel)%nat ->
    exists c s, print_digits fuel m acc = String c s /\ is_digit c = true) as Hp.
  { induction fuel as [|fuel IH]; intros m acc Hm Hf; [lia|]; simpl.
    destruct (Z.ltb_spec m 10).
    - do 2 eexists. split; [done|]. apply is_digit_digit_char. lia.
    - pose proof (Z.div_pos m 10 ltac:(lia) ltac:(lia)).
      destruct fuel as [|fuel]; [|apply IH; lia]. simpl. do 2 eexists; split; [done|].
      apply is_digit_digit_char. apply Z.mod_pos_bound. lia. }
  apply Hp; [done|lia].
Qed.

(** *** Sets of values *)

Lemma same_value_zero_str v t : same_value_zero v (JStr t) = true <-> v = JStr t.
Proof. unfold same_value_zero. destruct v as [| | |[]| | |]; simpl; try done. rewrite String.eqb_eq. naive_solver. Qed.

Lemma set_has_str set t : set_has set (JStr t) = true <-> JStr t ∈ set.
Proof.
  unfold set_has. rewrite existsb_exists. setoid_rewrite same_value_zero_str. setoid_rewrite <- list_elem_of_In.
  split; [by intros (x & Hx & ->)|eauto].
Qed.

Lemma set_of_str l t : JStr t ∈ set_of l <-> JStr t ∈ l.
Proof.
  unfold set_of. assert (forall acc, JStr t ∈ foldl set_add acc l <-> JStr t ∈ acc \/ JStr t ∈ l) as H.
  { induction l as [|x l IH]; intros acc; simpl; [set_solver|]. rewrite IH. unfold set_add.
    destruct (set_has acc x) eqn:E; [|set_solver]. rewrite elem_of_cons. split; [tauto|].
    intros [?|[<-|?]]; [tauto| |tauto]. left. by apply set_has_str. }
  rewrite H. set_solver.
Qed.
