(* ===== verification/Json.v ===== *)
(** * [JSON.stringify] and [JSON.parse]

    Both directions of the JSON text the live-mode files are stored in, with the
    round trip between them. [print_value ""] is [JSON.stringify(v)],
    [print_value "  "] is [JSON.stringify(v, null, 2)]. A [\uXXXX] escape of a
    code unit above 255 is a parse failure here (the strings of the model are
    Latin-1). *)
From S2P Require Import Prelude JsString JsValue.
Local Open Scope Z_scope.

(** ** Printing *)

Definition hex_digit (n : nat) : ascii :=
  default "0"%char (String.get n "0123456789abcdef").

Definition quote_char (c : ascii) : string :=
  if Ascii.eqb c DQ then String "\" (String DQ "")
  else if Ascii.eqb c "\" then "\\"
  else if code c =? 8 then "\b" else if code c =? 9 then "\t" else if code c =? 10 then "\n"
  else if code c =? 12 then "\f" else if code c =? 13 then "\r"
  else if code c <? 32 then
    "\u00" +:+ String (hex_digit (nat_of_ascii c / 16)) (String (hex_digit (nat_of_ascii c mod 16)) "")
  else String c "".

Fixpoint quote_body (s : string) : string :=
  match s with EmptyString => "" | String c s => quote_char c +:+ quote_body s end.
Definition quote (s : string) : string := String DQ (quote_body s +:+ s_dq).

(** [open item , item ... close] with [inner] before each item and [outer]
    before the closing bracket. *)
Fixpoint items_tail (inner outer close : string) (items : list string) : string :=
  match items with
  | [] => outer +:+ close
  | x :: xs => "," +:+ inner +:+ x +:+ items_tail inner outer close xs
  end.
Definition wrap_items (open inner outer close : string) (items : list string) : string :=
  match items with
  | [] => open +:+ close
  | x :: xs => open +:+ inner +:+ x +:+ items_tail inner outer close xs
  end.

Definition newline (gap cur : string) : string :=
  if String.eqb gap "" then "" else s_nl +:+ cur.

Fixpoint print_value (gap cur : string) (v : js) : string :=
  let cur' := cur +:+ gap in
  match v with
  | JUndef | JNull => "null"
  | JBool b => if b then "true" else "false"
  | JNum n => if num_is_finite n then num_to_string n else "null"
  | JStr s => quote s
  | JArr l =>
    wrap_items "[" (newline gap cur') (newline gap cur) "]" (print_value gap cur' <$> l)
  | JObj o =>
    wrap_items "{" (newline gap cur') (newline gap cur) "}"
      ((fix go o := match o with
        | [] => []
        | (k, x) :: o =>
          if is_undef x then go o
          else (quote k +:+ ":" +:+ (if String.eqb gap "" then "" else " ")
                  +:+ print_value gap cur' x) :: go o
        end) o)
  end.

(** The text [JSON.stringify] returns for a value that is not [undefined]. *)
Definition json_stringify (v : js) : string := print_value "" "" v.
Definition json_stringify2 (v : js) : string := print_value "  " "" v.

(** ** Parsing *)

Definition is_json_ws (c : ascii) : bool :=
  (code c =? 32) || (code c =? 9) || (code c =? 10) || (code c =? 13).

Fixpoint skip_ws (s : string) : string :=
  match s with String c s' => if is_json_ws c then skip_ws s' else s | _ => s end.

Definition hex_value (c : ascii) : option Z :=
  match digit_value c with Some d => if d <? 16 then Some d else None | None => None end.

Definition cons_char (c : ascii) (r : option (string * string)) : option (string * string) :=
  match r with Some (s, rest) => Some (String c s, rest) | None => None end.

(** The body of a string literal after its opening quote. *)
Fixpoint parse_str (s : string) : option (string * string) :=
  match s with
  | EmptyString => None
  | String c r =>
    if Ascii.eqb c DQ then Some ("", r)
    else if Ascii.eqb c "\" then
      match r with
      | EmptyString => None
      | String e r' =>
        if Ascii.eqb e DQ || Ascii.eqb e "\" || Ascii.eqb e "/" then cons_char e (parse_str r')
        else if Ascii.eqb e "b" then cons_char (chr 8) (parse_str r')
        else if Ascii.eqb e "t" then cons_char (chr 9) (parse_str r')
        else if Ascii.eqb e "n" then cons_char (chr 10) (parse_str r')
        else if Ascii.eqb e "f" then cons_char (chr 12) (parse_str r')
        else if Ascii.eqb e "r" then cons_char (chr 13) (parse_str r')
        else if Ascii.eqb e "u" then
          match r' with
          | String h1 (String h2 (String h3 (String h4 r''))) =>
            match hex_value h1, hex_value h2, hex_value h3, hex_value h4 with
            | Some a, Some b, Some x, Some y =>
              if (a =? 0) && (b =? 0) then cons_char (chr (Z.to_nat (x * 16 + y))) (parse_str r'')
              else None
            | _, _, _, _ => None
            end
          | _ => None
          end
        else None
      end
    else if code c <? 32 then None
    else cons_char c (parse_str r)
  end.

Definition parse_num (s : string) : option (num * string) :=
  let '(neg, r) := match s with String "-" r => (true, r) | _ => (false, s) end in
  match r with
  | EmptyString => None
  | String c r' =>
    if negb (is_digit c) then None
    else if Ascii.eqb c "0" && (0 <? Z.of_nat (count_digits r')) then None
    else match read_decimal r with
         | Some (n, rest) => Some ((if neg : bool then num_opp n else n), rest)
         | None => None
         end
  end.

Fixpoint parse_value (fuel : nat) (s : string) : option (js * string) :=
  match fuel with
  | O => None
  | S fuel =>
    match skip_ws s with
    | EmptyString => None
    | String c r =>
      if Ascii.eqb c "{" then
        match skip_ws r with
        | String "}" r' => Some (JObj [], r')
        | _ => parse_members fuel [] r
        end
      else if Ascii.eqb c "[" then
        match skip_ws r with
        | String "]" r' => Some (JArr [], r')
        | _ => parse_elems fuel [] r
        end
      else if Ascii.eqb c DQ then
        match parse_str r with Some (x, r') => Some (JStr x, r') | None => None end
      else if Ascii.eqb c "t" then
        if starts_with "rue" r then Some (JBool true, sdrop 3 r) else None
      else if Ascii.eqb c "f" then
        if starts_with "alse" r then Some (JBool false, sdrop 4 r) else None
      else if Ascii.eqb c "n" then
        if starts_with "ull" r then Some (JNull, sdrop 3 r) else None
      else match parse_num (String c r) with Some (n, r') => Some (JNum n, r') | None => None end
    end
  end
with parse_members (fuel : nat) (acc : list (string * js)) (s : string) : option (js * string) :=
  match fuel with
  | O => None
  | S fuel =>
    match skip_ws s with
    | String c r =>
      if Ascii.eqb c DQ then
        match parse_str r with
        | Some (k, r1) =>
          match skip_ws r1 with
          | String ":" r2 =>
            match parse_value fuel r2 with
            | Some (v, r3) =>
              match skip_ws r3 with
              | String d r4 =>
                if Ascii.eqb d "," then parse_members fuel (assoc_set k v acc) r4
                else if Ascii.eqb d "}" then Some (JObj (assoc_set k v acc), r4) else None
              | EmptyString => None
              end
            | None => None
            end
          | _ => None
          end
        | None => None
        end
      else None
    | EmptyString => None
    end
  end
with parse_elems (fuel : nat) (acc : list js) (s : string) : option (js * string) :=
  match fuel with
  | O => None
  | S fuel =>
    match parse_value fuel s with
    | Some (v, r) =>
      match skip_ws r with
      | String d r' =>
        if Ascii.eqb d "," then parse_elems fuel (acc ++ [v]) r'
        else if Ascii.eqb d "]" then Some (JArr (acc ++ [v]), r') else None
      | EmptyString => None
      end
    | None => None
    end
  end.

(** [JSON.parse(s)]: [None] is the SyntaxError. The fuel is the length of the
    text: every nested call is paid for by a character ([parse_print]). *)
Definition json_parse (s : string) : option js :=
  match parse_value (S (slen s)) s with
  | Some (v, r) => if String.eqb (skip_ws r) "" then Some v else None
  | None => None
  end.

(** ** Round trip *)

(** What a stored value comes back as: [undefined] properties are dropped,
    [undefined] elements and non-finite numbers are [null]. *)
Fixpoint json_norm (v : js) : js :=
  match v with
  | JUndef => JNull
  | JNum n => if num_is_finite n then JNum n else JNull
  | JArr l => JArr (json_norm <$> l)
  | JObj o => JObj ((fix go o := match o with
      | [] => []
      | (k, x) :: o => if is_undef x then go o else (k, json_norm x) :: go o end) o)
  | _ => v
  end.

(** Fractions whose text is exact: short enough for a double to keep every digit, not printed with an exponent, and read
    back as they were. *)
Definition is_numeric (c : ascii) : bool := is_digit c || Ascii.eqb c "-" || Ascii.eqb c ".".
Definition frac_ok (n : Z) (d : positive) : bool :=
  let text := num_to_string (NFrac n d) in
  (slen text <=? 17)%nat && (Zpos d <=? Z.abs n * 10 ^ 6) && sforall is_numeric text
  && match parse_num text with Some (NFrac n' d', EmptyString) => (n' =? n) && Pos.eqb d' d | _ => false end.

(** Values whose text is exact: integers of magnitude below 10^21 (larger ones
    print with an exponent in JavaScript), short fractions, objects without repeated keys. *)
Fixpoint json_ok (v : js) : Prop :=
  match v with
  | JNum (NInt z) => Z.abs z < 10 ^ 21
  | JNum (NFrac n d) => frac_ok n d = true
  | JArr l => (fix go l := match l with [] => True | x :: l => json_ok x /\ go l end) l
  | JObj o => NoDup (keys o) /\ (fix go o := match o with
      | [] => True | (_, x) :: o => json_ok x /\ go o end) o
  | _ => True
  end.

Lemma parse_str_quote_char c r :
  parse_str (quote_char c +:+ r) = cons_char c (parse_str r).
Proof. destruct c as [[] [] [] [] [] [] [] []]; reflexivity. Qed.

Lemma parse_str_quote s rest :
  parse_str (quote_body s +:+ String DQ rest) = Some (s, rest).
Proof.
  induction s as [|c s IH]; [done|]. cbn [quote_body].
  by rewrite sapp_assoc, parse_str_quote_char, IH.
Qed.

Definition is_ws (s : string) : bool := sforall is_json_ws s.

Lemma skip_ws_app w s : is_ws w = true -> skip_ws (w +:+ s) = skip_ws s.
Proof.
  unfold is_ws. induction w as [|c w IH]; simpl; [done|]. intros H; split_bools.
  rewrite H. auto.
Qed.

Lemma skip_ws_head c s : is_json_ws c = false -> skip_ws (String c s) = String c s.
Proof. simpl. by intros ->. Qed.

Lemma newline_ws gap cur : is_ws cur = true -> is_ws (newline gap cur) = true.
Proof. unfold newline. destruct (String.eqb gap ""); [done|]. intros H. by simpl. Qed.

Lemma is_ws_app a b : is_ws a = true -> is_ws b = true -> is_ws (a +:+ b) = true.
Proof. unfold is_ws. intros Ha Hb. by rewrite sforall_app, Ha, Hb. Qed.

(** The text after a number must not continue it. *)
Definition delimits (s : string) : bool :=
  match s with
  | EmptyString => true
  | String c _ => negb (is_digit c) && negb (Ascii.eqb c ".")
                  && negb (Ascii.eqb c "e") && negb (Ascii.eqb c "E")
  end.

Lemma delimits_no_digits s : delimits s = true -> count_digits s = 0%nat.
Proof.
  destruct s as [|c s]; simpl; [done|]. intros H; split_bools. by rewrite H.
Qed.

Lemma read_digits_delim n s : delimits s = true -> read_digits n s = (n, s).
Proof.
  destruct s as [|c s]; simpl; [done|]. intros H; split_bools. by rewrite H.
Qed.

Lemma read_exponent_delim s : delimits s = true -> read_exponent s = (0, s).
Proof.
  destruct s as [|c s]; simpl; [done|]. intros H; split_bools.
  by repeat match goal with H : Ascii.eqb c _ = false |- _ => rewrite H; clear H end.
Qed.

Lemma match_dot {A} (f : string -> A) (d : A) s :
  delimits s = true -> match s with String "." r => f r | _ => d end = d.
Proof.
  destruct s as [|c s]; simpl; [done|]. intros H; split_bools.
  destruct c as [[] [] [] [] [] [] [] []]; done.
Qed.

Lemma read_decimal_print_nat n rest :
  0 <= n -> delimits rest = true ->
  read_decimal (print_nat n +:+ rest) = Some (NInt n, rest).
Proof.
  intros Hn Hd. unfold read_decimal.
  rewrite read_print_nat, read_digits_delim by done.
  rewrite match_dot by done.
  destruct (print_nat_head n Hn) as (c & s & Hs & Hc).
  rewrite Hs; simpl. rewrite Hc; simpl.
  rewrite read_exponent_delim by done. unfold scale10; simpl. by rewrite Z.mul_1_r.
Qed.

Lemma print_digits_head_nz fuel n acc :
  0 < n -> n < 10 ^ Z.of_nat fuel ->
  exists c s, print_digits fuel n acc = String c s /\ is_digit c = true /\ c <> "0"%char.
Proof.
  revert n acc; induction fuel as [|fuel IH]; intros n acc H0 Hn.
  { simpl in Hn. lia. }
  simpl. destruct (Z.ltb_spec n 10).
  - do 2 eexists. split; [done|]. split; [apply is_digit_digit_char; lia|].
    intros Hc. apply (f_equal code) in Hc. rewrite digit_char_code in Hc by lia.
    change (code "0") with 48 in Hc. lia.
  - apply IH.
    + apply Z.div_str_pos. lia.
    + apply Z.div_lt_upper_bound; [lia|]. rewrite Nat2Z.inj_succ, Z.pow_succ_r in Hn; lia.
Qed.

Lemma parse_num_print_Z z rest :
  delimits rest = true -> parse_num (print_Z z +:+ rest) = Some (NInt z, rest).
Proof.
  intros Hd. assert (forall n, 0 <= n -> exists c s, print_nat n +:+ rest = String c s
    /\ is_digit c = true /\ Ascii.eqb c "0" && (0 <? Z.of_nat (count_digits s)) = false
    /\ read_decimal (String c s) = Some (NInt n, rest)) as Hn.
  { intros n Hn. pose proof (read_decimal_print_nat n rest Hn Hd) as Hr.
    destruct (Z.eq_dec n 0) as [->|Hz].
    - do 2 eexists. split; [reflexivity|]. split; [done|]. split; [|exact Hr].
      simpl. by rewrite delimits_no_digits.
    - destruct (print_digits_head_nz (S (Z.to_nat (Z.log2 n))) n "" ltac:(lia)
                  (print_nat_fuel n Hn)) as (c & s & Hs & Hc & H0).
      unfold print_nat in *. rewrite Hs in *. exists c, (s +:+ rest).
      split_and!; [done..| |exact Hr]. apply Ascii.eqb_neq in H0 as ->. done. }
  unfold print_Z, parse_num. destruct (Z.ltb_spec z 0).
  - destruct (Hn (- z) ltac:(lia)) as (c & s & Hs & Hc & H0 & Hr). simpl. rewrite Hs, Hc; simpl.
    rewrite H0, Hr. simpl. do 3 f_equal. lia.
  - destruct (Hn z ltac:(lia)) as (c & s & Hs & Hc & H0 & Hr). rewrite Hs.
    destruct (Ascii.eqb_spec c "-") as [->|Hm]; [done|].
    assert (match String c s with String "-" r => (true, r) | _ => (false, String c s) end
            = (false, String c s)) as ->.
    { destruct c as [[] [] [] [] [] [] [] []]; done. }
    rewrite Hc; simpl. by rewrite H0, Hr.
Qed.

(** A number followed by what cannot continue it. *)
Lemma read_digits_app rest s : delimits rest = true -> forall acc,
  read_digits acc (s +:+ rest) = ((read_digits acc s).1, (read_digits acc s).2 +:+ rest).
Proof.
  intros Hd. induction s as [|c s IH]; intros acc; [by rewrite read_digits_delim|]. simpl. destruct (is_digit c); [apply IH|done].
Qed.
Lemma count_digits_app rest s : delimits rest = true -> count_digits (s +:+ rest) = count_digits s.
Proof. intros Hd. induction s as [|c s IH]; [by apply delimits_no_digits|]. simpl. by rewrite IH. Qed.
Lemma read_digits_numeric s : sforall is_numeric s = true -> forall acc, sforall is_numeric (read_digits acc s).2 = true.
Proof.
  induction s as [|c s IH]; intros H acc; [done|]. simpl. destruct (is_digit c); [|done]. simpl in H. split_bools. by apply IH.
Qed.
Lemma read_exponent_numeric s : sforall is_numeric s = true -> read_exponent s = (0, s).
Proof.
  destruct s as [|c s]; [done|]. simpl. intros [H _]%andb_true_iff.
  destruct (Ascii.eqb c "e" || Ascii.eqb c "E") eqn:E; [|done]. exfalso.
  apply orb_true_iff in E as [E|E]; apply Ascii.eqb_eq in E as ->; discriminate H.
Qed.

Lemma read_decimal_app s x rest : sforall is_numeric s = true -> delimits rest = true ->
  read_decimal s = Some (x, "") -> read_decimal (s +:+ rest) = Some (x, rest).
Proof.
  intros Hn Hd. unfold read_decimal. rewrite read_digits_app, count_digits_app by done. pose proof (read_digits_numeric s Hn 0) as H1.
  destruct (read_digits 0 s) as [ip s1]. cbn [fst snd] in *.
  assert (forall m nf s2, sforall is_numeric s2 = true ->
    (if (count_digits s + nf =? 0)%nat then None else let '(e, s3) := read_exponent s2 in Some (scale10 m (e - Z.of_nat nf), s3)) = Some (x, "") ->
    (if (count_digits s + nf =? 0)%nat then None else let '(e, s3) := read_exponent (s2 +:+ rest) in Some (scale10 m (e - Z.of_nat nf), s3)) = Some (x, rest)) as Hgo.
  { intros m nf s2 H2. destruct (_ =? 0)%nat; [done|]. rewrite (read_exponent_numeric s2) by done. intros [= <- ->].
    cbn [String.append]. by rewrite read_exponent_delim. }
  destruct s1 as [|c s1]; [cbn [String.append]; rewrite match_dot by done; apply (Hgo ip 0%nat "" eq_refl)|].
  destruct (Ascii.eqb_spec c ".") as [->|Hc].
  - cbn [String.append]. rewrite read_digits_app, count_digits_app by done. cbn [sforall] in H1. apply andb_true_iff in H1 as [_ H1].
    pose proof (read_digits_numeric s1 H1 ip) as H2. destruct (read_digits ip s1) as [m r]. cbn [fst snd] in *. by apply Hgo.
  - cbn [String.append]. destruct c as [[] [] [] [] [] [] [] []]; try (exfalso; by apply Hc); match goal with |- context [String ?c s1] => exact (Hgo ip 0%nat (String c s1) H1) end.
Qed.

Lemma parse_num_app s x rest : sforall is_numeric s = true -> delimits rest = true ->
  parse_num s = Some (x, "") -> parse_num (s +:+ rest) = Some (x, rest).
Proof.
  intros Hn Hd. unfold parse_num.
  assert (forall (neg : bool) t, sforall is_numeric t = true ->
    match t with
    | EmptyString => None
    | String c r' => if negb (is_digit c) then None else if Ascii.eqb c "0" && (0 <? Z.of_nat (count_digits r')) then None
        else match read_decimal t with Some (n, rest0) => Some ((if neg then num_opp n else n), rest0) | None => None end
    end = Some (x, "") ->
    match t +:+ rest with
    | EmptyString => None
    | String c r' => if negb (is_digit c) then None else if Ascii.eqb c "0" && (0 <? Z.of_nat (count_digits r')) then None
        else match read_decimal (t +:+ rest) with Some (n, rest0) => Some ((if neg then num_opp n else n), rest0) | None => None end
    end = Some (x, rest)) as Hgo.
  { intros neg [|c t] Ht; [done|]. cbn [String.append]. destruct (negb (is_digit c)); [done|]. rewrite count_digits_app by done.
    destruct (_ && _); [done|]. destruct (read_decimal (String c t)) as [[y r]|] eqn:E; [|done]. intros [= <- ->].
    pose proof (read_decimal_app (String c t) y rest Ht Hd E) as Hq. cbn [String.append] in Hq. by rewrite Hq. }
  destruct s as [|c s]; [done|]. destruct (Ascii.eqb_spec c "-") as [->|Hc].
  - cbn [sforall] in Hn. apply andb_true_iff in Hn as [_ Hn]. exact (Hgo true s Hn).
  - cbn [String.append]. destruct c as [[] [] [] [] [] [] [] []]; try (exfalso; by apply Hc); match goal with |- context [String ?c s] => exact (Hgo false (String c s) Hn) end.
Qed.

Definition live_props (o : list (string * js)) : list (string * js) :=
  bfilter (fun kv => negb (is_undef kv.2)) o.
Definition member_text (gap cur : string) (kv : string * js) : string :=
  quote kv.1 +:+ ":" +:+ (if String.eqb gap "" then "" else " ") +:+ print_value gap cur kv.2.

Lemma print_value_obj gap cur o :
  print_value gap cur (JObj o) =
  wrap_items "{" (newline gap (cur +:+ gap)) (newline gap cur) "}"
    (member_text gap (cur +:+ gap) <$> live_props o).
Proof.
  cbn [print_value]. f_equal. unfold live_props. induction o as [|[k x] o IH]; [done|].
  cbn [bfilter snd]. destruct (is_undef x); [exact IH|].
  cbn [negb fmap list_fmap]. f_equal. exact IH.
Qed.

Lemma json_norm_obj o :
  json_norm (JObj o) = JObj ((fun kv => (kv.1, json_norm kv.2)) <$> live_props o).
Proof.
  cbn [json_norm]. f_equal. unfold live_props. induction o as [|[k x] o IH]; [done|].
  cbn [bfilter snd]. destruct (is_undef x); [exact IH|].
  cbn [negb fmap list_fmap]. f_equal. exact IH.
Qed.

Lemma json_ok_arr l : json_ok (JArr l) <-> Forall json_ok l.
Proof.
  simpl. induction l as [|x l IH]; [by split|]. rewrite Forall_cons, IH. done.
Qed.

Lemma json_ok_obj o : json_ok (JObj o) <-> NoDup (keys o) /\ Forall (fun kv => json_ok kv.2) o.
Proof.
  simpl. apply and_iff_compat_l. induction o as [|[k x] o IH]; [by split|].
  rewrite Forall_cons, IH. done.
Qed.

Lemma print_Z_head z : exists c s, print_Z z = String c s /\ (c = "-"%char \/ is_digit c = true).
Proof.
  unfold print_Z. destruct (Z.ltb_spec z 0); [eauto|].
  destruct (print_nat_head z) as (c & s & -> & ?); [done|]. eauto.
Qed.

(** Characters that start a value and are not closing brackets or blanks. *)
Definition value_start (c : ascii) : bool :=
  negb (is_json_ws c) && negb (Ascii.eqb c "]") && negb (Ascii.eqb c "}").

Lemma number_start c : c = "-"%char \/ is_digit c = true ->
  value_start c = true /\ Ascii.eqb c "{" = false /\ Ascii.eqb c "[" = false /\
  Ascii.eqb c DQ = false /\ Ascii.eqb c "t" = false /\ Ascii.eqb c "f" = false /\
  Ascii.eqb c "n" = false.
Proof.
  intros [->|H]; [split_and!; reflexivity|].
  destruct c as [[] [] [] [] [] [] [] []]; first [discriminate H | split_and!; reflexivity].
Qed.

Lemma frac_text n d : frac_ok n d = true ->
  sforall is_numeric (num_to_string (NFrac n d)) = true /\ parse_num (num_to_string (NFrac n d)) = Some (NFrac n d, "") /\
  exists c s, num_to_string (NFrac n d) = String c s /\ (c = "-"%char \/ is_digit c = true).
Proof.
  unfold frac_ok. cbv zeta. set (t := num_to_string _). intros H. apply andb_true_iff in H as [[_ Hn]%andb_true_iff H]. split; [done|].
  destruct (parse_num t) as [[[z|n' d'|b|] [|c0 r0]]|] eqn:E; try done. apply andb_true_iff in H as [->%Z.eqb_eq ->%Pos.eqb_eq]. split; [done|].
  destruct t as [|c t]; [done|]. exists c, t. split; [done|]. destruct (Ascii.eqb_spec c "-") as [->|Hc]; [by left|right].
  unfold parse_num in E. destruct (is_digit c) eqn:Ed; [done|]. exfalso. destruct c as [[] [] [] [] [] [] [] []]; first [discriminate Ed | discriminate E | by apply Hc].
Qed.

Lemma print_value_head gap cur v : json_ok v ->
  exists c s, print_value gap cur v = String c s /\ value_start c = true.
Proof.
  destruct v as [| |[]|n|s|l|o]; intros Hok; [..|rewrite print_value_obj]; cbn [print_value];
    try (do 2 eexists; split; [reflexivity|done]).
  - destruct n as [z|n d| |]; [|destruct (frac_text n d Hok) as (_ & _ & c & t & E & Hc); cbn [num_is_finite]; rewrite E;
      exists c, t; split; [done|by apply number_start]|do 2 eexists; split; reflexivity..].
    cbn [num_is_finite num_to_string]. destruct (print_Z_head z) as (c & t & -> & Hc).
    exists c, t. split; [reflexivity|]. by apply number_start.
  - destruct (print_value gap (cur +:+ gap) <$> l); do 2 eexists; split; reflexivity.
  - destruct (member_text gap (cur +:+ gap) <$> live_props o); do 2 eexists; split; reflexivity.
Qed.

Lemma parse_value_ws fuel w s : is_ws w = true -> parse_value fuel (w +:+ s) = parse_value fuel s.
Proof. intros H. destruct fuel; [done|]. simpl. by rewrite skip_ws_app. Qed.

Definition parses (v : js) : Prop := forall gap cur rest fuel,
  is_ws gap = true -> is_ws cur = true -> delimits rest = true ->
  (slen (print_value gap cur v) <= fuel)%nat ->
  parse_value fuel (print_value gap cur v +:+ rest) = Some (json_norm v, rest).

Lemma delimits_ws w s : is_ws w = true -> delimits s = true -> delimits (w +:+ s) = true.
Proof.
  destruct w as [|c w]; [done|]. intros H _. unfold is_ws in H; simpl in H.
  apply andb_true_iff in H as [H _]. cbn [delimits String.append].
  destruct c as [[] [] [] [] [] [] [] []]; first [discriminate H | reflexivity].
Qed.

Lemma items_tail_delimits inner outer close items rest :
  is_ws outer = true -> delimits (close +:+ rest) = true ->
  delimits (items_tail inner outer close items +:+ rest) = true.
Proof.
  intros Hw Hc. destruct items as [|x xs]; simpl; [|done].
  rewrite sapp_assoc. by apply delimits_ws.
Qed.

Section Elements.
Variables gap cur inner outer : string.
Hypothesis Hgap : is_ws gap = true.
Hypothesis Hcur : is_ws cur = true.
Hypothesis Hin : is_ws inner = true.
Hypothesis Hout : is_ws outer = true.

Lemma parse_elems_print rest l : forall x acc fuel,
  parses x -> Forall parses l ->
  (slen (inner +:+ print_value gap cur x +:+
         items_tail inner outer "]" (print_value gap cur <$> l)) <= fuel)%nat ->
  parse_elems fuel acc (inner +:+ print_value gap cur x +:+
     items_tail inner outer "]" (print_value gap cur <$> l) +:+ rest)
  = Some (JArr (acc ++ json_norm x :: (json_norm <$> l)), rest).
Proof.
  induction l as [|y l IH]; intros x acc fuel Hx Hl Hf; rewrite !slen_app in Hf;
    (destruct fuel as [|fuel]; [simpl in Hf; rewrite ?slen_app in Hf; simpl in Hf; lia|]);
    cbn [parse_elems]; rewrite parse_value_ws by done;
    cbn [fmap list_fmap items_tail] in *.
  - rewrite !slen_app in Hf; simpl in Hf. rewrite Hx by (try done; first
      [ rewrite sapp_assoc; by apply delimits_ws | lia ]).
    rewrite sapp_assoc, skip_ws_app by done. done.
  - apply Forall_cons in Hl as [Hy Hl]. simpl in Hf. rewrite !slen_app in Hf.
    rewrite Hx by (try done; lia). simpl. rewrite !sapp_assoc.
    rewrite IH; [|done..|rewrite !slen_app; lia].
    by rewrite <-app_assoc.
Qed.

Lemma parse_member_head fuel acc kv tail :
  parses kv.2 -> delimits tail = true ->
  (slen (print_value gap cur kv.2) <= fuel)%nat ->
  parse_members (S fuel) acc (inner +:+ member_text gap cur kv +:+ tail) =
  match skip_ws tail with
  | String d r4 =>
    if Ascii.eqb d "," then parse_members fuel (assoc_set kv.1 (json_norm kv.2) acc) r4
    else if Ascii.eqb d "}" then Some (JObj (assoc_set kv.1 (json_norm kv.2) acc), r4) else None
  | EmptyString => None
  end.
Proof.
  intros Hx Hd Hf. cbn [parse_members]. rewrite skip_ws_app by done.
  unfold member_text, quote, s_dq. cbn [String.append].
  rewrite !sapp_assoc. cbn [String.append].
  rewrite skip_ws_head by reflexivity. rewrite Ascii.eqb_refl, parse_str_quote.
  rewrite skip_ws_head by reflexivity. rewrite sapp_assoc.
  rewrite parse_value_ws by (destruct (String.eqb gap ""); reflexivity).
  rewrite Hx by done. reflexivity.
Qed.

Lemma slen_member kv :
  (slen (print_value gap cur kv.2) < slen (member_text gap cur kv))%nat.
Proof. unfold member_text, quote. rewrite !slen_app. simpl. lia. Qed.

Lemma member_fresh (acc o : list (string * js)) kv :
  NoDup (keys (acc ++ kv :: o)) -> assoc_get kv.1 acc = None.
Proof.
  intros Hnd. apply assoc_get_None. unfold keys in *. rewrite fmap_app in Hnd.
  apply NoDup_app in Hnd as (_ & Hnd & _).
  intros Hk. eapply Hnd; [done|]. apply elem_of_cons; auto.
Qed.

Lemma parse_members_print rest o : forall kv acc fuel,
  parses kv.2 -> Forall (fun kv => parses kv.2) o ->
  NoDup (keys (acc ++ kv :: o)) ->
  (slen (inner +:+ member_text gap cur kv +:+
         items_tail inner outer "}" (member_text gap cur <$> o)) <= fuel)%nat ->
  parse_members fuel acc (inner +:+ member_text gap cur kv +:+
     items_tail inner outer "}" (member_text gap cur <$> o) +:+ rest)
  = Some (JObj (acc ++ ((fun kv => (kv.1, json_norm kv.2)) <$> kv :: o)), rest).
Proof.
  induction o as [|kv' o IH]; intros kv acc fuel Hx Hl Hnd Hf;
    pose proof (slen_member kv); pose proof (member_fresh _ _ _ Hnd) as Hfresh;
    rewrite !slen_app in Hf; (destruct fuel as [|fuel]; [lia|]);
    (rewrite parse_member_head; [|done|by apply items_tail_delimits|lia]);
    rewrite (assoc_set_fresh _ _ _ Hfresh); cbn [fmap list_fmap items_tail] in *.
  - rewrite sapp_assoc, skip_ws_app by done. reflexivity.
  - apply Forall_cons in Hl as [Hy Hl]. rewrite !slen_app in Hf. change (slen ",") with 1%nat in Hf.
    cbn [String.append]. rewrite !sapp_assoc, skip_ws_head by reflexivity.
    rewrite Ascii.eqb_refl, IH; [by rewrite <-app_assoc|done..| |rewrite !slen_app; lia].
    unfold keys in *. rewrite <-app_assoc. rewrite !fmap_app in *. exact Hnd.
Qed.
End Elements.

(** ** The round trip *)

Lemma Forall_live (P : js -> Prop) o :
  Forall (fun kv => P kv.2) o -> Forall (fun kv => P kv.2) (live_props o).
Proof.
  unfold live_props. induction 1 as [|[k x] o Hx Ho IH]; simpl; [constructor|].
  destruct (is_undef x); simpl; [done|]. by constructor.
Qed.

Lemma keys_live_NoDup o : NoDup (keys o) -> NoDup (keys (live_props o)).
Proof.
  unfold keys, live_props. induction o as [|[k x] o IH]; [done|].
  cbn [bfilter snd fmap list_fmap fst]. intros [Hk Ho]%NoDup_cons.
  destruct (is_undef x); cbn [negb]; [auto|]. cbn [fmap list_fmap fst].
  apply NoDup_cons. split; [|auto]. intros Hin. apply Hk.
  apply list_elem_of_fmap in Hin as (kv & -> & Hkv). apply bfilter_elem_of in Hkv as [Hkv _].
  apply list_elem_of_fmap. eauto.
Qed.

Lemma match_bracket {A} (a b : A) c :
  value_start c = true -> match c with "]"%char => a | _ => b end = b.
Proof. destruct c as [[] [] [] [] [] [] [] []]; first [discriminate | reflexivity]. Qed.

Lemma parse_value_arr fuel w c t : is_ws w = true -> value_start c = true ->
  parse_value (S fuel) ("[" +:+ w +:+ String c t) = parse_elems fuel [] (w +:+ String c t).
Proof.
  intros Hw Hc. pose proof Hc as Hc'. unfold value_start in Hc'. split_bools.
  cbn [parse_value String.append]. rewrite skip_ws_head by reflexivity.
  cbn [Ascii.eqb Bool.eqb]. rewrite skip_ws_app, skip_ws_head by done. by apply match_bracket.
Qed.

Lemma parse_value_obj fuel w t : is_ws w = true ->
  parse_value (S fuel) ("{" +:+ w +:+ String DQ t) = parse_members fuel [] (w +:+ String DQ t).
Proof.
  intros Hw. cbn [parse_value String.append]. rewrite skip_ws_head by reflexivity.
  cbn [Ascii.eqb Bool.eqb]. by rewrite skip_ws_app, skip_ws_head.
Qed.

Lemma parses_all v : json_ok v -> parses v.
Proof.
  induction v as [| |[]|n|s|l IH|o IH] using js_ind; intros Hok gap cur rest fuel Hg Hc Hd Hf;
    (destruct fuel as [|fuel];
     [destruct (print_value_head gap cur _ Hok) as (c & s' & E & _); rewrite E in Hf; simpl in Hf; lia|]);
    try reflexivity.
  - destruct n as [z|n d| |]; [|destruct (frac_text n d Hok) as (Hn & Hp & c & t & E & Hs);
      cbn [print_value num_is_finite json_norm]; apply (parse_num_app _ _ rest Hn Hd) in Hp; rewrite E in *; cbn [String.append] in *;
      apply number_start in Hs as (Hv & H1 & H2 & H3 & H4 & H5 & H6); unfold value_start in Hv; split_bools; cbn [parse_value];
      rewrite skip_ws_head by done; by rewrite H1, H2, H3, H4, H5, H6, Hp|reflexivity..].
    cbn [print_value num_is_finite num_to_string json_norm].
    pose proof (parse_num_print_Z z rest Hd) as Hp.
    destruct (print_Z_head z) as (c & t & E & Hs). rewrite E in *. cbn [String.append] in *.
    apply number_start in Hs as (Hv & H1 & H2 & H3 & H4 & H5 & H6).
    unfold value_start in Hv. split_bools. cbn [parse_value].
    rewrite skip_ws_head by done. by rewrite H1, H2, H3, H4, H5, H6, Hp.
  - cbn [print_value json_norm parse_value]. unfold quote. cbn [String.append].
    rewrite skip_ws_head by reflexivity. rewrite sapp_assoc.
    change (s_dq +:+ ?s) with (String DQ s). by rewrite parse_str_quote.
  - apply json_ok_arr in Hok. assert (Forall parses l) as Hl.
    { apply Forall_forall. intros x Hx. rewrite Forall_forall in IH, Hok. auto. }
    cbn [print_value json_norm] in *.
    destruct l as [|x l]; [reflexivity|]. cbn [fmap list_fmap wrap_items] in *.
    pose proof (newline_ws gap (cur +:+ gap) ltac:(by apply is_ws_app)) as Hin.
    pose proof (newline_ws gap cur Hc) as Hout.
    apply Forall_cons in Hl as [Hx Hl]. apply Forall_cons in Hok as [Hokx _].
    destruct (print_value_head gap (cur +:+ gap) x Hokx) as (c & t & E & Hv).
    rewrite !sapp_assoc. rewrite E at 1. cbn [String.append].
    change (String "[" ?s) with ("[" +:+ s). rewrite parse_value_arr by done.
    change (String c (t +:+ ?s)) with (String c t +:+ s). rewrite <-E.
    apply (parse_elems_print gap (cur +:+ gap) _ _ Hg) with (acc := []); try done.
    { by apply is_ws_app. }
    rewrite slen_app in Hf. change (slen "[") with 1%nat in Hf. lia.
  - apply json_ok_obj in Hok as [Hnd Hok].
    rewrite print_value_obj, json_norm_obj in *.
    assert (Forall (fun kv => parses kv.2) (live_props o)) as Hl.
    { apply Forall_live, Forall_forall. intros kv Hkv. rewrite Forall_forall in IH, Hok. auto. }
    apply keys_live_NoDup in Hnd.
    destruct (live_props o) as [|kv l]; [reflexivity|]. cbn [fmap list_fmap wrap_items] in *.
    pose proof (newline_ws gap (cur +:+ gap) ltac:(by apply is_ws_app)) as Hin.
    pose proof (newline_ws gap cur Hc) as Hout.
    apply Forall_cons in Hl as [Hx Hl].
    rewrite !sapp_assoc. unfold member_text at 1, quote at 1. cbn [String.append].
    change (String "{" ?s) with ("{" +:+ s). rewrite parse_value_obj by done.
    apply (parse_members_print gap (cur +:+ gap) _ _) with (acc := []) (kv := kv); try done.
    { by apply is_ws_app. }
    rewrite slen_app in Hf. change (slen "{") with 1%nat in Hf. lia.
Qed.

Theorem parse_print gap v :
  is_ws gap = true -> json_ok v -> json_parse (print_value gap "" v) = Some (json_norm v).
Proof.
  intros Hg Hok. unfold json_parse.
  pose proof (parses_all v Hok gap "" "" (S (slen (print_value gap "" v))) Hg eq_refl eq_refl
                ltac:(lia)) as H.
  rewrite sapp_nil_r in H. by rewrite H.
Qed.

(** The same for a file that ends in a newline. *)
Theorem parse_print_nl gap v :
  is_ws gap = true -> json_ok v -> json_parse (print_value gap "" v +:+ s_nl) = Some (json_norm v).
Proof.
  intros Hg Hok. unfold json_parse.
  pose proof (parses_all v Hok gap "" s_nl (S (slen (print_value gap "" v +:+ s_nl))) Hg eq_refl eq_refl) as H.
  rewrite slen_app in H. rewrite slen_app, H by lia. done.
Qed.

(** [json_ok], executable. *)
Fixpoint json_okb (v : js) : bool :=
  match v with
  | JNum (NInt z) => Z.abs z <? 10 ^ 21
  | JNum (NFrac n d) => frac_ok n d
  | JArr l => forallb json_okb l
  | JObj o => bool_decide (NoDup (keys o)) && forallb (fun kv => json_okb kv.2) o
  | _ => true
  end.

Lemma json_okb_sound v : json_okb v = true -> json_ok v.
Proof.
  induction v as [| | |n|s|l IH|o IH] using js_ind; cbn [json_okb]; intros H; try exact I.
  - destruct n; try exact I; [by apply Z.ltb_lt in H|exact H].
  - apply json_ok_arr. apply Forall_forall. intros x Hx.
    rewrite Forall_forall in IH. apply IH; [done|]. rewrite forallb_forall in H. by apply H, list_elem_of_In.
  - apply json_ok_obj. apply andb_true_iff in H as [Hd H]. apply bool_decide_eq_true in Hd. split; [done|].
    rewrite forallb_forall in H. apply Forall_forall. intros x Hx. rewrite Forall_forall in IH.
    apply IH; [done|]. by apply H, list_elem_of_In.
Qed.

(** ** Compact text is one non-blank line *)

Notation no_nl := (no_char NL).

Lemma no_nl_app s1 s2 : no_nl (s1 +:+ s2) = no_nl s1 && no_nl s2.
Proof. apply sforall_app. Qed.

Lemma no_nl_wrap open close items :
  no_nl open = true -> no_nl close = true -> Forall (fun s => no_nl s = true) items ->
  no_nl (wrap_items open "" "" close items) = true.
Proof.
  intros Ho Hc Hi. destruct items as [|x xs]; simpl; [by rewrite no_nl_app, Ho, Hc|].
  apply Forall_cons in Hi as [Hx Hi].
  rewrite !no_nl_app, Ho, Hx. simpl. induction Hi as [|y ys Hy Hys IH]; simpl; [done|].
  unfold no_char in *; simpl. by rewrite sforall_app, Hy, IH.
Qed.

Lemma no_nl_quote s : no_nl (quote s) = true.
Proof.
  unfold quote. change (no_nl (String DQ ?x)) with (no_nl x).
  induction s as [|c s IH]; [done|]. cbn [quote_body]. rewrite sapp_assoc, no_nl_app, IH, andb_true_r.
  destruct c as [[] [] [] [] [] [] [] []]; reflexivity.
Qed.

Lemma no_nl_digits s : sforall is_digit s = true -> no_nl s = true.
Proof.
  unfold no_char. induction s as [|c s IH]; simpl; [done|]. intros H; split_bools; [|auto].
  destruct c as [[] [] [] [] [] [] [] []]; first [discriminate | reflexivity].
Qed.

Lemma print_digits_digits fuel n acc :
  0 <= n -> sforall is_digit acc = true -> sforall is_digit (print_digits fuel n acc) = true.
Proof.
  revert n acc; induction fuel as [|fuel IH]; intros n acc Hn Ha; [done|].
  cbn [print_digits]. destruct (Z.ltb_spec n 10).
  - cbn [sforall]. by rewrite is_digit_digit_char, Ha by lia.
  - apply IH; [apply Z.div_pos; lia|]. cbn [sforall].
    rewrite is_digit_digit_char by (apply Z.mod_pos_bound; lia). done.
Qed.

Lemma no_nl_print_Z z : no_nl (print_Z z) = true.
Proof.
  unfold print_Z, print_nat. destruct (Z.ltb_spec z 0).
  - change (no_nl (String "-" ?s)) with (no_nl s). apply no_nl_digits, print_digits_digits; [lia|done].
  - apply no_nl_digits, print_digits_digits; done.
Qed.

Lemma no_nl_numeric s : sforall is_numeric s = true -> no_nl s = true.
Proof.
  unfold no_char. induction s as [|c s IH]; simpl; [done|]. intros [Hc Hs]%andb_true_iff. rewrite IH by done.
  destruct c as [[] [] [] [] [] [] [] []]; first [discriminate | reflexivity].
Qed.

Lemma print_compact_no_nl v : forall cur, json_ok v -> no_nl (print_value "" cur v) = true.
Proof.
  induction v as [| |[]|n|s|l IH|o IH] using js_ind; intros cur Hok; try reflexivity.
  - destruct n as [z|n d| |]; [apply no_nl_print_Z|by apply no_nl_numeric, frac_text|reflexivity..].
  - apply no_nl_quote.
  - apply json_ok_arr in Hok. cbn [print_value]. apply no_nl_wrap; [done..|].
    rewrite Forall_fmap, Forall_forall in *. intros x Hx. apply IH; auto.
  - apply json_ok_obj in Hok as [_ Hok]. rewrite print_value_obj.
    apply no_nl_wrap; [done..|]. rewrite Forall_fmap.
    pose proof (Forall_live (fun x => forall cur, json_ok x -> no_nl (print_value "" cur x) = true) _ IH) as H1. pose proof (Forall_live _ _ Hok) as H2.
    rewrite !Forall_forall in *. intros [k x] Hkv.
    pose proof (H1 _ Hkv) as Hx. pose proof (H2 _ Hkv) as Hokx.
    unfold compose, member_text. cbn [fst snd] in *.
    rewrite !no_nl_app, no_nl_quote, Hx by done. reflexivity.
Qed.

(** The text of a value never trims to the empty string. *)
Lemma print_value_not_blank gap cur v : json_ok v -> is_obj v = true \/ is_array v = true ->
  exists s, print_value gap cur v = String "{" s \/ print_value gap cur v = String "[" s.
Proof.
  intros _ [H|H]; destruct v as [| |[]|n|s|l|o]; try discriminate H.
  - rewrite print_value_obj. destruct (_ <$> live_props o); simpl; eauto.
  - cbn [print_value]. destruct (_ <$> l); simpl; eauto.
Qed.

#[export] Hint Resolve print_compact_no_nl no_nl_quote no_nl_print_Z : json.

(** ** What is stored prints and reads the same *)

Lemma norm_not_undef v : is_undef (json_norm v) = false.
Proof. destruct v as [| | |n| | |]; try done. simpl. by destruct (num_is_finite n). Qed.
Lemma live_norm o : live_props ((fun kv => (kv.1, json_norm kv.2)) <$> o) = (fun kv : string * js => (kv.1, json_norm kv.2)) <$> o.
Proof. unfold live_props. induction o as [|kv o IH]; [done|]. rewrite fmap_cons. cbn [bfilter snd]. by rewrite norm_not_undef, IH. Qed.
Lemma Forall_fmap_eq {A B} (f g : A -> B) l : Forall (fun x => f x = g x) l -> f <$> l = g <$> l.
Proof. induction 1 as [|x l Hx _ IH]; [done|]. by rewrite !fmap_cons, Hx, IH. Qed.

Lemma print_norm v : forall gap cur, print_value gap cur (json_norm v) = print_value gap cur v.
Proof.
  induction v as [| |b|n|s|l IH|o IH] using js_ind; intros gap cur; try done.
  - simpl. destruct (num_is_finite n) eqn:E; simpl; by rewrite ?E.
  - cbn [json_norm print_value]. f_equal. rewrite <-list_fmap_compose. apply Forall_fmap_eq. eapply Forall_impl; [exact IH|]. intros x Hx. apply Hx.
  - rewrite json_norm_obj, !print_value_obj, live_norm, <-list_fmap_compose. f_equal. apply Forall_fmap_eq.
    eapply Forall_impl; [apply (Forall_live (fun x => forall gap cur, print_value gap cur (json_norm x) = print_value gap cur x)), IH|].
    intros [k x] Hx. unfold compose, member_text. cbn [fst snd] in *. by rewrite Hx.
Qed.
Lemma norm_norm v : json_norm (json_norm v) = json_norm v.
Proof.
  induction v as [| |b|n|s|l IH|o IH] using js_ind; try done.
  - simpl. destruct (num_is_finite n) eqn:E; simpl; by rewrite ?E.
  - cbn [json_norm]. f_equal. rewrite <-list_fmap_compose. apply Forall_fmap_eq, IH.
  - rewrite !json_norm_obj, live_norm, <-list_fmap_compose. f_equal. apply Forall_fmap_eq.
    eapply Forall_impl; [apply (Forall_live (fun x => json_norm (json_norm x) = json_norm x)), IH|].
    intros [k x] Hx. unfold compose. cbn [fst snd] in *. by rewrite Hx.
Qed.
Lemma norm_ok v : json_ok v -> json_ok (json_norm v).
Proof.
  induction v as [| |b|n|s|l IH|o IH] using js_ind; intros H; try done.
  - simpl in *. destruct n; done.
  - apply json_ok_arr in H. cbn [json_norm]. apply json_ok_arr, Forall_fmap. rewrite Forall_forall in *. intros x Hx. apply IH; auto.
  - apply json_ok_obj in H as [Hn H]. rewrite json_norm_obj. apply json_ok_obj. split.
    + unfold keys. rewrite <-list_fmap_compose. by apply (keys_live_NoDup o).
    + apply Forall_fmap. pose proof (Forall_live (fun x => json_ok x -> json_ok (json_norm x)) _ IH) as H1. pose proof (Forall_live _ _ H) as H2.
      rewrite Forall_forall in *. intros kv Hkv. unfold compose. cbn [snd]. by apply H1, H2.
Qed.
