(* ===== verification/JsRegex.v ===== *)
(** * JavaScript regular expressions

    A backtracking matcher with the semantics of ECMAScript for the constructs
    the modelled code uses: classes, sequences, ordered alternatives, greedy and
    lazy quantifiers, capture groups and references to them, [^], [$], [\b] and look-ahead. The matcher
    is total: a quantifier iterates at most once per remaining character beyond
    its minimum, because an optional iteration that consumes nothing fails (as
    in the specification). Flags: [i] is expressed by classes closed under case,
    [g] by [re_match_all], and [^] under [m] by an expression of its own. *)
From S2P Require Import Prelude JsString.

Inductive re : Type :=
| REmpty
| RClass (p : ascii -> bool)
| RSeq (a b : re)
| RAlt (a b : re)
| RRep (greedy : bool) (min : nat) (max : option nat) (r : re)
| RGroup (i : nat) (r : re)
| RBol | REol
| RWordB
| RLook (negative : bool) (r : re)
| RLineStart                    (* [^] with the flag [m] *)
| RBack (i : nat).              (* [\i]: the text of a group *)

(** A position in the input: the character before it, the text after it, and the
    captures so far. *)
Record mstate := MState {
  ms_prev : option ascii;
  ms_rest : string;
  ms_pos : nat;
  ms_caps : list (nat * string)
}.

Definition step_char (st : mstate) : option (ascii * mstate) :=
  match ms_rest st with
  | EmptyString => None
  | String c r => Some (c, MState (Some c) r (S (ms_pos st)) (ms_caps st))
  end.

Definition set_cap (i : nat) (s : string) (caps : list (nat * string)) : list (nat * string) :=
  (i, s) :: bfilter (fun p => negb (p.1 =? i)%nat) caps.

Fixpoint group_ids (r : re) : list nat :=
  match r with
  | RSeq a b | RAlt a b => group_ids a ++ group_ids b
  | RRep _ _ _ r | RLook _ r => group_ids r
  | RGroup i r => i :: group_ids r
  | _ => []
  end.

Definition clear_caps (ids : list nat) (st : mstate) : mstate :=
  MState (ms_prev st) (ms_rest st) (ms_pos st)
    (bfilter (fun p => negb (existsb (Nat.eqb p.1) ids)) (ms_caps st)).

Definition at_word (o : option ascii) : bool := match o with Some c => is_word c | None => false end.
Definition at_line_start (o : option ascii) : bool :=
  match o with Some c => Ascii.eqb c NL || Ascii.eqb c CR | None => true end.
Definition next_char (st : mstate) : option ascii :=
  match ms_rest st with EmptyString => None | String c _ => Some c end.

(** The quantifier [{min,max}] around one-iteration matcher [step]. *)
Fixpoint rep_loop (step : mstate -> (mstate -> option mstate) -> option mstate) (greedy : bool)
    (n min : nat) (max : option nat) (st : mstate) (k : mstate -> option mstate) {struct n}
  : option mstate :=
  match n with
  | O => None
  | S n =>
    let again := step st (fun st' =>
      if (min =? 0)%nat && (ms_pos st' =? ms_pos st)%nat then None
      else rep_loop step greedy n (pred min) (pred <$> max) st' k) in
    match max, min with
    | Some O, _ => k st
    | _, S _ => again
    | _, O =>
      if greedy then match again with Some x => Some x | None => k st end
      else match k st with Some x => Some x | None => again end
    end
  end.

(** The state after [s] has been read and [rest] is left. *)
Fixpoint last_char (prev : option ascii) (s : string) : option ascii :=
  match s with EmptyString => prev | String c s => last_char (Some c) s end.
Definition advance (s rest : string) (st : mstate) : mstate :=
  MState (last_char (ms_prev st) s) rest (ms_pos st + slen s) (ms_caps st).

(** [rmatch r st k]: match [r] at [st] and continue with [k]; the first success
    in backtracking order. *)
Fixpoint rmatch (r : re) (st : mstate) (k : mstate -> option mstate) {struct r} : option mstate :=
  match r with
  | REmpty => k st
  | RClass p =>
    match step_char st with Some (c, st') => if p c then k st' else None | None => None end
  | RSeq a b => rmatch a st (fun st' => rmatch b st' k)
  | RAlt a b => match rmatch a st k with Some x => Some x | None => rmatch b st k end
  | RRep greedy min max r =>
    rep_loop (fun st k => rmatch r (clear_caps (group_ids r) st) k)
      greedy (S (min + slen (ms_rest st))) min max st k
  | RGroup i r =>
    rmatch r st (fun st' =>
      k (MState (ms_prev st') (ms_rest st') (ms_pos st')
           (set_cap i (stake (ms_pos st' - ms_pos st) (ms_rest st)) (ms_caps st'))))
  | RBol => match ms_prev st with None => k st | Some _ => None end
  | REol => match ms_rest st with EmptyString => k st | _ => None end
  | RWordB => if xorb (at_word (ms_prev st)) (at_word (next_char st)) then k st else None
  | RLook neg r =>
    match rmatch r st Some with
    | Some st' => if neg then None
                  else k (MState (ms_prev st) (ms_rest st) (ms_pos st) (ms_caps st'))
    | None => if neg then k st else None
    end
  | RLineStart => if at_line_start (ms_prev st) then k st else None
  | RBack i =>
    let t := default "" (snd <$> find (fun p => (p.1 =? i)%nat) (ms_caps st)) in
    if starts_with t (ms_rest st) then k (advance t (sdrop (slen t) (ms_rest st)) st) else None
  end.

(** ** [exec], [test], [replace], [split] *)

Record rmatch_result := RMatch {
  m_index : nat;            (* position of the match *)
  m_text : string;          (* the whole match *)
  m_caps : list (nat * string);
  m_prev : option ascii;    (* last character consumed *)
  m_after : string          (* the input after the match *)
}.

Definition group (m : rmatch_result) (i : nat) : option string :=
  snd <$> find (fun p => (p.1 =? i)%nat) (m_caps m).
Definition group_or (d : string) (m : rmatch_result) (i : nat) : string := default d (group m i).

Definition match_at (r : re) (prev : option ascii) (pos : nat) (s : string) : option rmatch_result :=
  match rmatch r (MState prev s pos []) Some with
  | Some st => Some (RMatch pos (stake (ms_pos st - pos) s) (ms_caps st) (ms_prev st) (ms_rest st))
  | None => None
  end.

(** Search from position [pos], whose preceding character is [prev]. *)
Fixpoint search_from (r : re) (prev : option ascii) (pos : nat) (s : string) : option rmatch_result :=
  match match_at r prev pos s with
  | Some m => Some m
  | None => match s with
            | EmptyString => None
            | String c s' => search_from r (Some c) (S pos) s'
            end
  end.

(** [s.match(re)] without the [g] flag. *)
Definition re_exec (r : re) (s : string) : option rmatch_result := search_from r None 0 s.
Definition re_test (r : re) (s : string) : bool :=
  match re_exec r s with Some _ => true | None => false end.

(** All matches of a [g] expression, left to right; an empty match advances by
    one character. The fuel bounds the number of matches by the length. *)
Fixpoint match_all_from (fuel : nat) (r : re) (prev : option ascii) (pos : nat) (s : string)
  : list rmatch_result :=
  match fuel with
  | O => []
  | S fuel =>
    match search_from r prev pos s with
    | None => []
    | Some m =>
      let pos' := (m_index m + slen (m_text m))%nat in
      if String.eqb (m_text m) "" then
        match m_after m with
        | EmptyString => [m]
        | String c rest => m :: match_all_from fuel r (Some c) (S pos') rest
        end
      else m :: match_all_from fuel r (m_prev m) pos' (m_after m)
    end
  end.
Definition re_match_all (r : re) (s : string) : list rmatch_result :=
  match_all_from (S (slen s)) r None 0 s.

(** [s.replace(re, f)] for a [g] expression: rebuild [s] around the matches. *)
Fixpoint rebuild (pos : nat) (s : string) (f : rmatch_result -> string) (ms : list rmatch_result)
  : string :=
  match ms with
  | [] => s
  | m :: ms =>
    let skip := (m_index m - pos)%nat in
    stake skip s +:+ f m +:+
    rebuild (m_index m + slen (m_text m)) (sdrop (skip + slen (m_text m)) s) f ms
  end.
Definition re_replace_all (r : re) (f : rmatch_result -> string) (s : string) : string :=
  rebuild 0 s f (re_match_all r s).
(** [s.replace(re, f)] without [g]. *)
Definition re_replace (r : re) (f : rmatch_result -> string) (s : string) : string :=
  match re_exec r s with Some m => rebuild 0 s f [m] | None => s end.

(** [s.split(re)] for an expression that never matches the empty string and has
    no groups. *)
Fixpoint split_at (pos : nat) (s : string) (ms : list rmatch_result) : list string :=
  match ms with
  | [] => [s]
  | m :: ms =>
    let skip := (m_index m - pos)%nat in
    stake skip s :: split_at (m_index m + slen (m_text m)) (sdrop (skip + slen (m_text m)) s) ms
  end.
Definition re_split (r : re) (s : string) : list string := split_at 0 s (re_match_all r s).

(** ** Notation for expressions *)

Definition ch (c : ascii) : re := RClass (Ascii.eqb c).
(** A letter with the [i] flag. *)
Definition chi (c : ascii) : re := RClass (fun d => Ascii.eqb (lower_char c) (lower_char d)).
Fixpoint lit (s : string) : re :=
  match s with EmptyString => REmpty | String c s => RSeq (ch c) (lit s) end.
Fixpoint liti (s : string) : re :=
  match s with EmptyString => REmpty | String c s => RSeq (chi c) (liti s) end.
Definition one_of (s : string) (c : ascii) : bool := existsb (Ascii.eqb c) (list_ascii_of_string s).
Definition none_of (s : string) (c : ascii) : bool := negb (one_of s c).
Definition rstar (r : re) : re := RRep true 0 None r.
Definition rplus (r : re) : re := RRep true 1 None r.
Definition ropt (r : re) : re := RRep true 0 (Some 1%nat) r.
Definition rstar_lazy (r : re) : re := RRep false 0 None r.
Definition rtimes (n m : nat) (r : re) : re := RRep true n (Some m) r.
(** [.]: any character but a line terminator. *)
Definition rdot : re := RClass (none_of (String NL (String CR ""))).
Definition rspace : re := RClass is_space.
Definition rany : re := RClass (fun _ => true).

Declare Scope re_scope.
Delimit Scope re_scope with re.
Bind Scope re_scope with re.
Infix "⋅" := RSeq (at level 40, left associativity) : re_scope.
Infix "∥" := RAlt (at level 50, left associativity) : re_scope.

(** [s.replace(/.../g, c)] that only replaces whole characters is a map; shared
    by the normalisers. *)
Fixpoint smap (f : ascii -> ascii) (s : string) : string :=
  match s with EmptyString => EmptyString | String c s => String (f c) (smap f s) end.

(** ** Anchored class expressions [/^[class]{min,max}$/] *)

Definition at_end (st : mstate) : option mstate :=
  match ms_rest st with EmptyString => Some st | _ => None end.

Lemma rep_class_end p s : forall n min max prev pos caps,
  (min + slen s < n)%nat -> (min <= max)%nat ->
  (exists st, rep_loop (fun st k => rmatch (RClass p) (clear_caps [] st) k) true n min (Some max)
                (MState prev s pos caps) at_end = Some st)
  <-> sforall p s = true /\ (min <= slen s <= max)%nat.
Proof.
  induction s as [|c s IH]; intros n min max prev pos caps Hn Hm;
    (destruct n as [|n]; [simpl in Hn; lia|]).
  - cbn. destruct max as [|max], min as [|min]; simpl; try lia; split;
      try (intros [st [=]]); try (intros [_ H]; lia); eauto with lia.
  - cbn [rep_loop rmatch clear_caps step_char ms_rest ms_prev ms_pos ms_caps sforall String.length].
    destruct max as [|max].
    { destruct min; [|lia]. cbn. split; [by intros [st [=]]|]. intros [_ H]; lia. }
    assert ((S pos =? pos)%nat = false) as -> by (apply Nat.eqb_neq; lia). rewrite andb_false_r.
    cbn [fmap option_fmap option_map pred].
    assert (forall min', (min' <= max)%nat -> min' = pred min ->
      ((exists st, (if p c then rep_loop (fun st k => rmatch (RClass p) (clear_caps [] st) k) true n
          min' (Some max) (MState (Some c) s (S pos)
            (bfilter (fun p0 => negb (existsb (Nat.eqb p0.1) [])) caps)) at_end else None) = Some st)
       <-> p c && sforall p s = true /\ (min <= S (slen s) <= S max)%nat)) as Hstep.
    { intros min' Hle ->. simpl in Hn. destruct (p c); simpl.
      - rewrite IH by lia. split; intros [? ?]; split; try done; lia.
      - split; [by intros [? ?]|]. by intros [? _]. }
    destruct min as [|min].
    + rewrite <-(Hstep 0%nat) by lia. cbn [pred rmatch].
      match goal with |- context [match ?x with Some _ => _ | None => _ end] => destruct x end;
        [reflexivity|]. cbn. split; by intros [? ?].
    + rewrite <-(Hstep min) by lia. reflexivity.
Qed.

(** [/^[class]{min,max}$/.test(s)] says every character is in the class and the
    length is in the range. *)
Lemma re_test_class p min max s : (min <= max)%nat ->
  re_test (RBol ⋅ rtimes min max (RClass p) ⋅ REol) s =
  sforall p s && (min <=? slen s)%nat && (slen s <=? max)%nat.
Proof.
  intros Hm. unfold re_test, re_exec.
  set (r := (RBol ⋅ rtimes min max (RClass p) ⋅ REol)%re).
  assert (forall c pos s, search_from r (Some c) pos s = None) as Hlater.
  { intros c pos s'. revert c pos. induction s' as [|d s' IH]; intros c pos; [done|].
    cbn [search_from]. unfold match_at; simpl. apply IH. }
  assert (search_from r None 0 s = match_at r None 0 s) as ->.
  { destruct s as [|c s]; cbn [search_from]; [by destruct (match_at r None 0 "")|].
    destruct (match_at r None 0 (String c s)); [done|]. apply Hlater. }
  pose proof (rep_class_end p s (S (min + slen s)) min max None 0 [] ltac:(lia) Hm) as H.
  unfold match_at, r. cbn [rmatch rtimes ms_prev ms_rest].
  change (fun st' : mstate => match ms_rest st' with "" => Some st' | String _ _ => None end) with at_end.
  change (group_ids (RClass p)) with (@nil nat).
  cbn [rmatch] in H. destruct (rep_loop _ _ _ _ _ _ _) as [st|] eqn:E.
  - destruct H as [H _]. destruct H as (H1 & H2 & H3); [eauto|].
    rewrite H1. by apply Nat.leb_le in H2 as ->, H3 as ->.
  - destruct H as [_ H].
    destruct (sforall p s) eqn:E1; [|done].
    destruct (Nat.leb_spec min (slen s)); [|done]. destruct (Nat.leb_spec (slen s) max); [|done].
    destruct H as [st [=]]. done.
Qed.

(** ** Languages

    The matcher backtracks completely: without groups, anchors and look-ahead, a match followed by
    [k] exists exactly when some word of the language is next and [k] accepts what follows. *)


Inductive lang : re -> string -> Prop :=
| lang_empty : lang REmpty ""
| lang_class p c : p c = true -> lang (RClass p) (String c "")
| lang_seq a b s1 s2 : lang a s1 -> lang b s2 -> lang (RSeq a b) (s1 +:+ s2)
| lang_alt_l a b s : lang a s -> lang (RAlt a b) s
| lang_alt_r a b s : lang b s -> lang (RAlt a b) s
| lang_rep_nil g max r : lang (RRep g 0 max r) ""
| lang_rep_cons g max r s1 s2 : max <> Some O -> lang r s1 -> lang (RRep g 0 (pred <$> max) r) s2 -> lang (RRep g 0 max r) (s1 +:+ s2).

Fixpoint simple (r : re) : bool :=
  match r with
  | REmpty | RClass _ => true
  | RSeq a b | RAlt a b => simple a && simple b
  | RRep _ O _ r => simple r
  | _ => false
  end.

Lemma last_char_app s1 s2 prev : last_char prev (s1 +:+ s2) = last_char (last_char prev s1) s2.
Proof. revert prev; induction s1; intros prev; simpl; auto. Qed.
Lemma advance_app s1 s2 r1 r2 st : advance s2 r2 (advance s1 r1 st) = advance (s1 +:+ s2) r2 st.
Proof. unfold advance; simpl. rewrite last_char_app, slen_app. f_equal. lia. Qed.
Lemma advance_nil st : advance "" (ms_rest st) st = st.
Proof. destruct st. unfold advance; simpl. f_equal. lia. Qed.

Lemma simple_groups r : simple r = true -> group_ids r = [].
Proof.
  induction r; simpl; try done; [intros [? ?]%andb_true_iff; by rewrite IHr1, IHr2..|]. by destruct min.
Qed.
Lemma clear_no_caps st : clear_caps [] st = st.
Proof.
  destruct st as [p r n caps]. unfold clear_caps; simpl. f_equal. by induction caps as [|c caps IH]; simpl; [|f_equal].
Qed.

(** A bound that allows more iterations allows every word. *)
Lemma lang_rep_weaken g max r s : lang (RRep g 0 (pred <$> max) r) s -> max <> Some O -> lang (RRep g 0 max r) s.
Proof.
  remember (RRep g 0 (pred <$> max) r) as e eqn:E. intros H. revert max E.
  induction H as [| | | | |g' m' r'|g' m' r' s1 s2 Hm H1 _ H2 IH]; intros max E Hmax; try discriminate E; injection E as -> -> ->; [constructor|].
  constructor; [done..|]. apply (IH (pred <$> max)); [done|]. by destruct max as [[|[|n]]|].
Qed.

Section Iterations.
Context (r : re) (step : mstate -> (mstate -> option mstate) -> option mstate).
Context (Hr : forall st k, is_Some (step st k) <->
  exists s1 s2, ms_rest st = s1 +:+ s2 /\ lang r s1 /\ is_Some (k (advance s1 s2 st))).

Lemma rep_loop_lang g n : forall max st k, (slen (ms_rest st) < n)%nat ->
  is_Some (rep_loop step g n 0 max st k) <->
  exists s1 s2, ms_rest st = s1 +:+ s2 /\ lang (RRep g 0 max r) s1 /\ is_Some (k (advance s1 s2 st)).
Proof.
  induction n as [|n IH]; intros max st k Hn; [lia|]. cbn [rep_loop].
  set (again := step st _).
  assert (max <> Some O -> is_Some again <-> exists s1 s2, ms_rest st = s1 +:+ s2 /\ s1 <> "" /\
            (exists w1 w2, s1 = w1 +:+ w2 /\ w1 <> "" /\ lang r w1 /\ lang (RRep g 0 (pred <$> max) r) w2) /\ is_Some (k (advance s1 s2 st))) as Hagain.
  { intros Hmax. unfold again. rewrite Hr. split.
    - intros (w1 & s2 & E & Hw1 & Hk). cbn [Nat.eqb andb ms_pos advance] in Hk.
      destruct (Nat.eqb_spec (ms_pos st + slen w1) (ms_pos st)) as [|Hne]; [by destruct Hk|].
      assert (w1 <> "") as Hw by (intros ->; simpl in Hne; lia).
      apply IH in Hk as (w2 & s3 & E2 & Hw2 & Hk); [|cbn [ms_rest advance]; rewrite E, slen_app in Hn; destruct w1; [done|simpl in Hn; lia]].
      cbn [ms_rest advance] in E2. rewrite advance_app in Hk. exists (w1 +:+ w2), s3. rewrite E, E2, sapp_assoc. split_and!; [done|by destruct w1| |done].
      by exists w1, w2.
    - intros (s1 & s2 & E & _ & (w1 & w2 & -> & Hw & H1 & H2) & Hk). exists w1, (w2 +:+ s2). rewrite E, sapp_assoc. split_and!; [done|done|].
      cbn [Nat.eqb andb ms_pos advance]. destruct (Nat.eqb_spec (ms_pos st + slen w1) (ms_pos st)); [destruct w1; [done|simpl in *; lia]|].
      apply IH; [cbn [ms_rest advance]; rewrite E, !slen_app in Hn; rewrite slen_app; destruct w1; [done|simpl in Hn; lia]|].
      exists w2, s2. by rewrite advance_app. }
  assert (forall s1, lang (RRep g 0 max r) s1 -> s1 = "" \/ max <> Some O /\
            exists w1 w2, s1 = w1 +:+ w2 /\ w1 <> "" /\ lang r w1 /\ lang (RRep g 0 (pred <$> max) r) w2) as Hsplit.
  { intros s1 Hs1. remember (RRep g 0 max r) as e eqn:Ee. clear -Hs1 Ee. revert max Ee.
    induction Hs1 as [| | | | |g' m' r'|g' m' r' w1 w2 Hm H1 _ H2 IH2]; intros max Ee; try discriminate Ee; injection Ee as -> -> ->; [by left|].
    destruct w1 as [|c w1]; [|by right; split; [|exists (String c w1), w2]].
    destruct (IH2 _ eq_refl) as [->|(Hm' & u1 & u2 & -> & Hu & Hl1 & Hl2)]; [by left|]. right. split; [done|].
    exists u1, u2. split_and!; [done..|]. apply lang_rep_weaken; [done|]. by destruct max as [[|[|k]]|]. }
  assert (is_Some (k st) -> exists s1 s2, ms_rest st = s1 +:+ s2 /\ lang (RRep g 0 max r) s1 /\ is_Some (k (advance s1 s2 st))) as Hnil.
  { intros Hk. exists "", (ms_rest st). split_and!; [done|constructor|by rewrite advance_nil]. }
  assert (is_Some again -> max <> Some O -> exists s1 s2, ms_rest st = s1 +:+ s2 /\ lang (RRep g 0 max r) s1 /\ is_Some (k (advance s1 s2 st))) as Hcons.
  { intros Ha Hm. apply Hagain in Ha as (s1 & s2 & E & _ & (w1 & w2 & -> & _ & H1 & H2) & Hk); [|done]. exists (w1 +:+ w2), s2. by split_and!; [|constructor|]. }
  assert (forall s1 s2, ms_rest st = s1 +:+ s2 -> lang (RRep g 0 max r) s1 -> is_Some (k (advance s1 s2 st)) ->
            is_Some (k st) \/ max <> Some O /\ is_Some again) as Hback.
  { intros s1 s2 E Hs1 Hk. destruct (Hsplit _ Hs1) as [->|(Hm & Hw)].
    - left. simpl in E. subst s2. by rewrite advance_nil in Hk.
    - right. split; [done|]. apply Hagain; [done|]. exists s1, s2. split_and!; try done. destruct Hw as (w1 & w2 & -> & Hw & _). by destruct w1. }
  destruct max as [[|max]|].
  - split; [done|]. intros (s1 & s2 & E & H1 & H2). by destruct (Hback _ _ E H1 H2) as [|[? _]].
  - split.
    + intros H. destruct g; [destruct again eqn:Ea|destruct (k st) eqn:Ek]; eauto.
    + intros (s1 & s2 & E & H1 & H2). destruct (Hback _ _ E H1 H2) as [Hk|[_ Ha]], g; try (destruct again; eauto; done); destruct (k st); eauto; done.
  - split.
    + intros H. destruct g; [destruct again eqn:Ea|destruct (k st) eqn:Ek]; eauto.
    + intros (s1 & s2 & E & H1 & H2). destruct (Hback _ _ E H1 H2) as [Hk|[_ Ha]], g; try (destruct again; eauto; done); destruct (k st); eauto; done.
Qed.
End Iterations.

Lemma rmatch_lang r : simple r = true -> forall st k, is_Some (rmatch r st k) <->
  exists s1 s2, ms_rest st = s1 +:+ s2 /\ lang r s1 /\ is_Some (k (advance s1 s2 st)).
Proof.
  induction r as [|p|a IHa b IHb|a IHa b IHb|g min max r IHr|i r IHr| | | |neg r IHr| |]; intros Hs st k; try discriminate Hs; cbn [rmatch].
  - split; [intros H; exists "", (ms_rest st); rewrite advance_nil; by split_and!; [|constructor|]|].
    intros (s1 & s2 & E & H & Hk). inversion H; subst s1. simpl in E. subst s2. by rewrite advance_nil in Hk.
  - unfold step_char. split.
    + intros H. destruct (ms_rest st) as [|c rest] eqn:E; [by destruct H|]. destruct (p c) eqn:Ep; [|by destruct H].
      exists (String c ""), rest. split_and!; [done|by constructor|]. unfold advance; simpl. by rewrite Nat.add_1_r.
    + intros (s1 & s2 & E & H & Hk). inversion H as [|p' c Hp| | | | |]; subst. rewrite E. simpl. rewrite Hp.
      unfold advance in Hk; simpl in Hk. by rewrite Nat.add_1_r in Hk.
  - apply andb_true_iff in Hs as [Ha Hb]. rewrite IHa by done. split.
    + intros (s1 & s2 & E & H1 & (s3 & s4 & E2 & H2 & Hk)%IHb); [|done]. cbn [ms_rest advance] in E2. rewrite advance_app in Hk.
      exists (s1 +:+ s3), s4. rewrite E, E2, sapp_assoc. by split_and!; [|constructor|].
    + intros (s & s4 & E & H & Hk). inversion H as [| |a' b' s1 s3 H1 H2| | | |]; subst. exists s1, (s3 +:+ s4). rewrite E, sapp_assoc.
      split_and!; [done..|]. apply IHb; [done|]. exists s3, s4. by rewrite advance_app.
  - apply andb_true_iff in Hs as [Ha Hb]. split.
    + intros H. assert (is_Some (rmatch a st k) \/ is_Some (rmatch b st k)) as [H1|H1] by (destruct (rmatch a st k); eauto).
      * apply IHa in H1 as (s1 & s2 & E & H1 & Hk); [|done]. exists s1, s2. by split_and!; [|constructor|].
      * apply IHb in H1 as (s1 & s2 & E & H1 & Hk); [|done]. exists s1, s2. by split_and!; [|apply lang_alt_r|].
    + intros (s1 & s2 & E & H & Hk). assert (is_Some (rmatch a st k) \/ is_Some (rmatch b st k)) as H1.
      { inversion H; subst; [left; apply IHa|right; apply IHb]; eauto. }
      destruct (rmatch a st k); [by eexists|]. by destruct H1 as [[? [=]]|].
  - destruct min; [|discriminate Hs]. cbn [simple] in Hs. rewrite simple_groups by done.
    apply rep_loop_lang; [|lia]. intros st' k'. rewrite clear_no_caps. by apply IHr.
Qed.

(** [/^...$/.test(s)] is membership in the language of the expression between the anchors. *)
Lemma re_test_anchored b s : simple b = true -> re_test (RBol ⋅ b ⋅ REol) s = true <-> lang b s.
Proof.
  intros Hb. set (r := (RBol ⋅ b ⋅ REol)%re).
  assert (forall c pos s, search_from r (Some c) pos s = None) as Hlater.
  { intros c pos s'. revert c pos. induction s' as [|d s' IH]; intros c pos; [done|].
    cbn [search_from]. unfold match_at; simpl. apply IH. }
  assert (re_exec r s = match_at r None 0 s) as E.
  { unfold re_exec. destruct s as [|c s]; cbn [search_from]; [by destruct (match_at r None 0 "")|].
    destruct (match_at r None 0 (String c s)); [done|]. apply Hlater. }
  unfold re_test. rewrite E. unfold match_at, r. cbn [rmatch ms_prev].
  set (k := fun st' : mstate => match ms_rest st' with "" => Some st' | String _ _ => None end).
  pose proof (rmatch_lang b Hb (MState None s 0 []) k) as H. cbn [ms_rest] in H. transitivity (is_Some (rmatch b (MState None s 0 []) k)).
  { destruct (rmatch b _ k); by split. }
  rewrite H. split.
  - intros (s1 & s2 & -> & H1 & [st Hk]). unfold k in Hk. cbn [ms_rest advance] in Hk. destruct s2; [|done]. by rewrite sapp_nil_r.
  - intros Hl. exists s, "". rewrite sapp_nil_r. by split_and!; [..|eexists].
Qed.

(** ** A block between two markers: [/open[^]*?close/] *)

Definition block_re (o c : string) : re := (lit o ⋅ rstar_lazy rany ⋅ lit c)%re.

(** The text before the first [o], the text up to the next [c], and what is after. *)
Definition block_split (o c s : string) : option (string * string * string) :=
  i ← index_of o s;
  let after := sdrop (i + slen o) s in
  j ← index_of c after;
  Some (stake i s, stake j after, sdrop (j + slen c) after).

Lemma rmatch_lit p : forall st k, rmatch (lit p) st k =
  if starts_with p (ms_rest st) then k (advance p (sdrop (slen p) (ms_rest st)) st) else None.
Proof.
  induction p as [|c p IH]; intros st k; cbn [lit rmatch starts_with String.length sdrop].
  { by rewrite advance_nil. }
  unfold step_char, ch. cbn [rmatch]. unfold step_char. destruct (ms_rest st) as [|d rest] eqn:E; [done|].
  destruct (Ascii.eqb_spec c d) as [<-|]; [|done]. cbn [andb]. rewrite IH. cbn [ms_rest]. destruct (starts_with p rest); [|done].
  f_equal. unfold advance; cbn [ms_prev ms_pos ms_caps last_char String.length]. f_equal. lia.
Qed.

Lemma lazy_any c n : forall rest prev pos caps, (slen rest < n)%nat ->
  rep_loop (fun st k => rmatch rany (clear_caps (group_ids rany) st) k) false n 0 None (MState prev rest pos caps) (fun st => rmatch (lit c) st Some) =
  match index_of c rest with
  | Some j => Some (advance (stake j rest +:+ c) (sdrop (j + slen c) rest) (MState prev rest pos caps))
  | None => None
  end.
Proof.
  induction n as [|n IH]; intros rest prev pos caps Hn; [lia|]. cbn [rep_loop]. rewrite rmatch_lit. cbn [ms_rest].
  destruct rest as [|x rest].
  - destruct c as [|y c]; [done|]. reflexivity.
  - cbn [index_of]. destruct (starts_with c (String x rest)) eqn:Es.
    { by cbn [stake append Nat.add]. }
    cbn [group_ids rany rmatch step_char clear_caps ms_rest ms_prev ms_pos ms_caps].
    change (bfilter _ caps) with (ms_caps (clear_caps [] (MState prev rest pos caps))). rewrite clear_no_caps. cbn [ms_caps].
    assert ((S pos =? pos)%nat = false) as -> by (apply Nat.eqb_neq; lia). cbn [andb Nat.eqb pred fmap option_fmap option_map].
    cbn [String.length] in Hn. change (group_ids rany) with (@nil nat) in IH. rewrite IH by lia. destruct (index_of c rest) as [j|]; [|done].
    cbn [fmap option_fmap option_map stake sdrop append Nat.add]. unfold advance. cbn [ms_prev ms_pos ms_caps last_char String.length].
    f_equal. f_equal. lia.
Qed.

Lemma match_block o c prev pos s : match_at (block_re o c) prev pos s =
  if starts_with o s then
    match index_of c (sdrop (slen o) s) with
    | Some j => Some (RMatch pos (stake (slen o + j + slen c) s) []
                        (last_char prev (o +:+ stake j (sdrop (slen o) s) +:+ c)) (sdrop (slen o + j + slen c) s))
    | None => None
    end
  else None.
Proof.
  unfold match_at, block_re. cbn [rmatch rstar_lazy]. rewrite rmatch_lit. cbn [ms_rest]. destruct (starts_with o s) eqn:E; [|done].
  apply starts_with_iff in E as [r ->]. rewrite sdrop_app. unfold advance at 1 2. cbn [ms_rest ms_prev ms_pos ms_caps]. rewrite lazy_any by lia.
  destruct (index_of c r) as [j|] eqn:Ej; [|done]. unfold advance. cbn [ms_rest ms_prev ms_pos ms_caps].
  assert (slen (stake j r +:+ c) = j + slen c)%nat as El.
  { rewrite slen_app, slen_stake. apply index_of_lt in Ej. lia. }
  rewrite El. do 2 f_equal.
  - f_equal. lia.
  - by rewrite !last_char_app.
  - replace (slen o + j + slen c)%nat with (slen o + (j + slen c))%nat by lia. clear. induction o; simpl; auto.
Qed.

Lemma index_of_tail c s n : index_of c s = None -> index_of c (sdrop n s) = None.
Proof.
  revert n; induction s as [|x s IH]; intros n H; destruct n as [|n]; cbn [sdrop]; try done. apply IH.
  cbn [index_of] in H. destruct (starts_with c (String x s)); [done|]. by destruct (index_of c s).
Qed.

Lemma sdrop_add n m s : sdrop (n + m) s = sdrop m (sdrop n s).
Proof. revert s; induction n as [|n IH]; intros s; [done|]. destruct s as [|c s]; [by destruct m|]. apply IH. Qed.

Lemma search_block o c s : forall prev pos,
  match search_from (block_re o c) prev pos s, block_split o c s with
  | Some m, Some (a, mid, b) => m_index m = (pos + slen a)%nat /\ s = a +:+ m_text m +:+ b
  | None, None => True
  | _, _ => False
  end.
Proof.
  induction s as [|x s IH]; intros prev pos; cbn [search_from]; rewrite match_block; unfold block_split.
  - cbn [index_of]. destruct (starts_with o "") eqn:E; [|done]. cbn [mbind option_bind Nat.add stake].
    destruct (index_of c (sdrop (slen o) "")) as [j|] eqn:Ej; [|done]. cbn [mbind option_bind m_index m_text slen]. split; [simpl; lia|].
    destruct o; [|done]. cbn in Ej. destruct c; [|done]. injection Ej as <-. done.
  - cbn [index_of]. destruct (starts_with o (String x s)) eqn:E.
    + cbn [mbind option_bind Nat.add stake]. destruct (index_of c (sdrop (slen o) (String x s))) as [j|] eqn:Ej.
      * cbn [mbind option_bind m_index m_text slen]. split; [simpl; lia|]. rewrite <- sdrop_add, Nat.add_assoc. simpl append. by rewrite stake_sdrop.
      * specialize (IH (Some x) (S pos)). destruct (search_from (block_re o c) (Some x) (S pos) s) as [m|]; [|done]. exfalso.
        revert IH. unfold block_split. destruct (index_of o s) as [i|] eqn:Ei; [|done]. cbn [mbind option_bind].
        assert (index_of c (sdrop (i + slen o) s) = None) as ->; [|done].
        replace (sdrop (i + slen o) s) with (sdrop (S i) (sdrop (slen o) (String x s))); [by apply index_of_tail|].
        rewrite <- sdrop_add. replace (slen o + S i)%nat with (S (i + slen o)) by lia. done.
    + specialize (IH (Some x) (S pos)). unfold block_split in IH. destruct (index_of o s) as [i|]; cbn [mbind option_bind fmap option_fmap option_map] in *; [|done].
      cbn [Nat.add sdrop stake]. destruct (search_from (block_re o c) (Some x) (S pos) s) as [m|]; destruct (index_of c (sdrop (i + slen o) s)) as [j|]; try done.
      cbn [mbind option_bind] in *. destruct IH as [-> IH2]. cbn [String.length append]. split; [lia|by rewrite <- IH2].
Qed.

(** [re.test(s)] and [s.replace(re, x)]. *)
Lemma test_block o c s : re_test (block_re o c) s = bool_decide (is_Some (block_split o c s)).
Proof.
  unfold re_test, re_exec. pose proof (search_block o c s None 0) as H.
  destruct (search_from _ _ _ _), (block_split o c s) as [[[a mid] b]|]; done.
Qed.
Lemma replace_block o c x s : re_replace (block_re o c) (fun _ => x) s =
  match block_split o c s with Some (a, _, b) => a +:+ x +:+ b | None => s end.
Proof.
  unfold re_replace, re_exec. pose proof (search_block o c s None 0) as H.
  destruct (search_from _ _ _ _) as [m|], (block_split o c s) as [[[a mid] b]|]; try done. destruct H as [Hi Hs]. cbn [rebuild].
  rewrite Hi. cbn [Nat.add]. rewrite Nat.sub_0_r. rewrite Hs at 1 2. rewrite stake_app. f_equal. f_equal.
  rewrite sdrop_add, sdrop_app, sdrop_app. done.
Qed.
