(* ===== verification/RegexFacts.v ===== *)
(** * Facts about regular expressions

    What a match says of the text it was found in ([rmatch_sound]: the text read is one the
    expression can read), when a greedy class and a lazy gap stop where one expects them to, and
    [String.prototype.replace] with a replacement text. *)
From S2P Require Import Prelude JsString JsRegex.

(** ** The texts an expression can read

    Assertions and the bounds of quantifiers are ignored, a reference to a group reads anything:
    more texts than the expression matches, enough to refute a match. *)

Fixpoint can_read (r : re) (s : string) : Prop :=
  match r with
  | REmpty | RBol | REol | RWordB | RLineStart | RLook _ _ => s = ""
  | RClass p => exists c, s = String c "" /\ p c = true
  | RSeq a b => exists s1 s2, s = s1 +:+ s2 /\ can_read a s1 /\ can_read b s2
  | RAlt a b => can_read a s \/ can_read b s
  | RRep _ _ _ r => exists l, s = foldr append "" l /\ Forall (can_read r) l
  | RGroup _ r => can_read r s
  | RBack _ => True
  end.

Lemma stake_sdrop_len n s : (n <= slen s)%nat -> slen (stake n s) = n.
Proof. intros H. rewrite slen_stake. lia. Qed.

Lemma rep_loop_sound r step g n : forall min max st k x,
  (forall st k x, step st k = Some x -> exists s st', ms_rest st = s +:+ ms_rest st' /\ can_read r s /\
                    ms_pos st' = (ms_pos st + slen s)%nat /\ k st' = Some x) ->
  rep_loop step g n min max st k = Some x ->
  exists l st', ms_rest st = foldr append "" l +:+ ms_rest st' /\ Forall (can_read r) l /\
    ms_pos st' = (ms_pos st + slen (foldr append "" l))%nat /\ k st' = Some x.
Proof.
  induction n as [|n IH]; intros min max st k x Hs H; cbn [rep_loop] in H; [done|].
  set (again := step st _) in H.
  assert (k st = Some x -> exists l st', ms_rest st = foldr append "" l +:+ ms_rest st' /\ Forall (can_read r) l /\
    ms_pos st' = (ms_pos st + slen (foldr append "" l))%nat /\ k st' = Some x) as Hstop.
  { intros Hk. exists [], st. split_and!; [done|constructor|simpl; lia|done]. }
  assert (again = Some x -> exists l st', ms_rest st = foldr append "" l +:+ ms_rest st' /\ Forall (can_read r) l /\
    ms_pos st' = (ms_pos st + slen (foldr append "" l))%nat /\ k st' = Some x) as Hagain.
  { intros Ha. apply Hs in Ha as (s & st1 & E1 & Hr & Hp & Hk). destruct (_ && _); [done|].
    apply (IH _ _ _ _ _ Hs) in Hk as (l & st2 & E2 & Hl & Hp2 & Hk). exists (s :: l), st2. cbn [foldr].
    split_and!; [by rewrite E1, E2, sapp_assoc|by constructor|rewrite slen_app; lia|done]. }
  destruct max as [[|mx]|], min as [|mn]; try (by auto); destruct g; try (destruct again; [by auto|by auto]); (destruct (k st); [by auto|by auto]).
Qed.

Lemma rmatch_sound r : forall st k x, rmatch r st k = Some x ->
  exists s st', ms_rest st = s +:+ ms_rest st' /\ can_read r s /\ ms_pos st' = (ms_pos st + slen s)%nat /\ k st' = Some x.
Proof.
  induction r as [|p|a IHa b IHb|a IHa b IHb|g min max r IHr|i r IHr| | | |neg r _| |i]; intros st k x H; cbn [rmatch] in H.
  - exists "", st. split_and!; [done..|simpl; lia|done].
  - unfold step_char in H. destruct (ms_rest st) as [|c rest] eqn:E; [done|]. destruct (p c) eqn:Ep; [|done].
    exists (String c ""), (MState (Some c) rest (S (ms_pos st)) (ms_caps st)). split_and!; [done|by exists c|simpl; lia|done].
  - apply IHa in H as (s1 & st1 & E1 & H1 & P1 & H). apply IHb in H as (s2 & st2 & E2 & H2 & P2 & H).
    exists (s1 +:+ s2), st2. split_and!; [by rewrite E1, E2, sapp_assoc|by exists s1, s2|rewrite slen_app; lia|done].
  - destruct (rmatch a st k) eqn:Ea; [injection H as ->; apply IHa in Ea as (s & st' & E & Hc & Hp & Hk)|apply IHb in H as (s & st' & E & Hc & Hp & Hk)];
      exists s, st'; split_and!; try done; [by left|by right].
  - apply rep_loop_sound with (r := r) in H as (l & st' & E & Hl & Hp & Hk).
    + exists (foldr append "" l), st'. split_and!; [done|by exists l|done..].
    + intros st0 k0 x0 H0. apply IHr in H0 as (s & st' & E & Hc & Hp & Hk). by exists s, st'.
  - apply IHr in H as (s & st' & E & Hc & Hp & Hk). eexists s, _. split_and!; [|done| |exact Hk]; done.
  - destruct (ms_prev st); [done|]. exists "", st. split_and!; [done..|simpl; lia|done].
  - destruct (ms_rest st) eqn:E; [|done]. exists "", st. split_and!; [by rewrite E|done|simpl; lia|done].
  - destruct (xorb _ _); [|done]. exists "", st. split_and!; [done..|simpl; lia|done].
  - destruct (rmatch r st Some) as [st'|], neg; try done;
      [exists "", (MState (ms_prev st) (ms_rest st) (ms_pos st) (ms_caps st'))|exists "", st]; split_and!; simpl; try done; lia.
  - destruct (at_line_start _); [|done]. exists "", st. split_and!; [done..|simpl; lia|done].
  - set (t := default "" _) in H. destruct (starts_with t (ms_rest st)) eqn:E; [|done]. apply starts_with_iff in E as [rest E].
    exists t, (advance t (sdrop (slen t) (ms_rest st)) st). rewrite E, sdrop_app in *. split_and!; done.
Qed.

(** A match found by a search. *)
Lemma match_at_sound r prev pos s m : match_at r prev pos s = Some m ->
  s = m_text m +:+ m_after m /\ can_read r (m_text m) /\ m_index m = pos.
Proof.
  unfold match_at. destruct (rmatch r _ Some) as [st|] eqn:E; [|done]. intros <-%(inj Some).
  apply rmatch_sound in E as (t & st' & E & Hc & Hp & [= ->]). cbn [ms_rest ms_pos m_text m_after m_index] in *.
  rewrite Hp, Nat.add_comm, Nat.add_sub. rewrite E, stake_app. done.
Qed.

Lemma search_sound r s : forall prev pos m, search_from r prev pos s = Some m ->
  exists a, s = a +:+ m_text m +:+ m_after m /\ can_read r (m_text m) /\ m_index m = (pos + slen a)%nat.
Proof.
  induction s as [|c s IH]; intros prev pos m; cbn [search_from]; destruct (match_at r prev pos _) as [m'|] eqn:E; try done.
  1,2: intros <-%(inj Some); apply match_at_sound in E as (E & Hc & Hi); exists ""; split_and!; [done..|simpl; lia].
  intros (a & -> & Hc & Hi)%IH. exists (String c a). split_and!; [done..|simpl; lia].
Qed.

Lemma exec_sound r s m : re_exec r s = Some m ->
  exists a, s = a +:+ m_text m +:+ m_after m /\ can_read r (m_text m) /\ m_index m = slen a.
Proof. apply search_sound. Qed.

(** What a literal, a class under a star and a gap read. *)
Lemma can_read_lit p s : can_read (lit p) s <-> s = p.
Proof.
  revert s; induction p as [|c p IH]; intros s; cbn [lit can_read]; [done|]. split.
  - intros (s1 & s2 & -> & (d & -> & Hd) & ->%IH). apply Ascii.eqb_eq in Hd as ->. done.
  - intros ->. exists (String c ""), p. split_and!; [done| |by apply IH]. exists c. by rewrite Ascii.eqb_refl.
Qed.
Lemma can_read_rep_class g mn mx p s : can_read (RRep g mn mx (RClass p)) s -> sforall p s = true.
Proof.
  intros (l & -> & Hl). induction Hl as [|w l (c & -> & Hc) _ IH]; [done|]. simpl. by rewrite Hc.
Qed.

Lemma can_read_liti p s : can_read (liti p) s -> to_lower s = to_lower p.
Proof.
  revert s; induction p as [|c p IH]; intros s; cbn [liti can_read]; [by intros ->|].
  intros (s1 & s2 & -> & (d & -> & Hd%Ascii.eqb_eq) & E%IH). cbn [append to_lower]. by rewrite E, <- Hd.
Qed.

(** A word of the language is found wherever it stands. *)
Lemma lang_liti p s : to_lower s = to_lower p -> lang (liti p) s.
Proof.
  revert s; induction p as [|c p IH]; intros [|d s]; cbn [to_lower liti]; try done; [constructor|]. intros [= Hd Hs].
  change (String d s) with (String d "" +:+ s). constructor; [|by apply IH]. constructor. by apply Ascii.eqb_eq.
Qed.
Lemma simple_liti p : simple (liti p) = true.
Proof. by induction p. Qed.

Lemma test_finds r a u b : simple r = true -> lang r u -> re_test r (a +:+ u +:+ b) = true.
Proof.
  intros Hr Hu. unfold re_test, re_exec. assert (forall prev pos, is_Some (search_from r prev pos (a +:+ u +:+ b))) as H.
  { induction a as [|c a IH]; intros prev pos; cbn [append].
    - assert (is_Some (match_at r prev pos (u +:+ b))) as [m Hm].
      { unfold match_at. destruct (rmatch r (MState prev (u +:+ b) pos []) Some) as [st|] eqn:E; [by eexists|]. exfalso.
        assert (is_Some (rmatch r (MState prev (u +:+ b) pos []) Some)) as [? Hx]; [|by rewrite E in Hx].
        apply rmatch_lang; [done|]. exists u, b. split_and!; [done..|by eexists]. }
      destruct (u +:+ b); cbn [search_from]; rewrite Hm; by eexists.
    - cbn [search_from]. destruct (match_at r prev pos _); [by eexists|apply IH]. }
  by destruct (H None 0%nat) as [m ->].
Qed.

(** ** Greedy classes and lazy gaps *)

Definition starts_in (p : ascii -> bool) (s : string) : bool := match s with "" => false | String c _ => p c end.

(** A greedy class reads the whole run of its characters, when what follows accepts the rest. *)
Lemma greedy_class p step w r x : (forall st k, step st k = rmatch (RClass p) st k) -> forall n prev pos caps k,
  sforall p w = true -> starts_in p r = false -> (slen w < n)%nat ->
  k (advance w r (MState prev (w +:+ r) pos caps)) = Some x ->
  rep_loop step true n 0 None (MState prev (w +:+ r) pos caps) k = Some x.
Proof.
  intros Hs. induction w as [|c w IH]; intros n prev pos caps k Hw Hr Hn Hk; (destruct n as [|n]; [simpl in Hn; lia|]); cbn [rep_loop]; rewrite Hs; cbn [rmatch append]; unfold step_char; cbn [ms_rest ms_prev ms_pos ms_caps].
  - cbn [append] in *. unfold advance in Hk. cbn [last_char ms_prev String.length ms_pos ms_caps] in Hk. rewrite Nat.add_0_r in Hk.
    destruct r as [|d r]; [done|]. cbn [starts_in] in Hr. by rewrite Hr.
  - cbn [sforall] in Hw. apply andb_true_iff in Hw as [Hc Hw]. rewrite Hc.
    assert ((S pos =? pos)%nat = false) as -> by (apply Nat.eqb_neq; lia). cbn [andb Nat.eqb pred fmap option_fmap option_map].
    rewrite (IH n (Some c) (S pos) caps k); [done|done|done|simpl in Hn; lia|].
    unfold advance in *. cbn [ms_prev ms_pos ms_caps last_char String.length] in *. by rewrite Nat.add_succ_comm.
Qed.

Lemma star_class p w r st k x : ms_rest st = w +:+ r -> sforall p w = true -> starts_in p r = false ->
  k (advance w r st) = Some x -> rmatch (rstar (RClass p)) st k = Some x.
Proof.
  destruct st as [prev rest pos caps]. cbn [ms_rest]. intros -> Hw Hr Hk. cbn [rmatch rstar ms_rest].
  apply (greedy_class p); [|done..|rewrite slen_app; lia|done]. intros st k'. change (group_ids (RClass p)) with (@nil nat). by rewrite clear_no_caps.
Qed.

(** A lazy gap ends at the first place where what follows it is accepted. *)
Lemma lazy_gap step w r x : (forall st k, step st k = rmatch rany st k) -> forall n prev pos caps k,
  (forall a b, w = a +:+ b -> b <> "" -> k (advance a (b +:+ r) (MState prev (w +:+ r) pos caps)) = None) -> (slen w < n)%nat ->
  k (advance w r (MState prev (w +:+ r) pos caps)) = Some x ->
  rep_loop step false n 0 None (MState prev (w +:+ r) pos caps) k = Some x.
Proof.
  intros Hs. induction w as [|c w IH]; intros n prev pos caps k Hno Hn Hk; (destruct n as [|n]; [simpl in Hn; lia|]); cbn [rep_loop].
  - cbn [append] in *. unfold advance in Hk. cbn [last_char ms_prev String.length ms_pos ms_caps] in Hk. rewrite Nat.add_0_r in Hk. by rewrite Hk.
  - pose proof (Hno "" (String c w) eq_refl ltac:(done)) as H0. unfold advance in H0. cbn [last_char ms_prev String.length ms_pos ms_caps] in H0.
    rewrite Nat.add_0_r in H0. rewrite H0. rewrite Hs. cbn [rmatch rany append]. unfold step_char. cbn [ms_rest ms_prev ms_pos ms_caps].
    assert ((S pos =? pos)%nat = false) as -> by (apply Nat.eqb_neq; lia). cbn [andb Nat.eqb pred fmap option_fmap option_map].
    apply IH; [|simpl in Hn; lia|].
    + intros a b -> Hb. specialize (Hno (String c a) b eq_refl Hb). unfold advance in *. cbn [ms_prev ms_pos ms_caps last_char String.length] in *.
      by rewrite Nat.add_succ_comm.
    + unfold advance in *. cbn [ms_prev ms_pos ms_caps last_char String.length] in *. by rewrite Nat.add_succ_comm.
Qed.

Lemma lazy_any_gap w r st k x : ms_rest st = w +:+ r ->
  (forall a b, w = a +:+ b -> b <> "" -> k (advance a (b +:+ r) st) = None) ->
  k (advance w r st) = Some x -> rmatch (rstar_lazy rany) st k = Some x.
Proof.
  destruct st as [prev rest pos caps]. cbn [ms_rest]. intros -> Hno Hk. cbn [rmatch rstar_lazy ms_rest].
  apply lazy_gap; [|done|rewrite slen_app; lia|done]. intros st k'. change (group_ids rany) with (@nil nat). by rewrite clear_no_caps.
Qed.

(** A search passes over the positions where nothing matches. *)
Lemma search_skip r a s : forall prev pos,
  (forall b c, a = b +:+ c -> c <> "" -> match_at r (last_char prev b) (pos + slen b) (c +:+ s) = None) ->
  search_from r prev pos (a +:+ s) = search_from r (last_char prev a) (pos + slen a) s.
Proof.
  induction a as [|x a IH]; intros prev pos Hno; cbn [append last_char String.length]; [by rewrite Nat.add_0_r|].
  cbn [search_from]. pose proof (Hno "" (String x a) eq_refl ltac:(done)) as H0. cbn [last_char String.length append] in H0.
  rewrite Nat.add_0_r in H0. rewrite H0. rewrite IH; [by rewrite Nat.add_succ_comm|].
  intros b c -> Hc. specialize (Hno (String x b) c eq_refl Hc). cbn [last_char String.length] in Hno. by rewrite Nat.add_succ_comm.
Qed.

Lemma search_none r s : forall prev pos,
  (forall b c prev pos, s = b +:+ c -> match_at r prev pos c = None) -> search_from r prev pos s = None.
Proof.
  induction s as [|x s IH]; intros prev pos Hno; cbn [search_from]; rewrite (Hno "" _ _ _ eq_refl); [done|].
  apply IH. intros b c prev' pos' ->. by apply (Hno (String x b)).
Qed.

Lemma exec_none r s : (forall a t b, s = a +:+ t +:+ b -> ~ can_read r t) -> re_exec r s = None.
Proof.
  intros H. destruct (re_exec r s) as [m|] eqn:E; [|done]. apply exec_sound in E as (a & E & Hc & _). by destruct (H _ _ _ E).
Qed.

(** The matches of a [g] expression. *)
Lemma match_all_sound r fuel : forall prev pos s m, m ∈ match_all_from fuel r prev pos s ->
  exists a b, s = a +:+ m_text m +:+ b /\ can_read r (m_text m) /\ m_index m = (pos + slen a)%nat.
Proof.
  induction fuel as [|fuel IH]; intros prev pos s m; cbn [match_all_from]; [by intros ?%elem_of_nil|].
  destruct (search_from r prev pos s) as [m0|] eqn:E; [|by intros ?%elem_of_nil].
  apply search_sound in E as (a & -> & Hc & Hi).
  assert (m = m0 -> exists a0 b, a +:+ m_text m0 +:+ m_after m0 = a0 +:+ m_text m +:+ b /\ can_read r (m_text m) /\ m_index m = (pos + slen a0)%nat) as Hhere.
  { intros ->. by exists a, (m_after m0). }
  destruct (String.eqb_spec (m_text m0) "") as [Et|Et].
  - destruct (m_after m0) as [|c rest] eqn:Er; [intros Hm%list_elem_of_singleton; by apply Hhere|].
    intros [Hm|Hm]%elem_of_cons; [by apply Hhere|]. apply IH in Hm as (x & y & -> & Hcm & Him).
    exists (a +:+ String c x), y. rewrite Et in *. cbn [append String.length] in *. split_and!; [by rewrite sapp_assoc|done|]. rewrite slen_app. simpl. lia.
  - intros [Hm|Hm]%elem_of_cons; [by apply Hhere|]. apply IH in Hm as (x & y & E & Hcm & Him).
    exists (a +:+ m_text m0 +:+ x), y. rewrite E. split_and!; [by rewrite !sapp_assoc|done|]. rewrite !slen_app. lia.
Qed.

(** ** Optional literals *)

Lemma lit_groups p : group_ids (lit p) = [].
Proof. induction p as [|c p IH]; [done|exact IH]. Qed.

Lemma ropt_lit_skip p st k x : starts_with p (ms_rest st) = false -> k st = Some x -> rmatch (ropt (lit p)) st k = Some x.
Proof.
  intros Hp Hk. unfold ropt. cbn [rmatch Nat.add rep_loop]. rewrite lit_groups, clear_no_caps, rmatch_lit, Hp. exact Hk.
Qed.
Lemma ropt_lit_take p r st k x : p <> "" -> ms_rest st = p +:+ r -> k (advance p r st) = Some x -> rmatch (ropt (lit p)) st k = Some x.
Proof.
  intros Hp E Hk. unfold ropt. cbn [rmatch Nat.add rep_loop]. rewrite lit_groups, clear_no_caps, rmatch_lit, E, starts_with_app, sdrop_app.
  assert ((ms_pos (advance p r st) =? ms_pos st)%nat = false) as -> by (apply Nat.eqb_neq; destruct p; [done|simpl; lia]).
  cbn [Nat.eqb andb pred fmap option_fmap option_map]. rewrite slen_app. destruct p as [|c p]; [done|].
  cbn [String.length Nat.add rep_loop]. by rewrite Hk.
Qed.

(** An expression that starts with a literal. *)
Lemma match_lit_prefix p r prev pos s : starts_with p s = false -> match_at (lit p ⋅ r)%re prev pos s = None.
Proof.
  intros H. destruct (match_at _ _ _ _) as [m|] eqn:E; [|done]. apply match_at_sound in E as (E & (s1 & s2 & Et & ->%can_read_lit & _) & _).
  rewrite Et, sapp_assoc in E. by rewrite E, starts_with_app in H.
Qed.
Lemma match_line_prefix p r prev pos s : starts_with p s = false -> match_at (RLineStart ⋅ (lit p ⋅ r))%re prev pos s = None.
Proof.
  intros H. destruct (match_at _ _ _ _) as [m|] eqn:E; [|done]. apply match_at_sound in E as (E & (s1 & s2 & Et & -> & s3 & s4 & Et2 & ->%can_read_lit & _) & _).
  rewrite Et, Et2 in E. cbn [append] in E. rewrite sapp_assoc in E. by rewrite E, starts_with_app in H.
Qed.

(** ** Replacing the only match *)

Lemma rebuild_one f a m b : m_index m = slen a -> rebuild 0 (a +:+ m_text m +:+ b) f [m] = a +:+ f m +:+ b.
Proof.
  intros Hi. cbn [rebuild]. rewrite Hi, Nat.sub_0_r, stake_app, sdrop_add, sdrop_app, sdrop_app. done.
Qed.

Lemma replace_all_none r f s : (forall x y prev pos, s = x +:+ y -> match_at r prev pos y = None) -> re_replace_all r f s = s.
Proof.
  intros H. unfold re_replace_all, re_match_all. cbn [match_all_from]. rewrite search_none; [done|]. intros b c prev pos E. by apply (H b).
Qed.

Lemma replace_all_once r f a t b m : t <> "" ->
  (forall x y prev pos, a = x +:+ y -> y <> "" -> match_at r prev pos (y +:+ t +:+ b) = None) ->
  match_at r (last_char None a) (slen a) (t +:+ b) = Some m -> m_text m = t ->
  (forall x y prev pos, b = x +:+ y -> match_at r prev pos y = None) ->
  re_replace_all r f (a +:+ t +:+ b) = a +:+ f m +:+ b.
Proof.
  intros Ht Ha Hm Htm Hb. pose proof (match_at_sound _ _ _ _ _ Hm) as (E & _ & Hi). rewrite Htm in E.
  assert (m_after m = b) as Hmb by (apply (f_equal (sdrop (slen t))) in E; by rewrite !sdrop_app in E).
  unfold re_replace_all, re_match_all. cbn [match_all_from]. rewrite (search_skip r a); [|intros x y -> Hy; by apply (Ha x)].
  assert (search_from r (last_char None a) (0 + slen a) (t +:+ b) = Some m) as ->.
  { destruct (t +:+ b); cbn [search_from Nat.add]; by rewrite Hm. }
  rewrite Htm. destruct (String.eqb_spec t "") as [|_]; [done|].
  assert (match_all_from (slen (a +:+ t +:+ b)) r (m_prev m) (m_index m + slen t) (m_after m) = []) as ->.
  { rewrite Hmb. destruct (slen (a +:+ t +:+ b)) as [|n]; [done|]. cbn [match_all_from]. rewrite search_none; [done|]. intros x y prev pos Exy. by apply (Hb x). }
  rewrite <- Htm. by apply rebuild_one.
Qed.

(** ** Replacement texts *)

(** [$$], [$&], [$`], [$'] and [$n] for an expression of [n] groups, at most nine. *)
Fixpoint expand_template (n : nat) (m : rmatch_result) (before t : string) {struct t} : string :=
  match t with
  | String "$" ((String d rest) as t') =>
    let i := (nat_of_ascii d - 48)%nat in
    if Ascii.eqb d "$" then String "$" (expand_template n m before rest)
    else if Ascii.eqb d "&" then m_text m +:+ expand_template n m before rest
    else if Ascii.eqb d "`" then before +:+ expand_template n m before rest
    else if Ascii.eqb d "'" then m_after m +:+ expand_template n m before rest
    else if is_digit d && (1 <=? i)%nat && (i <=? n)%nat then group_or "" m i +:+ expand_template n m before rest
    else match rest with
         | String e rest' =>
           let j := (nat_of_ascii e - 48)%nat in
           if Ascii.eqb d "0" && is_digit e && (1 <=? j)%nat && (j <=? n)%nat then group_or "" m j +:+ expand_template n m before rest'
           else String "$" (expand_template n m before t')
         | "" => String "$" (expand_template n m before t')
         end
  | String c t => String c (expand_template n m before t)
  | "" => ""
  end.

(** [s.replace(re, text)] without [g]; [n] groups. *)
Definition replace_template (r : re) (n : nat) (text s : string) : string :=
  re_replace r (fun m => expand_template n m (stake (m_index m) s) text) s.

(** [s.replace(search, text)] for a string: the first occurrence. *)
Definition replace_string (search text s : string) : string :=
  match index_of search s with
  | Some i =>
    let after := sdrop (i + slen search) s in
    stake i s +:+ expand_template 0 (RMatch i search [] None after) (stake i s) text +:+ after
  | None => s
  end.

(** A text without [$] stands for itself. *)
Lemma expand_plain n m before t : no_char "$" t = true -> expand_template n m before t = t.
Proof.
  induction t as [|c t IH]; [done|]. cbn [no_char sforall]. intros [Hc Ht]%andb_true_iff. fold (no_char "$" t) in Ht.
  specialize (IH Ht). destruct (Ascii.eqb_spec c "$") as [->|Hne]; [done|].
  assert (expand_template n m before (String c t) = String c (expand_template n m before t)) as ->; [|by rewrite IH].
  destruct c as [[] [] [] [] [] [] [] []]; try reflexivity. by contradict Hne.
Qed.

(** ** Expressions without groups *)

Fixpoint groupless (r : re) : bool :=
  match r with
  | RSeq a b | RAlt a b => groupless a && groupless b
  | RRep _ _ _ r => groupless r
  | RGroup _ _ | RLook _ _ => false
  | _ => true
  end.

Lemma groupless_ids r : groupless r = true -> group_ids r = [].
Proof. induction r; simpl; try done; intros [? ?]%andb_true_iff; by rewrite IHr1, IHr2. Qed.
Lemma rep_loop_groupless r step g n : forall min max st k x,
  (forall st k x, step st k = Some x -> exists s rest, ms_rest st = s +:+ rest /\ can_read r s /\ k (advance s rest st) = Some x) ->
  rep_loop step g n min max st k = Some x ->
  exists l rest, ms_rest st = foldr append "" l +:+ rest /\ Forall (can_read r) l /\ k (advance (foldr append "" l) rest st) = Some x.
Proof.
  induction n as [|n IH]; intros min max st k x Hs H; cbn [rep_loop] in H; [done|].
  set (again := step st _) in H.
  set (P := exists l rest, ms_rest st = foldr append "" l +:+ rest /\ Forall (can_read r) l /\ k (advance (foldr append "" l) rest st) = Some x).
  assert (k st = Some x -> P) as Hstop.
  { intros Hk. exists [], (ms_rest st). split_and!; [done|constructor|]. cbn [foldr]. by rewrite advance_nil. }
  assert (again = Some x -> P) as Hagain.
  { intros Ha. apply Hs in Ha as (s & rest & E1 & Hr & Hk). destruct (_ && _); [done|].
    apply (IH _ _ _ _ _ Hs) in Hk as (l & rest2 & E2 & Hl & Hk). cbn [advance ms_rest] in E2. rewrite advance_app in Hk.
    exists (s :: l), rest2. cbn [foldr]. split_and!; [by rewrite E1, E2, sapp_assoc|by constructor|done]. }
  destruct max as [[|mx]|], min as [|mn]; try (by auto); destruct g; try (destruct again; [by auto|by auto]); (destruct (k st); [by auto|by auto]).
Qed.

(** What an expression without groups read leads to exactly one state. *)
Lemma rmatch_groupless r : groupless r = true -> forall st k x, rmatch r st k = Some x ->
  exists s rest, ms_rest st = s +:+ rest /\ can_read r s /\ k (advance s rest st) = Some x.
Proof.
  assert (forall st (k : mstate -> option mstate) x, k st = Some x -> exists s rest, ms_rest st = s +:+ rest /\ s = "" /\ k (advance s rest st) = Some x) as Hnil.
  { intros st k x Hk. exists "", (ms_rest st). by rewrite advance_nil. }
  induction r as [|p|a IHa b IHb|a IHa b IHb|g min max r IHr|i r IHr| | | |neg r _| |i]; intros Hp st k x H; cbn [rmatch] in H; try done.
  - by apply Hnil.
  - unfold step_char in H. destruct (ms_rest st) as [|c rest] eqn:E; [done|]. destruct (p c) eqn:Ep; [|done].
    exists (String c ""), rest. split_and!; [done|by exists c|]. unfold advance. cbn [last_char String.length]. by rewrite Nat.add_1_r.
  - cbn [groupless] in Hp. apply andb_true_iff in Hp as [Ha Hb].
    apply IHa in H as (s1 & r1 & E1 & H1 & H); [|done]. apply IHb in H as (s2 & r2 & E2 & H2 & H); [|done].
    cbn [advance ms_rest] in E2. rewrite advance_app in H.
    exists (s1 +:+ s2), r2. split_and!; [by rewrite E1, E2, sapp_assoc|by exists s1, s2|done].
  - cbn [groupless] in Hp. apply andb_true_iff in Hp as [Ha Hb].
    destruct (rmatch a st k) eqn:Ea; [injection H as ->; apply IHa in Ea as (s & r1 & E & Hc & Hk)|apply IHb in H as (s & r1 & E & Hc & Hk)]; try done;
      exists s, r1; split_and!; try done; [by left|by right].
  - cbn [groupless] in Hp. rewrite groupless_ids in H by done.
    apply rep_loop_groupless with (r := r) in H as (l & rest & E & Hl & Hk).
    + exists (foldr append "" l), rest. split_and!; [done|by exists l|done].
    + intros st0 k0 x0 H0. rewrite clear_no_caps in H0. by apply IHr.
  - destruct (ms_prev st); [done|]. by apply Hnil.
  - destruct (ms_rest st) eqn:E; [|done]. apply Hnil in H. by rewrite E in H.
  - destruct (xorb _ _); [|done]. by apply Hnil.
  - destruct (at_line_start _); [|done]. by apply Hnil.
  - set (t := default "" _) in H. destruct (starts_with t (ms_rest st)) eqn:E; [|done]. apply starts_with_iff in E as [rest E].
    exists t, rest. rewrite E, sdrop_app in H. by split_and!.
Qed.

(** Texts up to the first [f]. *)
Lemma first_char_unique f a b r z : no_char f a = true -> no_char f b = true -> a +:+ String f r = b +:+ String f z -> a = b /\ r = z.
Proof.
  revert b; induction a as [|c a IH]; intros [|d b] Ha Hb H; cbn [append] in H.
  - by injection H.
  - injection H as H1 H2. subst d. cbn in Hb. by rewrite Ascii.eqb_refl in Hb.
  - injection H as H1 H2. subst c. cbn in Ha. by rewrite Ascii.eqb_refl in Ha.
  - injection H as H1 H2. cbn in Ha, Hb. apply andb_true_iff in Ha as [_ Ha], Hb as [_ Hb]. subst d. by destruct (IH b Ha Hb H2) as [-> ->].
Qed.

Lemma lazy_class_loop p step w r x : (forall st k, step st k = rmatch (RClass p) st k) -> forall n prev pos caps k,
  sforall p w = true ->
  (forall a b, w = a +:+ b -> b <> "" -> k (advance a (b +:+ r) (MState prev (w +:+ r) pos caps)) = None) -> (slen w < n)%nat ->
  k (advance w r (MState prev (w +:+ r) pos caps)) = Some x ->
  rep_loop step false n 0 None (MState prev (w +:+ r) pos caps) k = Some x.
Proof.
  intros Hs. induction w as [|c w IH]; intros n prev pos caps k Hw Hno Hn Hk; (destruct n as [|n]; [simpl in Hn; lia|]); cbn [rep_loop].
  - cbn [append] in *. unfold advance in Hk. cbn [last_char ms_prev String.length ms_pos ms_caps] in Hk. rewrite Nat.add_0_r in Hk. by rewrite Hk.
  - pose proof (Hno "" (String c w) eq_refl ltac:(done)) as H0. unfold advance in H0. cbn [last_char ms_prev String.length ms_pos ms_caps] in H0.
    rewrite Nat.add_0_r in H0. rewrite H0. rewrite Hs. cbn [rmatch append]. unfold step_char. cbn [ms_rest ms_prev ms_pos ms_caps].
    cbn [sforall] in Hw. apply andb_true_iff in Hw as [Hc Hw]. rewrite Hc.
    assert ((S pos =? pos)%nat = false) as -> by (apply Nat.eqb_neq; lia). cbn [andb Nat.eqb pred fmap option_fmap option_map].
    apply IH; [done| |simpl in Hn; lia|].
    + intros a b -> Hb. specialize (Hno (String c a) b eq_refl Hb). unfold advance in *. cbn [ms_prev ms_pos ms_caps last_char String.length] in *.
      by rewrite Nat.add_succ_comm.
    + unfold advance in *. cbn [ms_prev ms_pos ms_caps last_char String.length] in *. by rewrite Nat.add_succ_comm.
Qed.

(** A lazy class ends at the first place where what follows it is accepted. *)
Lemma lazy_class_gap p w r st k x : ms_rest st = w +:+ r -> sforall p w = true ->
  (forall a b, w = a +:+ b -> b <> "" -> k (advance a (b +:+ r) st) = None) ->
  k (advance w r st) = Some x -> rmatch (rstar_lazy (RClass p)) st k = Some x.
Proof.
  destruct st as [prev rest pos caps]. cbn [ms_rest]. intros -> Hw Hno Hk. cbn [rmatch rstar_lazy ms_rest].
  apply (lazy_class_loop p); [|done|done|rewrite slen_app; lia|done]. intros st k'. change (group_ids (RClass p)) with (@nil nat). by rewrite clear_no_caps.
Qed.

Lemma rmatch_lit_app p r st k : ms_rest st = p +:+ r -> rmatch (lit p) st k = k (advance p r st).
Proof. intros E. by rewrite rmatch_lit, E, starts_with_app, sdrop_app. Qed.

(** The first match of a search at the place where it starts. *)
Lemma search_here r prev pos s m : match_at r prev pos s = Some m -> search_from r prev pos s = Some m.
Proof. intros H. destruct s; cbn [search_from]; by rewrite H. Qed.
Lemma search_later r a b prev pos : is_Some (match_at r (last_char prev a) (pos + slen a) b) -> is_Some (search_from r prev pos (a +:+ b)).
Proof.
  revert prev pos; induction a as [|c a IH]; intros prev pos [m Hm]; cbn [append].
  - cbn [last_char String.length] in Hm. rewrite Nat.add_0_r in Hm. exists m. by apply search_here.
  - cbn [search_from]. destruct (match_at r prev pos _); [by eexists|]. apply IH. cbn [last_char String.length] in Hm. rewrite Nat.add_succ_comm. by exists m.
Qed.
