(* ===== verification/Markup.v ===== *)
(** * Well-nested markup

    The element that live mode wraps, and the variants an agent writes beside it, are scanned for [div] tags by regular
    expressions. This file gives the texts on which that is right: a grammar of markup whose [div] elements are well
    nested. Text and the tags of other elements are free. The tag of a [div] ends, for these expressions, at its first
    [>], so an attribute with a [>] in it is read as text from there on: an opening tag may have one ([VariantRoundtrip.arrow_nested]),
    the tag of an element that closes itself may not ([N_void]), because the slash before its end is then not seen. A
    scan of a text of the grammar, in any context, leaves the depth where it was. *)
From S2P Require Import Prelude JsString Encodings JsRegex RegexFacts.
Local Open Scope nat_scope.

Inductive nested : string -> Prop :=
| N_nil : nested ""
| N_char c s : c <> "<"%char -> nested s -> nested (String c s)
| N_tag slash name c s : slash = "" \/ slash = "/" -> sforall is_word name = true -> name <> "div" ->
    is_word c = false -> name <> "" \/ c <> "/"%char -> nested (String c s) -> nested ("<" +:+ slash +:+ name +:+ String c s)
| N_void a s : no_char ">" a = true -> starts_in is_word a = false -> nested s -> nested (("<div" +:+ a +:+ "/>") +:+ s)
| N_div a inner w s : no_char ">" a = true -> starts_in is_word a = false ->
    (forall x y, sforall is_space y = true -> a <> x +:+ "/" +:+ y) ->
    nested inner -> sforall is_space w = true -> nested s ->
    nested (("<div" +:+ a +:+ ">") +:+ inner +:+ ("</div" +:+ w +:+ ">") +:+ s).

Lemma nested_app a b : nested a -> nested b -> nested (a +:+ b).
Proof.
  intros Ha Hb. induction Ha as [|c s Hc Hs IH|slash name c s H1 H2 H3 H4 H5 Hs IH|t s H1 H2 Hs IH|t inner w s H1 H2 H3 Hi IHi Hw Hs IH].
  - done.
  - by constructor.
  - cbn [append]. rewrite !sapp_assoc. by apply N_tag.
  - rewrite sapp_assoc. by apply N_void.
  - rewrite !sapp_assoc. rewrite <- (sapp_assoc "<div"), <- (sapp_assoc ("<div" +:+ t)), <- (sapp_assoc "</div"), <- (sapp_assoc ("</div" +:+ w)).
    by apply N_div.
Qed.
Lemma nested_text s : no_char "<" s = true -> nested s.
Proof.
  induction s as [|c s IH]; [constructor|]. cbn [no_char sforall]. intros [Hc Hs]%andb_true_iff. constructor; [|by apply IH].
  intros ->. by rewrite Ascii.eqb_refl in Hc.
Qed.

(** ** The changes of depth *)

Inductive balanced : list Z -> Prop :=
| B_nil : balanced []
| B_zero l : balanced l -> balanced (0%Z :: l)
| B_pair l1 l2 : balanced l1 -> balanced l2 -> balanced (1%Z :: l1 ++ (-1)%Z :: l2).

Lemma balanced_app l1 l2 : balanced l1 -> balanced l2 -> balanced (l1 ++ l2).
Proof. intros H1 H2. induction H1 as [|l _ IH|l l' H _ _ IH]; cbn [app]; [done|by constructor|]. rewrite <- app_assoc. by constructor. Qed.

(** ** Scanning *)

Section Scan.
Context (R : re) (kind : rmatch_result -> Z).

(** The expression matches [t], followed by [r], and counts it as [z]. *)
Definition tag_found (t : string) (z : Z) : Prop := forall r prev pos, exists m,
  match_at R prev pos (t +:+ r) = Some m /\ m_text m = t /\ m_after m = r /\ m_prev m = last_char prev t /\ kind m = z.

Record scans : Prop := Scans {
  sc_open : forall a, no_char ">" a = true -> starts_in is_word a = false ->
    (forall x y, sforall is_space y = true -> a <> x +:+ "/" +:+ y) -> tag_found ("<div" +:+ a +:+ ">") 1;
  sc_void : forall a, no_char ">" a = true -> starts_in is_word a = false -> tag_found ("<div" +:+ a +:+ "/>") 0;
  sc_close : forall w, sforall is_space w = true -> tag_found ("</div" +:+ w +:+ ">") (-1);
  sc_char : forall c s prev pos, c <> "<"%char -> match_at R prev pos (String c s) = None;
  sc_tag : forall slash name c s prev pos, slash = "" \/ slash = "/" -> sforall is_word name = true -> name <> "div" ->
    is_word c = false -> name <> "" \/ c <> "/"%char -> match_at R prev pos ("<" +:+ slash +:+ name +:+ String c s) = None }.
Context (H : scans).

Lemma match_all_skip a s fuel prev pos :
  (forall b c, a = b +:+ c -> c <> "" -> match_at R (last_char prev b) (pos + slen b) (c +:+ s) = None) ->
  match_all_from fuel R prev pos (a +:+ s) = match_all_from fuel R (last_char prev a) (pos + slen a) s.
Proof. intros Ha. destruct fuel as [|fuel]; [done|]. cbn [match_all_from]. by rewrite search_skip. Qed.

Lemma match_all_tag t z s fuel prev pos : t <> "" -> tag_found t z -> slen (t +:+ s) < fuel ->
  exists m fuel', slen s < fuel' /\ kind m = z /\ m_text m = t /\ m_index m = pos /\
    match_all_from fuel R prev pos (t +:+ s) = m :: match_all_from fuel' R (last_char prev t) (pos + slen t) s.
Proof.
  intros Ht Hf Hfuel. destruct (Hf s prev pos) as (m & Hm & Et & Ea & Ep & Ek). destruct fuel as [|fuel]; [lia|].
  pose proof (match_at_sound _ _ _ _ _ Hm) as (_ & _ & Hi).
  exists m, fuel. split_and!; [rewrite slen_app in Hfuel; destruct t; [done|cbn [String.length] in Hfuel; lia]|done..|].
  cbn [match_all_from]. rewrite (search_here _ _ _ _ _ Hm), Et, Ea, Ep, Hi. by destruct (String.eqb_spec t "").
Qed.

Lemma scan_nested x : nested x -> forall y prev pos fuel, slen (x +:+ y) < fuel ->
  exists ms fuel', slen y < fuel' /\ balanced (kind <$> ms) /\
    match_all_from fuel R prev pos (x +:+ y) = ms ++ match_all_from fuel' R (last_char prev x) (pos + slen x) y.
Proof.
  intros Hx. induction Hx as [|c s Hc Hs IH|slash name c s H1 H2 H3 H4 H5 Hs IH|t s H1 H2 Hs IH|t inner w s H1 H2 H3 Hi IHi Hw Hs IH]; intros y prev pos fuel Hf.
  - exists [], fuel. split_and!; [done|constructor|]. cbn [append last_char String.length app]. by rewrite Nat.add_0_r.
  - change (String c s +:+ y) with (String c "" +:+ (s +:+ y)) in *. rewrite match_all_skip.
    + rewrite slen_app in Hf. destruct (IH y (last_char prev (String c "")) (pos + slen (String c "")) fuel) as (ms & fuel' & Hl & Hb & E); [lia|].
      exists ms, fuel'. split_and!; [done..|]. rewrite E. cbn [last_char String.length]. by rewrite Nat.add_1_r, Nat.add_succ_comm.
    + intros b d E Hd. destruct b as [|? b]; [|destruct b, d; cbn in E; congruence]. cbn [append] in E. subst d. cbn [append]. by apply (sc_char H).
  - assert (("<" +:+ slash +:+ name +:+ String c s) +:+ y = ("<" +:+ slash +:+ name) +:+ (String c s +:+ y)) as E0 by (by rewrite !sapp_assoc).
    rewrite E0 in *. rewrite match_all_skip.
    + rewrite slen_app in Hf. destruct (IH y (last_char prev ("<" +:+ slash +:+ name)) (pos + slen ("<" +:+ slash +:+ name)) fuel) as (ms & fuel' & Hl & Hb & E); [lia|].
      exists ms, fuel'. split_and!; [done..|]. rewrite E.
      replace ("<" +:+ slash +:+ name +:+ String c s) with (("<" +:+ slash +:+ name) +:+ String c s) by (by rewrite !sapp_assoc).
      by rewrite (last_char_app ("<" +:+ slash +:+ name)), (slen_app ("<" +:+ slash +:+ name)), Nat.add_assoc.
    + intros b d E Hd. destruct b as [|b0 b].
      * cbn [append] in E. subst d. change (String "<" (slash +:+ name)) with ("<" +:+ (slash +:+ name)).
        rewrite (sapp_assoc "<"), (sapp_assoc slash). by apply (sc_tag H).
      * cbn [append] in E. injection E as _ E. destruct d as [|d0 d]; [done|]. cbn [append]. apply (sc_char H). intros ->.
        assert (no_char "<" (slash +:+ name) = true) as Hno.
        { unfold no_char. rewrite sforall_app. apply andb_true_iff. split; [by destruct H1 as [-> | ->]|].
          apply (sforall_impl is_word); [|done]. intros d1 Hd1. destruct (Ascii.eqb_spec d1 "<") as [->|]; done. }
        rewrite E in Hno. unfold no_char in Hno. rewrite sforall_app in Hno. cbn [sforall] in Hno. rewrite Ascii.eqb_refl, andb_false_r in Hno. done.
  - rewrite sapp_assoc in Hf |- *. destruct (match_all_tag ("<div" +:+ t +:+ "/>") 0%Z (s +:+ y) fuel prev pos ltac:(done) (sc_void H t H1 H2) Hf) as (m & f1 & Hf1 & Ek & _ & _ & E).
    destruct (IH y (last_char prev ("<div" +:+ t +:+ "/>")) (pos + slen ("<div" +:+ t +:+ "/>")) f1 Hf1) as (ms & f2 & Hf2 & Hb & E2).
    exists (m :: ms), f2. split_and!; [done|cbn; rewrite Ek; by constructor|]. rewrite E, E2. by rewrite (last_char_app ("<div" +:+ t +:+ "/>")), (slen_app ("<div" +:+ t +:+ "/>")), Nat.add_assoc.
  - rewrite !(sapp_assoc ("<div" +:+ t +:+ ">")), (sapp_assoc inner), (sapp_assoc ("</div" +:+ w +:+ ">")) in Hf |- *.
    destruct (match_all_tag ("<div" +:+ t +:+ ">") 1%Z _ fuel prev pos ltac:(done) (sc_open H t H1 H2 H3) Hf) as (m & f1 & Hf1 & Ek & _ & _ & E). rewrite E.
    destruct (IHi _ (last_char prev ("<div" +:+ t +:+ ">")) (pos + slen ("<div" +:+ t +:+ ">")) f1 Hf1) as (ms & f2 & Hf2 & Hb & E2). rewrite E2.
    match goal with |- context [match_all_from f2 R ?pv ?ps _] => destruct (match_all_tag ("</div" +:+ w +:+ ">") (-1)%Z (s +:+ y) f2 pv ps ltac:(done) (sc_close H w Hw) Hf2) as (m' & f3 & Hf3 & Ek' & _ & _ & E3) end.
    rewrite E3. match goal with |- context [match_all_from f3 R ?pv ?ps _] => destruct (IH y pv ps f3 Hf3) as (ms' & f4 & Hf4 & Hb' & E4) end. rewrite E4.
    exists (m :: ms ++ m' :: ms'), f4. split_and!; [done| |].
    + cbn. rewrite fmap_app. cbn. rewrite Ek, Ek'. by constructor.
    + cbn [app]. rewrite <- app_assoc. cbn [app]. do 4 f_equal. f_equal; [by rewrite !(last_char_app ("<div" +:+ t +:+ ">")), !(last_char_app inner), !(last_char_app ("</div" +:+ w +:+ ">"))|]. rewrite !(slen_app ("<div" +:+ t +:+ ">")), !(slen_app inner), !(slen_app ("</div" +:+ w +:+ ">")). lia.
Qed.
End Scan.
