(* ===== verification/JsDate.v ===== *)
(** * [Date.parse] and [toISOString]

    Time values are integers of milliseconds since the epoch. [date_parse] reads
    the date-time string format of ECMAScript (date-only forms and forms with an
    explicit offset); forms whose meaning depends on the host (local time, other
    formats) give [NaN]. *)
From S2P Require Import Prelude JsString JsValue.
Local Open Scope Z_scope.

(** Days since 1970-01-01 of a proleptic Gregorian date. *)
Definition days_from_civil (y m d : Z) : Z :=
  let y := if m <=? 2 then y - 1 else y in
  let era := y / 400 in
  let yoe := y - era * 400 in
  let doy := (153 * (if 2 <? m then m - 3 else m + 9) + 2) / 5 + d - 1 in
  let doe := yoe * 365 + yoe / 4 - yoe / 100 + doy in
  era * 146097 + doe - 719468.

Definition civil_from_days (z : Z) : Z * Z * Z :=
  let z := z + 719468 in
  let era := z / 146097 in
  let doe := z - era * 146097 in
  let yoe := (doe - doe / 1460 + doe / 36524 - doe / 146096) / 365 in
  let doy := doe - (365 * yoe + yoe / 4 - yoe / 100) in
  let mp := (5 * doy + 2) / 153 in
  let d := doy - (153 * mp + 2) / 5 + 1 in
  let m := if mp <? 10 then mp + 3 else mp - 9 in
  ((if m <=? 2 then yoe + era * 400 + 1 else yoe + era * 400), m, d).

Fixpoint zeros (n : nat) : string := match n with O => "" | S n => String "0" (zeros n) end.
Definition pad (w : nat) (n : Z) : string :=
  let s := print_nat n in zeros (w - slen s) +:+ s.

(** [new Date(t).toISOString()] for years 0 to 9999. *)
Definition to_iso (t : Z) : string :=
  let days := t / 86400000 in
  let ms := t mod 86400000 in
  let '(y, m, d) := civil_from_days days in
  pad 4 y +:+ "-" +:+ pad 2 m +:+ "-" +:+ pad 2 d +:+ "T" +:+ pad 2 (ms / 3600000) +:+ ":"
  +:+ pad 2 (ms / 60000 mod 60) +:+ ":" +:+ pad 2 (ms / 1000 mod 60) +:+ "."
  +:+ pad 3 (ms mod 1000) +:+ "Z".

(** Exactly [n] digits, then the rest. *)
Definition fixed_digits (n : nat) (s : string) : option (Z * string) :=
  let d := stake n s in
  if (slen d =? n)%nat && sforall is_digit d then Some (fst (read_digits 0 d), sdrop n s) else None.

Definition field (sep : ascii) (n : nat) (s : string) : option (Z * string) :=
  match s with
  | String c r => if Ascii.eqb c sep then fixed_digits n r else None
  | EmptyString => None
  end.

(** The offset in minutes at the end of the text. *)
Definition read_offset (s : string) : option Z :=
  match s with
  | String "Z" EmptyString => Some 0
  | String c r =>
    let sign := if Ascii.eqb c "+" then 1 else -1 in
    if Ascii.eqb c "+" || Ascii.eqb c "-" then
      match fixed_digits 2 r with
      | Some (h, r) => match field ":" 2 r with
                       | Some (m, EmptyString) => if (h <? 24) && (m <? 60)
                                                  then Some (sign * (h * 60 + m)) else None
                       | _ => None end
      | None => None
      end
    else None
  | _ => None
  end.

Definition days_in_month (y m : Z) : Z :=
  days_from_civil (if m =? 12 then y + 1 else y) (if m =? 12 then 1 else m + 1) 1 - days_from_civil y m 1.

Definition read_time (s : string) : option (Z * string) :=
  match field "T" 2 s with
  | Some (h, s) =>
    match field ":" 2 s with
    | Some (mi, s) =>
      let '(sec, s) := match field ":" 2 s with Some (x, r) => (x, r) | None => (0, s) end in
      let '(ms, s) := match field "." 3 s with Some (x, r) => (x, r) | None => (0, s) end in
      if (h <? 24) && (mi <? 60) && (sec <? 60)
      then Some (((h * 60 + mi) * 60 + sec) * 1000 + ms, s) else None
    | None => None
    end
  | None => None
  end.

Definition date_parse (s : string) : num :=
  match fixed_digits 4 s with
  | None => NNaN
  | Some (y, s) =>
    let '(m, s) := match field "-" 2 s with Some (x, r) => (x, r) | None => (1, s) end in
    let '(d, s) := match field "-" 2 s with Some (x, r) => (x, r) | None => (1, s) end in
    if (1 <=? m) && (m <=? 12) && (1 <=? d) && (d <=? days_in_month y m) then
      let day := days_from_civil y m d * 86400000 in
      if String.eqb s "" then NInt day
      else match read_time s with
           | Some (t, r) => match read_offset r with
                            | Some off => NInt (day + t - off * 60000)
                            | None => NNaN end
           | None => NNaN
           end
    else NNaN
  end.
