(* ===== verification/NodePath.v ===== *)
(** * The POSIX [path] module of Node

    [path.join], [resolve], [relative], [dirname], [basename], [extname] and
    [isAbsolute] on slash-separated paths, as the modelled code uses them. *)
From S2P Require Import Prelude JsString.
Local Open Scope nat_scope.

Definition SLASH : ascii := "/".
Definition is_absolute (p : string) : bool := starts_with "/" p.

(** One pass over the segments of a path: empty and [.] segments vanish, [..]
    removes the previous segment, or is kept when there is none and the path is
    relative ([above]). The accumulator is reversed. *)
Fixpoint norm_segs (above : bool) (acc : list string) (parts : list string) : list string :=
  match parts with
  | [] => rev acc
  | p :: parts =>
    if String.eqb p "" || String.eqb p "." then norm_segs above acc parts
    else if String.eqb p ".." then
      match acc with
      | a :: acc' =>
        if String.eqb a ".." then norm_segs above (".." :: acc) parts
        else norm_segs above acc' parts
      | [] => norm_segs above (if above then [".."] else []) parts
      end
    else norm_segs above (p :: acc) parts
  end.

Definition segs_of (p : string) : list string := split_char SLASH p.

Definition normalize (p : string) : string :=
  if String.eqb p "" then "." else
  let abs := is_absolute p in
  let trailing := ends_with "/" p in
  let s := join "/" (norm_segs (negb abs) [] (segs_of p)) in
  if String.eqb s "" then (if abs then "/" else if trailing then "./" else ".")
  else let s := if trailing then s +:+ "/" else s in
       if abs then "/" +:+ s else s.

(** [path.join(...args)]. *)
Definition path_join (args : list string) : string :=
  let joined := join "/" (bfilter (fun a => negb (String.eqb a "")) args) in
  if String.eqb joined "" then "." else normalize joined.

(** The segments of [path.resolve(cwd, p)]; [cwd] is absolute. *)
Definition resolve_segs (cwd p : string) : list string :=
  norm_segs false []
    (if is_absolute p then segs_of p else segs_of cwd ++ segs_of p).

Definition of_segs (l : list string) : string := "/" +:+ join "/" l.
Definition resolve (cwd p : string) : string := of_segs (resolve_segs cwd p).

Fixpoint strip_common (a b : list string) : list string * list string :=
  match a, b with
  | x :: a', y :: b' => if String.eqb x y then strip_common a' b' else (a, b)
  | _, _ => (a, b)
  end.

(** [path.relative(from, to)] for absolute [from] and [to]. *)
Definition relative (from to : string) : string :=
  let '(up, down) := strip_common (norm_segs false [] (segs_of from)) (norm_segs false [] (segs_of to)) in
  join "/" (replicate (length up) ".." ++ down).

(** Drop trailing slashes. *)
Fixpoint drop_slashes (s : string) : string :=
  match s with String c s' => if Ascii.eqb c SLASH then drop_slashes s' else s | _ => s end.

(** Split a reversed path at its first slash: (reversed base, reversed rest). *)
Fixpoint split_base (s : string) : string * option string :=
  match s with
  | EmptyString => ("", None)
  | String c s' =>
    if Ascii.eqb c SLASH then ("", Some s')
    else let '(b, r) := split_base s' in (String c b, r)
  end.

Definition basename (p : string) : string := srev (fst (split_base (drop_slashes (srev p)))).
Definition dirname (p : string) : string :=
  match snd (split_base (drop_slashes (srev p))) with
  | Some r => match drop_slashes r with
              | EmptyString => "/"
              | r' => srev r' end
  | None => if is_absolute p then "/" else "."
  end.

(** [path.extname]: from the last dot of the base name, unless it leads it. *)
Fixpoint last_dot (i : nat) (found : option nat) (s : string) : option nat :=
  match s with
  | EmptyString => found
  | String c s => last_dot (S i) (if Ascii.eqb c "." then Some i else found) s
  end.
Definition extname (p : string) : string :=
  let b := basename p in
  match last_dot 0 None b with
  | Some (S i) => if String.eqb b ".." then "" else sdrop (S i) b
  | _ => ""
  end.

(** ** Lemmas *)

Definition plain_seg (s : string) : bool :=
  negb (String.eqb s "") && negb (String.eqb s ".") && negb (String.eqb s "..")
  && no_char SLASH s.

Lemma norm_segs_plain above acc parts :
  Forall (fun s => plain_seg s = true) parts -> norm_segs above acc parts = rev acc ++ parts.
Proof.
  intros H. revert acc; induction H as [|p parts Hp _ IH]; intros acc; simpl; [by rewrite app_nil_r|].
  unfold plain_seg in Hp. split_bools.
  repeat match goal with H : String.eqb p _ = false |- _ => rewrite H; clear H end. simpl.
  rewrite IH. simpl. by rewrite <-app_assoc.
Qed.

Lemma norm_segs_app_plain l : Forall (fun s => plain_seg s = true) l ->
  forall ps acc, norm_segs false acc (ps ++ l) = norm_segs false acc ps ++ l.
Proof.
  intros Hl. induction ps as [|p ps IH]; intros acc; [by apply norm_segs_plain|].
  cbn [app norm_segs]. repeat case_goal; apply IH.
Qed.

Lemma split_no_sep sep s : Forall (fun w => no_char sep w = true) (split_char sep s).
Proof.
  unfold no_char. induction s as [|c s IH]; simpl; [by repeat constructor|].
  destruct (Ascii.eqb c sep) eqn:E; [by constructor|].
  destruct (split_char sep s) as [|w ws]; inversion IH; subst; constructor; simpl; try done;
    by rewrite E.
Qed.

(** Normalising an absolute path leaves only plain segments. *)
Lemma norm_segs_abs_plain acc parts :
  Forall (fun s => plain_seg s = true) acc ->
  Forall (fun w => no_char SLASH w = true) parts ->
  Forall (fun s => plain_seg s = true) (norm_segs false acc parts).
Proof.
  intros Ha H. revert acc Ha; induction H as [|p parts Hp _ IH]; intros acc Ha; simpl.
  { by apply Forall_rev. }
  destruct (String.eqb p "") eqn:E1; simpl; [auto|].
  destruct (String.eqb p ".") eqn:E2; simpl; [auto|].
  destruct (String.eqb p "..") eqn:E3.
  - destruct acc as [|a acc]; [auto|]. apply Forall_cons in Ha as [Hpl Ha].
    unfold plain_seg in Hpl. split_bools.
    match goal with H : String.eqb a ".." = false |- _ => rewrite H end. auto.
  - apply IH. constructor; [|done]. unfold plain_seg. by rewrite E1, E2, E3, Hp.
Qed.

Lemma resolve_segs_plain cwd p : Forall (fun s => plain_seg s = true) (resolve_segs cwd p).
Proof.
  unfold resolve_segs. apply norm_segs_abs_plain; [constructor|].
  unfold segs_of. destruct (is_absolute p); [apply split_no_sep|].
  apply Forall_app; split; apply split_no_sep.
Qed.

Lemma split_join sep l :
  l <> [] -> Forall (fun s => no_char sep s = true) l -> split_char sep (join (String sep "") l) = l.
Proof.
  intros Hne H. induction H as [|s l Hs Hl IH]; [done|].
  destruct l as [|s' l]; [by apply split_char_none|].
  change (join (String sep "") (s :: s' :: l)) with (s +:+ String sep (join (String sep "") (s' :: l))).
  by rewrite split_char_cons, IH.
Qed.

Lemma plain_no_slash l :
  Forall (fun s => plain_seg s = true) l -> Forall (fun s => no_char SLASH s = true) l.
Proof. intros H. eapply Forall_impl; [exact H|]. intros s Hs. unfold plain_seg in Hs. by split_bools. Qed.

(** Reading back the segments of an absolute path. *)
Lemma norm_of_segs l :
  Forall (fun s => plain_seg s = true) l -> norm_segs false [] (segs_of (of_segs l)) = l.
Proof.
  intros H. unfold of_segs, segs_of.
  change ("/" +:+ join "/" l) with (String SLASH (join (String SLASH "") l)).
  cbn [split_char]. rewrite Ascii.eqb_refl. cbn [norm_segs String.eqb orb].
  destruct l as [|s l]; [done|].
  rewrite split_join; [|done|by apply plain_no_slash]. by rewrite norm_segs_plain.
Qed.

Lemma of_segs_absolute l : is_absolute (of_segs l) = true.
Proof. reflexivity. Qed.

Lemma resolve_resolve cwd cwd' p : resolve cwd' (resolve cwd p) = resolve cwd p.
Proof.
  unfold resolve. f_equal. unfold resolve_segs at 1.
  change (is_absolute (of_segs (resolve_segs cwd p))) with true.
  apply norm_of_segs, resolve_segs_plain.
Qed.

Lemma strip_common_spec a b : forall up down,
  strip_common a b = (up, down) -> exists pre, a = pre ++ up /\ b = pre ++ down.
Proof.
  revert b; induction a as [|x a IH]; intros [|y b] up down; simpl;
    try (intros [= <- <-]; by exists []).
  destruct (String.eqb_spec x y) as [->|]; [|intros [= <- <-]; by exists []].
  intros H. destruct (IH _ _ _ H) as (pre & -> & ->). by exists (y :: pre).
Qed.

(** [relative(from, to)] does not start with [..] and is not empty exactly when
    [to] is a strict descendant of [from]. *)
Definition below (a b : list string) : Prop := exists rest, rest <> [] /\ b = a ++ rest.

Lemma relative_below a b :
  Forall (fun s => plain_seg s = true) a -> Forall (fun s => plain_seg s = true) b ->
  String.eqb (relative (of_segs a) (of_segs b)) "" = false ->
  starts_with ".." (relative (of_segs a) (of_segs b)) = false ->
  below a b.
Proof.
  intros Ha Hb. unfold relative. rewrite !norm_of_segs by done.
  destruct (strip_common a b) as [up down] eqn:E.
  apply strip_common_spec in E as (pre & -> & ->).
  destruct up as [|u up]; simpl.
  - intros H _. exists down. split; [|by rewrite app_nil_r]. intros ->. done.
  - intros _. destruct (replicate (length up) ".." ++ down); simpl; discriminate.
Qed.

(** A relative path that does not leave its directory. *)
Definition in_tree (rel : string) : bool :=
  negb (String.eqb rel "") && negb (starts_with ".." rel) && negb (is_absolute rel).

(** The files of a project: the absolute paths strictly below its root. *)
Definition in_project (cwd p : string) : Prop :=
  exists segs, Forall (fun x => plain_seg x = true) segs /\ p = of_segs segs /\ below (resolve_segs cwd cwd) segs.

(** Resolving a path found relative to [cwd] gives that path back. *)
Lemma resolve_relative cwd abs : is_absolute cwd = true -> is_absolute abs = true ->
  in_tree (relative cwd abs) = true ->
  resolve cwd (relative cwd abs) = of_segs (norm_segs false [] (segs_of abs)) /\
  in_project cwd (resolve cwd (relative cwd abs)).
Proof.
  intros Hc Ha Hin. unfold in_tree in Hin. split_bools.
  assert (Forall (fun s => plain_seg s = true) (norm_segs false [] (segs_of abs))) as Hp
    by (apply norm_segs_abs_plain; [constructor|apply split_no_sep]).
  assert (resolve_segs cwd (relative cwd abs) = norm_segs false [] (segs_of abs) /\
          below (norm_segs false [] (segs_of cwd)) (norm_segs false [] (segs_of abs))) as [Hr Hb].
  { unfold resolve_segs. rewrite H0. unfold relative in *.
    destruct (strip_common _ _) as [up down] eqn:E. apply strip_common_spec in E as (pre & Hpre & Ht).
    destruct up as [|u up]; [|exfalso; simpl in *; destruct (replicate (length up) ".." ++ down); simpl in *; discriminate].
    cbn [length replicate app] in *. rewrite app_nil_r in Hpre. subst pre. rewrite Ht in Hp |- *. apply Forall_app in Hp as [_ Hd].
    assert (down <> []) as Hne by (intros ->; done).
    unfold segs_of at 2. change "/" with (String SLASH ""). rewrite split_join; [|done|by apply plain_no_slash].
    split; [by apply norm_segs_app_plain|]. by exists down. }
  unfold resolve. rewrite Hr. split; [done|]. exists (norm_segs false [] (segs_of abs)). split_and!; [done..|].
  unfold resolve_segs. by rewrite Hc.
Qed.

(** ** Files of a directory *)

Lemma split_char_app_sep sep a b :
  split_char sep (a +:+ String sep b) = split_char sep a ++ split_char sep b.
Proof.
  induction a as [|c a IH]; cbn [String.append split_char]; [by rewrite Ascii.eqb_refl|].
  rewrite IH. destruct (Ascii.eqb c sep); [done|].
  destruct (split_char sep a) eqn:E; [by apply split_char_nonempty in E|done].
Qed.

Lemma ends_with_slash s : s <> "" -> no_char SLASH s = true -> forall a, ends_with "/" (a +:+ s) = false.
Proof.
  intros Hne Hs a. apply not_true_iff_false. rewrite ends_with_iff. intros [r Hr].
  apply (f_equal srev) in Hr. rewrite !srev_append in Hr.
  destruct (srev s) as [|c s'] eqn:E.
  { apply (f_equal srev) in E. rewrite srev_involutive in E. done. }
  injection Hr as -> _. apply (f_equal srev) in E. rewrite srev_involutive, srev_cons in E. subst s.
  unfold no_char in Hs. rewrite sforall_app in Hs. apply andb_true_iff in Hs as [_ Hs]. discriminate Hs.
Qed.

(** [path.join(dir, name)] for a normalised directory and a plain name. *)
Lemma path_join_file dir name :
  Forall (fun s => plain_seg s = true) dir -> plain_seg name = true ->
  path_join [of_segs dir; name] = of_segs (dir ++ [name]).
Proof.
  intros Hd Hn. assert (name <> "" /\ no_char SLASH name = true) as [Hne Hns]
    by (unfold plain_seg in Hn; split_bools; split; [by intros ->|done]).
  unfold path_join. cbn [bfilter]. change (String.eqb (of_segs dir) "") with false. cbn [negb].
  assert (String.eqb name "" = false) as -> by by apply String.eqb_neq. cbn [negb].
  change (join "/" [of_segs dir; name]) with (of_segs dir +:+ "/" +:+ name).
  change (String.eqb (of_segs dir +:+ "/" +:+ name) "") with false. cbn iota.
  unfold normalize. change (String.eqb (of_segs dir +:+ "/" +:+ name) "") with false.
  change (is_absolute (of_segs dir +:+ "/" +:+ name)) with true. cbn [negb].
  assert (norm_segs false [] (segs_of (of_segs dir +:+ "/" +:+ name)) = dir ++ [name]) as ->.
  { unfold segs_of. change ("/" +:+ name) with (String SLASH name). rewrite split_char_app_sep, (split_char_none SLASH name) by done.
    rewrite (norm_segs_app_plain [name] ltac:(by apply Forall_singleton)). f_equal. by apply norm_of_segs. }
  rewrite <- sapp_assoc, ends_with_slash by done.
  unfold of_segs. destruct (String.eqb (join "/" (dir ++ [name])) "") eqn:E; [|done].
  exfalso. apply String.eqb_eq in E. destruct dir as [|d dir]; simpl in E; [done|].
  destruct (dir ++ [name]) eqn:E'; [by destruct dir|].
  apply (f_equal slen) in E. rewrite !slen_app in E. simpl in E. lia.
Qed.

Lemma of_segs_inj a b :
  Forall (fun s => plain_seg s = true) a -> Forall (fun s => plain_seg s = true) b ->
  of_segs a = of_segs b -> a = b.
Proof. intros Ha Hb H. by rewrite <- (norm_of_segs a), <- (norm_of_segs b), H. Qed.

(** ** Going up shortens a path *)

Lemma drop_slashes_length s : (slen (drop_slashes s) <= slen s)%nat.
Proof. induction s as [|c s IH]; simpl; [lia|]. destruct (Ascii.eqb c SLASH); simpl; lia. Qed.

Lemma split_base_length s r : snd (split_base s) = Some r -> (slen r < slen s)%nat.
Proof.
  revert r; induction s as [|c s IH]; intros r; simpl; [done|]. destruct (Ascii.eqb c SLASH).
  - intros [= <-]. lia.
  - destruct (split_base s) as [b o]. simpl in *. intros ->. specialize (IH r eq_refl). lia.
Qed.

Lemma dirname_shorter p : (2 <= slen p)%nat -> (slen (dirname p) < slen p)%nat.
Proof.
  intros Hp. unfold dirname. destruct (snd (split_base (drop_slashes (srev p)))) as [r|] eqn:E.
  - apply split_base_length in E. pose proof (drop_slashes_length (srev p)). rewrite slen_srev in *.
    pose proof (drop_slashes_length r). destruct (drop_slashes r) as [|c r']; [simpl; lia|]. rewrite slen_srev. simpl in *. lia.
  - destruct (is_absolute p); simpl; lia.
Qed.
