(* ===== verification/Vocabulary.v ===== *)
(** * The live-mode vocabulary ([live/vocabulary.mjs])

    The wire contract between the browser overlay, the live server and the
    session journal: the design commands and the event, phase and reason names. *)
From S2P Require Import Prelude JsString JsValue JsRegex.

(** Markup is written with single quotes for the double quotes of the source. *)
Definition dquoted (s : string) : string :=
  smap (fun c => if Ascii.eqb c "'" then DQ else c) s.

Record live_command := LiveCommand { value : string; label : string; icon : string }.

Definition ICON_ATTRS : string := dquoted
  "width='20' height='20' viewBox='0 0 24 24' fill='none' stroke='currentColor' stroke-width='1.5' stroke-linecap='round' stroke-linejoin='round' style='display:block'".

Definition svg (body : string) : string :=
  "<svg " +:+ ICON_ATTRS +:+ ">" +:+ dquoted body +:+ "</svg>".

Definition LIVE_COMMANDS : list live_command := [
  LiveCommand "impeccable" "Freeform"
    (svg "<path d='M4 20l4-1L18 9l-3-3L5 16z'/><path d='M14 7l3 3'/>");
  LiveCommand "bolder" "Bolder"
    (svg "<rect x='6' y='12' width='4' height='7' rx='0.5'/><rect x='14' y='5' width='4' height='14' rx='0.5'/>");
  LiveCommand "quieter" "Quieter"
    (svg "<rect x='6' y='5' width='4' height='14' rx='0.5'/><rect x='14' y='12' width='4' height='7' rx='0.5'/>");
  LiveCommand "distill" "Distill"
    (svg "<path d='M4 5h16l-6 8v7l-4-2v-5z'/>");
  LiveCommand "polish" "Polish"
    (svg "<path d='M15 3l1 3 3 1-3 1-1 3-1-3-3-1 3-1z'/><path d='M7 13l0.6 1.8 1.8 0.6-1.8 0.6-0.6 1.8-0.6-1.8-1.8-0.6 1.8-0.6z'/>");
  LiveCommand "typeset" "Typeset"
    (svg "<path d='M5 6h14' stroke-width='2.6'/><path d='M5 12h9' stroke-width='1.9'/><path d='M5 18h5' stroke-width='1.3'/>");
  LiveCommand "colorize" "Colorize"
    (svg "<circle cx='9' cy='10' r='5'/><circle cx='15' cy='10' r='5'/><circle cx='12' cy='15' r='5'/>");
  LiveCommand "layout" "Layout"
    (svg "<rect x='3' y='4' width='8' height='16' rx='0.5'/><rect x='13' y='4' width='8' height='7' rx='0.5'/><rect x='13' y='13' width='8' height='7' rx='0.5'/>");
  LiveCommand "adapt" "Adapt"
    (svg "<rect x='2.5' y='5' width='12' height='11' rx='1'/><line x1='2.5' y1='19' x2='14.5' y2='19'/><rect x='16.5' y='8' width='5' height='11' rx='1'/>");
  LiveCommand "animate" "Animate"
    (svg "<path d='M3 18c4-4 6-10 10-10'/><path d='M13 8c3 0 5 5 8 10'/><circle cx='13' cy='8' r='1.6' fill='currentColor' stroke='none'/>");
  LiveCommand "delight" "Delight"
    (svg "<path d='M12 3l2 6 6 2-6 2-2 6-2-6-6-2 6-2z'/>");
  LiveCommand "overdrive" "Overdrive"
    (svg "<path d='M13 3L5 13h5l-1 8 9-12h-6z'/>")
].

Definition VISUAL_ACTIONS : list string := value <$> LIVE_COMMANDS.

Definition AGENT_PHASES : list string :=
  ["picked_up";
   "scaffolding";
   "source_ready";
   "scaffold_fallback";
   "generation_ready";
   "first_reviewable";
   "second_reviewable";
   "all_variants_ready"].

Definition CLIENT_EVENT_TYPES : list string :=
  ["generate";
   "accept";
   "discard";
   "checkpoint";
   "agent_phase";
   "variant_mounted";
   "variant_mount_failed";
   "exit";
   "prefetch";
   "manual_edits";
   "steer";
   "carbonize_cleanup"].

Definition JOURNAL_EVENT_TYPES : list string :=
  ["generate";
   "variant_plan";
   "detector_waivers";
   "agent_phase";
   "variants_ready";
   "agent_done";
   "variant_mounted";
   "variant_mount_failed";
   "checkpoint";
   "accept";
   "accept_intent";
   "manual_edit_apply";
   "steer";
   "steer_done";
   "carbonize_cleanup";
   "discard";
   "discarded";
   "complete";
   "agent_error"].

Definition SESSION_PHASES : list string :=
  ["new";
   "generate_requested";
   "variants_ready";
   "carbonize_required";
   "carbonize_cleanup_requested";
   "manual_edit_apply_requested";
   "steer_requested";
   "steer_done";
   "accept_requested";
   "discard_requested";
   "discarded";
   "completed";
   "agent_error"].

Definition COMPLETED_SESSION_PHASES : list string :=
  ["completed";
   "discarded"].

Definition GENERATION_FENCED_SESSION_PHASES : list string :=
  ["accept_requested";
   "discard_requested";
   "carbonize_required";
   "completed";
   "discarded"].

Definition CHECKPOINT_REASONS : list string :=
  ["generate_started";
   "variants_progress";
   "variants_ready";
   "browser_resumed";
   "browser_resumed_svelte_component";
   "param_changed";
   "variant_anchor_missing";
   "component_preview_anchor_missing";
   "steer_input_focused";
   "steer_submitted";
   "steer_send_failed";
   "steer_done";
   "steer_error"].

Definition VARIANT_PROGRESS_CHECKPOINT_REASONS : list string :=
  ["variants_progress";
   "variants_ready"].

(** [new Set(list).has(v)] for a list of strings. *)
Definition has_str (l : list string) (v : js) : bool :=
  match v with JStr s => existsb (String.eqb s) l | _ => false end.

Lemma has_str_iff l v : has_str l v = true <-> exists s, v = JStr s /\ s ∈ l.
Proof.
  destruct v as [| | | |s| |]; simpl; try (split; [done|naive_solver]).
  rewrite existsb_exists. setoid_rewrite <-list_elem_of_In. split.
  - intros (x & Hx & ->%String.eqb_eq). eauto.
  - intros (x & [= <-] & Hx). exists s. by rewrite String.eqb_refl.
Qed.
