(* ===== verification/EventValidation.v ===== *)
(** * Browser event validation ([live/event-validation.mjs])

    The live server rejects a browser event unless [validateEvent] returns
    [null]. The model returns [None] for [null] and [Some message] for a
    rejection; reading a property of a [null] operation throws, as in the code. *)
From S2P Require Import Prelude JsString JsValue JsRegex Vocabulary.
Local Open Scope Z_scope.
Local Open Scope re_scope.

Notation "'reject' e 'when' c ;; k" := (if c then Some e else k)
  (at level 200, c at level 99, e at level 99, k at level 200,
   format "'reject'  e  'when'  c  ;; '//' k").

(** ** Patterns and constants *)

Definition is_hex_lower (c : ascii) : bool := is_digit c || in_range 97 102 c.
Definition ID_PATTERN : re := RBol ⋅ rtimes 8 8 (RClass is_hex_lower) ⋅ REol.
Definition VARIANT_ID_PATTERN : re := RBol ⋅ rtimes 1 3 (RClass is_digit) ⋅ REol.
Definition INSERT_POSITIONS : list string := ["before"; "after"].
Definition FORBIDDEN_MANUAL_EDIT_TEXT_CHARS : list string := ["<"; "{"; "}"; "`"].
Definition MOUNT_URL_MAX_LENGTH : Z := 2000.
Definition MOUNT_ERROR_MAX_LENGTH : Z := 1000.

Definition isValidId (v : js) : bool :=
  match v with JStr s => re_test ID_PATTERN s | _ => false end.
Definition isValidVariantId (v : js) : bool :=
  match v with JStr s => re_test VARIANT_ID_PATTERN s | _ => false end.

Definition validateManualEditText (newText : js) : option (list string) :=
  match newText with
  | JStr s =>
    let hits := bfilter (fun c => includes c s) FORBIDDEN_MANUAL_EDIT_TEXT_CHARS in
    if (0 <? length hits)%nat then Some hits else None
  | _ => None
  end.

(** ** Generate events *)

(** [canCreateInsert] of live/insert-ui.mjs. *)
Definition canCreateInsert (prompt comments strokes : js) : bool :=
  let hasPrompt := match prompt with JStr s => 0 <? js_length (trim s) | _ => false end in
  let hasComments := match comments with JArr l => (0 <? length l)%nat | _ => false end in
  let hasStrokes := match strokes with
    | JArr l => existsb (fun s => match s.["points"] with JArr p => (2 <=? length p)%nat | _ => false end) l
    | _ => false end in
  hasPrompt || hasComments || hasStrokes.

Definition validateAnnotationFields (msg : js) : option string :=
  reject "generate: screenshotPath must be string"
    when (negb (is_undef msg.["screenshotPath"]) && negb (is_string msg.["screenshotPath"]));;
  reject "generate: comments must be array"
    when (negb (is_undef msg.["comments"]) && negb (is_array msg.["comments"]));;
  reject "generate: strokes must be array"
    when (negb (is_undef msg.["strokes"]) && negb (is_array msg.["strokes"]));;
  None.

Definition validateInsertGenerate (msg : js) : option string :=
  let insert := msg.["insert"] in
  reject "generate: insert mode requires insert object"
    when (negb (truthy insert) || negb (is_objecty insert));;
  reject "generate: insert.position must be before or after"
    when (negb (has_str INSERT_POSITIONS insert.["position"]));;
  let anchor := insert.["anchor"] in
  reject "generate: insert.anchor required"
    when (negb (truthy anchor) || negb (is_objecty anchor));;
  reject "generate: insert.anchor needs tagName, classes, or outerHTML"
    when (negb (truthy anchor.["tagName"]) && negb (truthy anchor.["outerHTML"])
          && negb (match anchor.["classes"] with JArr l => (0 <? length l)%nat | _ => false end));;
  let placeholder := msg.["placeholder"] in
  reject "generate: insert mode requires placeholder dimensions"
    when (negb (truthy placeholder) || negb (is_objecty placeholder));;
  reject "generate: placeholder width and height must be numbers"
    when (negb (is_finite placeholder.["width"]) || negb (is_finite placeholder.["height"]));;
  reject "generate: insert requires freeformPrompt or annotations"
    when (negb (canCreateInsert msg.["freeformPrompt"] msg.["comments"] msg.["strokes"]));;
  validateAnnotationFields msg.

Definition validateReplaceGenerate (msg : js) : option string :=
  reject "generate: invalid action"
    when (negb (truthy msg.["action"]) || negb (has_str VISUAL_ACTIONS msg.["action"]));;
  reject "generate: missing element context"
    when (negb (truthy msg.["element"]) || negb (truthy msg.["element"].["outerHTML"]));;
  validateAnnotationFields msg.

(** ** Manual edits *)

(** [op.key]: a TypeError when [op] is [null] or [undefined]. *)
Definition read_prop (op : js) (k : string) : result js :=
  if nullish op then Throw (error "Cannot read properties of null") else Ok op.[k].

Definition validateManualEditOp (label : string) (op : js) : result (option string) :=
  ref ← read_prop op "ref";
  mret (
    let newText := op.["newText"] in
    reject (label +:+ ": op.ref required") when (negb (is_string ref));;
    reject (label +:+ ": op.tag required") when (negb (is_string op.["tag"]));;
    reject (label +:+ ": op.originalText required") when (negb (is_string op.["originalText"]));;
    reject (label +:+ ": text op requires newText")
      when (negb (op.["deleted"] === JBool true) && negb (is_string newText));;
    match newText with
    | JStr text =>
      reject (label +:+ ": newText cannot be empty")
        when (negb (op.["deleted"] === JBool true) && (js_length (trim text) =? 0));;
      match validateManualEditText newText with
      | Some forbidden =>
        Some (label +:+ ": newText cannot contain " +:+ join " " forbidden
              +:+ " (plain text only; ask the AI to insert markup)")
      | None => None
      end
    | _ => None
    end).

Fixpoint validateManualEditOps (label : string) (ops : list js) : result (option string) :=
  match ops with
  | [] => Ok None
  | op :: ops =>
    r ← validateManualEditOp label op;
    match r with Some e => Ok (Some e) | None => validateManualEditOps label ops end
  end.

Definition validateManualEditEvent (msg : js) (label : string) : result (option string) :=
  if negb (isValidId msg.["id"]) then Ok (Some (label +:+ ": missing or malformed id")) else
  if negb (truthy msg.["pageUrl"]) || negb (is_string msg.["pageUrl"])
  then Ok (Some (label +:+ ": missing pageUrl")) else
  if negb (truthy msg.["element"]) || negb (is_objecty msg.["element"])
  then Ok (Some (label +:+ ": missing element")) else
  match msg.["ops"] with
  | JArr (op :: ops) =>
    if (100 <? length (op :: ops))%nat then Ok (Some (label +:+ ": too many ops (max 100)"))
    else validateManualEditOps label (op :: ops)
  | _ => Ok (Some (label +:+ ": ops must be non-empty array"))
  end.

(** ** Mount acknowledgements *)

Definition isValidMountVariant (v : js) : bool :=
  match v with JNum (NInt z) => (1 <=? z) && (z <=? 999) | _ => false end.

Definition longer_than (v : js) (n : Z) : bool :=
  match v with JStr s => n <? js_length s | _ => false end.
Definition blank_or_not_string (v : js) : bool :=
  match v with JStr s => String.eqb (trim s) "" | _ => true end.

Definition validateMountAck (msg : js) : option string :=
  reject "variant_mounted: missing or malformed id" when (negb (isValidId msg.["id"]));;
  reject "variant_mounted: variant must be an integer 1-999"
    when (negb (isValidMountVariant msg.["variant"]));;
  if negb (is_undef msg.["url"]) then
    reject "variant_mounted: url must be string" when (negb (is_string msg.["url"]));;
    reject "variant_mounted: url too long" when (longer_than msg.["url"] MOUNT_URL_MAX_LENGTH);;
    None
  else None.

Definition validateMountFailure (msg : js) : option string :=
  reject "variant_mount_failed: missing or malformed id" when (negb (isValidId msg.["id"]));;
  reject "variant_mount_failed: variant must be an integer 1-999"
    when (negb (isValidMountVariant msg.["variant"]));;
  reject "variant_mount_failed: url required" when (blank_or_not_string msg.["url"]);;
  reject "variant_mount_failed: url too long" when (longer_than msg.["url"] MOUNT_URL_MAX_LENGTH);;
  reject "variant_mount_failed: error required" when (blank_or_not_string msg.["error"]);;
  reject "variant_mount_failed: error too long"
    when (longer_than msg.["error"] MOUNT_ERROR_MAX_LENGTH);;
  None.

(** ** The validator *)

Definition int_in (v : js) (lo hi : Z) : bool :=
  match v with JNum (NInt z) => (lo <=? z) && (z <=? hi) | _ => false end.
Definition non_negative_int (v : js) : bool :=
  match v with JNum (NInt z) => 0 <=? z | _ => false end.
Definition non_negative_finite (v : js) : bool :=
  match v with JNum n => num_is_finite n && num_leb (NInt 0) n | _ => false end.
(** A present [paramValues] that is not a plain object. *)
Definition bad_param_values (v : js) : bool :=
  negb (is_undef v) && negb (is_obj v).

Definition validateEvent (msg : js) : result (option string) :=
  if negb (truthy msg) || negb (is_objecty msg) || negb (truthy msg.["type"])
  then Ok (Some "Missing or invalid message") else
  let case (t : string) := msg.["type"] === JStr t in
  if case "generate" then Ok (
    reject "generate: missing or malformed id" when (negb (isValidId msg.["id"]));;
    reject "generate: count must be 1-8" when (negb (int_in msg.["count"] 1 8));;
    if msg.["mode"] === JStr "insert" then validateInsertGenerate msg
    else validateReplaceGenerate msg)
  else if case "accept" then Ok (
    reject "accept: missing or malformed id" when (negb (isValidId msg.["id"]));;
    reject "accept: missing or malformed variantId" when (negb (isValidVariantId msg.["variantId"]));;
    reject "accept: paramValues must be an object" when (bad_param_values msg.["paramValues"]);;
    None)
  else if case "discard" then Ok (
    reject "discard: missing or malformed id" when (negb (isValidId msg.["id"]));; None)
  else if case "checkpoint" then Ok (
    reject "checkpoint: missing or malformed id" when (negb (isValidId msg.["id"]));;
    reject "checkpoint: revision must be a non-negative integer"
      when (negb (non_negative_int msg.["revision"]));;
    reject "checkpoint: paramValues must be an object" when (bad_param_values msg.["paramValues"]);;
    None)
  else if case "agent_phase" then Ok (
    reject "agent_phase: missing or malformed id" when (negb (isValidId msg.["id"]));;
    reject "agent_phase: missing phase"
      when (negb (is_string msg.["phase"]) || negb (truthy msg.["phase"]));;
    reject ("agent_phase: unknown phase " +:+ to_str msg.["phase"] +:+ " (expected one of "
            +:+ join ", " AGENT_PHASES +:+ ")") when (negb (has_str AGENT_PHASES msg.["phase"]));;
    reject "agent_phase: durationMs must be a non-negative number"
      when (negb (is_undef msg.["durationMs"]) && negb (non_negative_finite msg.["durationMs"]));;
    None)
  else if case "variant_mounted" then Ok (validateMountAck msg)
  else if case "variant_mount_failed" then Ok (validateMountFailure msg)
  else if case "exit" then Ok None
  else if case "prefetch" then Ok (
    reject "prefetch: missing pageUrl"
      when (negb (truthy msg.["pageUrl"]) || negb (is_string msg.["pageUrl"]));; None)
  else if case "manual_edits" then validateManualEditEvent msg "manual_edits"
  else if case "steer" then Ok (
    reject "steer: missing or malformed id" when (negb (isValidId msg.["id"]));;
    reject "steer: message required" when (blank_or_not_string msg.["message"]);;
    reject "steer: message too long" when (longer_than msg.["message"] 4000);;
    reject "steer: pageUrl must be string"
      when (negb (is_undef msg.["pageUrl"]) && negb (is_string msg.["pageUrl"]));;
    None)
  else if case "carbonize_cleanup" then Ok (
    reject "carbonize_cleanup: missing or malformed id" when (negb (isValidId msg.["id"]));;
    reject "carbonize_cleanup: missing or malformed sessionId"
      when (negb (isValidId msg.["sessionId"]));;
    reject "carbonize_cleanup: missing file"
      when (negb (truthy msg.["file"]) || negb (is_string msg.["file"]));;
    reject "carbonize_cleanup: missing or malformed variantId"
      when (negb (isValidVariantId (JStr (to_str msg.["variantId"]))));;
    None)
  else Ok (Some ("Unknown event type: " +:+ to_str msg.["type"])).

(** ** What acceptance guarantees *)

Lemma reject_none (e : string) (c : bool) (k : option string) : (reject e when c;; k) = None -> c = false /\ k = None.
Proof. by destruct c. Qed.

(** Peel the rejections off an accepted message. *)
Ltac accepted :=
  repeat match goal with
  | H : Ok _ = Ok _ |- _ => apply Ok_inj in H
  | H : (if _ then Some _ else _) = None |- _ => apply reject_none in H as [? H]
  | H : negb _ = false |- _ => apply negb_false_iff in H
  end.

Lemma validateEvent_type msg : validateEvent msg = Ok None ->
  exists t, msg.["type"] = JStr t /\ t ∈ CLIENT_EVENT_TYPES.
Proof.
  unfold validateEvent. destruct (_ || _); [done|]. cbv zeta.
  destruct (msg.["type"]); try (intros; discriminate). cbn [strict_eq].
  repeat match goal with
  | |- (if String.eqb ?a ?b then _ else _) = _ -> _ =>
      destruct (String.eqb_spec a b) as [->|_];
        [intros _; eexists; split; [reflexivity|apply (bool_decide_unpack _); vm_compute; exact I]|]
  end. done.
Qed.

Definition needs_id (msg : js) : bool :=
  negb (msg.["type"] === JStr "exit") && negb (msg.["type"] === JStr "prefetch").

Lemma isValidId_spec v : isValidId v = true <->
  exists s, v = JStr s /\ sforall is_hex_lower s = true /\ slen s = 8%nat.
Proof.
  unfold isValidId, ID_PATTERN. split.
  - destruct v; try done. rewrite re_test_class by lia. intros H. split_bools.
    apply Nat.leb_le in H0, H1. exists s. split_and!; [done|done|lia].
  - intros (s & -> & Hs & Hl). rewrite re_test_class, Hs, Hl by lia. done.
Qed.

Lemma validateManualEditEvent_id msg l : validateManualEditEvent msg l = Ok None -> isValidId msg.["id"] = true.
Proof. unfold validateManualEditEvent. by destruct (isValidId msg.["id"]). Qed.

Lemma validateEvent_id msg : validateEvent msg = Ok None -> needs_id msg = true ->
  isValidId msg.["id"] = true.
Proof.
  unfold validateEvent, needs_id. destruct (_ || _); [done|]. cbv zeta.
  destruct (msg.["type"]); try (intros; discriminate). cbn [strict_eq].
  repeat match goal with
  | |- (if String.eqb ?a ?b then _ else _) = _ -> _ =>
      destruct (String.eqb_spec a b) as [->|_]; [intros H Hn; try discriminate Hn|]
  end; try done; try (by eapply validateManualEditEvent_id);
    unfold validateMountAck, validateMountFailure in *; accepted; assumption.
Qed.

(** A browser event the server accepts has one of the twelve client event types,
    and unless it is [exit] or [prefetch] it names a session by 8 lowercase
    hexadecimal digits. *)
Theorem accepted_event_identified msg : validateEvent msg = Ok None ->
  (exists t, msg.["type"] = JStr t /\ t ∈ CLIENT_EVENT_TYPES) /\
  (needs_id msg = true ->
   exists id, msg.["id"] = JStr id /\ sforall is_hex_lower id = true /\ slen id = 8%nat).
Proof.
  intros H. split; [by apply validateEvent_type|].
  intros Hn. by apply isValidId_spec, validateEvent_id.
Qed.

Definition demo_discard : js := JObj [("type", JStr "discard"); ("id", JStr "0a1b2c3d")].
Lemma accepted_event_identified_witness :
  exists id, demo_discard.["id"] = JStr id /\ sforall is_hex_lower id = true /\ slen id = 8%nat.
Proof. apply (accepted_event_identified demo_discard eq_refl). reflexivity. Defined.

(** *** Mount acknowledgements *)

Lemma typed_object msg t : msg.["type"] = JStr t -> String.eqb t "" = false ->
  is_obj msg = true /\ negb (truthy msg) || negb (is_objecty msg) || negb (truthy msg.["type"]) = false.
Proof. intros Ht He. rewrite Ht. destruct msg; try discriminate Ht. simpl. by rewrite He. Qed.

(** The server accepts a mount acknowledgement exactly when it names a session id, a
    variant from 1 to 999, and no url or a url string of at most 2000 units. *)
Theorem mount_ack_accepted_iff msg : msg.["type"] = JStr "variant_mounted" ->
  validateEvent msg = Ok None <->
  isValidId msg.["id"] = true /\
  (exists z, msg.["variant"] = int z /\ 1 <= z <= 999) /\
  (msg.["url"] = JUndef \/ exists u, msg.["url"] = JStr u /\ js_length u <= MOUNT_URL_MAX_LENGTH).
Proof.
  intros Ht. destruct (typed_object msg _ Ht eq_refl) as [_ Hg].
  unfold validateEvent. rewrite Hg, Ht. cbv zeta. cbn [strict_eq String.eqb Ascii.eqb Bool.eqb].
  unfold validateMountAck. split.
  - intros H. accepted. split; [done|]. split.
    + unfold isValidMountVariant in *. destruct msg.["variant"] as [| | |[]| | |]; try done.
      split_bools. exists z. split; [done|lia].
    + destruct (is_undef msg.["url"]) eqn:Eu; cbn [negb] in H.
      * left. by destruct msg.["url"].
      * right. accepted. destruct msg.["url"] as [| | | |u| |]; try done.
        exists u. split; [done|]. unfold longer_than in *. lia.
  - intros (-> & (z & -> & Hz) & Hu). cbn [negb isValidMountVariant].
    replace ((1 <=? z) && (z <=? 999)) with true by lia. cbn [negb].
    destruct Hu as [-> | (u & -> & Hu)]; [done|]. cbn [is_undef negb is_string longer_than].
    by replace (MOUNT_URL_MAX_LENGTH <? js_length u) with false by lia.
Qed.

Definition demo_ack : js := JObj [("type", JStr "variant_mounted"); ("id", JStr "0a1b2c3d"); ("variant", int 2)].
Lemma mount_ack_accepted_iff_witness : exists z, demo_ack.["variant"] = int z /\ 1 <= z <= 999.
Proof. apply (mount_ack_accepted_iff demo_ack eq_refl). reflexivity. Defined.

(** *** Manual edits *)

Definition plain_text (s : string) : Prop :=
  forall c, c ∈ FORBIDDEN_MANUAL_EDIT_TEXT_CHARS -> includes c s = false.

(** What the server may rely on for an accepted text operation. *)
Definition op_ok (op : js) : Prop :=
  is_string op.["ref"] = true /\ is_string op.["tag"] = true /\ is_string op.["originalText"] = true /\
  (op.["deleted"] = JBool true \/ exists s, op.["newText"] = JStr s /\ trim s <> "") /\
  (forall s, op.["newText"] = JStr s -> plain_text s).

Lemma validateManualEditText_none s : validateManualEditText (JStr s) = None -> plain_text s.
Proof.
  unfold validateManualEditText. intros H c Hc. apply not_true_iff_false. intros Hi.
  assert (c ∈ bfilter (fun c => includes c s) FORBIDDEN_MANUAL_EDIT_TEXT_CHARS) as Hin
    by (by apply bfilter_elem_of).
  destruct (bfilter _ _); [by apply elem_of_nil in Hin|done].
Qed.

Lemma js_length_nonzero s : js_length s =? 0 = false -> s <> "".
Proof. intros H ->. discriminate. Qed.

Lemma validateManualEditOp_ok l op : validateManualEditOp l op = Ok None -> op_ok op.
Proof.
  unfold validateManualEditOp, read_prop. destruct (nullish op); [done|].
  cbn [mbind result_bind]. cbv zeta. intros H%Ok_inj. accepted. unfold op_ok.
  split; [done|]. split; [done|]. split; [done|].
  assert (op.["deleted"] === JBool true = true -> op.["deleted"] = JBool true) as Hdel.
  { destruct op.["deleted"] as [| |[]| | | |]; done. }
  destruct op.["newText"] as [| | | |s| |]; rewrite ?andb_true_r in *; accepted;
    try (split; [by auto|done]).
  destruct (validateManualEditText (JStr s)) eqn:Ef; [done|]. split.
  - destruct (op.["deleted"] === JBool true); [by auto|]. right. exists s. split; [done|].
    by apply js_length_nonzero.
  - intros s' [= <-]. by apply validateManualEditText_none.
Qed.

Lemma validateManualEditOps_ok l ops : validateManualEditOps l ops = Ok None -> Forall op_ok ops.
Proof.
  induction ops as [|op ops IH]; cbn [validateManualEditOps]; [constructor|].
  intros ([e|] & Hop & H)%bind_ok; [done|]. apply Forall_cons. split; [by eapply validateManualEditOp_ok|auto].
Qed.

(** An accepted manual edit carries 1 to 100 operations, each naming its element by
    strings, each deleting or giving a non-blank replacement, and none writing a
    character of markup ([<], braces, backquote) into the source. *)
Theorem accepted_manual_edit_is_plain_text msg : msg.["type"] = JStr "manual_edits" ->
  validateEvent msg = Ok None ->
  exists ops, msg.["ops"] = JArr ops /\ (1 <= length ops <= 100)%nat /\ Forall op_ok ops.
Proof.
  intros Ht. destruct (typed_object msg _ Ht eq_refl) as [_ Hg].
  unfold validateEvent. rewrite Hg, Ht. cbv zeta. cbn [strict_eq String.eqb Ascii.eqb Bool.eqb].
  unfold validateManualEditEvent.
  repeat match goal with |- (if ?b then Ok (Some _) else _) = _ -> _ => destruct b; [done|] end.
  destruct msg.["ops"] as [| | | | |[|op ops]|]; try done.
  destruct (Nat.ltb_spec 100 (length (op :: ops))); [done|]. intros Hv%validateManualEditOps_ok.
  exists (op :: ops). split; [done|]. split; [simpl in *; lia|done].
Qed.

Definition demo_edit : js := JObj [("type", JStr "manual_edits"); ("id", JStr "0a1b2c3d");
  ("pageUrl", JStr "/"); ("element", JObj []);
  ("ops", JArr [JObj [("ref", JStr "r"); ("tag", JStr "p"); ("originalText", JStr "old"); ("newText", JStr "new")]])].
Lemma accepted_manual_edit_is_plain_text_witness :
  exists ops, demo_edit.["ops"] = JArr ops /\ (1 <= length ops <= 100)%nat /\ Forall op_ok ops.
Proof. apply (accepted_manual_edit_is_plain_text demo_edit); reflexivity. Defined.

(** An operation that is [null] escapes the validator as an exception (a TypeError
    reading [ref]) instead of a rejection message. *)
Theorem null_operation_throws msg rest : msg.["type"] = JStr "manual_edits" ->
  isValidId msg.["id"] = true -> is_string msg.["pageUrl"] && truthy msg.["pageUrl"] = true ->
  is_obj msg.["element"] = true -> msg.["ops"] = JArr (JNull :: rest) -> (length rest < 100)%nat ->
  is_ok (validateEvent msg) = false.
Proof.
  intros Ht Hid [Hs Hp]%andb_true_iff He Ho Hl. destruct (typed_object msg _ Ht eq_refl) as [_ Hg].
  unfold validateEvent. rewrite Hg, Ht. cbv zeta. cbn [strict_eq String.eqb Ascii.eqb Bool.eqb].
  unfold validateManualEditEvent. rewrite Hid, Hs, Hp, Ho. cbn [negb orb].
  destruct msg.["element"]; try discriminate He. cbn [negb orb truthy is_objecty].
  destruct (Nat.ltb_spec 100 (length (JNull :: rest))); [simpl in *; lia|]. reflexivity.
Qed.

Lemma null_operation_throws_witness : is_ok (validateEvent (demo_edit.["ops" := JArr [JNull]])) = false.
Proof. apply (null_operation_throws _ []); try reflexivity. repeat constructor. Defined.

(** An accepted [generate] asks for 1 to 8 variants, and either inserts at an anchor
    or names a known visual action on an element with its markup. *)
Theorem accepted_generate_is_bounded msg : msg.["type"] = JStr "generate" ->
  validateEvent msg = Ok None ->
  isValidId msg.["id"] = true /\ (exists z, msg.["count"] = int z /\ 1 <= z <= 8) /\
  (if msg.["mode"] === JStr "insert"
   then has_str INSERT_POSITIONS msg.["insert"].["position"] = true /\ truthy msg.["insert"].["anchor"] = true /\
        canCreateInsert msg.["freeformPrompt"] msg.["comments"] msg.["strokes"] = true
   else has_str VISUAL_ACTIONS msg.["action"] = true /\ truthy msg.["element"].["outerHTML"] = true).
Proof.
  intros Ht. destruct (typed_object msg _ Ht eq_refl) as [_ Hg].
  unfold validateEvent. rewrite Hg, Ht. cbv zeta. cbn [strict_eq String.eqb Ascii.eqb Bool.eqb].
  intros H. accepted. split; [done|]. split.
  - unfold int_in in *. destruct msg.["count"] as [| | |[]| | |]; try done. exists z. split; [done|lia].
  - destruct (msg.["mode"] === JStr "insert");
      unfold validateInsertGenerate, validateReplaceGenerate in *; cbv zeta in *; accepted;
      split_bools; accepted; auto.
Qed.

Lemma accepted_generate_is_bounded_witness :
  let msg := JObj [("type", JStr "generate"); ("id", JStr "0a1b2c3d"); ("count", int 3);
                   ("action", JStr "bolder"); ("element", JObj [("outerHTML", JStr "<p>")])] in
  exists z, msg.["count"] = int z /\ 1 <= z <= 8.
Proof.
  intros msg. destruct (accepted_generate_is_bounded msg eq_refl eq_refl) as (_ & Hz & _). exact Hz.
Defined.
