(* ===== verification/SessionStore.v ===== *)
(** * The session reducer ([live/session-store.mjs], pure part)

    A live session is the fold of [applyEvent] over its journal. This file models
    the snapshot ([baseSnapshot]), one definition per case of [applyEvent], and
    the facts the store promises about every snapshot it derives. A snapshot is a
    JavaScript object ([js]), because the store hydrates it from JSON and events
    copy arbitrary values into it. [now] is [Date.now()] at the call. *)
From S2P Require Import Prelude JsString JsValue JsDate Vocabulary.
Local Open Scope Z_scope.

Definition COMPLETED_PHASES : list string := COMPLETED_SESSION_PHASES.
Definition GENERATION_FENCED_PHASES : list string := GENERATION_FENCED_SESSION_PHASES.
Definition MOUNT_FAILURE_HISTORY : nat := 5.

Definition baseSnapshot (id : js) : js := JObj [
  ("id", id);
  ("phase", JStr "new");
  ("pageUrl", JNull);
  ("sourceFile", JNull);
  ("previewFile", JNull);
  ("previewMode", JNull);
  ("expectedVariants", int 0);
  ("arrivedVariants", int 0);
  ("visibleVariant", JNull);
  ("paramValues", JObj []);
  ("pendingEventSeq", JNull);
  ("pendingEvent", JNull);
  ("deliveryLease", JNull);
  ("checkpointRevision", int 0);
  ("browserCheckpointRevision", int 0);
  ("publicationCheckpointRevision", int 0);
  ("activeOwner", JNull);
  ("sourceMarkers", JObj []);
  ("fallbackMode", JNull);
  ("generationPhase", JNull);
  ("generationCompletedAt", JNull);
  ("generationTimings", JObj []);
  ("variantPlan", JNull);
  ("generationCanceled", JBool false);
  ("generationCanceledAt", JNull);
  ("cancelReason", JNull);
  ("annotationArtifacts", JArr []);
  ("mountedVariants", JArr []);
  ("mountFailures", JArr []);
  ("renderState", JNull);
  ("diagnostics", JArr []);
  ("updatedAt", JNull)].

Definition arr_of (v : js) : list js := match v with JArr l => l | _ => [] end.
Definition push (v : js) (x : js) : js := JArr (arr_of v ++ [x]).

(** [next.k = v ?? next.k]: a nullish [v] keeps the current value. *)
Definition keep (next : js) (k : string) (v : js) : js := next.[k := v ?? next.[k]].
#[local] Notation "v .[ k :?? x ]" := (keep v k x)
  (at level 8, left associativity, format "v .[ k  :??  x ]") : js_scope.

Definition deriveRenderState (snapshot : js) : js :=
  if (0 <? length (arr_of snapshot.["mountedVariants"]))%nat then JStr "mounted"
  else if (0 <? length (arr_of snapshot.["mountFailures"]))%nat then JStr "failed"
  else if truthy snapshot.["generationCompletedAt"] then JStr "pending"
  else JNull.

Definition toPendingEvent (event : js) : js := jdel (spread event) "token".

(** [artifacts.some(existing => ...)] reads a property of every earlier element:
    a TypeError on a [null] element. *)
Fixpoint has_artifact (l : list js) (path : js) (type : string) : result bool :=
  match l with
  | [] => Ok false
  | x :: l =>
    if nullish x then Throw (error "Cannot read properties of null")
    else if (x.["path"] === path) && (x.["type"] === JStr type) then Ok true
    else has_artifact l path type
  end.

Definition upsertArtifact (artifacts : js) (type : string) (path : js) : result js :=
  found ← has_artifact (arr_of artifacts) path type;
  mret (if found : bool then artifacts
        else push artifacts (JObj [("type", JStr type); ("path", path)])).

(** [generationCanceled || GENERATION_FENCED_PHASES.has(phase)]. *)
Definition fenced (next : js) : bool :=
  truthy next.["generationCanceled"] || has_str GENERATION_FENCED_PHASES next.["phase"].

Definition diagnose (next : js) (fields : list (string * js)) : js :=
  next.["diagnostics" := push next.["diagnostics"] (JObj fields)].

(** [array.sort((a, b) => a - b)]: stable, numeric. *)
Fixpoint insert_num (x : js) (l : list js) : list js :=
  match l with
  | [] => [x]
  | y :: l => if num_ltb (to_num x) (to_num y) then x :: y :: l else y :: insert_num x l
  end.
Definition sort_num (l : list js) : list js := foldl (fun acc x => insert_num x acc) [] l.

Section Reducer.
Context (now : Z).

(** [event.at ?? (Date.parse(entry.ts || '') || Date.now())]. *)
Definition event_time (event entry : js) : js :=
  event.["at"] ?? (JNum (date_parse (to_str (entry.["ts"] ||? JStr ""))) ||? int now).

(** The copy of the snapshot every case starts from. *)
Definition next_snapshot (snapshot entry : js) : result js :=
  artifacts ← iterate (snapshot.["annotationArtifacts"] ||? JArr []);
  mounted ← iterate (snapshot.["mountedVariants"] ||? JArr []);
  failures ← iterate (snapshot.["mountFailures"] ||? JArr []);
  diagnostics ← iterate (snapshot.["diagnostics"] ||? JArr []);
  mret (spread_with snapshot [
    ("paramValues", spread (snapshot.["paramValues"] ||? JObj []));
    ("sourceMarkers", spread (snapshot.["sourceMarkers"] ||? JObj []));
    ("generationTimings", spread (snapshot.["generationTimings"] ||? JObj []));
    ("variantPlan", snapshot.["variantPlan"] ||? JNull);
    ("annotationArtifacts", JArr artifacts);
    ("mountedVariants", JArr mounted);
    ("mountFailures", JArr failures);
    ("renderState", snapshot.["renderState"] ?? JNull);
    ("diagnostics", JArr diagnostics);
    ("updatedAt", entry.["ts"] ||? JStr (to_iso now))]).

Definition on_generate (next event entry : js) : result js :=
  let next := next.["phase" := JStr "generate_requested"] in
  let next := next.["pageUrl" :?? event.["pageUrl"]] in
  let next := next.["expectedVariants" :?? event.["count"]] in
  let next := next.["pendingEventSeq" :?? entry.["seq"]] in
  let next := next.["pendingEvent" := toPendingEvent event] in
  let next := next.["variantPlan" := JNull] in
  let next := next.["mountedVariants" := JArr []] in
  let next := next.["mountFailures" := JArr []] in
  let next := next.["renderState" := JNull] in
  if truthy event.["screenshotPath"] then
    artifacts ← upsertArtifact next.["annotationArtifacts"] "screenshot" event.["screenshotPath"];
    mret (next.["annotationArtifacts" := artifacts])
  else mret next.

Definition on_variant_plan (next event : js) : js :=
  if negb (fenced next)
  then next.["variantPlan" :?? event.["plan"]] else next.

Definition on_detector_waivers (next event : js) : result js :=
  if negb (fenced next) then
    old ← iterate (next.["detectorWaivers"] ||? JArr []);
    mret (next.["detectorWaivers" := JArr (old ++ arr_of event.["waivers"])])
  else mret next.

Definition on_agent_phase (next event entry : js) : js :=
  let next := next.["generationPhase" :?? event.["phase"]] in
  if truthy event.["phase"] then
    next.["generationTimings" :=
      next.["generationTimings"].[to_str event.["phase"] := JObj [
        ("at", event.["at"] ?? (JNum (date_parse (to_str (entry.["ts"] ||? JStr ""))) ||? JNull));
        ("durationMs", event.["durationMs"] ?? JNull)]]]
  else next.

Definition on_variants_ready (next event entry : js) : js :=
  let carbonize := event.["carbonize"] === JBool true in
  if fenced next && negb ((event.["type"] === JStr "agent_done") && carbonize
                          && (next.["phase"] === JStr "accept_requested"))
  then diagnose next [("error", JStr "late_generation_event_ignored");
                      ("type", event.["type"]); ("phase", next.["phase"])]
  else
    let next := next.["phase" := JStr (if carbonize then "carbonize_required" else "variants_ready")] in
    let next := next.["generationCompletedAt" := event_time event entry] in
    let next := next.["sourceFile" :?? event.["sourceFile"] ?? event.["file"]] in
    let next := next.["previewFile" :?? event.["previewFile"]] in
    let next := next.["previewMode" :?? event.["previewMode"]] in
    let next := next.["arrivedVariants" :=
      event.["arrivedVariants"] ?? (next.["expectedVariants"] ||? next.["arrivedVariants"] ||? int 0)] in
    let next := next.["pendingEventSeq" := JNull] in
    let next := next.["pendingEvent" := JNull] in
    let next := if carbonize then
        diagnose next [("error", JStr "carbonize_cleanup_required");
          ("file", event.["file"] ||? JNull);
          ("message", JStr "Accepted variant still has carbonize markers that must be folded into source CSS.")]
      else next in
    next.["renderState" := deriveRenderState next].

Definition malformed_ack (next event : js) : js :=
  diagnose next [("error", JStr "malformed_mount_ack"); ("type", event.["type"]);
                 ("variant", event.["variant"] ?? JNull)].

(** [Number.isInteger(variant) && variant >= 1] on [Number(event.variant)]. *)
Definition ack_variant (event : js) : option Z :=
  match to_num event.["variant"] with
  | NInt z => if z <? 1 then None else Some z
  | _ => None
  end.

Definition on_variant_mounted (next event : js) : js :=
  match ack_variant event with
  | None => malformed_ack next event
  | Some variant =>
    let mounted := arr_of next.["mountedVariants"] in
    let next :=
      if negb (existsb (same_value_zero (int variant)) mounted)
      then next.["mountedVariants" := JArr (sort_num (mounted ++ [int variant]))]
      else next in
    next.["renderState" := deriveRenderState next]
  end.

Definition string_or_null (v : js) : js := if is_string v then v else JNull.

Definition on_variant_mount_failed (next event entry : js) : js :=
  match ack_variant event with
  | None => malformed_ack next event
  | Some variant =>
    let failure := JObj [("variant", int variant); ("url", string_or_null event.["url"]);
                         ("error", string_or_null event.["error"]); ("at", event_time event entry)] in
    let next := next.["mountFailures" :=
      JArr (slice_last MOUNT_FAILURE_HISTORY (arr_of next.["mountFailures"] ++ [failure]))] in
    let next := next.["renderState" := deriveRenderState next] in
    if negb (truthy next.["pendingEvent"])
    then next.["pendingEvent" := toPendingEvent event] else next
  end.

Definition revision_is_publication (event : js) : bool :=
  (event.["revisionDomain"] === JStr "publication")
  || ((event.["reason"] === JStr "variants_progress") && negb (truthy event.["owner"])).

Definition on_checkpoint (next event : js) : js :=
  if fenced next then
    diagnose next [("error", JStr "checkpoint_after_terminal_ignored");
                   ("phase", event.["phase"] ?? JNull); ("revision", event.["revision"] ?? JNull)]
  else
    let publication := revision_is_publication event in
    let revisionField := if publication then "publicationCheckpointRevision"
                         else "browserCheckpointRevision" in
    let currentRevision :=
      next.[revisionField] ?? (if publication then int 0 else next.["checkpointRevision"]) ?? int 0 in
    if js_geb (event.["revision"] ?? int 0) currentRevision then
      let next := next.["phase" :?? event.["phase"]] in
      let next := next.[revisionField := event.["revision"] ?? currentRevision] in
      let next := if publication then next else
          let next := next.["checkpointRevision" :?? event.["revision"]] in
          next.["activeOwner" :?? event.["owner"]] in
      let next := next.["arrivedVariants" :?? event.["arrivedVariants"]] in
      let next := if publication then next else
          next.["visibleVariant" :?? event.["visibleVariant"]] in
      let next := next.["sourceFile" :?? event.["sourceFile"]] in
      let next := next.["previewFile" :?? event.["previewFile"]] in
      let next := next.["previewMode" :?? event.["previewMode"]] in
      if negb publication && truthy event.["paramValues"]
      then next.["paramValues" := spread event.["paramValues"]] else next
    else
      diagnose next [("error", JStr "stale_checkpoint_ignored"); ("revision", event.["revision"]);
                     ("revisionDomain", JStr (if publication then "publication" else "browser"))].

Definition on_accept (next event entry : js) : js :=
  let next := next.["phase" := JStr "accept_requested"] in
  let next := next.["generationCanceled" := JBool true] in
  let next := next.["generationCanceledAt" := event_time event entry] in
  let next := next.["cancelReason" := JStr "accept"] in
  let next := next.["visibleVariant" :=
    JNum (to_num (event.["variantId"] ?? next.["visibleVariant"]))] in
  let next := if truthy event.["paramValues"]
    then next.["paramValues" := spread event.["paramValues"]] else next in
  let next := next.["pendingEventSeq" :?? entry.["seq"]] in
  next.["pendingEvent" := toPendingEvent event].

(** [manual_edit_apply] and [steer] differ in the phase. *)
Definition on_page_request (phase : string) (next event entry : js) : js :=
  let next := next.["phase" := JStr phase] in
  let next := next.["pageUrl" :?? event.["pageUrl"]] in
  let next := next.["pendingEventSeq" :?? entry.["seq"]] in
  next.["pendingEvent" := toPendingEvent event].

Definition on_carbonize_cleanup (next event entry : js) : js :=
  let next := next.["phase" := JStr "carbonize_cleanup_requested"] in
  let next := next.["sourceFile" :?? event.["file"]] in
  let next := next.["pendingEventSeq" :?? entry.["seq"]] in
  next.["pendingEvent" := toPendingEvent event].

Definition on_steer_done (next event : js) : js :=
  let next := next.["phase" := JStr "steer_done"] in
  let next := next.["sourceFile" :?? event.["sourceFile"] ?? event.["file"]] in
  let next := next.["previewFile" :?? event.["previewFile"]] in
  let next := next.["previewMode" :?? event.["previewMode"]] in
  let next := next.["message" :?? event.["message"]] in
  let next := next.["pendingEventSeq" := JNull] in
  next.["pendingEvent" := JNull].

Definition on_discard (next event entry : js) : js :=
  let next := next.["phase" := JStr "discard_requested"] in
  let next := next.["generationCanceled" := JBool true] in
  let next := next.["generationCanceledAt" := event_time event entry] in
  let next := next.["cancelReason" := JStr "discard"] in
  let next := next.["pendingEventSeq" :?? entry.["seq"]] in
  next.["pendingEvent" := toPendingEvent event].

Definition on_discarded (next : js) : js :=
  let next := next.["phase" := JStr "discarded"] in
  let next := next.["pendingEventSeq" := JNull] in
  next.["pendingEvent" := JNull].

Definition on_complete (next event : js) : js :=
  let next := next.["phase" := JStr "completed"] in
  let next := next.["sourceFile" :?? event.["sourceFile"] ?? event.["file"]] in
  let next := next.["previewFile" :?? event.["previewFile"]] in
  let next := next.["previewMode" :?? event.["previewMode"]] in
  let next := next.["pendingEventSeq" := JNull] in
  next.["pendingEvent" := JNull].

Definition on_agent_error (next event : js) : js :=
  if truthy next.["generationCanceled"] && (event.["sourceEventType"] === JStr "generate")
  then diagnose next [("error", JStr "late_generation_event_ignored");
                      ("type", event.["type"]); ("phase", next.["phase"])]
  else
    let next := next.["phase" := JStr "agent_error"] in
    let next := next.["pendingEventSeq" := JNull] in
    let next := next.["pendingEvent" := JNull] in
    diagnose next [("error", JStr "agent_error");
                   ("message", event.["message"] ||? JStr "unknown agent error")].

(** [switch (event.type)]: strict comparisons, in order. *)
Definition dispatch (next event entry : js) : result js :=
  let case (t : string) := event.["type"] === JStr t in
  if case "generate" then on_generate next event entry
  else if case "variant_plan" then Ok (on_variant_plan next event)
  else if case "detector_waivers" then on_detector_waivers next event
  else if case "agent_phase" then Ok (on_agent_phase next event entry)
  else if case "variants_ready" || case "agent_done" then Ok (on_variants_ready next event entry)
  else if case "variant_mounted" then Ok (on_variant_mounted next event)
  else if case "variant_mount_failed" then Ok (on_variant_mount_failed next event entry)
  else if case "checkpoint" then Ok (on_checkpoint next event)
  else if case "accept" || case "accept_intent" then Ok (on_accept next event entry)
  else if case "manual_edit_apply"
    then Ok (on_page_request "manual_edit_apply_requested" next event entry)
  else if case "steer" then Ok (on_page_request "steer_requested" next event entry)
  else if case "carbonize_cleanup" then Ok (on_carbonize_cleanup next event entry)
  else if case "steer_done" then Ok (on_steer_done next event)
  else if case "discard" then Ok (on_discard next event entry)
  else if case "discarded" then Ok (on_discarded next)
  else if case "complete" then Ok (on_complete next event)
  else if case "agent_error" then Ok (on_agent_error next event)
  else Ok (diagnose next [("error", JStr "unknown_event_type"); ("type", event.["type"])]).

(** The values a case converts to a number, a date or a property key. *)
Definition converted (next event entry : js) : list js :=
  let case (t : string) := event.["type"] === JStr t in
  let time := if nullish event.["at"] then [entry.["ts"] ||? JStr ""] else [] in
  if case "agent_phase" then (if truthy event.["phase"] then event.["phase"] :: time else [])
  else if case "variants_ready" || case "agent_done" then
    (if fenced next && negb (case "agent_done" && (event.["carbonize"] === JBool true) && (next.["phase"] === JStr "accept_requested"))
     then [] else time)
  else if case "variant_mounted" then [event.["variant"]]
  else if case "variant_mount_failed" then event.["variant"] :: (match ack_variant event with Some _ => time | None => [] end)
  else if case "checkpoint" then
    (if fenced next then [] else
     [event.["revision"] ?? int 0;
      if revision_is_publication event then next.["publicationCheckpointRevision"] ?? int 0
      else next.["browserCheckpointRevision"] ?? next.["checkpointRevision"] ?? int 0])
  else if case "accept" || case "accept_intent" then time ++ [event.["variantId"] ?? next.["visibleVariant"]]
  else if case "discard" then time
  else [].
Definition perform (next event entry : js) : result js :=
  if forallb converts (converted next event entry) then dispatch next event entry else Throw not_primitive.

Definition applyEvent (snapshot entry : js) : result js :=
  let event := entry.["event"] ||? entry in
  next ← next_snapshot snapshot entry;
  perform next event entry.
End Reducer.

(** ** What every derived snapshot satisfies *)

(** The variants on screen, in strictly increasing order from 1. *)
Definition mounted_ok (v : js) (l : list Z) : Prop :=
  v = JArr ((fun z => int z) <$> l) /\ StronglySorted Z.lt l /\ Forall (fun z => 1 <= z) l.

(** Render truth: [mounted] exactly when some variant is mounted, [failed]
    exactly when nothing is and some mount failed. *)
Definition render_ok (s : js) : Prop :=
  match arr_of s.["mountedVariants"], arr_of s.["mountFailures"] with
  | _ :: _, _ => s.["renderState"] = JStr "mounted"
  | [], _ :: _ => s.["renderState"] = JStr "failed"
  | [], [] => s.["renderState"] = JNull \/ s.["renderState"] = JStr "pending"
  end.

Record fields_ok (s : js) : Prop := {
  ok_obj : is_obj s = true;
  ok_params : is_obj s.["paramValues"] = true;
  ok_markers : is_obj s.["sourceMarkers"] = true;
  ok_timings : is_obj s.["generationTimings"] = true;
  ok_artifacts : exists l, s.["annotationArtifacts"] = JArr l /\ Forall (fun x => nullish x = false) l;
  ok_mounted : exists l, mounted_ok s.["mountedVariants"] l;
  ok_failures : exists l, s.["mountFailures"] = JArr l /\ (length l <= MOUNT_FAILURE_HISTORY)%nat;
  ok_diagnostics : exists l, s.["diagnostics"] = JArr l;
  ok_waivers : s.["detectorWaivers"] = JUndef \/ exists l, s.["detectorWaivers"] = JArr l;
  ok_pending : (s.["pendingEvent"]).["token"] = JUndef
}.

Record snapshot_ok (s : js) : Prop := {
  ok_fields : fields_ok s;
  ok_render : render_ok s
}.

Lemma baseSnapshot_ok id : snapshot_ok (baseSnapshot id).
Proof.
  split; [split; try reflexivity|left; reflexivity].
  - exists []. split; [reflexivity|constructor].
  - exists []. split; [reflexivity|split; constructor].
  - exists []. split; [reflexivity|]. unfold MOUNT_FAILURE_HISTORY. simpl. lia.
  - exists []. reflexivity.
  - left. reflexivity.
Qed.

Lemma spread_obj v : is_obj v = true -> spread v = v.
Proof. by destruct v. Qed.

Lemma or_else_obj v d : is_obj v = true -> or_else v d = v.
Proof. by destruct v. Qed.

(** The keys [next_snapshot] may change. *)
Definition copied_keys : list string := ["variantPlan"; "updatedAt"].

Lemma render_state_not_undef s : snapshot_ok s -> coalesce s.["renderState"] JNull = s.["renderState"].
Proof.
  intros H. pose proof (ok_render s H) as Hr. unfold render_ok in Hr.
  destruct (arr_of s.["mountedVariants"]); [destruct (arr_of s.["mountFailures"])|];
    [destruct Hr as [-> | ->]|rewrite Hr..]; done.
Qed.

(** On a well-formed snapshot the copy succeeds and changes nothing but
    [variantPlan] (a falsy plan becomes [null]) and [updatedAt]. *)
Lemma next_snapshot_spec now s entry : snapshot_ok s ->
  exists n, next_snapshot now s entry = Ok n /\ is_obj n = true /\
    (forall k, k ∉ copied_keys -> n.[k] = s.[k]) /\
    n.["variantPlan"] = or_else s.["variantPlan"] JNull.
Proof.
  intros H. pose proof (render_state_not_undef s H) as Hrs.
  destruct H as [[Ho Hp Hm Ht (la & Ha & _) (lm & Hmo & _) (lf & Hf & _) (ld & Hd) _ _] _].
  unfold next_snapshot. rewrite Ha, Hmo, Hf, Hd. eexists. split; [reflexivity|].
  split; [reflexivity|].
  rewrite (or_else_obj _ _ Hp), (or_else_obj _ _ Hm), (or_else_obj _ _ Ht), Hrs, !spread_obj by done.
  assert (forall k x l, assoc_get k ((k, x) :: l) = Some (x : js)) as Hhd.
  { intros. simpl. by rewrite String.eqb_refl. }
  split.
  - intros k Hk. rewrite jget_spread_with by (try done; vm_compute; repeat constructor; set_solver).
    unfold copied_keys in Hk. rewrite !not_elem_of_cons in Hk. destruct Hk as (Hk1 & Hk2 & _).
    cbn [assoc_get]. apply String.eqb_neq in Hk1, Hk2. rewrite Hk1, Hk2.
    repeat match goal with
    | |- context [String.eqb k ?x] => destruct (String.eqb_spec k x) as [->|]; [congruence|]
    end. done.
  - rewrite jget_spread_with by (try done; vm_compute; repeat constructor; set_solver). done.
Qed.

Lemma next_snapshot_ok now s entry : snapshot_ok s ->
  exists n, next_snapshot now s entry = Ok n /\ snapshot_ok n.
Proof.
  intros H. destruct (next_snapshot_spec now s entry H) as (n & Hn & Hobj & Hk & _).
  exists n. split; [done|]. destruct H as [[] Hr].
  split; [split; [done|..]|]; unfold render_ok in *; rewrite !Hk; try done;
    unfold copied_keys; rewrite !not_elem_of_cons; split_and!; try done; by intros ?%elem_of_nil.
Qed.

(** *** Sorting the mounted variants *)

Fixpoint insert_Z (x : Z) (l : list Z) : list Z :=
  match l with
  | [] => [x]
  | y :: l => if x <? y then x :: y :: l else y :: insert_Z x l
  end.

Lemma insert_num_int z l : insert_num (int z) ((fun z => int z) <$> l) = (fun z => int z) <$> insert_Z z l.
Proof.
  induction l as [|y l IH]; [done|]. rewrite fmap_cons. cbn [insert_num insert_Z to_num].
  rewrite num_ltb_int. destruct (z <? y); [done|]. by rewrite fmap_cons, IH.
Qed.

Lemma insert_Z_end z l : Forall (fun y => y < z) l -> insert_Z z l = l ++ [z].
Proof.
  induction 1 as [|y l Hy _ IH]; simpl; [done|]. rewrite IH. by destruct (Z.ltb_spec z y); [lia|].
Qed.

Lemma insert_Z_elem z l x : x ∈ insert_Z z l <-> x = z \/ x ∈ l.
Proof.
  induction l as [|y l IH]; simpl; [set_solver|].
  destruct (z <? y); rewrite !elem_of_cons, ?IH; naive_solver.
Qed.

Lemma insert_Z_sorted z l : z ∉ l -> StronglySorted Z.lt l -> StronglySorted Z.lt (insert_Z z l).
Proof.
  intros Hz H; induction H as [|y l Hs IH Hy]; simpl; [by repeat constructor|].
  rewrite not_elem_of_cons in Hz. destruct Hz as [Hzy Hzl].
  destruct (Z.ltb_spec z y).
  - constructor; [by constructor|]. constructor; [done|].
    eapply Forall_impl; [exact Hy|]. simpl. lia.
  - constructor; [auto|]. apply Forall_forall. intros x [->|Hx]%insert_Z_elem; [lia|].
    rewrite Forall_forall in Hy. auto.
Qed.

Lemma sort_num_snoc l x : sort_num (l ++ [x]) = insert_num x (sort_num l).
Proof. unfold sort_num. by rewrite foldl_app. Qed.

Lemma sorted_snoc_inv l (x : Z) :
  StronglySorted Z.lt (l ++ [x]) -> StronglySorted Z.lt l /\ Forall (fun y => y < x) l.
Proof.
  induction l as [|y l IH]; simpl; intros H; [by repeat constructor|].
  apply StronglySorted_inv in H as [Hs Hy]. destruct (IH Hs) as [H1 H2].
  apply Forall_app in Hy as [Hy [Hx _]%Forall_cons].
  split; constructor; done.
Qed.

Lemma sort_num_sorted l :
  StronglySorted Z.lt l -> sort_num ((fun z => int z) <$> l) = (fun z => int z) <$> l.
Proof.
  induction l as [|x l IH] using rev_ind; intros H; [done|].
  apply sorted_snoc_inv in H as [Hs Hx].
  rewrite fmap_app. change ((fun z => int z) <$> [x]) with [int x].
  by rewrite sort_num_snoc, IH, insert_num_int, insert_Z_end, fmap_app by done.
Qed.

Lemma existsb_int z l :
  existsb (same_value_zero (int z)) ((fun z => int z) <$> l) = bool_decide (z ∈ l).
Proof.
  induction l as [|y l IH]; [done|]. rewrite fmap_cons. cbn [existsb same_value_zero strict_eq].
  rewrite num_eqb_int, IH. symmetry. destruct (Z.eqb_spec z y) as [->|Hne]; simpl.
  - apply bool_decide_eq_true. apply elem_of_cons; auto.
  - apply bool_decide_ext. rewrite elem_of_cons. naive_solver.
Qed.

(** A new acknowledgement inserts its variant; a repeated one changes nothing. *)
Lemma mounted_insert v l z : mounted_ok v l -> 1 <= z ->
  exists l', mounted_ok
    (if negb (existsb (same_value_zero (int z)) (arr_of v))
     then JArr (sort_num (arr_of v ++ [int z])) else v) l' /\
    (forall x, x ∈ l' <-> x = z \/ x ∈ l).
Proof.
  intros (-> & Hs & Hp) Hz. cbn [arr_of]. rewrite existsb_int.
  case_bool_decide as Hin; simpl.
  - exists l. split; [done|]. naive_solver.
  - exists (insert_Z z l). split.
    + split; [by rewrite sort_num_snoc, sort_num_sorted, insert_num_int|].
      split; [by apply insert_Z_sorted|].
      apply Forall_forall. intros x [->|Hx]%insert_Z_elem; [done|].
      rewrite Forall_forall in Hp. auto.
    + apply insert_Z_elem.
Qed.

(** *** Each case keeps the snapshot well-formed

    Writing a key outside [constrained_keys] keeps everything; the writes of a
    constrained key have a lemma each, and [ok] chains them. *)

Definition constrained_keys : list string :=
  ["paramValues"; "sourceMarkers"; "generationTimings"; "annotationArtifacts"; "mountedVariants";
   "mountFailures"; "diagnostics"; "detectorWaivers"; "pendingEvent"; "renderState"].

Definition free_key (k : string) : bool := negb (existsb (String.eqb k) constrained_keys).

Lemma free_key_ne k k' : free_key k = true -> k' ∈ constrained_keys -> String.eqb k' k = false.
Proof.
  unfold free_key. rewrite negb_true_iff. intros H Hin. rewrite String.eqb_sym.
  destruct (String.eqb k k') eqn:E; [|done]. rewrite <- H. symmetry.
  apply existsb_exists. exists k'. split; [by apply list_elem_of_In|done].
Qed.

Ltac key_in := unfold constrained_keys; repeat (apply elem_of_cons; first [left; reflexivity | right]).
Ltac get_free Hk Ho := repeat rewrite jget_jset by exact Ho; rewrite ?(free_key_ne _ _ Hk) by key_in.

Lemma fields_free s k x : free_key k = true -> fields_ok s -> fields_ok (s.[k := x]).
Proof.
  intros Hk []. split; [by rewrite is_obj_jset|..]; get_free Hk ok_obj0; eauto.
Qed.

Lemma render_free s k x : free_key k = true -> is_obj s = true -> render_ok s -> render_ok (s.[k := x]).
Proof. intros Hk Ho. unfold render_ok. by get_free Hk Ho. Qed.

Lemma snapshot_free s k x : free_key k = true -> snapshot_ok s -> snapshot_ok (s.[k := x]).
Proof.
  intros Hk [Hf Hr]. split; [by apply fields_free|]. apply render_free; [done|by apply ok_obj|done].
Qed.

Lemma fields_keep s k v : free_key k = true -> fields_ok s -> fields_ok (keep s k v).
Proof. apply fields_free. Qed.
Lemma snapshot_keep s k v : free_key k = true -> snapshot_ok s -> snapshot_ok (keep s k v).
Proof. apply snapshot_free. Qed.

Ltac set_field H := destruct H; split; [by rewrite is_obj_jset|..];
  rewrite jget_jset by assumption; cbn [String.eqb Ascii.eqb Bool.eqb]; eauto.

Lemma fields_params s x : is_obj x = true -> fields_ok s -> fields_ok (s.["paramValues" := x]).
Proof. intros Hx H. set_field H. Qed.
Lemma fields_timings s x : is_obj x = true -> fields_ok s -> fields_ok (s.["generationTimings" := x]).
Proof. intros Hx H. set_field H. Qed.
Lemma fields_artifacts s l :
  Forall (fun x => nullish x = false) l -> fields_ok s -> fields_ok (s.["annotationArtifacts" := JArr l]).
Proof. intros Hx H. set_field H. Qed.
Lemma fields_mounted s x l : mounted_ok x l -> fields_ok s -> fields_ok (s.["mountedVariants" := x]).
Proof. intros Hx H. set_field H. Qed.
Lemma fields_failures s l :
  (length l <= MOUNT_FAILURE_HISTORY)%nat -> fields_ok s -> fields_ok (s.["mountFailures" := JArr l]).
Proof. intros Hx H. set_field H. Qed.
Lemma fields_diagnostics s l : fields_ok s -> fields_ok (s.["diagnostics" := JArr l]).
Proof. intros H. set_field H. Qed.
Lemma fields_waivers s l : fields_ok s -> fields_ok (s.["detectorWaivers" := JArr l]).
Proof. intros H. set_field H. Qed.
Lemma fields_pending s x : x.["token"] = JUndef -> fields_ok s -> fields_ok (s.["pendingEvent" := x]).
Proof. intros Hx H. set_field H. Qed.
Lemma fields_render s x : fields_ok s -> fields_ok (s.["renderState" := x]).
Proof. intros H. set_field H. Qed.

Lemma deriveRenderState_ok s : fields_ok s -> snapshot_ok (s.["renderState" := deriveRenderState s]).
Proof.
  intros H. split; [by apply fields_render|]. apply ok_obj in H.
  unfold render_ok. js_get. unfold deriveRenderState.
  destruct (arr_of s.["mountedVariants"]); [|done].
  destruct (arr_of s.["mountFailures"]); [|done]. simpl.
  destruct (truthy s.["generationCompletedAt"]); auto.
Qed.

(** A write of a constrained key that is not one of the three render keys keeps
    the render truth. *)
Definition render_key (k : string) : bool :=
  String.eqb k "mountedVariants" || String.eqb k "mountFailures" || String.eqb k "renderState".

Lemma snapshot_of_fields s k x : render_key k = false ->
  fields_ok (s.[k := x]) -> snapshot_ok s -> snapshot_ok (s.[k := x]).
Proof.
  intros Hk Hf [Hs Hr]. split; [done|]. apply ok_obj in Hs.
  unfold render_key in Hk. rewrite !orb_false_iff in Hk. destruct Hk as [[H1 H2] H3].
  rewrite String.eqb_sym in H1, H2, H3.
  unfold render_ok. rewrite !jget_jset, H1, H2, H3 by done. exact Hr.
Qed.

Lemma pending_no_token event : (toPendingEvent event).["token"] = JUndef.
Proof. unfold toPendingEvent. by rewrite jget_jdel. Qed.

Lemma spread_is_obj v : is_obj (spread v) = true.
Proof. by destruct v. Qed.

Lemma diagnose_fields n fs : fields_ok n -> fields_ok (diagnose n fs).
Proof. apply fields_diagnostics. Qed.
Lemma diagnose_ok n fs : snapshot_ok n -> snapshot_ok (diagnose n fs).
Proof.
  intros H. unfold diagnose. apply snapshot_of_fields; [done|apply fields_diagnostics, H|done].
Qed.

(** One write of a chain of updates at a time, outermost first. *)
Ltac ok_step :=
  first
  [ assumption
  | apply diagnose_ok
  | apply diagnose_fields
  | apply snapshot_keep; [reflexivity|]
  | apply fields_keep; [reflexivity|]
  | apply snapshot_free; [reflexivity|]
  | apply fields_free; [reflexivity|]
  | apply deriveRenderState_ok
  | apply fields_params; [reflexivity || apply spread_is_obj|]
  | apply fields_timings; [reflexivity|]
  | apply fields_pending; [reflexivity || apply pending_no_token|]
  | apply fields_waivers
  | apply fields_render
  | apply snapshot_of_fields; [reflexivity| |]
  | apply ok_fields; assumption ].
Ltac ok := intros; cbv zeta; repeat ok_step.

Lemma has_artifact_total l p t : Forall (fun x => nullish x = false) l ->
  exists b, has_artifact l p t = Ok b.
Proof.
  induction 1 as [|x l Hx _ IH]; simpl; [eauto|]. rewrite Hx. destruct (_ && _); eauto.
Qed.

(** [generate] starts a new render: nothing mounted, no failure. *)
Lemma render_reset s : fields_ok s ->
  snapshot_ok (s.["mountedVariants" := JArr []].["mountFailures" := JArr []].["renderState" := JNull]).
Proof.
  intros H. pose proof (ok_obj s H) as Ho. split.
  - apply fields_render, fields_failures; [simpl; lia|].
    apply (fields_mounted _ _ []); [by repeat constructor|done].
  - unfold render_ok. js_get. by left.
Qed.

Section HandlersOk.
Context (now : Z).
Implicit Types (n event entry : js).

Lemma on_generate_ok n event entry : snapshot_ok n ->
  exists s, on_generate n event entry = Ok s /\ snapshot_ok s.
Proof.
  intros H. unfold on_generate. cbv zeta.
  match goal with |- context [mret ?m] => set (next := m) in * end.
  assert (snapshot_ok next) as Hm by (apply render_reset; ok).
  destruct (truthy event.["screenshotPath"]); [|eauto].
  destruct (ok_artifacts next (ok_fields _ Hm)) as (la & Ha & Hn).
  unfold upsertArtifact. rewrite Ha. cbn [arr_of].
  destruct (has_artifact_total la event.["screenshotPath"] "screenshot" Hn) as [b Hb].
  rewrite Hb. cbn [mbind result_bind]. eexists; split; [reflexivity|].
  apply snapshot_of_fields; [done| |done]. apply ok_fields in Hm.
  destruct b; apply fields_artifacts; try done. apply Forall_app; split; [done|]. by repeat constructor.
Qed.

Lemma on_variant_plan_ok n event : snapshot_ok n -> snapshot_ok (on_variant_plan n event).
Proof. unfold on_variant_plan. destruct (fenced n); simpl; ok. Qed.

Lemma on_detector_waivers_ok n event : snapshot_ok n ->
  exists s, on_detector_waivers n event = Ok s /\ snapshot_ok s.
Proof.
  intros H. unfold on_detector_waivers. destruct (fenced n); simpl; [eauto|].
  destruct (ok_waivers n (ok_fields _ H)) as [-> | [l ->]]; simpl;
    (eexists; split; [reflexivity|]); ok.
Qed.

Lemma on_agent_phase_ok n event entry : snapshot_ok n -> snapshot_ok (on_agent_phase n event entry).
Proof.
  intros H. unfold on_agent_phase. cbv zeta. set (n' := keep n _ _) in *.
  assert (snapshot_ok n') as Hn' by (unfold n'; ok).
  destruct (truthy event.["phase"]); [|done].
  apply snapshot_of_fields; [done| |done]. apply fields_timings; [|ok].
  rewrite is_obj_jset. apply ok_timings; ok.
Qed.

Lemma on_variants_ready_ok n event entry : snapshot_ok n -> snapshot_ok (on_variants_ready now n event entry).
Proof.
  intros H. unfold on_variants_ready. case_goal; [ok|].
  cbv zeta. apply deriveRenderState_ok.
  destruct (event.["carbonize"] === JBool true); ok.
Qed.

Lemma malformed_ack_ok n event : snapshot_ok n -> snapshot_ok (malformed_ack n event).
Proof. apply diagnose_ok. Qed.

Lemma ack_variant_pos event z : ack_variant event = Some z -> 1 <= z.
Proof.
  unfold ack_variant. destruct (to_num _); try done.
  destruct (Z.ltb_spec z0 1); intros [= <-]. lia.
Qed.

Lemma on_variant_mounted_ok n event : snapshot_ok n -> snapshot_ok (on_variant_mounted n event).
Proof.
  intros H. unfold on_variant_mounted. destruct (ack_variant event) as [z|] eqn:Ez; [|ok].
  apply ack_variant_pos in Ez. destruct (ok_mounted n (ok_fields _ H)) as [l Hl].
  destruct (mounted_insert _ _ _ Hl Ez) as (l' & Hl' & _).
  cbv zeta. apply deriveRenderState_ok. case_goal; [|ok].
  eapply fields_mounted; [exact Hl'|ok].
Qed.

Lemma on_variant_mount_failed_ok n event entry :
  snapshot_ok n -> snapshot_ok (on_variant_mount_failed now n event entry).
Proof.
  intros H. unfold on_variant_mount_failed. destruct (ack_variant event) as [z|]; [|ok].
  cbv zeta. set (failed := jset n "mountFailures" _).
  assert (fields_ok failed) as Hf by (apply fields_failures; [apply slice_last_length|ok]).
  case_goal; ok.
Qed.

Lemma on_checkpoint_ok n event : snapshot_ok n -> snapshot_ok (on_checkpoint n event).
Proof.
  intros H. unfold on_checkpoint. cbv zeta. destruct (fenced n); [ok|]. case_goal; [|ok].
  destruct (revision_is_publication event); simpl; [ok|]. case_goal; ok.
Qed.

Lemma on_accept_ok n event entry : snapshot_ok n -> snapshot_ok (on_accept now n event entry).
Proof. intros H. unfold on_accept. cbv zeta. destruct (truthy event.["paramValues"]); ok. Qed.

Lemma on_page_request_ok phase n event entry : snapshot_ok n -> snapshot_ok (on_page_request phase n event entry).
Proof. unfold on_page_request. ok. Qed.

Lemma on_carbonize_cleanup_ok n event entry : snapshot_ok n -> snapshot_ok (on_carbonize_cleanup n event entry).
Proof. unfold on_carbonize_cleanup. ok. Qed.

Lemma on_steer_done_ok n event : snapshot_ok n -> snapshot_ok (on_steer_done n event).
Proof. unfold on_steer_done. ok. Qed.

Lemma on_discard_ok n event entry : snapshot_ok n -> snapshot_ok (on_discard now n event entry).
Proof. unfold on_discard. ok. Qed.

Lemma on_discarded_ok n : snapshot_ok n -> snapshot_ok (on_discarded n).
Proof. unfold on_discarded. ok. Qed.

Lemma on_complete_ok n event : snapshot_ok n -> snapshot_ok (on_complete n event).
Proof. unfold on_complete. ok. Qed.

Lemma on_agent_error_ok n event : snapshot_ok n -> snapshot_ok (on_agent_error n event).
Proof. intros H. unfold on_agent_error. case_goal; ok. Qed.

Lemma dispatch_ok n event entry : snapshot_ok n ->
  exists s, dispatch now n event entry = Ok s /\ snapshot_ok s.
Proof.
  intros H. unfold dispatch. cbv zeta.
  repeat (case_goal; [solve [
    apply on_generate_ok, H | apply on_detector_waivers_ok, H |
    eexists; (split; [reflexivity|]);
    auto using on_variant_plan_ok, on_agent_phase_ok, on_variants_ready_ok, on_variant_mounted_ok,
      on_variant_mount_failed_ok, on_checkpoint_ok, on_accept_ok, on_page_request_ok,
      on_carbonize_cleanup_ok, on_steer_done_ok, on_discard_ok, on_discarded_ok, on_complete_ok,
      on_agent_error_ok ] | ]).
  eexists; split; [reflexivity|]. by apply diagnose_ok.
Qed.

Lemma perform_ok n event entry s : perform now n event entry = Ok s -> dispatch now n event entry = Ok s.
Proof. unfold perform. by destruct (forallb _ _). Qed.

Lemma converted_same s n event entry : (forall k, k ∉ copied_keys -> n.[k] = s.[k]) -> converted n event entry = converted s event entry.
Proof. intros Hk. unfold converted, fenced. by rewrite !Hk by (unfold copied_keys; rewrite !not_elem_of_cons; split_and!; first [discriminate | by intros ?%elem_of_nil]). Qed.

Lemma applyEvent_cases s entry : snapshot_ok s ->
  if forallb converts (converted s (entry.["event"] ||? entry) entry)
  then exists s', applyEvent now s entry = Ok s' /\ snapshot_ok s'
  else applyEvent now s entry = Throw not_primitive.
Proof.
  intros H. destruct (next_snapshot_ok now s entry H) as (n & Hn & Ho). destruct (next_snapshot_spec now s entry H) as (n' & Hn' & _ & Hk & _).
  rewrite Hn in Hn'. injection Hn' as <-. unfold applyEvent, perform. rewrite Hn. cbn [mbind result_bind]. cbv zeta.
  rewrite (converted_same s n) by done. destruct (forallb _ _); [by apply dispatch_ok|done].
Qed.
Lemma applyEvent_ok s entry : snapshot_ok s -> forallb converts (converted s (entry.["event"] ||? entry) entry) = true ->
  exists s', applyEvent now s entry = Ok s' /\ snapshot_ok s'.
Proof. intros H Hc. pose proof (applyEvent_cases s entry H) as Ha. by rewrite Hc in Ha. Qed.
Lemma applyEvent_keeps s entry s' : snapshot_ok s -> applyEvent now s entry = Ok s' -> snapshot_ok s'.
Proof.
  intros H. pose proof (applyEvent_cases s entry H) as Ha. destruct (forallb _ _); [|by rewrite Ha].
  destruct Ha as (s1 & -> & Hs). by intros [= <-].
Qed.
End HandlersOk.

(** ** Which fields an event may write *)

Definition mem_key (k : string) (ks : list string) : bool := existsb (String.eqb k) ks.

Definition obj_keys (v : js) : list string := keys (own_props v).

(** [n] is an object that agrees with [s] outside [ks], with the keys of [s] in
    their order, followed by keys of [ks]. *)
Definition frame (ks : list string) (s n : js) : Prop :=
  is_obj s = true ->
  is_obj n = true /\ (forall k, mem_key k ks = false -> n.[k] = s.[k]) /\
  exists extra, obj_keys n = obj_keys s ++ extra /\ Forall (fun k => mem_key k ks = true) extra.

Lemma frame_refl ks s : frame ks s s.
Proof. intros Ho. split; [done|]. split; [done|]. exists []. by rewrite app_nil_r. Qed.

Lemma obj_keys_jset n k x : is_obj n = true ->
  obj_keys (n.[k := x]) = if decide (k ∈ obj_keys n) then obj_keys n else obj_keys n ++ [k].
Proof. destruct n; try done. intros _. apply keys_assoc_set. Qed.

Lemma frame_set ks s n k x : mem_key k ks = true -> frame ks s n -> frame ks s (n.[k := x]).
Proof.
  intros Hk Hf Ho. destruct (Hf Ho) as (Hn & Hg & extra & He & Hx). split; [|split].
  - by rewrite is_obj_jset.
  - intros k' Hk'. rewrite jget_jset by done. destruct (String.eqb_spec k' k) as [->|]; [congruence|auto].
  - rewrite obj_keys_jset by done. case_decide; [eauto|]. exists (extra ++ [k]).
    rewrite He, <- app_assoc. split; [done|]. apply Forall_app. by repeat constructor.
Qed.

Lemma frame_keep ks s n k x : mem_key k ks = true -> frame ks s n -> frame ks s (keep n k x).
Proof. apply frame_set. Qed.

Lemma frame_diagnose ks s n fs : mem_key "diagnostics" ks = true -> frame ks s n -> frame ks s (diagnose n fs).
Proof. apply frame_set. Qed.

Definition writes (event : js) : list string :=
  let case (t : string) := event.["type"] === JStr t in
  let located := ["sourceFile"; "previewFile"; "previewMode"] in
  let queued := ["phase"; "pendingEventSeq"; "pendingEvent"] in
  let canceled := ["generationCanceled"; "generationCanceledAt"; "cancelReason"] in
  if case "generate" then queued ++ ["pageUrl"; "expectedVariants"; "variantPlan"; "mountedVariants";
    "mountFailures"; "renderState"; "annotationArtifacts"]
  else if case "variant_plan" then ["variantPlan"]
  else if case "detector_waivers" then ["detectorWaivers"]
  else if case "agent_phase" then ["generationPhase"; "generationTimings"]
  else if case "variants_ready" || case "agent_done" then queued ++ located ++
    ["generationCompletedAt"; "arrivedVariants"; "diagnostics"; "renderState"]
  else if case "variant_mounted" then ["mountedVariants"; "renderState"; "diagnostics"]
  else if case "variant_mount_failed" then ["mountFailures"; "renderState"; "pendingEvent"; "diagnostics"]
  else if case "checkpoint" then located ++ ["diagnostics"; "phase"; "publicationCheckpointRevision";
    "browserCheckpointRevision"; "checkpointRevision"; "activeOwner"; "arrivedVariants";
    "visibleVariant"; "paramValues"]
  else if case "accept" || case "accept_intent" then queued ++ canceled ++ ["visibleVariant"; "paramValues"]
  else if case "manual_edit_apply" || case "steer" then "pageUrl" :: queued
  else if case "carbonize_cleanup" then "sourceFile" :: queued
  else if case "steer_done" then "message" :: queued ++ located
  else if case "discard" then queued ++ canceled
  else if case "discarded" then queued
  else if case "complete" then queued ++ located
  else if case "agent_error" then "diagnostics" :: queued
  else ["diagnostics"].

Ltac frame_step :=
  match goal with
  | |- frame _ ?s ?s => apply frame_refl
  | |- frame _ _ (jset _ _ _) => apply frame_set; [first [assumption | reflexivity]|]
  | |- frame _ _ (keep _ _ _) => apply frame_keep; [first [assumption | reflexivity]|]
  | |- frame _ _ (diagnose _ _) => apply frame_diagnose; [first [assumption | reflexivity]|]
  | |- frame _ _ (if ?b then _ else _) => destruct b
  end.
Ltac frames := cbv zeta; repeat frame_step.

Lemma on_generate_frame n event entry s ks : forallb (fun k => mem_key k ks)
    ["phase"; "pendingEventSeq"; "pendingEvent"; "pageUrl"; "expectedVariants"; "variantPlan";
     "mountedVariants"; "mountFailures"; "renderState"; "annotationArtifacts"] = true ->
  on_generate n event entry = Ok s -> frame ks n s.
Proof.
  cbn [forallb]. rewrite !andb_true_iff. intros (?&?&?&?&?&?&?&?&?&?&_). unfold on_generate. cbv zeta.
  destruct (truthy event.["screenshotPath"]).
  - destruct (upsertArtifact _ _ _) as [a|]; [|done]. cbn [mbind result_bind]. intros <-%Ok_inj.
    frames.
  - intros <-%Ok_inj.
    frames.
Qed.

Lemma on_detector_waivers_frame n event s ks : mem_key "detectorWaivers" ks = true ->
  on_detector_waivers n event = Ok s -> frame ks n s.
Proof.
  unfold on_detector_waivers. intros Hk. destruct (negb (fenced n)).
  - destruct (iterate _); [|done]. intros <-%Ok_inj. by apply frame_set, frame_refl.
  - intros <-%Ok_inj. apply frame_refl.
Qed.

Lemma on_checkpoint_frame n event ks : forallb (fun k => mem_key k ks)
    ["sourceFile"; "previewFile"; "previewMode"; "diagnostics"; "phase"; "publicationCheckpointRevision";
    "browserCheckpointRevision"; "checkpointRevision"; "activeOwner"; "arrivedVariants";
    "visibleVariant"; "paramValues"] = true ->
  frame ks n (on_checkpoint n event).
Proof.
  cbn [forallb]. rewrite !andb_true_iff. intros (?&?&?&?&?&?&?&?&?&?&?&?&_). unfold on_checkpoint. cbv zeta.
  destruct (fenced n); [frames|]. destruct (js_geb _ _); [|frames].
  destruct (revision_is_publication event); cbn [negb andb]; frames.
Qed.

Lemma dispatch_frame now n event entry s :
  dispatch now n event entry = Ok s -> frame (writes event) n s.
Proof.
  unfold dispatch, writes. cbv zeta.
  repeat match goal with
  | |- (if ?b then _ else _) = _ -> _ => destruct b; cbn [orb]
  end.
  all: intros H; first
    [ by apply (on_generate_frame n event entry)
    | by apply (on_detector_waivers_frame n event)
    | apply Ok_inj in H as <- ].
  all: try by apply on_checkpoint_frame.
  all: unfold on_variant_plan, on_agent_phase, on_variants_ready, on_variant_mounted,
    on_variant_mount_failed, malformed_ack, on_accept, on_page_request, on_carbonize_cleanup,
    on_steer_done, on_discard, on_discarded, on_complete, on_agent_error.
  all: try destruct (ack_variant event); frames.
Qed.

Lemma frame_get ks s n k : is_obj s = true -> frame ks s n -> mem_key k ks = false -> n.[k] = s.[k].
Proof. intros Ho Hf Hk. destruct (Hf Ho) as (_ & Hg & _). auto. Qed.

(** What [applyEvent] changes: the fields of the case, and the two fields of
    [copied_keys]. *)
Lemma applyEvent_frame now s entry n : snapshot_ok s -> applyEvent now s entry = Ok n ->
  is_obj n = true /\
  forall k, mem_key k (writes (entry.["event"] ||? entry)) = false -> k ∉ copied_keys -> n.[k] = s.[k].
Proof.
  intros H. destruct (next_snapshot_spec now s entry H) as (m & Hm & Ho & Hk & _).
  unfold applyEvent. rewrite Hm. cbn [mbind result_bind]. cbv zeta.
  intros Hd%perform_ok%dispatch_frame. destruct (Hd Ho) as (Hn & Hg & _). split; [done|].
  intros k Hw Hc. rewrite Hg by done. by apply Hk.
Qed.

Ltac not_copied := unfold copied_keys; rewrite !not_elem_of_cons; split_and!; first [assumption | discriminate | by intros ?%elem_of_nil].

(** *** Fencing: once the user accepted or discarded, the agent's late events are inert *)

Definition late_event (s event : js) : bool :=
  let case (t : string) := event.["type"] === JStr t in
  case "variant_plan" || case "detector_waivers" || case "checkpoint" || case "variants_ready"
  || (case "agent_done" && negb ((event.["carbonize"] === JBool true) && (s.["phase"] === JStr "accept_requested")))
  || (case "agent_error" && truthy s.["generationCanceled"] && (event.["sourceEventType"] === JStr "generate")).

Definition event_of (entry : js) : js := entry.["event"] ||? entry.

Lemma dispatch_late now n event entry : fenced n = true -> late_event n event = true ->
  exists fs, perform now n event entry = Ok n \/ perform now n event entry = Ok (diagnose n fs).
Proof.
  intros Hf Hl. assert (converted n event entry = []) as Hc.
  { revert Hl. unfold late_event, converted. cbv zeta. rewrite !orb_true_iff, !andb_true_iff, negb_true_iff, andb_false_iff.
    intros [[[[[E|E]|E]|E]|[E Hc]]|[[E _] _]]; apply strict_eq_str in E as ->; cbn [strict_eq String.eqb Ascii.eqb Bool.eqb orb andb];
      rewrite ?Hf; try done. destruct Hc as [-> | ->]; by rewrite ?andb_false_r. }
  unfold perform. rewrite Hc. cbn [forallb]. clear Hc. revert Hl. unfold late_event. cbv zeta. rewrite !orb_true_iff, !andb_true_iff, negb_true_iff, andb_false_iff.
  unfold dispatch.
  intros [[[[[E|E]|E]|E]|[E Hc]]|[[E Hc] He]]; apply strict_eq_str in E as Et; cbv zeta; rewrite Et; cbn [strict_eq String.eqb Ascii.eqb Bool.eqb orb].
  - unfold on_variant_plan. rewrite Hf. exists []. by left.
  - unfold on_detector_waivers. rewrite Hf. exists []. by left.
  - unfold on_checkpoint. rewrite Hf. eexists. by right.
  - unfold on_variants_ready. cbv zeta. rewrite Hf, Et. eexists. by right.
  - unfold on_variants_ready. cbv zeta. rewrite Hf, Et.
    destruct Hc as [-> | ->]; rewrite ?andb_false_r; eexists; by right.
  - unfold on_agent_error. rewrite Hc, He. eexists. by right.
Qed.

(** C4: After an accept or a discard ([fenced]), a late plan, waiver, checkpoint, result
    or generation error from the agent changes no field of the session except the
    diagnostics log and the timestamp (a falsy plan is normalised to [null]). *)
Theorem late_generation_event_inert now s entry :
  snapshot_ok s -> fenced s = true -> late_event s (event_of entry) = true ->
  exists n, applyEvent now s entry = Ok n /\
    (forall k, k ≠ "diagnostics" -> k ≠ "updatedAt" -> k ≠ "variantPlan" -> n.[k] = s.[k]) /\
    n.["variantPlan"] = or_else s.["variantPlan"] JNull.
Proof.
  intros H Hf Hl. destruct (next_snapshot_spec now s entry H) as (m & Hm & Ho & Hk & Hp).
  unfold applyEvent. rewrite Hm. cbn [mbind result_bind].
  assert (fenced m = true) as Hfm by (unfold fenced; rewrite !Hk by not_copied; exact Hf).
  assert (late_event m (event_of entry) = true) as Hlm
    by (unfold late_event; rewrite !Hk by not_copied; exact Hl).
  destruct (dispatch_late now m _ entry Hfm Hlm) as (fs & [Hd|Hd]); (eexists; split; [exact Hd|]).
  - split; [|done]. intros k _ ? ?. apply Hk. by not_copied.
  - unfold diagnose. split; [|by rewrite jget_jset].
    intros k ? ? ?. rewrite jget_jset by done. destruct (String.eqb_spec k "diagnostics"); [done|].
    apply Hk. by not_copied.
Qed.

(** A session the user has accepted, for the examples. *)
Definition accepted_example : js := (baseSnapshot (JStr "s")).["phase" := JStr "accept_requested"].
Lemma accepted_example_ok : snapshot_ok accepted_example.
Proof. apply snapshot_free; [reflexivity|]. apply baseSnapshot_ok. Qed.
Definition late_checkpoint : js := JObj [("type", JStr "checkpoint"); ("revision", int 9)].

Lemma late_generation_event_inert_witness :
  exists n, applyEvent 0 accepted_example late_checkpoint = Ok n /\
    n.["browserCheckpointRevision"] = int 0.
Proof.
  destruct (late_generation_event_inert 0 accepted_example late_checkpoint) as (n & Hn & Hk & _);
    [exact accepted_example_ok|reflexivity|reflexivity|].
  exists n. split; [exact Hn|]. rewrite Hk; [reflexivity|discriminate..].
Defined.


Example unusable_variant : applyEvent 5 (baseSnapshot (JStr "s")) (JObj [("type", JStr "variant_mounted"); ("variant", JObj [("toString", JNull)])]) = Throw not_primitive.
Proof. reflexivity. Qed.

(** *** Cancellation *)

Definition cancels (event : js) : bool :=
  let case (t : string) := event.["type"] === JStr t in
  case "accept" || case "accept_intent" || case "discard".

Lemma get_after_write ks n k x n' : is_obj n = true -> mem_key k ks = false ->
  frame ks (n.[k := x]) n' -> n'.[k] = x.
Proof.
  intros Ho Hk Hf. rewrite (frame_get ks (n.[k := x]) n' k); [|by rewrite is_obj_jset|done|done].
  by rewrite jget_jset, String.eqb_refl.
Qed.

Lemma on_accept_canceled now n event entry : is_obj n = true ->
  (on_accept now n event entry).["generationCanceled"] = JBool true.
Proof.
  intros Ho. unfold on_accept. cbv zeta.
  eapply (get_after_write ["generationCanceledAt"; "cancelReason"; "visibleVariant"; "paramValues";
    "pendingEventSeq"; "pendingEvent"] (n.["phase" := JStr "accept_requested"]));
    [by rewrite is_obj_jset|reflexivity|frames].
Qed.

Lemma on_discard_canceled now n event entry : is_obj n = true ->
  (on_discard now n event entry).["generationCanceled"] = JBool true.
Proof.
  intros Ho. unfold on_discard. cbv zeta.
  eapply (get_after_write ["generationCanceledAt"; "cancelReason"; "pendingEventSeq"; "pendingEvent"]
    (n.["phase" := JStr "discard_requested"]));
    [by rewrite is_obj_jset|reflexivity|frames].
Qed.

Lemma dispatch_canceled now n event entry s : is_obj n = true ->
  dispatch now n event entry = Ok s ->
  s.["generationCanceled"] = if cancels event then JBool true else n.["generationCanceled"].
Proof.
  intros Ho Hd. pose proof (dispatch_frame _ _ _ _ _ Hd Ho) as (_ & Hg & _).
  specialize (Hg "generationCanceled"). unfold cancels.
  revert Hd Hg. unfold writes, dispatch. cbv zeta.
  destruct (event.["type"]); try (intros _ Hg; by apply Hg). cbn [strict_eq].
  repeat match goal with
  | |- (if String.eqb ?a ?b || String.eqb ?a ?c then _ else _) = _ -> _ =>
      destruct (String.eqb_spec a b) as [->|_]; [|destruct (String.eqb_spec a c) as [->|_]]; cbn [orb]
  | |- (if String.eqb ?a ?b then _ else _) = _ -> _ => destruct (String.eqb_spec a b) as [->|_]; cbn [orb]
  end; intros Hd Hg; try (by apply Hg); apply Ok_inj in Hd as <-;
    auto using on_accept_canceled, on_discard_canceled.
Qed.

(** Cancellation is permanent: accept and discard set [generationCanceled], and
    no other event, of any type, ever changes it. *)
Theorem cancellation_permanent now s entry n : snapshot_ok s ->
  applyEvent now s entry = Ok n ->
  n.["generationCanceled"] = if cancels (event_of entry) then JBool true else s.["generationCanceled"].
Proof.
  intros H. destruct (next_snapshot_spec now s entry H) as (m & Hm & Ho & Hk & _).
  unfold applyEvent. rewrite Hm. cbn [mbind result_bind]. cbv zeta.
  intros Hd%perform_ok%dispatch_canceled; [|done]. rewrite Hd, Hk by not_copied. done.
Qed.

Lemma cancellation_permanent_witness :
  exists n, applyEvent 0 accepted_example (JObj [("type", JStr "discard")]) = Ok n /\
  n.["generationCanceled"] = JBool true.
Proof.
  destruct (applyEvent_ok 0 accepted_example (JObj [("type", JStr "discard")]) accepted_example_ok eq_refl)
    as (n & Hn & _).
  exists n. split; [exact Hn|].
  exact (cancellation_permanent 0 accepted_example (JObj [("type", JStr "discard")]) n
    accepted_example_ok Hn).
Defined.

(** *** Checkpoint revisions *)

Definition int_or_nullish (v : js) : Prop := nullish v = true \/ exists z, v = int z.

Lemma dispatch_other_field now n event entry s k : is_obj n = true ->
  dispatch now n event entry = Ok s -> mem_key k (writes event) = false -> s.[k] = n.[k].
Proof. intros Ho Hd. apply (frame_get _ _ _ _ Ho (dispatch_frame _ _ _ _ _ Hd)). Qed.

Definition revision_field (publication : bool) : string :=
  if publication then "publicationCheckpointRevision" else "browserCheckpointRevision".

Lemma revision_written (event : js) (publication : bool) :
  mem_key (revision_field publication) (writes event) = (event.["type"] === JStr "checkpoint").
Proof.
  unfold writes. cbv zeta.
  destruct (event.["type"]); try (by destruct publication). cbn [strict_eq].
  repeat match goal with
  | |- context [if String.eqb ?a ?b then _ else _] =>
      destruct (String.eqb_spec a b) as [->|?]; cbn [orb]; [by destruct publication|]
  | |- context [String.eqb ?a ?b || ?c] =>
      destruct (String.eqb_spec a b) as [->|?]; cbn [orb]; [by destruct publication|]
  end.
  destruct (String.eqb_spec s "checkpoint"); [done|]. by destruct publication.
Qed.

Definition after_revision : list string :=
  ["checkpointRevision"; "activeOwner"; "arrivedVariants"; "visibleVariant"; "sourceFile";
   "previewFile"; "previewMode"; "paramValues"].

(** A checkpoint leaves the counter of the other domain alone, and moves its own
    only when its revision is at least the current one. *)
Lemma on_checkpoint_revision n event publication z :
  is_obj n = true -> n.[revision_field publication] = int z ->
  let n' := on_checkpoint n event in
  n'.[revision_field publication] = int z \/
  (js_geb (event.["revision"] ?? int 0) (int z) = true /\
   n'.[revision_field publication] = (event.["revision"] ?? int z)).
Proof.
  intros Ho Hz. cbv zeta. unfold on_checkpoint. cbv zeta.
  destruct (fenced n).
  { left. rewrite <- Hz. eapply (frame_get ["diagnostics"]); [done|frames|by destruct publication]. }
  destruct (js_geb _ _) eqn:Eg.
  2: { left. rewrite <- Hz. eapply (frame_get ["diagnostics"]); [done|frames|by destruct publication]. }
  destruct (revision_is_publication event) eqn:Ep; cbn [negb andb] in *; destruct publication;
    cbn [revision_field] in *.
  2,3: left; rewrite <- Hz; eapply (frame_get ("phase" :: revision_field (revision_is_publication event) :: after_revision)); [done| |by rewrite Ep]; rewrite Ep; frames.
  - right. rewrite Hz in Eg. split; [exact Eg|]. rewrite Hz. cbn [coalesce nullish].
    eapply (get_after_write after_revision (n.["phase" :?? event.["phase"]])); [by unfold keep; rewrite is_obj_jset|reflexivity|frames].
  - right. rewrite Hz in Eg. split; [exact Eg|]. rewrite Hz. cbn [coalesce nullish].
    eapply (get_after_write after_revision (n.["phase" :?? event.["phase"]])); [by unfold keep; rewrite is_obj_jset|reflexivity|frames].
Qed.

(** Checkpoint revisions never go back. While journal entries carry integer (or no)
    revisions, each of the two counters stays an integer and no event, of any
    type, decreases it; an older checkpoint leaves it unchanged. *)
Theorem checkpoint_revision_monotone now s entry n publication z :
  snapshot_ok s -> s.[revision_field publication] = int z ->
  int_or_nullish (event_of entry).["revision"] ->
  applyEvent now s entry = Ok n ->
  exists z', n.[revision_field publication] = int z' /\ z <= z' /\
    (z' = z \/ (event_of entry).["revision"] = int z').
Proof.
  intros H Hz Hr. destruct (next_snapshot_spec now s entry H) as (m & Hm & Ho & Hk & _).
  unfold applyEvent. rewrite Hm. cbn [mbind result_bind]. cbv zeta. fold (event_of entry).
  assert (m.[revision_field publication] = int z) as Hzm by (rewrite Hk; [done|by destruct publication; not_copied]).
  intros Hd%perform_ok. destruct ((event_of entry).["type"] === JStr "checkpoint") eqn:Et.
  - apply strict_eq_str in Et. unfold dispatch in Hd. cbv zeta in Hd. rewrite Et in Hd.
    cbn [strict_eq String.eqb Ascii.eqb Bool.eqb orb] in Hd. apply Ok_inj in Hd as <-.
    destruct (on_checkpoint_revision m (event_of entry) publication z Ho Hzm) as [-> | [Hge ->]].
    + exists z. split_and!; [done|lia|auto].
    + destruct Hr as [Hn | [r Er]].
      * exists z. unfold coalesce. rewrite Hn. split_and!; [done|lia|auto].
      * rewrite Er in *. exists r. cbn [coalesce nullish] in *. split; [done|]. split; [|auto].
        revert Hge. unfold js_geb. cbn [to_prim to_num]. rewrite num_leb_int. lia.
  - exists z. rewrite (dispatch_other_field _ _ _ _ _ _ Ho Hd) by (by rewrite revision_written).
    split_and!; [done|lia|auto].
Qed.

Lemma checkpoint_revision_monotone_witness :
  exists n, applyEvent 0 (baseSnapshot (JStr "s")) late_checkpoint = Ok n /\
    exists z', n.["browserCheckpointRevision"] = int z' /\ 0 <= z'.
Proof.
  destruct (applyEvent_ok 0 _ late_checkpoint (baseSnapshot_ok (JStr "s")) eq_refl) as (n & Hn & _).
  exists n. split; [exact Hn|].
  destruct (checkpoint_revision_monotone 0 _ late_checkpoint n false 0 (baseSnapshot_ok (JStr "s")))
    as (z' & Hz & Hle & _); [reflexivity|right; exists 9; reflexivity|exact Hn|].
  exists z'. split; [exact Hz|exact Hle].
Defined.

(** *** Mount acknowledgements *)

Lemma mounted_written (event : js) : mem_key "mountedVariants" (writes event) =
  (event.["type"] === JStr "generate") || (event.["type"] === JStr "variant_mounted").
Proof.
  unfold writes. cbv zeta. destruct (event.["type"]); try done. cbn [strict_eq].
  repeat match goal with
  | |- context [if String.eqb ?a ?b then _ else _] =>
      destruct (String.eqb_spec a b) as [->|?]; cbn [orb]; [done|]
  | |- context [if String.eqb ?a ?b || ?c then _ else _] =>
      destruct (String.eqb_spec a b) as [->|?]; cbn [orb]; [done|]
  end. done.
Qed.

Definition acked (event : js) : option Z :=
  if event.["type"] === JStr "variant_mounted" then ack_variant event else None.

Lemma get_other s k k' x : is_obj s = true -> String.eqb k k' = false -> (s.[k' := x]).[k] = s.[k].
Proof. intros Ho Hk. by rewrite jget_jset, Hk. Qed.

Lemma on_generate_mounted n event entry s : is_obj n = true ->
  on_generate n event entry = Ok s -> s.["mountedVariants"] = JArr [].
Proof.
  intros Ho. unfold on_generate. cbv zeta. destruct (truthy _).
  - destruct (upsertArtifact _ _ _); [|done]. intros <-%Ok_inj.
    eapply (get_after_write ["mountFailures"; "renderState"; "annotationArtifacts"]);
      [|reflexivity|frames; apply frame_refl]. unfold keep. by rewrite !is_obj_jset.
  - intros <-%Ok_inj.
    eapply (get_after_write ["mountFailures"; "renderState"]);
      [|reflexivity|frames; apply frame_refl]. unfold keep. by rewrite !is_obj_jset.
Qed.

Lemma on_variant_mounted_set n event l : is_obj n = true -> mounted_ok n.["mountedVariants"] l ->
  exists l', mounted_ok (on_variant_mounted n event).["mountedVariants"] l' /\
    forall x, x ∈ l' <-> x ∈ l \/ ack_variant event = Some x.
Proof.
  intros Ho Hl. unfold on_variant_mounted. destruct (ack_variant event) as [z|] eqn:Ez.
  - apply ack_variant_pos in Ez. destruct (mounted_insert _ _ _ Hl Ez) as (l' & Hl' & Hx).
    exists l'. cbv zeta. split; [|naive_solver].
    destruct (negb _); rewrite get_other; rewrite ?is_obj_jset; try done. by rewrite jget_jset.
  - exists l. split; [|naive_solver]. unfold malformed_ack, diagnose. by rewrite jget_jset.
Qed.

(** The mounted variants are exactly the acknowledged ones: after an event the set is
    the old one plus the variant of a well-formed [variant_mounted]
    acknowledgement (an integer from 1), kept sorted without duplicates; a
    malformed acknowledgement adds nothing, and only a new [generate] empties it. *)
Theorem mounted_variants_exact now s entry n l :
  snapshot_ok s -> mounted_ok s.["mountedVariants"] l -> applyEvent now s entry = Ok n ->
  exists l', mounted_ok n.["mountedVariants"] l' /\
    (if (event_of entry).["type"] === JStr "generate" then l' = []
     else forall x, x ∈ l' <-> x ∈ l \/ acked (event_of entry) = Some x).
Proof.
  intros H Hl. destruct (next_snapshot_spec now s entry H) as (m & Hm & Ho & Hk & _).
  unfold applyEvent. rewrite Hm. cbn [mbind result_bind]. cbv zeta. fold (event_of entry).
  rewrite <- (Hk "mountedVariants") in Hl by not_copied. intros Hd%perform_ok.
  unfold acked. pose proof (mounted_written (event_of entry)) as Hw.
  destruct ((event_of entry).["type"] === JStr "generate") eqn:Eg.
  { exists []. split; [|done]. revert Hd. unfold dispatch. cbv zeta. rewrite Eg.
    intros ->%on_generate_mounted; [|done]. by repeat constructor. }
  destruct ((event_of entry).["type"] === JStr "variant_mounted") eqn:Em.
  - apply strict_eq_str in Em. revert Hd. unfold dispatch. cbv zeta. rewrite Em.
    cbn [strict_eq String.eqb Ascii.eqb Bool.eqb orb]. intros <-%Ok_inj. by apply on_variant_mounted_set.
  - exists l. rewrite (dispatch_other_field _ _ _ _ _ _ Ho Hd) by done. split; [done|]. naive_solver.
Qed.

Lemma mounted_variants_exact_witness :
  exists n, applyEvent 0 (baseSnapshot (JStr "s")) (JObj [("type", JStr "variant_mounted"); ("variant", int 2)]) = Ok n /\
    exists l', mounted_ok n.["mountedVariants"] l' /\ 2 ∈ l'.
Proof.
  set (e := JObj _).
  destruct (applyEvent_ok 0 _ e (baseSnapshot_ok (JStr "s")) eq_refl) as (n & Hn & _).
  exists n. split; [exact Hn|].
  destruct (mounted_variants_exact 0 _ e n [] (baseSnapshot_ok (JStr "s"))) as (l' & Hl' & Hx);
    [by repeat constructor|exact Hn|].
  exists l'. split; [exact Hl'|]. apply Hx. right. reflexivity.
Defined.

(** ** The shape of a derived snapshot *)

Definition base_keys : list string := obj_keys (baseSnapshot JUndef).

(** Every key some event may write; the two that [baseSnapshot] lacks come last. *)
Definition written_keys : list string :=
  ["phase"; "pendingEventSeq"; "pendingEvent"; "pageUrl"; "expectedVariants"; "variantPlan";
   "mountedVariants"; "mountFailures"; "renderState"; "annotationArtifacts"; "generationPhase";
   "generationTimings"; "sourceFile"; "previewFile"; "previewMode"; "generationCompletedAt";
   "arrivedVariants"; "diagnostics"; "publicationCheckpointRevision"; "browserCheckpointRevision";
   "checkpointRevision"; "activeOwner"; "visibleVariant"; "paramValues"; "generationCanceled";
   "generationCanceledAt"; "cancelReason"; "detectorWaivers"; "message"].

Lemma writes_bounded event : forallb (fun k => mem_key k written_keys) (writes event) = true.
Proof.
  unfold writes. cbv zeta.
  repeat match goal with |- context [if ?b then _ else _] => destruct b; [reflexivity|] end.
  reflexivity.
Qed.

(** The keys of [baseSnapshot] first, in order, then only keys an event added. *)
Record session_shape (id : string) (s : js) : Prop := {
  shape_keys : exists extra, obj_keys s = base_keys ++ extra /\
    Forall (fun k => mem_key k written_keys = true) extra;
  shape_id : s.["id"] = JStr id
}.

Lemma baseSnapshot_shape id : session_shape id (baseSnapshot (JStr id)).
Proof. split; [by exists []|done]. Qed.

Lemma next_snapshot_keys now s entry n id : session_shape id s ->
  next_snapshot now s entry = Ok n -> obj_keys n = obj_keys s.
Proof.
  intros [(extra & Hk & _) _]. unfold next_snapshot.
  repeat (intros (? & _ & H)%bind_ok; revert H). intros <-%Ok_inj.
  apply keys_merge_known. fold (obj_keys s). rewrite Hk.
  assert (Forall (fun k => k ∈ base_keys) ["paramValues"; "sourceMarkers"; "generationTimings"; "variantPlan";
    "annotationArtifacts"; "mountedVariants"; "mountFailures"; "renderState"; "diagnostics"; "updatedAt"]) as Hb
    by (apply (bool_decide_unpack _); vm_compute; exact I).
  eapply Forall_impl; [exact Hb|]. intros k ?. apply elem_of_app. by left.
Qed.

Lemma applyEvent_shape now s entry n id : snapshot_ok s -> session_shape id s ->
  applyEvent now s entry = Ok n -> session_shape id n.
Proof.
  intros H Hs Ha. pose proof (applyEvent_frame _ _ _ _ H Ha) as [_ Hg].
  unfold applyEvent in Ha. apply bind_ok in Ha as (m & Hm & Hd).
  destruct (next_snapshot_spec now s entry H) as (m' & Hm' & Ho & _). rewrite Hm in Hm'.
  apply Ok_inj in Hm' as <-. apply (next_snapshot_keys _ _ _ _ _ Hs) in Hm.
  apply perform_ok, dispatch_frame in Hd. destruct (Hd Ho) as (_ & _ & extra & He & Hx).
  pose proof (writes_bounded (entry.["event"] ||? entry)) as Hw. rewrite forallb_forall in Hw.
  assert (forall k, mem_key k (writes (entry.["event"] ||? entry)) = true -> mem_key k written_keys = true) as Hsub.
  { intros k (k' & Hin & ->%String.eqb_eq)%existsb_exists. by apply Hw. }
  destruct Hs as [(extra0 & Hk & Hx0) Hid]. split.
  - exists (extra0 ++ extra). rewrite He, Hm, Hk, <- app_assoc. split; [done|].
    apply Forall_app. split; [done|]. eapply Forall_impl; [exact Hx|]. simpl. auto.
  - rewrite Hg; [done| |not_copied]. destruct (mem_key "id" _) eqn:E; [|done].
    apply Hsub in E. discriminate E.
Qed.

(** An entry with a usable time stamp is applied the same way at any time. *)
Definition timed (entry : js) : bool :=
  truthy entry.["ts"] && truthy (JNum (date_parse (to_str entry.["ts"]))).

Lemma or_else_truthy v d : truthy v = true -> or_else v d = v.
Proof. intros H. unfold or_else. by rewrite H. Qed.

Lemma applyEvent_timed t t' s entry : timed entry = true -> applyEvent t s entry = applyEvent t' s entry.
Proof.
  unfold timed. intros [Hts Hd]%andb_true_iff.
  assert (forall event, event_time t event entry = event_time t' event entry) as Het.
  { intros event. unfold event_time. by rewrite (or_else_truthy entry.["ts"]), !(or_else_truthy (JNum _)). }
  assert (next_snapshot t s entry = next_snapshot t' s entry) as Hn.
  { unfold next_snapshot. by rewrite !(or_else_truthy entry.["ts"]). }
  unfold applyEvent. rewrite Hn. destruct (next_snapshot t' s entry) as [n|]; [|done].
  cbn [mbind result_bind]. cbv zeta. unfold perform, dispatch, on_variants_ready, on_variant_mount_failed, on_accept, on_discard.
  by rewrite Het.
Qed.

(** ** What of an event a snapshot depends on *)

(** The events a snapshot keeps whole. *)
Definition stored_whole (event : js) : bool :=
  has_str ["generate"; "variant_mount_failed"; "accept"; "accept_intent"; "manual_edit_apply"; "steer"; "carbonize_cleanup"; "discard"] event.["type"].

(** Of the other events only the fields count. *)
Lemma applyEvent_fields t s entry entry' :
  (forall k, (event_of entry').[k] = (event_of entry).[k]) -> entry'.["seq"] = entry.["seq"] -> entry'.["ts"] = entry.["ts"] ->
  (stored_whole (event_of entry) = true -> event_of entry' = event_of entry) -> applyEvent t s entry' = applyEvent t s entry.
Proof.
  intros Hk Hseq Hts Hw. unfold applyEvent. fold (event_of entry') (event_of entry). revert Hk Hw. generalize (event_of entry') (event_of entry). intros ev' ev Hk Hw.
  assert (next_snapshot t s entry' = next_snapshot t s entry) as -> by (unfold next_snapshot; by rewrite Hts).
  destruct (next_snapshot t s entry) as [n|]; [|done]. cbn [mbind result_bind].
  assert (forall e, event_time t e entry' = event_time t e entry) as Hte by (intros e; unfold event_time; by rewrite Hts).
  assert (event_time t ev' entry = event_time t ev entry) as Hev by (unfold event_time; by rewrite Hk).
  assert (ack_variant ev' = ack_variant ev) as Hack by (unfold ack_variant; by rewrite Hk).
  assert (revision_is_publication ev' = revision_is_publication ev) as Hrev by (unfold revision_is_publication; by rewrite !Hk).
  assert (converted n ev' entry' = converted n ev entry) as Hconv by (unfold converted; by rewrite !Hk, Hts, Hack, Hrev).
  unfold perform. rewrite Hconv. destruct (forallb _ _); [|done].
  assert (forall x, ev.["type"] === JStr x = true -> existsb (String.eqb x) ["generate"; "variant_mount_failed"; "accept"; "accept_intent"; "manual_edit_apply"; "steer"; "carbonize_cleanup"; "discard"] = true -> ev' = ev) as Hsame.
  { intros x Hx%strict_eq_str Hin. apply Hw. unfold stored_whole. rewrite Hx. exact Hin. }
  unfold dispatch. rewrite !Hk.
  destruct (ev.["type"] === JStr "generate") eqn:E1; [rewrite (Hsame _ E1 eq_refl); unfold on_generate; by rewrite Hseq|].
  destruct (ev.["type"] === JStr "variant_plan"); [unfold on_variant_plan; by rewrite !Hk|].
  destruct (ev.["type"] === JStr "detector_waivers"); [unfold on_detector_waivers; by rewrite !Hk|].
  destruct (ev.["type"] === JStr "agent_phase"); [unfold on_agent_phase; by rewrite !Hk, Hts|].
  destruct (_ || _); [unfold on_variants_ready; by rewrite Hte, Hev, !Hk|].
  destruct (ev.["type"] === JStr "variant_mounted"); [unfold on_variant_mounted, malformed_ack; by rewrite Hack, !Hk|].
  destruct (ev.["type"] === JStr "variant_mount_failed") eqn:E2; [rewrite (Hsame _ E2 eq_refl); unfold on_variant_mount_failed; by rewrite Hte|].
  destruct (ev.["type"] === JStr "checkpoint"); [unfold on_checkpoint; by rewrite Hrev, !Hk|].
  destruct (_ || _) eqn:E3.
  { assert (ev' = ev) as -> by (apply orb_true_iff in E3 as [E|E]; exact (Hsame _ E eq_refl)). unfold on_accept. by rewrite Hte, Hseq. }
  destruct (ev.["type"] === JStr "manual_edit_apply") eqn:E4; [rewrite (Hsame _ E4 eq_refl); unfold on_page_request; by rewrite Hseq|].
  destruct (ev.["type"] === JStr "steer") eqn:E5; [rewrite (Hsame _ E5 eq_refl); unfold on_page_request; by rewrite Hseq|].
  destruct (ev.["type"] === JStr "carbonize_cleanup") eqn:E6; [rewrite (Hsame _ E6 eq_refl); unfold on_carbonize_cleanup; by rewrite Hseq|].
  destruct (ev.["type"] === JStr "steer_done"); [unfold on_steer_done; by rewrite !Hk|].
  destruct (ev.["type"] === JStr "discard") eqn:E7; [rewrite (Hsame _ E7 eq_refl); unfold on_discard; by rewrite Hte, Hseq|].
  destruct (ev.["type"] === JStr "discarded"); [done|].
  destruct (ev.["type"] === JStr "complete"); [unfold on_complete; by rewrite !Hk|].
  destruct (ev.["type"] === JStr "agent_error"); [unfold on_agent_error; by rewrite !Hk|]. done.
Qed.
