(* ===== verification/SessionJournal.v ===== *)
(** * The session store ([live/session-store.mjs], I/O part)

    The journal of a session is an append-only text file, one JSON entry per
    line. The store caches what it derived from a journal, in memory and in a
    snapshot file, and answers from a cache only while the journal's stamp
    matches. The model is a state of files, cache and clock; the theorems show
    that the caches are transparent: a read answers what a replay of the journal
    gives. *)
From S2P Require Import Prelude JsString JsValue Json JsRegex JsDate NodePath SessionStore.
Local Open Scope Z_scope.
Local Open Scope re_scope.

Definition META_JOURNAL_BYTES : string := "__journalBytes".
Definition META_NEXT_SEQ : string := "__nextSeq".

(** ** The world: files, the in-memory cache, the clock *)

Record file := File { text : string; mtimeMs : Z }.

Record entry := Entry {
  e_snapshot : js; e_nextSeq : Z; e_journalPath : string; e_size : Z; e_mtimeMs : Z }.

Record world := World {
  files : gmap string file;
  derived : gmap string entry;
  now : Z }.

Definition set_files (w : world) (fs : gmap string file) : world := World fs (derived w) (now w).
Definition set_derived (w : world) (d : gmap string entry) : world := World (files w) d (now w).

Notation act := (eff world).

Definition existsSync (p : string) (w : world) : bool := bool_decide (is_Some (files w !! p)).
Definition writeFileSync (p : string) (s : string) (w : world) : world :=
  set_files w (<[p := File s (now w)]> (files w)).
Definition appendFileSync (p : string) (s : string) (w : world) : world :=
  set_files w (<[p := File (match files w !! p with Some f => text f | None => "" end +:+ s) (now w)]> (files w)).
Definition copyFileSync (from to : string) (w : world) : world :=
  match files w !! from with Some f => writeFileSync to (text f) w | None => w end.

(** [stat.size] and [stat.mtimeMs]; the code uses -1 for both when there is no file. *)
Definition stat_size (p : string) (w : world) : Z :=
  match files w !! p with Some f => utf8_size (text f) | None => -1 end.
Definition stat_mtime (p : string) (w : world) : Z :=
  match files w !! p with Some f => mtimeMs f | None => -1 end.

(** ** Identity *)

Definition is_id_char (c : ascii) : bool := is_word c || Ascii.eqb c "-".
Definition SESSION_ID_PATTERN : re := RBol ⋅ rtimes 1 128 (RClass is_id_char) ⋅ REol.

Definition safeSessionId (id : string) : result string :=
  if re_test SESSION_ID_PATTERN id then Ok id
  else Throw (error ("invalid session id: " +:+ id)).

Definition normalizeEvent (event : js) (fallbackId : js) : result js :=
  if negb (truthy event) || negb (is_objecty event) then Throw (error "event object required") else
  let id := event.["id"] ||? fallbackId in
  if negb (truthy id) || negb (is_string id) then Throw (error "event id required") else
  if negb (truthy event.["type"]) || negb (is_string event.["type"])
  then Throw (error "event type required") else
  mret (spread_with event [("id", id)]).

Definition getJournalPath (rootDir id : string) : result string :=
  id ← safeSessionId id; mret (path_join [rootDir; id +:+ ".jsonl"]).
Definition getSnapshotPath (rootDir id : string) : result string :=
  id ← safeSessionId id; mret (path_join [rootDir; id +:+ ".snapshot.json"]).

(** ** Replay *)

Record replayed := Replayed { r_snapshot : js; r_diagnostics : list js; r_nextSeq : Z }.

Section Store.
(** The engine's message for a line that is not JSON. *)
Variable syntax_message : string -> string.
Variables rootDir legacyRootDir : string.
Variable sessionId : js.

Definition parse_entry (line : string) : result js :=
  match json_parse line with
  | None => Throw (error (syntax_message line))
  | Some entry =>
    if negb (truthy entry) || negb (is_objecty entry) then Throw (error "entry is not object")
    else mret entry
  end.

(** One iteration of the loop over the lines; [i] is the 0-based line number. A throw
    of [applyEvent] leaves the already advanced [nextSeq]. *)
Definition replay_line (t : Z) (st : replayed) (i : Z) (line : string) : replayed :=
  if String.eqb (trim line) "" then st else
  let failed (nextSeq : Z) (err : js_error) :=
    Replayed (r_snapshot st)
      (r_diagnostics st ++ [JObj [("error", JStr "journal_parse_failed"); ("line", int (i + 1));
                                  ("message", JStr (err_message err))]]) nextSeq in
  match parse_entry line with
  | Throw err => failed (r_nextSeq st) err
  | Ok entry =>
    let nextSeq := match entry.["seq"] with
                   | JNum (NInt z) => Z.max (r_nextSeq st) (z + 1)
                   | _ => r_nextSeq st end in
    match applyEvent t (r_snapshot st) entry with
    | Ok s => Replayed s (r_diagnostics st) nextSeq
    | Throw err => failed nextSeq err
    end
  end.

Fixpoint replay_lines (t : Z) (st : replayed) (i : Z) (lines : list string) : replayed :=
  match lines with
  | [] => st
  | line :: lines => replay_lines t (replay_line t st i line) (i + 1) lines
  end.

Definition rebuild_text (t : Z) (id : string) (s : string) : replayed :=
  let st := replay_lines t (Replayed (baseSnapshot (JStr id)) [] 1) 0 (split_lines s) in
  Replayed ((r_snapshot st).["diagnostics" :=
              JArr (arr_of (r_snapshot st).["diagnostics"] ++ r_diagnostics st)])
           (r_diagnostics st) (r_nextSeq st).

Definition rebuildSnapshotFromJournal (journalPath id : string) (w : world) : replayed :=
  match files w !! journalPath with
  | None => Replayed (baseSnapshot (JStr id)) [] 1
  | Some f => rebuild_text (now w) id (text f)
  end.

(** ** Snapshot files *)

Definition writeSnapshot (snapshotPath : string) (snapshot : js) (journalBytes nextSeq : Z) : act unit :=
  let payload := spread_with snapshot [(META_JOURNAL_BYTES, int journalBytes); (META_NEXT_SEQ, int nextSeq)] in
  upd (writeFileSync snapshotPath (json_stringify2 payload +:+ s_nl)).

Definition hydrate_text (s : string) (id : string) (journalBytes : Z) : option (js * Z) :=
  match json_parse s with
  | None => None
  | Some parsed =>
    if negb (truthy parsed) || negb (is_objecty parsed) then None else
    if negb (parsed.[META_JOURNAL_BYTES] === int journalBytes) then None else
    match parsed.[META_NEXT_SEQ] with
    | JNum (NInt nextSeq) =>
      let parsed := jdel (jdel parsed META_JOURNAL_BYTES) META_NEXT_SEQ in
      if negb (parsed.["id"] === JStr id) then None
      else Some (spread_with (baseSnapshot (JStr id)) (own_props parsed), nextSeq)
    | _ => None
    end
  end.

Definition readSnapshotFile (snapshotPath id : string) (journalBytes : Z) (w : world) : option (js * Z) :=
  match files w !! snapshotPath with
  | None => None
  | Some f => hydrate_text (text f) id journalBytes
  end.

(** ** The store's operations *)

Definition getReadableJournalPath (id : string) : act string :=
  primary ← lift (getJournalPath rootDir id);
  at_primary ← get (existsSync primary);
  if at_primary : bool then mret primary else
  legacy ← lift (getJournalPath legacyRootDir id);
  at_legacy ← get (existsSync legacy);
  mret (if at_legacy : bool then legacy else primary).

Definition remember (id : string) (e : entry) : act entry :=
  _ ← upd (fun w => set_derived w (<[id := e]> (derived w))); mret e.

Definition is_current (e : entry) (journalPath : string) (size mtime : Z) : bool :=
  String.eqb (e_journalPath e) journalPath && (e_size e =? size) && (e_mtimeMs e =? mtime).

(** The full replay at the end of [readState]. *)
Definition replayed_state (journalPath id : string) (size mtime : Z) : act entry :=
  rebuilt ← get (rebuildSnapshotFromJournal journalPath id);
  remember id (Entry (r_snapshot rebuilt) (r_nextSeq rebuilt) journalPath size mtime).

(** [readState] past the in-memory cache. *)
Definition uncached_state (journalPath id : string) (size mtime : Z) (allowSnapshotFile : bool) : act entry :=
  stat ← get (existsSync journalPath);
  if allowSnapshotFile && stat then
    snapshotPath ← lift (getSnapshotPath rootDir id);
    hydrated ← get (readSnapshotFile snapshotPath id size);
    match hydrated with
    | Some (snapshot, nextSeq) => remember id (Entry snapshot nextSeq journalPath size mtime)
    | None => replayed_state journalPath id size mtime
    end
  else replayed_state journalPath id size mtime.

Definition readState (id : string) (allowSnapshotFile : bool) : act entry :=
  journalPath ← getReadableJournalPath id;
  size ← get (stat_size journalPath);
  mtime ← get (stat_mtime journalPath);
  cached ← get (fun w => derived w !! id);
  match cached with
  | Some e => if is_current e journalPath size mtime then mret e
              else uncached_state journalPath id size mtime allowSnapshotFile
  | None => uncached_state journalPath id size mtime allowSnapshotFile
  end.

Definition persist (id : string) (snapshot : js) (nextSeq : Z) : act unit :=
  snapshotPath ← lift (getSnapshotPath rootDir id);
  journalPath ← getReadableJournalPath id;
  size ← get (stat_size journalPath);
  mtime ← get (stat_mtime journalPath);
  _ ← writeSnapshot snapshotPath snapshot size nextSeq;
  _ ← remember id (Entry snapshot nextSeq journalPath size mtime);
  mret tt.

Definition journal_entry (seq : Z) (event : js) (t : Z) : js :=
  JObj [("seq", int seq); ("id", event.["id"]); ("type", event.["type"]);
        ("ts", JStr (to_iso t)); ("event", event)].

(** [appendEvent] up to the write, and from there on: nothing keeps another process from writing to the journal between
    the two. *)
Definition append_prior (event : js) : act (js * entry) :=
  normalized ← lift (normalizeEvent event sessionId);
  let id := to_str normalized.["id"] in
  journalPath ← lift (getJournalPath rootDir id);
  legacyJournalPath ← lift (getJournalPath legacyRootDir id);
  missing ← get (fun w => negb (existsSync journalPath w) && existsSync legacyJournalPath w);
  _ ← (if missing : bool
       then upd (fun w => set_derived (copyFileSync legacyJournalPath journalPath w)
                            (delete id (derived w)))
       else mret tt);
  prior ← readState id true;
  mret (normalized, prior).
Definition append_line (normalized : js) (prior : entry) : act js :=
  let id := to_str normalized.["id"] in
  journalPath ← lift (getJournalPath rootDir id);
  t ← get now;
  let entry := journal_entry (e_nextSeq prior) normalized t in
  _ ← upd (appendFileSync journalPath (json_stringify entry +:+ s_nl));
  next ← lift (applyEvent t (e_snapshot prior) entry);
  _ ← persist id next (e_nextSeq prior + 1);
  mret next.
Definition appendEvent (event : js) : act js :=
  p ← append_prior event; append_line p.1 p.2.

Definition has (id : js) : act bool :=
  match id with
  | JStr s =>
    if String.eqb s "" then mret false else
    primary ← lift (getJournalPath rootDir s);
    at_primary ← get (existsSync primary);
    if at_primary : bool then mret true else
    legacy ← lift (getJournalPath legacyRootDir s);
    get (existsSync legacy)
  | _ => mret false
  end.

(** [None] is the [null] answered for a completed session. *)
Definition getSnapshot (id : string) (includeCompleted : bool) : act (option js) :=
  if String.eqb id "" then lift (Throw (error "session id required")) else
  st ← readState id true;
  mret (if negb includeCompleted && Vocabulary.has_str COMPLETED_PHASES (e_snapshot st).["phase"]
        then None else Some (e_snapshot st)).

Definition flush (id : string) : act js :=
  if String.eqb id "" then lift (Throw (error "session id required")) else
  st ← readState id false;
  _ ← persist id (e_snapshot st) (e_nextSeq st);
  mret (e_snapshot st).

(** The names in a directory: the paths [dir/name]. *)
Definition readdirSync (dir : string) (w : world) : list string :=
  omap (fun p => if String.eqb (dirname p) dir then Some (basename p) else None)
       (fst <$> map_to_list (files w)).

Definition journal_ids (w : world) : list string :=
  remove_dups (omap (fun name => if ends_with ".jsonl" name
                                 then Some (stake (slen name - 6) name) else None)
                    (readdirSync legacyRootDir w ++ readdirSync rootDir w)).

Fixpoint snapshots (ids : list string) : act (list js) :=
  match ids with
  | [] => mret []
  | id :: ids => s ← getSnapshot id false; rest ← snapshots ids;
                 mret (match s with Some s => s :: rest | None => rest end)
  end.

Definition listActiveSessions : act (list js) :=
  ids ← get journal_ids;
  snapshots (merge_sort (fun a b => Is_true (string_leb a b)) ids).
End Store.

(** ** The specification: a session is a fold over its journal *)

(** The entries of a journal the store wrote: JSON values that come back unchanged, stamped. *)
Definition clean (v : js) : Prop := json_ok v /\ json_norm v = v.
Record good_entry (e : js) : Prop := {
  good_obj : is_obj e = true; good_clean : clean e; good_timed : timed e = true }.

Definition next_seq (q : Z) (entry : js) : Z :=
  match entry.["seq"] with JNum (NInt z) => Z.max q (z + 1) | _ => q end.

Fixpoint replay_from (t : Z) (s : js) (q : Z) (es : list js) {struct es} : result (js * Z) :=
  match es with
  | [] => Ok (s, q)
  | e :: es =>
    match applyEvent t s e with
    | Ok s' => replay_from t s' (next_seq q e) es
    | Throw err => Throw err
    end
  end.
Definition replay (t : Z) (id : string) (es : list js) : result (js * Z) :=
  replay_from t (baseSnapshot (JStr id)) 1 es.

Fixpoint journal_text (es : list js) : string :=
  match es with
  | [] => ""
  | e :: es => json_stringify e +:+ s_nl +:+ journal_text es
  end.

Lemma replay_from_facts t s q es id s' q' : snapshot_ok s -> session_shape id s ->
  replay_from t s q es = Ok (s', q') -> snapshot_ok s' /\ session_shape id s' /\ q <= q'.
Proof.
  revert s q; induction es as [|e es IH]; intros s q Hs Hsh; simpl.
  { intros [= <- <-]. split_and!; try done; lia. }
  destruct (applyEvent t s e) as [s1|] eqn:Ha; [|done]. intros Hr.
  destruct (IH s1 (next_seq q e)) as (? & ? & Hq); [by eapply applyEvent_keeps|by eapply applyEvent_shape|done|].
  split_and!; try done. unfold next_seq in Hq. revert Hq.
  destruct e.["seq"] as [| | |[]| | |]; lia.
Qed.

Lemma replay_facts t id es s q : replay t id es = Ok (s, q) -> snapshot_ok s /\ session_shape id s /\ 1 <= q.
Proof. apply replay_from_facts; [apply baseSnapshot_ok|apply baseSnapshot_shape]. Qed.

Lemma replay_from_app t s q es1 es2 :
  replay_from t s q (es1 ++ es2) = (st ← replay_from t s q es1; replay_from t st.1 st.2 es2).
Proof.
  revert s q; induction es1 as [|e es1 IH]; intros s q; [done|]. simpl.
  destruct (applyEvent t s e); [|done]. apply IH.
Qed.

Lemma replay_from_time t t' s q es : Forall good_entry es -> replay_from t s q es = replay_from t' s q es.
Proof.
  intros H; revert s q; induction H as [|e es He _ IH]; intros s q; [done|]. simpl.
  rewrite (applyEvent_timed t t') by apply He. by destruct (applyEvent t' s e).
Qed.

(** *** Journal text *)

Lemma journal_text_app es1 es2 : journal_text (es1 ++ es2) = journal_text es1 +:+ journal_text es2.
Proof. induction es1 as [|e es1 IH]; simpl; [done|]. by rewrite IH, sapp_assoc. Qed.

Lemma trim_start_end a c : is_space c = false -> exists b d, trim_start (a +:+ String c "") = String b d.
Proof.
  intros Hc. induction a as [|x a IH]; simpl; [rewrite Hc; eauto|]. destruct (is_space x); eauto.
Qed.

Lemma trim_head c s : is_space c = false -> trim (String c s) <> "".
Proof.
  intros Hc. unfold trim, trim_end. cbn [trim_start]. rewrite Hc, srev_cons.
  destruct (trim_start_end (srev s) c Hc) as (b & d & ->). rewrite srev_cons.
  by destruct (srev d).
Qed.

Lemma good_line e : good_entry e ->
  no_char NL (json_stringify e) = true /\ String.eqb (trim (json_stringify e)) "" = false /\
  json_parse (json_stringify e) = Some e.
Proof.
  intros [Ho [Hj Hn] _]. split_and!.
  - by apply print_compact_no_nl.
  - apply String.eqb_neq. unfold json_stringify.
    destruct (print_value_not_blank "" "" e Hj (or_introl Ho)) as [s [-> | ->]]; by apply trim_head.
  - unfold json_stringify. rewrite parse_print by done. by rewrite Hn.
Qed.

Lemma split_journal es : Forall good_entry es -> split_lines (journal_text es) = (json_stringify <$> es) ++ [""].
Proof.
  induction 1 as [|e es He _ IH]; [done|]. destruct (good_line e He) as (Hnl & _). cbn [journal_text].
  unfold split_lines in *. change (s_nl +:+ journal_text es) with (String NL (journal_text es)).
  by rewrite split_char_cons, IH, fmap_cons.
Qed.

Lemma replay_lines_good syn t s q es i s' q' : Forall good_entry es ->
  replay_from t s q es = Ok (s', q') ->
  replay_lines syn t (Replayed s [] q) i ((json_stringify <$> es) ++ [""]) = Replayed s' [] q'.
Proof.
  intros H; revert s q i; induction H as [|e es He _ IH]; intros s q i; [by intros [= -> ->]|].
  rewrite fmap_cons. cbn [app replay_lines replay_from].
  destruct (applyEvent t s e) as [s1|] eqn:Ha; [|done]. intros Hr. destruct (good_line e He) as (_ & Hb & Hp).
  assert (replay_line syn t (Replayed s [] q) i (json_stringify e) = Replayed s1 [] (next_seq q e)) as ->.
  { unfold replay_line, parse_entry. rewrite Hb, Hp. destruct He as [Ho _ _].
    destruct e; try discriminate Ho. cbn [truthy negb is_objecty typeof orb mret result_ret r_snapshot r_diagnostics r_nextSeq].
    rewrite Ha. done. }
  by apply IH.
Qed.

Lemma jset_same o k : is_obj o = true -> k ∈ obj_keys o -> o.[k := o.[k]] = o.
Proof.
  destruct o as [| | | | | |l]; try done. intros _ H. simpl in *. f_equal.
  induction l as [|[k' v] l IH]; [by apply elem_of_nil in H|]. simpl.
  destruct (String.eqb_spec k k') as [->|Hne]; [done|].
  f_equal. apply IH. unfold obj_keys in *. simpl in *. by apply elem_of_cons in H as [|].
Qed.

Lemma shape_has id s k : session_shape id s -> k ∈ base_keys -> k ∈ obj_keys s.
Proof. intros [(extra & -> & _) _] H. apply elem_of_app. by left. Qed.

(** On a good journal, [rebuildSnapshotFromJournal] is the fold. *)
Lemma rebuild_good syn t id es s q : Forall good_entry es -> replay t id es = Ok (s, q) ->
  rebuild_text syn t id (journal_text es) = Replayed s [] q.
Proof.
  intros He Hr. unfold rebuild_text. rewrite split_journal by done.
  rewrite (replay_lines_good _ _ _ _ _ _ _ _ He Hr). cbn [r_snapshot r_diagnostics r_nextSeq].
  destruct (replay_facts t id es s q Hr) as (Hok & Hsh & _). destruct (ok_diagnostics s (ok_fields _ Hok)) as [l Hl].
  rewrite app_nil_r, Hl. cbn [arr_of]. rewrite <- Hl, jset_same; [done|by apply ok_obj, ok_fields|].
  apply (shape_has _ _ _ Hsh). apply (bool_decide_unpack _). vm_compute. exact I.
Qed.

(** *** Snapshot files *)

Definition payload (s : js) (bytes q : Z) : js :=
  spread_with s [(META_JOURNAL_BYTES, int bytes); (META_NEXT_SEQ, int q)].

Lemma shape_no_meta id s k : session_shape id s -> mem_key k written_keys = false ->
  bool_decide (k ∈ base_keys) = false -> assoc_get k (own_props s) = None.
Proof.
  intros [(extra & Hk & Hx) _] Hw Hb. apply assoc_get_None. fold (obj_keys s). rewrite Hk.
  rewrite elem_of_app. apply bool_decide_eq_false in Hb. intros [H|H]; [done|].
  rewrite Forall_forall in Hx. apply Hx in H. congruence.
Qed.

Lemma payload_props id s bytes q : session_shape id s ->
  payload s bytes q = JObj (own_props s ++ [(META_JOURNAL_BYTES, int bytes); (META_NEXT_SEQ, int q)]).
Proof.
  intros Hs. unfold payload, spread_with, assoc_merge. cbn [foldl fst snd].
  rewrite (assoc_set_fresh META_JOURNAL_BYTES) by (by apply (shape_no_meta id)).
  rewrite assoc_set_fresh; [by rewrite <- app_assoc|].
  apply assoc_get_None. rewrite keys_app, elem_of_app. intros [H|H].
  - revert H. apply assoc_get_None. by apply (shape_no_meta id).
  - apply elem_of_cons in H as [H|H]; [discriminate H|by apply elem_of_nil in H].
Qed.

(** A snapshot file answers only for the journal size it was written at, and
    then with the state that was written. *)
Lemma hydrate_payload id s bytes q n : is_obj s = true -> session_shape id s -> clean (payload s bytes q) ->
  hydrate_text (json_stringify2 (payload s bytes q) +:+ s_nl) id n =
  if bytes =? n then Some (s, q) else None.
Proof.
  intros Ho Hsh [Hj Hn]. unfold hydrate_text, json_stringify2. rewrite parse_print_nl, Hn by done.
  rewrite (payload_props id) by done.
  assert (NoDup (keys (own_props s ++ [(META_JOURNAL_BYTES, int bytes); (META_NEXT_SEQ, int q)]))) as Hd
    by (rewrite (payload_props id) in Hj by done; by apply Hj).
  pose proof (shape_no_meta id s META_JOURNAL_BYTES Hsh eq_refl eq_refl) as Hb.
  pose proof (shape_no_meta id s META_NEXT_SEQ Hsh eq_refl eq_refl) as Hq.
  cbn [truthy negb is_objecty typeof orb jget]. rewrite !assoc_get_app, Hb, Hq.
  change (assoc_get META_JOURNAL_BYTES _) with (Some (int bytes)).
  change (assoc_get META_NEXT_SEQ _) with (Some (int q)).
  cbn [default from_option Datatypes.id strict_eq]. rewrite num_eqb_int. destruct (bytes =? n); [|done]. cbn [negb jdel].
  rewrite !assoc_del_app, (assoc_del_fresh META_JOURNAL_BYTES (own_props s)), (assoc_del_fresh META_NEXT_SEQ (own_props s)) by done.
  change (assoc_del META_NEXT_SEQ (assoc_del META_JOURNAL_BYTES _)) with (@nil (string * js)).
  assert (JObj (own_props s) = s) as Hs by (by destruct s).
  rewrite app_nil_r, Hs, (shape_id _ _ Hsh). cbn [strict_eq]. rewrite String.eqb_refl. cbn [negb].
  destruct Hsh as [(extra & Hk & _) _]. do 2 f_equal. transitivity (JObj (own_props s)); [|done]. unfold spread_with. f_equal.
  apply (assoc_merge_cover _ _ extra); [|exact Hk].
  rewrite keys_app in Hd. by apply NoDup_app in Hd as [? _].
Qed.

(** ** Cache coherence *)

Lemma safeSessionId_spec id id' : safeSessionId id = Ok id' ->
  id' = id /\ sforall is_id_char id = true /\ (1 <= slen id <= 128)%nat.
Proof.
  unfold safeSessionId, SESSION_ID_PATTERN. rewrite re_test_class by lia.
  destruct (sforall is_id_char id && _ && _) eqn:E; [|done]. intros <-%Ok_inj.
  split_bools. apply Nat.leb_le in H0, H1. auto with lia.
Qed.

Lemma id_file_plain id suffix : sforall is_id_char id = true -> (1 <= slen id)%nat ->
  (2 <= slen suffix)%nat -> no_char SLASH suffix = true -> plain_seg (id +:+ suffix) = true.
Proof.
  intros Hc Hl Hs Hn. unfold plain_seg.
  assert (forall s, (slen s <= 2)%nat -> String.eqb (id +:+ suffix) s = false) as Hne.
  { intros s ?. apply String.eqb_neq. intros E. apply (f_equal slen) in E. rewrite slen_app in E. lia. }
  rewrite !Hne by (simpl; lia). unfold no_char in *. rewrite sforall_app, Hn.
  cbn [negb andb]. rewrite andb_true_r. clear -Hc. induction id as [|c id IH]; [done|]. cbn [sforall] in *.
  apply andb_true_iff in Hc as [Hc Hs]. rewrite IH, andb_true_r by done.
  apply negb_true_iff, Ascii.eqb_neq. intros ->. discriminate.
Qed.

Section Coherence.
Context (syn : string -> string) (R L : list string) (sessionId : js).
Context (HR : Forall (fun s => plain_seg s = true) R) (HL : Forall (fun s => plain_seg s = true) L).

Let rootDir : string := of_segs R.
Let legacyRootDir : string := of_segs L.
Definition journal_path (id : string) : string := of_segs (R ++ [id +:+ ".jsonl"]).
Definition legacy_path (id : string) : string := of_segs (L ++ [id +:+ ".jsonl"]).
Definition snapshot_path (id : string) : string := of_segs (R ++ [id +:+ ".snapshot.json"]).

Context (id : string) (Hid : safeSessionId id = Ok id).

Lemma id_plain suffix : (2 <= slen suffix)%nat -> no_char SLASH suffix = true ->
  plain_seg (id +:+ suffix) = true.
Proof. destruct (safeSessionId_spec _ _ Hid) as (_ & Hc & Hl). apply id_file_plain; [done|lia]. Qed.

Lemma getJournalPath_ok : getJournalPath rootDir id = Ok (journal_path id).
Proof.
  unfold getJournalPath. rewrite Hid. cbn [mbind result_bind]. unfold rootDir.
  rewrite path_join_file; [done..|]. apply id_plain; [simpl; lia|done].
Qed.
Lemma getLegacyPath_ok : getJournalPath legacyRootDir id = Ok (legacy_path id).
Proof.
  unfold getJournalPath. rewrite Hid. cbn [mbind result_bind]. unfold legacyRootDir.
  rewrite path_join_file; [done..|]. apply id_plain; [simpl; lia|done].
Qed.
Lemma getSnapshotPath_ok : getSnapshotPath rootDir id = Ok (snapshot_path id).
Proof.
  unfold getSnapshotPath. rewrite Hid. cbn [mbind result_bind]. unfold rootDir.
  rewrite path_join_file; [done..|]. apply id_plain; [simpl; lia|done].
Qed.

Lemma file_segs_inj A B a b :
  Forall (fun s => plain_seg s = true) A -> Forall (fun s => plain_seg s = true) B ->
  plain_seg a = true -> plain_seg b = true ->
  of_segs (A ++ [a]) = of_segs (B ++ [b]) -> A = B /\ a = b.
Proof.
  intros HA HB Ha Hb H. apply of_segs_inj in H; [by apply app_inj_tail in H as [-> ->]|..];
    apply Forall_app; split; repeat constructor; done.
Qed.

Lemma suffix_ne : id +:+ ".jsonl" <> id +:+ ".snapshot.json".
Proof. intros H. apply (f_equal (sdrop (slen id))) in H. rewrite !sdrop_app in H. discriminate. Qed.

Lemma journal_ne_snapshot : journal_path id <> snapshot_path id.
Proof.
  intros [_ ?]%file_segs_inj; try done; try (apply id_plain; [simpl; lia|done]). by apply suffix_ne.
Qed.
Lemma legacy_ne_snapshot : legacy_path id <> snapshot_path id.
Proof.
  intros [_ ?]%file_segs_inj; try done; try (apply id_plain; [simpl; lia|done]). by apply suffix_ne.
Qed.

(** The journal a read uses: the primary one, or the legacy one while only it exists. *)
Definition readable (w : world) : string :=
  if existsSync (journal_path id) w then journal_path id
  else if existsSync (legacy_path id) w then legacy_path id else journal_path id.

Lemma getReadable_ok w : getReadableJournalPath rootDir legacyRootDir id w = (Ok (readable w), w).
Proof.
  unfold getReadableJournalPath, readable, mbind, eff_bind, lift, get.
  rewrite getJournalPath_ok. destruct (existsSync (journal_path id) w); [done|].
  rewrite getLegacyPath_ok. by destruct (existsSync (legacy_path id) w).
Qed.

Definition describes (es : list js) (size : Z) (s : js) (q : Z) : Prop :=
  (size = -1 /\ replay 0 id [] = Ok (s, q)) \/
  exists k, size = utf8_size (journal_text (take k es)) /\ replay 0 id (take k es) = Ok (s, q).

(** The journal holds the entries [es], and every cached state is the replay
    of the prefix of [es] it was stamped with. *)
Record coherent (es : list js) (w : world) : Prop := {
  co_replays : is_ok (replay 0 id es) = true;
  co_good : Forall good_entry es;
  co_text : match files w !! readable w with
            | Some f => text f = journal_text es | None => es = [] end;
  co_cache : forall e, derived w !! id = Some e -> describes es (e_size e) (e_snapshot e) (e_nextSeq e);
  co_file : forall f n s q, files w !! snapshot_path id = Some f ->
    hydrate_text (text f) id n = Some (s, q) -> describes es n s q }.

Lemma describes_app es es' size s q : describes es size s q -> describes (es ++ es') size s q.
Proof.
  intros [H|(k & H1 & H2)]; [by left|right]. exists (k `min` length es)%nat.
  rewrite take_app_le by lia. assert (take (k `min` length es) es = take k es) as ->; [|done].
  rewrite <- take_take. by rewrite (firstn_all es).
Qed.

Lemma journal_text_pos e es : Forall good_entry (e :: es) -> 0 < utf8_size (journal_text (e :: es)).
Proof.
  intros _. cbn [journal_text]. apply utf8_size_pos.
  destruct (json_stringify e); discriminate.
Qed.

Lemma take_size k es : Forall good_entry es ->
  utf8_size (journal_text (take k es)) = utf8_size (journal_text es) -> take k es = es.
Proof.
  intros Hg. rewrite <- (take_drop k es) at 2. rewrite journal_text_app, utf8_size_app.
  destruct (drop k es) as [|e es'] eqn:E.
  - intros _. rewrite <- (take_drop k es) at 2. by rewrite E, app_nil_r.
  - assert (Forall good_entry (e :: es')) as Hp by (rewrite <- E; by apply Forall_drop).
    pose proof (journal_text_pos e es' Hp). lia.
Qed.

Lemma stat_size_readable es w : coherent es w ->
  stat_size (readable w) w = -1 /\ es = [] /\ files w !! readable w = None \/
  stat_size (readable w) w = utf8_size (journal_text es) /\ is_Some (files w !! readable w).
Proof.
  intros H. pose proof (co_text _ _ H) as Ht. unfold stat_size.
  destruct (files w !! readable w) as [f|]; [right|by left]. rewrite Ht. eauto.
Qed.

(** A stamp that matches the journal as it stands proves the state current. *)
Lemma describes_current es w s q : coherent es w ->
  describes es (stat_size (readable w) w) s q -> replay 0 id es = Ok (s, q).
Proof.
  intros H Hd. pose proof (utf8_size_nonneg (journal_text es)).
  destruct (stat_size_readable es w H) as [(Hs & -> & _)|[Hs _]]; rewrite Hs in Hd.
  - destruct Hd as [[_ Hd]|(k & _ & Hd)]; [done|]. by rewrite take_nil in Hd.
  - destruct Hd as [[? _]|(k & Hk & Hd)]; [lia|].
    by rewrite (take_size k es) in Hd by (try done; apply H).
Qed.

Lemma describes_self es w s q : coherent es w -> replay 0 id es = Ok (s, q) ->
  describes es (stat_size (readable w) w) s q.
Proof.
  intros H Hr. destruct (stat_size_readable es w H) as [(-> & -> & _)|[-> _]]; [by left|].
  right. exists (length es). by rewrite firstn_all.
Qed.

Lemma readable_files w w' : files w' = files w -> readable w' = readable w.
Proof. intros H. unfold readable, existsSync. by rewrite H. Qed.

Lemma remember_coherent es w s q p m : coherent es w -> replay 0 id es = Ok (s, q) ->
  coherent es (set_derived w (<[id := Entry s q p (stat_size (readable w) w) m]> (derived w))).
Proof.
  intros H Hr. destruct H as [Hrep Hg Ht Hc Hf] eqn:E. split; try done.
  intros e. simpl. rewrite lookup_insert_eq. intros [= <-]. simpl. by apply describes_self.
Qed.

(** The world before and after a read: only the cache of [id] may differ. *)
Definition same_files (w w' : world) : Prop := files w' = files w /\ now w' = now w.

Lemma replay_step es w s q m : coherent es w -> replay 0 id es = Ok (s, q) ->
  let e := Entry s q (readable w) (stat_size (readable w) w) m in
  exists w', remember id e w = (Ok e, w') /\ coherent es w' /\ same_files w w'.
Proof.
  intros H Hr. cbv zeta. eexists. split; [reflexivity|].
  split; [by apply remember_coherent|done].
Qed.

Lemma rebuild_coherent es w s q : coherent es w -> replay 0 id es = Ok (s, q) ->
  rebuildSnapshotFromJournal syn (readable w) id w = Replayed s [] q.
Proof.
  intros H Hr. pose proof (co_text _ _ H) as Ht. pose proof (co_good _ _ H) as Hg.
  unfold rebuildSnapshotFromJournal. destruct (files w !! readable w) as [f|].
  - rewrite Ht. apply rebuild_good; [done|]. rewrite <- Hr. by apply replay_from_time.
  - subst es. by injection Hr as <- <-.
Qed.

Definition answers (es : list js) (w : world) (m : act entry) : Prop :=
  exists e w', m w = (Ok e, w') /\ replay 0 id es = Ok (e_snapshot e, e_nextSeq e) /\
    coherent es w' /\ same_files w w'.

Lemma replayed_state_ok es w m : coherent es w ->
  answers es w (replayed_state syn (readable w) id (stat_size (readable w) w) m).
Proof.
  intros H. pose proof (co_replays _ _ H) as Hrep. destruct (replay 0 id es) as [[s q]|] eqn:Hr; [clear Hrep|done].
  unfold answers, replayed_state, mbind, eff_bind, get. rewrite Hr, (rebuild_coherent _ _ _ _ H Hr).
  cbn [r_snapshot r_nextSeq]. destruct (replay_step es w s q m H Hr) as (w' & -> & ? & ?). eauto 10.
Qed.

Lemma uncached_state_ok es w m b : coherent es w ->
  answers es w (uncached_state syn rootDir (readable w) id (stat_size (readable w) w) m b).
Proof.
  intros H. pose proof (replayed_state_ok es w m H) as Hr. unfold uncached_state, answers.
  unfold mbind, eff_bind, get, lift. destruct (b && existsSync (readable w) w); [|exact Hr].
  rewrite getSnapshotPath_ok. destruct (readSnapshotFile _ _ _ _) as [[s' q']|] eqn:E; [|exact Hr].
  unfold readSnapshotFile in E. destruct (files w !! snapshot_path id) as [f|] eqn:Ef; [|done].
  pose proof (describes_current _ _ _ _ H (co_file _ _ H _ _ _ _ Ef E)) as Hr'.
  destruct (replay_step es w s' q' m H Hr') as (w' & -> & ? & ?). eauto 10.
Qed.

(** A read answers the replay of the journal, whichever cache it used. *)
Lemma readState_ok es w b : coherent es w -> answers es w (readState syn rootDir legacyRootDir id b).
Proof.
  intros H. pose proof (uncached_state_ok es w (stat_mtime (readable w) w) b H) as Hu.
  unfold answers, readState, mbind, eff_bind, get. rewrite getReadable_ok.
  destruct (derived w !! id) as [e|] eqn:Ee; [|exact Hu].
  destruct (is_current _ _ _ _) eqn:Ec; [|exact Hu].
  exists e, w. split; [done|]. split; [|done].
  unfold is_current in Ec. split_bools. apply (describes_current es w); [done|].
  match goal with H1 : (e_size e =? _) = true |- _ => apply Z.eqb_eq in H1; rewrite <- H1 end.
  by apply (co_cache _ _ H).
Qed.

Definition holds (es : list js) (w : world) : Prop :=
  match files w !! readable w with Some f => text f = journal_text es | None => es = [] end.

Lemma exists_insert_ne p p' f fs d t w : p <> p' ->
  files w = fs -> existsSync p (World (<[p' := f]> fs) d t) = existsSync p w.
Proof. intros Hne <-. unfold existsSync. simpl. by rewrite lookup_insert_ne. Qed.

Lemma readable_snapshot_write f d t w :
  readable (World (<[snapshot_path id := f]> (files w)) d t) = readable w.
Proof.
  pose proof journal_ne_snapshot. pose proof legacy_ne_snapshot.
  unfold readable. by rewrite !(exists_insert_ne _ _ _ (files w) _ _ w).
Qed.

Lemma readable_cases w : readable w = journal_path id \/ readable w = legacy_path id.
Proof. unfold readable. repeat case_goal; auto. Qed.

Lemma readable_ne_snapshot w : readable w <> snapshot_path id.
Proof.
  destruct (readable_cases w) as [-> | ->]; [apply journal_ne_snapshot|apply legacy_ne_snapshot].
Qed.

(** Persisting the replayed state makes both caches describe the journal. *)
Lemma persist_ok es w s q : Forall good_entry es -> holds es w -> replay 0 id es = Ok (s, q) ->
  clean (payload s (stat_size (readable w) w) q) ->
  exists w', persist rootDir legacyRootDir id s q w = (Ok tt, w') /\ coherent es w' /\
    (forall p, p <> snapshot_path id -> files w' !! p = files w !! p) /\ now w' = now w.
Proof.
  intros Hg Ht Hr Hc. destruct (replay_facts 0 id es s q Hr) as (Hok & Hsh & _).
  unfold persist, mbind, eff_bind, lift, get, upd, writeSnapshot, remember.
  rewrite getSnapshotPath_ok, getReadable_ok. eexists. split; [reflexivity|].
  unfold writeFileSync, set_files, set_derived; simpl.
  split; [|split; [intros p Hp; simpl; by rewrite lookup_insert_ne|done]].
  split; [by rewrite Hr|done|..].
  - rewrite readable_snapshot_write. simpl. rewrite lookup_insert_ne; [done|].
    intros E. by apply (readable_ne_snapshot w).
  - intros e. simpl. rewrite lookup_insert_eq. intros [= <-]. simpl.
    unfold holds in Ht. unfold stat_size. destruct (files w !! readable w) as [f|].
    + right. exists (length es). rewrite firstn_all, Ht. done.
    + subst es. by left.
  - intros f n s' q'. simpl. rewrite lookup_insert_eq. intros [= <-]. cbn [text].
    fold (payload s (stat_size (readable w) w) q).
    rewrite (hydrate_payload id) by (try done; by apply ok_obj, ok_fields).
    destruct (Z.eqb_spec (stat_size (readable w) w) n) as [<-|]; [|done]. intros [= <- <-].
    unfold holds in Ht. unfold stat_size. destruct (files w !! readable w) as [f'|].
    + right. exists (length es). rewrite firstn_all, Ht. done.
    + subst es. by left.
Qed.

(** The migration of a legacy journal. *)
Definition migrated (w : world) : world :=
  if negb (existsSync (journal_path id) w) && existsSync (legacy_path id) w
  then set_derived (copyFileSync (legacy_path id) (journal_path id) w) (delete id (derived w)) else w.

Lemma migrated_ok es w : coherent es w -> coherent es (migrated w) /\ readable (migrated w) = journal_path id.
Proof.
  intros H. unfold migrated.
  destruct (negb (existsSync (journal_path id) w) && existsSync (legacy_path id) w) eqn:E.
  - apply andb_true_iff in E as [Hp Hl]. apply negb_true_iff in Hp.
    assert (readable w = legacy_path id) as Hrd by (unfold readable; by rewrite Hp, Hl).
    pose proof (co_text _ _ H) as Ht. rewrite Hrd in Ht.
    unfold existsSync in Hl. apply bool_decide_eq_true in Hl as [f Hf]. rewrite Hf in Ht.
    unfold copyFileSync. rewrite Hf. unfold writeFileSync, set_files, set_derived. simpl.
    assert (readable (World (<[journal_path id := File (text f) (now w)]> (files w)) (delete id (derived w)) (now w)) = journal_path id) as Hrd'.
    { unfold readable, existsSync. simpl. rewrite lookup_insert_eq. done. }
    split; [|done]. split.
    + apply H.
    + apply H.
    + rewrite Hrd'. simpl. by rewrite lookup_insert_eq.
    + intros e. simpl. by rewrite lookup_delete_eq.
    + intros f' n s q. simpl. rewrite lookup_insert_ne by apply journal_ne_snapshot. apply (co_file _ _ H).
  - split; [done|]. unfold readable. destruct (existsSync (journal_path id) w); [done|].
    simpl in E. by rewrite E.
Qed.

Lemma journal_text_snoc es e : journal_text (es ++ [e]) = journal_text es +:+ json_stringify e +:+ s_nl.
Proof. rewrite journal_text_app. cbn [journal_text]. by rewrite sapp_nil_r. Qed.

(** Appending a line to the primary journal. *)
Definition appended (e : js) (w : world) : world :=
  appendFileSync (journal_path id) (json_stringify e +:+ s_nl) w.

Lemma appended_ok es e w : coherent es w -> readable w = journal_path id ->
  holds (es ++ [e]) (appended e w) /\ readable (appended e w) = journal_path id.
Proof.
  intros H Hr. pose proof (co_text _ _ H) as Ht. rewrite Hr in Ht.
  unfold holds, appended, appendFileSync, set_files.
  match goal with |- context [readable ?w'] => assert (readable w' = journal_path id) as Hr' end.
  { unfold readable, existsSync. simpl. by rewrite lookup_insert_eq. }
  rewrite Hr'. split; [|done]. simpl. rewrite lookup_insert_eq. cbn [text].
  rewrite journal_text_snoc. destruct (files w !! journal_path id) as [f|]; [by rewrite Ht|].
  by subst es.
Qed.

Lemma replay_snoc es e s q s' : replay 0 id es = Ok (s, q) -> e.["seq"] = int q -> applyEvent 0 s e = Ok s' ->
  replay 0 id (es ++ [e]) = Ok (s', q + 1).
Proof.
  intros Hr Hq Ha. unfold replay in *. rewrite replay_from_app, Hr. cbn [mbind result_bind fst snd replay_from].
  rewrite Ha. unfold next_seq. rewrite Hq. do 2 f_equal. lia.
Qed.

(** The events the store can keep: their text is exact, and their fields are JSON values or [undefined]; those a snapshot
    keeps whole have no [undefined] field. *)
Record good_event (ev : js) : Prop := {
  ge_obj : is_obj ev = true;
  ge_text : json_ok ev;
  ge_fields : forall k v, (k, v) ∈ own_props ev -> v = JUndef \/ json_norm v = v;
  ge_whole : stored_whole ev = true -> json_norm ev = ev }.

Lemma norm_get ev k : good_event ev -> (json_norm ev).[k] = ev.[k].
Proof.
  intros [Ho Ht Hf _]. destruct ev as [| | | | | |o]; try discriminate Ho. clear Ho. rewrite json_norm_obj. apply json_ok_obj in Ht as [Hn _].
  cbn [jget own_props] in *. unfold live_props. revert Hn Hf. induction o as [|[k' v] o IH]; intros Hn Hf; [done|].
  apply NoDup_cons in Hn as [Hk Hn]. cbn [bfilter snd assoc_get].
  specialize (IH Hn (fun k v Hin => Hf k v (list_elem_of_further _ _ _ Hin))).
  destruct (Hf k' v (list_elem_of_here _ _)) as [->|Hv].
  - cbn [is_undef negb]. rewrite IH. destruct (String.eqb_spec k k') as [->|]; [|done].
    assert (assoc_get k' o = None) as ->; [by apply assoc_get_None|done].
  - destruct (is_undef v) eqn:Eu; [pose proof (norm_not_undef v) as Hx; by rewrite Hv, Eu in Hx|].
    cbn [negb]. rewrite fmap_cons. cbn [fst snd assoc_get]. destruct (String.eqb k k'); [by rewrite Hv|exact IH].
Qed.

(** The line an event becomes, as it is read back. *)
Definition stored_entry (q : Z) (ev : js) (t : Z) : js := json_norm (journal_entry q ev t).

Lemma stored_entry_spec q ev t ty : good_event ev -> ev.["id"] = JStr id -> ev.["type"] = JStr ty ->
  stored_entry q ev t = JObj [("seq", int q); ("id", JStr id); ("type", JStr ty); ("ts", JStr (to_iso t)); ("event", json_norm ev)].
Proof.
  intros Hg Hi Hty. unfold stored_entry, journal_entry. rewrite Hi, Hty, json_norm_obj. unfold live_props. cbn [bfilter snd is_undef negb].
  by destruct ev; try (by destruct Hg).
Qed.

Lemma stored_entry_applies q ev t ty s t' : good_event ev -> ev.["id"] = JStr id -> ev.["type"] = JStr ty ->
  applyEvent t' s (journal_entry q ev t) = applyEvent t' s (stored_entry q ev t).
Proof.
  intros Hg Hi Hty. symmetry. rewrite (stored_entry_spec q ev t ty) by done.
  assert (event_of (journal_entry q ev t) = ev) as He by (unfold event_of; simpl; by destruct ev; try (by destruct Hg)).
  assert (event_of (JObj [("seq", int q); ("id", JStr id); ("type", JStr ty); ("ts", JStr (to_iso t)); ("event", json_norm ev)]) = json_norm ev) as He'.
  { unfold event_of. simpl. by destruct ev; try (by destruct Hg). }
  apply applyEvent_fields; rewrite ?He, ?He'; [|done..|by apply Hg]. intros k. by apply norm_get.
Qed.

Lemma normalized_type event ev : normalizeEvent event sessionId = Ok ev -> exists ty, ev.["type"] = JStr ty.
Proof.
  unfold normalizeEvent. destruct (negb (truthy event) || negb (is_objecty event)); [done|]. cbv zeta.
  destruct (negb (truthy (event.["id"] ||? sessionId)) || _); [done|]. destruct (negb (truthy event.["type"]) || _) eqn:E3; [done|].
  intros <-%Ok_inj. apply orb_false_iff in E3 as [_ E3]. apply negb_false_iff in E3.
  assert (is_obj event = true) as Ho by (destruct event; try discriminate E3; done).
  rewrite jget_spread_with by (done || apply NoDup_singleton). simpl. destruct (event.["type"]); try discriminate E3. eauto.
Qed.

Lemma appendEvent_ok es w s q event ev s' : coherent es w -> replay 0 id es = Ok (s, q) ->
  normalizeEvent event sessionId = Ok ev -> ev.["id"] = JStr id -> good_event ev ->
  let e := stored_entry q ev (now w) in
  timed e = true -> applyEvent 0 s e = Ok s' ->
  clean (payload s' (utf8_size (journal_text (es ++ [e]))) (q + 1)) ->
  exists w', appendEvent syn rootDir legacyRootDir sessionId event w = (Ok s', w') /\
    replay 0 id (es ++ [e]) = Ok (s', q + 1) /\ coherent (es ++ [e]) w'.
Proof.
  intros H Hr Hev Hevid Hg e Ht Ha Hclean. destruct (normalized_type _ _ Hev) as [ty Hty].
  destruct (migrated_ok es w H) as [Hm Hmr].
  destruct (readState_ok es (migrated w) true Hm) as (pr & w1 & Hrs & Hpr & H1 & Hf1 & Hn1).
  rewrite Hr in Hpr. injection Hpr as Hs Hq.
  assert (readable w1 = journal_path id) as Hr1 by (by rewrite (readable_files _ _ Hf1)).
  assert (now w1 = now w) as Hnow.
  { rewrite Hn1. unfold migrated, set_derived, copyFileSync, writeFileSync, set_files.
    repeat case_goal; done. }
  pose proof (stored_entry_spec q ev (now w) ty Hg Hevid Hty) as Espec. fold e in Espec.
  assert (e.["seq"] = int q) as Hseq by by rewrite Espec.
  pose proof (replay_snoc es e s q s' Hr Hseq Ha) as Hr'.
  assert (good_entry e) as He.
  { split; [by rewrite Espec| |done]. split; [|apply norm_norm]. unfold e, stored_entry. apply norm_ok. unfold journal_entry. rewrite Hevid, Hty.
    apply json_ok_obj. split; [apply (bool_decide_unpack _); vm_compute; exact I|].
    repeat (apply Forall_cons; split); cbn [snd]; try exact I; [|apply Hg|by apply Forall_nil].
    destruct (replay_facts _ _ _ _ _ Hr') as (_ & Hsh & _). destruct (replay_facts _ _ _ _ _ Hr) as (_ & _ & Hpos).
    destruct Hclean as [Hj _]. rewrite (payload_props id) in Hj by done. apply json_ok_obj in Hj as [_ Hj].
    apply Forall_app in Hj as [_ Hj]. apply Forall_cons in Hj as [_ Hj]. apply Forall_cons in Hj as [Hj _]. cbn [snd json_ok] in Hj |- *. lia. }
  assert (json_stringify (journal_entry q ev (now w)) = json_stringify e) as Etext by (unfold json_stringify, e, stored_entry; by rewrite print_norm).
  destruct (appended_ok es e w1 H1 Hr1) as [Hh Hra].
  assert (stat_size (readable (appended e w1)) (appended e w1) = utf8_size (journal_text (es ++ [e]))) as Hsz.
  { unfold holds in Hh. unfold stat_size. rewrite Hra in *. unfold appended, appendFileSync in *. simpl in *.
    rewrite lookup_insert_eq in *. by rewrite Hh. }
  destruct (persist_ok (es ++ [e]) (appended e w1) s' (q + 1)) as (w' & Hp & Hc & _).
  { apply Forall_app. split; [apply H|by apply Forall_cons]. }
  { done. } { done. } { by rewrite Hsz. }
  exists w'. split; [|done].
  unfold appendEvent, append_prior, append_line. unfold mbind, eff_bind, lift, get, upd. rewrite Hev, Hevid. cbn [to_str].
  rewrite getJournalPath_ok, getLegacyPath_ok.
  assert ((if negb (existsSync (journal_path id) w) && existsSync (legacy_path id) w
           then fun w0 => (Ok tt, set_derived (copyFileSync (legacy_path id) (journal_path id) w0) (delete id (derived w0)))
           else mret tt) w = (Ok tt, migrated w)) as ->.
  { unfold migrated. by destruct (negb _ && _). }
  rewrite Hrs. cbn [fst snd mret eff_ret]. rewrite Hevid. cbn [to_str]. rewrite getJournalPath_ok, <- Hs, <- Hq, Hnow, Etext. fold (appended e w1).
  rewrite (stored_entry_applies q ev (now w) ty) by done. fold e. rewrite (applyEvent_timed (now w) 0) by done. by rewrite Ha, Hp.
Qed.

(** *** Several processes on one session

    The live server, the publisher and the resume helpers each open a store on
    the same directory. [es] is the journal's content. *)
Inductive step : list js * world -> list js * world -> Prop :=
| step_append es w s q event ev s' r w' :
    (* this store appends an event *)
    replay 0 id es = Ok (s, q) -> normalizeEvent event sessionId = Ok ev -> ev.["id"] = JStr id -> good_event ev ->
    let e := stored_entry q ev (now w) in
    timed e = true -> applyEvent 0 s e = Ok s' ->
    clean (payload s' (utf8_size (journal_text (es ++ [e]))) (q + 1)) ->
    appendEvent syn rootDir legacyRootDir sessionId event w = (r, w') ->
    step (es, w) (es ++ [e], w')
| step_read es w b r w' :
    (* this store reads *)
    readState syn rootDir legacyRootDir id b w = (r, w') -> step (es, w) (es, w')
| step_external es w es' t :
    (* another process appends lines to the journal *)
    readable w = journal_path id -> Forall good_entry es' -> is_ok (replay 0 id (es ++ es')) = true ->
    step (es, w) (es ++ es', set_files w (<[journal_path id :=
      File (match files w !! journal_path id with Some f => text f | None => "" end +:+ journal_text es') t]> (files w)))
| step_migrate es w :
    (* another process migrates the legacy journal *)
    readable w = legacy_path id ->
    step (es, w) (es, copyFileSync (legacy_path id) (journal_path id) w)
| step_restart es w :
    (* this process starts afresh: nothing in memory *)
    step (es, w) (es, set_derived w ∅)
| step_tick es w t :
    (* time passes *)
    step (es, w) (es, World (files w) (derived w) t).

Lemma coherent_clock es w t : coherent es w -> coherent es (World (files w) (derived w) t).
Proof. intros [Hrep Hg Ht Hc Hf]. by split. Qed.

Lemma coherent_restart es w : coherent es w -> coherent es (set_derived w ∅).
Proof. intros [Hrep Hg Ht Hc Hf]. split; try done. Qed.

Lemma coherent_migrate es w : coherent es w -> readable w = legacy_path id ->
  coherent es (copyFileSync (legacy_path id) (journal_path id) w).
Proof.
  intros H Hr. pose proof (co_text _ _ H) as Ht. rewrite Hr in Ht. unfold copyFileSync.
  destruct (files w !! legacy_path id) as [f|]; [|done].
  assert (readable (writeFileSync (journal_path id) (text f) w) = journal_path id) as Hr'.
  { unfold readable, existsSync. simpl. by rewrite lookup_insert_eq. }
  split; [apply H|apply H|..].
  - rewrite Hr'. simpl. by rewrite lookup_insert_eq.
  - apply (co_cache _ _ H).
  - intros f' n s q. simpl. rewrite lookup_insert_ne by apply journal_ne_snapshot. apply (co_file _ _ H).
Qed.

Lemma coherent_external es es' w t : coherent es w -> readable w = journal_path id -> Forall good_entry es' -> is_ok (replay 0 id (es ++ es')) = true ->
  coherent (es ++ es') (set_files w (<[journal_path id :=
      File (match files w !! journal_path id with Some f => text f | None => "" end +:+ journal_text es') t]> (files w))).
Proof.
  intros H Hr He Hrep. pose proof (co_text _ _ H) as Ht. rewrite Hr in Ht. unfold set_files.
  match goal with |- coherent _ ?w' => assert (readable w' = journal_path id) as Hr' end.
  { unfold readable, existsSync. simpl. by rewrite lookup_insert_eq. }
  split; [done|..].
  - apply Forall_app. split; [apply H|done].
  - rewrite Hr'. simpl. rewrite lookup_insert_eq, journal_text_app. cbn [text].
    destruct (files w !! journal_path id) as [f|]; [by rewrite Ht|by subst es].
  - intros e Hc. apply describes_app, (co_cache _ _ H e Hc).
  - intros f n s q. simpl. rewrite lookup_insert_ne by apply journal_ne_snapshot.
    intros Hf Hh. apply describes_app, (co_file _ _ H f n s q Hf Hh).
Qed.

Lemma step_coherent x y : step x y -> coherent x.1 x.2 -> coherent y.1 y.2.
Proof.
  destruct 1 as [es w s q event ev s' r w' Hr Hev Hid' Hg e Ht Hs Hc Ha|es w b r w' Hs| | | |]; simpl; intros Hco0.
  - destruct (appendEvent_ok es w s q event ev s' Hco0 Hr Hev Hid' Hg Ht Hs Hc) as (w2 & Ha' & _ & Hco).
    rewrite Ha' in Ha. by injection Ha as <- <-.
  - destruct (readState_ok es w b Hco0) as (e & w2 & Hs' & _ & Hco & _). rewrite Hs' in Hs.
    by injection Hs as <- <-.
  - by apply coherent_external.
  - by apply coherent_migrate.
  - by apply coherent_restart.
  - by apply coherent_clock.
Qed.

Lemma coherent_fresh w : files w !! journal_path id = None -> files w !! legacy_path id = None ->
  files w !! snapshot_path id = None -> derived w !! id = None -> coherent [] w.
Proof.
  intros Hj Hl Hs Hd. split; [done|constructor|..].
  - by destruct (readable_cases w) as [-> | ->]; rewrite ?Hj, ?Hl.
  - congruence.
  - congruence.
Qed.

Lemma steps_coherent x y : rtc step x y -> coherent x.1 x.2 -> coherent y.1 y.2.
Proof. induction 1 as [|x y z Hs _ IH]; intros H; [done|]. by apply IH, (step_coherent x). Qed.


(** C2: [appendEvent] on a session whose caches are coherent writes one line, numbered with the next sequence number, and
    returns the replay of the extended journal; the caches it leaves are coherent with that journal. The conditions: nothing
    is written to the journal while it runs; the event is one that JSON keeps ([undefined] fields are dropped, and allowed
    unless snapshots keep the event whole), the new snapshot too, the clock gives a readable time stamp, and the reducer does
    not throw on the entry. *)
Theorem appendEvent_refines es w s q event ev s' : coherent es w -> replay 0 id es = Ok (s, q) ->
  normalizeEvent event sessionId = Ok ev -> ev.["id"] = JStr id -> good_event ev ->
  let e := stored_entry q ev (now w) in
  timed e = true -> applyEvent 0 s e = Ok s' ->
  clean (payload s' (utf8_size (journal_text (es ++ [e]))) (q + 1)) ->
  exists w', appendEvent syn rootDir legacyRootDir sessionId event w = (Ok s', w') /\
    replay 0 id (es ++ [e]) = Ok (s', q + 1) /\ coherent (es ++ [e]) w'.
Proof. apply appendEvent_ok. Qed.
End Coherence.

(** *** A concrete session *)

Definition demo_root : list string := ["p"; ".impeccable"; "live"; "sessions"].
Definition demo_legacy : list string := ["p"; ".impeccable-live"; "sessions"].
Definition demo_world : world := World ∅ ∅ 1700000000000.
Definition demo_event : js :=
  JObj [("type", JStr "generate"); ("id", JStr "0a1b2c3d"); ("count", int 3); ("token", JStr "t")].
Definition demo_entry : js := stored_entry 1 demo_event 1700000000000.
Definition demo_syntax (line : string) : string := "Unexpected token".

(** Decides [good_event]. *)
Definition good_eventb (ev : js) : bool :=
  is_obj ev && json_okb ev && forallb (fun kv => is_undef kv.2 || bool_decide (json_norm kv.2 = kv.2)) (own_props ev)
  && (negb (stored_whole ev) || bool_decide (json_norm ev = ev)).
Lemma good_eventb_sound ev : good_eventb ev = true -> good_event ev.
Proof.
  unfold good_eventb. rewrite !andb_true_iff. intros [[[Ho Hj] Hf] Hw]. split; [done|by apply json_okb_sound| |].
  - intros k v Hin. rewrite forallb_forall in Hf. apply list_elem_of_In in Hin. apply Hf in Hin. cbn [snd] in Hin.
    apply orb_true_iff in Hin as [Hu|Hn]; [left; by destruct v|right; by apply bool_decide_eq_true in Hn].
  - intros Hs. rewrite Hs in Hw. by apply bool_decide_eq_true in Hw.
Qed.
Lemma demo_event_good : good_event demo_event.
Proof. apply good_eventb_sound. vm_compute. reflexivity. Qed.
Definition demo_snapshot : js := match replay 0 "0a1b2c3d" [demo_entry] with Ok (s, _) => s | Throw _ => JUndef end.
Lemma demo_clean : clean (payload demo_snapshot (utf8_size (journal_text ([] ++ [demo_entry]))) (1 + 1)).
Proof. split; [apply json_okb_sound|]; vm_compute; reflexivity. Qed.

Lemma plain_decide l : forallb plain_seg l = true -> Forall (fun s => plain_seg s = true) l.
Proof. rewrite forallb_forall. intros H. apply Forall_forall. intros x Hx. by apply H, list_elem_of_In. Qed.

Lemma demo_root_plain : Forall (fun s => plain_seg s = true) demo_root.
Proof. by apply plain_decide. Qed.
Lemma demo_legacy_plain : Forall (fun s => plain_seg s = true) demo_legacy.
Proof. by apply plain_decide. Qed.

Lemma appendEvent_refines_witness : exists w',
  appendEvent demo_syntax (of_segs demo_root) (of_segs demo_legacy) JUndef demo_event demo_world = (Ok demo_snapshot, w') /\
  replay 0 "0a1b2c3d" [demo_entry] = Ok (demo_snapshot, 2).
Proof.
  destruct (appendEvent_refines demo_syntax demo_root demo_legacy JUndef
    demo_root_plain demo_legacy_plain "0a1b2c3d" eq_refl
    [] demo_world (baseSnapshot (JStr "0a1b2c3d")) 1 demo_event demo_event demo_snapshot) as (w' & Ha & Hr & _).
  - apply coherent_fresh; reflexivity.
  - reflexivity.
  - reflexivity.
  - reflexivity.
  - exact demo_event_good.
  - vm_compute. reflexivity.
  - vm_compute. reflexivity.
  - exact demo_clean.
  - exists w'. split; [exact Ha|exact Hr].
Defined.


(** Another process discards the session between the read and the write of an append: both lines have the same number, and
    both caches are stamped with the size of the whole journal, so that reads answer as if the discard were not in it. The
    two values are whether the session is cancelled: what a read answers, and what a replay of the journal gives. *)
Definition discard_line : string :=
  json_stringify (journal_entry 1 (JObj [("type", JStr "discard"); ("id", JStr "0a1b2c3d")]) 1700000000000) +:+ s_nl.
Definition canceled_after_race : option (js * js) :=
  let root := of_segs demo_root in let legacy := of_segs demo_legacy in let journal := "/p/.impeccable/live/sessions/0a1b2c3d.jsonl" in
  match append_prior demo_syntax root legacy JUndef demo_event demo_world with
  | (Ok (normalized, prior), w) =>
    let after := (append_line root legacy normalized prior (appendFileSync journal discard_line w)).2 in
    match (readState demo_syntax root legacy "0a1b2c3d" true after).1 with
    | Ok e => Some ((e_snapshot e).["generationCanceled"], (r_snapshot (rebuildSnapshotFromJournal demo_syntax journal "0a1b2c3d" after)).["generationCanceled"])
    | Throw _ => None
    end
  | _ => None
  end.
Theorem raced_append_forgets : canceled_after_race = Some (JBool false, JBool true).
Proof. vm_compute. reflexivity. Qed.

(** *** Sequence numbers *)

Lemma replay_from_seq t s q es s' q' : replay_from t s q es = Ok (s', q') ->
  q <= q' /\ Forall (fun e => forall z, e.["seq"] = int z -> z < q') es.
Proof.
  revert s q; induction es as [|e es IH]; intros s q; cbn [replay_from].
  - intros [= _ ->]. split; [lia|constructor].
  - destruct (applyEvent t s e) as [s1|]; [|done]. intros [Hq Hf]%IH. unfold next_seq in Hq.
    split.
    + destruct e.["seq"] as [| | |[]| | |]; lia.
    + apply Forall_cons. split; [|done]. intros z Hz. rewrite Hz in Hq. lia.
Qed.

(** Sequence numbers are fresh: the number [appendEvent] takes from a replayed
    session is larger than every integer sequence number in its journal. *)
Theorem next_sequence_fresh id es s q : replay 0 id es = Ok (s, q) ->
  Forall (fun e => forall z, e.["seq"] = int z -> z < q) es.
Proof. intros H. by apply replay_from_seq in H as [_ H]. Qed.

Lemma next_sequence_fresh_witness : exists s, replay 0 "0a1b2c3d" [demo_entry] = Ok (s, 2) /\
  Forall (fun e => forall z, e.["seq"] = int z -> z < 2) [demo_entry].
Proof.
  assert (replay 0 "0a1b2c3d" [demo_entry] = Ok (demo_snapshot, 2)) as Hr by (vm_compute; reflexivity).
  exists demo_snapshot. split; [exact Hr|]. exact (next_sequence_fresh "0a1b2c3d" [demo_entry] demo_snapshot 2 Hr).
Defined.

(** *** Confinement *)

(** Session ids cannot escape the sessions directory: an accepted id is 1 to 128
    letters, digits, [_] or [-], its journal and its snapshot are files directly
    inside the directory, and distinct ids have distinct files. *)
Theorem session_files_confined R id id' : Forall (fun s => plain_seg s = true) R ->
  safeSessionId id = Ok id' ->
  id' = id /\ sforall is_id_char id = true /\ (1 <= slen id <= 128)%nat /\
  getJournalPath (of_segs R) id = Ok (of_segs (R ++ [id +:+ ".jsonl"])) /\
  getSnapshotPath (of_segs R) id = Ok (of_segs (R ++ [id +:+ ".snapshot.json"])).
Proof.
  intros HR H. destruct (safeSessionId_spec _ _ H) as (-> & Hc & Hl). split_and!; try done; try lia.
  - by apply getJournalPath_ok.
  - by apply getSnapshotPath_ok.
Qed.

Lemma session_files_confined_witness :
  getJournalPath "/p/.impeccable/live/sessions" "0a1b2c3d" = Ok "/p/.impeccable/live/sessions/0a1b2c3d.jsonl".
Proof.
  destruct (session_files_confined demo_root "0a1b2c3d" "0a1b2c3d" demo_root_plain eq_refl)
    as (_ & _ & _ & Hj & _). exact Hj.
Defined.

(** *** A torn journal line *)

(** What a crash in the middle of a write leaves: the first bytes of a line. *)
Definition torn_world : world :=
  World {[ "/p/.impeccable/live/sessions/0a1b2c3d.jsonl" := File (stake 20 (json_stringify demo_entry)) 5 ]} ∅
    1700000000000.

(** After a torn write the next event is lost: [appendEvent] continues the torn
    line, so the call reports the session in phase [generate_requested], while a
    replay of the journal it wrote (a restarted server with no usable snapshot
    file, or [flush] in another process) is back in phase [new] and holds a parse
    failure instead of the event. *)
Theorem torn_line_loses_next_event :
  let run := appendEvent demo_syntax (of_segs demo_root) (of_segs demo_legacy) JUndef demo_event torn_world in
  (exists s, run.1 = Ok s /\ s.["phase"] = JStr "generate_requested") /\
  let r := rebuildSnapshotFromJournal demo_syntax "/p/.impeccable/live/sessions/0a1b2c3d.jsonl" "0a1b2c3d" run.2 in
  (r_snapshot r).["phase"] = JStr "new" /\ length (r_diagnostics r) = 1%nat.
Proof. vm_compute. split; [eexists; split; reflexivity|split; reflexivity]. Qed.
