(* ===== verification/PollLanes.v ===== *)
(** * Which queued event an agent poll gets ([live/poll-lanes.mjs]), and how an
    accept result completes a session ([live/completion.mjs]). *)
From S2P Require Import Prelude JsString JsValue Vocabulary.
Local Open Scope Z_scope.

(** An entry of [state.pendingEvents]. [leaseUntil] is a number that can be [NaN]:
    the lease length is parsed from a query string. *)
Record pending := Pending { p_event : js; p_leaseUntil : num; p_seq : Z }.

Definition eventPriority (event : js) : Z :=
  let case (t : string) := event.["type"] === JStr t in
  if case "accept" || case "discard" || case "exit" then 0
  else if case "manual_edit_apply" || case "steer" || case "carbonize_cleanup" then 1
  else if case "generate" then 2
  else 3.

(** [entry.leaseUntil && entry.leaseUntil > now]. *)
Definition leased (now : Z) (entry : pending) : bool :=
  truthy (JNum (p_leaseUntil entry)) && num_ltb (NInt now) (p_leaseUntil entry).

Definition allowed_type (types : option (list string)) (event : js) : bool :=
  match types with None => true | Some types => has_str types event.["type"] end.

(** The comparator: by priority, then by sequence number. *)
Definition lane_lt (a b : pending) : bool :=
  let d := eventPriority (p_event a) - eventPriority (p_event b) in
  if d =? 0 then p_seq a - p_seq b <? 0 else d <? 0.

Definition selectAvailablePendingEvent (entries : list pending) (now : Z) (types : option (list string)) : option pending :=
  head (sort_by lane_lt
    (bfilter (fun e => allowed_type types (p_event e)) (bfilter (fun e => negb (leased now e)) entries))).

(** ** Completion of an accept *)

Definition PREVIEW_MODES_WITHOUT_SOURCE_MARKERS : list string := ["svelte-component"].

(** [acceptResult?.k]. *)
Definition opt_get (v : js) (k : string) : js := if nullish v then JUndef else v.[k].

Definition completionTypeForAcceptResult (eventType acceptResult : js) : string :=
  let handled := opt_get acceptResult "handled" === JBool true in
  if eventType === JStr "discard" then (if handled then "discarded" else "error")
  else if handled && (opt_get acceptResult "carbonize" === JBool true) then "agent_done"
  else if handled then "complete"
  else if opt_get acceptResult "mode" === JStr "error" then "error"
  else if (eventType === JStr "accept")
          && has_str PREVIEW_MODES_WITHOUT_SOURCE_MARKERS (opt_get acceptResult "previewMode") then "error"
  else "agent_done".

Definition completionAckForAcceptResult (eventId : string) (completionType : string) (acceptResult : js) : js :=
  let ack := JObj [("ok", JBool true); ("type", JStr completionType)] in
  if (opt_get acceptResult "handled" === JBool true) && (opt_get acceptResult "carbonize" === JBool true)
  then spread_with ack
    [("final", JBool false); ("requiresComplete", JBool true);
     ("nextCommand", JStr ("live-complete.mjs --id " +:+ eventId));
     ("message", JStr "Carbonize cleanup must be verified, then the session must be completed explicitly before polling again.")]
  else ack.

(** ** Theorems *)

Lemma lane_lt_spec a b : lane_lt a b = true <->
  eventPriority (p_event a) < eventPriority (p_event b) \/
  eventPriority (p_event a) = eventPriority (p_event b) /\ p_seq a < p_seq b.
Proof.
  unfold lane_lt. cbv zeta. destruct (Z.eqb_spec (eventPriority (p_event a) - eventPriority (p_event b)) 0);
    rewrite Z.ltb_lt; lia.
Qed.

Lemma lane_lt_irrefl a : lane_lt a a = false.
Proof. apply not_true_iff_false. rewrite lane_lt_spec. lia. Qed.

Lemma lane_lt_trans a b c : lane_lt a b = true -> lane_lt b c = true -> lane_lt a c = true.
Proof. rewrite !lane_lt_spec. lia. Qed.

Lemma select_elem entries now types e :
  selectAvailablePendingEvent entries now types = Some e ->
  e ∈ entries /\ leased now e = false /\ allowed_type types (p_event e) = true.
Proof.
  unfold selectAvailablePendingEvent. intros H.
  assert (e ∈ sort_by lane_lt (bfilter (fun e => allowed_type types (p_event e))
    (bfilter (fun e => negb (leased now e)) entries))) as He.
  { destruct (sort_by _ _); [done|]. injection H as ->. apply elem_of_cons. by left. }
  rewrite sort_by_elem, !bfilter_elem_of in He. destruct He as [[He Hl] Ha].
  apply negb_true_iff in Hl. auto.
Qed.

Lemma select_none entries now types :
  selectAvailablePendingEvent entries now types = None <->
  forall e, e ∈ entries -> leased now e = false -> allowed_type types (p_event e) = false.
Proof.
  unfold selectAvailablePendingEvent. set (l := bfilter _ _). split.
  - intros H e He Hl. apply not_true_iff_false. intros Ha.
    assert (e ∈ sort_by lane_lt l) as Hs.
    { rewrite sort_by_elem. unfold l. rewrite !bfilter_elem_of, negb_true_iff. auto. }
    destruct (sort_by lane_lt l); [by apply elem_of_nil in Hs|done].
  - intros H. destruct (sort_by lane_lt l) as [|e s] eqn:E; [done|].
    assert (e ∈ l) as He by (apply (sort_by_elem lane_lt); rewrite E; apply elem_of_cons; by left).
    unfold l in He. rewrite !bfilter_elem_of, negb_true_iff in He. destruct He as [[He Hl] Ha].
    rewrite (H e He Hl) in Ha. done.
Qed.

(** A poll gets the best available event of its lane: one that is queued, allowed
    and not leased, with no other such event of smaller priority number, or of the same
    priority and an earlier sequence number; it gets nothing only when there is none. *)
Theorem poll_gets_best_available entries now types :
  match selectAvailablePendingEvent entries now types with
  | Some e =>
    e ∈ entries /\ leased now e = false /\ allowed_type types (p_event e) = true /\
    forall e', e' ∈ entries -> leased now e' = false -> allowed_type types (p_event e') = true ->
      eventPriority (p_event e) < eventPriority (p_event e') \/
      eventPriority (p_event e) = eventPriority (p_event e') /\ p_seq e <= p_seq e'
  | None => forall e, e ∈ entries -> leased now e = false -> allowed_type types (p_event e) = false
  end.
Proof.
  destruct (selectAvailablePendingEvent entries now types) as [e|] eqn:E; [|by apply select_none].
  destruct (select_elem _ _ _ _ E) as (He & Hl & Ha). split_and!; try done.
  intros e' He' Hl' Ha'.
  assert (lane_lt e' e = false) as H.
  { apply (sort_by_head_min lane_lt lane_lt_irrefl lane_lt_trans _ _ _ E).
    rewrite sort_by_elem, !bfilter_elem_of, negb_true_iff. auto. }
  rewrite <- not_true_iff_false, lane_lt_spec in H. lia.
Qed.

(** A session is reported complete only when the accept was handled: an unhandled
    discard is an error, an accept with open carbonize markers stays
    [agent_done] and is acknowledged as not final. *)
Theorem completion_needs_handled eventType acceptResult eventId :
  let t := completionTypeForAcceptResult eventType acceptResult in
  (t = "complete" \/ t = "discarded" -> opt_get acceptResult "handled" = JBool true) /\
  (opt_get acceptResult "handled" = JBool true -> opt_get acceptResult "carbonize" = JBool true ->
   t <> "complete" /\ (completionAckForAcceptResult eventId t acceptResult).["final"] = JBool false).
Proof.
  cbv zeta. unfold completionTypeForAcceptResult. cbv zeta. split.
  - intros H. apply strict_eq_true. destruct (opt_get acceptResult "handled" === JBool true); [done|].
    exfalso. revert H. cbn [andb]. repeat case_goal; intros [H|H]; discriminate H.
  - intros Hh Hc. apply strict_eq_true in Hh, Hc. unfold completionAckForAcceptResult. rewrite Hh, Hc.
    cbn [andb]. split; [|by vm_compute]. by case_goal.
Qed.
