(* ===== verification/PollQueue.v ===== *)
(** * The live server's event queue ([live-server.mjs], queue and leases)

    Browser events wait in a queue until an agent acknowledges them. An agent
    polls; a poll that finds no event is parked; an event handed out is leased,
    so another poll does not get it before the lease expires. Handing out is
    asynchronous: the claim happens at once ([claim]), the delivery after the
    source scaffolding ([preflightDone]) in a later turn ([settle]).

    Entries are shared mutable objects: [heap] holds them, [queue] lists those
    of [state.pendingEvents]. A delivery in flight keeps its entry when an
    acknowledgement removes it from the queue. The session store is the
    interface [Store]; the clock is part of the state. *)
From S2P Require Import Prelude JsString JsValue Vocabulary SessionStore PollLanes.
Local Open Scope Z_scope.

Definition CHAT_POLL_FRESHNESS_MS : Z := 60000.
Definition POLL_LEASE_EXPIRY_TIMER_GRACE_MS : Z := 2.

(** ** What the server needs from the session store *)

Class Store (W : Type) := {
  store_append : js -> eff W js;
  (* [getSnapshot(id, { includeCompleted })]; [JNull] for a completed session *)
  store_snapshot : js -> bool -> eff W js;
  store_has : js -> eff W bool;
  store_active : eff W (list js) }.

(** ** The state *)

Record poll := Poll { q_id : Z; q_leaseMs : num; q_types : option (list string) }.

(** A delivery in flight: [f_event] is the event captured when it was claimed. *)
Inductive stage : Type := Preflight | Settling | Failed.
Record flight := Flight {
  f_entry : Z; f_poll : Z; f_leaseMs : num; f_parked : bool; f_event : js; f_stage : stage }.

Record srv (W : Type) := Srv {
  heap : gmap Z pending;
  queue : list Z;
  polls : list poll;
  nextEventSeq : Z;
  lastAgentPollingBroadcast : option bool;
  leaseTimer : option num;
  lastPollAt : Z;
  flights : list flight;
  sse : list js;
  replies : list (Z * js);
  manualEditActivity : js;
  nextManualEditSeq : Z;
  clock : Z;
  world : W }.
Arguments Srv {W}.
Arguments heap {W}. Arguments queue {W}. Arguments polls {W}. Arguments nextEventSeq {W}.
Arguments lastAgentPollingBroadcast {W}. Arguments leaseTimer {W}. Arguments lastPollAt {W}.
Arguments flights {W}. Arguments sse {W}. Arguments replies {W}. Arguments manualEditActivity {W}.
Arguments nextManualEditSeq {W}. Arguments clock {W}. Arguments world {W}.

Section Queue.
Context {W : Type} `{HStore : !Store W}.
Implicit Types (s : srv W).

Definition set_heap h s := Srv h (queue s) (polls s) (nextEventSeq s) (lastAgentPollingBroadcast s) (leaseTimer s)
  (lastPollAt s) (flights s) (sse s) (replies s) (manualEditActivity s) (nextManualEditSeq s) (clock s) (world s).
Definition set_queue q s := Srv (heap s) q (polls s) (nextEventSeq s) (lastAgentPollingBroadcast s) (leaseTimer s)
  (lastPollAt s) (flights s) (sse s) (replies s) (manualEditActivity s) (nextManualEditSeq s) (clock s) (world s).
Definition set_polls ps s := Srv (heap s) (queue s) ps (nextEventSeq s) (lastAgentPollingBroadcast s) (leaseTimer s)
  (lastPollAt s) (flights s) (sse s) (replies s) (manualEditActivity s) (nextManualEditSeq s) (clock s) (world s).
Definition set_next n s := Srv (heap s) (queue s) (polls s) n (lastAgentPollingBroadcast s) (leaseTimer s)
  (lastPollAt s) (flights s) (sse s) (replies s) (manualEditActivity s) (nextManualEditSeq s) (clock s) (world s).
Definition set_last b s := Srv (heap s) (queue s) (polls s) (nextEventSeq s) b (leaseTimer s)
  (lastPollAt s) (flights s) (sse s) (replies s) (manualEditActivity s) (nextManualEditSeq s) (clock s) (world s).
Definition set_timer t s := Srv (heap s) (queue s) (polls s) (nextEventSeq s) (lastAgentPollingBroadcast s) t
  (lastPollAt s) (flights s) (sse s) (replies s) (manualEditActivity s) (nextManualEditSeq s) (clock s) (world s).
Definition set_pollAt t s := Srv (heap s) (queue s) (polls s) (nextEventSeq s) (lastAgentPollingBroadcast s) (leaseTimer s)
  t (flights s) (sse s) (replies s) (manualEditActivity s) (nextManualEditSeq s) (clock s) (world s).
Definition set_flights fs s := Srv (heap s) (queue s) (polls s) (nextEventSeq s) (lastAgentPollingBroadcast s) (leaseTimer s)
  (lastPollAt s) fs (sse s) (replies s) (manualEditActivity s) (nextManualEditSeq s) (clock s) (world s).
Definition set_sse m s := Srv (heap s) (queue s) (polls s) (nextEventSeq s) (lastAgentPollingBroadcast s) (leaseTimer s)
  (lastPollAt s) (flights s) m (replies s) (manualEditActivity s) (nextManualEditSeq s) (clock s) (world s).
Definition set_replies r s := Srv (heap s) (queue s) (polls s) (nextEventSeq s) (lastAgentPollingBroadcast s) (leaseTimer s)
  (lastPollAt s) (flights s) (sse s) r (manualEditActivity s) (nextManualEditSeq s) (clock s) (world s).
Definition set_activity a n s := Srv (heap s) (queue s) (polls s) (nextEventSeq s) (lastAgentPollingBroadcast s) (leaseTimer s)
  (lastPollAt s) (flights s) (sse s) (replies s) a n (clock s) (world s).
Definition set_world (w : W) s : srv W := Srv (heap s) (queue s) (polls s) (nextEventSeq s) (lastAgentPollingBroadcast s) (leaseTimer s)
  (lastPollAt s) (flights s) (sse s) (replies s) (manualEditActivity s) (nextManualEditSeq s) (clock s) w.

(** A call of the session store. *)
Definition in_store {A} (m : eff W A) : eff (srv W) A := fun s =>
  let '(r, w) := m (world s) in (r, set_world w s).

(** [state.pendingEvents]. *)
Definition pendingEvents s : list pending := omap (fun k => heap s !! k) (queue s).

Definition broadcast (msg : js) : eff (srv W) unit := upd (fun s => set_sse (sse s ++ [msg]) s).

Definition agentPollingConnected s : bool := (0 <? length (polls s))%nat.

Definition broadcastAgentPollingIfChanged : eff (srv W) unit :=
  connected ← get agentPollingConnected;
  last ← get lastAgentPollingBroadcast;
  if bool_decide (last = Some connected) then mret tt else
  _ ← upd (set_last (Some connected));
  broadcast (JObj [("type", JStr "agent_polling"); ("connected", JBool connected)]).

Definition recordAgentPhase (id : js) (phase : string) (details : list (string * js)) : eff (srv W) unit :=
  if negb (truthy id) then mret tt else
  now ← get clock;
  let event := spread_with (JObj [("type", JStr "agent_phase"); ("id", id); ("phase", JStr phase); ("at", int now)]) details in
  _ ← in_store (store_append event);
  broadcast event.

Definition recordManualEditActivity (type : string) (ts : js) (details : list (string * js)) : eff (srv W) unit :=
  seq ← get nextManualEditSeq;
  let entry := spread_with (JObj [("seq", int seq); ("type", JStr type); ("ts", ts)]) details in
  _ ← upd (set_activity entry (seq + 1));
  broadcast entry.

(** ** Leases *)

Definition isLeased (now : Z) (entry : pending) : bool := leased now entry.

(** The timer fires just after the first lease in force expires. *)
Definition scheduleLeaseFlush : eff (srv W) unit :=
  _ ← upd (set_timer None);
  now ← get clock;
  entries ← get pendingEvents;
  let leases := bfilter (fun l => num_ltb (NInt now) l)
    ((fun e => if truthy (JNum (p_leaseUntil e)) then p_leaseUntil e else NInt 0) <$> entries) in
  match head (sort_by num_ltb leases) with
  | None => mret tt
  | Some next =>
    if negb (truthy (JNum next)) then mret tt
    else upd (set_timer (Some (num_add next (NInt POLL_LEASE_EXPIRY_TIMER_GRACE_MS))))
  end.

Definition set_entry (k : Z) (f : pending -> pending) s : srv W := set_heap (alter f k (heap s)) s.
Definition with_lease (l : num) (e : pending) : pending := Pending (p_event e) l (p_seq e).
Definition with_event (ev : js) (e : pending) : pending := Pending ev (p_leaseUntil e) (p_seq e).

(** [leaseEvent] up to its first [await]: the claim, and the phases announced
    before scaffolding. A throw becomes a rejected promise. *)
Definition claim (k : Z) (poll_id : Z) (leaseMs : num) (parked : bool) : eff (srv W) unit :=
  now ← get clock;
  _ ← upd (set_entry k (with_lease (num_add (NInt now) leaseMs)));
  entry ← get (fun s => heap s !! k);
  let event := match entry with Some e => p_event e | None => JUndef end in
  let fly st := upd (fun s => set_flights (flights s ++ [Flight k poll_id leaseMs parked event st]) s) in
  if negb (truthy event) || negb (event.["type"] === JStr "generate") || truthy event.["scaffoldAttempted"]
  then fly Settling
  else attempt (_ ← recordAgentPhase event.["id"] "picked_up" [];
                _ ← recordAgentPhase event.["id"] "scaffolding" [];
                fly Preflight)
               (fun _ => fly Failed).

(** The loop of [flushPendingPolls]: serve the first parked poll that has an
    available event, until there is none. *)
Fixpoint first_served (now : Z) (entries : list pending) (i : nat) (ps : list poll) : option (nat * poll * pending) :=
  match ps with
  | [] => None
  | p :: ps =>
    match selectAvailablePendingEvent entries now (q_types p) with
    | Some e => Some (i, p, e)
    | None => first_served now entries (S i) ps
    end
  end.

Fixpoint flush_loop (fuel : nat) (changed : bool) : eff (srv W) bool :=
  match fuel with
  | O => mret changed
  | S fuel =>
    now ← get clock;
    entries ← get pendingEvents;
    ps ← get polls;
    match first_served now entries 0 ps with
    | None => mret changed
    | Some (i, p, e) =>
      _ ← upd (set_polls (delete i ps));
      _ ← claim (p_seq e) (q_id p) (q_leaseMs p) true;
      flush_loop fuel true
    end
  end.

(** The loop ends with polls left ([return] after the broadcast) or without. *)
Definition flushPendingPolls : eff (srv W) unit :=
  n ← get (fun s => length (polls s));
  changed ← flush_loop n false;
  left ← get (fun s => (0 <? length (polls s))%nat);
  _ ← scheduleLeaseFlush;
  if left || changed then broadcastAgentPollingIfChanged else mret tt.

(** ** The queue *)

Definition duplicates (event : js) (e : pending) : bool :=
  ((p_event e).["id"] === event.["id"]) && ((p_event e).["type"] === event.["type"])
  && (negb (event.["type"] === JStr "variant_mount_failed") || ((p_event e).["variant"] === event.["variant"])).

Definition push_event (event : js) s : srv W :=
  let k := nextEventSeq s in
  set_next (k + 1) (set_queue (queue s ++ [k]) (set_heap (<[k := Pending event (NInt 0) k]> (heap s)) s)).

Definition enqueueEvent (event : js) : eff (srv W) unit :=
  if negb (truthy event) then mret tt else
  duplicate ← get (fun s => truthy event.["id"] && existsb (duplicates event) (pendingEvents s));
  if duplicate : bool then mret tt else
  _ ← upd (push_event event);
  flushPendingPolls.

Fixpoint enqueue_all (snapshots : list js) : eff (srv W) unit :=
  match snapshots with
  | [] => mret tt
  | snapshot :: rest =>
    _ ← (if truthy snapshot.["pendingEvent"] then enqueueEvent snapshot.["pendingEvent"] else mret tt);
    enqueue_all rest
  end.
Definition restorePendingEventsFromStore : eff (srv W) unit :=
  snapshots ← in_store store_active; enqueue_all snapshots.

Definition findAvailablePendingEvent (types : option (list string)) s : option pending :=
  selectAvailablePendingEvent (pendingEvents s) (clock s) types.

(** [entry.event?.id === id && (!type || entry.event?.type === type)]. *)
Definition matches (id sourceEventType : js) (e : pending) : bool :=
  ((p_event e).["id"] === id)
  && (negb (truthy sourceEventType) || ((p_event e).["type"] === sourceEventType)).

Definition find_entry (id sourceEventType : js) s : option pending :=
  find (matches id sourceEventType) (pendingEvents s).

Definition remove_entry (k : Z) s : srv W := set_queue (bfilter (fun k' => negb (k' =? k)) (queue s)) s.

Definition acknowledgePendingEvent (id sourceEventType : js) : eff (srv W) js :=
  if negb (truthy id) then mret (JBool false) else
  found ← get (find_entry id sourceEventType);
  match found with
  | None => mret (JBool false)
  | Some e =>
    _ ← upd (remove_entry (p_seq e));
    _ ← scheduleLeaseFlush;
    _ ← broadcastAgentPollingIfChanged;
    mret (p_event e)
  end.

Definition releasePendingEvent (id sourceEventType : js) : eff (srv W) js :=
  found ← get (find_entry id sourceEventType);
  match found with
  | None => mret JNull
  | Some e =>
    _ ← upd (set_entry (p_seq e) (with_lease (NInt 0)));
    _ ← scheduleLeaseFlush;
    mret (p_event e)
  end.

(** The two functions that drop every entry of a kind. *)
Definition drop_entries (gone : pending -> bool) : eff (srv W) nat :=
  entries ← get pendingEvents;
  let dropped := bfilter gone entries in
  _ ← upd (fun s => set_queue (bfilter (fun k => negb (existsb (fun e => p_seq e =? k) dropped)) (queue s)) s);
  _ ← run_if (0 <? length dropped)%nat (_ ← scheduleLeaseFlush; broadcastAgentPollingIfChanged);
  mret (length dropped).

Definition is_generation_of (id : js) (e : pending) : bool :=
  ((p_event e).["id"] === id) && ((p_event e).["type"] === JStr "generate").

Definition retirePendingGeneration (id : js) : eff (srv W) nat :=
  if negb (truthy id) then mret O else drop_entries (is_generation_of id).

Definition cancelQueuedAnonymousExitEvents : eff (srv W) nat :=
  drop_entries (fun e => ((p_event e).["type"] === JStr "exit") && negb (truthy (p_event e).["id"])).

Definition findPendingEventById (id sourceEventType : js) s : js :=
  if negb (truthy id) then JNull
  else match find_entry id sourceEventType s with Some e => p_event e ||? JNull | None => JNull end.

(** ** Delivery *)

Definition recordGenerateDelivery (k : Z) : eff (srv W) unit :=
  entry ← get (fun s => heap s !! k);
  match entry with
  | None => mret tt
  | Some e =>
    let event := p_event e in
    if negb (truthy event) || negb (event.["type"] === JStr "generate") || truthy event.["generationReadyAt"]
    then mret tt else
    at_ ← get clock;
    let event' := spread_with event [("generationReadyAt", int at_)] in
    _ ← upd (set_entry k (with_event event'));
    _ ← in_store (store_append event');
    recordAgentPhase event.["id"] "generation_ready" [("at", int at_)]
  end.

(** The rest of [prepareGenerateEventForLease], with the result of
    [runGenerationPreflight]. *)
Definition finish_preflight (k : Z) (event result : js) : eff (srv W) unit :=
  let ok := truthy result.["ok"] in
  let event' := spread_with event
    ([("scaffoldAttempted", JBool true); ("scaffoldDurationMs", result.["durationMs"] ?? JNull)]
     ++ (if ok then [("scaffold", result.["scaffold"])]
         else [("scaffoldError", result.["error"] ||? result.["reason"])])) in
  _ ← upd (set_entry k (with_event event'));
  _ ← in_store (store_append event');
  recordAgentPhase event.["id"] (if ok then "source_ready" else "scaffold_fallback")
    [("durationMs", result.["durationMs"] ?? JNull);
     ("previewMode", (if nullish result.["scaffold"] then JUndef else result.["scaffold"].["previewMode"]) ||? JStr "source")].

Definition land (i : nat) (f : flight) s : srv W := set_flights (delete i (flights s)) s.

Definition preflightDone (i : nat) (f : flight) (result : js) : eff (srv W) unit :=
  let to st := upd (fun s => set_flights (<[i := Flight (f_entry f) (f_poll f) (f_leaseMs f) (f_parked f) (f_event f) st]> (flights s)) s) in
  attempt (_ ← finish_preflight (f_entry f) (f_event f) result; to Settling) (fun _ => to Failed).

(** [poll.resolve] for a parked poll; a direct answer unless the client has gone. *)
Definition deliver (f : flight) (open : bool) (event : js) : eff (srv W) unit :=
  if f_parked f then upd (fun s => set_replies (replies s ++ [(f_poll f, event)]) (set_pollAt (clock s) s))
  else if open then upd (fun s => set_replies (replies s ++ [(f_poll f, event)]) s)
  else mret tt.

Definition timeout_event : js := JObj [("type", JStr "timeout")].

(** The end of [leaseEvent] and the delivery of its result. *)
Definition finish_lease (k : Z) (leaseMs : num) : eff (srv W) js :=
  entry ← get (fun s => heap s !! k);
  let event := match entry with Some e => p_event e | None => JUndef end in
  if negb (truthy event.["id"]) then
    _ ← upd (remove_entry k);
    mret event
  else
    now ← get clock;
    _ ← upd (set_entry k (with_lease (num_add (NInt now) leaseMs)));
    _ ← recordGenerateDelivery k;
    _ ← scheduleLeaseFlush;
    _ ← broadcastAgentPollingIfChanged;
    get (fun s => match heap s !! k with Some e => p_event e | None => JUndef end).

Definition settle (i : nat) (f : flight) (open : bool) : eff (srv W) unit :=
  _ ← upd (land i f);
  event ← attempt (match f_stage f with
                   | Failed => lift (Throw (error "lease failed"))
                   | _ => finish_lease (f_entry f) (f_leaseMs f) end)
                  (fun _ => mret timeout_event);
  deliver f open event.

(** The lease timer. *)
Definition leaseTimerFires : eff (srv W) unit :=
  _ ← upd (set_timer None); _ ← flushPendingPolls; broadcastAgentPollingIfChanged.

Definition chatAgentLikelyActive s : bool :=
  (0 <? length (polls s))%nat
  || (negb (lastPollAt s =? 0) && (clock s - lastPollAt s <? CHAT_POLL_FRESHNESS_MS)).
End Queue.

(** ** The queue invariant *)

Section QueueFacts.
Context {W : Type} `{HStore : !Store W}.
Implicit Types (s : srv W).

(** What the quiet operations - broadcasts, timers, store calls - leave alone. *)
Definition same_core s0 s : Prop :=
  heap s = heap s0 /\ queue s = queue s0 /\ polls s = polls s0 /\ flights s = flights s0 /\
  nextEventSeq s = nextEventSeq s0 /\ clock s = clock s0.

Definition quiet {A} (m : eff (srv W) A) : Prop := forall s0, keeps (same_core s0) m.

Lemma quiet_keeps {A} (m : eff (srv W) A) (P : srv W -> Prop) :
  quiet m -> (forall s s', same_core s s' -> P s -> P s') -> keeps P m.
Proof. intros Hq HP s Hs. apply (HP s); [|done]. by apply Hq. Qed.

Lemma same_core_refl s : same_core s s.
Proof. by split_and!. Qed.

Lemma quiet_core {A} (m : eff (srv W) A) s : quiet m -> same_core s (m s).2.
Proof. intros Hq. apply Hq, same_core_refl. Qed.

Lemma quiet_upd (f : srv W -> srv W) : (forall s, same_core s (f s)) -> quiet (upd f).
Proof.
  intros Hf s0 s (?&?&?&?&?&?). destruct (Hf s) as (?&?&?&?&?&?). unfold upd; simpl.
  unfold same_core. split_and!; congruence.
Qed.

Lemma quiet_in_store {A} (m : eff W A) : quiet (in_store m).
Proof.
  intros s0 s Hs. unfold in_store. destruct (m (world s)) as [r w]. exact Hs.
Qed.
Lemma quiet_broadcast msg : quiet (broadcast msg).
Proof. apply quiet_upd. intros s. by split_and!. Qed.
Lemma quiet_set_last b : quiet (upd (set_last b)).
Proof. apply quiet_upd. intros s. by split_and!. Qed.
Lemma quiet_set_timer t : quiet (upd (set_timer t)).
Proof. apply quiet_upd. intros s. by split_and!. Qed.

Lemma quiet_bcast_polling : quiet broadcastAgentPollingIfChanged.
Proof.
  intros s0. unfold broadcastAgentPollingIfChanged. keep; [apply quiet_set_last|apply quiet_broadcast].
Qed.
Lemma quiet_schedule : quiet scheduleLeaseFlush.
Proof. intros s0. unfold scheduleLeaseFlush. keep; apply quiet_set_timer. Qed.
Lemma quiet_phase id phase details : quiet (recordAgentPhase id phase details).
Proof. intros s0. unfold recordAgentPhase. keep; [apply quiet_in_store|apply quiet_broadcast]. Qed.
Lemma quiet_activity t ts details : quiet (recordManualEditActivity t ts details).
Proof.
  intros s0. unfold recordManualEditActivity. keep; [|apply quiet_broadcast].
  apply quiet_upd. intros s. by split_and!.
Qed.

(** The server queues objects whose [id] is a string or absent. *)
Definition plain_event (ev : js) : Prop :=
  is_obj ev = true /\ (is_string ev.["id"] = true \/ is_undef ev.["id"] = true).

(** What identifies the work of an event: updates of an entry keep it. *)
Definition same_key (a b : js) : Prop :=
  a.["id"] = b.["id"] /\ a.["type"] = b.["type"] /\ a.["variant"] = b.["variant"].

Record queue_ok s : Prop := {
  qo_heap : forall k e, heap s !! k = Some e -> p_seq e = k /\ k < nextEventSeq s /\ plain_event (p_event e);
  qo_queue : forall k, k ∈ queue s -> is_Some (heap s !! k);
  qo_nodup : NoDup (queue s);
  qo_dedup : forall k1 k2 e1 e2, k1 ∈ queue s -> k2 ∈ queue s ->
    heap s !! k1 = Some e1 -> heap s !! k2 = Some e2 ->
    truthy (p_event e1).["id"] = true -> duplicates (p_event e1) e2 = true -> k1 = k2;
  qo_flights : forall f, f ∈ flights s -> exists e, heap s !! f_entry f = Some e /\
    same_key (f_event f) (p_event e) /\ plain_event (f_event f) }.

Lemma same_key_refl a : same_key a a.
Proof. by split_and!. Qed.

Lemma duplicates_key a b e e' : same_key a b -> same_key (p_event e) (p_event e') ->
  duplicates a e = duplicates b e'.
Proof. intros (H1 & H2 & H3) (H4 & H5 & H6). unfold duplicates. by rewrite H1, H2, H3, H4, H5, H6. Qed.

Lemma queue_ok_core s s' : heap s' = heap s -> queue s' = queue s -> flights s' = flights s ->
  nextEventSeq s' = nextEventSeq s -> queue_ok s -> queue_ok s'.
Proof. intros Hh Hq Hf Hn [H1 H2 H3 H4 H5]. split; rewrite ?Hh, ?Hq, ?Hf, ?Hn; done. Qed.

Lemma quiet_ok {A} (m : eff (srv W) A) : quiet m -> keeps queue_ok m.
Proof. intros Hq. apply quiet_keeps; [done|]. intros s s' (?&?&?&?&?&?). by apply queue_ok_core. Qed.

(** Rewriting an entry within its key keeps the invariant. *)
Lemma queue_ok_update s k f :
  (forall e, heap s !! k = Some e -> p_seq (f e) = p_seq e /\ same_key (p_event (f e)) (p_event e) /\
     is_obj (p_event (f e)) = true) ->
  queue_ok s -> queue_ok (set_entry k f s).
Proof.
  intros Hf [H1 H2 H3 H4 H5].
  assert (forall k' e', heap (set_entry k f s) !! k' = Some e' -> exists e, heap s !! k' = Some e /\
    p_seq e' = p_seq e /\ same_key (p_event e') (p_event e) /\ plain_event (p_event e')) as Hl.
  { intros k' e'. unfold set_entry; simpl. destruct (decide (k = k')) as [->|Hne].
    - rewrite lookup_alter_eq. destruct (heap s !! k') as [e|] eqn:E; [|done]. intros [= <-].
      exists e. destruct (Hf e eq_refl) as (?&[Hi ?]&?). split_and!; try done.
      destruct (H1 _ _ E) as (_ & _ & _ & Hid). split; [done|]. by rewrite Hi.
    - rewrite lookup_alter_ne by done. intros He. exists e'. split_and!; try done. by eapply H1. }
  split.
  - intros k' e' He'. destruct (Hl _ _ He') as (e & He & -> & _ & ?). destruct (H1 _ _ He) as (?&?&?). done.
  - intros k' Hk'. unfold set_entry; simpl. apply lookup_alter_is_Some. by apply H2.
  - done.
  - intros k1 k2 e1 e2 Hk1 Hk2 He1 He2 Ht Hd.
    destruct (Hl _ _ He1) as (x1 & Hx1 & _ & Hs1 & _). destruct (Hl _ _ He2) as (x2 & Hx2 & _ & Hs2 & _).
    apply (H4 k1 k2 x1 x2); try done.
    + by destruct Hs1 as [<- _].
    + by rewrite <- (duplicates_key (p_event e1) (p_event x1) e2 x2).
  - intros g Hg. destruct (H5 g Hg) as (e & He & Hs & Ho).
    unfold set_entry; simpl. destruct (decide (k = f_entry g)) as [->|Hne].
    + rewrite lookup_alter_eq, He. simpl. exists (f e). destruct (Hf e He) as (_ & (K1 & K2 & K3) & _).
      destruct Hs as (L1 & L2 & L3). split_and!; try done. unfold same_key. split_and!; congruence.
    + exists e. by rewrite lookup_alter_ne.
Qed.

Lemma queue_ok_lease s k l : queue_ok s -> queue_ok (set_entry k (with_lease l) s).
Proof.
  intros H. apply queue_ok_update; [|done]. intros e He. simpl.
  split_and!; [done|apply same_key_refl|]. by destruct (qo_heap _ H _ _ He) as (_ & _ & ? & _).
Qed.

Lemma queue_ok_set_polls s ps : queue_ok s -> queue_ok (set_polls ps s).
Proof. by apply queue_ok_core. Qed.

Lemma queue_ok_sub s q : q `sublist_of` queue s -> queue_ok s -> queue_ok (set_queue q s).
Proof.
  intros Hs [H1 H2 H3 H4 H5].
  assert (forall k, k ∈ q -> k ∈ queue s) as Hin by (intros k Hk; by eapply elem_of_sublist).
  split; simpl; try done.
  - intros k ?. auto.
  - by eapply sublist_NoDup.
  - intros k1 k2 e1 e2 ? ?. eauto.
Qed.

Lemma queue_ok_flights s fs :
  (forall f, f ∈ fs -> exists e, heap s !! f_entry f = Some e /\
    same_key (f_event f) (p_event e) /\ plain_event (f_event f)) ->
  queue_ok s -> queue_ok (set_flights fs s).
Proof. intros Hf [H1 H2 H3 H4 H5]. by split. Qed.

Lemma pending_elem s e : queue_ok s ->
  e ∈ pendingEvents s <-> p_seq e ∈ queue s /\ heap s !! p_seq e = Some e.
Proof.
  intros H. unfold pendingEvents. rewrite list_elem_of_omap. split.
  - intros (k & Hk & He). by destruct (qo_heap _ H _ _ He) as (-> & _).
  - intros [Hq He]. eauto.
Qed.

(** *** Every operation keeps the invariant *)

(** A claim never throws; it leases its entry and puts one delivery in flight. *)
Lemma claim_spec k pid l parked s : exists st s2,
  let s1 := set_entry k (with_lease (num_add (NInt (clock s)) l)) s in
  same_core s1 s2 /\
  claim k pid l parked s = (Ok tt, set_flights (flights s2 ++
    [Flight k pid l parked (match heap s1 !! k with Some e => p_event e | None => JUndef end) st]) s2).
Proof.
  cbv zeta. unfold claim, mbind, eff_bind, get, upd, attempt.
  set (s1 := set_entry k _ s). cbv zeta.
  set (event := match heap s1 !! k with Some e => p_event e | None => JUndef end).
  destruct (_ || _); [exists Settling, s1; by split_and!|].
  pose proof (quiet_core (recordAgentPhase event.["id"] "picked_up" []) s1 (quiet_phase _ _ _)) as H1.
  destruct (recordAgentPhase event.["id"] "picked_up" [] s1) as [[[]|e1] s2]; simpl in H1;
    [|exists Failed, s2; by split_and!].
  pose proof (quiet_phase event.["id"] "scaffolding" [] s1 s2 H1) as H2.
  destruct (recordAgentPhase event.["id"] "scaffolding" [] s2) as [[[]|e2] s3]; simpl in H2;
    [exists Preflight, s3; by split|exists Failed, s3; by split].
Qed.

Lemma claim_ok k pid l parked s : queue_ok s -> is_Some (heap s !! k) ->
  queue_ok (claim k pid l parked s).2.
Proof.
  intros Hs [e He]. destruct (claim_spec k pid l parked s) as (st & s2 & (Hh & Hq & Hp & Hf & Hn & _) & ->).
  cbn [snd]. set (l' := num_add _ _) in *.
  assert (queue_ok (set_entry k (with_lease l') s)) as Hs1 by (by apply queue_ok_lease).
  assert (queue_ok s2) as Hs2 by (by apply (queue_ok_core (set_entry k (with_lease l') s))).
  assert (heap (set_entry k (with_lease l') s) !! k = Some (with_lease l' e)) as He1
    by (unfold set_entry; simpl; by rewrite lookup_alter_eq, He).
  rewrite He1. apply queue_ok_flights; [|done].
  intros f [Hin|Hin]%elem_of_app; [by apply (qo_flights _ Hs2)|].
  apply list_elem_of_singleton in Hin as ->. simpl. exists (with_lease l' e). rewrite Hh. split_and!; [done|apply same_key_refl|].
  by apply (qo_heap _ Hs _ _ He).
Qed.

Lemma first_served_spec now entries i ps j p e : first_served now entries i ps = Some (j, p, e) ->
  (i <= j)%nat /\ ps !! (j - i)%nat = Some p /\ selectAvailablePendingEvent entries now (q_types p) = Some e.
Proof.
  revert i; induction ps as [|p' ps IH]; intros i; simpl; [done|].
  destruct (selectAvailablePendingEvent entries now (q_types p')) as [e'|] eqn:E.
  - intros [= <- <- <-]. rewrite Nat.sub_diag. split_and!; [lia|done|done].
  - intros Hf. destruct (IH _ Hf) as (Hle & Hp & Hs). split_and!; [lia| |done].
    by replace (j - i)%nat with (S (j - S i)) by lia.
Qed.

Lemma first_served_none now entries i ps : first_served now entries i ps = None ->
  forall p, p ∈ ps -> selectAvailablePendingEvent entries now (q_types p) = None.
Proof.
  revert i; induction ps as [|p' ps IH]; intros i; simpl; [intros _ p Hp; by apply elem_of_nil in Hp|].
  destruct (selectAvailablePendingEvent entries now (q_types p')) eqn:E; [done|].
  intros Hf p [->|Hp]%elem_of_cons; [done|]. by apply (IH (S i)).
Qed.

Lemma flush_loop_ok fuel b : keeps queue_ok (flush_loop fuel b).
Proof.
  revert b; induction fuel as [|fuel IH]; intros b; [apply keeps_ret|].
  intros s Hs. cbn [flush_loop]. unfold mbind, eff_bind, get, upd.
  destruct (first_served _ _ _ _) as [[[i p] e]|] eqn:E; [|done].
  apply first_served_spec in E as (_ & _ & Hsel). apply select_elem in Hsel as (He & _ & _).
  apply pending_elem in He as [Hq He]; [|done].
  pose proof (claim_ok (p_seq e) (q_id p) (q_leaseMs p) true (set_polls (delete i (polls s)) s)
    (queue_ok_set_polls _ _ Hs) (mk_is_Some _ _ He)) as Hc.
  destruct (claim _ _ _ _ _) as [[[]|err] s']; [|done]. by apply IH.
Qed.

Lemma flush_ok : keeps queue_ok flushPendingPolls.
Proof.
  unfold flushPendingPolls. keep; [apply flush_loop_ok|apply quiet_ok, quiet_schedule|apply quiet_ok, quiet_bcast_polling].
Qed.

Lemma duplicates_sym a b l k e : plain_event a -> plain_event b -> p_event e = a -> truthy a.["id"] = true ->
  duplicates a (Pending b l k) = true -> truthy b.["id"] = true /\ duplicates b e = true.
Proof.
  intros [_ Ha] [_ Hb] He Ht. unfold duplicates. rewrite He. cbn [p_event].
  rewrite (strict_eq_sym a.["id"] b.["id"]), (strict_eq_sym a.["type"] b.["type"]),
    (strict_eq_sym a.["variant"] b.["variant"]).
  intros Hd. apply andb_true_iff in Hd as [[Hi Hty]%andb_true_iff Hv]. rewrite Hi, Hty. split.
  - destruct a.["id"], b.["id"]; try done; destruct Ha, Hb; try done.
    apply String.eqb_eq in Hi. by subst.
  - assert ((a.["type"] === JStr "variant_mount_failed") = (b.["type"] === JStr "variant_mount_failed")) as <-; [|done].
    destruct a.["type"], b.["type"]; try done. apply String.eqb_eq in Hty. by subst.
Qed.

Lemma push_event_ok event s : plain_event event ->
  truthy event.["id"] && existsb (duplicates event) (pendingEvents s) = false ->
  queue_ok s -> queue_ok (push_event event s).
Proof.
  intros Ho Hd Hs. pose proof Hs as [H1 H2 H3 H4 H5]. unfold push_event. set (k := nextEventSeq s).
  assert (heap s !! k = None) as Hk.
  { destruct (heap s !! k) as [e|] eqn:E; [|done]. apply H1 in E as (_ & ? & _). unfold k in *. lia. }
  assert (k ∉ queue s) as Hkq by (intros [e He]%H2; congruence).
  assert (forall e, heap s !! p_seq e = Some e -> p_seq e ∈ queue s -> truthy event.["id"] = true ->
    duplicates event e = false) as Hnd.
  { intros e He Hq Ht. rewrite Ht in Hd. simpl in Hd. apply not_true_iff_false. intros Hdup.
    rewrite <- not_true_iff_false in Hd. apply Hd. apply existsb_exists. exists e. split; [|done].
    apply list_elem_of_In. by apply pending_elem. }
  split; simpl.
  - intros k' e'. destruct (decide (k = k')) as [<-|Hne].
    + rewrite lookup_insert_eq. intros [= <-]. simpl. split_and!; [done|unfold k; lia|done].
    + rewrite lookup_insert_ne by done. intros He. destruct (H1 _ _ He) as (?&?&?). split_and!; try done. unfold k. lia.
  - intros k' [Hq| ->%list_elem_of_singleton]%elem_of_app; [|by rewrite lookup_insert_eq].
    rewrite lookup_insert_ne by (intros ->; done). by apply H2.
  - apply NoDup_app. split_and!; [done| |apply NoDup_singleton].
    intros x Hx ->%list_elem_of_singleton. done.
  - intros k1 k2 e1 e2 Hk1 Hk2.
    assert (forall x, x ∈ queue s ++ [k] -> x = k \/ x ∈ queue s /\ k <> x) as Hcase.
    { intros x [Hx| ->%list_elem_of_singleton]%elem_of_app; [right|by left]. split; [done|by intros ->]. }
    destruct (Hcase _ Hk1) as [->|[Hq1 Hn1]], (Hcase _ Hk2) as [->|[Hq2 Hn2]]; rewrite ?lookup_insert_eq; try done.
    + rewrite lookup_insert_ne by done. intros [= <-] He2 Ht Hdup. cbn [p_event] in *.
      destruct (H1 _ _ He2) as (E & _). subst k2. by rewrite Hnd in Hdup.
    + rewrite lookup_insert_ne by done. intros He1 [= <-] Ht Hdup.
      destruct (H1 _ _ He1) as (E & _ & Hp1). subst k1. exfalso.
      destruct (duplicates_sym (p_event e1) event (NInt 0) k e1 Hp1 Ho eq_refl Ht Hdup) as [Ht' Hd'].
      by rewrite Hnd in Hd'.
    + rewrite !lookup_insert_ne by done. eauto.
  - intros f Hf. destruct (H5 f Hf) as (e & He & ? & ?). exists e. split_and!; try done.
    destruct (decide (k = f_entry f)) as [Ek|]; [by rewrite <- Ek, Hk in He|]. by rewrite lookup_insert_ne.
Qed.

Lemma spread_same_key ev extra : plain_event ev -> NoDup (keys extra) ->
  assoc_get "id" extra = None -> assoc_get "type" extra = None -> assoc_get "variant" extra = None ->
  same_key (spread_with ev extra) ev /\ plain_event (spread_with ev extra).
Proof.
  intros [Ho Hid] Hd Hi Ht Hv.
  assert (same_key (spread_with ev extra) ev) as Hk.
  { unfold same_key. rewrite !jget_spread_with by done. by rewrite Hi, Ht, Hv. }
  split; [done|]. split; [done|]. by destruct Hk as [-> _].
Qed.

Lemma enqueue_ok event : plain_event event -> keeps queue_ok (enqueueEvent event).
Proof.
  intros Ho s Hs. unfold enqueueEvent. destruct (negb (truthy event)); [done|].
  unfold mbind, eff_bind, get, upd.
  destruct (truthy event.["id"] && existsb (duplicates event) (pendingEvents s)) eqn:Ed; [done|].
  apply flush_ok. by apply push_event_ok.
Qed.

Lemma find_entry_spec id ty s e : queue_ok s -> find_entry id ty s = Some e ->
  p_seq e ∈ queue s /\ heap s !! p_seq e = Some e /\ matches id ty e = true.
Proof.
  unfold find_entry. intros Hs Hf%find_some. destruct Hf as [Hin Hm].
  apply list_elem_of_In, (pending_elem s e Hs) in Hin as [? ?]. done.
Qed.

Lemma remove_ok k s : queue_ok s -> queue_ok (remove_entry k s).
Proof. intros Hs. unfold remove_entry. apply queue_ok_sub; [apply bfilter_sublist|done]. Qed.

Lemma ack_ok id ty : keeps queue_ok (acknowledgePendingEvent id ty).
Proof.
  unfold acknowledgePendingEvent. keep;
    [apply keeps_upd; intros s; apply remove_ok|apply quiet_ok, quiet_schedule|apply quiet_ok, quiet_bcast_polling].
Qed.

Lemma release_ok id ty : keeps queue_ok (releasePendingEvent id ty).
Proof.
  unfold releasePendingEvent. keep; [|apply quiet_ok, quiet_schedule].
  apply keeps_upd. intros s. apply queue_ok_lease.
Qed.

Lemma drop_ok gone : keeps queue_ok (drop_entries gone).
Proof.
  unfold drop_entries. keep; [|apply quiet_ok, quiet_schedule|apply quiet_ok, quiet_bcast_polling].
  apply keeps_upd. intros s. apply queue_ok_sub, bfilter_sublist.
Qed.

Lemma retire_ok id : keeps queue_ok (retirePendingGeneration id).
Proof. unfold retirePendingGeneration. keep. apply drop_ok. Qed.

Lemma cancel_exit_ok : keeps queue_ok cancelQueuedAnonymousExitEvents.
Proof. apply drop_ok. Qed.

Lemma delivery_ok k : keeps queue_ok (recordGenerateDelivery k).
Proof.
  intros s Hs. unfold recordGenerateDelivery. unfold mbind at 1, eff_bind at 1, get at 1.
  destruct (heap s !! k) as [e|] eqn:E; [|done]. destruct (_ || _); [done|].
  pose proof (qo_heap _ Hs _ _ E) as (_ & _ & Hp). unfold mbind at 1, eff_bind at 1, get at 1. cbv zeta.
  unfold mbind at 1, eff_bind at 1, upd at 1.
  match goal with |- queue_ok ((_ ≫= _) ?s1).2 => assert (queue_ok s1) as Hs1 end.
  { apply queue_ok_update; [|done]. intros e'. rewrite E. intros [= <-]. simpl.
    destruct (spread_same_key (p_event e) [("generationReadyAt", int (clock s))] Hp) as [? [? _]];
      [apply NoDup_singleton|done..]. }
  revert Hs1. generalize (set_entry k (with_event (spread_with (p_event e) [("generationReadyAt", int (clock s))])) s).
  apply (quiet_ok (_ ← in_store _; recordAgentPhase _ _ _)).
  intros s0. keep; [apply quiet_in_store|apply quiet_phase].
Qed.

Lemma finish_preflight_ok k event result s : plain_event event ->
  (exists e, heap s !! k = Some e /\ same_key event (p_event e)) ->
  queue_ok s -> queue_ok (finish_preflight k event result s).2.
Proof.
  intros Hp (e & He & Hk) Hs. unfold finish_preflight. cbv zeta.
  unfold mbind at 1, eff_bind at 1, upd at 1. set (event' := spread_with event _).
  assert (same_key event' event /\ plain_event event') as [Hk' Hp'].
  { apply spread_same_key; try done; destruct (truthy result.["ok"]); try done;
      vm_compute; repeat constructor; set_solver. }
  assert (queue_ok (set_entry k (with_event event') s)) as Hs1.
  { apply queue_ok_update; [|done]. intros e'. rewrite He. intros [= <-]. simpl.
    destruct Hk as (K1 & K2 & K3), Hk' as (L1 & L2 & L3). split_and!; [done| |apply Hp'].
    unfold same_key. split_and!; congruence. }
  revert Hs1. generalize (set_entry k (with_event event') s).
  apply (quiet_ok (_ ← in_store _; recordAgentPhase _ _ _)).
  intros s0. keep; [apply quiet_in_store|apply quiet_phase].
Qed.

Lemma restage_ok i f st s : f ∈ flights s -> queue_ok s ->
  queue_ok (set_flights (<[i := Flight (f_entry f) (f_poll f) (f_leaseMs f) (f_parked f) (f_event f) st]> (flights s)) s).
Proof.
  intros Hf Hs. apply queue_ok_flights; [|done]. intros g Hg.
  apply list_elem_of_lookup in Hg as [j Hg].
  apply list_lookup_insert_Some in Hg as [(-> & <- & _)|[_ Hg]].
  - simpl. by apply (qo_flights _ Hs).
  - apply (qo_flights _ Hs). by eapply list_elem_of_lookup_2.
Qed.

Lemma keeps_flights_quiet {A} (m : eff (srv W) A) fs : quiet m -> keeps (fun s => flights s = fs) m.
Proof. intros Hq. apply quiet_keeps; [done|]. intros s s' (_&_&_&->&_). done. Qed.

Lemma finish_preflight_flights k event result fs :
  keeps (fun s => flights s = fs) (finish_preflight k event result).
Proof.
  unfold finish_preflight. keep;
    [by apply keeps_upd|apply keeps_flights_quiet, quiet_in_store|apply keeps_flights_quiet, quiet_phase..].
Qed.

Lemma preflightDone_ok i f result s : f ∈ flights s -> queue_ok s -> queue_ok (preflightDone i f result s).2.
Proof.
  intros Hf Hs. destruct (qo_flights _ Hs f Hf) as (e & He & Hk & Hp).
  pose proof (finish_preflight_ok (f_entry f) (f_event f) result s Hp (ex_intro _ e (conj He Hk)) Hs) as Hok.
  pose proof (finish_preflight_flights (f_entry f) (f_event f) result (flights s) s eq_refl) as Hfl.
  unfold preflightDone, attempt, mbind, eff_bind, upd.
  destruct (finish_preflight _ _ _ s) as [[[]|err] s']; simpl in *; apply restage_ok; congruence || by rewrite Hfl.
Qed.

Lemma finish_lease_ok k l : keeps queue_ok (finish_lease k l).
Proof.
  unfold finish_lease. keep.
  - apply keeps_upd. intros s. apply remove_ok.
  - apply keeps_upd. intros s. apply queue_ok_lease.
  - apply delivery_ok.
  - apply quiet_ok, quiet_schedule.
  - apply quiet_ok, quiet_bcast_polling.
Qed.

Lemma deliver_quiet f open event : quiet (deliver f open event).
Proof. intros s0. unfold deliver. keep; apply quiet_upd; intros s; by split_and!. Qed.

Lemma settle_ok i f open : keeps queue_ok (settle i f open).
Proof.
  unfold settle. keep; try apply finish_lease_ok; [|apply quiet_ok, deliver_quiet].
  apply keeps_upd. intros s Hs. apply queue_ok_flights; [|done]. intros g Hg.
  apply (qo_flights _ Hs). by eapply elem_of_sublist; [|apply sublist_delete].
Qed.

Lemma timer_ok : keeps queue_ok leaseTimerFires.
Proof.
  unfold leaseTimerFires. keep; [apply quiet_ok, quiet_set_timer|apply flush_ok|apply quiet_ok, quiet_bcast_polling].
Qed.

(** ** A turn of the server *)

(** One turn of the event loop as far as the queue is concerned. [Poll arrives]
    is the queue part of the poll handler: serve at once, or park. *)
Definition pollArrives (p : poll) : eff (srv W) unit :=
  _ ← upd (fun s => set_pollAt (clock s) s);
  available ← get (findAvailablePendingEvent (q_types p));
  match available with
  | Some e => claim (p_seq e) (q_id p) (q_leaseMs p) false
  | None =>
    _ ← upd (fun s => set_polls (polls s ++ [p]) s);
    _ ← broadcastAgentPollingIfChanged;
    scheduleLeaseFlush
  end.

(** The poll's own timeout, or its connection closing. *)
Definition pollLeaves (pid : Z) : eff (srv W) unit :=
  _ ← upd (fun s => set_polls (bfilter (fun p => negb (q_id p =? pid)) (polls s)) s);
  broadcastAgentPollingIfChanged.

Inductive turn s : srv W -> Prop :=
| turn_enqueue event : plain_event event -> turn s (enqueueEvent event s).2
| turn_ack id ty : turn s (acknowledgePendingEvent id ty s).2
| turn_release id ty : turn s (releasePendingEvent id ty s).2
| turn_retire id : turn s (retirePendingGeneration id s).2
| turn_cancel_exit : turn s (cancelQueuedAnonymousExitEvents s).2
| turn_poll p : turn s (pollArrives p s).2
| turn_poll_leaves pid : turn s (pollLeaves pid s).2
| turn_preflight i f result : flights s !! i = Some f -> f_stage f = Preflight -> turn s (preflightDone i f result s).2
| turn_settle i f open : flights s !! i = Some f -> f_stage f <> Preflight -> turn s (settle i f open s).2
| turn_timer : turn s (leaseTimerFires s).2
| turn_flush : turn s (flushPendingPolls s).2
| turn_quiet s' : same_core s s' -> turn s s'
| turn_tick t : clock s <= t -> turn s (Srv (heap s) (queue s) (polls s) (nextEventSeq s)
    (lastAgentPollingBroadcast s) (leaseTimer s) (lastPollAt s) (flights s) (sse s) (replies s)
    (manualEditActivity s) (nextManualEditSeq s) t (world s)).

Lemma pollArrives_ok p : keeps queue_ok (pollArrives p).
Proof.
  intros s Hs. unfold pollArrives, mbind, eff_bind, get, upd.
  assert (queue_ok (set_pollAt (clock s) s)) as Hs1 by (by apply (queue_ok_core s)).
  destruct (findAvailablePendingEvent (q_types p) (set_pollAt (clock s) s)) as [e|] eqn:E.
  - apply select_elem in E as (He & _ & _). apply pending_elem in He as [_ He]; [|done].
    apply claim_ok; [done|]. by exists e.
  - revert Hs1. generalize (set_pollAt (clock s) s).
    change (keeps queue_ok (_ ← upd (fun s => set_polls (polls s ++ [p]) s);
      _ ← broadcastAgentPollingIfChanged; scheduleLeaseFlush)).
    keep; [|apply quiet_ok, quiet_bcast_polling|apply quiet_ok, quiet_schedule].
    apply keeps_upd. intros s'. apply queue_ok_set_polls.
Qed.

Lemma turn_ok s s' : turn s s' -> queue_ok s -> queue_ok s'.
Proof.
  destruct 1 as [event He|id ty|id ty|id| |p|pid|i f result Hf _|i f open Hf _| | |s' Hc|t Ht]; intros Hs.
  - by apply enqueue_ok.
  - by apply ack_ok.
  - by apply release_ok.
  - by apply retire_ok.
  - by apply cancel_exit_ok.
  - by apply pollArrives_ok.
  - revert Hs. apply (keeps_bind queue_ok); [apply keeps_upd; intros ?; apply queue_ok_set_polls|].
    intros ?. apply quiet_ok, quiet_bcast_polling.
  - apply preflightDone_ok; [|done]. by eapply list_elem_of_lookup_2.
  - by apply settle_ok.
  - by apply timer_ok.
  - by apply flush_ok.
  - destruct Hc as (?&?&?&?&?&?). by apply (queue_ok_core s).
  - by apply (queue_ok_core s).
Qed.

(** *** Flushing serves every poll it can *)

Lemma flush_loop_spec fuel b s : queue_ok s -> (length (polls s) <= fuel)%nat ->
  exists b' s', flush_loop fuel b s = (Ok b', s') /\ queue_ok s' /\ clock s' = clock s /\
    (length (polls s') <= length (polls s))%nat /\
    forall p, p ∈ polls s' -> selectAvailablePendingEvent (pendingEvents s') (clock s') (q_types p) = None.
Proof.
  revert b s; induction fuel as [|fuel IH]; intros b s Hs Hl.
  - exists b, s. split_and!; try done. intros p Hp. destruct (polls s); [by apply elem_of_nil in Hp|simpl in Hl; lia].
  - cbn [flush_loop]. unfold mbind, eff_bind, get, upd.
    destruct (first_served _ _ _ _) as [[[i p] e]|] eqn:E.
    + apply first_served_spec in E as (_ & Hp & Hsel). apply select_elem in Hsel as (He & _ & _).
      apply pending_elem in He as [Hq He]; [|done].
      set (s1 := set_polls (delete i (polls s)) s).
      assert (queue_ok s1) as Hs1 by (by apply queue_ok_set_polls).
      pose proof (claim_ok (p_seq e) (q_id p) (q_leaseMs p) true s1 Hs1 (mk_is_Some _ _ He)) as Hc.
      destruct (claim_spec (p_seq e) (q_id p) (q_leaseMs p) true s1) as (st & s2 & (_&_&Hpl&_&_&Hck) & Ecl).
      rewrite Ecl in *. cbn [snd] in Hc.
      match type of Ecl with _ = (_, ?s3) => set (s' := s3) in * end.
      assert (S (length (polls s')) = length (polls s)) as Hlen.
      { change (polls s') with (polls s2). rewrite Hpl. change (polls (set_entry _ _ s1)) with (delete i (polls s)).
        rewrite Nat.sub_0_r in Hp. rewrite length_delete by (by exists p).
        apply lookup_lt_Some in Hp. lia. }
      destruct (IH true s' Hc ltac:(lia)) as (b' & s'' & Hr & Hok & Hck' & Hle & Hnone).
      exists b', s''. split_and!; try done; [|lia]. rewrite Hck'. exact Hck.
    + exists b, s. split_and!; try done. by apply first_served_none with (i := O).
Qed.

Lemma flush_spec s : queue_ok s -> exists s', flushPendingPolls s = (Ok tt, s') /\
  (length (polls s') <= length (polls s))%nat /\
  forall p, p ∈ polls s' -> selectAvailablePendingEvent (pendingEvents s') (clock s') (q_types p) = None.
Proof.
  intros Hs. destruct (flush_loop_spec (length (polls s)) false s Hs (le_n _)) as (b & s1 & Hr & _ & _ & Hle & Hn).
  unfold flushPendingPolls. unfold mbind, eff_bind, get. rewrite Hr.
  assert (forall m : eff (srv W) unit, quiet m -> forall s0, same_core s1 s0 -> (m s0).1 = Ok tt ->
    exists s', m s0 = (Ok tt, s') /\ same_core s1 s') as Hstep.
  { intros m Hq s0 Hc Hm. exists (m s0).2. split; [by destruct (m s0); simpl in *; subst|]. by apply Hq. }
  assert (forall s0, (scheduleLeaseFlush s0).1 = Ok tt) as Hsch.
  { intros s0. unfold scheduleLeaseFlush, mbind, eff_bind, get, upd. cbv zeta. by repeat case_goal. }
  assert (forall s0, (broadcastAgentPollingIfChanged s0).1 = Ok tt) as Hb.
  { intros s0. unfold broadcastAgentPollingIfChanged, broadcast, mbind, eff_bind, get, upd. by case_goal. }
  destruct (Hstep _ quiet_schedule s1 (same_core_refl s1) (Hsch s1)) as (s2 & -> & Hc2).
  assert (forall s', same_core s1 s' -> (length (polls s') <= length (polls s))%nat /\
    forall p, p ∈ polls s' -> selectAvailablePendingEvent (pendingEvents s') (clock s') (q_types p) = None) as Hfin.
  { intros s' (Hh & Hq & Hp & _ & _ & Hck). rewrite Hp, Hck. unfold pendingEvents. by rewrite Hh, Hq. }
  destruct (_ || b).
  - destruct (Hstep _ quiet_bcast_polling s2 Hc2 (Hb s2)) as (s3 & -> & Hc3). exists s3. split; [done|auto].
  - exists s2. split; [done|auto].
Qed.

(** *** Leases exclude *)

Definition deliveries (k : Z) s : nat := length (bfilter (fun f => f_entry f =? k) (flights s)).
Definition in_force (k : Z) s : Prop := exists e, heap s !! k = Some e /\ leased (clock s) e = true.

Lemma in_force_core k s s' : same_core s s' -> in_force k s -> in_force k s' /\ deliveries k s' = deliveries k s.
Proof.
  intros (Hh&_&_&Hf&_&Hc) (e & He & Hl). unfold in_force, deliveries. rewrite Hh, Hf, Hc. eauto.
Qed.

Lemma claim_other k k' pid l parked s : k' <> k -> in_force k s ->
  in_force k (claim k' pid l parked s).2 /\ deliveries k (claim k' pid l parked s).2 = deliveries k s.
Proof.
  intros Hne (e & He & Hl). destruct (claim_spec k' pid l parked s) as (st & s2 & (Hh&_&_&Hf&_&Hc) & ->).
  unfold in_force, deliveries. simpl. rewrite Hh, Hc, Hf. simpl. split.
  - exists e. unfold set_entry; simpl. by rewrite lookup_alter_ne.
  - rewrite bfilter_app. simpl. destruct (Z.eqb_spec k' k); [done|]. by rewrite app_nil_r.
Qed.

Lemma selected_not_in_force k s types e : queue_ok s -> in_force k s ->
  selectAvailablePendingEvent (pendingEvents s) (clock s) types = Some e -> p_seq e <> k.
Proof.
  intros Hs (e' & He' & Hl) Hsel Hk. rewrite <- Hk in He'. apply select_elem in Hsel as (He & Hn & _).
  apply pending_elem in He as [_ He]; [|done]. congruence.
Qed.

Lemma flush_loop_excludes k fuel b s : queue_ok s -> in_force k s ->
  in_force k (flush_loop fuel b s).2 /\ deliveries k (flush_loop fuel b s).2 = deliveries k s.
Proof.
  revert b s; induction fuel as [|fuel IH]; intros b s Hs Hf; [done|].
  cbn [flush_loop]. unfold mbind, eff_bind, get, upd.
  destruct (first_served _ _ _ _) as [[[i p] e]|] eqn:E; [|done].
  apply first_served_spec in E as (_ & Hp & Hsel).
  pose proof (selected_not_in_force k s _ e Hs Hf Hsel) as Hne.
  apply select_elem in Hsel as (He & _ & _). apply pending_elem in He as [Hq He]; [|done].
  set (s1 := set_polls (delete i (polls s)) s).
  assert (queue_ok s1) as Hs1 by (by apply queue_ok_set_polls).
  pose proof (claim_ok (p_seq e) (q_id p) (q_leaseMs p) true s1 Hs1 (mk_is_Some _ _ He)) as Hc.
  destruct (claim_other k (p_seq e) (q_id p) (q_leaseMs p) true s1 Hne Hf) as [Hf' Hd].
  destruct (claim _ _ _ _ _) as [[[]|err] s']; simpl in *; [|done].
  change (deliveries k s) with (deliveries k s1). rewrite <- Hd. by apply IH.
Qed.

(** [k] stays leased and no delivery of [k] starts. *)
Definition excluding (k : Z) (n : nat) s : Prop :=
  queue_ok s /\ in_force k s /\ (deliveries k s <= n)%nat.

Lemma quiet_excludes {A} k n (m : eff (srv W) A) : quiet m -> keeps (excluding k n) m.
Proof.
  intros Hq. apply quiet_keeps; [done|]. intros s s' Hc (Hs & Hf & Hd).
  destruct (in_force_core k s s' Hc Hf) as [Hf' He]. split; [|split; [done|by rewrite He]].
  destruct Hc as (?&?&?&?&?&?). by apply (queue_ok_core s).
Qed.

Lemma flush_excludes k n : keeps (excluding k n) flushPendingPolls.
Proof.
  unfold flushPendingPolls. keep;
    [|apply quiet_excludes, quiet_schedule|apply quiet_excludes, quiet_bcast_polling].
  intros s (Hs & Hf & Hd). destruct (flush_loop_excludes k a false s Hs Hf) as [Hf' He].
  split; [by apply flush_loop_ok|]. split; [done|by rewrite He].
Qed.

Lemma sub_excludes k n (f : srv W -> srv W) :
  (forall s, queue_ok s -> queue_ok (f s)) ->
  (forall s, heap (f s) = heap s /\ clock (f s) = clock s /\ flights (f s) `sublist_of` flights s) ->
  keeps (excluding k n) (upd f).
Proof.
  intros Hok Hf. apply keeps_upd. intros s (Hs & (e & He & Hl) & Hd). destruct (Hf s) as (Hh & Hc & Hfl).
  split; [auto|]. split; [exists e; by rewrite Hh, Hc|].
  unfold deliveries in *. etransitivity; [|exact Hd]. by apply sublist_length, bfilter_mono.
Qed.

Lemma drop_excludes k n gone : keeps (excluding k n) (drop_entries gone).
Proof.
  unfold drop_entries. keep; [|apply quiet_excludes, quiet_schedule|apply quiet_excludes, quiet_bcast_polling].
  apply sub_excludes; [|done]. intros s. apply queue_ok_sub, bfilter_sublist.
Qed.

(** Operations that claim nothing. *)
Definition few (k : Z) (n : nat) s : Prop := (deliveries k s <= n)%nat.

Lemma quiet_few {A} k n (m : eff (srv W) A) : quiet m -> keeps (few k n) m.
Proof.
  intros Hq. apply quiet_keeps; [done|]. intros s s' (_&_&_&Hf&_). unfold few, deliveries. by rewrite Hf.
Qed.

Lemma upd_few k n (f : srv W -> srv W) : (forall s, flights (f s) `sublist_of` flights s) -> keeps (few k n) (upd f).
Proof.
  intros Hf. apply keeps_upd. intros s Hd. unfold few, deliveries in *. etransitivity; [|exact Hd].
  by apply sublist_length, bfilter_mono.
Qed.

Lemma phase_few k n id phase details : keeps (few k n) (recordAgentPhase id phase details).
Proof. apply quiet_few, quiet_phase. Qed.
Lemma store_few {A} k n (m : eff W A) : keeps (few k n) (in_store m).
Proof. apply quiet_few, quiet_in_store. Qed.
Lemma schedule_few k n : keeps (few k n) scheduleLeaseFlush.
Proof. apply quiet_few, quiet_schedule. Qed.
Lemma bcast_few k n : keeps (few k n) broadcastAgentPollingIfChanged.
Proof. apply quiet_few, quiet_bcast_polling. Qed.
#[local] Hint Resolve phase_few store_few schedule_few bcast_few : keeps.

Lemma delivery_few k n k' : keeps (few k n) (recordGenerateDelivery k').
Proof. unfold recordGenerateDelivery. keep. by apply upd_few. Qed.

Lemma settle_few k n i f open : keeps (few k n) (settle i f open).
Proof.
  unfold settle, finish_lease. keep; try (by apply upd_few); try apply delivery_few.
  - apply upd_few. intros s. apply sublist_delete.
  - apply quiet_few, deliver_quiet.
Qed.

Lemma restage_count k (fs : list flight) i f st : fs !! i = Some f ->
  length (bfilter (fun g => f_entry g =? k)
    (<[i := Flight (f_entry f) (f_poll f) (f_leaseMs f) (f_parked f) (f_event f) st]> fs))
  = length (bfilter (fun g => f_entry g =? k) fs).
Proof.
  revert i; induction fs as [|g fs IH]; intros [|i]; simpl; try done.
  - intros [= ->]. by destruct (f_entry f =? k).
  - intros Hi. destruct (f_entry g =? k); simpl; by rewrite IH.
Qed.

Lemma preflight_few k i f result s : flights s !! i = Some f ->
  deliveries k (preflightDone i f result s).2 = deliveries k s.
Proof.
  intros Hf. pose proof (finish_preflight_flights (f_entry f) (f_event f) result (flights s) s eq_refl) as Hfl.
  unfold preflightDone, attempt, mbind, eff_bind, upd.
  destruct (finish_preflight _ _ _ s) as [[[]|err] s']; simpl in *; unfold deliveries; simpl;
    rewrite Hfl; by apply restage_count.
Qed.

Lemma push_excludes k n event s : plain_event event ->
  truthy event.["id"] && existsb (duplicates event) (pendingEvents s) = false ->
  excluding k n s -> excluding k n (push_event event s).
Proof.
  intros Hp Hd (Hs & (e & He & Hl) & Hn). split; [by apply push_event_ok|]. split; [|done].
  exists e. split; [|done]. simpl. rewrite lookup_insert_ne; [done|].
  intros <-. destruct (qo_heap _ Hs _ _ He) as (_ & ? & _). lia.
Qed.

Lemma pollArrives_excludes k n p s : excluding k n s -> (deliveries k (pollArrives p s).2 <= n)%nat.
Proof.
  intros (Hs & Hf & Hn). unfold pollArrives, mbind, eff_bind, get, upd.
  set (s1 := set_pollAt (clock s) s).
  assert (excluding k n s1) as (Hs1 & Hf1 & Hn1) by (split; [by apply (queue_ok_core s)|done]).
  destruct (findAvailablePendingEvent (q_types p) s1) as [e|] eqn:E.
  - pose proof (selected_not_in_force k s1 _ e Hs1 Hf1 E) as Hne.
    by destruct (claim_other k (p_seq e) (q_id p) (q_leaseMs p) false s1 Hne Hf1) as [_ ->].
  - revert Hn1. generalize s1.
    change (keeps (few k n) (_ ← upd (fun s => set_polls (polls s ++ [p]) s);
      _ ← broadcastAgentPollingIfChanged; scheduleLeaseFlush)).
    keep. by apply upd_few.
Qed.

Lemma few_start {A} k (m : eff (srv W) A) s :
  (forall n, keeps (few k n) m) -> (deliveries k (m s).2 <= deliveries k s)%nat.
Proof. intros Hm. apply (Hm (deliveries k s) s). unfold few. lia. Qed.

Lemma ack_few k n id ty : keeps (few k n) (acknowledgePendingEvent id ty).
Proof. unfold acknowledgePendingEvent. keep. by apply upd_few. Qed.
Lemma release_few k n id ty : keeps (few k n) (releasePendingEvent id ty).
Proof. unfold releasePendingEvent. keep. by apply upd_few. Qed.
Lemma drop_few k n gone : keeps (few k n) (drop_entries gone).
Proof. unfold drop_entries. keep. by apply upd_few. Qed.
Lemma retire_few k n id : keeps (few k n) (retirePendingGeneration id).
Proof. unfold retirePendingGeneration. keep. apply drop_few. Qed.
Lemma leaves_few k n pid : keeps (few k n) (pollLeaves pid).
Proof. unfold pollLeaves. keep. by apply upd_few. Qed.

(** No turn starts a delivery of an event whose lease is in force. *)
Lemma turn_excludes k s s' : queue_ok s -> in_force k s -> turn s s' -> (deliveries k s' <= deliveries k s)%nat.
Proof.
  intros Hs Hf. assert (excluding k (deliveries k s) s) as Hx by (split; [done|split; [done|lia]]).
  destruct 1 as [event He|id ty|id ty|id| |p|pid|i f result Hfl _|i f open Hfl _| | |s' Hc|t Ht].
  - unfold enqueueEvent. destruct (negb (truthy event)); [done|]. unfold mbind at 1, eff_bind at 1, get at 1.
    destruct (truthy event.["id"] && existsb (duplicates event) (pendingEvents s)) eqn:Ed; [done|].
    apply (flush_excludes k (deliveries k s) (push_event event s)). by apply push_excludes.
  - apply few_start. intros n. apply ack_few.
  - apply few_start. intros n. apply release_few.
  - apply few_start. intros n. apply retire_few.
  - apply few_start. intros n. apply drop_few.
  - by apply pollArrives_excludes.
  - apply few_start. intros n. apply leaves_few.
  - by rewrite (preflight_few k i f result s Hfl).
  - apply few_start. intros n. apply settle_few.
  - assert (keeps (excluding k (deliveries k s)) leaseTimerFires) as Hk.
    { unfold leaseTimerFires. keep; [apply quiet_excludes, quiet_set_timer|apply flush_excludes|apply quiet_excludes, quiet_bcast_polling]. }
    by apply (Hk s Hx).
  - by apply (flush_excludes k (deliveries k s) s Hx).
  - destruct Hc as (_&_&_&Hfl&_). unfold deliveries. by rewrite Hfl.
  - done.
Qed.

Lemma turns_ok s s' : rtc turn s s' -> queue_ok s -> queue_ok s'.
Proof. induction 1 as [|x y z Ht _ IH]; intros Hs; [done|]. apply IH. by eapply turn_ok. Qed.

(** The server as it starts: nothing queued, nothing in flight. *)
Definition fresh s : Prop := heap s = ∅ /\ queue s = [] /\ flights s = [].
Lemma fresh_ok s : fresh s -> queue_ok s.
Proof.
  intros (Hh & Hq & Hf). split; rewrite ?Hh, ?Hq, ?Hf.
  - intros k e. by rewrite lookup_empty.
  - intros k Hk. by apply elem_of_nil in Hk.
  - constructor.
  - intros k1 k2 e1 e2 Hk. by apply elem_of_nil in Hk.
  - intros f Hk. by apply elem_of_nil in Hk.
Qed.

(** C39: One entry per piece of work: in every state the server reaches from a fresh
    start, two queued entries with the same session id and type - and, for mount failures,
    the same variant - are the same entry. *)
Theorem queue_deduplicated s0 s e1 e2 : fresh s0 -> rtc turn s0 s ->
  e1 ∈ pendingEvents s -> e2 ∈ pendingEvents s -> truthy (p_event e1).["id"] = true ->
  duplicates (p_event e1) e2 = true -> e1 = e2.
Proof.
  intros Hf Hr H1 H2 Ht Hd. pose proof (turns_ok _ _ Hr (fresh_ok _ Hf)) as Hs.
  apply pending_elem in H1 as [Hq1 Hh1]; [|done]. apply pending_elem in H2 as [Hq2 Hh2]; [|done].
  pose proof (qo_dedup _ Hs _ _ _ _ Hq1 Hq2 Hh1 Hh2 Ht Hd) as Hk. congruence.
Qed.

(** C6: A lease excludes: in every reachable state, while the lease of an entry is in
    force no turn of the server starts another delivery of that entry. *)
Theorem lease_excludes s0 s s' k : fresh s0 -> rtc turn s0 s -> in_force k s -> turn s s' ->
  (deliveries k s' <= deliveries k s)%nat.
Proof. intros Hf Hr. apply turn_excludes, (turns_ok s0); [done|by apply fresh_ok]. Qed.

(** C7: No poll is left waiting for work it could have: [flushPendingPolls] terminates
    without an exception, and then no available queued event is in the lane of a
    poll that is still parked. *)
Theorem flush_serves_every_poll s0 s : fresh s0 -> rtc turn s0 s ->
  exists s', flushPendingPolls s = (Ok tt, s') /\ (length (polls s') <= length (polls s))%nat /\
    forall p e, p ∈ polls s' -> e ∈ pendingEvents s' -> leased (clock s') e = false ->
      allowed_type (q_types p) (p_event e) = false.
Proof.
  intros Hf Hr. destruct (flush_spec s (turns_ok _ _ Hr (fresh_ok _ Hf))) as (s' & Hs & Hl & Hn).
  exists s'. split_and!; [done|done|]. intros p e Hp He Hle.
  by apply (proj1 (select_none _ _ _) (Hn p Hp)).
Qed.

(** What answers a request: nothing before the delivery itself. *)
Definition unanswered (rs : list (Z * js)) (fs : list flight) s : Prop := replies s = rs /\ flights s = fs.

Lemma finish_lease_unanswered k l rs fs : keeps (unanswered rs fs) (finish_lease k l).
Proof.
  assert (forall {A} (m : eff W A), keeps (unanswered rs fs) (in_store m)) as Hst.
  { intros A m s Hs. unfold in_store. by destruct (m (world s)). }
  unfold finish_lease, recordGenerateDelivery, recordAgentPhase, scheduleLeaseFlush,
    broadcastAgentPollingIfChanged, broadcast.
  keep; by apply keeps_upd.
Qed.

(** The event of an entry as it is handed out: a generation is stamped when it is delivered for the first time. *)
Definition needs_stamp (event : js) : bool :=
  truthy event && (event.["type"] === JStr "generate") && negb (truthy event.["generationReadyAt"]).
Definition handed_out (now : Z) (event : js) : js :=
  if truthy event.["id"] && needs_stamp event then spread_with event [("generationReadyAt", int now)] else event.

Lemma quiet_heap {A} (m : eff (srv W) A) s : quiet m -> heap (m s).2 = heap s /\ clock (m s).2 = clock s.
Proof. intros Hq. by destruct (quiet_core m s Hq) as (Hh & _ & _ & _ & _ & Hc). Qed.
Lemma schedule_returns s : exists s', scheduleLeaseFlush s = (Ok tt, s') /\ heap s' = heap s.
Proof.
  pose proof (quiet_heap scheduleLeaseFlush s quiet_schedule) as [Hh _]. revert Hh.
  unfold scheduleLeaseFlush, mbind, eff_bind, upd, get. simpl. repeat case_match; simpl; eauto.
Qed.
Lemma bcast_returns s : exists s', broadcastAgentPollingIfChanged s = (Ok tt, s') /\ heap s' = heap s.
Proof.
  pose proof (quiet_heap broadcastAgentPollingIfChanged s quiet_bcast_polling) as [Hh _]. revert Hh.
  unfold broadcastAgentPollingIfChanged, broadcast, mbind, eff_bind, upd, get, mret, eff_ret. case_match; simpl; eauto.
Qed.

(** The record of a delivery stamps the entry, unless a call of the store throws. *)
Lemma recorded_delivery k s e : heap s !! k = Some e ->
  let stamped := if needs_stamp (p_event e) then spread_with (p_event e) [("generationReadyAt", int (clock s))] else p_event e in
  exists r s', recordGenerateDelivery k s = (r, s') /\ ((p_event <$> heap s' !! k) = Some stamped) /\ (is_ok r = false -> needs_stamp (p_event e) = true).
Proof.
  intros He stamped. unfold recordGenerateDelivery, mbind, eff_bind, get. rewrite He. cbv zeta. unfold stamped, needs_stamp in *. clear stamped.
  destruct (truthy (p_event e)) eqn:E1; cbn [negb orb andb]; [|eexists _, s; by rewrite He].
  destruct ((p_event e).["type"] === JStr "generate") eqn:E2; cbn [negb orb andb]; [|eexists _, s; by rewrite He].
  destruct (truthy (p_event e).["generationReadyAt"]) eqn:E3; cbn [negb orb andb]; [eexists _, s; by rewrite He|].
  unfold upd at 1. set (ev := spread_with _ _). set (s1 := set_entry k (with_event ev) s).
  assert (heap s1 !! k = Some (with_event ev e)) as H1 by (unfold s1, set_entry; simpl; by rewrite lookup_alter_eq, He).
  destruct (quiet_heap _ s1 (quiet_in_store (store_append ev))) as [H2 _].
  destruct (in_store (store_append ev) s1) as [[r|err] s2]; cbn [snd] in H2; [|eexists _, s2; split; [done|]; by rewrite H2, H1].
  match goal with |- context [recordAgentPhase ?i ?p ?d] => destruct (quiet_heap _ s2 (quiet_phase i p d)) as [H3 _]; destruct (recordAgentPhase i p d s2) as [r' s3] end.
  cbn [snd] in H3. eexists _, s3. split; [done|]. by rewrite H3, H2, H1.
Qed.

Lemma leased_event k l s e : heap s !! k = Some e ->
  match (finish_lease k l s).1 with
  | Ok event => event = handed_out (clock s) (p_event e)
  | Throw _ => needs_stamp (p_event e) = true
  end.
Proof.
  intros He. unfold finish_lease, mbind, eff_bind, get, upd. rewrite He. cbv zeta. unfold handed_out.
  destruct (truthy (p_event e).["id"]) eqn:Ei; cbn [negb andb]; [|done].
  set (s1 := set_entry k _ s). assert (heap s1 !! k = Some (with_lease (num_add (NInt (clock s)) l) e)) as H1
    by (unfold s1, set_entry; simpl; by rewrite lookup_alter_eq, He).
  destruct (recorded_delivery k s1 _ H1) as (r & s2 & -> & H2 & Hr). cbn [p_event with_lease] in H2, Hr. change (clock s1) with (clock s) in H2.
  destruct r as [[]|err]; cbn [fst]; [|by apply Hr].
  destruct (schedule_returns s2) as (s3 & -> & H3). destruct (bcast_returns s3) as (s4 & -> & H4). cbn [fst].
  rewrite H4, H3. destruct (heap s2 !! k) as [e2|]; simpl in H2; [by injection H2|done].
Qed.

End QueueFacts.

(** *** Concrete runs *)

(** A store that only records what is appended. *)
#[local] Instance log_store : Store (list js) := {
  store_append ev := fun w => (Ok ev, w ++ [ev]);
  store_snapshot _ _ := mret JNull;
  store_has _ := mret true;
  store_active := mret [] }.

Definition start : srv (list js) := Srv ∅ [] [] 1 None None 0 [] [] [] JNull 1 1000 [].
Definition go : js := JObj [("type", JStr "generate"); ("id", JStr "0a1b2c3d")].
Definition later (t : Z) (s : srv (list js)) : srv (list js) :=
  Srv (heap s) (queue s) (polls s) (nextEventSeq s) (lastAgentPollingBroadcast s) (leaseTimer s)
    (lastPollAt s) (flights s) (sse s) (replies s) (manualEditActivity s) (nextManualEditSeq s) t (world s).
Definition wait (id : Z) (l : num) : srv (list js) -> srv (list js) := fun s => (pollArrives (Poll id l None) s).2.
Definition queued_go : srv (list js) := (enqueueEvent go start).2.

Lemma start_fresh : fresh start.
Proof. done. Qed.
Lemma queued_go_reachable : rtc turn start queued_go.
Proof. apply rtc_once, turn_enqueue. split; [reflexivity|left; reflexivity]. Qed.

(** The same event again is not queued twice. *)
Definition requeued_go : srv (list js) := (enqueueEvent go queued_go).2.
Lemma requeued_go_reachable : rtc turn start requeued_go.
Proof.
  apply (rtc_r _ queued_go); [apply queued_go_reachable|].
  apply turn_enqueue. split; [reflexivity|left; reflexivity].
Qed.

Lemma queue_deduplicated_witness : pendingEvents requeued_go = [Pending go (NInt 0) 1] /\
  Pending go (NInt 0) 1 = Pending go (NInt 0) 1.
Proof.
  split; [vm_compute; reflexivity|].
  apply (queue_deduplicated start requeued_go); [exact start_fresh|exact requeued_go_reachable| | |reflexivity|reflexivity];
    (vm_compute; left).
Defined.

(** A poll claims the event for 30 seconds; a second poll is parked. *)
Definition leased_go : srv (list js) := wait 1 (NInt 30000) queued_go.
Lemma leased_go_reachable : rtc turn start leased_go.
Proof. apply (rtc_r _ queued_go); [apply queued_go_reachable|]. apply turn_poll. Qed.

Lemma lease_excludes_witness : (deliveries 1 (wait 2 (NInt 30000) leased_go) <= 1)%nat.
Proof.
  apply (lease_excludes start leased_go (wait 2 (NInt 30000) leased_go) 1);
    [exact start_fresh|exact leased_go_reachable| |apply turn_poll].
  eexists. split; vm_compute; reflexivity.
Defined.

Lemma flush_serves_every_poll_witness : exists s', flushPendingPolls leased_go = (Ok tt, s').
Proof.
  destruct (flush_serves_every_poll start leased_go start_fresh leased_go_reachable) as (s' & Hs & _).
  exists s'. exact Hs.
Defined.

Definition served_go : srv (list js) :=
  (preflightDone 0 (Flight 1 7 (NInt 30000) false go Preflight) (JObj [("ok", JBool false)]) (wait 7 (NInt 30000) (later 2000 queued_go))).2.
Lemma served_go_reachable : rtc turn start served_go.
Proof.
  apply (rtc_r _ (wait 7 (NInt 30000) (later 2000 queued_go))); [|apply turn_preflight; reflexivity].
  apply (rtc_r _ (later 2000 queued_go)); [|apply turn_poll].
  apply (rtc_r _ queued_go); [apply queued_go_reachable|apply turn_tick; vm_compute; discriminate].
Qed.


(** A scaffolding slower than its lease defeats the claim: after the lease of a
    [generate] expires while its preflight is still running, a second poll claims
    the same event, both deliveries settle, and both agents are handed the
    generation. *)
Theorem slow_preflight_delivers_twice :
  let s1 := wait 2 (NInt 30000) (later 31001 (wait 1 (NInt 30000) queued_go)) in
  let ok := JObj [("ok", JBool true)] in
  let fly n st := Flight 1 n (NInt 30000) false go st in
  let s2 := (preflightDone 0 (fly 1 Preflight) ok s1).2 in
  let s3 := (preflightDone 1 (fly 2 Preflight) ok s2).2 in
  let s4 := (settle 0 (fly 1 Settling) true s3).2 in
  let s5 := (settle 0 (fly 2 Settling) true s4).2 in
  flights s1 = [fly 1 Preflight; fly 2 Preflight] /\
  fst <$> replies s5 = [1; 2] /\
  forallb (fun r => (r.2.["type"] === JStr "generate") && (r.2.["id"] === JStr "0a1b2c3d")) (replies s5) = true.
Proof. vm_compute. split_and!; reflexivity. Qed.

(** A lease length that is not a number leases nothing: a poll with such a
    [leaseMs] is handed the event, and so is the next poll at the same instant. *)
Theorem nan_lease_delivers_twice :
  let s := wait 2 NNaN (wait 1 NNaN ((enqueueEvent (go.["type" := JStr "steer"]) start).2)) in
  f_poll <$> flights s = [1; 2] /\ f_entry <$> flights s = [1; 1].
Proof. vm_compute. split; reflexivity. Qed.
