(* ===== verification/LiveServer.v ===== *)
(** * The live server's handlers ([live-server.mjs])

    The browser posts events ([POST /events]), agents poll and reply ([GET] and
    [POST /poll]). A handler is a computation on the server state that answers
    an HTTP status and a body; an exception that leaves it is an uncaught
    exception of the Node process. The session store, the manual-apply
    controller and the component previews are interfaces. *)
From S2P Require Import Prelude JsString JsValue Json JsRegex NodePath Vocabulary EventValidation.
From S2P Require Import SessionStore SessionJournal PollLanes PollQueue.
Local Open Scope Z_scope.

Definition SESSION_CREATING_EVENT_TYPES : list string := ["generate"; "steer"].
Definition COMPILE_INSTRUCTIONS : string :=
  "The publish was NOT delivered: the listed variant file(s) do not compile, so the browser never saw them. Fix each failure at the given file and line (the most common cause is a second top-level <style> element; Svelte allows exactly one, so merge all rules into the existing block), then send the same --reply done again.".
Definition DEFAULT_POLL_TIMEOUT : Z := 600000.

(** The parts of the server the handlers call: [manualApply], the component
    previews and their files. *)
Class Services (W : Type) := {
  getDeferred : js -> W -> js;
  validateResultMessage : js -> js -> js;
  resolveDeferred : js -> js -> eff W unit;
  hasTimedOutId : js -> W -> bool;
  rollbackTimedOutReply : js -> eff W js;
  summarizeManualApplyFailures : js -> js;
  compileCheckVariants : js -> W -> result js;
  bumpPreviewRevision : js -> eff W unit;
  removeAllComponentSessions : eff W unit;
  readTextFile : string -> W -> option string }.

Section Handlers.
Context {W : Type} `{HStore : !Store W} `{HSv : !Services W}.
Context (token : js) (cwd : string) (ts : js).
Implicit Types (s : srv W).

Definition response : Type := Z * js.
Definition reply (status : Z) (body : list (string * js)) : eff (srv W) response := mret (status, JObj body).
Definition fails (status : Z) (message : string) : eff (srv W) response := reply status [("error", JStr message)].

(** [msg?.k] and [msg.k]. *)
Definition prop (v : js) (k : string) : eff (srv W) js := lift (read_prop v k).

(** ** Recovering a missed completion *)

Definition number_or_0 (v : js) : js := JNum (to_num v) ||? int 0.
Definition num_of (v : js) : num := match v with JNum n => n | _ => NNaN end.

Definition variantCountLooksBehind (arrivedValue expectedValue : js) : bool :=
  let arrived := num_of (number_or_0 arrivedValue) in
  let expected := num_of (number_or_0 expectedValue) in
  num_leb arrived (NInt 0) || (num_ltb (NInt 0) expected && num_ltb arrived expected).

Definition or_undefined (v : js) : js := v ||? JUndef.

Definition missedCompletionFromSnapshot (snapshot : js) : js :=
  if nullish snapshot || negb (truthy snapshot.["id"]) || negb (truthy snapshot.["generationCompletedAt"]) then JNull else
  if truthy snapshot.["generationCanceled"] then JNull else
  if has_str GENERATION_FENCED_PHASES snapshot.["phase"] then JNull else
  let file := snapshot.["sourceFile"] ||? snapshot.["previewFile"] in
  if negb (truthy file) then JNull else
  JObj [("type", JStr "done"); ("id", snapshot.["id"]); ("file", file);
        ("sourceFile", or_undefined snapshot.["sourceFile"]);
        ("previewFile", or_undefined snapshot.["previewFile"]);
        ("previewMode", or_undefined snapshot.["previewMode"]);
        ("redelivered", JBool true)].

Definition detectMissedGenerationCompletion (event : js) : eff (srv W) js :=
  if nullish event || negb (truthy event.["id"]) || negb (event.["type"] === JStr "checkpoint") then mret JNull else
  if negb (event.["phase"] === JStr "generating") then mret JNull else
  if negb (variantCountLooksBehind event.["arrivedVariants"] event.["expectedVariants"]) then mret JNull else
  attempt (snapshot ← in_store (store_snapshot event.["id"] false);
           mret (missedCompletionFromSnapshot snapshot))
          (fun _ => mret JNull).

(** ** Generation progress *)

Definition generationIsFenced (id : js) : eff (srv W) bool :=
  if negb (truthy id) then mret false else
  attempt (snapshot ← in_store (store_snapshot id true);
           mret (opt_get snapshot "generationCanceled" === JBool true))
          (fun _ => mret false).

Definition generationPhaseAlreadyRecorded (id : js) (phase : string) : eff (srv W) bool :=
  attempt (snapshot ← in_store (store_snapshot id true);
           mret (truthy (opt_get (opt_get snapshot "generationTimings") phase)))
          (fun _ => mret false).

Definition record_once (id : js) (phase : string) (details : list (string * js)) : eff (srv W) unit :=
  already ← generationPhaseAlreadyRecorded id phase;
  if already : bool then mret tt else recordAgentPhase id phase details.

Definition recordGenerationCheckpoint (event : js) : eff (srv W) unit :=
  if nullish event || negb (truthy event.["id"]) || negb (event.["type"] === JStr "checkpoint") then mret tt else
  fenced ← generationIsFenced event.["id"];
  if fenced : bool then mret tt else
  if negb (has_str VARIANT_PROGRESS_CHECKPOINT_REASONS event.["reason"]) then mret tt else
  let arrived := number_or_0 event.["arrivedVariants"] in
  let expected := number_or_0 event.["expectedVariants"] in
  let a := num_of arrived in let e := num_of expected in
  if num_leb a (NInt 0) || num_leb e (NInt 0) then mret tt else
  let previewMode := event.["previewMode"] ||? JStr "source" in
  let previewFile := event.["previewFile"] ||? event.["file"] in
  _ ← run_if (truthy previewFile) (broadcast (JObj [
    ("type", JStr "variant_progress"); ("id", event.["id"]); ("file", previewFile);
    ("sourceFile", event.["sourceFile"] ||? (if previewMode === JStr "source" then previewFile else JUndef));
    ("previewFile", previewFile); ("previewMode", previewMode);
    ("arrivedVariants", arrived); ("expectedVariants", expected);
    ("publicationKind", event.["publicationKind"] ||? JStr "variants")]));
  at_ ← get clock;
  let details := [("arrivedVariants", arrived); ("expectedVariants", expected);
                  ("checkpointReason", event.["reason"] ||? JNull); ("at", int at_)] in
  _ ← record_once event.["id"] "first_reviewable" details;
  _ ← run_if (num_leb (NInt 2) a && num_leb (NInt 3) e) (record_once event.["id"] "second_reviewable" details);
  run_if (num_leb e a) (record_once event.["id"] "all_variants_ready" details).

(** ** POST /events *)

(** [cleanupSvelteComponentSessionsBeforeExit]: best effort. *)
Definition cleanupBeforeExit : eff (srv W) unit :=
  attempt (in_store removeAllComponentSessions) (fun _ => mret tt).

Definition session_known (msg : js) : eff (srv W) bool :=
  if truthy msg.["id"] && negb (has_str SESSION_CREATING_EVENT_TYPES msg.["type"])
  then in_store (store_has msg.["id"]) else mret true.

(** What the handler does with an event it has journalled. *)
Definition route_event (msg missedCompletion : js) : eff (srv W) response :=
  let case (t : string) := msg.["type"] === JStr t in
  _ ← (if case "accept" || case "discard" then _ ← retirePendingGeneration msg.["id"]; mret tt else mret tt);
  _ ← recordGenerationCheckpoint msg;
  _ ← run_if (truthy missedCompletion) (broadcast missedCompletion);
  _ ← run_if (case "exit") cleanupBeforeExit;
  let orphanedDiscard := case "discard" && (msg.["orphaned"] === JBool true) in
  _ ← run_if (orphanedDiscard && truthy msg.["id"])
        (attempt (_ ← in_store (store_append (JObj [("type", JStr "discarded"); ("id", msg.["id"]);
                                                    ("orphaned", JBool true)])); mret tt)
                 (fun _ => mret tt));
  _ ← run_if (negb (case "checkpoint") && negb (case "variant_mounted") && negb orphanedDiscard) (enqueueEvent msg);
  reply 200 [("ok", JBool true)].

Definition journal_event (msg missedCompletion : js) : eff (srv W) response :=
  stored ← (if truthy msg.["id"]
            then attempt (_ ← in_store (store_append msg); mret None) (fun err => mret (Some err))
            else mret None);
  match stored with
  | Some err => reply 500 [("error", JStr "session_store_append_failed"); ("message", JStr (err_message err))]
  | None => route_event msg missedCompletion
  end.

(** A valid event other than [agent_phase]. *)
Definition accept_event (msg : js) : eff (srv W) response :=
  known ← session_known msg;
  if negb known then reply 404 [("error", JStr "unknown_session"); ("id", msg.["id"])] else
  missedCompletion ← detectMissedGenerationCompletion msg;
  journal_event msg missedCompletion.

Definition handleEvents (body : string) : eff (srv W) response :=
  match json_parse body with
  | None => fails 400 "Invalid JSON"
  | Some msg =>
    t ← prop msg "token";
    if negb (t === token) then fails 401 "Unauthorized" else
    if msg.["type"] === JStr "manual_edits"
    then fails 400 "manual_edits must POST to /manual-edit-stash, not /events" else
    if msg.["type"] === JStr "manual_edit_apply"
    then fails 400 "manual_edit_apply is disabled; use /manual-edit-stash then /manual-edit-commit" else
    err ← lift (validateEvent msg);
    match err with
    | Some e => fails 400 e
    | None =>
      if msg.["type"] === JStr "agent_phase" then
        _ ← recordAgentPhase msg.["id"] (to_str msg.["phase"])
              ((if is_finite msg.["durationMs"] then [("durationMs", msg.["durationMs"])] else [])
               ++ [("owner", if is_string msg.["owner"] then msg.["owner"] else JUndef)]);
        reply 200 [("ok", JBool true)]
      else accept_event msg
    end
  end.

(** ** GET /poll *)

(** [parsePollTypes] on a query parameter ([JNull] when absent). *)
Definition parsePollTypes (value : option string) : option (list string) :=
  match value with
  | None => None
  | Some v =>
    if String.eqb v "" then None else
    let types := bfilter (fun t => negb (String.eqb t "")) (trim <$> split_char "," v) in
    if (0 <? length types)%nat then Some types else None
  end.

(** [parseInt(param || fallback, 10)]. *)
Definition parse_param (value : option string) (fallback : Z) : num :=
  match value with
  | Some v => if String.eqb v "" then NInt fallback else parse_int v
  | None => NInt fallback
  end.

(** The response is sent later: at once only for a bad token. The timer of a
    parked poll and its connection's end are [pollTimesOut] and [pollCloses]. *)
Definition handlePollGet (pid : Z) (tokenParam : js) (leaseMs types : option string) : eff (srv W) (option response) :=
  if negb (tokenParam === token) then mret (Some (401, JObj [("error", JStr "Unauthorized")])) else
  _ ← pollArrives (Poll pid (parse_param leaseMs 30000) (parsePollTypes types));
  mret None.

Definition pollTimesOut (pid : Z) : eff (srv W) unit :=
  _ ← pollLeaves pid;
  upd (fun s => set_replies (replies s ++ [(pid, timeout_event)]) s).
Definition pollCloses (pid : Z) : eff (srv W) unit := pollLeaves pid.

(** ** POST /poll *)

Definition type_of_entry (e : pending) : js := (p_event e).["type"].

Definition inferSourceEventType (now : Z) (msg : js) (entries : list pending) : js :=
  let entriesForId := bfilter (fun e => (p_event e).["id"] === msg.["id"]) entries in
  let has_type (t : string) := existsb (fun e => type_of_entry e === JStr t) entriesForId in
  let case (t : string) := msg.["type"] === JStr t in
  if case "discarded" || case "discard" then JStr "discard"
  else if case "complete" then
    (if has_type "carbonize_cleanup" then JStr "carbonize_cleanup"
     else if has_type "accept" then JStr "accept"
     else if has_type "generate" then JStr "generate" else JUndef)
  else if case "steer_done" then JStr "steer"
  else if case "agent_done" || case "done" then
    (if negb (has_type "generate") && has_type "variant_mount_failed" then JStr "variant_mount_failed"
     else JStr "generate")
  else if case "error" then
    match find (isLeased now) entriesForId with
    | Some e => type_of_entry e ||? JStr "generate"
    | None => JStr "generate"
    end
  else JUndef.

(** The preview manifest a reply may name instead of a source file. [split(path.sep).join('/')]
    is the identity on POSIX. *)
Definition under_previews (file : string) : bool :=
  includes ".impeccable/live/previews/" file || includes "node_modules/.impeccable-live/" file
  || includes "src/lib/impeccable/" file || includes "/.impeccable-live/" file.

Definition is_manifest (file : string) : bool := ends_with "/manifest.json" file || String.eqb file "manifest.json".

Definition manifest_path (file : string) : option string :=
  let full := resolve cwd file in
  let rel := relative cwd full in
  if String.eqb rel "" || starts_with ".." rel || is_absolute rel then None else Some full.

Definition sessionFileMetadataFromPollReply (file : js) (w : W) : js :=
  match file with
  | JStr f =>
    let base := JObj [("file", JStr f)] in
    if String.eqb f "" then base else
    if negb (is_manifest f) || negb (under_previews f) then base else
    match manifest_path f with
    | None => base
    | Some full =>
      match readTextFile full w ≫= json_parse with
      | None => base
      | Some manifest =>
        if negb (opt_get manifest "previewMode" === JStr "svelte-component") || negb (truthy (opt_get manifest "sourceFile"))
        then base
        else JObj [("file", JStr (to_str manifest.["sourceFile"])); ("sourceFile", JStr (to_str manifest.["sourceFile"]));
                   ("previewFile", JStr f); ("previewMode", manifest.["previewMode"])]
      end
    end
  | _ => JObj [("file", file)]
  end.

Definition reply_event_type (t : js) : string :=
  let case (x : string) := t === JStr x in
  if case "steer_done" then "steer_done"
  else if case "discard" || case "discarded" then "discarded"
  else if case "complete" then "complete"
  else if case "error" then "agent_error"
  else "agent_done".

(** An agent's answer to a chat-routed Apply. *)
Definition apply_reply (msg deferred : js) : eff (srv W) response :=
  let validation := validateResultMessage msg deferred in
  if negb (truthy validation.["ok"]) then
    _ ← recordManualEditActivity "manual_edit_apply_reply_invalid" ts
      [("id", msg.["id"]); ("pageUrl", deferred.["pageUrl"]);
       ("chunk", opt_get deferred.["event"] "chunk" ||? JNull); ("repair", opt_get deferred.["event"] "repair" ||? JNull);
       ("reason", opt_get validation.["body"] "reason" ||? opt_get validation.["body"] "error"
                  ||? JStr "invalid_manual_apply_result");
       ("status", opt_get msg.["data"] "status" ||? JNull)];
    mret (400, validation.["body"])
  else
    let result := validation.["result"] in
    _ ← recordManualEditActivity "manual_edit_apply_reply_received" ts
      [("id", msg.["id"]); ("pageUrl", deferred.["pageUrl"]);
       ("chunk", opt_get deferred.["event"] "chunk" ||? JNull); ("repair", opt_get deferred.["event"] "repair" ||? JNull);
       ("status", result.["status"]);
       ("appliedCount", (result.["appliedEntryIds"]).["length"]);
       ("failed", summarizeManualApplyFailures result.["failed"]);
       ("fileCount", (result.["files"]).["length"]); ("noteCount", (result.["notes"]).["length"])];
    _ ← in_store (resolveDeferred msg.["id"] result);
    _ ← acknowledgePendingEvent msg.["id"] JUndef;
    _ ← flushPendingPolls;
    reply 200 [("ok", JBool true)].

Definition stale_apply_reply (msg : js) : eff (srv W) response :=
  rollback ← in_store (rollbackTimedOutReply msg);
  let count k := (match rollback.[k] with JArr l => int (Z.of_nat (length l)) | _ => JUndef end) ||? int 0 in
  _ ← recordManualEditActivity "manual_edit_apply_stale_reply_rejected" ts
    [("id", msg.["id"]); ("rolledBackFileCount", count "rolledBackFiles");
     ("rollbackFailureCount", count "rollbackFailures")];
  mret (409, spread_with (JObj [("error", JStr "stale_manual_edit_apply_reply")]) (own_props rollback)).

Definition missing_or_unknown (msg : js) (what : string) : response :=
  (if truthy msg.["id"] then 404 else 400,
   JObj [("error", JStr ((if truthy msg.["id"] then "unknown_" else "missing_") +:+ what)); ("id", msg.["id"])]).

Definition retry_reply (msg sourceEventType : js) : eff (srv W) response :=
  releasedEvent ← releasePendingEvent msg.["id"] sourceEventType;
  if negb (truthy releasedEvent) then mret (missing_or_unknown msg "poll_retry_id") else
  _ ← flushPendingPolls;
  reply 200 [("ok", JBool true); ("released", JBool true)].

Definition steer_without_result (pendingEvent msg : js) : bool :=
  (opt_get pendingEvent "type" === JStr "steer") && (msg.["type"] === JStr "steer_done")
  && negb (truthy msg.["file"]) && blank_or_not_string msg.["message"].

(** The session of a reply that matches no queued event: (existing, skip). *)
Definition existing_session (acknowledged msg : js) : eff (srv W) (js * bool) :=
  if negb (truthy acknowledged) && truthy msg.["id"] then
    attempt (session ← in_store (store_snapshot msg.["id"] true);
             let existing := if truthy (opt_get session "updatedAt") then session else JNull in
             let phase := opt_get existing "phase" in
             mret (existing, (phase === JStr "completed") || (phase === JStr "discarded")))
            (fun _ => mret (JNull, false))
  else mret (JNull, false).

(** Broken variants are bounced before the browser imports them. *)
Definition bounce_broken (msg meta : js) : eff (srv W) (option response) :=
  if (meta.["previewMode"] === JStr "svelte-component") && truthy msg.["id"]
     && ((msg.["type"] === JStr "done") || negb (truthy msg.["type"])) then
    w ← get world;
    let check := match compileCheckVariants msg.["id"] w with
                 | Ok c => c | Throw _ => JObj [("ok", JBool true); ("failures", JArr [])] end in
    if negb (truthy check.["ok"]) then
      mret (Some (422, JObj [("error", JStr "variant_compile_failed"); ("id", msg.["id"]);
                             ("failures", check.["failures"]); ("_instructions", JStr COMPILE_INSTRUCTIONS)]))
    else
      _ ← attempt (in_store (bumpPreviewRevision msg.["id"])) (fun _ => mret tt);
      mret None
  else mret None.

Definition journal_reply (msg meta acknowledged : js) : eff (srv W) unit :=
  attempt (_ ← in_store (store_append (JObj [
      ("type", JStr (reply_event_type msg.["type"])); ("id", msg.["id"]); ("file", meta.["file"]);
      ("sourceFile", meta.["sourceFile"]); ("previewFile", meta.["previewFile"]);
      ("previewMode", meta.["previewMode"]); ("message", msg.["message"]);
      ("sourceEventType", opt_get acknowledged "type");
      ("carbonize", JBool (opt_get msg.["data"] "carbonize" === JBool true))])); mret tt)
    (fun _ => mret tt).

Definition publish_reply (msg acknowledged : js) (skipJournalReply : bool) : eff (srv W) response :=
  w ← get world;
  let meta := sessionFileMetadataFromPollReply msg.["file"] w in
  bounced ← bounce_broken msg meta;
  match bounced with
  | Some r => mret r
  | None =>
    _ ← run_if (truthy msg.["id"] && negb skipJournalReply) (journal_reply msg meta acknowledged);
    _ ← flushPendingPolls;
    _ ← broadcast (JObj [("type", msg.["type"] ||? JStr "done"); ("id", msg.["id"]); ("message", msg.["message"]);
      ("file", msg.["file"]); ("sourceFile", meta.["sourceFile"]); ("previewFile", meta.["previewFile"]);
      ("previewMode", meta.["previewMode"]); ("data", msg.["data"])]);
    reply 200 [("ok", JBool true)]
  end.

Definition event_reply (msg sourceEventType : js) : eff (srv W) response :=
  pendingEventBeforeAck ← get (findPendingEventById msg.["id"] sourceEventType);
  if steer_without_result pendingEventBeforeAck msg then reply 400 [("error", JStr "steer_done_requires_file_or_message");
    ("hint", JStr "Reply with --file after writing source, or include a message explaining an intentional no-op.")] else
  acknowledged ← acknowledgePendingEvent msg.["id"] sourceEventType;
  session ← existing_session acknowledged msg;
  if negb (truthy acknowledged) && negb (truthy session.1) then
    _ ← recordManualEditActivity "manual_edit_poll_reply_unknown" ts
          [("id", msg.["id"] ||? JNull); ("type", msg.["type"] ||? JNull)];
    mret (missing_or_unknown msg "poll_reply_id")
  else publish_reply msg acknowledged session.2.

Definition handlePollPost (body : string) : eff (srv W) response :=
  match json_parse body with
  | None => fails 400 "Invalid JSON"
  | Some msg =>
    t ← prop msg "token";
    if negb (t === token) then fails 401 "Unauthorized" else
    deferred ← get (fun s => getDeferred msg.["id"] (world s));
    if truthy deferred then apply_reply msg deferred else
    timedOut ← get (fun s => hasTimedOutId msg.["id"] (world s));
    if timedOut : bool then stale_apply_reply msg else
    now ← get clock;
    entries ← get pendingEvents;
    let sourceEventType := msg.["sourceEventType"] ||? inferSourceEventType now msg entries in
    if msg.["type"] === JStr "retry" then retry_reply msg sourceEventType
    else event_reply msg sourceEventType
  end.

(** ** Status for a connecting browser *)

Definition summarizeActiveSessionForClient (snapshot : js) : js :=
  let f (k : string) (d : js) := (k, snapshot.[k] ?? d) in
  let arr (k : string) := (k, if is_array snapshot.[k] then snapshot.[k] else JArr []) in
  JObj [("id", snapshot.["id"]); ("phase", snapshot.["phase"]);
    f "pageUrl" JNull; f "sourceFile" JNull; f "previewFile" JNull; f "previewMode" JNull;
    f "expectedVariants" (int 0); f "arrivedVariants" (int 0); f "visibleVariant" JNull;
    f "checkpointRevision" (int 0);
    ("browserCheckpointRevision", snapshot.["browserCheckpointRevision"] ?? snapshot.["checkpointRevision"] ?? int 0);
    f "publicationCheckpointRevision" (int 0);
    ("paramValues", snapshot.["paramValues"] ||? JObj []);
    f "generationPhase" JNull; f "generationCompletedAt" JNull;
    ("generationCanceled", JBool (snapshot.["generationCanceled"] === JBool true));
    f "cancelReason" JNull; arr "mountedVariants"; arr "mountFailures"; f "renderState" JNull].

Definition activeSessionSummaries : eff (srv W) (list js) :=
  snapshots ← in_store store_active; mret (summarizeActiveSessionForClient <$> snapshots).
End Handlers.

(** * Theorems *)

Section HandlerFacts.
Context {W : Type} `{HStore : !Store W} `{HSv : !Services W}.
Context (token : js) (cwd : string) (ts : js).
Implicit Types (s : srv W).

(** ** A request is a sequence of queue turns *)

Definition steps {A} (m : eff (srv W) A) : Prop := forall s0, keeps (rtc turn s0) m.

Lemma steps_turn {A} (m : eff (srv W) A) : (forall s, turn s (m s).2) -> steps m.
Proof. intros Hm s0 s Hs. by eapply rtc_r. Qed.
Lemma steps_quiet {A} (m : eff (srv W) A) : quiet m -> steps m.
Proof. intros Hq. apply steps_turn. intros s. apply turn_quiet, quiet_core, Hq. Qed.
Lemma steps_in_store {A} (m : eff W A) s0 : keeps (rtc turn s0) (in_store m).
Proof. apply steps_quiet, quiet_in_store. Qed.
Lemma steps_broadcast msg s0 : keeps (rtc turn s0) (broadcast msg).
Proof. apply steps_quiet, quiet_broadcast. Qed.
Lemma steps_phase id p d s0 : keeps (rtc turn s0) (recordAgentPhase id p d).
Proof. apply steps_quiet, quiet_phase. Qed.
Lemma steps_activity t d s0 : keeps (rtc turn s0) (recordManualEditActivity t ts d).
Proof. apply steps_quiet, quiet_activity. Qed.
Lemma steps_flush s0 : keeps (rtc turn s0) (flushPendingPolls (W := W)).
Proof. apply steps_turn, turn_flush. Qed.
Lemma steps_ack id ty s0 : keeps (rtc turn s0) (acknowledgePendingEvent id ty).
Proof. apply steps_turn. intros s. apply turn_ack. Qed.
Lemma steps_release id ty s0 : keeps (rtc turn s0) (releasePendingEvent id ty).
Proof. apply steps_turn. intros s. apply turn_release. Qed.
Lemma steps_retire id s0 : keeps (rtc turn s0) (retirePendingGeneration id).
Proof. apply steps_turn. intros s. apply turn_retire. Qed.
Lemma steps_enqueue msg s0 : plain_event msg -> keeps (rtc turn s0) (enqueueEvent msg).
Proof. intros Hp. apply steps_turn. intros s. by apply turn_enqueue. Qed.
#[local] Hint Resolve steps_in_store steps_broadcast steps_phase steps_activity steps_flush steps_ack
  steps_release steps_retire steps_enqueue : keeps.

Lemma steps_session_known msg s0 : keeps (rtc turn s0) (session_known msg).
Proof. unfold session_known. keep. Qed.
Lemma steps_missed msg s0 : keeps (rtc turn s0) (detectMissedGenerationCompletion msg).
Proof. unfold detectMissedGenerationCompletion. keep. Qed.
Lemma steps_checkpoint msg s0 : keeps (rtc turn s0) (recordGenerationCheckpoint msg).
Proof.
  unfold recordGenerationCheckpoint, generationIsFenced, record_once, generationPhaseAlreadyRecorded. keep.
Qed.
#[local] Hint Resolve steps_session_known steps_missed steps_checkpoint : keeps.

Lemma steps_route msg missed s0 : plain_event msg -> keeps (rtc turn s0) (route_event msg missed).
Proof. intros Hp. unfold route_event, cleanupBeforeExit, reply. keep. Qed.
Lemma steps_journal msg missed s0 : plain_event msg -> keeps (rtc turn s0) (journal_event msg missed).
Proof. intros Hp. unfold journal_event, reply. keep. by apply steps_route. Qed.
Lemma steps_accept msg s0 : plain_event msg -> keeps (rtc turn s0) (accept_event msg).
Proof. intros Hp. unfold accept_event, reply. keep. by apply steps_journal. Qed.

Lemma keeps_lift_bind {A B} (P : srv W -> Prop) (r : result A) (f : A -> eff (srv W) B) :
  (forall a, r = Ok a -> keeps P (f a)) -> keeps P (lift r ≫= f).
Proof. intros Hf. destruct r as [a|e]; [apply (Hf a eq_refl)|by intros s]. Qed.

Lemma steps_events body s0 :
  (forall msg, json_parse body = Some msg -> validateEvent msg = Ok None -> plain_event msg) ->
  keeps (rtc turn s0) (handleEvents token body).
Proof.
  intros Hp. unfold handleEvents, fails, reply, prop. destruct (json_parse body) as [msg|]; [|keep].
  apply keeps_lift_bind. intros t _. do 3 (case_match; [keep|]). apply keeps_lift_bind. intros [err|] E; keep. apply steps_accept. auto.
Qed.

Lemma accepted_plain msg : validateEvent msg = Ok None -> needs_id msg = true -> plain_event msg.
Proof.
  intros Hv Hn. destruct (validateEvent_type _ Hv) as (t & Ht & Hin). split.
  - apply (typed_object msg t Ht). destruct (String.eqb_spec t "") as [->|]; [|done]. exfalso. revert Hin.
    apply (bool_decide_unpack _). vm_compute. exact I.
  - left. pose proof (validateEvent_id _ Hv Hn) as Hi. destruct msg.["id"]; done.
Qed.

Lemma steps_poll_post body s0 : keeps (rtc turn s0) (handlePollPost token cwd ts body).
Proof.
  unfold handlePollPost, event_reply, publish_reply, bounce_broken, journal_reply, existing_session, retry_reply,
    stale_apply_reply, apply_reply, fails, reply, prop. keep.
Qed.

Lemma steps_poll_leaves pid s0 : keeps (rtc turn s0) (pollLeaves (W := W) pid).
Proof. apply steps_turn. intros s. apply turn_poll_leaves. Qed.

(** The requests of the event and poll endpoints. *)
Inductive request : Type :=
| PostEvents (body : string)
| GetPoll (pid : Z) (tokenParam : js) (leaseMs types : option string)
| PollTimesOut (pid : Z)
| PollCloses (pid : Z)
| PostPoll (body : string).

Definition handle (r : request) : eff (srv W) (option response) :=
  match r with
  | PostEvents body => x ← handleEvents token body; mret (Some x)
  | GetPoll pid tokenParam leaseMs types => handlePollGet token pid tokenParam leaseMs types
  | PollTimesOut pid => _ ← pollTimesOut pid; mret None
  | PollCloses pid => _ ← pollCloses pid; mret None
  | PostPoll body => x ← handlePollPost token cwd ts body; mret (Some x)
  end.

(** The validator lets an [exit] or a [prefetch] through whatever its [id] is. *)
Definition plain_request (r : request) : Prop :=
  match r with
  | PostEvents body => forall msg, json_parse body = Some msg -> validateEvent msg = Ok None ->
      needs_id msg = false -> plain_event msg
  | _ => True
  end.

Lemma steps_request r s0 : plain_request r -> keeps (rtc turn s0) (handle r).
Proof.
  destruct r as [body|pid tp lm types|pid|pid|body]; intros Hr; unfold handle, handlePollGet, pollTimesOut, pollCloses.
  - apply keeps_bind; [|intros ?; keep]. apply steps_events. intros msg Hm Hv.
    destruct (needs_id msg) eqn:E; [by apply accepted_plain|by apply (Hr msg)].
  - keep. apply steps_turn. intros s. apply turn_poll.
  - keep; [apply steps_poll_leaves|]. apply steps_quiet, quiet_upd. intros s. by split_and!.
  - keep. apply steps_poll_leaves.
  - apply keeps_bind; [apply steps_poll_post|intros ?; keep].
Qed.

(** The handlers refine the queue: whatever a request of the event and poll
    endpoints is answered - even when an exception escapes - its effect on the server is
    a sequence of queue turns, so a server that starts fresh and serves any requests
    stays deduplicated. *)
Theorem requests_refine_turns s0 s r : fresh s0 -> rtc turn s0 s -> plain_request r ->
  rtc turn s (handle r s).2 /\ queue_ok (handle r s).2.
Proof.
  intros Hf Hs Hr. pose proof (steps_request r s Hr s (rtc_refl _ _)) as H. split; [done|].
  apply (turns_ok s0); [by etrans|by apply fresh_ok].
Qed.

(** Computations that leave the queue alone unless they answer 200. *)
Definition inert (m : eff (srv W) response) : Prop :=
  forall s status b s', m s = (Ok (status, b), s') -> status <> 200 -> same_core s s'.
Definition answers_200 (m : eff (srv W) response) : Prop :=
  forall s x s', m s = (Ok x, s') -> x.1 = 200.

Lemma answers_bind {A} (m : eff (srv W) A) f : (forall a, answers_200 (f a)) -> answers_200 (m ≫= f).
Proof. intros Hf s x s' H. apply eff_bind_ok in H as (a & s1 & _ & H). by eapply Hf. Qed.
Lemma inert_200 m : answers_200 m -> inert m.
Proof. intros Hm s st b s' H Hne. by apply Hm in H. Qed.
Lemma inert_quiet m : quiet m -> inert m.
Proof. intros Hm s st b s' H _. pose proof (quiet_core m s Hm) as Hc. by rewrite H in Hc. Qed.
Lemma inert_bind {A} (m : eff (srv W) A) f : quiet m -> (forall a, inert (f a)) -> inert (m ≫= f).
Proof.
  intros Hm Hf s st b s' H Hne. apply eff_bind_ok in H as (a & s1 & H1 & H2).
  pose proof (quiet_core m s Hm) as Hc. rewrite H1 in Hc. simpl in Hc.
  pose proof (Hf a s1 st b s' H2 Hne) as Hc'. destruct Hc as (?&?&?&?&?&?), Hc' as (?&?&?&?&?&?).
  unfold same_core. split_and!; congruence.
Qed.
Lemma quiet_lift {A} (r : result A) : quiet (lift r : eff (srv W) A).
Proof. intros s0. apply keeps_lift. Qed.

Lemma route_200 msg missed : answers_200 (route_event msg missed).
Proof. unfold route_event, reply. cbv zeta. repeat (apply answers_bind; intros ?). by intros s x s' [= <- _]. Qed.

Lemma journal_inert msg missed : inert (journal_event msg missed).
Proof.
  unfold journal_event. apply inert_bind.
  - intros s0. keep. apply quiet_in_store.
  - intros [err|]; [apply inert_quiet; intros s0; unfold reply; keep|apply inert_200, route_200].
Qed.

Lemma missed_quiet msg : quiet (detectMissedGenerationCompletion msg).
Proof. intros s0. unfold detectMissedGenerationCompletion. keep. apply quiet_in_store. Qed.
Lemma known_quiet msg : quiet (session_known msg).
Proof. intros s0. unfold session_known. keep. apply quiet_in_store. Qed.

Lemma accept_inert msg : inert (accept_event msg).
Proof.
  unfold accept_event. apply inert_bind; [apply known_quiet|]. intros known.
  destruct (negb known); [apply inert_quiet; intros s0; unfold reply; keep|].
  apply inert_bind; [apply missed_quiet|intros missed; apply journal_inert].
Qed.

Lemma handleEvents_inert body : inert (handleEvents token body).
Proof.
  unfold handleEvents, fails, reply, prop.
  destruct (json_parse body) as [msg|]; [|apply inert_quiet; intros s0; keep].
  apply inert_bind; [apply quiet_lift|intros tok].
  do 3 (case_match; [apply inert_quiet; intros s0; keep|]).
  apply inert_bind; [apply quiet_lift|intros [e|]; [apply inert_quiet; intros s0; keep|]].
  case_match; [|apply accept_inert]. apply inert_200, answers_bind. intros []. by intros s x s' [= <- _].
Qed.

(** A request to [POST /events] that is not answered 200 leaves the queue, the parked
    polls and the deliveries in flight as they were; one without the token changes nothing. *)
Theorem rejected_event_inert body s status answer s' :
  handleEvents token body s = (Ok (status, answer), s') -> status <> 200 ->
  same_core s s' /\
  (forall msg, json_parse body = Some msg -> (msg.["token"] === token) = false -> s' = s /\ status = 401).
Proof.
  intros H Hne. split; [by eapply handleEvents_inert|].
  intros msg Hm Ht. revert H. unfold handleEvents. rewrite Hm. unfold prop, mbind, eff_bind, lift, read_prop.
  destruct (nullish msg); [done|]. rewrite Ht. by intros [= <- _ <-].
Qed.

(** ** What never reaches the queue *)

Lemma keeps_queue_quiet {A} (m : eff (srv W) A) (P : list Z -> Prop) : quiet m -> keeps (fun s => P (queue s)) m.
Proof. intros Hq. apply quiet_keeps; [done|]. by intros s s' (_ & -> & _). Qed.

Lemma claim_queue k pid l parked s : queue (claim k pid l parked s).2 = queue s.
Proof. destruct (claim_spec k pid l parked s) as (st & s2 & (_ & Hq & _) & ->). exact Hq. Qed.

Lemma flush_keeps_queue (P : list Z -> Prop) : keeps (fun s => P (queue s)) (flushPendingPolls (W := W)).
Proof.
  unfold flushPendingPolls. keep;
    [|apply keeps_queue_quiet, quiet_schedule|apply keeps_queue_quiet, quiet_bcast_polling]. rename a into n.
  generalize false as b. induction n as [|n IH]; intros b; simpl; [keep|]. keep; [by apply keeps_upd|].
  intros s Hs. by rewrite claim_queue.
Qed.

(** Events the handler only records. *)
Definition recorded_only (msg : js) : bool :=
  (msg.["type"] === JStr "checkpoint") || (msg.["type"] === JStr "variant_mounted")
  || (msg.["type"] === JStr "discard") && (msg.["orphaned"] === JBool true).

Definition queue_within (q : list Z) s : Prop := queue s `sublist_of` q.
Lemma within_quiet {A} q (m : eff (srv W) A) : quiet m -> keeps (queue_within q) m.
Proof. intros Hq. by apply (keeps_queue_quiet m (fun l => l `sublist_of` q)). Qed.
Lemma within_store {A} q (m : eff W A) : keeps (queue_within q) (in_store m).
Proof. apply within_quiet, quiet_in_store. Qed.
Lemma within_broadcast q msg : keeps (queue_within q) (broadcast msg).
Proof. apply within_quiet, quiet_broadcast. Qed.
Lemma within_phase q id p d : keeps (queue_within q) (recordAgentPhase id p d).
Proof. apply within_quiet, quiet_phase. Qed.
#[local] Hint Resolve within_store within_broadcast within_phase : keeps.

Lemma within_retire q id : keeps (queue_within q) (retirePendingGeneration id).
Proof.
  unfold retirePendingGeneration, drop_entries. keep;
    [|apply within_quiet, quiet_schedule|apply within_quiet, quiet_bcast_polling].
  apply keeps_upd. intros s Hs. unfold queue_within in *. simpl. etrans; [apply bfilter_sublist|done].
Qed.

Lemma within_route q msg missed : recorded_only msg = true -> keeps (queue_within q) (route_event msg missed).
Proof.
  intros Hr. unfold route_event. cbv zeta.
  assert (negb (msg.["type"] === JStr "checkpoint") && negb (msg.["type"] === JStr "variant_mounted")
    && negb ((msg.["type"] === JStr "discard") && (msg.["orphaned"] === JBool true)) = false) as ->.
  { unfold recorded_only in Hr. destruct (msg.["type"] === JStr "checkpoint"); [done|].
    destruct (msg.["type"] === JStr "variant_mounted"); [done|]. simpl in *. by rewrite Hr. }
  change (run_if false (enqueueEvent msg)) with (mret tt : eff (srv W) unit).
  unfold cleanupBeforeExit, reply, recordGenerationCheckpoint, generationIsFenced, record_once,
    generationPhaseAlreadyRecorded. keep. apply within_retire.
Qed.

(** Checkpoints, mount acknowledgements and orphaned discards are recorded but give no
    agent work: however the request ends, the queue only loses entries. *)
Theorem recorded_event_not_queued body msg s : json_parse body = Some msg -> recorded_only msg = true ->
  queue (handleEvents token body s).2 `sublist_of` queue s.
Proof.
  intros Hm Hr. assert (keeps (queue_within (queue s)) (handleEvents token body)) as Hk; [|by apply Hk; unfold queue_within].
  unfold handleEvents, fails, reply, prop. rewrite Hm. keep.
  unfold accept_event, journal_event, session_known, detectMissedGenerationCompletion, reply. keep.
  by apply within_route.
Qed.

(** ** Late errors *)

Lemma stale_keeps_queue msg (P : list Z -> Prop) : keeps (fun s => P (queue s)) (stale_apply_reply ts msg).
Proof.
  unfold stale_apply_reply. keep; apply keeps_queue_quiet; [apply quiet_in_store|apply quiet_activity].
Qed.

Lemma late_error_source now msg entries : msg.["type"] = JStr "error" ->
  (forall e, e ∈ entries -> (p_event e).["id"] === msg.["id"] = true -> leased now e = false) ->
  inferSourceEventType now msg entries = JStr "generate".
Proof.
  intros Hty Hl. unfold inferSourceEventType. cbv zeta. rewrite Hty.
  cbn [strict_eq String.eqb Ascii.eqb Bool.eqb orb].
  destruct (find _ _) as [e|] eqn:E; [|done]. apply find_some in E as [Hin He].
  apply bfilter_In in Hin as [Hin Hid]. unfold isLeased in He. by rewrite (Hl e (proj2 (list_elem_of_In _ _) Hin) Hid) in He.
Qed.

Lemma ack_keeps_other id ty s e : queue_ok s -> e ∈ pendingEvents s -> matches id ty e = false ->
  p_seq e ∈ queue (acknowledgePendingEvent id ty s).2.
Proof.
  intros Hs He Hm. apply pending_elem in He as [Hq Hh]; [|done]. unfold acknowledgePendingEvent.
  destruct (negb (truthy id)); [done|]. unfold mbind at 1, eff_bind at 1, get at 1.
  destruct (find_entry id ty s) as [e'|] eqn:E; [|done].
  destruct (find_entry_spec _ _ _ _ Hs E) as (_ & Hh' & Hm').
  unfold mbind at 1, eff_bind at 1, upd at 1.
  assert (p_seq e ∈ queue (remove_entry (p_seq e') s)) as Hr.
  { unfold remove_entry. simpl. apply bfilter_elem_of. split; [done|]. apply negb_true_iff, Z.eqb_neq. congruence. }
  revert Hr. apply (keeps_queue_quiet (_ ← scheduleLeaseFlush; _ ← _; mret _) (fun q => p_seq e ∈ q)).
  intros s0. keep; [apply quiet_schedule|apply quiet_bcast_polling].
Qed.

Lemma publish_keeps_queue msg acknowledged skip (P : list Z -> Prop) :
  keeps (fun s => P (queue s)) (publish_reply cwd msg acknowledged skip).
Proof.
  unfold publish_reply, bounce_broken, journal_reply, reply.
  keep; try apply flush_keeps_queue; apply keeps_queue_quiet; (apply quiet_in_store || apply quiet_broadcast).
Qed.

Lemma event_reply_keeps msg ty s e : queue_ok s -> e ∈ pendingEvents s -> matches msg.["id"] ty e = false ->
  p_seq e ∈ queue (event_reply cwd ts msg ty s).2.
Proof.
  intros Hs He Hm. unfold event_reply. unfold mbind at 1, eff_bind at 1, get at 1.
  destruct (steer_without_result _ _); [by apply pending_elem|].
  pose proof (ack_keeps_other _ _ _ _ Hs He Hm) as Hq.
  unfold mbind at 1, eff_bind at 1. destruct (acknowledgePendingEvent msg.["id"] ty s) as [[a|err] s1]; [|done].
  revert Hq. match goal with |- context [(?m s1).2] =>
    apply (fun H : keeps (fun s => p_seq e ∈ queue s) m => H s1) end.
  unfold existing_session. keep; try apply (publish_keeps_queue _ _ _ (fun q => p_seq e ∈ q));
    apply (keeps_queue_quiet _ (fun q => p_seq e ∈ q)); (apply quiet_in_store || apply quiet_activity).
Qed.

(** C9: A late [error] reply takes no work away: when no queued event of the session is
    leased and the reply does not name its source event, an Accept - or any queued
    event that is not a generation - is still queued after the reply. *)
Theorem late_error_keeps_accept body msg s e : queue_ok s -> json_parse body = Some msg ->
  msg.["type"] = JStr "error" -> truthy msg.["sourceEventType"] = false ->
  truthy (getDeferred msg.["id"] (world s)) = false ->
  (forall e', e' ∈ pendingEvents s -> (p_event e').["id"] === msg.["id"] = true -> leased (clock s) e' = false) ->
  e ∈ pendingEvents s -> ((p_event e).["type"] === JStr "generate") = false ->
  p_seq e ∈ queue (handlePollPost token cwd ts body s).2.
Proof.
  intros Hs Hm Hty Hsrc Hd Hl He Hg. unfold handlePollPost. rewrite Hm.
  unfold prop, mbind at 1, eff_bind at 1, lift, read_prop. destruct (nullish msg) eqn:Hn; [by apply pending_elem|].
  destruct (negb (msg.["token"] === token)); [by apply pending_elem|].
  unfold get, mbind, eff_bind. rewrite Hd. destruct (hasTimedOutId msg.["id"] (world s)).
  { revert s Hs Hd Hl He. intros s Hs _ _ He. apply (stale_keeps_queue msg (fun q => p_seq e ∈ q)). by apply pending_elem. }
  unfold or_else at 1. rewrite Hsrc, late_error_source by done. rewrite Hty. cbn [strict_eq String.eqb Ascii.eqb Bool.eqb].
  apply event_reply_keeps; [done|done|]. unfold matches, or_else. rewrite Hsrc. cbn [truthy String.eqb negb orb].
  by rewrite Hg, andb_false_r.
Qed.
End HandlerFacts.

(** * The server on the journal store

    [createLiveSessionStore({ cwd })] as the server's session store: the handlers and the
    journal composed. *)
Section OnJournal.
Context (syn : string -> string) (R L : list string).
Notation root := (of_segs R).
Notation legacy := (of_segs L).

#[local] Instance JournalStore : Store SessionJournal.world := {
  store_append ev := appendEvent syn root legacy JUndef ev;
  store_snapshot id includeCompleted :=
    match id with
    | JStr i => found ← getSnapshot syn root legacy i includeCompleted; mret (default JNull found)
    | _ => lift (Throw (error ("invalid session id: " +:+ to_str id)))
    end;
  store_has id := has root legacy id;
  store_active := listActiveSessions syn root legacy }.

Context `{HSv : !Services SessionJournal.world}.
Context (Rplain : Forall (fun s => plain_seg s = true) R) (Lplain : Forall (fun s => plain_seg s = true) L).
Context (token : js) (id : string) (id_ok : safeSessionId id = Ok id).
Implicit Types (s : srv SessionJournal.world).

Lemma normalize_named msg : is_obj msg = true -> truthy msg.["id"] = true -> is_string msg.["id"] = true ->
  truthy msg.["type"] = true -> is_string msg.["type"] = true ->
  normalizeEvent msg JUndef = Ok (spread_with msg [("id", msg.["id"])]).
Proof.
  intros Ho Ht Hs Hty Hst. unfold normalizeEvent. destruct msg; try done.
  cbn [truthy is_objecty negb orb]. cbv zeta. unfold or_else. rewrite Ht, Hs, Hty, Hst, Ht. done.
Qed.

(** Timers and broadcasts leave the store's world alone and do not throw. *)
Definition settles (m : eff (srv SessionJournal.world) unit) : Prop :=
  forall s, exists s', m s = (Ok tt, s') /\ world s' = world s /\ same_core s s'.

Lemma settles_schedule : settles scheduleLeaseFlush.
Proof.
  intros s. exists (scheduleLeaseFlush s).2. split; [|split; [|apply quiet_core, quiet_schedule]];
  unfold scheduleLeaseFlush, mbind, eff_bind, get, upd; cbv zeta; by repeat case_goal.
Qed.
Lemma settles_polling : settles broadcastAgentPollingIfChanged.
Proof.
  intros s. exists (broadcastAgentPollingIfChanged s).2. split; [|split; [|apply quiet_core, quiet_bcast_polling]];
  unfold broadcastAgentPollingIfChanged, broadcast, mbind, eff_bind, get, upd; by repeat case_goal.
Qed.

Lemma flush_nobody s : polls s = [] -> exists s',
  flushPendingPolls s = (Ok tt, s') /\ world s' = world s /\ same_core s s'.
Proof.
  intros Hp. unfold flushPendingPolls, mbind, eff_bind, get. rewrite Hp. cbn [length flush_loop mret eff_ret].
  rewrite Hp. cbn [length Nat.ltb Nat.leb orb].
  destruct (settles_schedule s) as (s' & -> & Hw & Hc). by exists s'.
Qed.

Lemma pending_core s s' : same_core s s' -> pendingEvents s' = pendingEvents s.
Proof. intros (Hh & Hq & _). unfold pendingEvents. by rewrite Hh, Hq. Qed.
Lemma pending_push msg s : queue_ok s -> pendingEvents (push_event msg s) = pendingEvents s ++ [Pending msg (NInt 0) (nextEventSeq s)].
Proof.
  intros Hs. unfold pendingEvents, push_event. cbn [queue heap set_next set_queue set_heap]. rewrite omap_app. cbn [omap list_omap].
  rewrite lookup_insert_eq. f_equal.
  assert (Forall (fun k => k <> nextEventSeq s) (queue s)) as Hf.
  { apply Forall_forall. intros k Hk. destruct (qo_queue _ Hs k Hk) as [e He]. destruct (qo_heap _ Hs _ _ He) as (_ & Hlt & _). lia. }
  induction Hf as [|k l Hk _ IH]; [done|]. cbn [omap list_omap]. rewrite lookup_insert_ne by done. by rewrite IH.
Qed.

Definition queued (msg : js) s : list pending :=
  if existsb (duplicates msg) (pendingEvents s) then pendingEvents s else pendingEvents s ++ [Pending msg (NInt 0) (nextEventSeq s)].

Lemma enqueue_nobody msg s : polls s = [] -> queue_ok s -> truthy msg = true -> truthy msg.["id"] = true -> exists s',
  enqueueEvent msg s = (Ok tt, s') /\ world s' = world s /\ pendingEvents s' = queued msg s.
Proof.
  intros Hp Hs Ht Hi. unfold enqueueEvent, queued. rewrite Ht, Hi. cbn [negb andb]. unfold mbind, eff_bind, get, upd.
  destruct (existsb (duplicates msg) (pendingEvents s)); [by exists s|].
  destruct (flush_nobody (push_event msg s) Hp) as (s' & -> & Hw & Hc). exists s'. split_and!; [done|done|].
  by rewrite (pending_core _ _ Hc), pending_push.
Qed.

(** C5: An accepted generation is durable before it is work: when [POST /events] answers a valid [generate] with 200, its
    journal has the event as its next numbered line, both caches agree with that journal, and the queue is what it was
    followed by the event, unless a generation of the session was queued already. The conditions are those of an append
    ([appendEvent_refines]: a coherent session, an event and a snapshot JSON keeps, a readable time stamp), and that no
    agent is parked: it would be served at once. *)
Theorem accepted_generate_durable body msg s es snap q :
  json_parse body = Some msg -> (msg.["token"] === token) = true -> validateEvent msg = Ok None ->
  msg.["type"] = JStr "generate" -> msg.["id"] = JStr id ->
  polls s = [] -> queue_ok s -> coherent R L id es (world s) -> replay 0 id es = Ok (snap, q) ->
  let ev := spread_with msg [("id", JStr id)] in
  let e := stored_entry q ev (now (world s)) in
  good_event ev -> timed e = true ->
  (forall snap', applyEvent 0 snap e = Ok snap' -> clean (payload snap' (utf8_size (journal_text (es ++ [e]))) (q + 1))) ->
  exists s', handleEvents token body s = (Ok (200, JObj [("ok", JBool true)]), s') /\
    coherent R L id (es ++ [e]) (world s') /\ pendingEvents s' = queued msg s.
Proof.
  intros Hm Htok Hv Hty Hid Hp Hqok Hc Hr ev e Hg Htimed Hclean.
  destruct (typed_object msg "generate" Hty eq_refl) as [Ho _].
  assert (truthy msg.["id"] = true) as Hti by (rewrite Hid; simpl; destruct (String.eqb_spec id "") as [->|]; done).
  assert (normalizeEvent msg JUndef = Ok ev) as Hn.
  { unfold ev. rewrite <- Hid. apply normalize_named; rewrite ?Hid, ?Hty; try done. by rewrite Hid in Hti. }
  assert (ev.["id"] = JStr id) as Hevid by (unfold ev; by rewrite jget_spread_with by (done || apply NoDup_singleton)).
  assert (ev.["type"] = JStr "generate") as Hevty by (unfold ev; by rewrite jget_spread_with by (done || apply NoDup_singleton)).
  destruct (applyEvent_ok 0 snap e) as (snap' & Ha & _).
  { by apply (replay_facts 0 id es snap q). }
  { fold (event_of e). unfold e. rewrite (stored_entry_spec id q ev (now (world s)) "generate") by done. unfold event_of, or_else. cbn [jget assoc_get String.eqb Ascii.eqb Bool.eqb default from_option Datatypes.id].
    assert (truthy (json_norm ev) = true) as -> by (by destruct ev; try (by destruct Hg)).
    unfold converted. rewrite (norm_get ev "type" Hg), Hevty. done. }
  destruct (appendEvent_ok syn R L JUndef Rplain Lplain id id_ok es (world s) snap q msg ev snap' Hc Hr Hn Hevid Hg Htimed Ha (Hclean _ Ha))
    as (w' & Happ & _ & Hc').
  set (s1 := set_world w' s).
  destruct (enqueue_nobody msg s1 Hp) as (s' & Hq & Hw & Hin); [by apply (queue_ok_core s)|by destruct msg|done|].
  exists s'. split; [|split; [by rewrite Hw|exact Hin]].
  unfold handleEvents. rewrite Hm. unfold prop, mbind at 1, eff_bind at 1, lift at 1, read_prop.
  assert (nullish msg = false) as -> by (by destruct msg).
  rewrite Htok, Hty. cbn [negb strict_eq String.eqb Ascii.eqb Bool.eqb].
  unfold mbind at 1, eff_bind at 1, lift at 1. rewrite Hv.
  unfold accept_event, session_known. rewrite Hti, Hty. unfold mbind at 1, eff_bind at 1. cbn [andb negb].
  change (has_str SESSION_CREATING_EVENT_TYPES (JStr "generate")) with true. cbn [negb mret eff_ret].
  unfold detectMissedGenerationCompletion, mbind at 1, eff_bind at 1. rewrite Hty.
  change (negb (JStr "generate" === JStr "checkpoint")) with true. rewrite orb_true_r. cbn [mret eff_ret].
  unfold journal_event. rewrite Hti. unfold mbind at 1, eff_bind at 1, attempt, in_store at 1.
  unfold mbind at 1, eff_bind at 1. unfold store_append at 1, JournalStore at 1. rewrite Happ. cbn [mret eff_ret].
  unfold route_event, recordGenerationCheckpoint. rewrite Hty. cbv zeta.
  change (negb (JStr "generate" === JStr "checkpoint")) with true. rewrite orb_true_r.
  unfold mbind, eff_bind, run_if.
  cbn [strict_eq String.eqb Ascii.eqb Bool.eqb orb andb negb truthy mret eff_ret].
  fold s1. by rewrite Hq.
Qed.
End OnJournal.

(** ** Concrete runs *)

#[local] Instance demo_store : Store SessionJournal.world := JournalStore demo_syntax demo_root demo_legacy.
#[local] Instance demo_services : Services SessionJournal.world := {
  getDeferred _ _ := JNull;
  validateResultMessage _ _ := JUndef;
  resolveDeferred _ _ := mret tt;
  hasTimedOutId _ _ := false;
  rollbackTimedOutReply _ := mret (JObj []);
  summarizeManualApplyFailures _ := JArr [];
  compileCheckVariants _ _ := Ok (JObj [("ok", JBool true); ("failures", JArr [])]);
  bumpPreviewRevision _ := mret tt;
  removeAllComponentSessions := mret tt;
  readTextFile _ _ := None }.

Definition idle : srv SessionJournal.world := Srv ∅ [] [] 1 None None 0 [] [] [] JNull 1 1700000000000 demo_world.
Definition secret : js := JStr "t".
Definition post (fields : list (string * js)) : string := json_stringify (JObj (("token", secret) :: fields)).
Definition go_msg : js := JObj [("token", secret); ("type", JStr "generate"); ("id", JStr "0a1b2c3d"); ("count", int 3);
  ("action", JStr "polish"); ("element", JObj [("outerHTML", JStr "<p>hi</p>")])].
Definition go_body : string := json_stringify go_msg.
Definition wrong_body : string := json_stringify (JObj [("token", JStr "x"); ("type", JStr "exit")]).

Lemma go_parse : json_parse go_body = Some go_msg.
Proof. vm_compute. reflexivity. Qed.
Lemma go_valid : validateEvent go_msg = Ok None.
Proof. vm_compute. reflexivity. Qed.

Lemma idle_fresh : fresh idle.
Proof. done. Qed.

Lemma requests_refine_turns_witness :
  rtc turn idle (handle secret "/p" JNull (PostEvents go_body) idle).2 /\
  queue_ok (handle secret "/p" JNull (PostEvents go_body) idle).2.
Proof.
  apply (requests_refine_turns secret "/p" JNull idle idle (PostEvents go_body) idle_fresh (rtc_refl _ _)).
  simpl. intros msg. rewrite go_parse. intros [= <-]. discriminate.
Defined.

Lemma rejected_event_inert_witness : same_core idle (handleEvents secret wrong_body idle).2.
Proof.
  destruct (handleEvents secret wrong_body idle) as [r s'] eqn:E.
  destruct r as [[st b]|err]; [|exfalso; vm_compute in E; discriminate E].
  apply (rejected_event_inert secret wrong_body idle st b s' E).
  intros ->. vm_compute in E. discriminate E.
Defined.

Definition ack_body : string := json_stringify (JObj [("token", secret); ("type", JStr "variant_mounted");
  ("id", JStr "0a1b2c3d"); ("variant", int 1)]).
Lemma recorded_event_not_queued_witness :
  queue (handleEvents secret ack_body idle).2 `sublist_of` queue idle.
Proof.
  destruct (json_parse ack_body) as [msg|] eqn:E; [|vm_compute in E; discriminate E].
  apply (recorded_event_not_queued secret ack_body msg idle E).
  vm_compute in E. injection E as <-. reflexivity.
Defined.

(** An Accept waits; the generation's worker reports an error late. *)
Definition accept_msg : js := JObj [("type", JStr "accept"); ("id", JStr "0a1b2c3d"); ("variantId", JStr "1")].
Definition accepting : srv SessionJournal.world := (enqueueEvent accept_msg idle).2.
Definition error_body : string := json_stringify (JObj [("token", secret); ("type", JStr "error"); ("id", JStr "0a1b2c3d")]).

Lemma late_error_keeps_accept_witness :
  (1 ∈ queue (handlePollPost secret "/p" JNull error_body accepting).2)%Z.
Proof.
  destruct (json_parse error_body) as [msg|] eqn:E; [|vm_compute in E; discriminate E].
  apply (late_error_keeps_accept secret "/p" JNull error_body msg accepting (Pending accept_msg (NInt 0) 1)).
  - apply enqueue_ok; [split; [reflexivity|left; reflexivity]|apply fresh_ok, idle_fresh].
  - exact E.
  - vm_compute in E. injection E as <-. reflexivity.
  - vm_compute in E. injection E as <-. reflexivity.
  - reflexivity.
  - intros e' He' _. change (pendingEvents accepting) with [Pending accept_msg (NInt 0) 1] in He'.
    apply list_elem_of_singleton in He' as ->. reflexivity.
  - change (pendingEvents accepting) with [Pending accept_msg (NInt 0) 1]. left.
  - reflexivity.
Defined.

Definition go_entry : js := stored_entry 1 (spread_with go_msg [("id", JStr "0a1b2c3d")]) 1700000000000.

Lemma accepted_generate_durable_witness : exists s',
  handleEvents secret go_body idle = (Ok (200, JObj [("ok", JBool true)]), s') /\
  coherent demo_root demo_legacy "0a1b2c3d" [go_entry] (world s').
Proof.
  destruct (accepted_generate_durable demo_syntax demo_root demo_legacy demo_root_plain demo_legacy_plain
    secret "0a1b2c3d" eq_refl go_body go_msg idle [] (baseSnapshot (JStr "0a1b2c3d")) 1) as (s' & H & Hc & _).
  - exact go_parse.
  - reflexivity.
  - exact go_valid.
  - reflexivity.
  - reflexivity.
  - reflexivity.
  - apply fresh_ok, idle_fresh.
  - apply coherent_fresh; reflexivity.
  - reflexivity.
  - apply good_eventb_sound. vm_compute. reflexivity.
  - vm_compute. reflexivity.
  - intros snap' H. vm_compute in H. injection H as <-. split; [apply json_okb_sound|]; vm_compute; reflexivity.
  - exists s'. split; [exact H|exact Hc].
Defined.

(** A request whose body is the JSON text [null] is not answered: [POST /events] and
    [POST /poll] read the token of [null] outside any handler, which throws. *)
Theorem null_body_throws s :
  handleEvents secret "null" s = (Throw (error "Cannot read properties of null"), s) /\
  handlePollPost secret "/p" JNull "null" s = (Throw (error "Cannot read properties of null"), s).
Proof. done. Qed.

(** A parked poll can be answered twice: its timeout is cleared only when its delivery
    settles, so one that fires while the generation it was given is still being scaffolded
    answers [timeout], and the delivery then answers the same request again. *)
Theorem timed_out_poll_answered_twice :
  let s1 := (pollArrives (Poll 1 (NInt 30000) None) idle).2 in
  let s2 := (enqueueEvent go_msg s1).2 in
  let s3 := (pollTimesOut 1 s2).2 in
  let f st := Flight 1 1 (NInt 30000) true go_msg st in
  let s4 := (preflightDone 0 (f Preflight) (JObj [("ok", JBool true)]) s3).2 in
  let s5 := (settle 0 (f Settling) true s4).2 in
  flights s2 = [f Preflight] /\ fst <$> replies s5 = [1; 1] /\
  ((fun r => r.2.["type"]) <$> replies s5) = [JStr "timeout"; JStr "generate"].
Proof. vm_compute. split_and!; reflexivity. Qed.
