(* ===== verification/RollSelection.v ===== *)
(** * World-roll selection ([lib/roll-selection.mjs])

    Six challengers and three compositions are drawn from the catalog by ranking
    tickets with a hash. The selection is a generator: it yields batches of strings
    to hash and resumes with their digests, so that one program serves a caller with a
    synchronous hash and one with an asynchronous hash. [gen] is that generator;
    [String.prototype.localeCompare], which depends on the host's locale, is a
    parameter. Catalog entries are JavaScript objects. *)
From S2P Require Import Prelude JsString JsValue Vocabulary PollLanes.
Local Open Scope Z_scope.

Definition WELL_TIERS : list string := ["graphic"; "interaction"; "atmosphere"].
Definition COMPOSITION_GRAINS : list string := ["product"; "flow"; "view"; "region"].
Definition COMPOSITION_PLATFORMS : list string := ["web"; "ios"; "android"].
Definition isGrain (value : js) : bool := has_str COMPOSITION_GRAINS value.
Definition isPlatform (value : js) : bool := has_str COMPOSITION_PLATFORMS value.

(** ** Generators and their drivers *)

Inductive gen (A : Type) : Type :=
| Done (r : result A)
| Yield (batch : list string) (resume : list string -> gen A).
Arguments Done {A}. Arguments Yield {A}.

Fixpoint gen_bind_ {A B} (f : A -> gen B) (g : gen A) : gen B :=
  match g with
  | Done (Ok a) => f a
  | Done (Throw e) => Done (Throw e)
  | Yield batch resume => Yield batch (fun digests => gen_bind_ f (resume digests))
  end.
#[export] Instance gen_ret : MRet gen := fun A a => Done (Ok a).
#[export] Instance gen_bind : MBind gen := @gen_bind_.

Fixpoint runSyncSelection {A} (hash : string -> string) (g : gen A) : result A :=
  match g with
  | Done r => r
  | Yield batch resume => runSyncSelection hash (resume (hash <$> batch))
  end.

(** [Promise.all(batch.map(hash))]: each promise fills its own slot when it settles,
    in the order [settled]; the result is there once every slot is filled. *)
Definition promise_all (hash : string -> string) (batch : list string) (settled : list nat) : option (list string) :=
  mapM id (foldl (fun slots i => <[i := hash <$> (batch !! i)]> slots) (replicate (length batch) None) settled).

(** One settling order per batch; [None] while a batch is still pending. *)
Fixpoint runAsyncSelection {A} (hash : string -> string) (orders : list (list nat)) (g : gen A) {struct g} : option (result A) :=
  match g with
  | Done r => Some r
  | Yield batch resume =>
    match orders with
    | [] => None
    | settled :: orders =>
      match promise_all hash batch settled with
      | Some digests => runAsyncSelection hash orders (resume digests)
      | None => None
      end
    end
  end.

Section Selection.
Variable localeCompare : string -> string -> Z.

(** The comparator of [rank]: digests descending, then ids ascending. *)
Definition rank_lt {A} (a b : A * string * string) : bool :=
  let d := localeCompare b.2 a.2 in
  if d =? 0 then localeCompare a.1.2 b.1.2 <? 0 else d <? 0.

Definition rank {A} (items : list A) (input : string) (idFor : A -> string) : gen (list A) :=
  let ids := idFor <$> items in
  Yield ((fun id => input +:+ ":" +:+ id) <$> ids)
    (fun digests => mret ((fun e => e.1.1) <$>
       sort_by rank_lt (imap (fun index item => (item, idFor item, default "" (digests !! index))) items))).

(** ** Tickets *)

Record ticket := Ticket { t_item : js; t_no : Z }.

Definition review (item : js) (k : string) : js := opt_get item.["review"] k.

Definition two_tickets (item : js) : list ticket :=
  if review item "rating" === int 3 then [Ticket item 0; Ticket item 1] else [Ticket item 0].

Definition challengerTickets (pool : list js) : list ticket :=
  mbind (fun concept =>
    if (review concept "rating" === int 1) || (review concept "breadth" === JStr "niche") then []
    else two_tickets concept) pool.

Definition compositionTickets (pool : list js) : list ticket :=
  mbind (fun composition => if review composition "rating" === int 1 then [] else two_tickets composition) pool.

Definition ticket_id (t : ticket) : string := to_str (t_item t).["id"] +:+ "#" +:+ print_Z (t_no t).

Definition has_value (set : list js) (v : js) : bool := existsb (fun x => same_value_zero x v) set.

Definition modeAllows (concept mode : js) : bool :=
  match review concept "allowedModes" with
  | JArr [] => true
  | JArr allowed => has_value allowed mode
  | _ => true
  end.

(** ** Challengers *)

(** A [Map]: keys in insertion order. *)
Definition pools := list (js * list js).
Definition pool_of (m : pools) (tier : js) : option (list js) :=
  snd <$> find (fun e => same_value_zero e.1 tier) m.

Fixpoint add_to_tier (tier concept : js) (m : pools) : pools :=
  match m with
  | [] => [(tier, [concept])]
  | (t, pool) :: m => if same_value_zero t tier then (t, pool ++ [concept]) :: m
                      else (t, pool) :: add_to_tier tier concept m
  end.
Definition by_tier (approved : list js) : pools :=
  foldl (fun m concept => add_to_tier concept.["wellTier"] concept m) [] approved.

(** Keep what a filter leaves of each tier, unless it would empty the tier. *)
Definition prefer (keep : js -> bool) (pool : list js) : list js :=
  let kept := bfilter keep pool in if (0 <? length kept)%nat then kept else pool.
Definition prefer_all (keep : js -> bool) (m : pools) : pools := (fun e => (e.1, prefer keep e.2)) <$> m.

Definition is_approved (item : js) : bool := item.["status"] === JStr "approved".

Definition wanted (scope concept : js) : bool :=
  has_str (if scope === JStr "direction" then ["world"; "dual"] else ["composition"; "dual"]) concept.["strength"].

Definition tier_pool (m : pools) (tier : string) : list js := default [] (pool_of m (JStr tier)).

(** [order]: the concepts of the ranked tickets, each once. *)
Fixpoint dedup_concepts (seen : list js) (ranked : list ticket) : list js :=
  match ranked with
  | [] => []
  | t :: ranked =>
    if has_value seen (t_item t).["id"] then dedup_concepts seen ranked
    else t_item t :: dedup_concepts ((t_item t).["id"] :: seen) ranked
  end.

Definition pick_two (order : list js) : list js :=
  match order with
  | [] => [JUndef]
  | first :: _ =>
    let other (k : string) := find (fun c => negb (c.[k] === first.[k])) order in
    match other "familyId" with
    | Some second => [first; second]
    | None => match other "id" with Some second => [first; second] | None => [first] end
    end
  end.

Definition salt (round : nat) : string :=
  if (round =? 0)%nat then "" else ":reroll-" +:+ print_Z (Z.of_nat round).

(** The candidates of a tier: what earlier rounds have not drawn, or all of it. *)
Definition round_pool (full : list js) (excluded : list js) : list js :=
  let fresh := bfilter (fun c => negb (has_value excluded c.["id"])) full in
  if (length fresh =? 0)%nat then full else fresh.
Definition round_tickets (tickets_of : list js -> list ticket) (pool : list js) : list ticket :=
  let tickets := tickets_of pool in
  if (length tickets =? 0)%nat then (fun c => Ticket c 0) <$> pool else tickets.

Section Challengers.
Variables (scope key : js) (m : pools).

Definition prefix : string := to_str scope +:+ ":" +:+ to_str key.

Definition pick_tier (round : nat) (excluded : list js) (index : nat) (tier : string) : gen (list js) :=
  let tickets := round_tickets challengerTickets (round_pool (tier_pool m tier) excluded) in
  ranked ← rank tickets (prefix +:+ ":challenger-" +:+ print_Z (Z.of_nat index) +:+ salt round) ticket_id;
  mret (pick_two (dedup_concepts [] ranked)).

Fixpoint pick_tiers (round : nat) (excluded : list js) (index : nat) (tiers : list string) : gen (list js) :=
  match tiers with
  | [] => mret []
  | tier :: tiers =>
    picks ← pick_tier round excluded index tier;
    rest ← pick_tiers round excluded (S index) tiers;
    mret (picks ++ rest)
  end.

Definition pickRound (round : nat) (excluded : list js) : gen (list js) :=
  tierOrder ← rank WELL_TIERS (prefix +:+ ":tiers" +:+ salt round) id;
  pick_tiers round excluded 0 tierOrder.

Definition draw (picks : list js) : list js := (fun p => p.["id"]) <$> picks.

(** Rounds [round] to [round + more - 1], after [picks]. *)
Fixpoint reroll_from (more round : nat) (excluded picks : list js) : gen (list js) :=
  match more with
  | O => mret picks
  | S more =>
    let excluded := excluded ++ draw picks in
    picks ← pickRound round excluded;
    reroll_from more (S round) excluded picks
  end.
End Challengers.

Definition tier_pools (scope minRating mode : js) (approved : list js) : pools :=
  let m := by_tier approved in
  let m := if truthy minRating
           then prefer_all (fun c => js_geb (review c "rating" ||? int 0) minRating) m else m in
  let m := if truthy mode then prefer_all (fun c => modeAllows c mode) m else m in
  prefer_all (wanted scope) m.

Definition selectApprovedChallengers (scope key : js) (reroll : nat) (minRating mode : js) (concepts : list js)
    : gen (list js * list js) :=
  let approved := bfilter is_approved concepts in
  if existsb (fun tier => (length (tier_pool (by_tier approved) tier) =? 0)%nat) WELL_TIERS
  then Done (Throw (error "concept-seed: every challenger tier needs at least one approved concept")) else
  let m := tier_pools scope minRating mode approved in
  picks ← pickRound scope key m 0 [];
  picks ← reroll_from scope key m reroll 1 [] picks;
  mret (approved, picks).

(** ** Compositions *)

Definition emptyMatch (grain platform : js) (platformExcluded : Z) : js :=
  let when_grain := if truthy grain then int 0 else JNull in
  JObj [("grain", grain ?? JNull); ("atGrain", when_grain); ("grainAvailable", when_grain);
        ("platform", platform ?? JNull); ("platformExcluded", int platformExcluded)].

Definition survives (platform composition : js) : bool :=
  match composition.["platforms"] with
  | JArr [] => true
  | JArr only => has_value only platform
  | _ => true
  end.

Definition at_grain (grain composition : js) : bool := composition.["grain"] === grain.

Definition by_grain (grain : js) (ranked : list js) : list js :=
  if truthy grain then bfilter (at_grain grain) ranked ++ bfilter (fun c => negb (at_grain grain c)) ranked
  else ranked.

(** The two loops that fill [picks]: new families first, then any new id. *)
Fixpoint pick_families (count : nat) (families picks ordered : list js) : list js :=
  match ordered with
  | [] => picks
  | c :: ordered =>
    let family := c.["familyId"] ?? c.["id"] in
    if has_value families family then pick_families count families picks ordered else
    let picks := picks ++ [c] in
    if (count <=? length picks)%nat then picks
    else pick_families count (family :: families) picks ordered
  end.
Fixpoint top_up (count : nat) (picks ordered : list js) : list js :=
  match ordered with
  | [] => picks
  | c :: ordered =>
    if (count <=? length picks)%nat then picks else
    top_up count (if existsb (fun p => p.["id"] === c.["id"]) picks then picks else picks ++ [c]) ordered
  end.
Definition pick_compositions (count : nat) (ordered : list js) : list js :=
  top_up count (pick_families count [] [] ordered) ordered.

Section Compositions.
Variables (scope key grain : js) (count : nat) (approved : list js).

Definition composition_base (prior : list js) : list js :=
  let available := bfilter (fun c => negb (has_value prior c.["id"])) approved in
  if (Nat.min count (length approved) <=? length available)%nat then available else approved.

Definition composition_round (round : nat) (prior : list js) : gen (list js) :=
  let tickets := round_tickets compositionTickets (composition_base prior) in
  ranked ← rank tickets (prefix scope key +:+ ":staging" +:+ salt round) ticket_id;
  mret (pick_compositions count (by_grain grain (t_item <$> ranked))).

(** The loop over [round]: the draws of a round are excluded from the next ones. *)
Fixpoint composition_rounds (more round : nat) (prior : list js) : gen (list js) :=
  picks ← composition_round round prior;
  match more with
  | O => mret picks
  | S more => composition_rounds more (S round) (prior ++ draw picks)
  end.
End Compositions.

Definition compositions_pool (compositions : list js) : list js :=
  prefer (fun c => negb (review c "breadth" === JStr "niche")) (bfilter is_approved compositions).

Definition selectApprovedCompositions (scope key : js) (reroll : nat) (mode grain platform : js)
    (compositions : list js) (count : nat) : gen (list js * js) :=
  let approved := compositions_pool compositions in
  if (length approved =? 0)%nat then mret ([], emptyMatch grain platform 0) else
  let approved := if truthy mode then bfilter (fun c => c.["surface"] === mode) approved else approved in
  if (length approved =? 0)%nat then mret ([], emptyMatch grain platform 0) else
  let surviving := if truthy platform then bfilter (survives platform) approved else approved in
  let platformExcluded := Z.of_nat (length approved - length surviving) in
  if (length surviving =? 0)%nat then mret ([], emptyMatch grain platform platformExcluded) else
  picks ← composition_rounds scope key grain count surviving reroll 0 [];
  let number l := if truthy grain then int (Z.of_nat (length (bfilter (at_grain grain) l))) else JNull in
  mret (picks, JObj [("grain", grain ?? JNull); ("atGrain", number picks); ("grainAvailable", number surviving);
                     ("platform", platform ?? JNull); ("platformExcluded", int platformExcluded)]).
End Selection.

(** * Theorems *)

(** ** The two drivers *)

(** The batches a selection asks for, with the synchronous hash. *)
Fixpoint batches {A} (hash : string -> string) (g : gen A) : list (list string) :=
  match g with
  | Done _ => []
  | Yield batch resume => batch :: batches hash (resume (hash <$> batch))
  end.

Definition settles_all (batch : list string) (settled : list nat) : Prop :=
  forall i, (i < length batch)%nat -> i ∈ settled.

Section Drivers.
Variable hash : string -> string.

(** A slot is filled when its promise has settled. *)
Lemma settle_slots batch settled slots : length slots = length batch ->
  (forall i, (i < length batch)%nat -> i ∉ settled -> slots !! i = Some (hash <$> (batch !! i))) ->
  foldl (fun slots i => <[i := hash <$> (batch !! i)]> slots) slots settled = (fun s => Some (hash s)) <$> batch.
Proof.
  revert slots; induction settled as [|j settled IH]; intros slots Hl Hs; simpl.
  - apply list_eq_same_length with (length batch); [by rewrite length_fmap|done|].
    intros i x y Hi Hx Hy. rewrite Hs in Hx by (done || set_solver).
    rewrite list_lookup_fmap in Hy. destruct (batch !! i); simpl in *; congruence.
  - apply IH; [by rewrite length_insert|]. intros i Hi Hn.
    destruct (decide (j = i)) as [->|Hne].
    + apply list_lookup_insert_eq. lia.
    + rewrite list_lookup_insert_ne by done. apply Hs; [done|]. set_solver.
Qed.

Lemma promise_all_settled batch settled : settles_all batch settled ->
  promise_all hash batch settled = Some (hash <$> batch).
Proof.
  intros Hall. unfold promise_all. rewrite settle_slots.
  - clear Hall. induction batch as [|s batch IH]; cbn; [done|]. setoid_rewrite IH. done.
  - by rewrite length_replicate.
  - intros i Hi Hn. by apply Hall in Hi.
Qed.

Lemma async_sync {A} (g : gen A) orders : Forall2 settles_all (batches hash g) orders ->
  runAsyncSelection hash orders g = Some (runSyncSelection hash g).
Proof.
  revert orders; induction g as [r|batch resume IH]; intros orders H; simpl in *; [done|].
  inversion H as [|? settled ? orders' Hs Ho]; subst. rewrite promise_all_settled by done. by apply IH.
Qed.
End Drivers.

(** C16: The two drivers compute the same roll: whatever the order in which the digests of each
    batch are completed, once they all are the asynchronous driver returns what the
    synchronous driver returns - result or exception. *)
Theorem drivers_agree {A} hash (g : gen A) orders : Forall2 settles_all (batches hash g) orders ->
  runAsyncSelection hash orders g = Some (runSyncSelection hash g).
Proof. apply async_sync. Qed.

(** ** What a selection can return, whatever the digests *)

Fixpoint always {A} (Q : A -> Prop) (g : gen A) : Prop :=
  match g with
  | Done (Ok a) => Q a
  | Done (Throw _) => True
  | Yield _ resume => forall digests, always Q (resume digests)
  end.

Lemma always_bind {A B} (Q : A -> Prop) (P : B -> Prop) (g : gen A) (f : A -> gen B) :
  always Q g -> (forall a, Q a -> always P (f a)) -> always P (g ≫= f).
Proof.
  intros Hg Hf. induction g as [[a|e]|batch resume IH]; simpl in *; [by apply Hf|done|].
  intros digests. by apply IH.
Qed.

Lemma always_sync {A} (Q : A -> Prop) hash (g : gen A) a :
  always Q g -> runSyncSelection hash g = Ok a -> Q a.
Proof.
  induction g as [r|batch resume IH]; simpl; [intros H ->; exact H|]. intros H. by apply IH.
Qed.

Lemma always_impl {A} (Q P : A -> Prop) (g : gen A) : (forall a, Q a -> P a) -> always Q g -> always P g.
Proof.
  intros HQ. induction g as [[a|e]|batch resume IH]; simpl; [apply HQ|done|]. intros H digests. by apply IH.
Qed.

Section SelectionFacts.
Variable localeCompare : string -> string -> Z.

Lemma rank_perm {A} (items : list A) input idFor :
  always (fun ranked => ranked ≡ₚ items) (rank localeCompare items input idFor).
Proof.
  intros digests. cbn. rewrite sort_by_perm.
  rewrite fmap_imap. unfold compose; simpl.
  rewrite (imap_const id items : imap (fun _ x => x) items = _). by rewrite list_fmap_id.
Qed.


(** What keeps an item out of a draw while others are left. *)
Definition marginal (c : js) : bool := review c "rating" === int 1.
Definition held_back (c : js) : bool := marginal c || (review c "breadth" === JStr "niche").

Lemma two_tickets_elem t c : t ∈ two_tickets c -> t_item t = c.
Proof. unfold two_tickets. destruct (_ === _); set_solver. Qed.

Lemma two_tickets_nonempty c : exists t, t ∈ two_tickets c.
Proof. unfold two_tickets. destruct (_ === _); eexists; left. Qed.

(** Both ticket functions are this one, for the items that [out] holds back. *)
Definition tickets_out (out : js -> bool) (pool : list js) : list ticket :=
  mbind (fun c => if out c then [] else two_tickets c) pool.

Lemma round_tickets_elem out pool t : t ∈ round_tickets (tickets_out out) pool ->
  t_item t ∈ pool /\ (out (t_item t) = true -> forall c, c ∈ pool -> out c = true).
Proof.
  unfold round_tickets. destruct (length (tickets_out out pool) =? 0)%nat eqn:E.
  - apply Nat.eqb_eq, nil_length_inv in E. intros (c & -> & Hc)%list_elem_of_fmap. simpl. split; [done|].
    intros _ c' Hc'. destruct (out c') eqn:Eo; [done|]. exfalso.
    destruct (two_tickets_nonempty c') as [t Ht]. apply (elem_of_nil t). rewrite <- E.
    apply list_elem_of_bind. exists c'. by rewrite Eo.
  - unfold tickets_out. intros (c & Ht & Hc)%list_elem_of_bind. destruct (out c) eqn:Eo; [by apply elem_of_nil in Ht|].
    apply two_tickets_elem in Ht as ->. by rewrite Eo.
Qed.

Lemma round_tickets_nonempty out pool : pool <> [] -> round_tickets (tickets_out out) pool <> [].
Proof.
  unfold round_tickets. destruct (length (tickets_out out pool) =? 0)%nat eqn:E.
  - by destruct pool.
  - intros _ H. by rewrite H in E.
Qed.

(** Every item that is not held back has a ticket. *)
Lemma round_tickets_complete out pool c : c ∈ pool -> out c = false ->
  exists t, t ∈ round_tickets (tickets_out out) pool /\ t_item t = c.
Proof.
  intros Hc Ho. destruct (two_tickets_nonempty c) as [t Ht]. exists t. split; [|by apply two_tickets_elem].
  assert (t ∈ tickets_out out pool) as Hin by (apply list_elem_of_bind; exists c; by rewrite Ho).
  unfold round_tickets. destruct (tickets_out out pool); [by apply elem_of_nil in Hin|done].
Qed.

Lemma round_pool_elem full excluded c : c ∈ round_pool full excluded ->
  c ∈ full /\ (has_value excluded c.["id"] = true -> forall c', c' ∈ full -> has_value excluded c'.["id"] = true).
Proof.
  unfold round_pool. destruct (_ =? 0)%nat eqn:E.
  - apply Nat.eqb_eq, nil_length_inv in E. intros Hc. split; [done|]. intros _ c' Hc'.
    destruct (has_value excluded c'.["id"]) eqn:Eh; [done|]. exfalso. apply (elem_of_nil c'). rewrite <- E.
    apply bfilter_elem_of. by rewrite Eh.
  - intros [Hc Hh]%bfilter_elem_of. apply negb_true_iff in Hh. split; [done|]. by rewrite Hh.
Qed.

Lemma round_pool_nonempty full excluded : full <> [] -> round_pool full excluded <> [].
Proof. unfold round_pool. destruct (_ =? 0)%nat eqn:E; [done|]. intros _ H. by rewrite H in E. Qed.

Lemma prefer_elem keep pool c : c ∈ prefer keep pool -> c ∈ pool.
Proof. unfold prefer. destruct (0 <? _)%nat; [|done]. by intros [? _]%bfilter_elem_of. Qed.
Lemma prefer_nonempty keep pool : pool <> [] -> prefer keep pool <> [].
Proof. unfold prefer. destruct (0 <? _)%nat eqn:E; [|done]. intros _ H. by rewrite H in E. Qed.

Lemma dedup_elem seen ranked c : c ∈ dedup_concepts seen ranked -> exists t, t ∈ ranked /\ t_item t = c.
Proof.
  revert seen; induction ranked as [|t ranked IH]; intros seen; simpl; [by intros ?%elem_of_nil|].
  destruct (has_value seen _).
  - intros (t' & ? & ?)%IH. exists t'. split; [by right|done].
  - intros [->|(t' & ? & ?)%IH]%elem_of_cons; [exists t; split; [left|done]|exists t'; split; [by right|done]].
Qed.

Lemma dedup_nonempty ranked : ranked <> [] -> dedup_concepts [] ranked <> [].
Proof. by destruct ranked. Qed.

(** One pick, when the tier has one concept to offer; otherwise two of different ids,
    of different families when there are two families. *)
Definition two_of (order picks : list js) : Prop :=
  exists a, a ∈ order /\
  (picks = [a] /\ (forall c, c ∈ order -> (c.["id"] === a.["id"]) = true)
   \/ exists b, b ∈ order /\ picks = [a; b] /\
      ((b.["familyId"] === a.["familyId"]) = false \/
       (b.["id"] === a.["id"]) = false /\ forall c, c ∈ order -> (c.["familyId"] === a.["familyId"]) = true)).

Lemma find_none_all {A} (f : A -> bool) l x : find f l = None -> x ∈ l -> f x = false.
Proof. intros H Hx. apply (find_none f l H). by apply list_elem_of_In. Qed.
Lemma find_some_elem {A} (f : A -> bool) l x : find f l = Some x -> x ∈ l /\ f x = true.
Proof. intros [H ?]%find_some. split; [by apply list_elem_of_In|done]. Qed.

Lemma pick_two_spec order : order <> [] -> two_of order (pick_two order).
Proof.
  destruct order as [|a rest]; [done|]. intros _. exists a. split; [left|]. 
  set (order := a :: rest). set (f k c := negb (c.[k] === a.[k])).
  change (pick_two order) with (match find (f "familyId") order with Some b => [a; b]
    | None => match find (f "id") order with Some b => [a; b] | None => [a] end end).
  destruct (find (f "familyId") order) as [b|] eqn:Ef.
  - apply find_some_elem in Ef as [Hb Hn]. apply negb_true_iff in Hn. right. exists b. split_and!; [done|done|by left].
  - assert (forall c, c ∈ order -> (c.["familyId"] === a.["familyId"]) = true) as Hall.
    { intros c Hc. apply negb_false_iff. by apply (find_none_all _ _ _ Ef). }
    destruct (find (f "id") order) as [b|] eqn:Ei.
    + apply find_some_elem in Ei as [Hb Hn]. apply negb_true_iff in Hn. right. exists b. split_and!; [done|done|by right].
    + left. split; [done|]. intros c Hc. apply negb_false_iff. by apply (find_none_all _ _ _ Ei).
Qed.

Lemma two_of_elem order picks c : two_of order picks -> c ∈ picks -> c ∈ order.
Proof. intros (a & Ha & [[-> _]|(b & Hb & -> & _)]); set_solver. Qed.

(** *** Tier pools *)

Lemma tier_pool_add k c m t :
  tier_pool (add_to_tier k c m) t = if k === JStr t then tier_pool m t ++ [c] else tier_pool m t.
Proof.
  unfold tier_pool, pool_of. induction m as [|[k' pool] m IH]; cbn [add_to_tier find fst].
  - assert (same_value_zero k (JStr t) = (k === JStr t)) as -> by (by destruct k as [| | |[]| | |]).
    by destruct (k === JStr t).
  - destruct (same_value_zero k' k) eqn:Ek; cbn [find fst].
    + assert (k' = JStr t <-> k = JStr t) as Hk.
      { destruct k' as [| | |[]| | |], k as [| | |[]| | |]; try (split; discriminate); simpl in Ek; try done. apply String.eqb_eq in Ek. by subst. }
      assert (same_value_zero k' (JStr t) = (k' === JStr t)) as E1 by (by destruct k' as [| | |[]| | |]).
      assert ((k' === JStr t) = (k === JStr t)) as E2.
      { apply eq_true_iff_eq. by rewrite !strict_eq_str. }
      rewrite E1, E2. by destruct (k === JStr t).
    + assert (same_value_zero k' (JStr t) = (k' === JStr t)) as E1 by (by destruct k' as [| | |[]| | |]).
      rewrite E1. destruct (k' === JStr t) eqn:Et.
      * apply strict_eq_str in Et as ->. assert (k === JStr t = false) as ->; [|done].
        apply not_true_iff_false. rewrite strict_eq_str. intros ->. by rewrite E1 in Ek.
      * apply IH.
Qed.

Lemma tier_pool_by_tier l t : tier_pool (by_tier l) t = bfilter (fun c => c.["wellTier"] === JStr t) l.
Proof.
  unfold by_tier. assert (forall m, tier_pool (foldl (fun m c => add_to_tier c.["wellTier"] c m) m l) t
    = tier_pool m t ++ bfilter (fun c => c.["wellTier"] === JStr t) l) as H; [|apply (H [])].
  induction l as [|c l IH]; intros m; simpl; [by rewrite app_nil_r|].
  rewrite IH, tier_pool_add. destruct (_ === _); [by rewrite <- app_assoc|done].
Qed.

Lemma tier_pool_prefer keep m t : tier_pool (prefer_all keep m) t = prefer keep (tier_pool m t).
Proof.
  unfold tier_pool, pool_of, prefer_all. induction m as [|[k pool] m IH]; simpl; [done|].
  destruct (same_value_zero k (JStr t)); [done|]. exact IH.
Qed.

Lemma tier_pools_spec scope minRating mode approved t c :
  c ∈ tier_pool (tier_pools scope minRating mode approved) t -> c ∈ approved /\ c.["wellTier"] = JStr t.
Proof.
  unfold tier_pools. rewrite tier_pool_prefer. intros Hc%prefer_elem.
  assert (c ∈ tier_pool (by_tier approved) t) as Hin.
  { destruct (truthy mode), (truthy minRating); rewrite ?tier_pool_prefer in Hc;
      repeat (apply prefer_elem in Hc || exact Hc). }
  rewrite tier_pool_by_tier in Hin. apply bfilter_elem_of in Hin as [Hin Ht]. split; [done|by apply strict_eq_str].
Qed.

Lemma tier_pools_nonempty scope minRating mode approved t : tier_pool (by_tier approved) t <> [] ->
  tier_pool (tier_pools scope minRating mode approved) t <> [].
Proof.
  intros H. unfold tier_pools. rewrite tier_pool_prefer. apply prefer_nonempty.
  destruct (truthy mode), (truthy minRating); rewrite ?tier_pool_prefer; repeat apply prefer_nonempty; done.
Qed.

(** *** A round *)

(** What a pick of a tier is: a concept of the tier's pool, not drawn before unless the whole
    tier was, and not held back unless all that is left is. *)
Definition eligible (full excluded : list js) (c : js) : Prop :=
  c ∈ full /\
  (has_value excluded c.["id"] = true -> forall c', c' ∈ full -> has_value excluded c'.["id"] = true) /\
  (held_back c = true -> forall c', c' ∈ round_pool full excluded -> held_back c' = true).

Definition tier_picks (m : pools) (excluded : list js) (tier : string) (picks : list js) : Prop :=
  exists order, two_of order picks /\ forall c, c ∈ order -> eligible (tier_pool m tier) excluded c.

Definition round_picks (m : pools) (excluded picks : list js) : Prop :=
  exists tiers parts, tiers ≡ₚ WELL_TIERS /\ picks = concat parts /\ Forall2 (tier_picks m excluded) tiers parts.

Lemma pick_tier_ok scope key m round excluded i tier : tier_pool m tier <> [] ->
  always (tier_picks m excluded tier) (pick_tier localeCompare scope key m round excluded i tier).
Proof.
  intros Hne. unfold pick_tier. set (pool := round_pool (tier_pool m tier) excluded).
  change (round_tickets challengerTickets pool) with (round_tickets (tickets_out held_back) pool).
  eapply always_bind; [apply rank_perm|]. intros ranked Hp. simpl.
  exists (dedup_concepts [] ranked). split.
  - apply pick_two_spec, dedup_nonempty. intros ->. symmetry in Hp. apply Permutation_nil_r in Hp.
    by apply (round_tickets_nonempty held_back pool (round_pool_nonempty _ excluded Hne)).
  - intros c (t & Ht & <-)%dedup_elem. rewrite Hp in Ht.
    destruct (round_tickets_elem _ _ _ Ht) as [Hin Hout]. destruct (round_pool_elem _ _ _ Hin) as [Hf Hex].
    split_and!; [done|done|exact Hout].
Qed.

Lemma pick_tiers_ok scope key m round excluded i tiers : (forall t, t ∈ tiers -> tier_pool m t <> []) ->
  always (fun picks => exists parts, picks = concat parts /\ Forall2 (tier_picks m excluded) tiers parts)
    (pick_tiers localeCompare scope key m round excluded i tiers).
Proof.
  revert i; induction tiers as [|t tiers IH]; intros i Hne; cbn [pick_tiers]; [by exists []|].
  eapply always_bind; [apply pick_tier_ok; apply Hne; left|]. intros picks Hp.
  eapply always_bind; [apply IH; intros t' Ht'; apply Hne; by right|].  intros rest (parts & -> & Hparts).
  exists (picks :: parts). split; [done|by constructor].
Qed.

Lemma pickRound_ok scope key m round excluded : (forall t, t ∈ WELL_TIERS -> tier_pool m t <> []) ->
  always (round_picks m excluded) (pickRound localeCompare scope key m round excluded).
Proof.
  intros Hne. unfold pickRound. eapply always_bind; [apply rank_perm|]. intros tiers Hp.
  eapply always_impl; [|apply pick_tiers_ok; intros t Ht; apply Hne; by rewrite <- Hp].
  intros picks (parts & -> & Hf). by exists tiers, parts.
Qed.

(** *** Chains of re-rolls *)

Section Chain.
Variable hash : string -> string.
Variables (scope key : js) (m : pools).

Lemma run_bind {A B} (g : gen A) (f : A -> gen B) :
  runSyncSelection hash (g ≫= f) = (a ← runSyncSelection hash g; runSyncSelection hash (f a)).
Proof. induction g as [[a|e]|batch resume IH]; simpl; [done|done|apply IH]. Qed.

Definition runs {A} (g : gen A) : Prop := exists a, runSyncSelection hash g = Ok a.
Lemma runs_bind {A B} (g : gen A) (f : A -> gen B) : runs g -> (forall a, runs (f a)) -> runs (g ≫= f).
Proof. intros [a Ha] Hf. destruct (Hf a) as [b Hb]. exists b. by rewrite run_bind, Ha. Qed.
Lemma runs_rank {A} (items : list A) input idFor : runs (rank localeCompare items input idFor).
Proof. eexists. reflexivity. Qed.
Lemma runs_ret {A} (a : A) : runs (mret a).
Proof. by exists a. Qed.

Lemma runs_round round excluded : runs (pickRound localeCompare scope key m round excluded).
Proof.
  unfold pickRound. apply runs_bind; [apply runs_rank|]. intros tiers. generalize O as i.
  induction tiers as [|t tiers IH]; intros i; [apply runs_ret|]. cbn [pick_tiers].
  apply runs_bind; [apply runs_bind; [apply runs_rank|intros; apply runs_ret]|].
  intros. apply runs_bind; [apply IH|intros; apply runs_ret].
Qed.

Definition run {A} (g : gen (list A)) : list A := match runSyncSelection hash g with Ok l => l | Throw _ => [] end.
Definition round_of (n : nat) (excluded : list js) : list js := run (pickRound localeCompare scope key m n excluded).

(** The picks of round [n] and what was excluded from it. *)
Fixpoint chain (n : nat) : list js * list js :=
  match n with
  | O => ([], round_of 0 [])
  | S n => let excluded := (chain n).1 ++ draw (chain n).2 in (excluded, round_of (S n) excluded)
  end.

Lemma round_runs n excluded :
  runSyncSelection hash (pickRound localeCompare scope key m n excluded) = Ok (round_of n excluded).
Proof. destruct (runs_round n excluded) as [a Ha]. unfold round_of, run. by rewrite Ha. Qed.

Lemma reroll_chain more n :
  runSyncSelection hash (reroll_from localeCompare scope key m more (S n) (chain n).1 (chain n).2)
  = Ok (chain (n + more)).2.
Proof.
  revert n; induction more as [|more IH]; intros n; [simpl; by rewrite Nat.add_0_r|].
  cbn [reroll_from]. cbv zeta.
  rewrite run_bind, round_runs. cbn [mbind result_bind].
  replace (n + S more)%nat with (S n + more)%nat by lia. apply (IH (S n)).
Qed.

Lemma chain_excluded n v : has_value (chain n).1 v = true <->
  exists i, (i < n)%nat /\ has_value (draw (chain i).2) v = true.
Proof.
  induction n as [|n IH]; simpl.
  - split; [done|]. intros (i & Hi & _). lia.
  - unfold has_value in *. rewrite existsb_app, orb_true_iff, IH. split.
    + intros [(i & Hi & Hv)|Hv]; [exists i|exists n]; split; (lia || done).
    + intros (i & Hi & Hv). destruct (decide (i = n)) as [->|]; [by right|]. left. exists i. split; [lia|done].
Qed.

Lemma chain_ok n : (forall t, t ∈ WELL_TIERS -> tier_pool m t <> []) -> round_picks m (chain n).1 (chain n).2.
Proof.
  intros Hne. destruct n as [|n]; simpl; unfold round_of.
  - apply (always_sync _ hash (pickRound localeCompare scope key m 0 [])); [by apply pickRound_ok|apply round_runs].
  - set (ex := (chain n).1 ++ _).
    apply (always_sync _ hash (pickRound localeCompare scope key m (S n) ex)); [by apply pickRound_ok|apply round_runs].
Qed.
End Chain.

Definition roll hash scope key minRating mode concepts (n : nat) : result (list js * list js) :=
  runSyncSelection hash (selectApprovedChallengers localeCompare scope key n minRating mode concepts).

Lemma roll_spec hash scope key minRating mode concepts n approved picks :
  roll hash scope key minRating mode concepts n = Ok (approved, picks) ->
  let m := tier_pools scope minRating mode approved in
  approved = bfilter is_approved concepts /\ picks = (chain hash scope key m n).2 /\
  (forall t, t ∈ WELL_TIERS -> tier_pool m t <> []) /\
  (forall i, roll hash scope key minRating mode concepts i = Ok (approved, (chain hash scope key m i).2)).
Proof.
  unfold roll, selectApprovedChallengers. set (ap := bfilter is_approved concepts). cbv zeta.
  destruct (existsb _ WELL_TIERS) eqn:E; [done|].
  assert (forall i, runSyncSelection hash (picks ← pickRound localeCompare scope key (tier_pools scope minRating mode ap) 0 [];
    picks ← reroll_from localeCompare scope key (tier_pools scope minRating mode ap) i 1 [] picks; mret (ap, picks))
    = Ok (ap, (chain hash scope key (tier_pools scope minRating mode ap) i).2)) as Hrun.
  { intros i. rewrite run_bind, round_runs. cbn [mbind result_bind]. rewrite run_bind.
    pose proof (reroll_chain hash scope key (tier_pools scope minRating mode ap) i 0) as Hr.
    cbn [chain fst snd Nat.add] in Hr. by rewrite Hr. }
  rewrite Hrun. intros [= <- <-]. split_and!; [done|done| |exact Hrun].
  intros t Ht. apply tier_pools_nonempty. intros Hn.
  assert (existsb (fun tier => (length (tier_pool (by_tier ap) tier) =? 0)%nat) WELL_TIERS = true) as Ht'; [|congruence].
  apply existsb_exists. exists t. split; [by apply list_elem_of_In|]. by rewrite Hn.
Qed.

Lemma roll_succeeds hash scope key minRating mode concepts n :
  is_ok (roll hash scope key minRating mode concepts n) = true <->
  forall t, t ∈ WELL_TIERS -> exists c, c ∈ concepts /\ is_approved c = true /\ c.["wellTier"] = JStr t.
Proof.
  split.
  - destruct (roll _ _ _ _ _ _ n) as [[approved picks]|e] eqn:Hr; [|done]. intros _ t Ht.
    destruct (roll_spec _ _ _ _ _ _ _ _ _ Hr) as (-> & _ & Hne & _). specialize (Hne t Ht).
    destruct (tier_pool _ t) as [|c l] eqn:E; [done|]. exists c.
    destruct (tier_pools_spec scope minRating mode (bfilter is_approved concepts) t c) as [Hc Hw]; [rewrite E; left|].
    apply bfilter_elem_of in Hc as [? ?]. done.
  - intros H. unfold roll, selectApprovedChallengers. destruct (existsb _ WELL_TIERS) eqn:E.
    + exfalso. apply existsb_exists in E as (t & Ht%list_elem_of_In & Hz).
      destruct (H t Ht) as (c & Hc & Ha & Hw). rewrite tier_pool_by_tier in Hz.
      apply Nat.eqb_eq, nil_length_inv in Hz. apply (elem_of_nil c). rewrite <- Hz.
      rewrite !bfilter_elem_of. by rewrite strict_eq_str.
    + cbv zeta. rewrite run_bind, round_runs. cbn [mbind result_bind]. rewrite run_bind.
      set (m := tier_pools _ _ _ _). pose proof (reroll_chain hash scope key m n 0) as Hr.
      cbn [chain fst snd Nat.add] in Hr. by rewrite Hr.
Qed.

Definition drawn_before hash scope key minRating mode concepts (n : nat) (c : js) : Prop :=
  exists i approved earlier, (i < n)%nat /\
    roll hash scope key minRating mode concepts i = Ok (approved, earlier) /\
    has_value (draw earlier) c.["id"] = true.

Lemma outside_round_pool full excluded c : c ∈ full -> c ∉ round_pool full excluded ->
  has_value excluded c.["id"] = true.
Proof.
  unfold round_pool. intros Hc. destruct (_ =? 0)%nat; [done|]. intros Hn.
  destruct (has_value excluded c.["id"]) eqn:E; [done|]. exfalso. apply Hn, bfilter_elem_of. by rewrite E.
Qed.

(** What a roll of challengers deals: a roll succeeds exactly when every tier has an approved
    concept; it then deals one or two concepts of each of the three tiers, all approved and of
    that tier. In a chain of re-rolls a concept comes back only when its whole tier has been
    dealt, and a marginal or niche concept is dealt only when every other concept of
    the tier has been. *)
Theorem challengers_roll hash scope key minRating mode concepts n :
  (is_ok (roll hash scope key minRating mode concepts n) = true <->
   forall t, t ∈ WELL_TIERS -> exists c, c ∈ concepts /\ is_approved c = true /\ c.["wellTier"] = JStr t) /\
  forall approved picks, roll hash scope key minRating mode concepts n = Ok (approved, picks) ->
  let pool t := tier_pool (tier_pools scope minRating mode approved) t in
  let before := drawn_before hash scope key minRating mode concepts n in
  exists tiers parts, tiers ≡ₚ WELL_TIERS /\ picks = concat parts /\
    Forall2 (fun t part => (1 <= length part <= 2)%nat /\ forall p, p ∈ part ->
      p ∈ concepts /\ is_approved p = true /\ p.["wellTier"] = JStr t /\ p ∈ pool t /\
      (before p -> forall c, c ∈ pool t -> before c) /\
      (held_back p = true -> forall c, c ∈ pool t -> held_back c = false -> before c)) tiers parts.
Proof.
  split; [apply roll_succeeds|]. intros approved picks Hr pool before.
  destruct (roll_spec _ _ _ _ _ _ _ _ _ Hr) as (Hap & -> & Hne & Hall).
  assert (forall c, has_value (chain hash scope key (tier_pools scope minRating mode approved) n).1 c.["id"] = true <-> before c) as Hb.
  { intros c. rewrite chain_excluded. split.
    - intros (i & Hi & Hv). exists i, approved, (chain hash scope key (tier_pools scope minRating mode approved) i).2. auto.
    - intros (i & ap & earlier & Hi & Hri & Hv). rewrite Hall in Hri. injection Hri as <- <-. by exists i. }
  destruct (chain_ok hash scope key _ n Hne) as (tiers & parts & Ht & Hp & Hf).
  exists tiers, parts. split; [done|]. split; [done|]. eapply Forall2_impl; [exact Hf|].
  intros t part (order & Htwo & Hel). split.
  { destruct Htwo as (a & _ & [[-> _]|(b & _ & -> & _)]); simpl; lia. }
  intros p Hpp. destruct (Hel p (two_of_elem _ _ _ Htwo Hpp)) as (Hin & Hex & Hh).
  destruct (tier_pools_spec _ _ _ _ _ _ Hin) as [Hin' Htier]. rewrite Hap in Hin'.
  apply bfilter_elem_of in Hin' as [Hc Hs]. split_and!; try done.
  - intros Hbp c Hc'. apply Hb, (Hex (proj2 (Hb p) Hbp) c Hc').
  - intros Hbp c Hc' Hok. apply Hb, (outside_round_pool _ _ _ Hc'). intros Hin2.
    rewrite (Hh Hbp c Hin2) in Hok. done.
Qed.

(** ** Compositions *)

(** Catalog entries have string ids, one entry per id, and string families. *)
Record catalog_ok (l : list js) : Prop := {
  cat_id : forall c, c ∈ l -> is_string c.["id"] = true;
  cat_unique : forall c c', c ∈ l -> c' ∈ l -> c.["id"] = c'.["id"] -> c = c';
  cat_family : forall c, c ∈ l -> is_string (c.["familyId"] ?? c.["id"]) = true }.

Lemma same_string a b : is_string a = true -> (a === b) = true <-> a = b.
Proof.
  destruct a; try done. intros _. split; [|intros <-; simpl; apply String.eqb_refl].
  destruct b; try done. simpl. by intros ->%String.eqb_eq.
Qed.
Lemma has_value_string l v : is_string v = true -> has_value l v = true <-> v ∈ l.
Proof.
  intros Hv. unfold has_value. rewrite existsb_exists. setoid_rewrite <- list_elem_of_In. split.
  - intros (x & Hx & He). destruct v; try done. destruct x as [| | |[]|x| |]; try done. simpl in He.
    by apply String.eqb_eq in He as ->.
  - intros Hin. exists v. split; [done|]. destruct v; try done. simpl. apply String.eqb_refl.
Qed.

Definition family (c : js) : js := c.["familyId"] ?? c.["id"].

(** Two picks of one family can only be the same entry. *)
Lemma pick_families_spec count families picks ordered l : catalog_ok l ->
  (forall c, c ∈ picks -> c ∈ l) -> (forall c, c ∈ ordered -> c ∈ l) ->
  (forall c, c ∈ picks -> family c ∈ families) -> NoDup (draw picks) ->
  (length picks <= count)%nat -> (0 < count)%nat ->
  let r := pick_families count families picks ordered in
  NoDup (draw r) /\ (length r <= count \/ length r = S (length picks) /\ length picks = count)%nat /\
  (forall c, c ∈ r -> c ∈ picks \/ c ∈ ordered).
Proof.
  intros Hl. revert families picks. induction ordered as [|c ordered IH]; intros families picks Hp Ho Hf Hn Hle H0; simpl.
  { split_and!; [done|by left|auto]. }
  fold (family c). assert (c ∈ l) as Hcl by (apply Ho; left).
  destruct (has_value families (family c)) eqn:E.
  { destruct (IH families picks) as (H1 & H2 & H3); try done; [intros; apply Ho; by right|].
    split_and!; [done|done|]. intros c' Hc'. destruct (H3 c' Hc'); [by left|right; by right]. }
  assert (NoDup (draw (picks ++ [c]))) as Hn'.
  { unfold draw. rewrite fmap_app. apply NoDup_app. split_and!; [done| |apply NoDup_singleton].
    intros x (p & -> & Hpp)%list_elem_of_fmap Hx%list_elem_of_singleton.
    rewrite (cat_unique _ Hl p c (Hp p Hpp) Hcl Hx) in Hpp. apply Hf in Hpp.
    apply (has_value_string families (family c)) in Hpp; [congruence|]. by apply (cat_family _ Hl). }
  destruct (count <=? length (picks ++ [c]))%nat eqn:El.
  { split_and!; [done| |intros c' [?| ->%list_elem_of_singleton]%elem_of_app; [by left|right; left]].
    rewrite length_app. simpl. apply Nat.leb_le in El. rewrite length_app in El. simpl in El.
    destruct (decide (length picks = count)); [right|left]; lia. }
  apply Nat.leb_gt in El.
  destruct (IH (family c :: families) (picks ++ [c])) as (H1 & H2 & H3); try done.
  - intros c' [?| ->%list_elem_of_singleton]%elem_of_app; auto.
  - intros c' ?. apply Ho. by right.
  - intros c' [?| ->%list_elem_of_singleton]%elem_of_app; [right; auto|left].
  - lia.
  - split_and!; [done|left; destruct H2 as [?|[? ?]]; [done|lia]|].
    intros c' Hc'. destruct (H3 c' Hc') as [[?| ->%list_elem_of_singleton]%elem_of_app|?];
      [by left|right; left|right; by right].
Qed.

Lemma top_up_spec count picks ordered l : catalog_ok l ->
  (forall c, c ∈ picks -> c ∈ l) -> (forall c, c ∈ ordered -> c ∈ l) -> NoDup (draw picks) ->
  (length picks <= count)%nat ->
  let r := top_up count picks ordered in
  NoDup (draw r) /\ (length r <= count)%nat /\ (forall c, c ∈ r -> c ∈ picks \/ c ∈ ordered) /\
  (forall c, c ∈ picks -> c ∈ r) /\ ((length r < count)%nat -> forall c, c ∈ ordered -> c ∈ r).
Proof.
  intros Hl. revert picks. induction ordered as [|c ordered IH]; intros picks Hp Ho Hn Hle; simpl.
  { split_and!; [done|done|auto|auto|]. by intros _ c ?%elem_of_nil. }
  assert (c ∈ l) as Hcl by (apply Ho; left).
  assert (forall c, c ∈ ordered -> c ∈ l) as Ho' by (intros; apply Ho; by right).
  destruct (count <=? length picks)%nat eqn:El.
  { apply Nat.leb_le in El. split_and!; [done|done|auto|auto|lia]. }
  apply Nat.leb_gt in El. destruct (existsb _ picks) eqn:E.
  - destruct (IH picks) as (H1 & H2 & H3 & H4 & H5); try done. split_and!; try done.
    + intros c' Hc'. destruct (H3 c' Hc'); [by left|right; by right].
    + intros Hlt c' [->|Hc']%elem_of_cons; [|auto]. apply existsb_exists in E as (p & Hpp%list_elem_of_In & He).
      apply same_string in He; [|by apply (cat_id _ Hl), Hp]. rewrite <- (cat_unique _ Hl p c (Hp p Hpp) Hcl He). auto.
  - destruct (IH (picks ++ [c])) as (H1 & H2 & H3 & H4 & H5); try done.
    + intros c' [?| ->%list_elem_of_singleton]%elem_of_app; auto.
    + unfold draw. rewrite fmap_app. apply NoDup_app. split_and!; [done| |apply NoDup_singleton].
      intros x (p & -> & Hpp)%list_elem_of_fmap Hx%list_elem_of_singleton.
      assert (existsb (fun p => p.["id"] === c.["id"]) picks = true) as Ht; [|congruence].
      apply existsb_exists. exists p. split; [by apply list_elem_of_In|]. apply same_string; [by apply (cat_id _ Hl), Hp|done].
    + rewrite length_app. simpl. lia.
    + split_and!; try done.
      * intros c' Hc'. destruct (H3 c' Hc') as [[?| ->%list_elem_of_singleton]%elem_of_app|?]; [by left|right; left|right; by right].
      * intros c' Hc'. apply H4, elem_of_app. by left.
      * intros Hlt c' [->|Hc']%elem_of_cons; [apply H4, elem_of_app; right; left|auto].
Qed.

Lemma pick_compositions_spec count ordered l : catalog_ok l -> (forall c, c ∈ ordered -> c ∈ l) -> (0 < count)%nat ->
  let r := pick_compositions count ordered in
  NoDup (draw r) /\ (length r <= count)%nat /\ (forall c, c ∈ r -> c ∈ ordered) /\
  ((length r < count)%nat -> forall c, c ∈ ordered -> c ∈ r).
Proof.
  intros Hl Ho H0. unfold pick_compositions.
  destruct (pick_families_spec count [] [] ordered l Hl) as (H1 & H2 & H3); try done; try (intros c ?%elem_of_nil; done); [constructor|simpl; lia|].
  assert (forall c, c ∈ pick_families count [] [] ordered -> c ∈ ordered) as H3'.
  { intros c Hc. destruct (H3 c Hc) as [?%elem_of_nil|?]; done. }
  destruct (top_up_spec count (pick_families count [] [] ordered) ordered l Hl) as (T1 & T2 & T3 & T4 & T5); try done.
  - intros c Hc. by apply Ho, H3'.
  - destruct H2 as [?|[? Hz]]; [done|]. simpl in Hz. lia.
  - split_and!; try done. intros c Hc. destruct (T3 c Hc); auto.
Qed.

Lemma catalog_sub l l' : (forall c, c ∈ l' -> c ∈ l) -> catalog_ok l -> catalog_ok l'.
Proof. intros Hs [H1 H2 H3]. split; auto. Qed.

Lemma by_grain_elem grain l c : c ∈ by_grain grain l <-> c ∈ l.
Proof.
  unfold by_grain. destruct (truthy grain); [|done]. rewrite elem_of_app, !bfilter_elem_of.
  destruct (at_grain grain c); naive_solver.
Qed.

Lemma composition_base_elem count approved prior c : c ∈ composition_base count approved prior -> c ∈ approved.
Proof. unfold composition_base. destruct (_ <=? _)%nat; [|done]. by intros [? _]%bfilter_elem_of. Qed.

Definition dealt (count : nat) (approved picks : list js) : Prop :=
  NoDup (draw picks) /\ (length picks <= count)%nat /\ forall c, c ∈ picks -> c ∈ approved.

Lemma composition_rounds_ok scope key grain count approved more round prior :
  catalog_ok approved -> (0 < count)%nat ->
  always (dealt count approved) (composition_rounds localeCompare scope key grain count approved more round prior).
Proof.
  intros Hc H0. revert round prior. induction more as [|more IH]; intros round prior; cbn [composition_rounds].
  all: eapply (always_bind (dealt count approved)); [|intros picks Hp; first [exact Hp|apply IH]].
  all: unfold composition_round; eapply always_bind; [apply rank_perm|]; intros ranked Hr.
  all: destruct (pick_compositions_spec count (by_grain grain (t_item <$> ranked)) approved Hc) as (H1 & H2 & H3 & _);
    [|done|split_and!; [done|done|]].
  all: assert (forall c, c ∈ by_grain grain (t_item <$> ranked) -> c ∈ approved) as Hin; [|auto].
  all: intros c Hb; apply by_grain_elem in Hb; apply list_elem_of_fmap in Hb as (t & -> & Ht); rewrite Hr in Ht.
  all: apply (round_tickets_elem marginal) in Ht as [Ht _]; by apply composition_base_elem in Ht.
Qed.

Lemma prefer_kept keep pool c : c ∈ prefer keep pool -> keep c = false -> forall c', c' ∈ pool -> keep c' = false.
Proof.
  unfold prefer. destruct (0 <? _)%nat eqn:E.
  - intros [_ Hk]%bfilter_elem_of. congruence.
  - intros _ _ c' Hc'. apply Nat.ltb_ge in E. destruct (keep c') eqn:Ek; [|done]. exfalso.
    destruct (bfilter keep pool) eqn:Ef; [|simpl in E; lia]. apply (elem_of_nil c'). rewrite <- Ef. by apply bfilter_elem_of.
Qed.

(** What the caller may rely on for a deal. *)
Definition composition_deal (mode grain platform : js) (compositions : list js) (count : nat)
    (picks : list js) (report : js) : Prop :=
  NoDup (draw picks) /\ (length picks <= count)%nat /\
  report.["atGrain"] = (if truthy grain then int (Z.of_nat (length (bfilter (at_grain grain) picks))) else JNull) /\
  forall p, p ∈ picks -> p ∈ compositions /\ is_approved p = true /\
    (truthy mode = true -> (p.["surface"] === mode) = true) /\
    (truthy platform = true -> survives platform p = true) /\
    ((review p "breadth" === JStr "niche") = true ->
     forall c, c ∈ compositions -> is_approved c = true -> (review c "breadth" === JStr "niche") = true).

Lemma empty_deal mode grain platform compositions count z :
  composition_deal mode grain platform compositions count [] (emptyMatch grain platform z).
Proof.
  split_and!; [constructor|simpl; lia| |by intros p ?%elem_of_nil].
  unfold emptyMatch. simpl. by destruct (truthy grain).
Qed.

(** What a roll of compositions deals: at most [count] of them, of different ids, all
    approved, all of the requested surface and all fit for the requested platform, without
    borrowing from another surface or platform; a niche composition only when all approved ones
    are; and the reported number at the requested grain is that of the picks. *)
Theorem compositions_roll hash scope key reroll mode grain platform compositions count picks report :
  catalog_ok compositions -> (0 < count)%nat ->
  runSyncSelection hash (selectApprovedCompositions localeCompare scope key reroll mode grain platform compositions count)
    = Ok (picks, report) ->
  composition_deal mode grain platform compositions count picks report.
Proof.
  intros Hc H0. unfold selectApprovedCompositions. cbv zeta.
  set (pool := compositions_pool compositions).
  set (moded := if truthy mode then bfilter _ pool else pool).
  set (surviving := if truthy platform then bfilter _ moded else moded).
  do 3 (match goal with |- context [(length ?l =? 0)%nat] => destruct (length l =? 0)%nat end;
    [intros [= <- <-]; apply empty_deal|]).
  assert (forall c, c ∈ moded -> c ∈ pool) as Hm1.
  { unfold moded. destruct (truthy mode); [|done]. by intros c [? _]%bfilter_elem_of. }
  assert (forall c, c ∈ surviving -> c ∈ moded) as Hs1.
  { unfold surviving. destruct (truthy platform); [|done]. by intros c [? _]%bfilter_elem_of. }
  assert (forall c, c ∈ pool -> c ∈ compositions /\ is_approved c = true) as Hp1.
  { intros c Hin%prefer_elem. by apply bfilter_elem_of in Hin. }
  rewrite run_bind.
  destruct (runSyncSelection hash (composition_rounds _ _ _ _ _ _ _ _ _)) as [ps|e] eqn:Er; [|done].
  cbn [mbind result_bind]. intros [= <- <-]. unfold composition_deal.
  assert (catalog_ok surviving) as Hcs.
  { apply (catalog_sub compositions); [|done]. intros c Hin. by apply Hp1, Hm1, Hs1. }
  destruct (always_sync _ hash _ _ (composition_rounds_ok scope key grain count surviving reroll 0 [] Hcs H0) Er) as (N & L & Hin).
  split_and!; [done|done|by destruct (truthy grain)|]. intros p Hpp. apply Hin in Hpp.
  pose proof (Hs1 p Hpp) as Hpm. pose proof (Hm1 p Hpm) as Hpo. destruct (Hp1 p Hpo) as [Hpc Hpa].
  split_and!; [done|done| | |].
  - intros Hmode. unfold moded in Hpm. rewrite Hmode in Hpm. by apply bfilter_elem_of in Hpm as [_ ?].
  - intros Hpl. unfold surviving in Hpp. rewrite Hpl in Hpp. by apply bfilter_elem_of in Hpp as [_ ?].
  - intros Hn c Hcc Hca. apply negb_false_iff.
    apply (prefer_kept _ _ p Hpo); [by rewrite Hn|]. apply bfilter_elem_of. done.
Qed.
End SelectionFacts.

(** ** Concrete rolls *)

Definition demo_compare (a b : string) : Z := if String.eqb a b then 0 else if string_leb a b then -1 else 1.
Definition demo_hash (s : string) : string := s.
Definition concept (id tier fam strength : string) (rating : Z) (breadth : string) : js :=
  JObj [("id", JStr id); ("status", JStr "approved"); ("wellTier", JStr tier); ("familyId", JStr fam);
        ("strength", JStr strength); ("review", JObj [("rating", int rating); ("breadth", JStr breadth)])].
Definition demo_concepts : list js :=
  [concept "g1" "graphic" "fa" "world" 2 "broad"; concept "g2" "graphic" "fb" "dual" 3 "broad";
   concept "i1" "interaction" "fa" "world" 2 "broad"; concept "i2" "interaction" "fb" "world" 2 "broad";
   concept "a1" "atmosphere" "fa" "world" 3 "broad"; concept "a2" "atmosphere" "fb" "world" 2 "niche"].
Definition demo_roll (n : nat) : gen (list js * list js) :=
  selectApprovedChallengers demo_compare (JStr "direction") (JStr "k") n JNull JNull demo_concepts.

Lemma settles_all_check batch settled :
  forallb (fun i => existsb (Nat.eqb i) settled) (seq 0 (length batch)) = true -> settles_all batch settled.
Proof.
  intros H i Hi. rewrite forallb_forall in H. specialize (H i). rewrite in_seq in H.
  specialize (H ltac:(lia)). apply existsb_exists in H as (j & Hj & He). apply Nat.eqb_eq in He as ->.
  by apply list_elem_of_In.
Qed.

(** The digests of each batch complete in another order than they were asked for. *)
Definition demo_orders : list (list nat) := [[2; 0; 1]; [2; 1; 0]; [0; 2; 1]; [1; 0; 2]]%nat.
Lemma drivers_agree_witness :
  runAsyncSelection demo_hash demo_orders (demo_roll 0) = Some (runSyncSelection demo_hash (demo_roll 0)).
Proof.
  apply (drivers_agree demo_hash (demo_roll 0) demo_orders).
  assert (forall bs os, length bs = length os ->
    forallb (fun p => forallb (fun i => existsb (Nat.eqb i) p.2) (seq 0 (length p.1))) (zip bs os) = true ->
    Forall2 settles_all bs os) as H.
  { induction bs as [|b bs IH]; intros [|o os]; try discriminate; [constructor|]. simpl. intros Hl Hb.
    apply andb_true_iff in Hb as [Hb Hr]. constructor; [apply settles_all_check, Hb|]. apply IH; [lia|exact Hr]. }
  apply H; vm_compute; reflexivity.
Defined.

Lemma challengers_roll_witness : exists approved picks,
  runSyncSelection demo_hash (demo_roll 1) = Ok (approved, picks) /\ length picks = 5%nat /\
  exists tiers parts, tiers ≡ₚ WELL_TIERS /\ picks = concat parts /\ Forall2 (fun t part => (1 <= length part <= 2)%nat) tiers parts.
Proof.
  destruct (runSyncSelection demo_hash (demo_roll 1)) as [[approved picks]|e] eqn:E; [|vm_compute in E; discriminate E].
  exists approved, picks. split; [reflexivity|]. split; [vm_compute in E; injection E as <- <-; reflexivity|].
  destruct (proj2 (challengers_roll demo_compare demo_hash (JStr "direction") (JStr "k") JNull JNull demo_concepts 1)
    approved picks E) as (tiers & parts & Ht & Hp & Hf).
  exists tiers, parts. split; [exact Ht|]. split; [exact Hp|].
  eapply Forall2_impl; [exact Hf|]. intros t part [H _]. exact H.
Defined.

(** A tier with two approved concepts of which one is niche deals a single challenger:
    the roll has five, not "six challengers, two per translation tier". *)
Theorem niche_thins_the_roll :
  (fun r => length r.2) <$> (runSyncSelection demo_hash (demo_roll 0)) = Ok 5%nat.
Proof. vm_compute. reflexivity. Qed.

Definition composition (id fam surface : string) (rating : Z) : js :=
  JObj [("id", JStr id); ("status", JStr "approved"); ("surface", JStr surface); ("familyId", JStr fam);
        ("grain", JStr "flow"); ("review", JObj [("rating", int rating)])].
Definition demo_compositions : list js :=
  [composition "c1" "fa" "app" 2; composition "c2" "fa" "app" 3; composition "c3" "fb" "app" 1; composition "c4" "fc" "page" 2].
Definition demo_deal : result (list js * js) :=
  runSyncSelection demo_hash (selectApprovedCompositions demo_compare (JStr "surface") (JStr "k") 1 (JStr "app") (JStr "flow")
    JNull demo_compositions 3).

Lemma demo_catalog : catalog_ok demo_compositions.
Proof.
  split.
  - intros c Hc. repeat (apply elem_of_cons in Hc as [->|Hc]; [reflexivity|]). by apply elem_of_nil in Hc.
  - intros c c' Hc Hc'.
    repeat (apply elem_of_cons in Hc as [->|Hc]); [..|by apply elem_of_nil in Hc];
    repeat (apply elem_of_cons in Hc' as [->|Hc']); try (by apply elem_of_nil in Hc'); try reflexivity; discriminate.
  - intros c Hc. repeat (apply elem_of_cons in Hc as [->|Hc]; [reflexivity|]). by apply elem_of_nil in Hc.
Qed.

Lemma compositions_roll_witness : exists picks report, demo_deal = Ok (picks, report) /\
  composition_deal (JStr "app") (JStr "flow") JNull demo_compositions 3 picks report.
Proof.
  destruct demo_deal as [[picks report]|e] eqn:E; [|vm_compute in E; discriminate E].
  exists picks, report. split; [reflexivity|].
  apply (compositions_roll demo_compare demo_hash (JStr "surface") (JStr "k") 1 (JStr "app") (JStr "flow") JNull
    demo_compositions 3 picks report demo_catalog (Nat.lt_0_succ 2) E).
Defined.
