(* ===== verification/SourceLock.v ===== *)
(** * The source lock ([live/source-lock.mjs])

    Accepting or discarding a variant rewrites a source file. Processes exclude each
    other with a lock file: [withSourceLockSync] creates it, runs, and unlinks it; a lock
    whose owner is dead is swept. The model interleaves the processes at the file
    system calls: [advance] is the next call of one process. A process writes its record
    through the descriptor it opened, so the lock file has an inode: a file that
    was unlinked and replaced is not written. *)
From S2P Require Import Prelude JsString JsValue NodePath.
Local Open Scope Z_scope.

Definition UNREADABLE_LOCK_STALE_MS : Z := 60000.

(** The digest of the file's path names the lock. *)
Definition sourceLockPath (sha256_hex : string -> string) (liveDir cwd file : string) : string :=
  path_join [liveDir; "locks"; stake 24 (sha256_hex (resolve cwd file)) +:+ ".lock"].

(** ** State *)

(** [l_record] is what [JSON.parse] reads in the file, [JNull] when it does not parse. *)
Record lockfile := LockFile { l_record : js; l_mtime : Z; l_ino : Z }.

(** [alive]: the process ids for which [process.kill(pid, 0)] does not fail with ESRCH. *)
Record sys := Sys { file : option lockfile; next_ino : Z; alive : gset Z; now : Z }.

(** Where a process is in [withSourceLockSync]; each is one file system call away
    from the next. *)
Inductive pc : Type :=
| Sweep | SweepStat | SweepUnlink | Open | Write | Blocked | Sleep (until : Z)
| Inside | Release | ReleaseUnlink | Finished | LockedOut.

Record proc := Proc {
  p_pid : Z; p_token : string; p_owner : js; p_file : string;
  p_deadline : Z; p_retryMs : Z; p_pc : pc; p_ino : Z }.

Definition goto (c : pc) (p : proc) : proc :=
  Proc (p_pid p) (p_token p) (p_owner p) (p_file p) (p_deadline p) (p_retryMs p) c (p_ino p).
Definition opened (ino : Z) (p : proc) : proc :=
  Proc (p_pid p) (p_token p) (p_owner p) (p_file p) (p_deadline p) (p_retryMs p) Write ino.
Definition set_file (f : option lockfile) (s : sys) : sys := Sys f (next_ino s) (alive s) (now s).

(** The call: a fresh token, and the deadline [now + max(0, waitMs)]. *)
Definition start (pid : Z) (token : string) (owner : js) (path : string) (waitMs retryMs : Z) (s : sys) : proc :=
  Proc pid token owner path (now s + Z.max 0 waitMs) retryMs Sweep 0.

(** ** The operations *)

(** [null] for a lock that is missing or does not parse. *)
Definition readLock (s : sys) : js := match file s with Some f => l_record f | None => JNull end.

Definition isLiveServerPidReachable (pid : js) (s : sys) : bool :=
  match pid with JNum (NInt z) => bool_decide (z ∈ alive s) | _ => true end.

Definition lock_record (p : proc) (at_ : Z) : js :=
  JObj [("owner", p_owner p); ("token", JStr (p_token p)); ("pid", int (p_pid p)); ("at", int at_); ("file", JStr (p_file p))].

(** [clearStaleLock]: read; stat a lock that cannot be read; unlink. *)
Definition clearStaleLock (p : proc) (s : sys) : proc * sys :=
  match p_pc p with
  | Sweep =>
    let held := readLock s in
    if negb (truthy held) then (goto SweepStat p, s)
    else if (match held.["pid"] with JNum _ => true | _ => false end) && isLiveServerPidReachable held.["pid"] s
    then (goto Open p, s) else (goto SweepUnlink p, s)
  | SweepStat =>
    match file s with
    | Some f => if UNREADABLE_LOCK_STALE_MS <? now s - l_mtime f then (goto SweepUnlink p, s) else (goto Open p, s)
    | None => (goto Open p, s)
    end
  | _ => (goto Open p, set_file None s)
  end.

(** [openSync(lockPath, 'wx')] and the write of the record. *)
Definition acquire (p : proc) (s : sys) : proc * sys :=
  match p_pc p with
  | Open =>
    match file s with
    | Some _ => (goto Blocked p, s)
    | None => (opened (next_ino s) p,
               Sys (Some (LockFile JNull (now s) (next_ino s))) (next_ino s + 1) (alive s) (now s))
    end
  | _ =>
    (goto Inside p,
     match file s with
     | Some f => if l_ino f =? p_ino p
                 then set_file (Some (LockFile (lock_record p (now s)) (now s) (l_ino f))) s else s
     | None => s
     end)
  end.

(** The [catch]: give up at the deadline, or sleep. *)
Definition retry_later (p : proc) (s : sys) : proc * sys :=
  match p_pc p with
  | Sleep t => if t <=? now s then (goto Sweep p, s) else (p, s)
  | _ =>
    if p_deadline p <=? now s then (goto LockedOut p, s)
    else (goto (Sleep (now s + Z.max 1 (Z.min (p_retryMs p) (p_deadline p - now s)))) p, s)
  end.

Definition releaseOwnLock (p : proc) (s : sys) : proc * sys :=
  match p_pc p with
  | Release =>
    let held := readLock s in
    if truthy held && negb (held.["token"] === JStr (p_token p)) then (goto Finished p, s) else (goto ReleaseUnlink p, s)
  | _ => (goto Finished p, set_file None s)
  end.

Definition withSourceLockSync (p : proc) (s : sys) : proc * sys :=
  match p_pc p with
  | Sweep | SweepStat | SweepUnlink => clearStaleLock p s
  | Open | Write => acquire p s
  | Blocked | Sleep _ => retry_later p s
  | Inside => (goto Release p, s)
  | Release | ReleaseUnlink => releaseOwnLock p s
  | Finished | LockedOut => (p, s)
  end.

(** ** Interleaving *)

Notation world := (sys * list proc)%type.

(** A sweeper that looks at a lock older than the limit it keeps for unreadable locks. *)
Definition sees_old (p : proc) (s : sys) : Prop :=
  p_pc p = SweepStat /\ exists f, file s = Some f /\ UNREADABLE_LOCK_STALE_MS < now s - l_mtime f.

Inductive step : world -> world -> Prop :=
| step_call i p p' s s' ps : ps !! i = Some p -> p_pid p ∈ alive s -> withSourceLockSync p s = (p', s') ->
    step (s, ps) (s', <[i := p']> ps)
| step_tick t s ps : now s <= t -> step (s, ps) (Sys (file s) (next_ino s) (alive s) t, ps)
| step_die pid s ps : step (s, ps) (Sys (file s) (next_ino s) (alive s ∖ {[pid]}) (now s), ps).

(** A step in which no process dies and no sweeper is held up for a minute between reading
    and looking at the age of a lock. *)
Inductive calm : world -> world -> Prop :=
| calm_call i p p' s s' ps : ps !! i = Some p -> ~ sees_old p s -> withSourceLockSync p s = (p', s') ->
    calm (s, ps) (s', <[i := p']> ps)
| calm_tick t s ps : now s <= t -> calm (s, ps) (Sys (file s) (next_ino s) (alive s) t, ps).

(** One process alone, its sleeps ended by the clock. *)
Fixpoint drive (fuel : nat) (p : proc) (s : sys) : proc * sys :=
  match fuel with
  | O => (p, s)
  | S fuel =>
    match p_pc p with
    | Inside | Finished | LockedOut => (p, s)
    | Sleep t => let s := Sys (file s) (next_ino s) (alive s) (Z.max t (now s)) in
                 let '(p, s) := withSourceLockSync p s in drive fuel p s
    | _ => let '(p, s) := withSourceLockSync p s in drive fuel p s
    end
  end.

(** * Theorems *)

Definition holding (p : proc) : bool :=
  match p_pc p with Write | Inside | Release | ReleaseUnlink => true | _ => false end.

(** The lock file belongs to its holder, and there is one holder at most. *)
Record lock_ok (s : sys) (ps : list proc) : Prop := {
  lk_alive : forall p, p ∈ ps -> p_pid p ∈ alive s;
  lk_sweep : forall p, p ∈ ps -> p_pc p <> SweepUnlink;
  lk_holder : forall i p, ps !! i = Some p -> holding p = true ->
    exists f, file s = Some f /\ l_ino f = p_ino p /\
      (p_pc p = Write /\ l_record f = JNull \/ p_pc p <> Write /\ exists at_, l_record f = lock_record p at_);
  lk_one : forall i j p q, ps !! i = Some p -> ps !! j = Some q -> holding p = true -> holding q = true -> i = j;
  lk_file : forall f, file s = Some f -> exists i p, ps !! i = Some p /\ holding p = true }.

(** A sweeper finds nothing to unlink. *)
Lemma sweep_calm s ps i p p' s' : lock_ok s ps -> ps !! i = Some p -> ~ sees_old p s ->
  p_pc p = Sweep \/ p_pc p = SweepStat -> withSourceLockSync p s = (p', s') ->
  s' = s /\ (p' = goto SweepStat p \/ p' = goto Open p).
Proof.
  intros Hok Hi Hold Hpc Hw. unfold withSourceLockSync in Hw. destruct Hpc as [Hpc|Hpc]; rewrite Hpc in Hw;
    unfold clearStaleLock in Hw; rewrite Hpc in Hw.
  - cbv zeta in Hw. destruct (negb (truthy (readLock s))) eqn:Et; [injection Hw as <- <-; auto|].
    apply negb_false_iff in Et. unfold readLock in *. destruct (file s) as [f|] eqn:Ef; [|done].
    destruct (lk_file _ _ Hok f Ef) as (j & q & Hj & Hq).
    destruct (lk_holder _ _ Hok j q Hj Hq) as (f' & Hf' & _ & [[_ Hn]|[_ [at_ Hr]]]); rewrite Ef in Hf'; injection Hf' as <-.
    + by rewrite Hn in Et.
    + rewrite Hr in Hw. cbn in Hw. unfold isLiveServerPidReachable in Hw.
      assert (bool_decide (p_pid q ∈ alive s) = true) as Ha.
      { apply bool_decide_eq_true, (lk_alive _ _ Hok). by eapply list_elem_of_lookup_2. }
      rewrite Ha in Hw. injection Hw as <- <-. auto.
  - destruct (file s) as [f|] eqn:Ef; [|injection Hw as <- <-; auto].
    destruct (Z.ltb_spec UNREADABLE_LOCK_STALE_MS (now s - l_mtime f)); [|injection Hw as <- <-; auto].
    exfalso. apply Hold. split; [done|]. exists f. auto.
Qed.

Lemma elem_insert (ps : list proc) i p' q : q ∈ <[i := p']> ps -> q = p' \/ q ∈ ps.
Proof.
  intros [j Hj]%list_elem_of_lookup. apply list_lookup_insert_Some in Hj as [(_ & -> & _)|[_ Hj]]; [by left|].
  right. by eapply list_elem_of_lookup_2.
Qed.

Lemma lookup_update (ps : list proc) i p p' j q : ps !! i = Some p -> <[i := p']> ps !! j = Some q ->
  i = j /\ q = p' \/ i <> j /\ ps !! j = Some q.
Proof. intros Hi Hj. apply list_lookup_insert_Some in Hj as [(-> & -> & _)|[? ?]]; auto. Qed.

(** Moving a process without changing what it holds or the file. *)
Lemma ok_move s ps i p c : lock_ok s ps -> ps !! i = Some p -> c <> SweepUnlink ->
  holding (goto c p) = holding p -> (p_pc p = Write <-> c = Write) -> lock_ok s (<[i := goto c p]> ps).
Proof.
  intros [H1 H2 H3 H4 H5] Hi Hc Hh Hw. assert (p ∈ ps) as Hp by (by eapply list_elem_of_lookup_2). split.
  - intros q [->|Hq]%elem_insert; [by apply (H1 p)|auto].
  - intros q [->|Hq]%elem_insert; [done|auto].
  - intros j q Hj Hq. destruct (lookup_update _ _ _ _ _ _ Hi Hj) as [[<- ->]|[Hne Hj']]; [|by eapply H3].
    rewrite Hh in Hq. destruct (H3 i p Hi Hq) as (f & Hf & Hino & Hr). exists f. split; [done|]. split; [done|].
    simpl. destruct Hr as [[Hpc Hr]|[Hpc Hr]]; [left|right]; rewrite <- Hw; auto.
  - intros j k q r Hj Hk Hq Hr.
    destruct (lookup_update _ _ _ _ _ _ Hi Hj) as [[-> ->]|[Hne Hj']], (lookup_update _ _ _ _ _ _ Hi Hk) as [[-> ->]|[Hne' Hk']];
      try done; rewrite ?Hh in *; eauto.
  - intros f Hf. destruct (H5 f Hf) as (j & q & Hj & Hq). destruct (decide (i = j)) as [<-|Hne].
    + exists i, (goto c p). split; [apply list_lookup_insert_eq; by eapply lookup_lt_Some|]. congruence.
    + exists j, q. by rewrite list_lookup_insert_ne.
Qed.

Lemma nobody_holds s ps : lock_ok s ps -> file s = None -> forall i p, ps !! i = Some p -> holding p = false.
Proof.
  intros Hok Hf i p Hi. destruct (holding p) eqn:E; [|done].
  destruct (lk_holder _ _ Hok i p Hi E) as (f & Hf' & _). congruence.
Qed.

Lemma ok_open s ps i p : lock_ok s ps -> ps !! i = Some p -> file s = None ->
  lock_ok (Sys (Some (LockFile JNull (now s) (next_ino s))) (next_ino s + 1) (alive s) (now s))
    (<[i := opened (next_ino s) p]> ps).
Proof.
  intros Hok Hi Hf. pose proof (nobody_holds _ _ Hok Hf) as Hnone. pose proof Hok as [H1 H2 H3 H4 H5].
  assert (p ∈ ps) as Hp by (by eapply list_elem_of_lookup_2). split; simpl.
  - intros q [->|Hq]%elem_insert; [by apply (H1 p)|auto].
  - intros q [->|Hq]%elem_insert; [done|auto].
  - intros j q Hj Hq. destruct (lookup_update _ _ _ _ _ _ Hi Hj) as [[<- ->]|[Hne Hj']].
    + eexists. split; [done|]. split; [done|]. by left.
    + by rewrite (Hnone j q Hj') in Hq.
  - intros j k q r Hj Hk Hq Hr.
    destruct (lookup_update _ _ _ _ _ _ Hi Hj) as [[-> _]|[_ Hj']]; [|by rewrite (Hnone j q Hj') in Hq].
    destruct (lookup_update _ _ _ _ _ _ Hi Hk) as [[-> _]|[_ Hk']]; [done|by rewrite (Hnone k r Hk') in Hr].
  - intros f _. exists i, (opened (next_ino s) p). split; [|done]. apply list_lookup_insert_eq. by eapply lookup_lt_Some.
Qed.

Lemma ok_write s ps i p f : lock_ok s ps -> ps !! i = Some p -> p_pc p = Write -> file s = Some f -> l_ino f = p_ino p ->
  lock_ok (set_file (Some (LockFile (lock_record p (now s)) (now s) (l_ino f))) s) (<[i := goto Inside p]> ps).
Proof.
  intros Hok Hi Hpc Hf Hino. pose proof Hok as [H1 H2 H3 H4 H5].
  assert (holding p = true) as Hhp by (unfold holding; by rewrite Hpc).
  assert (forall j q, i <> j -> ps !! j = Some q -> holding q = false) as Hone.
  { intros j q Hne Hj. destruct (holding q) eqn:E; [|done]. destruct Hne. by eapply H4. }
  assert (p ∈ ps) as Hp by (by eapply list_elem_of_lookup_2). split; simpl.
  - intros q [->|Hq]%elem_insert; [by apply (H1 p)|auto].
  - intros q [->|Hq]%elem_insert; [done|auto].
  - intros j q Hj Hq. destruct (lookup_update _ _ _ _ _ _ Hi Hj) as [[<- ->]|[Hne Hj']].
    + eexists. split; [done|]. split; [done|]. right. split; [done|]. by eexists.
    + by rewrite (Hone j q Hne Hj') in Hq.
  - intros j k q r Hj Hk Hq Hr.
    destruct (lookup_update _ _ _ _ _ _ Hi Hj) as [[-> _]|[Hn Hj']]; [|by rewrite (Hone j q Hn Hj') in Hq].
    destruct (lookup_update _ _ _ _ _ _ Hi Hk) as [[-> _]|[Hn Hk']]; [done|by rewrite (Hone k r Hn Hk') in Hr].
  - intros f' _. exists i, (goto Inside p). split; [|done]. apply list_lookup_insert_eq. by eapply lookup_lt_Some.
Qed.

Lemma ok_unlink s ps i p : lock_ok s ps -> ps !! i = Some p -> holding p = true ->
  lock_ok (set_file None s) (<[i := goto Finished p]> ps).
Proof.
  intros Hok Hi Hhp. pose proof Hok as [H1 H2 H3 H4 H5].
  assert (forall j q, <[i := goto Finished p]> ps !! j = Some q -> holding q = false) as Hone.
  { intros j q Hj. destruct (lookup_update _ _ _ _ _ _ Hi Hj) as [[<- ->]|[Hne Hj']]; [done|].
    destruct (holding q) eqn:E; [|done]. destruct Hne. by eapply H4. }
  assert (p ∈ ps) as Hp by (by eapply list_elem_of_lookup_2). split; simpl.
  - intros q [->|Hq]%elem_insert; [by apply (H1 p)|auto].
  - intros q [->|Hq]%elem_insert; [done|auto].
  - intros j q Hj Hq. by rewrite (Hone j q Hj) in Hq.
  - intros j k q r Hj _ Hq _. by rewrite (Hone j q Hj) in Hq.
  - done.
Qed.

Ltac move_tac Hpc :=
  apply ok_move; [done|done|done|unfold holding; cbn; by rewrite Hpc|by rewrite Hpc].

Lemma calm_ok w w' : calm w w' -> lock_ok w.1 w.2 -> lock_ok w'.1 w'.2.
Proof.
  destruct 1 as [i p p' s s' ps Hi Hold Hw|t s ps Ht]; cbn [fst snd]; intros Hok; [|by destruct Hok].
  assert (p_pc p = Sweep \/ p_pc p = SweepStat -> lock_ok s' (<[i := p']> ps)) as Hsweep.
  { intros Hpc. destruct (sweep_calm _ _ _ _ _ _ Hok Hi Hold Hpc Hw) as [-> Hp'].
    assert (holding p = false) as Hh by (unfold holding; by destruct Hpc as [-> | ->]).
    destruct Hp' as [->| ->]; apply ok_move; try done; destruct Hpc as [-> | ->]; done. }
  assert (p_pc p <> SweepUnlink) as Hnu by (apply (lk_sweep _ _ Hok); by eapply list_elem_of_lookup_2).
  revert Hw. unfold withSourceLockSync. destruct (p_pc p) eqn:Hpc; try (intros _; by auto); try done;
    unfold acquire, retry_later, releaseOwnLock; rewrite ?Hpc.
  - destruct (file s) as [f|] eqn:Ef; intros [= <- <-]; [move_tac Hpc|by apply ok_open].
  - destruct (lk_holder _ _ Hok i p Hi) as (f & Hf & Hino & _); [unfold holding; by rewrite Hpc|].
    rewrite Hf, Hino, Z.eqb_refl. intros [= <- <-]. rewrite <- Hino. by apply ok_write.
  - destruct (_ <=? _); intros [= <- <-]; move_tac Hpc.
  - destruct (_ <=? _); intros [= <- <-]; [move_tac Hpc|by rewrite list_insert_id].
  - intros [= <- <-]. move_tac Hpc.
  - destruct (lk_holder _ _ Hok i p Hi) as (f & Hf & _ & [[? _]|[_ [at_ Hr]]]);
      [unfold holding; by rewrite Hpc|congruence|].
    unfold readLock. rewrite Hf, Hr. cbn. rewrite String.eqb_refl. intros [= <- <-]. move_tac Hpc.
  - intros [= <- <-]. apply ok_unlink; [done|done|unfold holding; by rewrite Hpc].
  - intros [= <- <-]. by rewrite list_insert_id.
  - intros [= <- <-]. by rewrite list_insert_id.
Qed.

(** The lock as the first processes find it. *)
Definition fresh (w : world) : Prop :=
  file w.1 = None /\ forall p, p ∈ w.2 -> p_pc p = Sweep /\ p_pid p ∈ alive w.1.

Lemma fresh_world_ok w : fresh w -> lock_ok w.1 w.2.
Proof.
  intros [Hf Hp]. split.
  - intros p H. by apply Hp.
  - intros p H. by destruct (Hp p H) as [-> _].
  - intros i p Hi Hh. apply list_elem_of_lookup_2 in Hi. destruct (Hp p Hi) as [E _]. unfold holding in Hh. by rewrite E in Hh.
  - intros i j p q Hi _ Hh _. apply list_elem_of_lookup_2 in Hi. destruct (Hp p Hi) as [E _]. unfold holding in Hh. by rewrite E in Hh.
  - intros f. by rewrite Hf.
Qed.

(** C25: Mutual exclusion: as long as no process dies and no sweeper is held up for a minute
    between reading a lock and looking at its age, at most one process is inside its critical
    section, however the calls of any number of processes interleave, and the lock file then
    carries that process's token. *)
Theorem mutual_exclusion w w' i j p q : fresh w -> rtc calm w w' ->
  w'.2 !! i = Some p -> w'.2 !! j = Some q -> p_pc p = Inside -> p_pc q = Inside ->
  i = j /\ (readLock w'.1).["token"] = JStr (p_token p).
Proof.
  intros Hf Hr Hi Hj Hp Hq.
  assert (lock_ok w'.1 w'.2) as Hok.
  { clear -Hf Hr. apply fresh_world_ok in Hf. induction Hr as [|x y z Hs _ IH]; [done|]. apply IH. by eapply calm_ok. }
  split.
  - eapply lk_one; try done; unfold holding; by rewrite ?Hp, ?Hq.
  - destruct (lk_holder _ _ Hok i p Hi) as (f & Hf' & _ & [[? _]|[_ [at_ Hrec]]]);
      [unfold holding; by rewrite Hp|congruence|].
    unfold readLock. by rewrite Hf', Hrec.
Qed.

(** A dead owner's lock costs nothing: a process that finds a lock whose recorded process
    is gone, and is not disturbed, holds the lock after four calls, without waiting. *)
Theorem dead_owner_is_swept p s f z : p_pc p = Sweep -> file s = Some f -> truthy (l_record f) = true ->
  (l_record f).["pid"] = int z -> z ∉ alive s ->
  let '(p', s') := drive 4 p s in
  p_pc p' = Inside /\ now s' = now s /\ (readLock s').["token"] = JStr (p_token p).
Proof.
  intros Hpc Hf Ht Hz Hd.
  assert (bool_decide (z ∈ alive s) = false) as Ha by (by apply bool_decide_eq_false).
  cbn [drive]. rewrite Hpc. unfold withSourceLockSync at 1. rewrite Hpc. unfold clearStaleLock at 1. rewrite Hpc.
  unfold readLock. rewrite Hf, Ht. cbn [negb]. cbv zeta. rewrite Hz. unfold isLiveServerPidReachable. rewrite Ha.
  cbn [andb goto p_pc withSourceLockSync clearStaleLock acquire set_file file opened].
  rewrite Z.eqb_refl. done.
Qed.

(** One attempt behind a live owner: two calls, then give up or sleep. *)
Lemma blocked_attempt p s f z fuel : p_pc p = Sweep -> file s = Some f -> truthy (l_record f) = true ->
  (l_record f).["pid"] = int z -> z ∈ alive s ->
  drive (S (S fuel)) p s = drive fuel (goto Blocked p) s.
Proof.
  intros Hpc Hf Ht Hz Ha. assert (bool_decide (z ∈ alive s) = true) as Hb by (by apply bool_decide_eq_true).
  cbn [drive]. rewrite Hpc. unfold withSourceLockSync at 1. rewrite Hpc. unfold clearStaleLock at 1. rewrite Hpc.
  unfold readLock. rewrite Hf, Ht. cbn [negb]. cbv zeta. rewrite Hz. unfold isLiveServerPidReachable. rewrite Hb.
  cbn [andb goto p_pc withSourceLockSync acquire]. by rewrite Hf.
Qed.

Lemma lock_refused n p s f z : p_pc p = Sweep -> file s = Some f -> truthy (l_record f) = true ->
  (l_record f).["pid"] = int z -> z ∈ alive s -> (Z.to_nat (p_deadline p - now s) <= n)%nat ->
  exists fuel, let '(p', s') := drive fuel p s in
  p_pc p' = LockedOut /\ now s' = Z.max (now s) (p_deadline p) /\ file s' = file s.
Proof.
  revert p s; induction n as [|n IH]; intros p s Hpc Hf Ht Hz Ha Hn.
  - exists 3%nat. rewrite (blocked_attempt p s f z) by done.
    cbn [drive goto p_pc withSourceLockSync retry_later p_deadline].
    destruct (Z.leb_spec (p_deadline p) (now s)); [|lia]. cbn. split_and!; [done|lia|done].
  - destruct (Z.leb_spec (p_deadline p) (now s)) as [Hd|Hd].
    { apply (IH p s); try done. lia. }
    set (t := now s + Z.max 1 (Z.min (p_retryMs p) (p_deadline p - now s))).
    destruct (IH (goto Sweep p) (Sys (file s) (next_ino s) (alive s) (Z.max t (now s)))) as [fuel Hfuel]; try done.
    { simpl. lia. }
    exists (4 + fuel)%nat. cbn [Nat.add]. rewrite (blocked_attempt p s f z) by done.
    cbn [drive goto p_pc withSourceLockSync retry_later p_deadline p_retryMs].
    destruct (Z.leb_spec (p_deadline p) (now s)); [lia|]. cbn [goto p_pc]. fold t.
    unfold withSourceLockSync, retry_later. cbn [goto p_pc now]. destruct (Z.leb_spec t (Z.max t (now s))); [|lia].
    change (goto Sweep (goto _ (goto Blocked p))) with (goto Sweep p).
    destruct (drive fuel (goto Sweep p) _) as [p' s']. destruct Hfuel as (H1 & H2 & H3).
    cbn [now goto p_deadline] in H2. split; [done|]. split; [lia|done].
Qed.

(** Waiting ends: behind the lock of a live process, a waiter that is not disturbed gives up
    with [SOURCE_LOCKED] exactly at its deadline - at once when it has no waiting time - and
    leaves the lock as it was. *)
Theorem waiter_gives_up p s f z : p_pc p = Sweep -> file s = Some f -> truthy (l_record f) = true ->
  (l_record f).["pid"] = int z -> z ∈ alive s ->
  exists fuel, let '(p', s') := drive fuel p s in
  p_pc p' = LockedOut /\ now s' = Z.max (now s) (p_deadline p) /\ file s' = file s.
Proof. intros. by apply (lock_refused (Z.to_nat (p_deadline p - now s)) p s f z). Qed.

(** ** Concrete runs *)

Definition calls (who : list nat) (w : world) : world :=
  foldl (fun w i => match w.2 !! i with
                    | Some p => let '(p', s') := withSourceLockSync p w.1 in (s', <[i := p']> w.2)
                    | None => w end) w who.

Definition calm_at (w : world) (i : nat) : bool :=
  match w.2 !! i with
  | Some p => negb ((match p_pc p with SweepStat => true | _ => false end)
                    && match file w.1 with Some f => UNREADABLE_LOCK_STALE_MS <? now w.1 - l_mtime f | None => false end)
  | None => true
  end.
Fixpoint calm_run (who : list nat) (w : world) : bool :=
  match who with
  | [] => true
  | i :: who => calm_at w i && calm_run who (calls [i] w)
  end.

Lemma calm_calls who w : calm_run who w = true -> rtc calm w (calls who w).
Proof.
  revert w; induction who as [|i who IH]; intros w; [reflexivity|]. cbn [calm_run]. intros [Hi Hr]%andb_true_iff.
  change (calls (i :: who) w) with (calls who (calls [i] w)).
  destruct w as [s ps]. unfold calm_at in Hi. cbn [fst snd] in Hi.
  destruct (ps !! i) as [p|] eqn:E; [|unfold calls at 2; cbn; rewrite E; apply IH; revert Hr; unfold calls; cbn; by rewrite E].
  destruct (withSourceLockSync p s) as [p' s'] eqn:Ew.
  assert (calls [i] (s, ps) = (s', <[i := p']> ps)) as Hc by (unfold calls; cbn; by rewrite E, Ew).
  rewrite Hc in *. eapply rtc_l; [|by apply IH].
  eapply calm_call; [exact E| |exact Ew]. intros (Hpc & f & Hf & Ho). rewrite Hpc, Hf in Hi. simpl in Hi.
  apply Z.ltb_lt in Ho. by rewrite Ho in Hi.
Qed.

Definition calm_sys : sys := Sys None 1 {[ 100; 200 ]} 1700000000000.
Definition writer (pid : Z) (token : string) : proc := start pid token (JStr token) "/p/a.html" 2000 5 calm_sys.
Definition two_writers : world := (calm_sys, [writer 100 "A"; writer 200 "B"]).

(** B reads before A has written, and waits. *)
Definition contended : world := calls [0; 0; 0; 1; 1; 0; 1; 1; 1]%nat two_writers.

Lemma mutual_exclusion_witness : (p_pc <$> contended.2) = [Inside; Sleep 1700000000005] /\
  (0 = 0)%nat /\ (readLock contended.1).["token"] = JStr "A".
Proof.
  split; [vm_compute; reflexivity|].
  destruct (contended.2 !! 0%nat) as [p|] eqn:E; [|vm_compute in E; discriminate E].
  assert (p_pc p = Inside /\ p_token p = "A") as [Hp Ht] by (vm_compute in E; injection E as <-; split; reflexivity).
  rewrite <- Ht. apply (mutual_exclusion two_writers contended 0 0 p p).
  - split; [reflexivity|]. intros q Hq. unfold two_writers in Hq. cbn [snd] in Hq.
    apply elem_of_cons in Hq as [->|Hq]; [|apply list_elem_of_singleton in Hq as ->];
      (split; [reflexivity|apply (bool_decide_unpack _); vm_compute; exact I]).
  - apply calm_calls. vm_compute. reflexivity.
  - exact E.
  - exact E.
  - exact Hp.
  - exact Hp.
Defined.

(** A lock left behind by process 300. *)
Definition dead_lock : lockfile := LockFile (lock_record (writer 300 "D") 0) 0 0.
Definition swept_sys : sys := set_file (Some dead_lock) calm_sys.

Lemma dead_owner_is_swept_witness : p_pc (drive 4 (writer 100 "A") swept_sys).1 = Inside.
Proof.
  pose proof (dead_owner_is_swept (writer 100 "A") swept_sys dead_lock 300 eq_refl eq_refl eq_refl eq_refl) as H.
  assert (300 ∉ alive swept_sys) as Hd by (apply (bool_decide_unpack _); vm_compute; exact I).
  specialize (H Hd). destruct (drive 4 _ _) as [p' s']. exact (proj1 H).
Defined.

Definition live_lock : lockfile := LockFile (lock_record (writer 200 "B") 0) 0 0.
Lemma waiter_gives_up_witness : exists fuel,
  p_pc (drive fuel (writer 100 "A") (set_file (Some live_lock) calm_sys)).1 = LockedOut.
Proof.
  destruct (waiter_gives_up (writer 100 "A") (set_file (Some live_lock) calm_sys) live_lock 200 eq_refl eq_refl eq_refl eq_refl)
    as [fuel H]; [apply (bool_decide_unpack _); vm_compute; exact I|].
  exists fuel. destruct (drive fuel _ _) as [p' s']. exact (proj1 H).
Defined.

(** Sweeping a dead owner's lock is not atomic: two waiters both read the dead lock; the first
    unlinks it, creates its own and enters; the second then unlinks that new lock and
    enters too. Both are alive and inside the critical section of the same file. *)
Theorem sweep_admits_two :
  let w := calls [0; 1; 0; 0; 0; 1; 1; 1]%nat (swept_sys, [writer 100 "A"; writer 200 "B"]) in
  p_pc <$> w.2 = [Inside; Inside] /\ forallb (fun p => bool_decide (p_pid p ∈ alive w.1)) w.2 = true.
Proof. vm_compute. split; reflexivity. Qed.
