(* ===== verification/Files.v ===== *)
(** * Text files ([node:fs] as the live scripts use it)

    A file system as the scripts see it: text files and directories by absolute path.
    Only the failures the code distinguishes are modelled: a missing file (ENOENT),
    a path that is a directory (EISDIR), a directory that is not empty. *)
From S2P Require Import Prelude JsString JsValue Json NodePath.

Record fsys := Fsys { f_text : gmap string string; f_dirs : gset string }.

Definition os_error (code path : string) : js_error := JsError (code +:+ ": " +:+ path) (Some code).

Section Ops.
Implicit Types (p : string) (s : fsys).

Definition is_dir p s : bool := bool_decide (p ∈ f_dirs s).
Definition existsSync p s : bool := bool_decide (is_Some (f_text s !! p)) || is_dir p s.

Definition readFileSync p : eff fsys string := fun s =>
  (match f_text s !! p with
   | Some t => Ok t
   | None => Throw (os_error (if is_dir p s then "EISDIR" else "ENOENT") p)
   end, s).

Definition set_text (m : gmap string string) s : fsys := Fsys m (f_dirs s).
Definition writeFileSync p (t : string) : eff fsys unit := fun s =>
  if is_dir p s then (Throw (os_error "EISDIR" p), s) else (Ok tt, set_text (<[p := t]> (f_text s)) s).

Definition unlinkSync p : eff fsys unit := fun s =>
  match f_text s !! p with
  | Some _ => (Ok tt, set_text (delete p (f_text s)) s)
  | None => (Throw (os_error (if is_dir p s then "EPERM" else "ENOENT") p), s)
  end.

(** [renameSync(p, q)] of a file. *)
Definition renameSync p q : eff fsys unit := fun s =>
  match f_text s !! p with
  | Some t => if is_dir q s then (Throw (os_error "EISDIR" q), s)
              else (Ok tt, set_text (<[q := t]> (delete p (f_text s))) s)
  | None => (Throw (os_error "ENOENT" p), s)
  end.

(** What [readdirSync(dir)] lists is not empty. *)
Definition has_entries (dir : string) s : bool :=
  existsb (fun p => String.eqb (dirname p) dir && negb (String.eqb p dir))
    ((fst <$> map_to_list (f_text s)) ++ elements (f_dirs s)).

(** [readdirSync(dir)]: the names in a directory; their order is the system's. *)
Definition readdirSync (dir : string) : eff fsys (list string) := fun s =>
  if negb (is_dir dir s) then (Throw (os_error "ENOENT" dir), s)
  else (Ok (basename <$> bfilter (fun p => String.eqb (dirname p) dir && negb (String.eqb p dir))
              ((fst <$> map_to_list (f_text s)) ++ elements (f_dirs s))), s).

Definition rmdirSync p : eff fsys unit := fun s =>
  if negb (is_dir p s) then (Throw (os_error "ENOENT" p), s)
  else if has_entries p s then (Throw (os_error "ENOTEMPTY" p), s)
  else (Ok tt, Fsys (f_text s) (f_dirs s ∖ {[p]})).

(** [mkdirSync(dir, { recursive: true })]: the path and every prefix of it. *)
Definition dir_prefixes (dir : string) : list string :=
  (fun n => of_segs (take n (norm_segs false [] (segs_of dir)))) <$> seq 0 (S (length (norm_segs false [] (segs_of dir)))).
Definition mkdirp (dir : string) : eff fsys unit :=
  upd (fun s => Fsys (f_text s) (f_dirs s ∪ list_to_set (dir_prefixes dir))).

(** The directories above a file are there. *)
Definition fs_tree s : Prop :=
  forall p t d, f_text s !! p = Some t -> d ∈ dir_prefixes (dirname p) -> d ∈ f_dirs s.
End Ops.

(** Operations that touch no file text outside [P]. *)
Definition only_touches {A} (P : string -> Prop) (m : eff fsys A) : Prop :=
  forall s p, ~ P p -> f_text (m s).2 !! p = f_text s !! p.

Section Frame.
Context (P : string -> Prop).

Lemma touches_keeps {A} (m : eff fsys A) :
  (forall s0, keeps (fun s => forall p, ~ P p -> f_text s !! p = f_text s0 !! p) m) <-> only_touches P m.
Proof.
  split.
  - intros H s p Hp. exact (H s s (fun _ _ => eq_refl) p Hp).
  - intros H s0 s Hs p Hp. rewrite (H s p Hp). by apply Hs.
Qed.

Lemma touches_bind {A B} (m : eff fsys A) (f : A -> eff fsys B) :
  only_touches P m -> (forall a, only_touches P (f a)) -> only_touches P (m ≫= f).
Proof. intros Hm Hf. apply touches_keeps. intros s0. apply keeps_bind; [by apply touches_keeps|intros a; by apply touches_keeps]. Qed.
Lemma touches_ret {A} (a : A) : only_touches P (mret a).
Proof. done. Qed.
Lemma touches_get {A} (f : fsys -> A) : only_touches P (get f).
Proof. done. Qed.
Lemma touches_lift {A} (r : result A) : only_touches P (lift r).
Proof. done. Qed.
Lemma touches_attempt {A} (m : eff fsys A) h : only_touches P m -> (forall e, only_touches P (h e)) -> only_touches P (attempt m h).
Proof. intros Hm Hh. apply touches_keeps. intros s0. apply keeps_attempt; [by apply touches_keeps|intros e; by apply touches_keeps]. Qed.
Lemma touches_read p : only_touches P (readFileSync p).
Proof. done. Qed.
Lemma touches_mkdirp p : only_touches P (mkdirp p).
Proof. done. Qed.
Lemma touches_rmdir p : only_touches P (rmdirSync p).
Proof. intros s q _. unfold rmdirSync. by repeat case_match. Qed.
Lemma touches_write p t : P p -> only_touches P (writeFileSync p t).
Proof.
  intros Hp s q Hq. unfold writeFileSync. destruct (is_dir p s); [done|]. simpl.
  by rewrite lookup_insert_ne by (intros ->; contradiction).
Qed.
Lemma touches_unlink p : P p -> only_touches P (unlinkSync p).
Proof.
  intros Hp s q Hq. unfold unlinkSync. destruct (f_text s !! p); [|done]. simpl.
  by rewrite lookup_delete_ne by (intros ->; contradiction).
Qed.
Lemma touches_rename p q : P p -> P q -> only_touches P (renameSync p q).
Proof.
  intros Hp Hq s r Hr. unfold renameSync. destruct (f_text s !! p); [|done]. destruct (is_dir q s); [done|]. simpl.
  by rewrite lookup_insert_ne, lookup_delete_ne by (intros ->; contradiction).
Qed.
End Frame.
#[export] Hint Resolve touches_ret touches_get touches_lift touches_read touches_mkdirp touches_rmdir : touches.

(** Follow the code of an [only_touches] goal. *)
Ltac touch := cbv zeta; repeat match goal with
  | |- only_touches _ (_ ≫= _) => apply touches_bind; [|intros ?]
  | |- only_touches _ (attempt _ _) => apply touches_attempt; [|intros ?]
  | |- only_touches _ (if ?b then _ else _) => destruct b
  | |- only_touches _ (match ?x with _ => _ end) => destruct x
  | |- only_touches _ (run_if ?b _) => destruct b; unfold run_if
  | |- only_touches _ _ => solve [auto with touches]
  end.
