(* ===== verification/ManualEditsBuffer.v ===== *)
(** * The pending manual edits ([live/manual-edits-buffer.mjs])

    Text edits made in the browser are staged in one JSON file until they are
    applied to the source. An operation is keyed by the page and the element it edits;
    staging an element again keeps the original source text. The buffer is re-read for
    every operation: its entries are fresh objects, mutated in place and written back. *)
From S2P Require Import Prelude JsString JsValue Json NodePath EventValidation Files.
Local Open Scope Z_scope.

Definition BUFFER_VERSION : Z := 1.
Definition BUFFER_FILENAME : string := "pending-manual-edits.json".

Section Buffer.
Context (liveDir : string) (stamp : js).

Definition getBufferPath : string := path_join [liveDir; BUFFER_FILENAME].

Definition buffer (entries : list js) : js := JObj [("version", int BUFFER_VERSION); ("entries", JArr entries)].

(** [readBufferInternal]. The message of a JSON syntax error is the engine's. *)
Definition readBufferInternal (strict : bool) : eff fsys (list js) :=
  attempt
    (raw ← readFileSync getBufferPath;
     match json_parse raw with
     | None => lift (Throw (error "Unexpected token"))
     | Some parsed =>
       match (if truthy parsed && is_objecty parsed then parsed.["entries"] else JUndef) with
       | JArr entries => mret entries
       | _ => if strict then lift (Throw (error "manual_edit_buffer_invalid_schema")) else mret []
       end
     end)
    (fun err => if strict && negb (bool_decide (err_code err = Some "ENOENT"))
                then lift (Throw (error ("manual_edit_buffer_unreadable: " +:+ err_message err)))
                else mret []).
Definition readBuffer : eff fsys (list js) := readBufferInternal false.
Definition readBufferStrict : eff fsys (list js) := readBufferInternal true.

Definition writeBuffer (entries : list js) : eff fsys unit :=
  _ ← mkdirp (dirname getBufferPath);
  writeFileSync getBufferPath (json_stringify2 (buffer entries)).

(** ** Staging *)

(** [ops.findIndex((op) => op.ref === ref)]. *)
Fixpoint find_ref (ref : js) (ops : list js) : result (option nat) :=
  match ops with
  | [] => Ok None
  | op :: ops =>
    r ← read_prop op "ref";
    if r === ref then Ok (Some O) else i ← find_ref ref ops; Ok (S <$> (i : option nat))
  end.

Definition as_ops (v : js) : result (list js) :=
  match v with JArr l => Ok l | _ => Throw (error "findIndex is not a function") end.

Definition merge_op (old newOp : js) : js :=
  spread_with newOp [("originalText", old.["originalText"]); ("newText", newOp.["newText"]);
                     ("deleted", newOp.["deleted"] ||? JBool false)].

(** The inner loop: the first entry of the page that has an operation on this element. *)
Fixpoint merge_existing (newEntry newOp : js) (entries : list js) : result (option (list js)) :=
  match entries with
  | [] => Ok None
  | existing :: rest =>
    page ← read_prop existing "pageUrl";
    if negb (page === newEntry.["pageUrl"]) then
      r ← merge_existing newEntry newOp rest; Ok (cons existing <$> (r : option (list js)))
    else
      ops ← as_ops existing.["ops"];
      ref ← read_prop newOp "ref";
      idx ← find_ref ref ops;
      match idx with
      | None => r ← merge_existing newEntry newOp rest; Ok (cons existing <$> (r : option (list js)))
      | Some i =>
        let old := default JUndef (ops !! i) in
        let e := existing.["ops" := JArr (<[i := merge_op old newOp]> ops)] in
        let e := if truthy newEntry.["element"] then e.["element" := newEntry.["element"]] else e in
        Ok (Some (e.["stagedAt" := stamp] :: rest))
      end
  end.

(** The entry of this Save takes the operation; it is created when there is none. *)
Fixpoint push_op (newEntry newOp : js) (entries : list js) : result (list js) :=
  match entries with
  | [] => Ok [JObj [("id", newEntry.["id"]); ("pageUrl", newEntry.["pageUrl"]); ("element", newEntry.["element"]);
                    ("ops", JArr [newOp]); ("stagedAt", stamp)]]
  | e :: rest =>
    page ← read_prop e "pageUrl";
    if (page === newEntry.["pageUrl"]) && (e.["id"] === newEntry.["id"]) then
      match e.["ops"] with
      | JArr ops => mret (((e.["ops" := JArr (ops ++ [newOp])]).["stagedAt" := stamp]) :: rest)
      | _ => Throw (error "push is not a function")
      end
    else r ← push_op newEntry newOp rest; mret (e :: r)
  end.

Definition stage_op (newEntry : js) (entries : list js) (newOp : js) : result (list js) :=
  merged ← merge_existing newEntry newOp entries;
  match merged with
  | Some entries => mret entries
  | None => push_op newEntry newOp entries
  end.

Fixpoint stage_ops (newEntry : js) (entries ops : list js) : result (list js) :=
  match ops with
  | [] => Ok entries
  | newOp :: ops => entries ← stage_op newEntry entries newOp; stage_ops newEntry entries ops
  end.

Definition stageEntry (newEntry : js) : eff fsys (list js) :=
  entries ← readBufferStrict;
  ops ← lift (iterate newEntry.["ops"]);
  entries ← lift (stage_ops newEntry entries ops);
  _ ← writeBuffer entries;
  mret entries.

(** ** Removing and counting *)

Definition length_of (ops : js) : num := to_num ops.["length"].

(** [entry.ops.length], which throws for an entry without [ops]; [entry.ops?.length || 0]. *)
Definition ops_length (e : js) : result num :=
  ops ← read_prop e "ops"; n ← read_prop ops "length"; mret (to_num n).
Definition ops_length_or_0 (e : js) : result num :=
  ops ← read_prop e "ops";
  mret (if nullish ops || negb (truthy (JNum (length_of ops))) then NInt 0 else length_of ops).

Fixpoint remove_from (predicate : js -> bool) (entries : list js) (removedOps : num) (kept : list js) : result (num * list js) :=
  match entries with
  | [] => Ok (removedOps, kept)
  | e :: rest =>
    if predicate e then
      n ← ops_length_or_0 e; remove_from predicate rest (num_add removedOps n) kept
    else
      ops ← read_prop e "ops";
      remove_from predicate rest removedOps
        (if truthy ops && num_ltb (NInt 0) (length_of ops) then kept ++ [e] else kept)
  end.

Definition removeEntries (predicate : js -> bool) : eff fsys num :=
  entries ← readBuffer;
  removal ← lift (remove_from predicate entries (NInt 0) []);
  _ ← writeBuffer removal.2;
  mret removal.1.

(** The total and the [perPage] object. *)
Definition page_total (perPage : list (string * num)) (page : string) : num :=
  match assoc_get page perPage with Some n => if truthy (JNum n) then n else NInt 0 | None => NInt 0 end.
Fixpoint count_pages (entries : list js) (totalCount : num) (perPage : list (string * num))
    : result (num * list (string * num)) :=
  match entries with
  | [] => Ok (totalCount, perPage)
  | e :: rest =>
    n ← ops_length e;
    let page := to_str e.["pageUrl"] in
    count_pages rest (num_add totalCount n) (assoc_set page (num_add (page_total perPage page) n) perPage)
  end.
Definition countByPage : eff fsys (num * list (string * num)) :=
  entries ← readBuffer; lift (count_pages entries (NInt 0) []).

Fixpoint count_ops (entries : list js) (removed : num) : result num :=
  match entries with
  | [] => Ok removed
  | e :: rest => n ← ops_length e; count_ops rest (num_add removed n)
  end.
Definition truncateBuffer : eff fsys num :=
  entries ← readBuffer;
  removed ← lift (count_ops entries (NInt 0));
  _ ← writeBuffer [];
  mret removed.
End Buffer.

(** * Theorems *)

(** ** The buffer as a map *)

Definition ops_of (e : js) : list js := match e.["ops"] with JArr l => l | _ => [] end.
Definition has_ref (ref : string) (op : js) : bool := op.["ref"] === JStr ref.

(** The operation staged for an element of a page. *)
Fixpoint op_at (page ref : string) (entries : list js) : option js :=
  match entries with
  | [] => None
  | e :: rest =>
    if e.["pageUrl"] === JStr page then
      match find (has_ref ref) (ops_of e) with Some op => Some op | None => op_at page ref rest end
    else op_at page ref rest
  end.

Record entry_ok (e : js) : Prop := {
  eo_obj : is_obj e = true;
  eo_ops : exists ops, e.["ops"] = JArr ops /\ Forall (fun op => is_obj op = true) ops }.

Notation op_map := (string -> string -> option js).
(** Staging one operation, on the map: the newest operation, with the oldest source text. *)
Definition staged (page : string) (m : op_map) (newOp : js) : op_map := fun p r =>
  if String.eqb p page && (newOp.["ref"] === JStr r)
  then Some (match m p r with Some old => merge_op old newOp | None => newOp end) else m p r.

Lemma read_prop_obj v k : is_obj v = true -> read_prop v k = Ok v.[k].
Proof. by destruct v. Qed.

Lemma find_ref_index ref ops : Forall (fun op => is_obj op = true) ops ->
  find_ref ref ops = Ok (find_index (fun op => op.["ref"] === ref) ops).
Proof.
  induction 1 as [|op ops Ho _ IH]; simpl; [done|]. rewrite read_prop_obj by done. cbn [mbind result_bind].
  destruct (op.["ref"] === ref); [done|]. by rewrite IH.
Qed.

Lemma find_update ref ref' ops i newOp old : find_index (has_ref ref) ops = Some i ->
  ops !! i = Some old -> newOp.["ref"] = JStr ref ->
  find (has_ref ref') (<[i := newOp]> ops) = if String.eqb ref' ref then Some newOp else find (has_ref ref') ops.
Proof.
  intros Hi Ho Hn. revert i Hi Ho; induction ops as [|op ops IH]; intros i; simpl; [done|].
  destruct (has_ref ref op) eqn:E.
  - intros [= <-] [= ->]. simpl. unfold has_ref in *. rewrite Hn. apply strict_eq_str in E. rewrite E. simpl.
    rewrite (String.eqb_sym ref ref'). by destruct (String.eqb ref' ref).
  - destruct (find_index (has_ref ref) ops) as [j|] eqn:Ej; [|done]. intros [= <-] Ho. simpl in *.
    rewrite (IH j eq_refl Ho). destruct (String.eqb_spec ref' ref) as [->|]; [by rewrite E|]. done.
Qed.

Lemma find_index_find {A} (f : A -> bool) l : find_index f l = None -> find f l = None.
Proof.
  induction l as [|x l IH]; simpl; [done|]. destruct (f x); [done|]. destruct (find_index f l); [done|]. auto.
Qed.

Lemma find_app {A} (f : A -> bool) l x : find f l = None -> find f (l ++ [x]) = if f x then Some x else None.
Proof. induction l as [|y l IH]; simpl; [done|]. destruct (f y); [done|auto]. Qed.
Lemma find_app_ne {A} (f : A -> bool) l x : f x = false -> find f (l ++ [x]) = find f l.
Proof. intros Hx. induction l as [|y l IH]; simpl; [by rewrite Hx|]. by destruct (f y). Qed.

Section Staging.
Context (stamp newEntry : js) (page : string) (Hpage : newEntry.["pageUrl"] = JStr page).

(** What an entry is after its operations were replaced. *)
Definition updated (e : js) (ops : list js) : js :=
  let e := e.["ops" := JArr ops] in
  let e := if truthy newEntry.["element"] then e.["element" := newEntry.["element"]] else e in
  e.["stagedAt" := stamp].

Lemma updated_spec e ops : is_obj e = true ->
  is_obj (updated e ops) = true /\ (updated e ops).["ops"] = JArr ops /\
  (updated e ops).["pageUrl"] = e.["pageUrl"].
Proof.
  intros He. unfold updated. cbv zeta.
  destruct (truthy newEntry.["element"]); rewrite !jget_jset by (repeat rewrite is_obj_jset; done);
    (split_and!; [repeat rewrite is_obj_jset; done|reflexivity|reflexivity]).
Qed.

Lemma updated_ok e ops : is_obj e = true -> Forall (fun op => is_obj op = true) ops -> entry_ok (updated e ops).
Proof. intros He Ho. destruct (updated_spec e ops He) as (H1 & H2 & _). split; [done|]. by exists ops. Qed.

Lemma merge_op_ref old newOp : is_obj newOp = true ->
  (merge_op old newOp).["ref"] = newOp.["ref"] /\ is_obj (merge_op old newOp) = true.
Proof.
  intros Ho. unfold merge_op. rewrite jget_spread_with; [done|done|].
  vm_compute. repeat constructor; set_solver.
Qed.

Lemma staged_here (m : op_map) newOp ref p r : newOp.["ref"] = JStr ref ->
  staged page m newOp p r = if String.eqb p page && String.eqb r ref
    then Some (match m p r with Some old => merge_op old newOp | None => newOp end) else m p r.
Proof. intros Hr. unfold staged. rewrite Hr. cbn [strict_eq]. by rewrite (String.eqb_sym ref r). Qed.

Lemma merge_existing_spec newOp ref entries : is_obj newOp = true -> newOp.["ref"] = JStr ref -> Forall entry_ok entries ->
  (merge_existing stamp newEntry newOp entries = Ok None /\ op_at page ref entries = None) \/
  exists entries' old, merge_existing stamp newEntry newOp entries = Ok (Some entries') /\
    op_at page ref entries = Some old /\ Forall entry_ok entries' /\
    forall p r, op_at p r entries' = if String.eqb p page && String.eqb r ref then Some (merge_op old newOp) else op_at p r entries.
Proof.
  intros Ho Hr. induction 1 as [|e rest He Hrest IH]; cbn [merge_existing op_at]; [by left|].
  destruct He as [He (ops & Hops & Hall)]. rewrite !read_prop_obj, Hr by done. cbn [mbind result_bind]. rewrite Hpage.
  assert (forall tail, op_at page ref (e :: tail) = if e.["pageUrl"] === JStr page then
    match find (has_ref ref) ops with Some op => Some op | None => op_at page ref tail end else op_at page ref tail) as Hat.
  { intros tail. cbn [op_at]. unfold ops_of. by rewrite Hops. }
  destruct (e.["pageUrl"] === JStr page) eqn:Ep; cbn [negb].
  - rewrite Hops. cbn [as_ops mbind result_bind].
    rewrite find_ref_index by done. cbn [mbind result_bind]. unfold ops_of. rewrite Hops.
    change (fun op => op.["ref"] === JStr ref) with (has_ref ref).
    destruct (find_index (has_ref ref) ops) as [i|] eqn:Ei.
    + right. destruct (find_index_Some _ _ _ Ei) as (old & Hold & Hf & Hbefore). rewrite Hold. cbn [default].
      destruct (merge_op_ref old newOp Ho) as [Hmr Hmo].
      set (ops' := <[i := merge_op old newOp]> ops).
      change (Ok (Some (_ :: rest))) with (Ok (Some (updated e ops' :: rest))).
      destruct (updated_spec e ops' He) as (U1 & U2 & U3).
      assert (forall r, find (has_ref r) ops' = if String.eqb r ref then Some (merge_op old newOp) else find (has_ref r) ops) as Hup.
      { intros r. apply (find_update ref r ops i _ old Ei Hold). by rewrite Hmr. }
      rewrite ?Ep. cbn [negb]. exists (updated e ops' :: rest), old. split; [done|]. split; [|split].
      * pose proof (find_update ref ref ops i old old Ei Hold (proj1 (strict_eq_str _ _) Hf)) as Hs.
        rewrite list_insert_id, String.eqb_refl in Hs by done. by rewrite Hs.
      * constructor; [|done]. apply updated_ok; [done|]. by apply Forall_insert.
      * intros p r. cbn [op_at]. unfold ops_of. rewrite U2, U3, ?Hops.
        destruct (e.["pageUrl"] === JStr p) eqn:Epp.
        -- apply strict_eq_str in Ep, Epp. rewrite Ep in Epp. injection Epp as <-. rewrite String.eqb_refl.
           cbn [andb]. rewrite (Hup r). by destruct (String.eqb r ref).
        -- destruct (String.eqb_spec p page) as [->|]; [|done]. by rewrite Ep in Epp.
    + rewrite (find_index_find _ _ Ei). rewrite ?Ep. cbn [negb].
      destruct IH as [[-> Hn]|(entries' & old & -> & Hs & Hok & Hspec)]; [by left|right].
      exists (e :: entries'), old. cbn [mbind result_bind fmap option_fmap option_map]. split; [done|]. split; [done|]. split.
      * constructor; [split; [done|by exists ops]|done].
      * intros p r. cbn [op_at]. unfold ops_of. rewrite Hops, Hspec.
        destruct (e.["pageUrl"] === JStr p); [|done].
        destruct (String.eqb_spec r ref) as [->|]; [by rewrite (find_index_find _ _ Ei)|]. by rewrite andb_false_r.
  - rewrite ?Ep. cbn [negb].
    destruct IH as [[-> Hn]|(entries' & old & -> & Hs & Hok & Hspec)]; [by left|right].
    exists (e :: entries'), old. cbn [mbind result_bind fmap option_fmap option_map]. split; [done|]. split; [done|]. split.
    + constructor; [split; [done|by exists ops]|done].
    + intros p r. cbn [op_at]. rewrite Hspec. destruct (String.eqb_spec p page) as [->|]; [by rewrite Ep|done].
Qed.

Lemma push_op_spec newOp ref entries : is_obj newOp = true -> newOp.["ref"] = JStr ref -> Forall entry_ok entries ->
  op_at page ref entries = None ->
  exists entries', push_op stamp newEntry newOp entries = Ok entries' /\ Forall entry_ok entries' /\
    forall p r, op_at p r entries' = if String.eqb p page && String.eqb r ref then Some newOp else op_at p r entries.
Proof.
  intros Ho Hr. induction 1 as [|e rest He Hrest IH]; cbn [push_op op_at]; intros Hnone.
  - eexists. split; [done|]. split.
    { constructor; [|constructor]. split; [done|]. exists [newOp]. split; [done|by repeat constructor]. }
    intros p r. cbn. rewrite Hpage. unfold has_ref. rewrite Hr. cbn [strict_eq].
    rewrite (String.eqb_sym page p), (String.eqb_sym ref r).
    destruct (String.eqb p page); [|done]. by destruct (String.eqb r ref).
  - destruct He as [He (ops & Hops & Hall)]. rewrite read_prop_obj, Hpage by done. cbn [mbind result_bind].
    destruct ((e.["pageUrl"] === JStr page) && (e.["id"] === newEntry.["id"])) eqn:E.
    + apply andb_true_iff in E as [Ep _]. rewrite Ep in Hnone. unfold ops_of in Hnone. rewrite Hops in Hnone.
      destruct (find (has_ref ref) ops) as [x|] eqn:Ef; [done|]. rewrite Hops.
      set (e' := (e.["ops" := JArr (ops ++ [newOp])]).["stagedAt" := stamp]).
      assert (is_obj e' = true /\ e'.["ops"] = JArr (ops ++ [newOp]) /\ e'.["pageUrl"] = e.["pageUrl"]) as (E1 & E2 & E3).
      { unfold e'. rewrite !jget_jset by (rewrite ?is_obj_jset; done). by rewrite !is_obj_jset. }
      exists (e' :: rest). split; [done|]. split.
      { constructor; [|done]. split; [done|]. eexists. split; [exact E2|]. apply Forall_app. split; [done|by repeat constructor]. }
      intros p r. cbn [op_at]. unfold ops_of. rewrite E2, E3, Hops.
      destruct (e.["pageUrl"] === JStr p) eqn:Epp.
      * apply strict_eq_str in Ep, Epp. rewrite Ep in Epp. injection Epp as <-. rewrite String.eqb_refl. cbn [andb].
        destruct (String.eqb_spec r ref) as [->|Hne].
        -- rewrite find_app by done. unfold has_ref. by rewrite Hr, (proj2 (strict_eq_str _ _) eq_refl).
        -- rewrite find_app_ne; [done|]. unfold has_ref. rewrite Hr. cbn [strict_eq]. by apply String.eqb_neq; congruence.
      * destruct (String.eqb_spec p page) as [->|]; [by rewrite Ep in Epp|done].
    + assert (op_at page ref rest = None) as Hn.
      { destruct (e.["pageUrl"] === JStr page); [|done]. by destruct (find (has_ref ref) (ops_of e)). }
      destruct (IH Hn) as (entries' & -> & Hok & Hspec). exists (e :: entries'). cbn [mbind result_bind]. split; [done|]. split.
      { constructor; [|done]. split; [done|by exists ops]. }
      intros p r. cbn [op_at]. rewrite Hspec. destruct (e.["pageUrl"] === JStr p) eqn:Epp; [|done].
      destruct (String.eqb_spec p page) as [->|]; [|done]. destruct (String.eqb_spec r ref) as [->|]; [|done]. cbn [andb].
      rewrite Epp in Hnone. by destruct (find (has_ref ref) (ops_of e)).
Qed.

Lemma stage_op_spec newOp ref entries : is_obj newOp = true -> newOp.["ref"] = JStr ref -> Forall entry_ok entries ->
  exists entries', stage_op stamp newEntry entries newOp = Ok entries' /\ Forall entry_ok entries' /\
    forall p r, op_at p r entries' = staged page (fun p r => op_at p r entries) newOp p r.
Proof.
  intros Ho Hr Hok. unfold stage_op.
  destruct (merge_existing_spec newOp ref entries Ho Hr Hok) as [[-> Hn]|(entries' & old & -> & Hs & Hok' & Hspec)];
    cbn [mbind result_bind].
  - destruct (push_op_spec newOp ref entries Ho Hr Hok Hn) as (entries' & -> & Hok' & Hspec).
    exists entries'. split; [done|]. split; [done|]. intros p r. rewrite Hspec, (staged_here _ _ ref) by done.
    destruct (String.eqb_spec p page) as [->|]; [|done]. destruct (String.eqb_spec r ref) as [->|]; [|done]. cbn [andb].
    by rewrite Hn.
  - exists entries'. split; [done|]. split; [done|]. intros p r. rewrite Hspec, (staged_here _ _ ref) by done.
    destruct (String.eqb_spec p page) as [->|]; [|done]. destruct (String.eqb_spec r ref) as [->|]; [|done]. cbn [andb].
    by rewrite Hs.
Qed.

Definition op_ok (op : js) : Prop := is_obj op = true /\ exists ref, op.["ref"] = JStr ref.

Lemma staged_ext (m m' : op_map) op p r : (forall p r, m p r = m' p r) -> staged page m op p r = staged page m' op p r.
Proof. intros H. unfold staged. by rewrite H. Qed.
Lemma staged_all_ext ops : forall (m m' : op_map) p r, (forall p r, m p r = m' p r) ->
  foldl (staged page) m ops p r = foldl (staged page) m' ops p r.
Proof.
  induction ops as [|op ops IH]; intros m m' p r H; simpl; [done|]. apply IH. intros. by apply staged_ext.
Qed.

Lemma stage_ops_spec ops : forall entries, Forall op_ok ops -> Forall entry_ok entries ->
  exists entries', stage_ops stamp newEntry entries ops = Ok entries' /\ Forall entry_ok entries' /\
    forall p r, op_at p r entries' = foldl (staged page) (fun p r => op_at p r entries) ops p r.
Proof.
  induction ops as [|op ops IH]; intros entries Ho Hok; simpl; [by exists entries|].
  apply Forall_cons in Ho as [[Hob [ref Hr]] Ho].
  destruct (stage_op_spec op ref entries Hob Hr Hok) as (e1 & -> & Hok1 & Hspec1). cbn [mbind result_bind].
  destruct (IH e1 Ho Hok1) as (e2 & -> & Hok2 & Hspec2). exists e2. split; [done|]. split; [done|].
  intros p r. rewrite Hspec2. by apply staged_all_ext.
Qed.
End Staging.

(** ** The file *)

Section OnDisk.
Context (liveDir : string) (stamp : js).
Implicit Types (s : fsys).
Notation path := (getBufferPath liveDir).

Lemma write_read strict entries s : is_dir path s = false -> json_ok (JArr entries) ->
  is_dir path (writeBuffer liveDir entries s).2 = false ->
  (readBufferInternal liveDir strict (writeBuffer liveDir entries s).2).1 = Ok (json_norm <$> entries) /\
  (writeBuffer liveDir entries s).1 = Ok tt.
Proof.
  intros Hd Hok. unfold writeBuffer, mkdirp, mbind, eff_bind, upd, writeFileSync.
  set (s1 := Fsys _ _). destruct (is_dir path s1) eqn:Hd1; [cbn [snd]; congruence|]. cbn [snd fst]. intros _. split; [|done].
  unfold readBufferInternal, attempt, mbind, eff_bind, readFileSync. simpl f_text. rewrite lookup_insert_eq.
  unfold json_stringify2. rewrite parse_print; [|done|].
  - cbn. done.
  - apply json_ok_obj. split; [vm_compute; repeat constructor; set_solver|]. repeat constructor. exact Hok.
Qed.

(** What is staged is what is read back: the buffer file written for any list of entries
    with a JSON text is read back - strictly or not - as those entries, with what JSON cannot
    hold normalised. *)
Theorem buffer_roundtrip strict entries s : is_dir path s = false -> json_ok (JArr entries) ->
  is_dir path (writeBuffer liveDir entries s).2 = false ->
  (readBufferInternal liveDir strict (writeBuffer liveDir entries s).2).1 = Ok (json_norm <$> entries).
Proof. intros. by apply write_read. Qed.


(** A buffer that is not JSON is treated in two ways: staging refuses and leaves the file as it
    is, but removing entries and truncating read it as empty and overwrite it with an empty
    buffer, reporting that nothing was removed. *)
Theorem unreadable_buffer newEntry predicate raw s :
  f_text s !! path = Some raw -> json_parse raw = None -> is_dir path (mkdirp (dirname path) s).2 = false ->
  stageEntry liveDir stamp newEntry s = (Throw (error "manual_edit_buffer_unreadable: Unexpected token"), s) /\
  (removeEntries liveDir predicate s).1 = Ok (NInt 0) /\
  f_text (removeEntries liveDir predicate s).2 !! path = Some (json_stringify2 (buffer [])) /\
  f_text (truncateBuffer liveDir s).2 !! path = Some (json_stringify2 (buffer [])).
Proof.
  intros Hr Hp Hd.
  assert (readBufferStrict liveDir s = (Throw (error "manual_edit_buffer_unreadable: Unexpected token"), s)) as Hstrict.
  { unfold readBufferStrict, readBufferInternal, attempt, mbind, eff_bind, readFileSync. by rewrite Hr, Hp. }
  assert (readBuffer liveDir s = (Ok [], s)) as Hloose.
  { unfold readBuffer, readBufferInternal, attempt, mbind, eff_bind, readFileSync. by rewrite Hr, Hp. }
  assert (exists s', writeBuffer liveDir [] s = (Ok tt, s') /\ f_text s' !! path = Some (json_stringify2 (buffer []))) as (s' & Hw & Ht).
  { unfold writeBuffer, mbind, eff_bind. destruct (mkdirp (dirname path) s) as [r s2] eqn:Em.
    assert (r = Ok tt) as -> by (unfold mkdirp, upd in Em; by injection Em as <- _).
    unfold writeFileSync. simpl in Hd. rewrite Hd. eexists. split; [done|]. simpl. by rewrite lookup_insert_eq. }
  split_and!.
  - unfold stageEntry. unfold mbind at 1, eff_bind at 1. by rewrite Hstrict.
  - unfold removeEntries. unfold mbind at 1, eff_bind at 1. rewrite Hloose.
    unfold mbind, eff_bind, lift. cbn [remove_from snd fst]. by rewrite Hw.
  - unfold removeEntries. unfold mbind at 1, eff_bind at 1. rewrite Hloose.
    unfold mbind, eff_bind, lift. cbn [remove_from snd fst]. by rewrite Hw.
  - unfold truncateBuffer. unfold mbind at 1, eff_bind at 1. rewrite Hloose.
    unfold mbind, eff_bind, lift. cbn [count_ops]. by rewrite Hw.
Qed.
End OnDisk.

(** ** Concrete runs *)

Definition demo_live : string := "/p/.impeccable/live".
Definition demo_op (text : string) : js :=
  JObj [("ref", JStr "r1"); ("tag", JStr "p"); ("originalText", JStr "old"); ("newText", JStr text)].
Definition demo_save (text : string) : js :=
  JObj [("id", JStr "0a1b2c3d"); ("pageUrl", JStr "/"); ("element", JUndef); ("ops", JArr [demo_op text])].
Definition no_files : fsys := Fsys ∅ ∅.
Definition saved_once : fsys := (stageEntry demo_live (JStr "t") (demo_save "one") no_files).2.

Lemma buffer_roundtrip_witness :
  (readBufferInternal demo_live true (writeBuffer demo_live [demo_save "one"] no_files).2).1
  = Ok (json_norm <$> [demo_save "one"]).
Proof.
  apply (buffer_roundtrip demo_live true [demo_save "one"] no_files); [reflexivity|apply json_okb_sound|];
    vm_compute; reflexivity.
Defined.


Definition torn_buffer : fsys := Fsys {[ getBufferPath demo_live := "{" ]} ∅.
Lemma unreadable_buffer_witness : (removeEntries demo_live (fun _ => true) torn_buffer).1 = Ok (NInt 0).
Proof.
  apply (unreadable_buffer demo_live (JStr "t") (demo_save "one") (fun _ => true) "{" torn_buffer); vm_compute; reflexivity.
Defined.
