(* ===== verification/InjectJournal.v ===== *)
(** * The injection journal ([live/frameworks/journal.mjs])

    Live mode writes into the user's project. What it wrote is recorded in a journal,
    and the next start or stop reconciles the journal with the tree: an artifact that
    still carries the marker of live mode is removed or unpatched, anything else is left
    alone. The journal is an input that may be hostile. The functions that undo a patch
    are an argument; a lookup of one finds the members of [Object.prototype] too.
    Paths are lexical: symbolic links are outside the model. *)
From S2P Require Import Prelude JsString JsValue Json NodePath EventValidation Files.
Local Open Scope Z_scope.

Definition INJECT_JOURNAL_VERSION : Z := 1.
Definition INJECT_JOURNAL_RELPATH : string := ".impeccable/live/inject-journal.json".

(** [undoers[name]] for a name that is not one of the table: a function of [Object.prototype], called
    without a receiver. *)
Definition object_prototype (name : string) : option (string -> result js) :=
  if String.eqb name "toString" then Some (fun _ => Ok (JStr "[object Undefined]"))
  else if String.eqb name "constructor" then Some (fun content => Ok (JObj (own_props (JStr content))))
  else if String.eqb name "isPrototypeOf" then Some (fun _ => Ok (JBool false))
  else if existsb (String.eqb name) ["valueOf"; "hasOwnProperty"; "propertyIsEnumerable"; "toLocaleString";
                                     "__defineGetter__"; "__defineSetter__"; "__lookupGetter__"; "__lookupSetter__"]
  then Some (fun _ => Throw (error "Cannot convert undefined or null to object"))
  else None.

Section Journal.
Context (cwd : string) (undoers : string -> option (string -> result string)).
Implicit Types (s : fsys).

Definition injectJournalPath : string := path_join (cwd :: split_char "/" INJECT_JOURNAL_RELPATH).

Definition readInjectJournal : eff fsys js :=
  attempt
    (text ← readFileSync injectJournalPath;
     match json_parse text with
     | None => lift (Throw (error "Unexpected token"))
     | Some raw => mret (if negb (truthy raw) || negb (is_objecty raw) || negb (is_array raw.["artifacts"]) then JNull else raw)
     end)
    (fun _ => mret JNull).

Definition clearInjectJournal : eff fsys unit := attempt (unlinkSync injectJournalPath) (fun _ => mret tt).

Definition writeInjectJournal (journal : js) : eff fsys string :=
  _ ← mkdirp (dirname injectJournalPath);
  _ ← writeFileSync injectJournalPath (json_stringify2 journal +:+ s_nl);
  mret injectJournalPath.

Definition recordInjection (framework port pid recordedAt : js) (artifacts : list js) : eff fsys (option string) :=
  if (length artifacts =? 0)%nat then _ ← clearInjectJournal; mret None else
  file ← writeInjectJournal (JObj [
    ("version", int INJECT_JOURNAL_VERSION); ("appRoot", JStr (resolve cwd ""));
    ("framework", framework ||? JNull);
    ("port", if num_is_finite (to_num port) then JNum (to_num port) else JNull);
    ("pid", pid); ("recordedAt", recordedAt); ("artifacts", JArr artifacts)]);
  mret (Some file).

Definition normalizeRel (rel : js) : string := resolve cwd (to_str (rel ||? JStr "")).

Definition readIfPresent (abs : string) s : option string := f_text s !! abs.

(** [pruneEmptyDirs]: up from [dir] to [stopDir], as long as the directories are empty. *)
Fixpoint prune_loop (fuel : nat) (stop current : string) : eff fsys unit :=
  match fuel with
  | O => mret tt
  | S fuel =>
    if negb (String.eqb current stop) && starts_with (stop +:+ "/") current then
      done ← attempt (is_d ← get (is_dir current);
                      if negb is_d then lift (Throw (os_error "ENOENT" current)) else
                      busy ← get (has_entries current);
                      if busy : bool then mret true else (_ ← rmdirSync current; mret false))
                     (fun _ => mret true);
      if done : bool then mret tt else prune_loop fuel stop (dirname current)
    else mret tt
  end.
Definition pruneEmptyDirs (dir stopDir : string) : eff fsys unit :=
  let current := resolve cwd dir in
  prune_loop (S (slen current)) (resolve cwd stopDir) current.

Definition insideProject (abs : string) : bool :=
  in_tree (relative (resolve cwd cwd) (resolve cwd abs)).

Definition outcome (path : js) (action : string) : js := JObj [("path", path); ("action", JStr action)].

(** [path.resolve(cwd, value)], which throws for a value that is not a string. *)
Definition resolve_value (v : js) : result string :=
  match v with JStr p => Ok (resolve cwd p) | _ => Throw (error "The paths[1] argument must be of type string") end.

Definition heal_created (artifact : js) (abs content : string) : eff fsys js :=
  let path := artifact.["path"] in
  if negb (truthy artifact.["marker"]) || negb (includes (to_str artifact.["marker"]) content)
  then mret (outcome path "disowned") else
  removed ← attempt (_ ← unlinkSync abs; mret true) (fun _ => mret false);
  if negb (removed : bool) then mret JNull else
  _ ← (if is_undef artifact.["pruneTo"] then mret tt else
       pruneRoot ← lift (resolve_value (artifact.["pruneTo"] ||? JStr "."));
       if insideProject pruneRoot || String.eqb pruneRoot (resolve cwd cwd)
       then pruneEmptyDirs (dirname abs) pruneRoot else mret tt);
  mret (outcome path "removed").

Definition lookup_undoer (patch : js) : option (string -> result js) :=
  let name := to_str patch in
  match undoers name with
  | Some undo => Some (fun content => t ← undo content; mret (JStr t))
  | None => object_prototype name
  end.

Definition heal_patched (artifact : js) (abs content : string) : eff fsys js :=
  let path := artifact.["path"] in
  let markers := match artifact.["markers"] with JArr l => l | _ => [] end in
  if (0 <? length markers)%nat && negb (existsb (fun m => includes (to_str m) content) markers)
  then mret (outcome path "disowned") else
  match lookup_undoer artifact.["patch"] with
  | None => mret JNull
  | Some undo =>
    next ← lift (undo content);
    if next === JStr content then mret (outcome path "disowned") else
    match next with
    | JStr text => attempt (_ ← writeFileSync abs text; mret (outcome path "unpatched")) (fun _ => mret JNull)
    | _ => mret JNull (* writeFileSync throws for what is not a string *)
    end
  end.

Definition healArtifact (artifact : js) : eff fsys js :=
  let path := artifact.["path"] in
  let abs := resolve cwd (to_str path) in
  if negb (insideProject abs) then mret (outcome path "refused_outside_project") else
  content ← get (readIfPresent abs);
  match content with
  | None => mret (outcome path "absent")
  | Some content =>
    if artifact.["kind"] === JStr "created" then heal_created artifact abs content
    else if artifact.["kind"] === JStr "patched" then heal_patched artifact abs content
    else mret JNull
  end.

Definition changed (outcome : js) : bool :=
  truthy outcome && ((outcome.["action"] === JStr "removed") || (outcome.["action"] === JStr "unpatched")).

(** The loop over the artifacts: what was healed and what is kept. *)
Fixpoint heal_loop (keepSet : list string) (artifacts healed kept : list js) : eff fsys (list js * list js) :=
  match artifacts with
  | [] => mret (healed, kept)
  | artifact :: rest =>
    if negb (truthy artifact) || negb (is_string artifact.["path"]) then heal_loop keepSet rest healed kept
    else if existsb (String.eqb (normalizeRel artifact.["path"])) keepSet
    then heal_loop keepSet rest healed (kept ++ [artifact])
    else
      o ← healArtifact artifact;
      heal_loop keepSet rest (if changed o then healed ++ [o] else healed) kept
  end.

Definition healInjectJournal (keep : list js) : eff fsys (list js * list js) :=
  journal ← readInjectJournal;
  if negb (truthy journal) then mret ([], []) else
  let artifacts := match journal.["artifacts"] with JArr l => l | _ => [] end in
  r ← heal_loop (normalizeRel <$> keep) artifacts [] [];
  _ ← (if (0 <? length r.2)%nat
       then _ ← writeInjectJournal (spread_with journal [("artifacts", JArr r.2)]); mret tt
       else clearInjectJournal);
  mret r.
End Journal.

(** * Theorems *)

Section Facts.
Context (cwd : string) (undoers : string -> option (string -> result string)).
Implicit Types (s : fsys).

Lemma insideProject_spec p : insideProject cwd (resolve cwd p) = true -> in_project cwd (resolve cwd p).
Proof.
  unfold insideProject, in_tree. rewrite resolve_resolve. intros H. cbv zeta in H. split_bools.
  exists (resolve_segs cwd p). split; [apply resolve_segs_plain|]. split; [done|].
  apply relative_below; [apply resolve_segs_plain..|done|done].
Qed.

Definition touchable (p : string) : Prop := p = injectJournalPath cwd \/ in_project cwd p.

Lemma touches_prune P fuel stop current : only_touches P (prune_loop fuel stop current).
Proof. revert current; induction fuel as [|fuel IH]; intros current; cbn [prune_loop]; [done|]. touch. Qed.

Lemma touches_heal artifact : only_touches touchable (healArtifact cwd undoers artifact).
Proof.
  unfold healArtifact, heal_created, heal_patched, pruneEmptyDirs. cbv zeta.
  destruct (insideProject _ _) eqn:Hin; cbn [negb]; [|touch].
  apply insideProject_spec in Hin.
  touch; try (apply touches_unlink; by right); try (apply touches_write; by right); apply touches_prune.
Qed.

Lemma touches_loop keepSet artifacts healed kept :
  only_touches touchable (heal_loop cwd undoers keepSet artifacts healed kept).
Proof.
  revert healed kept; induction artifacts as [|a artifacts IH]; intros healed kept; cbn [heal_loop]; [done|].
  touch; try apply IH. apply touches_heal.
Qed.

(** Whatever the journal claims - it comes with the repository and may be hostile - healing
    changes no file but the journal itself and files strictly below the project root. *)
Theorem healing_stays_in_project keep s p : p <> injectJournalPath cwd -> ~ in_project cwd p ->
  f_text (healInjectJournal cwd undoers keep s).2 !! p = f_text s !! p.
Proof.
  intros Hj Hp. assert (only_touches touchable (healInjectJournal cwd undoers keep)) as Ht; [|apply Ht; by intros [?|?]].
  unfold healInjectJournal, readInjectJournal, writeInjectJournal, clearInjectJournal.
  touch; try apply touches_loop; try (apply touches_write; by left); apply touches_unlink; by left.
Qed.

(** The fuel of [pruneEmptyDirs] is enough: going up shortens the path. *)
Lemma prune_fuel fuel fuel' stop current s : (1 <= slen stop)%nat ->
  (slen current < fuel)%nat -> (slen current < fuel')%nat ->
  prune_loop fuel stop current s = prune_loop fuel' stop current s.
Proof.
  intros Hs. revert fuel' current s; induction fuel as [|fuel IH]; intros [|fuel'] current s Hf Hf'; try lia.
  cbn [prune_loop]. destruct (negb _ && starts_with _ current) eqn:E; [|done].
  apply andb_true_iff in E as [_ [r Hr]%starts_with_iff].
  assert (2 <= slen current)%nat as Hc by (rewrite Hr, !slen_app; simpl; lia).
  pose proof (dirname_shorter current Hc) as Hd.
  unfold mbind, eff_bind. destruct (attempt _ _ s) as [[[]|e] s1]; [done| |done]. apply IH; lia.
Qed.

(** An artifact that does not own the content found at its path: it is of no kind we know, or the
    content has none of its markers. *)
Definition disowns (artifact : js) (content : string) : Prop :=
  (artifact.["kind"] = JStr "created" ->
     truthy artifact.["marker"] = true -> includes (to_str artifact.["marker"]) content = false) /\
  (artifact.["kind"] = JStr "patched" ->
     exists m markers, artifact.["markers"] = JArr (m :: markers) /\
       forall m', m' ∈ m :: markers -> includes (to_str m') content = false).

Definition has_text (p content : string) s : Prop := f_text s !! p = Some content.

Lemma keeps_write p q t content : p <> q -> keeps (has_text p content) (writeFileSync q t).
Proof.
  intros Hne s Hs. unfold has_text, writeFileSync. destruct (is_dir q s); [done|]. simpl. by rewrite lookup_insert_ne by congruence.
Qed.
Lemma keeps_unlink p q content : p <> q -> keeps (has_text p content) (unlinkSync q).
Proof.
  intros Hne s Hs. unfold has_text, unlinkSync. destruct (f_text s !! q); [|done]. simpl. by rewrite lookup_delete_ne by congruence.
Qed.
Lemma keeps_read p q content : keeps (has_text p content) (readFileSync q).
Proof. by intros s Hs. Qed.
Lemma keeps_mkdirp p d content : keeps (has_text p content) (mkdirp d).
Proof. by intros s Hs. Qed.
Lemma keeps_prune p content fuel stop current : keeps (has_text p content) (prune_loop fuel stop current).
Proof.
  intros s Hs. unfold has_text. rewrite (touches_prune (fun _ => False)); [exact Hs|tauto].
Qed.

Lemma keeps_heal_other p content artifact : resolve cwd (to_str artifact.["path"]) <> p ->
  keeps (has_text p content) (healArtifact cwd undoers artifact).
Proof.
  intros Hne. unfold healArtifact, heal_created, heal_patched, pruneEmptyDirs. cbv zeta.
  keep; try (apply keeps_unlink; congruence); try (apply keeps_write; congruence); apply keeps_prune.
Qed.

Lemma keeps_heal_disowned p content artifact : resolve cwd (to_str artifact.["path"]) = p -> disowns artifact content ->
  keeps (has_text p content) (healArtifact cwd undoers artifact).
Proof.
  intros Hp [Hc Hm] s Hs. unfold healArtifact. cbv zeta. rewrite Hp.
  destruct (negb (insideProject cwd p)); [done|]. unfold mbind, eff_bind, get, readIfPresent. rewrite Hs.
  destruct (artifact.["kind"] === JStr "created") eqn:Ec.
  { apply strict_eq_str in Ec. specialize (Hc Ec). unfold heal_created. cbv zeta.
    destruct (truthy artifact.["marker"]); [|done]. by rewrite Hc. }
  destruct (artifact.["kind"] === JStr "patched") eqn:Ep; [|done].
  apply strict_eq_str in Ep. destruct (Hm Ep) as (m & markers & Hms & Hnone). unfold heal_patched. cbv zeta. rewrite Hms.
  assert (existsb (fun m0 => includes (to_str m0) content) (m :: markers) = false) as ->; [|done].
  apply not_true_iff_false. intros (m' & Hin%list_elem_of_In & Hi)%existsb_exists. by rewrite Hnone in Hi.
Qed.

Lemma keeps_loop p content keepSet artifacts healed kept :
  (forall a, a ∈ artifacts -> is_string a.["path"] = true -> resolve cwd (to_str a.["path"]) = p ->
     disowns a content \/ p ∈ keepSet) ->
  keeps (has_text p content) (heal_loop cwd undoers keepSet artifacts healed kept).
Proof.
  revert healed kept; induction artifacts as [|a artifacts IH]; intros healed kept Ha; cbn [heal_loop]; [keep|].
  assert (forall healed kept, keeps (has_text p content) (heal_loop cwd undoers keepSet artifacts healed kept)) as IH'.
  { intros. apply IH. intros b Hb. apply Ha. by right. }
  destruct (negb (truthy a) || negb (is_string a.["path"])) eqn:E1; [apply IH'|].
  destruct (existsb _ keepSet) eqn:E2; [apply IH'|].
  apply orb_false_iff in E1 as [_ Hs]. apply negb_false_iff in Hs.
  apply keeps_bind; [|intros o; apply IH'].
  destruct (decide (resolve cwd (to_str a.["path"]) = p)) as [Hp|Hne]; [|by apply keeps_heal_other].
  destruct (Ha a ltac:(left) Hs Hp) as [Hd|Hk]; [by apply keeps_heal_disowned|].
  exfalso. rewrite <- not_true_iff_false in E2. apply E2, existsb_exists. exists p. split; [by apply list_elem_of_In|].
  unfold normalizeRel. destruct a.["path"] as [| | | |path| |]; try done. unfold or_else. cbn [truthy].
  destruct (String.eqb_spec path "") as [->|]; cbn [negb to_str] in *; rewrite Hp; apply String.eqb_refl.
Qed.

Lemma keeps_read_journal p content : keeps (has_text p content) (readInjectJournal cwd).
Proof. unfold readInjectJournal. keep. by intros s Hs. Qed.

(** The journal is a claim of ownership that the file must confirm: a file keeps its content when
    every journalled artifact at its path is either to be kept or finds none of its markers in
    the content. *)
Theorem unowned_files_survive keep s p content journal artifacts :
  (readInjectJournal cwd s).1 = Ok journal -> journal.["artifacts"] = JArr artifacts ->
  p <> injectJournalPath cwd -> f_text s !! p = Some content ->
  (forall a, a ∈ artifacts -> is_string a.["path"] = true -> resolve cwd (to_str a.["path"]) = p ->
     disowns a content \/ p ∈ (normalizeRel cwd <$> keep)) ->
  f_text (healInjectJournal cwd undoers keep s).2 !! p = Some content.
Proof.
  intros Hread Harr Hj Hs Ha.
  pose proof (keeps_read_journal p content s Hs) as Hs1.
  unfold healInjectJournal, mbind at 1, eff_bind at 1. destruct (readInjectJournal cwd s) as [r s1].
  simpl in Hread, Hs1. subst r. destruct (negb (truthy journal)); [exact Hs1|]. rewrite Harr. cbv zeta.
  revert Hs1. generalize s1.
  match goal with |- forall s1, has_text p content s1 -> f_text (?m s1).2 !! p = Some content => change (keeps (has_text p content) m) end.
  unfold writeInjectJournal, clearInjectJournal.
  keep; try (by apply keeps_write); try (by apply keeps_unlink); try apply keeps_mkdirp. by apply keeps_loop.
Qed.

Lemma clear_journal s :
  f_text (clearInjectJournal cwd s).2 !! injectJournalPath cwd = None.
Proof.
  unfold clearInjectJournal, attempt, unlinkSync. destruct (f_text s !! _) eqn:E; simpl; [by rewrite lookup_delete_eq|done].
Qed.

Lemma missing_journal s : f_text s !! injectJournalPath cwd = None -> readInjectJournal cwd s = (Ok JNull, s).
Proof. intros H. unfold readInjectJournal, attempt, mbind, eff_bind, readFileSync. by rewrite H. Qed.

Lemma loop_keeps_none artifacts : forall healed s r s',
  heal_loop cwd undoers [] artifacts healed [] s = (Ok r, s') -> r.2 = [].
Proof.
  induction artifacts as [|a artifacts IH]; intros healed s r s'; cbn [heal_loop]; [by intros [= <- _]|].
  destruct (_ || _); [apply IH|]. cbn [existsb]. intros (o & s1 & _ & H)%eff_bind_ok. by eapply IH.
Qed.

(** Healing is idempotent: once every artifact has been reconciled, a second call finds nothing
    to do and changes nothing. *)
Theorem healing_is_idempotent s r s' : healInjectJournal cwd undoers [] s = (Ok r, s') ->
  healInjectJournal cwd undoers [] s' = (Ok ([], []), s').
Proof.
  unfold healInjectJournal at 1. intros (journal & s1 & Hr & H)%eff_bind_ok.
  destruct (truthy journal) eqn:Et; cbn [negb] in H.
  - apply eff_bind_ok in H as (r1 & s2 & Hl & H). pose proof (loop_keeps_none _ _ _ _ _ Hl) as Hk.
    apply eff_bind_ok in H as ([] & s3 & Hc & H). injection H as <- <-. rewrite Hk in Hc. cbn [length Nat.ltb Nat.leb] in Hc.
    pose proof (clear_journal s2) as Hn. rewrite Hc in Hn. cbn [snd] in Hn.
    unfold healInjectJournal, mbind at 1, eff_bind at 1. rewrite missing_journal; [done|exact Hn].
  - injection H as <- <-. unfold healInjectJournal, mbind at 1, eff_bind at 1.
    assert (s1 = s) as ->.
    { assert (keeps (fun x => x = s) (readInjectJournal cwd)) as Hk.
      { unfold readInjectJournal. keep. by intros x Hx. }
      specialize (Hk s eq_refl). by rewrite Hr in Hk. }
    rewrite Hr. by rewrite Et.
Qed.
End Facts.

(** What is recorded is what a later start reads: the journal written for a list of artifacts
    parses back to that record. *)
Theorem record_roundtrip cwd framework port pid recordedAt artifacts s file s' :
  recordInjection cwd framework port pid recordedAt artifacts s = (Ok (Some file), s') ->
  json_ok (JArr artifacts) -> json_ok framework -> json_ok pid -> json_ok recordedAt ->
  json_ok (JNum (to_num port)) ->
  exists journal, readInjectJournal cwd s' = (Ok journal, s') /\ file = injectJournalPath cwd /\
    journal.["artifacts"] = JArr (json_norm <$> artifacts) /\
    journal.["version"] = int INJECT_JOURNAL_VERSION /\ journal.["appRoot"] = JStr (resolve cwd "").
Proof.
  intros H Ha Hf Hp Hr Hn. unfold recordInjection in H. destruct (length artifacts =? 0)%nat; [by apply eff_bind_ok in H as (? & ? & _ & H)|].
  apply eff_bind_ok in H as (file1 & s1 & H & H2). injection H2 as <- <-.
  unfold writeInjectJournal in H. apply eff_bind_ok in H as ([] & s2 & _ & H). apply eff_bind_ok in H as ([] & s3 & H & H2).
  injection H2 as <- <-. unfold writeFileSync in H. destruct (is_dir _ s2); [done|]. apply (f_equal snd) in H. cbn [snd] in H. rewrite <- H. clear H.
  match goal with |- context [json_stringify2 ?r] => set (rec := r) end.
  assert (json_parse (json_stringify2 rec +:+ s_nl) = Some (json_norm rec)) as Hparse.
  { apply parse_print_nl; [done|]. apply json_ok_obj. split; [vm_compute; repeat constructor; set_solver|].
    repeat constructor; try done.
    - destruct (framework ||? JNull) eqn:E; unfold or_else in E; destruct (truthy framework); subst; done.
    - by destruct (num_is_finite (to_num port)). }
  exists (json_norm rec). unfold readInjectJournal, attempt, mbind, eff_bind, readFileSync, set_text. cbn [f_text].
  rewrite lookup_insert_eq. rewrite Hparse.
  assert ((json_norm rec).["artifacts"] = JArr (json_norm <$> artifacts) /\
          (json_norm rec).["version"] = int INJECT_JOURNAL_VERSION /\ (json_norm rec).["appRoot"] = JStr (resolve cwd "")) as (E1 & E2 & E3).
  { unfold rec. cbn [json_norm is_undef].
    destruct (is_undef (framework ||? JNull)), (is_undef (if num_is_finite (to_num port) then _ else _)), (is_undef pid), (is_undef recordedAt);
      split_and!; reflexivity. }
  rewrite E1, E2, E3. unfold rec. cbn [json_norm is_undef truthy]. split_and!; reflexivity.
Qed.

(** ** Concrete runs *)

Definition demo_journal (artifacts : list js) : string :=
  json_stringify2 (JObj [("version", int 1); ("artifacts", JArr artifacts)]) +:+ s_nl.
Definition tree (artifacts : list js) (path content : string) : fsys :=
  Fsys (<[injectJournalPath "/p" := demo_journal artifacts]> {[ path := content ]}) {[ "/p" ]}.
Definition no_undoers : string -> option (string -> result string) := fun _ => None.

Definition outside_artifact : js := JObj [("path", JStr "../x.js"); ("kind", JStr "created"); ("marker", JStr "M")].

Lemma healing_stays_in_project_witness :
  f_text (healInjectJournal "/p" no_undoers [] (tree [outside_artifact] "/x.js" "M")).2 !! "/x.js" = Some "M".
Proof.
  rewrite (healing_stays_in_project "/p" no_undoers [] (tree [outside_artifact] "/x.js" "M") "/x.js").
  - vm_compute. reflexivity.
  - discriminate.
  - intros (segs & Hs & Hp & rest & Hne & ->).
    change (resolve_segs "/p" "/p") with ["p"] in *.
    change "/x.js" with (of_segs ["x.js"]) in Hp. apply of_segs_inj in Hp; [discriminate| |exact Hs].
    repeat constructor.
Defined.

Definition user_artifact : js := JObj [("path", JStr "a.js"); ("kind", JStr "created"); ("marker", JStr "impeccable")].

Lemma unowned_files_survive_witness :
  f_text (healInjectJournal "/p" no_undoers [] (tree [user_artifact] "/p/a.js" "mine")).2 !! "/p/a.js" = Some "mine".
Proof.
  destruct (readInjectJournal "/p" (tree [user_artifact] "/p/a.js" "mine")) as [[journal|e] s1] eqn:E;
    [|vm_compute in E; discriminate E].
  apply (unowned_files_survive "/p" no_undoers [] (tree [user_artifact] "/p/a.js" "mine") "/p/a.js" "mine" journal [user_artifact]).
  - by rewrite E.
  - vm_compute in E. injection E as <- _. reflexivity.
  - discriminate.
  - vm_compute. reflexivity.
  - intros a Ha _ _. apply list_elem_of_singleton in Ha as ->. left. split; [reflexivity|discriminate].
Defined.

Lemma healing_is_idempotent_witness : exists s',
  healInjectJournal "/p" no_undoers [] s' = (Ok ([], []), s').
Proof.
  destruct (healInjectJournal "/p" no_undoers [] (tree [user_artifact] "/p/a.js" "impeccable")) as [[r|e] s'] eqn:E;
    [|vm_compute in E; discriminate E].
  exists s'. exact (healing_is_idempotent "/p" no_undoers _ r s' E).
Defined.

Lemma record_roundtrip_witness : exists file s' journal,
  recordInjection "/p" (JStr "vite") (int 8400) (int 1) (JStr "now") [user_artifact] (Fsys ∅ ∅) = (Ok (Some file), s') /\
  readInjectJournal "/p" s' = (Ok journal, s') /\ journal.["artifacts"] = JArr [user_artifact].
Proof.
  destruct (recordInjection "/p" (JStr "vite") (int 8400) (int 1) (JStr "now") [user_artifact] (Fsys ∅ ∅))
    as [[[file|]|e] s'] eqn:E; [|vm_compute in E; discriminate E..].
  destruct (record_roundtrip "/p" (JStr "vite") (int 8400) (int 1) (JStr "now") [user_artifact] (Fsys ∅ ∅) file s' E)
    as (journal & Hr & _ & Ha & _); try (apply json_okb_sound; vm_compute; reflexivity).
  exists file, s', journal. split; [reflexivity|]. split; [exact Hr|exact Ha].
Defined.

(** A journal can clobber a project file: [undoers[artifact.patch]] finds [Object.prototype.toString]
    for the patch name "toString", and an artifact without markers is not checked, so healing
    replaces the file's content by "[object Undefined]". *)
Theorem prototype_undo_clobbers :
  let artifact := JObj [("path", JStr "src/app.js"); ("kind", JStr "patched"); ("patch", JStr "toString")] in
  f_text (healInjectJournal "/p" no_undoers [] (tree [artifact] "/p/src/app.js" "mine")).2 !! "/p/src/app.js"
  = Some "[object Undefined]".
Proof. vm_compute. reflexivity. Qed.
