(* ===== verification/TagStrategy.v ===== *)
(** * The injected script block ([live/frameworks/tag-strategy.mjs], [live/frameworks/script-src.mjs])

    Live mode writes a script element between two marker comments into the entry template of the
    project and takes it out again; a policy of the page (a [<meta>] element with a
    Content-Security-Policy) is widened to let the script load, and its text is kept in an attribute
    to be restored. The ports and tokens are JavaScript values; the anchors come from the
    configuration. An anchor that is an object, neither text nor array, is outside the model. *)
From S2P Require Import Prelude JsString JsValue Json JsRegex RegexFacts Encodings.
Local Open Scope Z_scope.

(** ** The address of the script *)

Definition buildLiveScriptSrc (port token : js) : string :=
  let base := "http://localhost:" +:+ to_str port +:+ "/live.js" in
  if truthy token then base +:+ "?token=" +:+ encodeURIComponent (to_str token) else base.

(** ** The block *)

Definition MARKER_OPEN_TEXT : string := "impeccable-live-start".
Definition MARKER_CLOSE_TEXT : string := "impeccable-live-end".
Definition TAG_PATCH_MARKERS : list string := [MARKER_OPEN_TEXT; "data-impeccable-csp-original"].

Definition commentOpen (syntax : js) : string := if syntax === JStr "jsx" then "{/*" else "<!--".
Definition commentClose (syntax : js) : string := if syntax === JStr "jsx" then "*/}" else "-->".

Definition buildTagBlock (syntax port token : js) (scriptAttrs : string) : string :=
  let open := commentOpen syntax in
  let close := commentClose syntax in
  open +:+ " " +:+ MARKER_OPEN_TEXT +:+ " " +:+ close +:+ s_nl +:+
  "<script " +:+ scriptAttrs +:+ "src=" +:+ s_dq +:+ buildLiveScriptSrc port token +:+ s_dq +:+ "></script>" +:+ s_nl +:+
  open +:+ " " +:+ MARKER_CLOSE_TEXT +:+ " " +:+ close +:+ s_nl.

Definition s_cr : string := String CR "".
Definition s_crlf : string := String CR s_nl.

Definition detectLineEnding (content : string) : string :=
  if includes s_crlf content then s_crlf else if includes s_cr content then s_cr else s_nl.

(** [content.replace(/\n/g, lineEnding)]: every newline. *)
Fixpoint replace_newlines (by_ : string) (s : string) : string :=
  match s with
  | "" => ""
  | String c s => (if Ascii.eqb c NL then by_ else String c "") +:+ replace_newlines by_ s
  end.
Definition normalizeLineEndings (content lineEnding : string) : string :=
  if String.eqb lineEnding s_nl then content else replace_newlines lineEnding content.

Definition readLineEndingAt (rest : string) : string :=
  match rest with
  | String c rest =>
    if Ascii.eqb c CR then match rest with String d _ => if Ascii.eqb d NL then s_crlf else s_cr | "" => s_cr end
    else if Ascii.eqb c NL then s_nl else ""
  | "" => ""
  end.

(** [s.lastIndexOf(p)]. *)
Fixpoint last_index_of (p s : string) : option nat :=
  match s with
  | "" => if String.eqb p "" then Some 0%nat else None
  | String _ s' => match last_index_of p s' with
                   | Some i => Some (S i)
                   | None => if starts_with p s then Some 0%nat else None
                   end
  end.

(** [anchor.length] of a value that is not nullish. *)
Definition anchor_length (anchor : js) : option nat :=
  match anchor with JStr s => Some (slen s) | JArr l => Some (length l) | _ => None end.

Definition insertTag (content : string) (config port token : js) (scriptAttrs : string) : result string :=
  let lineEnding := detectLineEnding content in
  let block := normalizeLineEndings (buildTagBlock config.["commentSyntax"] port token scriptAttrs) lineEnding in
  if truthy config.["insertBefore"] then
    match last_index_of (to_str config.["insertBefore"]) content with
    | None => mret content
    | Some idx => mret (stake idx content +:+ block +:+ sdrop idx content)
    end
  else
    let anchor := config.["insertAfter"] in
    match index_of (to_str anchor) content with
    | None => mret content
    | Some idx =>
      if nullish anchor then Throw (error "Cannot read properties of undefined (reading 'length')") else
      match anchor_length anchor with
      | Some n =>
        let after := (idx + n)%nat in
        let existingNewline := readLineEndingAt (sdrop after content) in
        let prefix := stake after content +:+ (if String.eqb existingNewline "" then lineEnding else existingNewline) in
        mret (prefix +:+ block +:+ sdrop (after + slen existingNewline) content)
      | None => (* [idx + undefined]: no character is before it, every character is after it *)
        mret (lineEnding +:+ block +:+ content)
      end
    end.

(** ** Removing the block *)

Definition is_hspace (c : ascii) : bool := Ascii.eqb c " " || Ascii.eqb c (chr 9).
Definition hspaces : re := rstar (RClass is_hspace).
Definition comment_re (open name close : string) : re := (lit open ⋅ rstar rspace ⋅ lit name ⋅ rstar rspace ⋅ lit close)%re.
Definition line_end : re := (lit s_crlf ∥ lit s_nl ∥ lit s_cr ∥ REol)%re.
Definition block_pattern (open close : string) : re :=
  (RGroup 1 hspaces ⋅ (comment_re open MARKER_OPEN_TEXT close ⋅ (rstar_lazy rany ⋅ (comment_re open MARKER_CLOSE_TEXT close
   ⋅ RGroup 2 (hspaces ⋅ ropt line_end)))))%re.
Definition removal_patterns : list re := [block_pattern "<!--" "-->"; block_pattern "{/*" "*/}"].

(** What stands for a removed block. *)
Definition left_over (m : rmatch_result) : string :=
  let leadingIndent := group_or "" m 1 in
  let trailing := group_or "" m 2 in
  if negb (sforall (fun c => negb (Ascii.eqb c CR || Ascii.eqb c NL)) trailing) then leadingIndent
  else if String.eqb leadingIndent "" then trailing else leadingIndent.

(** [do ... while (next !== content)]. *)
Fixpoint remove_loop (fuel : nat) (pat : re) (content : string) : string :=
  match fuel with
  | O => content
  | S fuel =>
    let next := re_replace pat left_over content in
    if String.eqb next content then content else remove_loop fuel pat next
  end.

Fixpoint remove_with (patterns : list re) (content : string) : string :=
  match patterns with
  | [] => content
  | pat :: patterns =>
    let next := remove_loop (S (slen content)) pat content in
    if String.eqb next content then remove_with patterns next else next
  end.
Definition removeTag (content : string) : string := remove_with removal_patterns content.

(** ** The policy of the page *)

Definition CSP_MARKER_ATTR : string := "data-impeccable-csp-original".
Definition CSP_ATTR : string := "content".

Record meta_tag := MetaTag { tag_start : nat; tag_end : nat; tag_full : string; tag_attrs : string }.

Definition is_quote_char (c : ascii) : bool := Ascii.eqb c "'" || Ascii.eqb c DQ.
Definition tagRe : re := (liti "<meta" ⋅ rplus rspace ⋅ RGroup 1 (rstar_lazy (RClass (none_of ">"))) ⋅ ropt (lit "/") ⋅ lit ">")%re.
Definition cspRe : re :=
  (RGroup 1 (liti "http-equiv" ∥ liti "httpEquiv") ⋅ rstar rspace ⋅ lit "=" ⋅ rstar rspace ⋅ RGroup 2 (RClass is_quote_char)
   ⋅ liti "Content-Security-Policy" ⋅ RBack 2)%re.
Definition findCspMetaTags (content : string) : list meta_tag :=
  omap (fun m =>
    let attrs := group_or "" m 1 in
    if re_test cspRe attrs then Some (MetaTag (m_index m) (m_index m + slen (m_text m)) (m_text m) attrs) else None)
    (re_match_all tagRe content).

Record attr := Attr { attr_quote : string; attr_value : string; attr_full : string }.
Definition attrRe (name : string) : re :=
  (RWordB ⋅ liti name ⋅ rstar rspace ⋅ lit "=" ⋅ rstar rspace ⋅ RGroup 1 (RClass is_quote_char) ⋅ RGroup 2 (rstar_lazy rany) ⋅ RBack 1)%re.
Definition getAttr (attrs name : string) : option attr :=
  (fun m => Attr (group_or "" m 1) (group_or "" m 2) (m_text m)) <$> re_exec (attrRe name) attrs.

Definition directiveRe (directive : string) : re :=
  (RGroup 1 (RBol ∥ lit ";") ⋅ RGroup 2 (rstar rspace) ⋅ RGroup 3 (liti directive) ⋅ rplus rspace ⋅ RGroup 4 (rstar (RClass (none_of ";"))))%re.
Definition appendOriginToDirective (csp directive origin : string) : string :=
  match re_exec (directiveRe directive) csp with
  | Some m =>
    let tokens := re_split (rplus rspace) (trim (group_or "" m 4)) in
    if existsb (String.eqb origin) tokens then csp
    else replace_template (directiveRe directive) 4
           (group_or "" m 1 +:+ group_or "" m 2 +:+ group_or "" m 3 +:+ " " +:+ join " " (tokens ++ [origin])) csp
  | None => re_replace (ropt (lit ";") ⋅ rstar rspace ⋅ REol)%re (fun _ => "") (trim csp) +:+ "; " +:+ directive +:+ " 'self' " +:+ origin
  end.

Definition patched_policy (port : js) (original : string) : string :=
  let origin := "http://localhost:" +:+ to_str port in
  appendOriginToDirective (appendOriginToDirective (appendOriginToDirective original "script-src" origin) "connect-src" origin) "img-src" "blob:".

Definition content_attr (quote value : string) : string := "content=" +:+ quote +:+ value +:+ quote.
Definition marker_attr (original : string) : string := CSP_MARKER_ATTR +:+ "=" +:+ s_dq +:+ to_base64 original +:+ s_dq.
Definition splice (tag : meta_tag) (newTag result : string) : string :=
  stake (tag_start tag) result +:+ newTag +:+ sdrop (tag_end tag) result.

Definition patch_attrs (port : js) (attrs : string) : option string :=
  match getAttr attrs CSP_MARKER_ATTR, getAttr attrs CSP_ATTR with
  | Some _, _ | _, None => None
  | None, Some contentAttr =>
    let original := attr_value contentAttr in
    let patched := patched_policy port original in
    if String.eqb patched original then None else
    let trailingWs := match re_exec (hspaces ⋅ REol)%re attrs with Some m => m_text m | None => "" end in
    let attrsBody := stake (slen attrs - slen trailingWs) attrs in
    Some (replace_string (attr_full contentAttr) (content_attr (attr_quote contentAttr) patched) attrsBody
          +:+ " " +:+ marker_attr original +:+ trailingWs)
  end.
Definition patch_tag (port : js) (result : string) (tag : meta_tag) : string :=
  match patch_attrs port (tag_attrs tag) with
  | Some newAttrs => splice tag (replace_string (tag_attrs tag) newAttrs (tag_full tag)) result
  | None => result
  end.
(** From the last element to the first. *)
Definition patchCspMeta (content : string) (port : js) : string :=
  foldl (patch_tag port) content (rev (findCspMetaTags content)).

(** ** Restoring it *)

(** [new RegExp(text)] for a text whose only special character is [+]; [None]: a syntax error. *)
Fixpoint plus_re (s : string) : option re :=
  match s with
  | "" => Some REmpty
  | String c s =>
    if Ascii.eqb c "+" then None else
    match s with
    | String d s' => if Ascii.eqb d "+" then RSeq (rplus (ch c)) <$> plus_re s' else RSeq (ch c) <$> plus_re s
    | "" => Some (RSeq (ch c) REmpty)
    end
  end.
Definition only_plus (s : string) : bool := sforall (none_of ".*?^${}()|[]\") s.

Section Restore.
(** What the engine does with other texts: [new RegExp], and the text of bytes that are not the UTF-8 form of
    characters below 256. *)
Context (new_RegExp : string -> result re) (base64_text : string -> string).

Definition attr_re (full : string) : result re :=
  if only_plus full then match plus_re full with Some r => Ok r | None => Throw (error "Invalid regular expression") end
  else new_RegExp full.

Definition original_of (v : string) : string := default (base64_text v) (of_base64 v).

Definition revert_attrs (attrs : string) : result (option string) :=
  match getAttr attrs CSP_MARKER_ATTR, getAttr attrs CSP_ATTR with
  | Some origAttr, Some contentAttr =>
    let newAttrs := replace_string (attr_full contentAttr) (content_attr (attr_quote contentAttr) (original_of (attr_value origAttr))) attrs in
    full ← attr_re (attr_full origAttr);
    mret (Some (re_replace (rstar rspace ⋅ full)%re (fun _ => "") newAttrs))
  | _, _ => mret None
  end.
Definition revert_tag (acc : result string) (tag : meta_tag) : result string :=
  result ← acc;
  r ← revert_attrs (tag_attrs tag);
  mret (match r with
        | Some newAttrs => splice tag (replace_string (tag_attrs tag) newAttrs (tag_full tag)) result
        | None => result
        end).
Definition revertCspMeta (content : string) : result string :=
  foldl revert_tag (Ok content) (rev (findCspMetaTags content)).

Definition unpatchTagFile (content : string) : result string := revertCspMeta (removeTag content).
End Restore.

(** * Theorems *)

(** ** Comments in a text *)

Lemma sforall_cons f c s : sforall f (String c s) = f c && sforall f s.
Proof. done. Qed.

(** A text without [f] that is followed at a place of [f] ends before it. *)
Lemma before_char f t r d z : no_char f t = true -> t +:+ r = d +:+ String f z -> exists d', d = t +:+ d'.
Proof.
  revert d; induction t as [|c t IH]; intros d Ht E; [by exists d|]. cbn [no_char sforall] in Ht. apply andb_true_iff in Ht as [Hc Ht].
  destruct d as [|x d]; cbn [append] in E; injection E as -> E.
  - by rewrite Ascii.eqb_refl in Hc.
  - destruct (IH d Ht E) as [d' ->]. by exists d'.
Qed.

(** [starts_comment open name s]: the comment [open] with the given name begins here. *)
Definition starts_comment (open name s : string) : Prop :=
  exists w z, s = open +:+ w +:+ name +:+ z /\ sforall is_space w = true.
Definition has_comment (open name s : string) : Prop := exists a b, s = a +:+ b /\ starts_comment open name b.

Lemma can_read_comment open name close s : can_read (comment_re open name close) s ->
  exists w w', s = open +:+ w +:+ name +:+ w' +:+ close /\ sforall is_space w = true.
Proof.
  cbn [comment_re can_read].
  intros (s1 & ? & -> & (s2 & w2 & -> & (s3 & ? & -> & (? & w & -> & ->%can_read_lit & Hw) & ->%can_read_lit) & _) & ->%can_read_lit).
  exists w, w2. split; [by rewrite !sapp_assoc|]. destruct Hw as (l & -> & Hl).
  apply (can_read_rep_class true 0 None). by exists l.
Qed.

Lemma pattern_comment open close t : can_read (block_pattern open close) t ->
  exists w s, t = w +:+ s /\ sforall is_hspace w = true /\ starts_comment open MARKER_OPEN_TEXT s.
Proof.
  unfold block_pattern. cbn [can_read]. fold can_read.
  intros (w & s & -> & Hw & (c & r & -> & Hc & _)). exists w, (c +:+ r). split_and!; [done| |].
  - by apply (can_read_rep_class true 0 None).
  - apply can_read_comment in Hc as (v & v' & -> & Hv). exists v, (v' +:+ close +:+ r). split; [by rewrite !sapp_assoc|done].
Qed.

Lemma no_comment_no_match open close s : ~ has_comment open MARKER_OPEN_TEXT s -> re_exec (block_pattern open close) s = None.
Proof.
  intros H. apply exec_none. intros a t b -> (w & u & -> & _ & v & z & -> & Hv)%pattern_comment. apply H.
  exists (a +:+ w), (open +:+ v +:+ MARKER_OPEN_TEXT +:+ z +:+ b). split; [by rewrite !sapp_assoc|]. by exists v, (z +:+ b).
Qed.

Lemma no_name_no_comment open name s : includes name s = false -> ~ has_comment open name s.
Proof.
  intros H (a & b & -> & w & z & -> & _). apply not_true_iff_false in H. apply H, includes_iff. exists (a +:+ open +:+ w), z. by rewrite !sapp_assoc.
Qed.

(** A text in front of a character [g] that no comment of the kind holds. *)
Lemma comment_before open name g a s : no_char g (open +:+ name) = true -> is_space g = false -> includes name a = false ->
  ~ has_comment open name (String g s) -> ~ has_comment open name (a +:+ String g s).
Proof.
  intros Hg Hs Ha Hno (b & c & E & w & z & -> & Hw). unfold no_char in Hg. rewrite sforall_app in Hg. apply andb_true_iff in Hg as [Ho Hn].
  assert (no_char g w = true) as Hgw.
  { apply (sforall_impl is_space); [|done]. intros x Hx. apply negb_true_iff. destruct (Ascii.eqb_spec x g); [congruence|done]. }
  destruct (decide (slen b < slen a)%nat) as [Hlt|Hge].
  - assert (exists d, a = b +:+ d) as [d ->].
    { exists (sdrop (slen b) a). apply (f_equal (stake (slen b))) in E. rewrite stake_app in E.
      rewrite <- (stake_sdrop (slen b) a) at 1. f_equal. rewrite <- E. clear -Hlt. revert b Hlt; induction a as [|x a IH]; intros [|y b] H; simpl in *; try lia; [done..|].
      f_equal. apply IH. lia. }
    rewrite sapp_assoc in E. apply (f_equal (sdrop (slen b))) in E. rewrite !sdrop_app in E. symmetry in E.
    rewrite <- !sapp_assoc in E. apply before_char in E as [d' ->].
    + apply not_true_iff_false in Ha. apply Ha, includes_iff. exists (b +:+ open +:+ w), d'. by rewrite !sapp_assoc.
    + unfold no_char in *. rewrite !sforall_app. by rewrite Ho, Hn, Hgw.
  - apply Hno. exists (sdrop (slen a) b), (open +:+ w +:+ name +:+ z). split; [|by exists w, z].
    apply (f_equal (sdrop (slen a))) in E. rewrite sdrop_app in E. rewrite E. clear -Hge. revert b Hge; induction a as [|x a IH]; intros [|y b] H; simpl in *; try lia; [done..|].
    apply IH. lia.
Qed.

(** A stretch without the first character of the comment. *)
Lemma comment_skip f open name p s : no_char f p = true -> ~ has_comment (String f open) name s -> ~ has_comment (String f open) name (p +:+ s).
Proof.
  intros Hp Hno (a & b & E & w & z & -> & Hw). apply Hno. cbn [append] in E.
  symmetry in E. assert (exists d', a = p +:+ d') as [d ->] by (apply (before_char f p s a (open +:+ w +:+ name +:+ z)); [done|by rewrite E]).
  rewrite sapp_assoc in E. apply (f_equal (sdrop (slen p))) in E. rewrite !sdrop_app in E. symmetry in E.
  exists d, (String f (open +:+ w +:+ name +:+ z)). split; [done|]. by exists w, z.
Qed.
Lemma comment_step open name c s : starts_with open (String c s) = false -> ~ has_comment open name s -> ~ has_comment open name (String c s).
Proof.
  intros Hc Hno ([|x a] & b & E & Hb).
  - cbn [append] in E. destruct Hb as (w & z & -> & _). rewrite E, starts_with_app in Hc. done.
  - injection E as -> ->. apply Hno. by exists a, b.
Qed.

(** ** The block is found *)

Definition comment_text (open name close : string) : string := open +:+ " " +:+ name +:+ " " +:+ close.

Lemma rest_advance s r st : ms_rest (advance s r st) = r.
Proof. done. Qed.

Lemma rmatch_comment open name close r st k x : ms_rest st = comment_text open name close +:+ r ->
  starts_in is_space (name +:+ " ") = false -> starts_in is_space (close +:+ r) = false ->
  k (advance (comment_text open name close) r st) = Some x -> rmatch (comment_re open name close) st k = Some x.
Proof.
  intros E Hn Hc Hk. unfold comment_text in E. rewrite !sapp_assoc in E. cbn [rmatch comment_re].
  rewrite rmatch_lit, E, starts_with_app, sdrop_app. apply star_class with (w := " ") (r := name +:+ " " +:+ close +:+ r); [done|done| |].
  { destruct name; [done|exact Hn]. }
  rewrite rmatch_lit. rewrite rest_advance, starts_with_app, sdrop_app.
  apply star_class with (w := " ") (r := close +:+ r); [done..|].
  rewrite rmatch_lit. rewrite rest_advance, starts_with_app, sdrop_app.
  by rewrite !advance_app.
Qed.

(** The end of a line of the block. *)
Definition line_end_of (eol rest : string) : Prop := eol = s_nl \/ eol = s_crlf \/ (eol = s_cr /\ starts_with s_nl rest = false).

Lemma rmatch_line_end eol r st k x : line_end_of eol r -> ms_rest st = eol +:+ r -> k (advance eol r st) = Some x ->
  rmatch (ropt line_end) st k = Some x.
Proof.
  destruct st as [prev rest pos caps]. cbn [ms_rest]. intros He -> Hk. unfold ropt. cbn [rmatch ms_rest].
  assert (forall n, rep_loop (fun st k => rmatch line_end (clear_caps (group_ids line_end) st) k) true (S (S n)) 0 (Some 1%nat)
            (MState prev (eol +:+ r) pos caps) k = Some x) as H.
  { intros n. cbn [rep_loop]. change (group_ids line_end) with (@nil nat). rewrite clear_no_caps. unfold line_end. cbn [rmatch].
    rewrite !rmatch_lit. cbn [ms_rest]. destruct He as [->|[->|[-> Hr]]].
    - change (starts_with s_crlf (s_nl +:+ r)) with false. change (starts_with s_nl (s_nl +:+ r)) with true. cbn iota.
      change (sdrop (slen s_nl) (s_nl +:+ r)) with r. unfold advance in *. cbn [ms_pos ms_prev ms_caps slen s_nl] in *.
      assert ((pos + 1 =? pos)%nat = false) as -> by (apply Nat.eqb_neq; lia). cbn [Nat.eqb andb pred fmap option_fmap option_map rep_loop]. by rewrite Hk.
    - change (starts_with s_crlf (s_crlf +:+ r)) with true. cbn iota.
      change (sdrop (slen s_crlf) (s_crlf +:+ r)) with r. unfold advance in *. cbn [ms_pos ms_prev ms_caps slen s_crlf s_nl] in *.
      assert ((pos + 2 =? pos)%nat = false) as -> by (apply Nat.eqb_neq; lia). cbn [Nat.eqb andb pred fmap option_fmap option_map rep_loop]. by rewrite Hk.
    - change (starts_with s_crlf (s_cr +:+ r)) with (starts_with s_nl r). rewrite Hr.
      change (starts_with s_nl (s_cr +:+ r)) with false. change (starts_with s_cr (s_cr +:+ r)) with true. cbn iota.
      change (sdrop (slen s_cr) (s_cr +:+ r)) with r. unfold advance in *. cbn [ms_pos ms_prev ms_caps slen s_cr] in *.
      assert ((pos + 1 =? pos)%nat = false) as -> by (apply Nat.eqb_neq; lia). cbn [Nat.eqb andb pred fmap option_fmap option_map rep_loop]. by rewrite Hk. }
  assert (exists n, slen (eol +:+ r) = S n) as [n ->]; [|apply H]. destruct He as [->|[->|[-> _]]]; by eexists.
Qed.

(** One of the two kinds of comment. *)
Record comment_kind (f : ascii) (open close : string) : Prop := CommentKind {
  ck_space : is_space f = false;
  ck_hspace : is_hspace f = false;
  ck_open : no_char f open = true;
  ck_names : no_char f (MARKER_OPEN_TEXT +:+ MARKER_CLOSE_TEXT) = true;
  ck_close : close <> "" /\ starts_in is_space close = false
}.

Section Block.
Context (f : ascii) (open close : string) (K : comment_kind f open close).
Notation opener := (String f open).

Lemma ck_name name : name = MARKER_OPEN_TEXT \/ name = MARKER_CLOSE_TEXT -> no_char f name = true.
Proof.
  pose proof (ck_names _ _ _ K) as H. unfold no_char in *. rewrite sforall_app in H. apply andb_true_iff in H as [H1 H2]. by intros [->| ->].
Qed.

Lemma spaces_no_f w : sforall is_space w = true -> no_char f w = true.
Proof.
  apply sforall_impl. intros x Hx. apply negb_true_iff. destruct (Ascii.eqb_spec x f) as [->|]; [|done]. by rewrite (ck_space _ _ _ K) in Hx.
Qed.

(** A comment that begins before [String f x] ends before it. *)
Lemma comment_inside name b x : name = MARKER_OPEN_TEXT \/ name = MARKER_CLOSE_TEXT -> b <> "" ->
  starts_comment opener name (b +:+ String f x) -> starts_comment opener name b.
Proof.
  intros Hn Hb (w & z & E & Hw). destruct b as [|c b]; [done|]. cbn [append] in E. injection E as -> E. symmetry in E. rewrite <- !sapp_assoc in E.
  apply before_char in E as [d ->].
  - exists w, d. split; [by rewrite !sapp_assoc|done].
  - unfold no_char in *. rewrite !sforall_app, (ck_open _ _ _ K : sforall _ _ = true), (spaces_no_f w Hw : sforall _ _ = true), (ck_name name Hn : sforall _ _ = true). done.
Qed.

Definition block_text (mid eol : string) : string :=
  comment_text opener MARKER_OPEN_TEXT close +:+ mid +:+ comment_text opener MARKER_CLOSE_TEXT close +:+ eol.

Lemma comment_text_cons name : comment_text opener name close = String f (open +:+ " " +:+ name +:+ " " +:+ close).
Proof. done. Qed.

Lemma close_not_space r : starts_in is_space (close +:+ r) = false.
Proof. destruct (ck_close _ _ _ K) as [Hc Hs]. by destruct close. Qed.

Lemma eol_not_hspace eol r : line_end_of eol r -> starts_in is_hspace (eol +:+ r) = false.
Proof. by intros [->|[->|[-> _]]]. Qed.

Lemma match_block_text mid eol w rest prev pos : sforall is_hspace w = true -> ~ has_comment opener MARKER_CLOSE_TEXT mid -> line_end_of eol rest ->
  exists m, match_at (block_pattern opener close) prev pos (w +:+ block_text mid eol +:+ rest) = Some m /\
    m_index m = pos /\ m_text m = w +:+ block_text mid eol /\ m_after m = rest /\ left_over m = w.
Proof.
  intros Hw Hmid He. set (st0 := MState prev (w +:+ block_text mid eol +:+ rest) pos []).
  set (b1 := comment_text opener MARKER_OPEN_TEXT close). set (b2 := comment_text opener MARKER_CLOSE_TEXT close).
  set (r0 := block_text mid eol +:+ rest). set (r1 := mid +:+ b2 +:+ eol +:+ rest). set (r2 := b2 +:+ eol +:+ rest).
  assert (r0 = b1 +:+ r1) as Er0 by (unfold r0, block_text, r1; by rewrite !sapp_assoc).
  set (st1 := let s := advance w r0 st0 in MState (ms_prev s) (ms_rest s) (ms_pos s) (set_cap 1 (stake (ms_pos s - pos) (w +:+ r0)) (ms_caps s))).
  set (st2 := advance mid r2 (advance b1 r1 st1)). set (st3 := advance b2 (eol +:+ rest) st2).
  set (st4 := let s := advance eol rest st3 in MState (ms_prev s) (ms_rest s) (ms_pos s) (set_cap 2 (stake (ms_pos s - ms_pos st3) (eol +:+ rest)) (ms_caps s))).
  assert (rmatch (block_pattern opener close) st0 Some = Some st4) as Hm.
  { unfold block_pattern. cbn [rmatch]. apply star_class with (w := w) (r := r0); [done|done| |].
    { rewrite Er0. exact (ck_hspace _ _ _ K). }
    fold st1. apply rmatch_comment with (r := r1); [exact Er0|done|apply close_not_space|]. fold b1.
    apply lazy_any_gap with (w := mid) (r := r2); [done| |].
    - intros a b Emid Hb. destruct (rmatch _ _ _) eqn:E; [|done]. exfalso. apply rmatch_sound in E as (t & st' & E & Ht & _). cbn [ms_rest advance] in E.
      apply can_read_comment in Ht as (v & v' & -> & Hv). apply Hmid. exists a, b. split; [done|].
      apply (comment_inside MARKER_CLOSE_TEXT b (open +:+ " " +:+ MARKER_CLOSE_TEXT +:+ " " +:+ close +:+ eol +:+ rest)); [by right|done|].
      exists v, (v' +:+ close +:+ ms_rest st'). split; [|done]. unfold r2, b2, comment_text in E. rewrite !sapp_assoc in E. exact E.
    - fold st2. apply rmatch_comment with (r := eol +:+ rest); [done|done|apply close_not_space|]. fold b2 st3.
      apply star_class with (w := "") (r := eol +:+ rest); [done|done|by apply eol_not_hspace|].
      apply rmatch_line_end with (eol := eol) (r := rest); [done|done|]. rewrite advance_app. done. }
  unfold match_at. change (MState prev (w +:+ r0) pos []) with st0. rewrite Hm. eexists. split; [reflexivity|].
  assert (ms_pos st4 - pos = slen (w +:+ block_text mid eol))%nat as Hlen.
  { unfold st4, st3, st2, st1, st0, block_text, b1, b2, advance. cbn [ms_pos]. rewrite !slen_app. lia. }
  split_and!; [done| |done|].
  - cbn [m_text]. rewrite Hlen. unfold r0. rewrite <- sapp_assoc. apply stake_app.
  - unfold left_over, group_or, group. cbn [m_caps].
    assert (ms_caps st4 = [(2%nat, eol); (1%nat, w)]) as ->.
    { unfold st4, st3, st2, st1, st0, advance. cbn [ms_pos ms_caps set_cap bfilter Nat.eqb negb fst].
      assert (forall n m t r, n = (m + slen t)%nat -> stake (n - m) (t +:+ r) = t) as Hst.
      { intros n m t r ->. replace (m + slen t - m)%nat with (slen t) by lia. apply stake_app. }
      rewrite (Hst _ _ eol), (Hst _ _ w); done. }
    cbn [find Nat.eqb fmap option_fmap option_map snd default from_option fst]. destruct He as [->|[->|[-> _]]]; done.
Qed.

Lemma trailing_run (p : ascii -> bool) a : exists a0 w, a = a0 +:+ w /\ sforall p w = true /\
  forall b c, a0 = b +:+ c -> c <> "" -> sforall p c = false.
Proof.
  induction a as [|x a (a0 & w & -> & Hw & Ha)]; [exists "", ""; split_and!; [done..|by intros [] []]|].
  destruct a0 as [|y a0].
  - destruct (p x) eqn:Ex; [exists "", (String x w)|exists (String x ""), w]; split_and!; try done.
    + cbn [sforall]. by rewrite Ex.
    + intros [|z b] c E Hc; cbn [append] in E; [subst c; cbn [sforall]; by rewrite Ex|]. injection E as _ E. by destruct b, c.
  - exists (String x (String y a0)), w. split_and!; [done..|]. intros [|z b] c E Hc; cbn [append] in E.
    + subst c. rewrite sforall_cons, (Ha "" (String y a0)) by done. apply andb_false_r.
    + injection E as _ E. by apply (Ha b).
Qed.

(** The search stops at the indentation of the block. *)
Lemma exec_block a mid eol rest : includes MARKER_OPEN_TEXT a = false -> ~ has_comment opener MARKER_CLOSE_TEXT mid -> line_end_of eol rest ->
  re_replace (block_pattern opener close) left_over (a +:+ block_text mid eol +:+ rest) = a +:+ rest.
Proof.
  intros Ha Hmid He. destruct (trailing_run is_hspace a) as (a0 & w & -> & Hw & Hmax).
  unfold re_replace, re_exec. rewrite sapp_assoc.
  rewrite (search_skip _ a0).
  - destruct (match_block_text mid eol w rest (last_char None a0) (0 + slen a0) Hw Hmid He) as (m & Hm & Hi & Ht & Haf & Hl).
    assert (search_from (block_pattern opener close) (last_char None a0) (0 + slen a0) (w +:+ block_text mid eol +:+ rest) = Some m) as ->.
    { destruct (w +:+ _); cbn [search_from]; by rewrite Hm. }
    cbn [rebuild]. rewrite Hi, Hl, Ht, Nat.sub_0_r, !Nat.add_0_l, stake_app, sdrop_add, sdrop_app, <- (sapp_assoc w), sdrop_app. by rewrite sapp_assoc.
  - intros b c -> Hc. destruct (match_at _ _ _ _) as [m|] eqn:E; [|done]. exfalso.
    apply match_at_sound in E as (E & (w0 & s & Et & Hw0 & v & z & -> & Hv)%pattern_comment & _). rewrite Et in E. rewrite !sapp_assoc in E.
    assert (no_char f w0 = true) as Hf.
    { apply (sforall_impl is_hspace); [|done]. intros y Hy. apply negb_true_iff. destruct (Ascii.eqb_spec y f) as [->|]; [|done].
      by rewrite (ck_hspace _ _ _ K) in Hy. }
    unfold block_text in E. rewrite comment_text_cons in E. cbn [append] in E. rewrite <- (sapp_assoc c w) in E.
    symmetry in E. destruct (before_char f w0 _ _ _ Hf E) as [d Hd]. rewrite Hd, sapp_assoc in E.
    apply (f_equal (sdrop (slen w0))) in E. rewrite !sdrop_app in E. destruct d as [|y d].
    + rewrite sapp_nil_r in Hd. specialize (Hmax b c eq_refl Hc). rewrite <- Hd, sforall_app, Hmax in Hw0. done.
    + apply not_true_iff_false in Ha. apply Ha. apply includes_iff.
      destruct (comment_inside MARKER_OPEN_TEXT (String y d) _ (or_introl eq_refl) ltac:(done) (ex_intro _ v (ex_intro _ _ (conj (eq_sym E) Hv)))) as (v2 & z2 & Ed & _).
      exists (b +:+ w0 +:+ opener +:+ v2), z2. rewrite !sapp_assoc, Hd, Ed. done.
Qed.
End Block.

(** ** Removing takes out exactly the block *)

Lemma loop_clean open close n s : ~ has_comment open MARKER_OPEN_TEXT s -> remove_loop n (block_pattern open close) s = s.
Proof.
  intros H. destruct n as [|n]; [done|]. cbn [remove_loop]. unfold re_replace. rewrite no_comment_no_match by done. by rewrite String.eqb_refl.
Qed.

Lemma removeTag_clean s : includes MARKER_OPEN_TEXT s = false -> removeTag s = s.
Proof.
  intros H. assert (forall open, ~ has_comment open MARKER_OPEN_TEXT s) as Hc by (intros open; by apply no_name_no_comment).
  unfold removeTag, removal_patterns. cbn [remove_with]. rewrite !loop_clean by done. by rewrite String.eqb_refl.
Qed.

Lemma loop_block f open close (K : comment_kind f open close) n a mid eol rest : (2 <= n)%nat ->
  includes MARKER_OPEN_TEXT a = false -> ~ has_comment (String f open) MARKER_CLOSE_TEXT mid -> line_end_of eol rest ->
  includes MARKER_OPEN_TEXT (a +:+ rest) = false ->
  remove_loop n (block_pattern (String f open) close) (a +:+ block_text f open close mid eol +:+ rest) = a +:+ rest.
Proof.
  intros Hn Ha Hmid He Hr. destruct n as [|n]; [lia|]. cbn [remove_loop]. rewrite (exec_block f open close K) by done.
  destruct (String.eqb_spec (a +:+ rest) (a +:+ block_text f open close mid eol +:+ rest)) as [E|_].
  - apply (f_equal String.length) in E. rewrite !slen_app in E. unfold block_text, comment_text in E. rewrite !slen_app in E. simpl in E. lia.
  - by apply loop_clean, no_name_no_comment.
Qed.

Definition html_kind : comment_kind "<" "!--" "-->".
Proof. by constructor. Defined.
Definition jsx_kind : comment_kind "{" "/*" "*/}".
Proof. by constructor. Defined.

(** A character that neither opens a comment nor ends a line. *)
Definition inert (c : ascii) : bool := negb (Ascii.eqb c "<" || Ascii.eqb c "{" || Ascii.eqb c NL).

Definition script_text (scriptAttrs src : string) : string :=
  "<script " +:+ scriptAttrs +:+ "src=" +:+ s_dq +:+ src +:+ s_dq +:+ "></script>".

Lemma inert_no_char c s : inert c = false -> sforall inert s = true -> no_char c s = true.
Proof.
  intros Hc. apply sforall_impl. intros x Hx. apply negb_true_iff. destruct (Ascii.eqb_spec x c) as [->|]; [congruence|done].
Qed.
Lemma no_char_app c s1 s2 : no_char c (s1 +:+ s2) = no_char c s1 && no_char c s2.
Proof. apply sforall_app. Qed.

Definition is_line_end (eol : string) : Prop := eol = s_nl \/ eol = s_crlf \/ eol = s_cr.

Lemma script_no_comment open name attrs src eol s : is_line_end eol -> sforall inert attrs = true -> sforall inert src = true ->
  open = "!--" -> ~ has_comment (String "<" open) name s ->
  ~ has_comment (String "<" open) name (eol +:+ script_text attrs src +:+ eol +:+ s).
Proof.
  intros He Ha Hs -> Hno. assert (no_char "<" eol = true) as Hel by (by destruct He as [->|[->| ->]]).
  apply comment_skip; [done|]. unfold script_text. rewrite !sapp_assoc.
  change ("<script " +:+ ?x) with (String "<" ("script " +:+ x)). apply comment_step; [done|].
  replace ("script " +:+ _) with (("script " +:+ attrs +:+ "src=" +:+ s_dq +:+ src +:+ s_dq +:+ ">") +:+ String "<" ("/script>" +:+ eol +:+ s))
    by (rewrite !sapp_assoc; done).
  apply comment_skip; [rewrite !no_char_app, (inert_no_char "<" attrs), (inert_no_char "<" src) by done; done|].
  apply comment_step; [done|]. apply comment_skip; [done|]. by apply comment_skip.
Qed.

Lemma script_no_brace attrs src eol : is_line_end eol -> sforall inert attrs = true -> sforall inert src = true ->
  no_char "{" (eol +:+ script_text attrs src +:+ eol) = true.
Proof.
  intros He Ha Hs. unfold script_text. rewrite !no_char_app, (inert_no_char "{" attrs), (inert_no_char "{" src) by done. by destruct He as [->|[->| ->]].
Qed.

Definition mid_text (attrs src eol : string) : string := eol +:+ script_text attrs src +:+ eol.

Lemma nothing_no_comment open name : ~ has_comment (String open "!--") name "".
Proof. by intros ([] & b & E & w & z & -> & _). Qed.

(** The two forms of the block, wherever they stand. *)
Lemma remove_html a attrs src eol rest : is_line_end eol -> line_end_of eol rest -> sforall inert attrs = true -> sforall inert src = true ->
  includes MARKER_OPEN_TEXT a = false -> includes MARKER_OPEN_TEXT (a +:+ rest) = false ->
  removeTag (a +:+ block_text "<" "!--" "-->" (mid_text attrs src eol) eol +:+ rest) = a +:+ rest.
Proof.
  intros He Hl Ha Hs Hno Hr. unfold removeTag, removal_patterns. cbn [remove_with].
  assert (~ has_comment (String "<" "!--") MARKER_CLOSE_TEXT (mid_text attrs src eol)) as Hmid.
  { unfold mid_text. pose proof (script_no_comment "!--" MARKER_CLOSE_TEXT attrs src eol "" He Ha Hs eq_refl (nothing_no_comment _ _)) as H.
    by rewrite sapp_nil_r in H. }
  rewrite (loop_block "<" "!--" "-->" html_kind); [|rewrite ?slen_app; unfold block_text, comment_text; rewrite ?slen_app; simpl; lia|done..].
  destruct (String.eqb_spec (a +:+ rest) (a +:+ block_text "<" "!--" "-->" (mid_text attrs src eol) eol +:+ rest)) as [E|_]; [|done].
  apply (f_equal String.length) in E. rewrite !slen_app in E. unfold block_text, comment_text in E. rewrite !slen_app in E. simpl in E. lia.
Qed.

Lemma remove_jsx a attrs src eol rest : is_line_end eol -> line_end_of eol rest -> sforall inert attrs = true -> sforall inert src = true ->
  includes MARKER_OPEN_TEXT a = false -> includes MARKER_OPEN_TEXT (a +:+ rest) = false ->
  removeTag (a +:+ block_text "{" "/*" "*/}" (mid_text attrs src eol) eol +:+ rest) = a +:+ rest.
Proof.
  intros He Hl Ha Hs Hno Hr. unfold removeTag, removal_patterns. cbn [remove_with].
  assert (includes MARKER_OPEN_TEXT rest = false) as Hrest.
  { apply not_true_iff_false. intros (u & v & ->)%includes_iff. apply not_true_iff_false in Hr. apply Hr, includes_iff. exists (a +:+ u), v. by rewrite !sapp_assoc. }
  assert (no_char "<" eol = true) as Hel by (by destruct He as [->|[->| ->]]).
  rewrite loop_clean.
  2:{ unfold block_text. rewrite !sapp_assoc. unfold comment_text at 1. change ("{/*" +:+ ?x) with (String "{" ("/*" +:+ x)). cbn [append].
      apply comment_before; [done..|]. unfold mid_text. rewrite !sapp_assoc.
      match goal with |- ~ has_comment _ _ ?t => replace t with
        (("{/* " +:+ MARKER_OPEN_TEXT +:+ " */}") +:+ eol +:+ script_text attrs src +:+ eol +:+ (comment_text "{/*" MARKER_CLOSE_TEXT "*/}" +:+ eol) +:+ rest)
          by (rewrite !sapp_assoc; done) end.
      apply comment_skip; [done|]. apply script_no_comment; [done..|]. apply comment_skip; [|by apply no_name_no_comment].
      rewrite no_char_app, Hel. done. }
  rewrite String.eqb_refl. rewrite (loop_block "{" "/*" "*/}" jsx_kind); [|rewrite ?slen_app; unfold block_text, comment_text; rewrite ?slen_app; simpl; lia|done| |done..].
  - destruct (String.eqb_spec (a +:+ rest) (a +:+ block_text "{" "/*" "*/}" (mid_text attrs src eol) eol +:+ rest)) as [E|_]; [|done].
    apply (f_equal String.length) in E. rewrite !slen_app in E. unfold block_text, comment_text in E. rewrite !slen_app in E. simpl in E. lia.
  - intros (x & y & E & w & z & -> & _). pose proof (script_no_brace attrs src eol He Ha Hs) as Hb. fold (mid_text attrs src eol) in Hb. rewrite E in Hb.
    rewrite no_char_app in Hb. apply andb_true_iff in Hb as [_ Hb]. by cbn in Hb.
Qed.

(** ** Inserting *)

Lemma includes_break p c a b : no_char c p = true -> includes p a = false -> includes p b = false -> includes p (a +:+ String c b) = false.
Proof.
  intros Hp Ha Hb. apply not_true_iff_false. intros (x & y & E)%includes_iff. revert x E. induction a as [|d a IH]; intros [|z x] E; cbn [append] in E.
  - destruct p as [|q p]; [by rewrite (proj2 (includes_iff "" "")) in Ha by (by exists "", "")|].
    injection E as -> _. cbn [no_char sforall] in Hp. by rewrite Ascii.eqb_refl in Hp.
  - injection E as _ E. apply not_true_iff_false in Hb. apply Hb, includes_iff. by exists x, y.
  - change (String d (a +:+ String c b)) with (String d a +:+ String c b) in E. symmetry in E. apply before_char in E as [d' E]; [|done].
    apply not_true_iff_false in Ha. apply Ha, includes_iff. by exists "", d'.
  - injection E as _ E. apply (IH) with x; [|done]. apply not_true_iff_false. intros (u & v & ->)%includes_iff. apply not_true_iff_false in Ha.
    apply Ha, includes_iff. by exists (String d u), v.
Qed.

Lemma includes_sub p a b : includes p (a +:+ b) = false -> includes p a = false /\ includes p b = false.
Proof.
  intros H. apply not_true_iff_false in H. split; apply not_true_iff_false; intros (u & v & ->)%includes_iff; apply H, includes_iff.
  - exists u, (v +:+ b). by rewrite !sapp_assoc.
  - exists (a +:+ u), v. by rewrite !sapp_assoc.
Qed.

Lemma no_marker_line a eol b : is_line_end eol -> includes MARKER_OPEN_TEXT a = false -> includes MARKER_OPEN_TEXT b = false ->
  includes MARKER_OPEN_TEXT (a +:+ eol +:+ b) = false.
Proof.
  intros [->|[->| ->]] Ha Hb; cbn [append s_nl s_crlf s_cr]; repeat (apply includes_break; [done|done|]); [done| |done].
  by apply (includes_break _ _ "").
Qed.

Lemma detect_is_line_end content : is_line_end (detectLineEnding content).
Proof. unfold detectLineEnding, is_line_end. destruct (includes s_crlf content); [auto|]. destruct (includes s_cr content); auto. Qed.

Lemma replace_app e a b : replace_newlines e (a +:+ b) = replace_newlines e a +:+ replace_newlines e b.
Proof. induction a as [|c a IH]; [done|]. cbn [append replace_newlines]. by rewrite IH, sapp_assoc. Qed.
Lemma replace_id e a : no_char NL a = true -> replace_newlines e a = a.
Proof.
  induction a as [|c a IH]; [done|]. cbn [no_char sforall replace_newlines]. intros [Hc Ha]%andb_true_iff. apply negb_true_iff in Hc. rewrite Hc.
  by rewrite (IH Ha).
Qed.
Lemma replace_same a : replace_newlines s_nl a = a.
Proof. induction a as [|c a IH]; [done|]. cbn [replace_newlines]. rewrite IH. by destruct (Ascii.eqb_spec c NL) as [->|]. Qed.
Lemma replace_nl e : replace_newlines e s_nl = e.
Proof. apply sapp_nil_r. Qed.

Lemma digit_inert c : is_digit c = true -> inert c = true.
Proof. destruct c as [[] [] [] [] [] [] [] []]; by vm_compute. Qed.
Lemma print_inert z : sforall inert (print_Z z) = true.
Proof.
  unfold print_Z, print_nat. destruct (Z.ltb_spec z 0) as [H|H].
  - rewrite sforall_cons. apply (sforall_impl is_digit); [apply digit_inert|]. apply print_digits_digits; [lia|done].
  - apply (sforall_impl is_digit); [apply digit_inert|]. by apply print_digits_digits.
Qed.
Lemma url_inert c : url_char c = true -> inert c = true.
Proof. destruct c as [[] [] [] [] [] [] [] []]; by vm_compute. Qed.

Lemma src_inert port token : sforall inert (buildLiveScriptSrc (int port) token) = true.
Proof.
  unfold buildLiveScriptSrc. change (to_str (int port)) with (print_Z port).
  assert (forall t, sforall inert t = true -> sforall inert ("http://localhost:" +:+ print_Z port +:+ "/live.js" +:+ t) = true) as H.
  { intros t Ht. rewrite !sforall_app, print_inert, Ht. done. }
  destruct (truthy token).
  - rewrite !sapp_assoc. apply H. rewrite sforall_app. rewrite (sforall_impl url_char inert _ url_inert (encoded_chars _)). done.
  - specialize (H "" eq_refl). by rewrite sapp_nil_r in H.
Qed.

(** The block with the line ends of the file. *)
Lemma normalized_block syntax port token attrs eol : is_line_end eol -> sforall inert attrs = true ->
  normalizeLineEndings (buildTagBlock syntax (int port) token attrs) eol =
  if syntax === JStr "jsx" then block_text "{" "/*" "*/}" (mid_text attrs (buildLiveScriptSrc (int port) token) eol) eol
  else block_text "<" "!--" "-->" (mid_text attrs (buildLiveScriptSrc (int port) token) eol) eol.
Proof.
  intros He Ha.
  assert (normalizeLineEndings (buildTagBlock syntax (int port) token attrs) eol = replace_newlines eol (buildTagBlock syntax (int port) token attrs)) as ->.
  { unfold normalizeLineEndings. destruct (String.eqb_spec eol s_nl) as [->|]; [by rewrite replace_same|done]. }
  unfold buildTagBlock. cbv zeta. rewrite !replace_app, !replace_nl.
  rewrite (replace_id eol attrs), (replace_id eol (buildLiveScriptSrc _ _)) by (apply (inert_no_char NL); [done|first [done|apply src_inert]]).
  rewrite (replace_id eol (commentOpen syntax)), (replace_id eol (commentClose syntax)) by (unfold commentOpen, commentClose; by destruct (syntax === JStr "jsx")).
  rewrite !(replace_id eol) by done. unfold commentOpen, commentClose, block_text, mid_text, script_text, comment_text.
  destruct (syntax === JStr "jsx"); rewrite !sapp_assoc; reflexivity.
Qed.

Lemma remove_inserted a b content syntax port token attrs :
  includes MARKER_OPEN_TEXT a = false -> includes MARKER_OPEN_TEXT (a +:+ b) = false -> sforall inert attrs = true ->
  (detectLineEnding content = s_cr -> starts_with s_nl b = false) ->
  removeTag (a +:+ normalizeLineEndings (buildTagBlock syntax (int port) token attrs) (detectLineEnding content) +:+ b) = a +:+ b.
Proof.
  intros Ha Hb Hi Hcr. set (eol := detectLineEnding content) in *. assert (is_line_end eol) as He by apply detect_is_line_end.
  assert (line_end_of eol b) as Hl by (destruct He as [?|[?|?]]; unfold line_end_of; auto).
  rewrite normalized_block by done. pose proof (src_inert port token). destruct (syntax === JStr "jsx"); [by apply remove_jsx|by apply remove_html].
Qed.

Lemma last_index_of_Some p s i : last_index_of p s = Some i -> starts_with p (sdrop i s) = true /\ (i <= slen s)%nat.
Proof.
  revert i; induction s as [|c s IH]; intros i; cbn [last_index_of].
  - destruct (String.eqb_spec p "") as [->|]; [|done]. intros [= <-]. done.
  - destruct (last_index_of p s) as [k|]; [intros [= <-]; destruct (IH k eq_refl); split; [done|simpl; lia]|].
    destruct (starts_with p (String c s)) eqn:E; [|done]. intros [= <-]. split; [done|simpl; lia].
Qed.

Lemma no_nl_drop n s : no_char NL s = true -> starts_with s_nl (sdrop n s) = false.
Proof.
  revert n; induction s as [|c s IH]; intros n H; destruct n as [|n]; cbn [sdrop]; try done.
  - cbn [no_char sforall] in H. apply andb_true_iff in H as [H _]. cbn [starts_with s_nl]. apply negb_true_iff in H. rewrite Ascii.eqb_sym in H. by rewrite H.
  - apply IH. cbn [no_char sforall] in H. by apply andb_true_iff in H as [_ H].
Qed.

Lemma line_end_at s : is_line_end (readLineEndingAt s) \/ readLineEndingAt s = "".
Proof.
  unfold readLineEndingAt, is_line_end. destruct s as [|c s]; [auto|]. destruct (Ascii.eqb c CR); [|destruct (Ascii.eqb c NL); auto].
  destruct s as [|d s]; [auto|]. destruct (Ascii.eqb d NL); auto.
Qed.
Lemma line_end_at_prefix s : s = readLineEndingAt s +:+ sdrop (slen (readLineEndingAt s)) s.
Proof.
  unfold readLineEndingAt. destruct s as [|c s]; [done|]. destruct (Ascii.eqb_spec c CR) as [->|]; [|by destruct (Ascii.eqb_spec c NL) as [->|]].
  destruct s as [|d s]; [done|]. by destruct (Ascii.eqb_spec d NL) as [->|].
Qed.

Lemma remove_before content config port token attrs out : includes MARKER_OPEN_TEXT content = false -> sforall inert attrs = true ->
  (detectLineEnding content = s_cr -> no_char NL content = true) -> truthy config.["insertBefore"] = true ->
  insertTag content config (int port) token attrs = Ok out -> removeTag out = content.
Proof.
  intros Hno Hi Hcr Hb H. unfold insertTag in H. cbv zeta in H. rewrite Hb in H.
  assert (forall n, includes MARKER_OPEN_TEXT (stake n content) = false) as Hcut.
  { intros n. apply (includes_sub _ _ (sdrop n content)). by rewrite stake_sdrop. }
  destruct (last_index_of _ content) as [i|]; apply Ok_inj in H; subst out; [|by apply removeTag_clean].
  rewrite remove_inserted; [apply stake_sdrop|apply Hcut|by rewrite stake_sdrop|done|intros E; by apply no_nl_drop, Hcr].
Qed.

(** A file that was given the block shows it. *)
Lemma insert_marks content config port token attrs out : sforall inert attrs = true -> truthy config.["insertBefore"] = true ->
  insertTag content config (int port) token attrs = Ok out -> out = content \/ includes MARKER_OPEN_TEXT out = true.
Proof.
  intros Hi Hb H. unfold insertTag in H. cbv zeta in H. rewrite Hb in H.
  destruct (last_index_of _ content) as [i|]; apply Ok_inj in H; subst out; [right|by left].
  rewrite normalized_block by (done || apply detect_is_line_end). unfold block_text, comment_text.
  set (eol := detectLineEnding content). set (src := buildLiveScriptSrc (int port) token). apply includes_iff.
  destruct (config.["commentSyntax"] === JStr "jsx"); rewrite !sapp_assoc;
    [exists (stake i content +:+ "{/* ")|exists (stake i content +:+ "<!-- ")]; eexists; rewrite (sapp_assoc (stake i content)); reflexivity.
Qed.

(** What live mode inserted into an entry template, it removes again byte for byte: a file without the block, given
    the block before the anchor or after an anchor that ends its line, comes back exactly, in every comment syntax, with
    every port, token and line ending. The one exception is an anchor that had no line end after it: the line end that
    was added for the block stays. A file that mixes single carriage returns with newlines is excluded. *)
Theorem removal_undoes_insertion content config port token attrs out :
  includes MARKER_OPEN_TEXT content = false -> sforall inert attrs = true ->
  (detectLineEnding content = s_cr -> no_char NL content = true) ->
  insertTag content config (int port) token attrs = Ok out ->
  removeTag out = content \/
  truthy config.["insertBefore"] = false /\ exists before after, content = before +:+ after /\
    (is_string config.["insertAfter"] = true -> readLineEndingAt after = "") /\
    removeTag out = before +:+ detectLineEnding content +:+ after.
Proof.
  intros Hno Hi Hcr H. unfold insertTag in H. cbv zeta in H.
  assert (forall n, includes MARKER_OPEN_TEXT (stake n content) = false /\ includes MARKER_OPEN_TEXT (sdrop n content) = false) as Hcut.
  { intros n. apply includes_sub. by rewrite stake_sdrop. }
  destruct (truthy config.["insertBefore"]).
  { left. destruct (last_index_of _ content) as [i|]; apply Ok_inj in H; subst out; [|by apply removeTag_clean].
    rewrite remove_inserted; [apply stake_sdrop|apply Hcut|by rewrite stake_sdrop|done|intros E; by apply no_nl_drop, Hcr]. }
  destruct (index_of (to_str config.["insertAfter"]) content) as [i|]; [|left; apply Ok_inj in H; subst out; by apply removeTag_clean].
  destruct (nullish config.["insertAfter"]); [done|]. destruct (anchor_length config.["insertAfter"]) as [n|] eqn:En; apply Ok_inj in H; subst out.
  - set (after := sdrop (i + n) content). set (nl := readLineEndingAt after). rewrite sdrop_add. fold after.
    destruct (String.eqb_spec nl "") as [E|E].
    + right. split; [done|]. exists (stake (i + n) content), after. split; [by rewrite stake_sdrop|]. split; [done|].
      rewrite E. cbn [String.length sdrop]. destruct (Hcut (i + n)%nat) as [H1 H2]. fold after in H2.
      assert (is_line_end (detectLineEnding content)) as He by apply detect_is_line_end. rewrite remove_inserted; [by rewrite sapp_assoc| | |done|].
      * rewrite <- (sapp_nil_r (detectLineEnding content)). by apply no_marker_line.
      * rewrite sapp_assoc. by apply no_marker_line.
      * intros Ec. by apply no_nl_drop, Hcr.
    + left. assert (content = (stake (i + n) content +:+ nl) +:+ sdrop (slen nl) after) as Econ.
      { rewrite sapp_assoc. unfold nl. rewrite <- line_end_at_prefix. unfold after. by rewrite stake_sdrop. }
      rewrite remove_inserted; [by rewrite <- Econ| |by rewrite <- Econ|done|intros Ec; unfold after; rewrite <- sdrop_add; by apply no_nl_drop, Hcr].
      rewrite Econ in Hno. by apply includes_sub in Hno as [? _].
  - right. split; [done|]. exists "", content. split; [done|]. split; [by destruct config.["insertAfter"]|].
    assert (is_line_end (detectLineEnding content)) as He by apply detect_is_line_end. rewrite remove_inserted; [done| | |done|].
    + rewrite <- (sapp_nil_r (detectLineEnding content)). by apply (no_marker_line "").
    + by apply (no_marker_line "").
    + intros Ec. by apply (no_nl_drop 0), Hcr.
Qed.

(** ** Concrete runs *)

Definition demo_meta (quote policy : string) : string :=
  "<meta http-equiv=" +:+ s_dq +:+ "Content-Security-Policy" +:+ s_dq +:+ " content=" +:+ quote +:+ policy +:+ quote +:+ ">".
Definition demo_page : string := "<html><head></head><body>" +:+ s_nl +:+ "  <p>hi</p>" +:+ s_nl +:+ "  </body></html>" +:+ s_nl.
Definition demo_config : js := JObj [("commentSyntax", JStr "jsx"); ("insertBefore", JStr "</body>")].

Lemma removal_undoes_insertion_witness :
  exists out, insertTag demo_page demo_config (int 8400) (JStr "a b") "" = Ok out /\ out <> demo_page /\ removeTag out = demo_page.
Proof.
  destruct (insertTag demo_page demo_config (int 8400) (JStr "a b") "") as [out|e] eqn:E; [|vm_compute in E; discriminate E].
  exists out. split; [reflexivity|]. split; [intros ->; vm_compute in E; discriminate E|].
  destruct (removal_undoes_insertion demo_page demo_config 8400 (JStr "a b") "" out) as [H|[H _]];
    [vm_compute; reflexivity|reflexivity|intros H; vm_compute in H; discriminate H|exact E|exact H|vm_compute in H; discriminate H].
Defined.

Definition no_engine : string -> result re := fun _ => Throw (error "Invalid regular expression").
Definition patched_and_restored (page : string) : result string :=
  unpatchTagFile no_engine (fun v => v) (patchCspMeta page (int 8400)).

(** An ordinary policy comes back. *)
Example policy_restored : patched_and_restored (demo_meta s_dq "default-src 'self'; script-src a b") = Ok (demo_meta s_dq "default-src 'self'; script-src a b").
Proof. vm_compute. reflexivity. Qed.
(** A policy between single quotes does not: the ['self'] that is added ends the attribute. *)
Example single_quotes_break :
  patched_and_restored (demo_meta "'" "default-src https:") =
  Ok ("<meta http-equiv=" +:+ s_dq +:+ "Content-Security-Policy" +:+ s_dq +:+
      " content='default-src https:'self' http://localhost:8400; connect-src 'self' http://localhost:8400; img-src 'self' blob:'>").
Proof. vm_compute. reflexivity. Qed.
(** Nor one whose Base64 form has a [+], which is read as a quantifier: the attribute stays, so the page is never patched again. *)
Example plus_stays :
  let page := demo_meta s_dq "default-src 'self'; report-uri https://e.org///~me" in
  exists t, patched_and_restored page = Ok t /\ t <> page /\ patchCspMeta t (int 8500) = t.
Proof. eexists. split; [vm_compute; reflexivity|]. split; [vm_compute; discriminate|vm_compute; reflexivity]. Qed.
(** Nor one with a [$]: the text of a replacement is a pattern. *)
Example dollar_expands :
  exists t, patched_and_restored (demo_meta s_dq "default-src $&") = Ok t /\ t <> demo_meta s_dq "default-src $&".
Proof. eexists. split; [vm_compute; reflexivity|vm_compute; discriminate]. Qed.
