(* ===== verification/VariantBlock.v ===== *)
(** * The block of a variant session in a source file

    The text half of live-accept.mjs: finding the block that live-wrap.mjs or live-insert.mjs wrote, the range it is
    replaced in, the original, a variant and the style sheet inside it, and the lines that take its place when it is
    discarded or a variant is accepted. A file is the list of its lines, indices are naturals. Regular expressions that
    the code builds from a session id, a tag name or a variant number are built here from literals: these are words
    without special characters (safeSessionId, VARIANT_NUM_PATTERN and the tag pattern see to it). *)
From S2P Require Import Prelude JsString JsValue Json JsRegex RegexFacts NodePath TagStrategy.
Local Open Scope Z_scope.
Local Open Scope js_scope.
Local Open Scope string_scope.

Definition line_at (lines : list string) (i : nat) : string := default "" (lines !! i).

(** ** Finding the block *)

Definition start_pattern (id : string) : string := "impeccable-variants-start " +:+ id.
Definition end_pattern (id : string) : string := "impeccable-variants-end " +:+ id.

Record block := Block { b_start : nat; b_end : nat }.

(** The loop of findMarkerBlock from line [i] on, [start] found so far. *)
Fixpoint scan_markers (id : string) (i : nat) (start : option nat) (lines : list string) : option block :=
  match lines with
  | [] => None
  | line :: lines =>
    let start := match start with Some _ => start | None => if includes (start_pattern id) line then Some i else None end in
    if includes (end_pattern id) line then (fun b => Block b i) <$> start
    else scan_markers id (S i) start lines
  end.
Definition findMarkerBlock (id : string) (lines : list string) : option block := scan_markers id 0 None lines.

Definition not_gt : re := rstar (RClass (none_of ">")).
Definition div_re : re := (lit "<div" ⋅ RWordB)%re.

Definition isVariantEndMarkerLine (line id : string) : bool :=
  re_test (lit "impeccable-variants-end" ⋅ (rplus rspace ⋅ (lit id ⋅ (rspace ∥ lit "--" ∥ lit "*/" ∥ REol))))%re line.
Definition hasVariantWrapperAttr (line id : string) : bool :=
  let q := RClass (fun c => Ascii.eqb c DQ || Ascii.eqb c "'") in
  re_test (lit "data-impeccable-variants" ⋅ (rstar rspace ⋅ (lit "=" ⋅ (rstar rspace ⋅
    (lit (s_dq +:+ id +:+ s_dq) ∥ lit ("'" +:+ id +:+ "'") ∥ (lit "{" ⋅ (q ⋅ (lit id ⋅ (q ⋅ lit "}")))))))))%re line.

(** [while (opener > 0 && ...) opener--]. *)
Fixpoint walk_opener (lines : list string) (id : string) (opener : nat) : nat :=
  match opener with
  | O => O
  | S above =>
    let line := line_at lines opener in
    if negb (re_test div_re line) && negb (isVariantEndMarkerLine line id) then walk_opener lines id above else opener
  end.

(** The walk back over the [n] lines above the marker. *)
Fixpoint walk_back (lines : list string) (id : string) (start n : nat) : nat :=
  match n with
  | O => start
  | S i =>
    let line := line_at lines i in
    if isVariantEndMarkerLine line id then start
    else if hasVariantWrapperAttr line id then
      let opener := walk_opener lines id i in
      if re_test div_re (line_at lines opener) then opener else start
    else walk_back lines id start i
  end.

Definition divRe : re :=
  ((lit "<div" ⋅ (RWordB ⋅ (rstar_lazy (RClass (none_of ">")) ⋅ (RGroup 1 (ropt (lit "/")) ⋅ lit ">"))))
   ∥ (lit "</div" ⋅ (rstar rspace ⋅ lit ">")))%re.

(** How a tag changes the depth. *)
Definition depth_change (m : rmatch_result) : Z :=
  if starts_with "</" (m_text m) then -1 else if String.eqb (group_or "" m 1) "/" then 0 else 1.

(** The line of [joined], whose first line is line [start], on which a match ends. *)
Definition line_of (start : nat) (joined : string) (m : rmatch_result) : nat :=
  (start + (length (split_lines (stake (m_index m + slen (m_text m)) joined)) - 1))%nat.
Fixpoint walk_forward (start end_ : nat) (joined : string) (depth : Z) (ms : list rmatch_result) : nat :=
  match ms with
  | [] => end_
  | m :: ms =>
    let depth := (depth + depth_change m)%Z in
    let candidateEnd := line_of start joined m in
    if (depth <=? 0)%Z && (end_ <=? candidateEnd)%nat then candidateEnd else walk_forward start end_ joined depth ms
  end.

Definition expandReplaceRange (id : string) (b : block) (lines : list string) (isJsx : bool) : block :=
  if negb isJsx then b else
  let start := walk_back lines id (b_start b) (b_start b) in
  let joined := join s_nl (drop start lines) in
  Block start (walk_forward start (b_end b) joined 0 (re_match_all divRe joined)).

(** ** The text of the block without its style elements *)

Definition style_open : re := (lit "<style" ⋅ RWordB)%re.
Definition style_closed_re : re :=
  (lit "<style" ⋅ (RWordB ⋅ (not_gt ⋅ (lit ">" ⋅ (rstar_lazy rany ⋅ (lit "</style" ⋅ (rstar rspace ⋅ lit ">")))))))%re.
Definition style_self_re : re := (lit "<style" ⋅ (RWordB ⋅ (not_gt ⋅ (lit "/" ⋅ (rstar rspace ⋅ lit ">")))))%re.
Definition style_close_re : re := (lit "</style" ⋅ (rstar rspace ⋅ lit ">"))%re.

(** Style elements that begin and end on the line. *)
Definition strip_line (line : string) : string :=
  re_replace_all style_self_re (fun _ => "") (re_replace_all style_closed_re (fun _ => "") line).

Fixpoint strip_styles (inStyle : bool) (lines : list string) : list string :=
  match lines with
  | [] => []
  | line :: lines =>
    if negb inStyle then
      let line := strip_line line in
      match re_exec style_open line with
      | Some m => stake (m_index m) line :: strip_styles true lines
      | None => line :: strip_styles false lines
      end
    else
      match re_exec style_close_re line with
      | Some m => re_replace style_close_re (fun _ => "") (sdrop (m_index m) line) :: strip_styles false lines
      | None => strip_styles true lines
      end
  end.

Definition block_lines (b : block) (lines : list string) : list string :=
  take (S (b_end b) - b_start b) (drop (b_start b) lines).
Definition stripStyleAndJoin (lines : list string) (b : block) : string := join s_nl (strip_styles false (block_lines b lines)).

(** ** What the block holds *)

Definition is_alnum (c : ascii) : bool := is_alpha c || is_digit c.
Definition openerRe (attrMatch : string) : re :=
  (lit "<" ⋅ (RGroup 1 (RClass is_alpha ⋅ rstar (RClass is_alnum)) ⋅ (RWordB ⋅ (not_gt ⋅ (lit attrMatch ⋅ (not_gt ⋅ lit ">"))))))%re.
Definition tagRe (tagName : string) : re := (lit "<" ⋅ (ropt (lit "/") ⋅ (lit tagName ⋅ (RWordB ⋅ (not_gt ⋅ lit ">")))))%re.
Definition self_closing (tag : string) : bool := re_test (lit "/" ⋅ (rstar rspace ⋅ (lit ">" ⋅ REol)))%re tag.

(** The tags after the opener: the index at which the element closes. *)
Fixpoint closing_index (depth : nat) (ms : list rmatch_result) : option nat :=
  match ms with
  | [] => None
  | m :: ms =>
    if starts_with "</" (m_text m)
    then match depth with O | S O => Some (m_index m) | S depth => closing_index depth ms end
    else closing_index (if self_closing (m_text m) then depth else S depth) ms
  end.

Definition extractInnerByAttr (text attrMatch : string) : option string :=
  openMatch ← re_exec (openerRe attrMatch) text;
  let tagName := group_or "" openMatch 1 in
  let innerStart := (m_index openMatch + slen (m_text openMatch))%nat in
  let rest := m_after openMatch in
  close ← closing_index 1 (match_all_from (S (slen rest)) (tagRe tagName) (m_prev openMatch) innerStart rest);
  Some (stake (close - innerStart) rest).

Definition variant_attr (v : string) : string := "data-impeccable-variant=" +:+ s_dq +:+ v +:+ s_dq.

Definition extractOriginal (lines : list string) (b : block) : list string :=
  match extractInnerByAttr (stripStyleAndJoin lines b) (variant_attr "original") with
  | None => []
  | Some inner => split_lines inner
  end.

Definition blank (line : string) : bool := String.eqb (trim line) "".

(** [while (result.length > 1 && result[0].trim() === '') result.shift()]. *)
Fixpoint shift_blank (result : list string) : list string :=
  match result with
  | l :: ((_ :: _) as result') => if blank l then shift_blank result' else result
  | _ => result
  end.
Definition extractVariant (lines : list string) (b : block) (variantNum : string) : option (list string) :=
  inner ← extractInnerByAttr (stripStyleAndJoin lines b) (variant_attr variantNum);
  Some (reverse (shift_blank (reverse (shift_blank (split_lines inner))))).

(** [while (out.length > 0 && out[0].trim() === '') out.shift()]. *)
Fixpoint drop_blank (out : list string) : list string :=
  match out with [] => [] | l :: out' => if blank l then drop_blank out' else out end.

Definition cut_first (first : string) : string :=
  match index_of "{`" first with Some idx => stake idx first +:+ sdrop (idx + 2) first | None => first end.
Definition cut_last (text : string) : string :=
  match last_index_of "`}" text with Some idx => stake idx text +:+ sdrop (idx + 2) text | None => text end.

(** The wrap before the first line of CSS, and the one after the last (on the reversed list). *)
Definition strip_leading (out : list string) : list string :=
  match out with
  | [] => []
  | first :: out' =>
    let firstTrim := trim_start first in
    if String.eqb firstTrim "{`" then out'
    else if starts_with "{`" firstTrim then (let first' := cut_first first in if blank first' then out' else first' :: out')
    else out
  end.
Definition strip_trailing (rev_out : list string) : list string :=
  match rev_out with
  | [] => []
  | last :: out' =>
    let lastTrim := trim_end last in
    if String.eqb lastTrim "`}" then out'
    else if ends_with "`}" lastTrim then (let last' := cut_last last in if blank last' then out' else last' :: out')
    else rev_out
  end.
Definition stripJsxTemplateLines (content : list string) : option (list string) :=
  let out := reverse (drop_blank (reverse (drop_blank content))) in
  match reverse (strip_trailing (reverse (strip_leading out))) with [] => None | out => Some out end.
Definition stripJsxTemplateWrap (text : string) : string :=
  match stripJsxTemplateLines (split_lines text) with Some lines => join s_nl lines | None => "" end.

Definition same_line_re : re :=
  (lit "<style" ⋅ (RWordB ⋅ (not_gt ⋅ (lit ">" ⋅ (RGroup 1 (rstar_lazy rany) ⋅ (lit "</style" ⋅ (rstar rspace ⋅ lit ">")))))))%re.

(** The lines of the style body, up to the one that closes it. *)
Fixpoint css_body (lines : list string) : list string :=
  match lines with
  | [] => []
  | line :: lines => if includes "</style>" line then [] else line :: css_body lines
  end.
Fixpoint find_css (styleAttr : string) (lines : list string) : option (list string) :=
  match lines with
  | [] => None
  | line :: lines =>
    if includes styleAttr line then
      if re_test style_self_re line then None else
      match re_exec same_line_re line with
      | Some m => let inner := stripJsxTemplateWrap (group_or "" m 1) in
                  if String.eqb inner "" then None else Some (split_lines inner)
      | None => match css_body lines with [] => None | content => stripJsxTemplateLines content end
      end
    else find_css styleAttr lines
  end.
Definition css_attr (id : string) : string := "data-impeccable-css=" +:+ s_dq +:+ id +:+ s_dq.
Definition extractCss (lines : list string) (b : block) (id : string) : option (list string) := find_css (css_attr id) (block_lines b lines).

(** ** Indentation *)

(** The white space a line begins with, and its length. *)
Definition leading_ws (line : string) : nat := (slen line - slen (trim_start line))%nat.
Definition indent_of (line : string) : string := stake (leading_ws line) line.

Definition min_indent (lines : list string) : nat :=
  match leading_ws <$> bfilter (fun l => negb (blank l)) lines with [] => O | n :: ns => foldl Nat.min n ns end.

Definition deindentContent (contentLines : list string) (baseIndent : string) : list string :=
  let minIndent := min_indent contentLines in
  (fun line => if blank line then "" else baseIndent +:+ sdrop minIndent line) <$> contentLines.

Definition reindentContent (contentLines : list string) (fromIndent toIndent : string) : list string :=
  (fun line => if blank line then ""
               else if starts_with fromIndent line then toIndent +:+ sdrop (slen fromIndent) line
               else toIndent +:+ trim_start line) <$> contentLines.

Record comment_syntax := CommentSyntax { cs_open : string; cs_close : string }.
Definition html_comments : comment_syntax := CommentSyntax "<!--" "-->".
Definition jsx_comments : comment_syntax := CommentSyntax "{/*" "*/}".
Definition detectCommentSyntax (filePath : string) : comment_syntax :=
  let ext := to_lower (extname filePath) in
  if String.eqb ext ".jsx" || String.eqb ext ".tsx" then jsx_comments else html_comments.
Definition is_jsx (c : comment_syntax) : bool := String.eqb (cs_open c) "{/*".

Definition comment_line (c : comment_syntax) (text : string) : string := cs_open c +:+ " " +:+ text +:+ " " +:+ cs_close c.

(** ** Discarding and accepting *)

(** The lines of [b] replaced. *)
Definition replace_range (lines : list string) (b : block) (replacement : list string) : list string :=
  take (b_start b) lines ++ replacement ++ drop (S (b_end b)) lines.

Definition not_handled (error : string) : js := JObj [("handled", JBool false); ("error", JStr error)].

Definition discarded_lines (id : string) (lines : list string) (isJsx : bool) : option (list string) :=
  b ← findMarkerBlock id lines;
  let original := extractOriginal lines b in
  let replaceRange := expandReplaceRange id b lines isJsx in
  let indent := indent_of (line_at lines (b_start replaceRange)) in
  Some (replace_range lines replaceRange (deindentContent original indent)).

(** The style sheet, the parameter values and the variant, between their markers. *)
Definition carbonize_body (c : comment_syntax) (isJsx : bool) (id variantNum indent bodyIndent : string)
    (cssContent : list string) (paramValues : js) (restored : list string) : list string :=
  let variantStyleAttr := if isJsx then "style={{ display: 'contents' }}" else "style=" +:+ s_dq +:+ "display: contents" +:+ s_dq in
  [ bodyIndent +:+ comment_line c ("impeccable-carbonize-start " +:+ id);
    bodyIndent +:+ "<style " +:+ css_attr id +:+ ">" +:+ (if isJsx then "{`" else "") ]
  ++ ((fun cssLine => bodyIndent +:+ trim_start cssLine) <$> cssContent)
  ++ [bodyIndent +:+ (if isJsx then "`}</style>" else "</style>")]
  ++ (if truthy paramValues && (0 <? length (own_props paramValues))%nat
      then [bodyIndent +:+ comment_line c ("impeccable-param-values " +:+ id +:+ ": " +:+ json_stringify paramValues)] else [])
  ++ [ bodyIndent +:+ comment_line c ("impeccable-carbonize-end " +:+ id);
       bodyIndent +:+ "<div " +:+ variant_attr variantNum +:+ " " +:+ variantStyleAttr +:+ ">" ]
  ++ reindentContent restored indent (bodyIndent +:+ "  ")
  ++ [bodyIndent +:+ "</div>"].

Definition buildCarbonizeReplacement (indent : string) (c : comment_syntax) (isJsx : bool) (id variantNum : string)
    (cssContent : option (list string)) (paramValues : js) (restored : list string) : list string :=
  match cssContent with
  | None => restored
  | Some css =>
    if isJsx then
      [indent +:+ "<div data-impeccable-carbonize=" +:+ s_dq +:+ id +:+ s_dq +:+ " style={{ display: " +:+ s_dq +:+ "contents" +:+ s_dq +:+ " }}>"]
      ++ carbonize_body c isJsx id variantNum indent (indent +:+ "  ") css paramValues restored
      ++ [indent +:+ "</div>"]
    else carbonize_body c isJsx id variantNum indent indent css paramValues restored
  end.

Inductive accepted := NotHandled (error : string) | Accepted (content : list string) (carbonize : bool) (acceptedOriginalText : string).

Definition buildAcceptedWrappedSource (id variantNum : string) (lines : list string) (targetFile : string) (paramValues : js) : accepted :=
  match findMarkerBlock id lines with
  | None => NotHandled "Markers not found"
  | Some b =>
    let commentSyntax := detectCommentSyntax targetFile in
    let isJsx := is_jsx commentSyntax in
    let replaceRange := expandReplaceRange id b lines isJsx in
    let indent := indent_of (line_at lines (b_start replaceRange)) in
    match extractVariant lines b variantNum with
    | None => NotHandled ("Variant " +:+ variantNum +:+ " not found")
    | Some variantContent =>
      let originalContent := extractOriginal lines b in
      let cssContent := extractCss lines b id in
      let hasHelperAttrs := includes "data-impeccable-variant" (join s_nl variantContent) in
      let needsCarbonize := bool_decide (is_Some cssContent) || hasHelperAttrs in
      let restored := deindentContent variantContent indent in
      let replacement := buildCarbonizeReplacement indent commentSyntax isJsx id variantNum cssContent paramValues restored in
      Accepted (replace_range lines replaceRange replacement) needsCarbonize (join s_nl originalContent)
    end
  end.
