(* ===== verification/VariantScan.v ===== *)
(** * Scanning the block of a session

    The two scans of [div] tags and the search for the element of a variant, on well-nested markup. *)
From S2P Require Import Prelude JsString Encodings JsRegex RegexFacts Markup NodePath TagStrategy VariantBlock.
Local Open Scope nat_scope.

(** ** The tags the expressions find *)

Definition tag_kind (m : rmatch_result) : Z :=
  if starts_with "</" (m_text m) then -1 else if self_closing (m_text m) then 0 else 1.

Lemma found_of_rmatch R prev pos t r caps :
  rmatch R (MState prev (t +:+ r) pos []) Some = Some (MState (last_char prev t) r (pos + slen t) caps) ->
  match_at R prev pos (t +:+ r) = Some (RMatch pos t caps (last_char prev t) r).
Proof. intros H. unfold match_at. rewrite H. cbn [ms_pos ms_caps ms_prev ms_rest]. rewrite Nat.add_comm, Nat.add_sub. by rewrite stake_app. Qed.

Lemma not_gt_stop s : starts_in (none_of ">") (">" +:+ s) = false.
Proof. done. Qed.
Lemma no_gt_class a : no_char ">" a = true -> sforall (none_of ">") a = true.
Proof.
  apply sforall_impl. intros c. unfold none_of, one_of. cbn [list_ascii_of_string existsb]. rewrite orb_false_r. done.
Qed.

Lemma boundary_if st (o : option mstate) : at_word (ms_prev st) = true -> starts_in is_word (ms_rest st) = false ->
  (if xorb (at_word (ms_prev st)) (at_word (next_char st)) then o else None) = o.
Proof. intros H1 H2. rewrite H1. unfold next_char. destruct (ms_rest st) as [|c s]; [done|]. cbn [starts_in] in H2. cbn [at_word]. by rewrite H2. Qed.
Lemma rmatch_boundary st k : at_word (ms_prev st) = true -> starts_in is_word (ms_rest st) = false -> rmatch RWordB st k = k st.
Proof. apply boundary_if. Qed.
Lemma boundary_app p a c s : starts_in p a = false -> p c = false -> starts_in p (a +:+ String c s) = false.
Proof. by destruct a. Qed.

(** [<div ...>] and [</div ...>] under tagRe. *)
Lemma tagRe_at slash a r prev pos : slash = "" \/ slash = "/" -> no_char ">" a = true -> starts_in is_word a = false ->
  let t := "<" +:+ slash +:+ "div" +:+ a +:+ ">" in
  match_at (tagRe "div") prev pos (t +:+ r) = Some (RMatch pos t [] (last_char prev t) r).
Proof.
  intros Hs Ha Hw t. apply found_of_rmatch. unfold tagRe.
  set (st0 := MState prev (t +:+ r) pos []).
  assert (rmatch (lit "<" ⋅ (ropt (lit "/") ⋅ (lit "div" ⋅ (RWordB ⋅ (not_gt ⋅ lit ">")))))%re st0 Some = Some (advance t r st0)) as E.
  { assert (ms_rest st0 = "<" +:+ slash +:+ "div" +:+ a +:+ ">" +:+ r) as E0 by (subst t st0; cbn [ms_rest]; by rewrite !sapp_assoc).
    cbn [rmatch]. rewrite (rmatch_lit_app "<" _ _ _ E0).
    assert (forall st, ms_rest st = "div" +:+ a +:+ ">" +:+ r ->
      rmatch (lit "div") st (fun st1 => rmatch RWordB st1 (fun st2 => rmatch (not_gt ⋅ lit ">")%re st2 Some)) = Some (advance ("div" +:+ a +:+ ">") r st)) as Htail.
    { intros st E1. rewrite (rmatch_lit_app "div" _ _ _ E1). rewrite rmatch_boundary; [|done|by apply boundary_app].
      cbn [rmatch]. apply (star_class _ a (">" +:+ r)); [done|by apply no_gt_class|done|].
      erewrite rmatch_lit_app by done. by rewrite !advance_app. }
    destruct Hs as [-> | ->].
    - apply ropt_lit_skip; [done|]. etransitivity; [by apply Htail|]. by rewrite advance_app.
    - apply (ropt_lit_take "/" ("div" +:+ a +:+ ">" +:+ r)); [done|done|]. etransitivity; [by apply Htail|]. by rewrite !advance_app. }
  exact E.
Qed.

(** A run of characters of a class is determined by the text. *)
Lemma run_unique p a b r z : sforall p a = true -> sforall p b = true -> starts_in p r = false -> starts_in p z = false ->
  a +:+ r = b +:+ z -> a = b.
Proof.
  revert b; induction a as [|c a IH]; intros [|d b] Ha Hb Hr Hz E; cbn [append sforall] in *; [done| | |].
  - subst r. cbn [starts_in] in Hr. by rewrite Hr in Hb.
  - subst z. cbn [starts_in] in Hz. by rewrite Hz in Ha.
  - apply andb_true_iff in Ha as [_ Ha], Hb as [_ Hb]. injection E as -> E. by rewrite (IH b).
Qed.

Lemma not_this_name slash name c s sl y : slash = "" \/ slash = "/" -> sforall is_word name = true -> name <> "div" ->
  is_word c = false -> name <> "" \/ c <> "/"%char -> sforall (Ascii.eqb "/") sl = true -> starts_in is_word y = false ->
  slash +:+ name +:+ String c s <> sl +:+ "div" +:+ y.
Proof.
  intros Hs Hn Hd Hc Hnc Hsl Hy.
  assert (forall sl, sforall (Ascii.eqb "/") sl = true -> name +:+ String c s <> sl +:+ "div" +:+ y) as Hplain.
  { intros [|d sl'] Hsl' E.
    - apply Hd. apply (run_unique is_word name "div" (String c s) y); done.
    - cbn [sforall] in Hsl'. apply andb_true_iff in Hsl' as [<-%Ascii.eqb_eq _]. destruct name as [|e name]; cbn [append] in E; injection E as E _.
      + by destruct Hnc.
      + subst e. by cbn in Hn. }
  destruct Hs as [-> | ->]; [by apply Hplain|]. destruct sl as [|d sl]; [done|]. cbn [sforall] in Hsl. apply andb_true_iff in Hsl as [_ Hsl].
  cbn [append]. intros [= _ E]. by apply (Hplain sl Hsl).
Qed.

Lemma slashes_read l : Forall (can_read (lit "/")) l -> sforall (Ascii.eqb "/") (foldr append "" l) = true.
Proof. induction 1 as [|w l ->%can_read_lit _ IH]; [done|]. by cbn. Qed.

Lemma boundary_read st (o : option mstate) x : (if xorb (at_word (ms_prev st)) (at_word (next_char st)) then o else None) = Some x -> at_word (ms_prev st) = true -> starts_in is_word (ms_rest st) = false.
Proof. intros H Hp. rewrite Hp in H. unfold next_char in H. destruct (ms_rest st) as [|c s]; [done|]. cbn [at_word starts_in] in *. by destruct (is_word c). Qed.

Lemma tagRe_other slash name c s prev pos : slash = "" \/ slash = "/" -> sforall is_word name = true -> name <> "div" ->
  is_word c = false -> name <> "" \/ c <> "/"%char -> match_at (tagRe "div") prev pos ("<" +:+ slash +:+ name +:+ String c s) = None.
Proof.
  intros Hs Hn Hd Hc Hnc. unfold match_at. destruct (rmatch _ _ _) as [x|] eqn:E; [exfalso|done].
  unfold tagRe in E. cbn [rmatch] in E. rewrite (rmatch_lit_app "<" (slash +:+ name +:+ String c s)) in E by done.
  apply (rmatch_groupless (ropt (lit "/"))) in E as (sl & r1 & E1 & (l & -> & Hl) & E); [|done].
  apply (rmatch_groupless (lit "div")) in E as (w & r2 & E2 & ->%can_read_lit & E); [|done].
  apply boundary_read in E; [|done]. cbn [advance ms_rest] in *. subst r1.
  by eapply not_this_name in E1; [|done..|by apply slashes_read|done].
Qed.

(** ** Self-closing tags *)

Lemma self_closing_void a : self_closing ("<div" +:+ a +:+ "/>") = true.
Proof.
  unfold self_closing, re_test, re_exec. rewrite <- sapp_assoc.
  edestruct (search_later (lit "/" ⋅ (rstar rspace ⋅ (lit ">" ⋅ REol)))%re ("<div" +:+ a) "/>" None 0) as [m Hm]; [|by rewrite Hm].
  eexists. unfold match_at. cbn. reflexivity.
Qed.

Lemma first_char_split f s : no_char f s = true \/ exists a b, s = a +:+ String f b /\ no_char f a = true.
Proof.
  induction s as [|c s IH]; [by left|]. destruct (Ascii.eqb_spec c f) as [->|Hne]; [right; by exists "", s|].
  destruct IH as [IH|(a & b & -> & Ha)].
  - left. unfold no_char in *. cbn [sforall]. rewrite IH. by apply Ascii.eqb_neq in Hne as ->.
  - right. exists (String c a), b. split; [done|]. unfold no_char in *. cbn [sforall]. rewrite Ha. by apply Ascii.eqb_neq in Hne as ->.
Qed.

Lemma self_closing_open a : no_char ">" a = true -> (forall x y, sforall is_space y = true -> a <> x +:+ "/" +:+ y) ->
  self_closing ("<div" +:+ a +:+ ">") = false.
Proof.
  intros Ha Hno. unfold self_closing, re_test. destruct (re_exec _ _) as [m|] eqn:E; [exfalso|done].
  apply exec_sound in E as (u & E & (s1 & s2 & Em & ->%can_read_lit & (w & s3 & -> & Hw%can_read_rep_class & (s4 & s5 & -> & ->%can_read_lit & ->))) & _).
  rewrite Em, !sapp_assoc in E. cbn [append] in E.
  assert (no_char ">" u = true) as Hu.
  { destruct (first_char_split ">" u) as [|(u1 & u2 & -> & Hu1)]; [done|exfalso]. rewrite sapp_assoc in E.
    change (String "<" (String "d" (String "i" (String "v" (a +:+ ">"))))) with (("<div" +:+ a) +:+ String ">" "") in E.
    change (String ">" u2 +:+ ?z) with (String ">" (u2 +:+ z)) in E. apply first_char_unique in E as [_ E]; [|done|done]. by destruct u2. }
  change (String "<" (String "d" (String "i" (String "v" (a +:+ ">"))))) with (("<div" +:+ a) +:+ String ">" "") in E.
  replace (u +:+ String "/" (w +:+ String ">" (m_after m))) with ((u +:+ "/" +:+ w) +:+ String ">" (m_after m)) in E by (by rewrite !sapp_assoc).
  apply first_char_unique in E as [E _]; [|done|].
  - destruct (before_char "/" "<div" a u w eq_refl E) as [d ->]. rewrite sapp_assoc in E. apply (Hno d w Hw). by injection E.
  - unfold no_char in *. rewrite !sforall_app, Hu. cbn. apply (sforall_impl is_space); [|done]. intros c Hc. by destruct (Ascii.eqb_spec c ">") as [->|].
Qed.

Lemma tagRe_scans : scans (tagRe "div") tag_kind.
Proof.
  assert (forall w, sforall is_space w = true -> no_char ">" w = true /\ starts_in is_word w = false) as Hsp.
  { intros w Hw. split.
    - apply (sforall_impl is_space); [|done]. intros c Hc. by destruct (Ascii.eqb_spec c ">") as [->|].
    - destruct w as [|c w]; [done|]. cbn in *. apply andb_true_iff in Hw as [Hc _]. by destruct c as [[] [] [] [] [] [] [] []]. }
  constructor.
  - intros a Ha Hw Hno r prev pos. eexists. split; [apply (tagRe_at "" a); [by left|done|done]|]. cbn [m_text m_after m_prev]. split_and!; [done..|].
    unfold tag_kind. cbn [m_text]. assert (self_closing ("<" +:+ "" +:+ "div" +:+ a +:+ ">") = false) as -> by (by apply (self_closing_open a)). done.
  - intros a Ha Hw r prev pos. assert (no_char ">" (a +:+ "/") = true) as Ha' by (unfold no_char in *; by rewrite sforall_app, Ha).
    eexists. replace ("<div" +:+ a +:+ "/>") with ("<" +:+ "" +:+ "div" +:+ (a +:+ "/") +:+ ">") by (cbn [append]; by rewrite sapp_assoc).
    split; [by apply (tagRe_at "" (a +:+ "/")); [left| |by apply boundary_app]|]. cbn [m_text m_after m_prev]. split_and!; [done..|].
    unfold tag_kind. cbn [m_text]. replace ("<" +:+ "" +:+ "div" +:+ (a +:+ "/") +:+ ">") with ("<div" +:+ a +:+ "/>") by (cbn [append]; by rewrite sapp_assoc).
    by rewrite self_closing_void.
  - intros w Hw r prev pos. destruct (Hsp w Hw) as [H1 H2]. eexists. split; [apply (tagRe_at "/" w); [by right|done|done]|]. by split_and!.
  - intros c s prev pos Hc. apply match_lit_prefix. cbn [starts_with]. by apply Ascii.eqb_neq in Hc; rewrite Ascii.eqb_sym, Hc.
  - intros. by apply tagRe_other.
Qed.

(** ** The tags under the expression of expandReplaceRange *)

Lemma ropt_lit_read p st k x : rmatch (ropt (lit p)) st k = Some x ->
  k st = Some x \/ exists r, ms_rest st = p +:+ r /\ k (advance p r st) = Some x.
Proof.
  unfold ropt. cbn [rmatch Nat.add]. rewrite lit_groups. cbn [rep_loop]. rewrite clear_no_caps.
  destruct (rmatch (lit p) st _) as [y|] eqn:E; [|by left]. intros [= ->]. right.
  rewrite rmatch_lit in E. destruct (starts_with p (ms_rest st)) eqn:Hp; [|done].
  apply starts_with_iff in Hp as [r Hr]. rewrite Hr, sdrop_app in E. exists r. split; [done|].
  destruct (_ && _) in E; [done|]. by destruct (slen (p +:+ r)).
Qed.

(** What follows the lazy gap of an opening tag. *)
Definition tag_end (st : mstate) : option mstate := rmatch (RGroup 1 (ropt (lit "/")) ⋅ lit ">")%re st Some.

Lemma tag_end_read st x : tag_end st = Some x -> exists r, ms_rest st = ">" +:+ r \/ ms_rest st = "/>" +:+ r.
Proof.
  unfold tag_end. cbn [rmatch]. intros [H|(r & Er & H)]%ropt_lit_read; rewrite rmatch_lit in H.
  - cbn [ms_rest] in H. destruct (starts_with ">" (ms_rest st)) eqn:E; [|done]. apply starts_with_iff in E as [r ->]. exists r. by left.
  - cbn [ms_rest advance] in H. destruct (starts_with ">" r) eqn:E; [|done]. apply starts_with_iff in E as [r' ->]. exists r'. by right.
Qed.

Lemma tag_end_early a b tail r st : no_char ">" b = true -> b <> "" -> tail = "" \/ tail = "/" ->
  (tail = "" -> forall x y, sforall is_space y = true -> a +:+ b <> x +:+ "/" +:+ y) -> ms_rest st = b +:+ tail +:+ ">" +:+ r -> tag_end st = None.
Proof.
  intros Hb Hne Ht Hno Er. destruct (tag_end st) as [x|] eqn:E; [exfalso|done]. apply tag_end_read in E as (r' & H).
  rewrite Er in H. destruct b as [|c b]; [done|]. cbn [append] in H. unfold no_char in Hb. cbn [sforall] in Hb. apply andb_true_iff in Hb as [Hc Hb].
  destruct H as [H|H]; injection H as -> H; [done|]. destruct b as [|d b].
  - destruct Ht as [-> | ->]; [|done]. by apply (Hno eq_refl a "").
  - cbn [append] in H. injection H as -> _. cbn [sforall] in Hb. by apply andb_true_iff in Hb as [? _].
Qed.

Lemma divRe_open a tail r prev pos : no_char ">" a = true -> starts_in is_word a = false -> tail = "" \/ tail = "/" ->
  (tail = "" -> forall x y, sforall is_space y = true -> a <> x +:+ "/" +:+ y) ->
  let t := "<div" +:+ a +:+ tail +:+ ">" in
  match_at divRe prev pos (t +:+ r) = Some (RMatch pos t [(1, tail)] (last_char prev t) r).
Proof.
  intros Ha Hw Ht Hno t. apply found_of_rmatch. set (st0 := MState prev (t +:+ r) pos []).
  assert (ms_rest st0 = "<div" +:+ a +:+ tail +:+ ">" +:+ r) as E0 by (subst t st0; cbn [ms_rest]; by rewrite !sapp_assoc).
  assert (rmatch (lit "<div" ⋅ (RWordB ⋅ (rstar_lazy (RClass (none_of ">")) ⋅ (RGroup 1 (ropt (lit "/")) ⋅ lit ">"))))%re st0 Some
          = Some (MState (last_char prev t) r (pos + slen t) [(1, tail)])) as E.
  { cbn [rmatch]. rewrite (rmatch_lit_app "<div" _ _ _ E0). rewrite boundary_if; [|done|].
    2:{ cbn [ms_rest advance]. destruct a; [by destruct Ht as [-> | ->]|done]. }
    apply (lazy_class_gap _ a (tail +:+ ">" +:+ r)); [done|by apply no_gt_class| |].
    - intros b d E Hd. subst a. apply (tag_end_early b d tail r); [|done|done| |done].
      + unfold no_char in *. rewrite sforall_app in Ha. by apply andb_true_iff in Ha as [_ ?].
      + intros Et. by apply Hno.
    - set (st1 := advance a _ _).
      assert (forall st, ms_caps st = [] -> ms_rest st = tail +:+ ">" +:+ r ->
        tag_end st = Some (MState (last_char (ms_prev st) (tail +:+ ">")) r (ms_pos st + slen (tail +:+ ">")) [(1, tail)])) as Hend.
      { intros [pv rs ps cs] Hcs Hrs. cbn [ms_rest ms_caps] in *. subst cs rs. destruct Ht as [-> | ->]; unfold tag_end; cbn [rmatch].
        - apply ropt_lit_skip; [done|]. cbn [ms_rest ms_pos ms_caps ms_prev]. rewrite Nat.sub_diag. rewrite (rmatch_lit_app ">" r) by done.
          by cbn.
        - apply (ropt_lit_take "/" (">" +:+ r)); [done|done|]. cbn [ms_rest ms_pos ms_caps ms_prev advance]. rewrite Nat.add_comm, Nat.add_sub.
          rewrite (rmatch_lit_app ">" r) by done. cbn. f_equal. unfold advance. cbn. f_equal. lia. }
      etransitivity; [by apply (Hend st1)|]. subst st1 st0. cbn [advance ms_prev ms_pos ms_caps]. do 2 f_equal.
      + subst t. by rewrite !last_char_app.
      + subst t. rewrite !slen_app. lia. }
  unfold divRe. cbn [rmatch] in *. by rewrite E.
Qed.

Lemma divRe_close w r prev pos : sforall is_space w = true ->
  let t := "</div" +:+ w +:+ ">" in
  match_at divRe prev pos (t +:+ r) = Some (RMatch pos t [] (last_char prev t) r).
Proof.
  intros Hw t. apply found_of_rmatch. set (st0 := MState prev (t +:+ r) pos []).
  assert (ms_rest st0 = "</div" +:+ w +:+ ">" +:+ r) as E0 by (subst t st0; cbn [ms_rest]; by rewrite !sapp_assoc).
  unfold divRe. cbn [rmatch]. rewrite rmatch_lit, E0. cbn [starts_with append]. cbn [Ascii.eqb Bool.eqb andb].
  rewrite (rmatch_lit_app "</div" (w +:+ ">" +:+ r)) by done. apply (star_class _ w (">" +:+ r)); [done|done|done|].
  rewrite (rmatch_lit_app ">" r) by done. by rewrite !advance_app.
Qed.

Lemma divRe_other slash name c s prev pos : slash = "" \/ slash = "/" -> sforall is_word name = true -> name <> "div" ->
  is_word c = false -> name <> "" \/ c <> "/"%char -> match_at divRe prev pos ("<" +:+ slash +:+ name +:+ String c s) = None.
Proof.
  intros Hs Hn Hd Hc Hnc. unfold match_at. destruct (rmatch _ _ _) as [x|] eqn:E; [exfalso|done].
  unfold divRe in E. cbn [rmatch] in E. rewrite !rmatch_lit in E. cbn [ms_rest] in E.
  assert (forall sl y, sforall (Ascii.eqb "/") sl = true -> starts_in is_word y = false -> "<" +:+ slash +:+ name +:+ String c s <> "<" +:+ sl +:+ "div" +:+ y) as Hno.
  { intros sl y Hsl Hy [= E0]. by eapply not_this_name in E0. }
  destruct (if starts_with "<div" _ then _ else None) as [x'|] eqn:E1.
  - clear E. destruct (starts_with "<div" _) eqn:Es; [|done]. apply starts_with_iff in Es as [y Ey]. rewrite Ey in E1.
    change (sdrop (slen "<div") ("<div" +:+ y)) with y in E1. apply boundary_read in E1; [|done]. cbn [ms_rest advance] in E1. by apply (Hno "" y).
  - clear E1. destruct (starts_with "</div" _) eqn:Es; [|done]. apply starts_with_iff in Es as [y Ey]. rewrite Ey in E.
    change (sdrop (slen "</div") ("</div" +:+ y)) with y in E. apply (Hno "/" y); [done| |done].
    apply (rmatch_groupless (rstar rspace)) in E as (w & r2 & E2 & Hw%can_read_rep_class & E); [|done]. cbn [ms_rest advance] in E2. subst y.
    rewrite rmatch_lit in E. cbn [ms_rest advance] in E. destruct (starts_with ">" r2) eqn:Er; [|done]. apply starts_with_iff in Er as [r3 ->].
    destruct w as [|d w]; [done|]. cbn [append starts_in]. cbn [sforall] in Hw. apply andb_true_iff in Hw as [Hd' _].
    by destruct d as [[] [] [] [] [] [] [] []].
Qed.

Lemma divRe_scans : scans divRe depth_change.
Proof.
  constructor.
  - intros a Ha Hw Hno r prev pos. eexists. split; [by apply (divRe_open a "" r prev pos Ha Hw (or_introl eq_refl))|]. by split_and!.
  - intros a Ha Hw r prev pos. eexists. split; [by apply (divRe_open a "/" r prev pos Ha Hw (or_intror eq_refl))|]. by split_and!.
  - intros w Hw r prev pos. eexists. split; [by apply (divRe_close w r prev pos)|]. by split_and!.
  - intros c s prev pos Hc. unfold match_at, divRe. cbn [rmatch]. rewrite !rmatch_lit. cbn [ms_rest starts_with].
    by apply Ascii.eqb_neq in Hc; rewrite Ascii.eqb_sym, Hc.
  - intros. by apply divRe_other.
Qed.

(** ** The depth over balanced tags *)

Lemma closing_balanced l : balanced l -> forall ms tail d, tag_kind <$> ms = l -> closing_index (S d) (ms ++ tail) = closing_index (S d) tail.
Proof.
  induction 1 as [|l _ IH|l1 l2 _ IH1 _ IH2]; intros ms tail d E.
  - by destruct ms.
  - destruct ms as [|m ms]; [done|]. cbn in E. injection E as Ek E. cbn [app closing_index]. unfold tag_kind in Ek.
    destruct (starts_with "</" (m_text m)), (self_closing (m_text m)); try done. by apply IH.
  - destruct ms as [|m ms]; [done|]. cbn in E. injection E as Ek E. cbn [app closing_index].
    apply fmap_app_inv in E as (ms1 & ms2 & E1 & E2 & ->). destruct ms2 as [|m2 ms2]; [done|]. cbn in E2. injection E2 as Ek2 E2.
    unfold tag_kind in Ek, Ek2. destruct (starts_with "</" (m_text m)), (self_closing (m_text m)); try done.
    rewrite <- app_assoc. cbn [app]. rewrite IH1 by done. cbn [closing_index].
    destruct (starts_with "</" (m_text m2)); [|by destruct (self_closing (m_text m2))]. by apply IH2.
Qed.

Lemma forward_balanced l : balanced l -> forall ms tail start end_ joined d, depth_change <$> ms = l -> (1 <= d)%Z ->
  walk_forward start end_ joined d (ms ++ tail) = walk_forward start end_ joined d tail.
Proof.
  induction 1 as [|l _ IH|l1 l2 _ IH1 _ IH2]; intros ms tail start end_ joined d E Hd.
  - by destruct ms.
  - destruct ms as [|m ms]; [done|]. cbn in E. injection E as Ek E. cbn [app walk_forward]. rewrite Ek, Z.add_0_r.
    assert ((d <=? 0)%Z = false) as -> by lia. by apply IH.
  - destruct ms as [|m ms]; [done|]. cbn in E. injection E as Ek E. cbn [app walk_forward]. rewrite Ek.
    apply fmap_app_inv in E as (ms1 & ms2 & E1 & E2 & ->). destruct ms2 as [|m2 ms2]; [done|]. cbn in E2. injection E2 as Ek2 E2.
    assert ((d + 1 <=? 0)%Z = false) as -> by lia. rewrite <- app_assoc. cbn [app andb]. rewrite IH1 by (done || lia). cbn [walk_forward]. rewrite <- Ek2.
    replace (d + 1 + -1)%Z with d by lia. assert ((d <=? 0)%Z = false) as -> by lia. cbn [andb]. by apply IH2.
Qed.

(** ** The element of a variant *)

Definition attr_tail (attr : string) : re := (not_gt ⋅ (lit attr ⋅ (not_gt ⋅ lit ">")))%re.

Lemma simple_lit p : simple (lit p) = true.
Proof. by induction p. Qed.
Lemma groupless_lit p : groupless (lit p) = true.
Proof. by induction p. Qed.
Lemma lang_lit p : lang (lit p) p.
Proof. induction p as [|c p IH]; [constructor|]. change (String c p) with (String c "" +:+ p). constructor; [|done]. constructor. by apply Ascii.eqb_refl. Qed.
Lemma lang_star p w : sforall p w = true -> lang (rstar (RClass p)) w.
Proof.
  induction w as [|c w IH]; [constructor|]. cbn [sforall]. intros [Hc Hw]%andb_true_iff. change (String c w) with (String c "" +:+ w).
  unfold rstar. apply (lang_rep_cons true None); [done|by constructor|]. by apply IH.
Qed.
Lemma class_no_gt w : sforall (none_of ">") w = true -> no_char ">" w = true.
Proof. apply sforall_impl. intros c. unfold none_of, one_of. cbn [list_ascii_of_string existsb]. by rewrite orb_false_r. Qed.

Lemma attr_tail_reads attr n1 n2 r st : no_char ">" attr = true -> no_char ">" n1 = true -> no_char ">" n2 = true ->
  ms_rest st = n1 +:+ attr +:+ n2 +:+ ">" +:+ r -> rmatch (attr_tail attr) st Some = Some (advance (n1 +:+ attr +:+ n2 +:+ ">") r st).
Proof.
  intros Hat H1 H2 E. assert (is_Some (rmatch (attr_tail attr) st Some)) as [x Hx].
  { apply rmatch_lang; [unfold attr_tail; cbn; by rewrite simple_lit|]. exists (n1 +:+ attr +:+ n2 +:+ ">"), r. split_and!; [by rewrite !sapp_assoc| |by eexists].
    unfold attr_tail. constructor; [by apply lang_star, no_gt_class|]. constructor; [by apply lang_lit|]. constructor; [by apply lang_star, no_gt_class|by apply lang_lit]. }
  apply rmatch_groupless in Hx as Hx2; [|unfold attr_tail; cbn; by rewrite groupless_lit].
  destruct Hx2 as (s & rest & E2 & (m1 & s1 & -> & Hm1 & (s2 & s3 & -> & ->%can_read_lit & (m2 & s4 & -> & Hm2 & ->%can_read_lit))) & Hk).
  apply can_read_rep_class, class_no_gt in Hm1, Hm2. rewrite E in E2.
  replace (n1 +:+ attr +:+ n2 +:+ ">" +:+ r) with ((n1 +:+ attr +:+ n2) +:+ String ">" r) in E2 by (by rewrite !sapp_assoc).
  replace ((m1 +:+ attr +:+ m2 +:+ ">") +:+ rest) with ((m1 +:+ attr +:+ m2) +:+ String ">" rest) in E2 by (by rewrite !sapp_assoc).
  apply first_char_unique in E2 as [E2 <-]; [|unfold no_char in *; by rewrite !sforall_app, ?H1, ?H2, ?Hat, ?Hm1, ?Hm2..].
  rewrite Hx, <- Hk. do 2 f_equal. replace (m1 +:+ attr +:+ m2 +:+ ">") with ((m1 +:+ attr +:+ m2) +:+ ">") by (by rewrite !sapp_assoc).
  rewrite <- E2. by rewrite !sapp_assoc.
Qed.

Definition div_opener (n1 attr n2 : string) : string := "<div " +:+ n1 +:+ attr +:+ n2 +:+ ">".

Lemma opener_at attr n1 n2 r prev pos : no_char ">" attr = true -> no_char ">" n1 = true -> no_char ">" n2 = true ->
  match_at (openerRe attr) prev pos (div_opener n1 attr n2 +:+ r) =
  Some (RMatch pos (div_opener n1 attr n2) [(1, "div")] (last_char prev (div_opener n1 attr n2)) r).
Proof.
  intros Hat H1 H2. apply found_of_rmatch. set (t := div_opener n1 attr n2). set (st0 := MState prev (t +:+ r) pos []).
  assert (ms_rest st0 = "<" +:+ "div" +:+ (String " " n1) +:+ attr +:+ n2 +:+ ">" +:+ r) as E0.
  { subst t st0. cbn [ms_rest]. unfold div_opener. cbn [append]. by rewrite !sapp_assoc. }
  unfold openerRe. cbn [rmatch]. rewrite (rmatch_lit_app "<" _ _ _ E0). unfold step_char. cbn [ms_rest advance append].
  change (is_alpha "d") with true. cbn iota.
  apply (star_class _ "iv" ((String " " n1) +:+ attr +:+ n2 +:+ ">" +:+ r)); [done|done|done|].
  assert (forall st, ms_prev st = Some "v"%char -> ms_rest st = String " " n1 +:+ attr +:+ n2 +:+ ">" +:+ r -> ms_pos st = pos + 4 -> ms_caps st = [(1, "div")] ->
    (if xorb (at_word (ms_prev st)) (at_word (next_char st)) then rmatch (attr_tail attr) st Some else None) =
    Some (MState (last_char prev t) r (pos + slen t) [(1, "div")])) as Hk.
  { intros st Ep Er Eq Ec. rewrite boundary_if by (by rewrite ?Ep, ?Er). rewrite (attr_tail_reads attr (String " " n1) n2 r) by done.
    unfold advance. rewrite Ep, Eq, Ec. subst t. unfold div_opener. do 2 f_equal.
    rewrite (slen_app "<div "). cbn [append String.length]. lia. }
  apply Hk; [done|done| |].
  - cbn [advance ms_pos String.length]. change (ms_pos st0) with pos. lia.
  - cbn [advance ms_pos ms_caps String.length]. change (ms_pos st0) with pos. change (ms_caps st0) with (@nil (nat * string)).
    replace (S (pos + 1) + 2 - (pos + 1)) with 3 by lia. done.
Qed.

(** ** Searching for the opener *)

(** No element that carries [attr] begins in [a]: the last tag in it is closed, and [attr] is not in what comes before. *)
Definition quiet (attr a : string) : Prop :=
  no_char "<" a = true \/ exists p q, a = p +:+ ">" +:+ q /\ includes attr p = false /\ no_char "<" q = true.

Lemma app_split (b c p q : string) : b +:+ c = p +:+ q -> (exists d, p = b +:+ d /\ c = d +:+ q) \/ exists d, b = p +:+ d /\ q = d +:+ c.
Proof.
  revert p; induction b as [|x b IH]; intros p E; [left; by exists p|]. destruct p as [|y p]; [right; by exists (String x b)|].
  cbn [append] in E. injection E as -> E. destruct (IH p E) as [(d & -> & ->)|(d & -> & ->)]; [left|right]; by exists d.
Qed.

Lemma openerRe_reads attr s : can_read (openerRe attr) s ->
  exists w n, s = "<" +:+ w +:+ attr +:+ n +:+ ">" /\ no_char ">" w = true /\ no_char ">" n = true.
Proof.
  intros (s1 & s2 & -> & ->%can_read_lit & (s3 & s4 & -> & (x1 & x2 & -> & (d & -> & Hd) & Hx2) & (s5 & s6 & -> & Hb & (n1 & s7 & -> & Hn1 & (s8 & s9 & -> & ->%can_read_lit & (n2 & s10 & -> & Hn2 & ->%can_read_lit)))))).
  apply can_read_rep_class in Hx2. apply can_read_rep_class, class_no_gt in Hn1, Hn2. cbn in Hb. subst s5.
  exists ((String d "" +:+ x2) +:+ n1), n2. split_and!; [by rewrite !sapp_assoc| |done].
  assert (forall c, is_alnum c = true -> negb (Ascii.eqb c ">") = true) as Hal.
  { intros c Hc. by destruct (Ascii.eqb_spec c ">") as [->|]. }
  unfold no_char in *. rewrite !sforall_app, Hn1. cbn [sforall]. rewrite andb_true_r, andb_true_r.
  rewrite (Hal d) by (by unfold is_alnum; rewrite Hd). by apply (sforall_impl is_alnum).
Qed.

Lemma quiet_skip attr a r prev pos : attr <> "" -> no_char ">" attr = true -> quiet attr a ->
  search_from (openerRe attr) prev pos (a +:+ r) = search_from (openerRe attr) (last_char prev a) (pos + slen a) r.
Proof.
  intros Hne Hat Hq. apply search_skip. intros b c Ea Hc. destruct (match_at _ _ _ _) as [m|] eqn:E; [exfalso|done].
  apply match_at_sound in E as (E & (w & n & Em & Hw & Hn)%openerRe_reads & _). rewrite Em, !sapp_assoc in E.
  destruct c as [|c0 c]; [done|]. cbn [append] in E. injection E as -> E.
  destruct Hq as [Hq|(p & q & -> & Hp & Hq)].
  { subst a. unfold no_char in Hq. rewrite sforall_app in Hq. cbn [sforall] in Hq. by rewrite Ascii.eqb_refl, andb_false_r in Hq. }
  symmetry in Ea. apply app_split in Ea as [(d & -> & Ec)|(d & Ed & Ec)].
  2:{ destruct d as [|d0 d]; [done|]. cbn [append] in Ec. injection Ec as _ ->. unfold no_char in Hq. rewrite sforall_app in Hq. cbn [sforall] in Hq.
      by rewrite Ascii.eqb_refl, andb_false_r in Hq. }
  destruct d as [|d0 d]; [done|]. cbn [append] in Ec. injection Ec as <- ->.
  assert (no_char ">" (w +:+ attr +:+ n) = true) as Hno by (unfold no_char in *; by rewrite !sforall_app, Hw, Hat, Hn).
  assert ((d +:+ String ">" (q +:+ r)) = (w +:+ attr +:+ n) +:+ String ">" (m_after m)) as E'.
  { rewrite !sapp_assoc. rewrite !sapp_assoc in E. exact E. }
  assert (exists d', d = (w +:+ attr +:+ n) +:+ d') as [d' ->].
  { destruct (first_char_split ">" d) as [Hd|(d1 & d2 & -> & Hd)].
    - apply first_char_unique in E' as [<- _]; [|done|done]. exists "". by rewrite sapp_nil_r.
    - rewrite sapp_assoc in E'. cbn [append] in E'. apply first_char_unique in E' as [<- _]; [|done|done]. by eexists. }
  assert (includes attr (b +:+ String "<" ((w +:+ attr +:+ n) +:+ d')) = true) as Ht; [|by rewrite Ht in Hp].
  apply includes_iff. exists (b +:+ String "<" w), (n +:+ d'). by rewrite !sapp_assoc.
Qed.

(** The inner text of the first element that carries [attr], when its markup is well nested. *)
Theorem inner_extracted attr a n1 n2 x y : attr <> "" -> no_char ">" attr = true -> no_char ">" n1 = true -> no_char ">" n2 = true ->
  quiet attr a -> nested x -> extractInnerByAttr (a +:+ div_opener n1 attr n2 +:+ x +:+ "</div>" +:+ y) attr = Some x.
Proof.
  intros Hne Hat H1 H2 Hq Hx. unfold extractInnerByAttr, re_exec. rewrite quiet_skip by done.
  rewrite (search_here _ _ _ _ _ (opener_at attr n1 n2 _ _ _ Hat H1 H2)). cbn [mbind option_bind m_index m_text m_after m_prev].
  change (group_or "" (RMatch _ _ [(1, "div")] _ _) 1) with "div". cbv zeta. cbn [m_index m_text m_after m_prev].
  set (rest := x +:+ "</div>" +:+ y). set (p0 := last_char _ (div_opener n1 attr n2)). set (i0 := _ + slen (div_opener n1 attr n2)).
  destruct (scan_nested (tagRe "div") tag_kind tagRe_scans x Hx ("</div>" +:+ y) p0 i0 (S (slen rest))) as (ms & f & Hf & Hb & E); [subst rest; lia|].
  subst rest. rewrite E. rewrite (closing_balanced _ Hb ms _ 0 eq_refl).
  edestruct (match_all_tag (tagRe "div") tag_kind ("</div" +:+ "" +:+ ">") (-1)%Z y f) as (m & f' & _ & Ek & Et & Ei & E2);
    [done|by apply (sc_close _ _ tagRe_scans "")|exact Hf|]. change ("</div>" +:+ y) with (("</div" +:+ "" +:+ ">") +:+ y). rewrite E2.
  cbn [closing_index]. rewrite Et, Ei. clearbody i0. change (starts_with "</" ("</div" +:+ "" +:+ ">")) with true. cbn [mbind option_bind].
  f_equal. rewrite Nat.add_comm, Nat.add_sub. apply stake_app.
Qed.
