(* ===== verification/Adapters.v ===== *)
(** * Framework adapters ([live/frameworks/nuxt.mjs], [live/sveltekit-adapter.mjs], [live/tanstack-adapter.mjs])

    Nuxt, SvelteKit and TanStack Start render the document on the server, so live mode does not write its
    script block into a template: it creates one generated file, and for the last two it adds an import and a
    mounting element to a file of the project. This file holds the three adapters: what they detect, what they
    write, and how they take it out again. Detection only reads, so it is a function of the file system.
    A directory is listed in an order of the system's. SHA-256 is a parameter; the engine's [String.prototype]
    methods on lists are not: an entry of [config.files] that is not a text throws. *)
From S2P Require Import Prelude JsString JsValue Json JsRegex RegexFacts Encodings NodePath EventValidation PollLanes Files TagStrategy.
Local Open Scope Z_scope.

(** ** Read-only probes ([live/frameworks/detect-utils.mjs]) *)

Section Probes.
Context (cwd : string).
Implicit Types (s : fsys).

Definition at_root (rel : string) : string := path_join [cwd; rel].
Definition fileExists (rel : string) s : bool := existsSync (at_root rel) s.
Definition firstExistingFile (candidates : list string) s : option string := find (fun rel => fileExists rel s) candidates.

Definition deps_of (pkg : js) : js :=
  spread_with (spread_with (spread (pkg.["dependencies"] ||? JObj [])) (own_props (pkg.["devDependencies"] ||? JObj [])))
    (own_props (pkg.["peerDependencies"] ||? JObj [])).
Definition readPackageDeps s : js :=
  match f_text s !! at_root "package.json" with
  | Some text => match json_parse text with
                 | Some pkg => if nullish pkg then JObj [] else deps_of pkg
                 | None => JObj []
                 end
  | None => JObj []
  end.
Definition hasAnyDependency (names : list string) s : bool :=
  let deps := readPackageDeps s in existsb (fun name => truthy deps.[name]) names.

(** The first entry of the directory that is a file and whose name matches. *)
Definition findConfigFile (r : re) s : option string :=
  match readdirSync cwd s with
  | (Ok names, _) => find (fun name => bool_decide (is_Some (f_text s !! at_root name)) && re_test r name) names
  | (Throw _, _) => None
  end.
(** [/^NAME\.config\.(?:js|mjs|cjs|ts|mts|cts)$/] *)
Definition config_re (name : string) : re :=
  (RBol ⋅ lit (name +:+ ".config.") ⋅ (lit "js" ∥ lit "mjs" ∥ lit "cjs" ∥ lit "ts" ∥ lit "mts" ∥ lit "cts") ⋅ REol)%re.

Definition literalConfigFiles (config : js) s : list string :=
  omap (fun rel => match rel with
                   | JStr rel => if includes "*" rel || includes "?" rel then None
                                 else if fileExists rel s then Some rel else None
                   | _ => None
                   end)
    match opt_get config "files" with JArr l => l | _ => [] end.

(** [pruneEmptyDir]: up from [dir] while the path begins with that of [stopDir]. *)
Fixpoint prune_up (fuel : nat) (current stopDir : string) : eff fsys unit :=
  match fuel with
  | O => mret tt
  | S fuel =>
    if starts_with stopDir current && negb (String.eqb current stopDir) then
      done ← attempt (entries ← readdirSync current;
                      if (0 <? length entries)%nat then mret true else (_ ← rmdirSync current; mret false))
                     (fun _ => mret true);
      if done : bool then mret tt else prune_up fuel (dirname current) stopDir
    else mret tt
  end.
Definition pruneEmptyDir (dir stopDir : string) : eff fsys unit := prune_up (S (slen dir)) dir stopDir.
End Probes.

(** ** Nuxt *)

Definition NUXT_PLUGIN_MARKER : string := "impeccable-live-nuxt-plugin".
Definition NUXT_PLUGIN_NAME : string := "impeccable-live.client.ts".
Record nuxt_project := NuxtProject { nx_configFile : string; nx_appDir : string; nx_pluginFile : string }.

Definition srcDirRe : re :=
  (RWordB ⋅ lit "srcDir" ⋅ rstar rspace ⋅ lit ":" ⋅ rstar rspace ⋅ RGroup 1 (RClass is_quote_char)
   ⋅ RGroup 2 (rplus (RClass (fun c => negb (is_quote_char c)))) ⋅ RBack 1)%re.
Definition src_dir (literal : string) : string :=
  let candidate := re_replace (rplus (lit "/") ⋅ REol)%re (fun _ => "")
    (re_replace (RBol ⋅ lit "./")%re (fun _ => "") (smap (fun c => if Ascii.eqb c "\" then "/"%char else c) literal)) in
  let normalized := normalize candidate in
  if negb (String.eqb normalized "..") && negb (starts_with "../" normalized) && negb (is_absolute normalized)
  then (if String.eqb normalized "." then "" else normalized) else "".

Definition detectNuxtProject (cwd : string) (s : fsys) : option nuxt_project :=
  configFile ← findConfigFile cwd (config_re "nuxt") s;
  let config := default "" (f_text s !! at_root cwd configFile) in
  let appDir := match re_exec srcDirRe config with
                | Some m => src_dir (group_or "" m 2)
                | None => if existsSync (path_join [cwd; "app"; "app.vue"]) s || existsSync (path_join [cwd; "app"; "pages"]) s
                          then "app" else ""
                end in
  Some (NuxtProject configFile appDir (join "/" (bfilter (fun p => negb (String.eqb p "")) [appDir; "plugins"; NUXT_PLUGIN_NAME]))).

Definition buildNuxtPlugin (port token : js) : string :=
  join s_nl [
    "/* " +:+ NUXT_PLUGIN_MARKER +:+ " */";
    "const liveSrc = '" +:+ buildLiveScriptSrc port token +:+ "';";
    "const liveSelector = 'script[data-impeccable-live-nuxt]';";
    "";
    "export default defineNuxtPlugin(() => {";
    "  if (!import.meta.dev || typeof document === 'undefined') return;";
    "";
    "  const expectedSrc = new URL(liveSrc, window.location.href).href;";
    "  let script = document.querySelector(liveSelector);";
    "  if (script?.src === expectedSrc) return;";
    "  script?.remove();";
    "";
    "  script = document.createElement('script');";
    "  script.src = liveSrc;";
    "  script.async = true;";
    "  script.dataset.impeccableLiveNuxt = '';";
    "  document.head.appendChild(script);";
    "";
    "  import.meta.hot?.dispose(() => {";
    "    if (script?.isConnected) script.remove();";
    "  });";
    "});";
    "/* /" +:+ NUXT_PLUGIN_MARKER +:+ " */";
    ""].


Definition conflict (file error_ what : string) : js :=
  JObj [("file", JStr file); ("error", JStr error_); ("hint", JStr (file +:+ what))].

Definition applyNuxtLiveAdapter (cwd : string) (port token : js) (project : option nuxt_project) : eff fsys js :=
  match project with
  | None => mret (JObj [("error", JStr "nuxt_not_detected")])
  | Some project =>
    let file := nx_pluginFile project in
    let absFile := at_root cwd file in
    there ← get (existsSync absFile);
    existing ← (if there : bool then t ← readFileSync absFile; mret (Some t) else mret None);
    if match existing with Some t => negb (includes NUXT_PLUGIN_MARKER t) | None => false end
    then mret (conflict file "nuxt_plugin_conflict" " already exists and is not managed by Impeccable Live") else
    let content := buildNuxtPlugin port token in
    let changed := negb (bool_decide (existing = Some content)) in
    _ ← mkdirp (dirname absFile);
    _ ← run_if changed (writeFileSync absFile content);
    mret (JObj [("file", JStr file); ("inserted", JBool true); ("changed", JBool changed); ("devOnly", JBool true)])
  end.

Definition removeNuxtLiveAdapter (cwd : string) (project : option nuxt_project) : eff fsys js :=
  match project with
  | None => mret (JObj [("error", JStr "nuxt_not_detected")])
  | Some project =>
    let file := nx_pluginFile project in
    let absFile := at_root cwd file in
    there ← get (existsSync absFile);
    if negb (there : bool) then mret (JObj [("file", JStr file); ("removed", JBool false); ("note", JStr "no adapter present")]) else
    content ← readFileSync absFile;
    if negb (includes NUXT_PLUGIN_MARKER content)
    then mret (JObj [("file", JStr file); ("removed", JBool false); ("error", JStr "nuxt_plugin_conflict");
                     ("hint", JStr (file +:+ " is not managed by Impeccable Live"))]) else
    _ ← unlinkSync absFile;
    let pluginDir := dirname absFile in
    entries ← readdirSync pluginDir;
    _ ← run_if (length entries =? 0)%nat (rmdirSync pluginDir);
    mret (JObj [("file", JStr file); ("removed", JBool true)])
  end.

(** ** SvelteKit *)

Definition SVELTE_LIVE_ROOT_COMPONENT : string := "src/lib/impeccable/ImpeccableLiveRoot.svelte".
Definition SVELTE_LAYOUT_MARKER_OPEN : string := "<!-- impeccable-live-svelte-start -->".
Definition SVELTE_LAYOUT_MARKER_CLOSE : string := "<!-- impeccable-live-svelte-end -->".
Definition SVELTE_ROOT_IMPORT : string := "import ImpeccableLiveRoot from '$lib/impeccable/ImpeccableLiveRoot.svelte';".
Definition SVELTE_ROOT_IMPORT_LINE_RE : re :=
  (RLineStart ⋅ hspaces ⋅ lit "import ImpeccableLiveRoot from '$lib/impeccable/ImpeccableLiveRoot.svelte"
   ⋅ ropt (lit "?" ⋅ rstar (RClass (none_of "'"))) ⋅ lit "';" ⋅ hspaces ⋅ ropt (lit s_cr) ⋅ ropt (lit s_nl))%re.

Definition svelteRootImportLine (rev : option string) : string :=
  match rev with
  | None | Some "" => SVELTE_ROOT_IMPORT
  | Some rev => "import ImpeccableLiveRoot from '$lib/impeccable/ImpeccableLiveRoot.svelte?impeccable-live=" +:+ rev +:+ "';"
  end.
Definition svelteAdapterRev (sha256_hex : string -> string) (token : js) : option string :=
  if truthy token then Some (stake 8 (sha256_hex (to_str token))) else None.

(** Every match is replaced: the first by the new line, with its indentation, the others by nothing. *)
Definition refresh_import (importLine out : string) : string :=
  match re_match_all SVELTE_ROOT_IMPORT_LINE_RE out with
  | [] => out
  | (first :: _) as ms =>
    rebuild 0 out (fun m => if (m_index m =? m_index first)%nat
      then match re_exec (RBol ⋅ hspaces)%re (m_text m) with Some i => m_text i | None => "" end +:+ importLine +:+ s_nl else "") ms
  end.

Definition with_import (importLine out : string) : string :=
  if includes importLine out then out else
  if (0 <? length (re_match_all SVELTE_ROOT_IMPORT_LINE_RE out))%nat then refresh_import importLine out else
  match re_exec (liti "<script" ⋅ ropt (rspace ⋅ rstar (RClass (none_of ">"))) ⋅ lit ">")%re out with
  | Some m => let insertAt := (m_index m + slen (m_text m))%nat in
              stake insertAt out +:+ s_nl +:+ "  " +:+ importLine +:+ sdrop insertAt out
  | None => "<script>" +:+ s_nl +:+ "  " +:+ importLine +:+ s_nl +:+ "</script>" +:+ s_nl +:+ s_nl +:+ out
  end.

Definition svelte_block : string :=
  SVELTE_LAYOUT_MARKER_OPEN +:+ s_nl +:+ "<ImpeccableLiveRoot />" +:+ s_nl +:+ SVELTE_LAYOUT_MARKER_CLOSE +:+ s_nl.
Definition renderRe : re :=
  (lit "{@render" ⋅ rplus rspace ⋅ lit "children" ⋅ ropt (lit "?.") ⋅ lit "()" ⋅ rstar rspace ⋅ lit "}")%re.
Definition slotRe : re := (lit "<slot" ⋅ rstar rspace ⋅ ropt (lit "/") ⋅ lit ">")%re.
Definition with_block (out : string) : string :=
  if includes SVELTE_LAYOUT_MARKER_OPEN out then out else
  match (match re_exec renderRe out with Some m => Some m | None => re_exec slotRe out end) with
  | Some m => stake (m_index m) out +:+ svelte_block +:+ sdrop (m_index m) out
  | None => re_replace (rstar rspace ⋅ REol)%re (fun _ => s_nl +:+ s_nl +:+ svelte_block) out
  end.
Definition patchSvelteLayout (content : string) (rev : option string) : string :=
  with_block (with_import (svelteRootImportLine rev) content).

Definition svelte_block_re : re :=
  (RGroup 1 hspaces ⋅ lit (SVELTE_LAYOUT_MARKER_OPEN +:+ s_nl +:+ "<ImpeccableLiveRoot") ⋅ rstar rspace
   ⋅ lit ("/>" +:+ s_nl +:+ SVELTE_LAYOUT_MARKER_CLOSE) ⋅ ropt (lit s_nl))%re.
Definition unpatchSvelteLayout (content : string) : string :=
  let out := re_replace_all svelte_block_re (fun m => group_or "" m 1) content in
  let out := re_replace_all SVELTE_ROOT_IMPORT_LINE_RE (fun _ => "") out in
  let out := re_replace_all (lit "<script>" ⋅ rstar rspace ⋅ lit "</script>" ⋅ hspaces ⋅ ropt (lit s_cr) ⋅ ropt (lit s_nl))%re (fun _ => "") out in
  re_replace_all (RRep true 3 None (lit s_nl)) (fun _ => s_nl +:+ s_nl) out.

Definition buildSvelteLiveRootComponent (port token : js) : string :=
  let liveUrl := buildLiveScriptSrc (JNum (to_num port)) token in
  join s_nl [
    "<script>";
    "  import { onMount } from 'svelte';";
    "";
    "  const LIVE_URL = '" +:+ liveUrl +:+ "';";
    "  const HOST_ID = 'impeccable-live-root';";
    "";
    "  onMount(() => {";
    "    let host = document.querySelector('impeccable-live-root#' + HOST_ID) || document.getElementById(HOST_ID);";
    "    if (!host) {";
    "      host = document.createElement('impeccable-live-root');";
    "      host.id = HOST_ID;";
    "      document.body.appendChild(host);";
    "    }";
    "";
    "    host.dataset.impeccableLiveAdapter = 'sveltekit';";
    "    host.style.setProperty('all', 'initial', 'important');";
    "    host.style.setProperty('display', 'block', 'important');";
    "    host.style.setProperty('position', 'fixed', 'important');";
    "    host.style.setProperty('top', '0', 'important');";
    "    host.style.setProperty('left', '0', 'important');";
    "    host.style.setProperty('width', '0', 'important');";
    "    host.style.setProperty('height', '0', 'important');";
    "    host.style.setProperty('overflow', 'visible', 'important');";
    "    host.style.setProperty('z-index', '2147483000', 'important');";
    "    host.style.setProperty('pointer-events', 'none', 'important');";
    "";
    "    const root = host.shadowRoot || host.attachShadow({ mode: 'open' });";
    "    if (!root.querySelector('style[data-impeccable-live-reset]')) {";
    "      const reset = document.createElement('style');";
    "      reset.dataset.impeccableLiveReset = 'true';";
    "      reset.textContent = ':host, :host *, * { box-sizing: border-box; }';";
    "      root.appendChild(reset);";
    "    }";
    "";
    "    window.__IMPECCABLE_LIVE_ADAPTER__ = 'sveltekit';";
    "    window.__IMPECCABLE_LIVE_UI_ROOT__ = root;";
    "    window.__IMPECCABLE_LIVE_CHROME_MOUNT__ = {";
    "      adapter: 'sveltekit',";
    "      version: 1,";
    "      host,";
    "      root,";
    "    };";
    "";
    "    const script = document.createElement('script');";
    "    script.src = LIVE_URL;";
    "    script.async = true;";
    "    script.dataset.impeccableLiveScript = 'true';";
    "    script.onerror = () => console.error(";
    "      '[impeccable] live.js failed to load from ' + LIVE_URL";
    "      + ' (helper down, or the token rotated while a stale adapter module was cached).'";
    "      + ' Re-run the live boot, then reload this page.'";
    "    );";
    "    document.head.appendChild(script);";
    "";
    "    return () => {";
    "      script.remove();";
    "      if (window.__IMPECCABLE_LIVE_UI_ROOT__ === root) delete window.__IMPECCABLE_LIVE_UI_ROOT__;";
    "      if (window.__IMPECCABLE_LIVE_CHROME_MOUNT__?.root === root) delete window.__IMPECCABLE_LIVE_CHROME_MOUNT__;";
    "      if (window.__IMPECCABLE_LIVE_ADAPTER__ === 'sveltekit') delete window.__IMPECCABLE_LIVE_ADAPTER__;";
    "    };";
    "  });";
    "</script>";
    ""].


Definition defaultSvelteLayout : string :=
  join s_nl ["<script>"; "  let { children } = $props();"; "</script>"; ""; "{@render children?.()}"; ""].

Record svelte_project := SvelteProject { sk_appHtml : string; sk_layoutFile : string }.

Section Svelte.
Context (cwd : string).

Fixpoint first_app_html (files : list js) (s : fsys) : result (option string) :=
  match files with
  | [] => mret None
  | JStr rel :: files =>
    if negb (includes "*" rel) && ends_with "app.html" rel && fileExists cwd rel s then mret (Some rel) else first_app_html files s
  | _ :: _ => Throw (error "rel.includes is not a function")
  end.
Definition findSvelteKitAppHtml (config : js) (s : fsys) : result (option string) :=
  found ← first_app_html match opt_get config "files" with JArr l => l | _ => [JStr "src/app.html"] end s;
  mret (match found with
        | Some rel => Some rel
        | None => if fileExists cwd "src/app.html" s then Some "src/app.html" else None
        end).
Definition findSvelteKitLayout (s : fsys) : string :=
  default "src/routes/+layout.svelte" (firstExistingFile cwd ["src/routes/+layout.svelte"; "src/routes/(app)/+layout.svelte"] s).
Definition packageHasSvelteKit (s : fsys) : bool := hasAnyDependency cwd ["@sveltejs/kit"; "@sveltejs/vite-plugin-svelte"; "svelte"] s.
Definition fileIncludes (file text : string) (s : fsys) : bool :=
  match f_text s !! file with Some t => includes text t | None => false end.

Definition detectSvelteKitProject (config : js) (s : fsys) : result (option svelte_project) :=
  appHtml ← findSvelteKitAppHtml config s;
  mret (match appHtml with
        | None => None
        | Some appHtml =>
          let file := at_root cwd appHtml in
          if negb (fileIncludes file "%sveltekit.body%" s && fileIncludes file "%sveltekit.head%" s) then None else
          if negb (existsb (fun name => fileExists cwd name s) ["svelte.config.js"; "svelte.config.mjs"; "svelte.config.cjs"; "svelte.config.ts"])
             && negb (packageHasSvelteKit s) then None
          else Some (SvelteProject appHtml (findSvelteKitLayout s))
        end).

Definition ensureSvelteLiveRootComponent (port token : js) : eff fsys string :=
  let file := at_root cwd SVELTE_LIVE_ROOT_COMPONENT in
  _ ← mkdirp (dirname file);
  _ ← writeFileSync file (buildSvelteLiveRootComponent port token);
  mret file.

Definition applySvelteKitLiveAdapter (sha256_hex : string -> string) (port token config : js) : eff fsys js :=
  if negb (num_is_finite (to_num port)) then lift (Throw (error "SvelteKit live adapter requires a numeric port")) else
  r ← get (detectSvelteKitProject config);
  detected ← lift r;
  match detected with
  | None => mret JNull
  | Some detected =>
    _ ← ensureSvelteLiveRootComponent (JNum (to_num port)) token;
    let layoutAbs := at_root cwd (sk_layoutFile detected) in
    _ ← mkdirp (dirname layoutAbs);
    layoutExisted ← get (existsSync layoutAbs);
    before ← (if layoutExisted : bool then readFileSync layoutAbs else mret defaultSvelteLayout);
    let after := patchSvelteLayout before (svelteAdapterRev sha256_hex token) in
    _ ← writeFileSync layoutAbs after;
    mret (JObj [("file", JStr (sk_layoutFile detected)); ("adapter", JStr "sveltekit");
                ("inserted", JBool (negb (String.eqb after before) || negb layoutExisted)); ("appHtmlUntouched", JBool true);
                ("rootComponent", JStr SVELTE_LIVE_ROOT_COMPONENT)])
  end.

Definition removeSvelteKitLiveAdapter (config : js) : eff fsys js :=
  r ← get (detectSvelteKitProject config);
  detected ← lift r;
  match detected with
  | None => mret JNull
  | Some detected =>
    let layoutAbs := at_root cwd (sk_layoutFile detected) in
    there ← get (existsSync layoutAbs);
    unpatched ← (if there : bool then
                   before ← readFileSync layoutAbs;
                   let after := unpatchSvelteLayout before in
                   if String.eqb after before then mret false else (_ ← writeFileSync layoutAbs after; mret true)
                 else mret false);
    let rootAbs := at_root cwd SVELTE_LIVE_ROOT_COMPONENT in
    root ← get (existsSync rootAbs);
    _ ← run_if root (unlinkSync rootAbs);
    _ ← pruneEmptyDir (dirname rootAbs) (at_root cwd "src");
    mret (JObj [("file", JStr (sk_layoutFile detected)); ("adapter", JStr "sveltekit"); ("removed", JBool (unpatched || root));
                ("appHtmlUntouched", JBool true); ("rootComponent", JStr SVELTE_LIVE_ROOT_COMPONENT)])
  end.
End Svelte.

(** ** TanStack Start *)

Definition TANSTACK_MARKER_OPEN : string := "{/* impeccable-live-tanstack-start */}".
Definition TANSTACK_MARKER_CLOSE : string := "{/* impeccable-live-tanstack-end */}".
Definition TANSTACK_COMPONENT_DIR : string := "src/impeccable".
Definition TANSTACK_COMPONENT_BASENAME : string := "ImpeccableLiveRoot".
Definition ROOT_ROUTE_CANDIDATES : list string :=
  ["src/routes/__root.tsx"; "src/routes/__root.jsx"; "src/routes/__root.ts"; "src/routes/__root.js"; "app/routes/__root.tsx"; "app/routes/__root.jsx"].
Definition START_PACKAGES : list string := ["@tanstack/react-start"; "@tanstack/solid-start"; "@tanstack/start"].

Record tanstack_project := TanStackProject { ts_rootRoute : string; ts_componentFile : string; ts_componentImport : string; ts_ext : string }.

(** The end of the last match of [/^import\b[^\n]*\n/gm]. *)
Definition importRe : re := (RLineStart ⋅ lit "import" ⋅ RWordB ⋅ rstar (RClass (none_of s_nl)) ⋅ lit s_nl)%re.
Definition insertAfterLastImport (content importStatement : string) : string :=
  match last (re_match_all importRe content) with
  | None => importStatement +:+ s_nl +:+ content
  | Some m => let lastEnd := (m_index m + slen (m_text m))%nat in
              stake lastEnd content +:+ importStatement +:+ s_nl +:+ sdrop lastEnd content
  end.

Definition tanstack_import (componentImport : string) : string := "import ImpeccableLiveRoot from '" +:+ componentImport +:+ "';".
Definition tanstack_block : string :=
  TANSTACK_MARKER_OPEN +:+ s_nl +:+ "        <ImpeccableLiveRoot />" +:+ s_nl +:+ "        " +:+ TANSTACK_MARKER_CLOSE +:+ s_nl +:+ "        ".
Definition tanstack_with_block (out : string) : string :=
  if includes TANSTACK_MARKER_OPEN out then out else
  match re_exec (lit "<Scripts" ⋅ RWordB)%re out with
  | Some m => stake (m_index m) out +:+ tanstack_block +:+ sdrop (m_index m) out
  | None => match last_index_of "</body>" out with
            | Some bodyClose => stake bodyClose out +:+ tanstack_block +:+ sdrop bodyClose out
            | None => out
            end
  end.
Definition patchTanStackRoot (content componentImport : string) : string :=
  let importStatement := tanstack_import componentImport in
  tanstack_with_block (if includes importStatement content then content else insertAfterLastImport content importStatement).

Definition tanstack_block_re : re :=
  (lit TANSTACK_MARKER_OPEN ⋅ (rstar rspace ⋅ (lit "<ImpeccableLiveRoot" ⋅ (rstar rspace ⋅ (lit "/>" ⋅ (rstar rspace
   ⋅ (lit TANSTACK_MARKER_CLOSE ⋅ (ropt (lit s_cr) ⋅ (ropt (lit s_nl) ⋅ hspaces)))))))))%re.
Definition tanstack_import_re : re :=
  (RLineStart ⋅ (lit "import ImpeccableLiveRoot from '" ⋅ (rstar (RClass (none_of "'")) ⋅ (lit "';" ⋅ (hspaces ⋅ (ropt (lit s_cr) ⋅ lit s_nl))))))%re.
Definition unpatchTanStackRoot (content : string) : string :=
  re_replace_all tanstack_import_re (fun _ => "") (re_replace_all tanstack_block_re (fun _ => "") content).

Definition buildTanStackLiveRootComponent (port token : js) : string :=
  let liveSrc := buildLiveScriptSrc (JNum (to_num port)) token in
  join s_nl [
    "/* impeccable-live-tanstack-start */";
    "import { useEffect } from 'react';";
    "";
    "const LIVE_SRC = '" +:+ liveSrc +:+ "';";
    "const LIVE_SELECTOR = 'script[data-impeccable-live-tanstack]';";
    "";
    "// Dev-only mount for Impeccable Live. TanStack Start server-renders the root";
    "// document, so this appends the live-mode bundle from the client after";
    "// hydration (mirrors the Nuxt/SvelteKit adapters). Renders nothing on the";
    "// server, so there is no hydration mismatch.";
    "export default function ImpeccableLiveRoot() {";
    "  useEffect(() => {";
    "    if (typeof document === 'undefined') return;";
    "    const expected = new URL(LIVE_SRC, window.location.href).href;";
    "    let script = document.querySelector(LIVE_SELECTOR);";
    "    if (script && script.src === expected) return;";
    "    if (script) script.remove();";
    "";
    "    script = document.createElement('script');";
    "    script.src = LIVE_SRC;";
    "    script.async = true;";
    "    script.setAttribute('data-impeccable-live-tanstack', '');";
    "    script.setAttribute('data-impeccable-live-script', 'true');";
    "    document.head.appendChild(script);";
    "";
    "    return () => {";
    "      if (script && script.isConnected) script.remove();";
    "    };";
    "  }, []);";
    "";
    "  return null;";
    "}";
    ""].


Section TanStack.
Context (cwd : string).

Definition packageHasTanStackStart (s : fsys) : bool := hasAnyDependency cwd START_PACKAGES s.
Definition findRootRouteFile (s : fsys) : option string := firstExistingFile cwd ROOT_ROUTE_CANDIDATES s.
Definition relativeImportSpecifier (fromFile toFile : string) : string :=
  let rel := re_replace (lit "." ⋅ (lit "tsx" ∥ lit "ts" ∥ lit "jsx" ∥ lit "js") ⋅ REol)%re (fun _ => "")
    (relative (resolve cwd (dirname fromFile)) (resolve cwd toFile)) in
  if starts_with "." rel then rel else "./" +:+ rel.
Definition detectTanStackStartProject (s : fsys) : option tanstack_project :=
  if negb (packageHasTanStackStart s) then None else
  rootRoute ← findRootRouteFile s;
  let ext := extname rootRoute in
  let componentExt := if String.eqb ext ".jsx" || String.eqb ext ".js" then ".jsx" else ".tsx" in
  let componentFile := TANSTACK_COMPONENT_DIR +:+ "/" +:+ TANSTACK_COMPONENT_BASENAME +:+ componentExt in
  Some (TanStackProject rootRoute componentFile (relativeImportSpecifier rootRoute componentFile) ext).

Definition isManagedComponent (content : string) : bool := includes "impeccable-live-tanstack" content.

Definition applyTanStackLiveAdapter (port token : js) (project : option tanstack_project) : eff fsys js :=
  match project with
  | None => mret (JObj [("error", JStr "tanstack_not_detected")])
  | Some project =>
    if negb (num_is_finite (to_num port)) then lift (Throw (error "TanStack Start live adapter requires a numeric port")) else
    let file := ts_componentFile project in
    let componentAbs := at_root cwd file in
    componentExisted ← get (existsSync componentAbs);
    foreign ← (if componentExisted : bool then t ← readFileSync componentAbs; mret (negb (isManagedComponent t)) else mret false);
    if foreign : bool then mret (conflict file "tanstack_component_conflict" " already exists and is not managed by Impeccable Live") else
    _ ← mkdirp (dirname componentAbs);
    _ ← writeFileSync componentAbs (buildTanStackLiveRootComponent (JNum (to_num port)) token);
    let rootAbs := at_root cwd (ts_rootRoute project) in
    before ← readFileSync rootAbs;
    let after := patchTanStackRoot before (ts_componentImport project) in
    let changed := negb (String.eqb after before) in
    _ ← run_if changed (writeFileSync rootAbs after);
    mret (JObj [("file", JStr (ts_rootRoute project)); ("adapter", JStr "tanstack-start");
                ("inserted", JBool (changed || negb componentExisted)); ("componentFile", JStr file); ("devOnly", JBool true)])
  end.

Definition removeTanStackLiveAdapter (project : option tanstack_project) : eff fsys js :=
  match project with
  | None => mret (JObj [("error", JStr "tanstack_not_detected")])
  | Some project =>
    let rootAbs := at_root cwd (ts_rootRoute project) in
    there ← get (existsSync rootAbs);
    unpatched ← (if there : bool then
                   before ← readFileSync rootAbs;
                   let after := unpatchTanStackRoot before in
                   if String.eqb after before then mret false else (_ ← writeFileSync rootAbs after; mret true)
                 else mret false);
    let componentAbs := at_root cwd (ts_componentFile project) in
    component ← get (existsSync componentAbs);
    _ ← run_if component (unlinkSync componentAbs);
    _ ← pruneEmptyDir (dirname componentAbs) (at_root cwd "src");
    mret (JObj [("file", JStr (ts_rootRoute project)); ("adapter", JStr "tanstack-start"); ("removed", JBool (unpatched || component));
                ("componentFile", JStr (ts_componentFile project))])
  end.
End TanStack.

(** * Theorems *)

(** ** The root document of TanStack Start *)

(** A text [p] that begins with [f], holds no other [f], and is not in [a], begins nowhere in [a] when [f] follows. *)
Lemma no_early_start f p a y rest : no_char f p = true -> includes (String f p) a = false -> y <> "" -> (exists x, a = x +:+ y) ->
  starts_with (String f p) (y +:+ String f rest) = false.
Proof.
  intros Hp Ha Hy [x ->]. apply not_true_iff_false. intros [r E]%starts_with_iff. destruct y as [|c y]; [done|]. cbn [append] in E. injection E as -> E.
  symmetry in E. apply before_char in E as [d ->]; [|done]. apply not_true_iff_false in Ha. apply Ha, includes_iff. exists x, d. done.
Qed.

(** The same for a text without a newline before which the lines end. *)
Lemma no_early_line p a y rest : no_char NL p = true -> includes p a = false -> y <> "" -> (exists x, a = x +:+ y) ->
  (exists a0, a = a0 +:+ s_nl) -> starts_with p (y +:+ rest) = false.
Proof.
  intros Hp Ha Hy [x Ex] [a0 Ea]. apply not_true_iff_false. intros [r E]%starts_with_iff.
  assert (exists y0, y = y0 +:+ s_nl) as [y0 ->].
  { clear -Ex Ea Hy. subst a. revert a0 Ea; induction x as [|c x IH]; intros a0 Ea; cbn [append] in Ea; [by exists a0|].
    destruct a0 as [|d a0]; cbn [append] in Ea; injection Ea as -> Ea; [by destruct x, y|by apply (IH a0)]. }
  rewrite sapp_assoc in E. symmetry in E. apply before_char in E as [d ->]; [|done]. apply not_true_iff_false in Ha. apply Ha, includes_iff.
  exists x, (d +:+ s_nl). by rewrite Ex, !sapp_assoc.
Qed.

Lemma starts_includes p x y : includes p (x +:+ y) = false -> starts_with p y = false.
Proof.
  intros H. apply not_true_iff_false. intros [r ->]%starts_with_iff. apply not_true_iff_false in H. apply H, includes_iff. by exists x, r.
Qed.

(** The block is matched whole, with the indentation that leads back to the anchor. *)
Definition mount_text (open comp close ind : string) : string :=
  open +:+ (s_nl +:+ ind) +:+ comp +:+ " " +:+ "/>" +:+ (s_nl +:+ ind) +:+ close +:+ s_nl +:+ ind.
Definition mount_re (open comp close : string) : re :=
  (lit open ⋅ (rstar rspace ⋅ (lit comp ⋅ (rstar rspace ⋅ (lit "/>" ⋅ (rstar rspace
   ⋅ (lit close ⋅ (ropt (lit s_cr) ⋅ (ropt (lit s_nl) ⋅ hspaces)))))))))%re.

Lemma hspace_space c : is_hspace c = true -> is_space c = true.
Proof. destruct c as [[] [] [] [] [] [] [] []]; by vm_compute. Qed.

Lemma match_mount open comp close ind b prev pos : sforall is_hspace ind = true ->
  comp <> "" -> starts_in is_space comp = false -> close <> "" -> starts_in is_space close = false -> starts_in is_hspace b = false ->
  exists m, match_at (mount_re open comp close) prev pos (mount_text open comp close ind +:+ b) = Some m /\ m_text m = mount_text open comp close ind.
Proof.
  intros Hi Hc1 Hc Hl1 Hl Hb. set (T := mount_text open comp close ind). set (st0 := MState prev (T +:+ b) pos []). set (st1 := advance T b st0).
  assert (forall p s, p <> "" -> starts_in is_space p = false -> starts_in is_space (p +:+ s) = false) as Hst by (by intros [] ?).
  assert (sforall is_space (s_nl +:+ ind) = true) as Hsp by (cbn [append s_nl sforall]; apply (sforall_impl is_hspace); [apply hspace_space|done]).
  assert (rmatch (mount_re open comp close) st0 Some = Some st1) as Hm.
  { unfold mount_re. cbn [rmatch].
    assert (ms_rest st0 = open +:+ (s_nl +:+ ind) +:+ comp +:+ " " +:+ "/>" +:+ (s_nl +:+ ind) +:+ close +:+ s_nl +:+ ind +:+ b) as E0
      by (unfold st0, T, mount_text; cbn [ms_rest]; by rewrite !sapp_assoc).
    rewrite rmatch_lit, E0, starts_with_app, sdrop_app.
    eapply (star_class _ (s_nl +:+ ind)); [reflexivity|done|by apply Hst|].
    rewrite rmatch_lit, rest_advance, starts_with_app, sdrop_app.
    eapply (star_class _ " "); [reflexivity|done|done|].
    rewrite rmatch_lit, rest_advance, starts_with_app, sdrop_app.
    eapply (star_class _ (s_nl +:+ ind)); [reflexivity|done|by apply Hst|].
    rewrite rmatch_lit, rest_advance, starts_with_app, sdrop_app.
    apply ropt_lit_skip; [done|]. eapply (ropt_lit_take s_nl); [done|reflexivity|].
    apply (star_class _ ind b); [done..|]. rewrite !advance_app. unfold st1, T, mount_text. by rewrite !sapp_assoc. }
  unfold match_at. fold st0. rewrite Hm. eexists. split; [reflexivity|]. cbn [m_text].
  replace (ms_pos st1 - pos)%nat with (slen T); [apply stake_app|]. unfold st1, advance. cbn [ms_pos st0]. lia.
Qed.

Lemma tanstack_block_text : tanstack_block = mount_text TANSTACK_MARKER_OPEN "<ImpeccableLiveRoot" TANSTACK_MARKER_CLOSE "        ".
Proof. vm_compute. reflexivity. Qed.
Lemma match_tanstack_block b prev pos : starts_in is_hspace b = false ->
  exists m, match_at tanstack_block_re prev pos (tanstack_block +:+ b) = Some m /\ m_text m = tanstack_block.
Proof. intros Hb. rewrite tanstack_block_text. by apply match_mount. Qed.

(** A line [p ... 'imp'e]. *)
Definition quoted_re (p e : string) : re :=
  (RLineStart ⋅ (lit p ⋅ (rstar (RClass (none_of "'")) ⋅ (lit e ⋅ (hspaces ⋅ (ropt (lit s_cr) ⋅ lit s_nl))))))%re.
Lemma match_quoted p imp e b prev pos : no_char "'" imp = true -> e <> "" -> starts_in (none_of "'") e = false -> at_line_start prev = true ->
  exists m, match_at (quoted_re p e) prev pos ((p +:+ imp +:+ e +:+ s_nl) +:+ b) = Some m /\ m_text m = p +:+ imp +:+ e +:+ s_nl.
Proof.
  intros Hi He1 He Hp. set (T := p +:+ imp +:+ e +:+ s_nl). set (st0 := MState prev (T +:+ b) pos []). set (st1 := advance T b st0).
  assert (rmatch (quoted_re p e) st0 Some = Some st1) as Hm.
  { assert (ms_rest st0 = p +:+ imp +:+ e +:+ s_nl +:+ b) as E0 by (unfold st0, T; cbn [ms_rest]; by rewrite !sapp_assoc).
    unfold quoted_re. cbn [rmatch]. cbn [ms_prev st0]. rewrite Hp. rewrite rmatch_lit, E0, starts_with_app, sdrop_app.
    apply (star_class _ imp (e +:+ s_nl +:+ b)); [done| |by destruct e|].
    { revert Hi. apply sforall_impl. intros c Hc. unfold none_of, one_of. cbn [list_ascii_of_string existsb]. rewrite orb_false_r. exact Hc. }
    rewrite rmatch_lit, rest_advance, starts_with_app, sdrop_app. apply (star_class _ "" (s_nl +:+ b)); [done..|].
    apply ropt_lit_skip; [done|]. rewrite rmatch_lit, rest_advance, starts_with_app, sdrop_app. rewrite !advance_app.
    unfold st1, T. done. }
  unfold match_at. fold st0. rewrite Hm. eexists. split; [reflexivity|]. cbn [m_text].
  replace (ms_pos st1 - pos)%nat with (slen T); [apply stake_app|]. unfold st1, advance. cbn [ms_pos st0]. lia.
Qed.

Lemma match_tanstack_import imp b prev pos : no_char "'" imp = true -> at_line_start prev = true ->
  exists m, match_at tanstack_import_re prev pos ((tanstack_import imp +:+ s_nl) +:+ b) = Some m /\ m_text m = tanstack_import imp +:+ s_nl.
Proof.
  intros Hi Hp. unfold tanstack_import. rewrite (sapp_assoc _ _ s_nl), (sapp_assoc _ _ s_nl). by apply match_quoted.
Qed.


Definition IMPORT_PREFIX : string := "import ImpeccableLiveRoot from '".

(** The import goes to the start of a line. *)
Lemma import_place content stmt : exists a b, content = a +:+ b /\ (a = "" \/ exists a0, a = a0 +:+ s_nl) /\
  insertAfterLastImport content stmt = a +:+ (stmt +:+ s_nl) +:+ b.
Proof.
  unfold insertAfterLastImport. destruct (last (re_match_all importRe content)) as [m|] eqn:E.
  - apply last_Some_elem_of, match_all_sound in E as (x & y & Ec & Hr & Hi). cbn [Nat.add] in Hi.
    assert (exists u, m_text m = u +:+ s_nl) as [u Hu].
    { unfold importRe in Hr. cbn [can_read] in Hr. destruct Hr as (u & v & Et & _ & ->%can_read_lit). by exists u. }
    exists (x +:+ m_text m), y. rewrite Ec at 1 2 3. rewrite Hi, <- slen_app, <- sapp_assoc, stake_app, sdrop_app. split_and!; [done| |].
    + right. exists (x +:+ u). by rewrite Hu, sapp_assoc.
    + by rewrite !sapp_assoc.
  - exists "", content. split_and!; [done|by left|]. cbn [append]. by rewrite sapp_assoc.
Qed.

Lemma line_start_of a : a = "" \/ (exists a0, a = a0 +:+ s_nl) -> at_line_start (last_char None a) = true.
Proof. intros [->|[a0 ->]]; [done|]. by rewrite last_char_app. Qed.

Lemma includes_longer p q s : includes p s = false -> includes (p +:+ q) s = false.
Proof.
  intros H. apply not_true_iff_false. intros (u & v & ->)%includes_iff. apply not_true_iff_false in H. apply H, includes_iff.
  exists u, (q +:+ v). by rewrite sapp_assoc.
Qed.
Lemma no_char_not_includes c p s : no_char c s = true -> includes (String c p) s = false.
Proof.
  intros H. apply not_true_iff_false. intros (u & v & ->)%includes_iff. rewrite no_char_app in H. apply andb_true_iff in H as [_ H].
  cbn [append no_char sforall] in H. by rewrite Ascii.eqb_refl in H.
Qed.

Lemma no_import_match prev pos s : starts_with IMPORT_PREFIX s = false -> match_at tanstack_import_re prev pos s = None.
Proof. exact (match_line_prefix IMPORT_PREFIX _ prev pos s). Qed.
Lemma no_block_match prev pos s : starts_with TANSTACK_MARKER_OPEN s = false -> match_at tanstack_block_re prev pos s = None.
Proof. exact (match_lit_prefix TANSTACK_MARKER_OPEN _ prev pos s). Qed.

(** The import is taken out, and nothing else. *)
Lemma import_taken_out a b imp : (a = "" \/ exists a0, a = a0 +:+ s_nl) -> no_char "'" imp = true -> includes IMPORT_PREFIX (a +:+ b) = false ->
  re_replace_all tanstack_import_re (fun _ => "") (a +:+ (tanstack_import imp +:+ s_nl) +:+ b) = a +:+ b.
Proof.
  intros Ha Hq Hno. destruct (match_tanstack_import imp b (last_char None a) (slen a) Hq (line_start_of a Ha)) as (m & Hm & Ht).
  pose proof (includes_sub _ _ _ Hno) as [Hia Hib].
  rewrite (replace_all_once _ _ a _ b m); [done|by destruct imp| |done|done|].
  - intros x y prev pos -> Hy. apply no_import_match. destruct Ha as [Ha|Ha]; [exfalso; clear -Ha Hy; by destruct x, y|].
    apply (no_early_line _ (x +:+ y)); [done|done|done|by exists x|done].
  - intros x y prev pos ->. apply no_import_match. by apply (starts_includes _ x).
Qed.

(** The block is taken out, and nothing else. *)
Lemma tanstack_block_taken_out x y : starts_in is_hspace y = false -> includes TANSTACK_MARKER_OPEN (x +:+ y) = false ->
  re_replace_all tanstack_block_re (fun _ => "") (x +:+ tanstack_block +:+ y) = x +:+ y.
Proof.
  intros Hy Hno. destruct (match_tanstack_block y (last_char None x) (slen x) Hy) as (m & Hm & Ht). pose proof (includes_sub _ _ _ Hno) as [Hix Hiy].
  rewrite (replace_all_once _ _ x _ y m); [done|done| |done|done|].
  - intros u v prev pos -> Hv. apply no_block_match. apply (no_early_start "{" _ (u +:+ v)); [done|done|done|by exists u].
  - intros u v prev pos ->. apply no_block_match. by apply (starts_includes _ u).
Qed.

Lemma tanstack_block_place out : includes TANSTACK_MARKER_OPEN out = false ->
  tanstack_with_block out = out \/
  exists x y, out = x +:+ y /\ starts_in is_hspace y = false /\ tanstack_with_block out = x +:+ tanstack_block +:+ y.
Proof.
  intros Hno. unfold tanstack_with_block. rewrite Hno. destruct (re_exec _ out) as [m|] eqn:E.
  - right. apply exec_sound in E as (a & E & Hr & Hi). exists (stake (m_index m) out), (sdrop (m_index m) out). split_and!; [by rewrite stake_sdrop| |done].
    rewrite E, Hi, sdrop_app. destruct Hr as (s1 & s2 & -> & ->%can_read_lit & _). done.
  - destruct (last_index_of "</body>" out) as [i|] eqn:El; [|by left]. right. apply last_index_of_Some in El as [Hs _].
    exists (stake i out), (sdrop i out). split_and!; [by rewrite stake_sdrop| |done]. by apply starts_with_iff in Hs as [r ->].
Qed.

(** The root document of a TanStack Start project is given back byte for byte: whatever its imports and its markup,
    once it has been patched and unpatched, it is what it was, if it did not hold the marker or the import before. *)
Theorem tanstack_root_restored content imp : includes TANSTACK_MARKER_OPEN content = false -> includes IMPORT_PREFIX content = false ->
  no_char "'" imp = true -> no_char "{" imp = true ->
  unpatchTanStackRoot (patchTanStackRoot content imp) = content.
Proof.
  intros Hm Hi Hq Hb. unfold patchTanStackRoot. cbv zeta. unfold tanstack_import at 1. rewrite includes_longer by done.
  destruct (import_place content (tanstack_import imp)) as (a & b & -> & Ha & ->).
  assert (includes TANSTACK_MARKER_OPEN (a +:+ (tanstack_import imp +:+ s_nl) +:+ b) = false) as Hm1.
  { pose proof (includes_sub _ _ _ Hm) as [Hma Hmb]. assert (includes TANSTACK_MARKER_OPEN (tanstack_import imp) = false) as Hs.
    { apply no_char_not_includes. unfold tanstack_import. by rewrite !no_char_app, Hb. }
    rewrite (sapp_assoc (tanstack_import imp)). assert (includes TANSTACK_MARKER_OPEN (tanstack_import imp +:+ s_nl +:+ b) = false) as Hr by (by apply includes_break).
    destruct Ha as [->|[a0 ->]]; [done|]. rewrite sapp_assoc. apply includes_break; [done| |done]. by apply includes_sub in Hma as [? _]. }
  assert (re_replace_all tanstack_block_re (fun _ => "") (tanstack_with_block (a +:+ (tanstack_import imp +:+ s_nl) +:+ b)) =
          a +:+ (tanstack_import imp +:+ s_nl) +:+ b) as E.
  { destruct (tanstack_block_place _ Hm1) as [->|(x & y & Exy & Hy & ->)].
    - apply replace_all_none. intros x y prev pos E. apply no_block_match. apply (starts_includes _ x). by rewrite <- E.
    - rewrite tanstack_block_taken_out; [done|done|]. by rewrite <- Exy. }
  unfold unpatchTanStackRoot. rewrite E. by apply import_taken_out.
Qed.

Lemma tanstack_root_restored_witness :
  let root := "import x from 'y';" +:+ s_nl +:+ "<body><Scripts /></body>" in
  unpatchTanStackRoot (patchTanStackRoot root "../impeccable/ImpeccableLiveRoot") = root.
Proof. apply (tanstack_root_restored ("import x from 'y';" +:+ s_nl +:+ "<body><Scripts /></body>") "../impeccable/ImpeccableLiveRoot"); vm_compute; reflexivity. Defined.

(** The import goes after the last line that begins with [import]: when that line opens a list of names on several
    lines, the new import lands inside the list. *)
Example import_splits_a_list :
  let root := join s_nl ["import {"; "  Scripts,"; "} from '@tanstack/react-router'"; ""] in
  insertAfterLastImport root (tanstack_import "../impeccable/ImpeccableLiveRoot") =
  join s_nl ["import {"; tanstack_import "../impeccable/ImpeccableLiveRoot"; "  Scripts,"; "} from '@tanstack/react-router'"; ""].
Proof. vm_compute. reflexivity. Qed.

(** ** The plugin of Nuxt *)

Section NuxtFacts.
Context (cwd : string) (project : nuxt_project) (port token : js).
Notation plugin := (at_root cwd (nx_pluginFile project)).

Lemma plugin_marked : includes NUXT_PLUGIN_MARKER (buildNuxtPlugin port token) = true.
Proof.
  apply includes_iff. unfold buildNuxtPlugin. cbn [join]. eexists "/* ", _. reflexivity.
Qed.

(** A file at the place of the plugin that live mode did not write is refused by both commands and left alone. *)
Lemma foreign_plugin_untouched t s : f_text s !! plugin = Some t -> includes NUXT_PLUGIN_MARKER t = false ->
  (applyNuxtLiveAdapter cwd port token (Some project) s).2 = s /\ (removeNuxtLiveAdapter cwd (Some project) s).2 = s.
Proof.
  intros Et Hm. assert (existsSync plugin s = true) as Ex by (unfold existsSync; rewrite bool_decide_true by eauto; done).
  unfold applyNuxtLiveAdapter, removeNuxtLiveAdapter. cbv zeta. unfold mbind, eff_bind, get, readFileSync. rewrite Ex. cbn [negb]. rewrite Et.
  cbn [mret eff_ret]. rewrite Hm. done.
Qed.

(** The plugin live mode wrote is taken away again: no text of the project differs. *)
Lemma plugin_taken_away s r1 s1 r2 s2 : existsSync plugin s = false ->
  applyNuxtLiveAdapter cwd port token (Some project) s = (Ok r1, s1) -> removeNuxtLiveAdapter cwd (Some project) s1 = (Ok r2, s2) ->
  f_text s2 = f_text s.
Proof.
  intros Ex H1 H2. assert (f_text s !! plugin = None) as En.
  { unfold existsSync in Ex. apply orb_false_iff in Ex as [Ex _]. apply bool_decide_eq_false in Ex. by apply eq_None_not_Some. }
  unfold applyNuxtLiveAdapter in H1. cbv zeta in H1. apply eff_bind_ok in H1 as (there & sa & E & H1). injection E as <- <-. rewrite Ex in H1.
  apply eff_bind_ok in H1 as (existing & sa & E & H1). injection E as <- <-. cbn iota in H1. rewrite bool_decide_false in H1 by done.
  apply eff_bind_ok in H1 as ([] & sa & E & H1). injection E as <-. apply eff_bind_ok in H1 as ([] & sb & E & H1). injection H1 as _ <-.
  cbn [negb run_if] in E. unfold writeFileSync in E. destruct (is_dir _ _); [done|]. injection E as <-.
  unfold removeNuxtLiveAdapter in H2. cbv zeta in H2. apply eff_bind_ok in H2 as (there & sc & E & H2). injection E as <- <-.
  assert (forall m d, existsSync plugin (Fsys (<[plugin := buildNuxtPlugin port token]> m) d) = true) as Hex.
  { intros m d. unfold existsSync. cbn [f_text]. rewrite lookup_insert_eq. by rewrite bool_decide_true by eauto. }
  unfold set_text in H2. rewrite Hex in H2. cbn [negb f_text] in H2. apply eff_bind_ok in H2 as (c & sd & E & H2).
  unfold readFileSync in E. cbn [f_text] in E. rewrite lookup_insert_eq in E. injection E as <- <-. rewrite plugin_marked in H2. cbn [negb] in H2.
  apply eff_bind_ok in H2 as ([] & se & E & H2). unfold unlinkSync in E. cbn [f_text] in E. rewrite lookup_insert_eq in E. injection E as <-.
  apply eff_bind_ok in H2 as (entries & sf & E & H2). assert (f_text sf = f_text s) as Ef.
  { unfold readdirSync in E. destruct (negb _); [done|]. injection E as _ <-. unfold set_text. cbn [f_text]. rewrite delete_insert_eq. by apply delete_id. }
  apply eff_bind_ok in H2 as ([] & sg & E2 & H2). injection H2 as _ <-. destruct (length entries =? 0)%nat; cbn [run_if] in E2; [|by injection E2 as <-].
  unfold rmdirSync in E2. destruct (negb _); [done|]. destruct (has_entries _ sf); [done|]. by injection E2 as <-.
Qed.
End NuxtFacts.
