(* ===== verification/Frameworks.v ===== *)
(** * The framework registry ([live/frameworks/index.mjs] and its entries)

    One entry per framework: how a project is recognised, how live mode is injected, how its files are
    written. The order of the entries is the priority of detection. *)
From S2P Require Import Prelude JsString JsValue Json JsRegex NodePath EventValidation PollLanes Files InjectJournal TagStrategy Adapters.
Local Open Scope Z_scope.

Inductive framework := sveltekit | nuxt | tanstackStart | astro | nextjs | viteGeneric | staticHtml.
(** Priority order. *)
Definition FRAMEWORKS : list framework := [sveltekit; nuxt; tanstackStart; astro; nextjs; viteGeneric; staticHtml].
Definition name_of (f : framework) : string :=
  match f with
  | sveltekit => "sveltekit" | nuxt => "nuxt" | tanstackStart => "tanstack-start" | astro => "astro"
  | nextjs => "nextjs" | viteGeneric => "vite-generic" | staticHtml => "static-html"
  end.

(** What a detector found: the descriptor the adapter reads, or how a tag framework was recognised. *)
Inductive project :=
| PSvelte (p : svelte_project)
| PNuxt (p : nuxt_project)
| PTanStack (p : tanstack_project)
| PVia (via : string) (configFile entry : option string).

(** ** Detection *)

Definition detectAstroProject (cwd : string) (config : js) (s : fsys) : option project :=
  match findConfigFile cwd (config_re "astro") s with
  | Some configFile => Some (PVia "config" (Some configFile) None)
  | None =>
  if hasAnyDependency cwd ["astro"] s then Some (PVia "package" None None) else
  match find (ends_with ".astro") (literalConfigFiles cwd config s) with
  | Some entry => Some (PVia "config-files" None (Some entry))
  | None => None
  end end.

Definition ROUTER_ENTRY_CANDIDATES : list string :=
  ["app/layout.tsx"; "app/layout.jsx"; "app/layout.ts"; "app/layout.js";
   "src/app/layout.tsx"; "src/app/layout.jsx"; "src/app/layout.ts"; "src/app/layout.js";
   "pages/_app.tsx"; "pages/_app.jsx"; "pages/_app.ts"; "pages/_app.js"; "pages/_document.tsx"; "pages/_document.jsx";
   "src/pages/_app.tsx"; "src/pages/_app.jsx"].
Definition detectNextProject (cwd : string) (s : fsys) : option project :=
  match findConfigFile cwd (config_re "next") s with
  | Some configFile => Some (PVia "config" (Some configFile) None)
  | None =>
  if hasAnyDependency cwd ["next"] s then Some (PVia "package" None None) else
  match find (fun rel => fileExists cwd rel s) ROUTER_ENTRY_CANDIDATES with
  | Some entry => Some (PVia "router-entry" None (Some entry))
  | None => None
  end end.

Definition detectViteProject (cwd : string) (s : fsys) : option project :=
  match findConfigFile cwd (config_re "vite") s with
  | Some configFile => Some (PVia "config" (Some configFile) None)
  | None =>
  if hasAnyDependency cwd ["vite"] s then Some (PVia "package" None None) else
  if fileExists cwd "index.html" s && fileExists cwd "package.json" s then Some (PVia "zero-config" None None) else None
  end.

Definition detect (f : framework) (cwd : string) (config : js) (s : fsys) : result (option project) :=
  match f with
  | sveltekit => p ← detectSvelteKitProject cwd config s; mret (option_map PSvelte p)
  | nuxt => Ok (option_map PNuxt (detectNuxtProject cwd s))
  | tanstackStart => Ok (option_map PTanStack (detectTanStackStartProject cwd s))
  | astro => Ok (detectAstroProject cwd config s)
  | nextjs => Ok (detectNextProject cwd s)
  | viteGeneric => Ok (detectViteProject cwd s)
  | staticHtml => Ok (Some (PVia "fallback" None None))
  end.

Record resolved := Resolved { r_framework : framework; r_project : project }.

Fixpoint first_match (fs : list framework) (cwd : string) (config : js) (s : fsys) : result (option resolved) :=
  match fs with
  | [] => mret None
  | f :: fs =>
    p ← detect f cwd config s;
    match p with Some p => mret (Some (Resolved f p)) | None => first_match fs cwd config s end
  end.
Definition resolveFramework (cwd : string) (config : js) (s : fsys) : result (option resolved) := first_match FRAMEWORKS cwd config s.

(** ** How files are written *)

Record source_traits := Traits {
  st_preview : string; st_styleMode : string; st_styleTag : string; st_commentSyntax : string; st_injectScriptAttrs : string
}.
Definition session_style (attrs : string) : string :=
  "<style " +:+ attrs +:+ "data-impeccable-css=" +:+ s_dq +:+ "SESSION_ID" +:+ s_dq +:+ ">".
Definition SOURCE_TRAIT_DEFAULTS : source_traits := Traits "source" "scoped" (session_style "") "html" "".
Definition extensions_of (f : framework) : list string :=
  match f with
  | sveltekit => [".svelte"]
  | nuxt => [".vue"]
  | tanstackStart | nextjs | viteGeneric => [".tsx"; ".jsx"]
  | astro => [".astro"]
  | staticHtml => [".html"; ".htm"]
  end.
(** The traits of an entry over the defaults. *)
Definition source_of (f : framework) : source_traits :=
  match f with
  | sveltekit => Traits "component" "scoped" (session_style "") "html" ""
  | nuxt | staticHtml => Traits "source" "scoped" (session_style "") "html" ""
  | tanstackStart | nextjs | viteGeneric => Traits "source" "scoped" (session_style "") "jsx" ""
  | astro => Traits "source" "astro-global-prefixed" (session_style "is:inline ") "html" "is:inline "
  end.
Definition claims (ext : string) (f : framework) : bool := existsb (String.eqb ext) (extensions_of f).
Definition resolveSourceTraits (filePath : js) : option framework * source_traits :=
  let ext := to_lower (extname (to_str (filePath ||? JStr ""))) in
  match find (claims ext) FRAMEWORKS with
  | Some f => (Some f, source_of f)
  | None => (None, SOURCE_TRAIT_DEFAULTS)
  end.

(** ** Injection *)

Definition is_adapter (f : framework) : bool := match f with sveltekit | nuxt | tanstackStart => true | _ => false end.
Definition TAG_PATCH_KIND : string := "live-tag".

Definition created_artifact (path marker pruneTo : string) : js :=
  JObj [("kind", JStr "created"); ("path", JStr path); ("marker", JStr marker); ("pruneTo", JStr pruneTo)].
Definition patched_artifact (path patch : string) (markers : list string) : js :=
  JObj [("kind", JStr "patched"); ("path", JStr path); ("patch", JStr patch); ("markers", JArr (JStr <$> markers))].

Definition adapter_artifacts (p : project) : list js :=
  match p with
  | PSvelte p => [created_artifact SVELTE_LIVE_ROOT_COMPONENT "impeccable-live-root" "src";
                  patched_artifact (sk_layoutFile p) "sveltekit-layout" [SVELTE_LAYOUT_MARKER_OPEN]]
  | PNuxt p => [created_artifact (nx_pluginFile p) NUXT_PLUGIN_MARKER (dirname (dirname (nx_pluginFile p)))]
  | PTanStack p => [created_artifact (ts_componentFile p) "impeccable-live-tanstack" "src";
                    patched_artifact (ts_rootRoute p) "tanstack-root" [TANSTACK_MARKER_OPEN]]
  | PVia _ _ _ => []
  end.
Definition describeInjectArtifacts (r : option resolved) (files : list string) : list js :=
  match r with
  | None => []
  | Some r => if is_adapter (r_framework r) then adapter_artifacts (r_project r)
              else (fun file => patched_artifact file TAG_PATCH_KIND TAG_PATCH_MARKERS) <$> files
  end.
Definition frameworkIgnorePatterns (r : option resolved) : list string :=
  match r with
  | Some (Resolved nuxt (PNuxt p)) => [nx_pluginFile p]
  | Some (Resolved tanstackStart (PTanStack p)) => [ts_componentFile p]
  | _ => []
  end.

Section Undo.
Context (new_RegExp : string -> result re) (base64_text : string -> string).
(** The functions that undo a patch, by the name an artifact carries. *)
Definition PATCH_UNDOERS (patch : string) : option (string -> result string) :=
  if String.eqb patch TAG_PATCH_KIND then Some (unpatchTagFile new_RegExp base64_text)
  else if String.eqb patch "sveltekit-layout" then Some (fun content => Ok (unpatchSvelteLayout content))
  else if String.eqb patch "tanstack-root" then Some (fun content => Ok (unpatchTanStackRoot content))
  else None.
End Undo.

(** * Theorems *)

(** The last entry matches every project: a framework is always found, unless an entry of [config.files] is no text. *)
Lemma resolve_total cwd config s : (forall l, opt_get config "files" = JArr l -> Forall (fun v => is_string v = true) l) ->
  exists r, resolveFramework cwd config s = Ok (Some r) /\ r_framework r ∈ FRAMEWORKS.
Proof.
  intros Hf. unfold resolveFramework, FRAMEWORKS.
  assert (exists p, detectSvelteKitProject cwd config s = Ok p) as [p Hp].
  { unfold detectSvelteKitProject, findSvelteKitAppHtml.
    assert (forall l, Forall (fun v => is_string v = true) l -> exists r, first_app_html cwd l s = Ok r) as Hl.
    { induction 1 as [|v l Hv _ IH]; cbn [first_app_html]; [by eexists|]. destruct v; try done. destruct (_ && _); [by eexists|exact IH]. }
    destruct (Hl match opt_get config "files" with JArr l => l | _ => [JStr "src/app.html"] end) as [r Hr].
    { destruct (opt_get config "files") eqn:E; try (by repeat constructor). by apply Hf. }
    rewrite Hr. cbn [mbind result_bind]. by eexists. }
  cbn [first_match detect]. rewrite Hp. cbn [mbind result_bind mret result_ret fmap].
  assert (forall f p, f ∈ FRAMEWORKS -> exists r, Ok (Some (Resolved f p)) = Ok (Some r) /\ r_framework r ∈ FRAMEWORKS) as Hdone
    by (intros f0 p0 H0; by exists (Resolved f0 p0)).
  assert (forall f, f ∈ FRAMEWORKS) as Hin by (intros f; unfold FRAMEWORKS; destruct f; set_solver).
  repeat match goal with
  | |- context [match ?x with Some _ => _ | None => _ end] => destruct x; cbn [mbind result_bind mret result_ret]; [by apply Hdone|]
  | _ => by apply Hdone
  end.
Qed.

(** Entries that claim the same extension agree on how its files are written, so the order of the entries does not matter there. *)
Lemma traits_agree ext f g : claims ext f = true -> claims ext g = true -> source_of f = source_of g.
Proof.
  unfold claims. intros Hf Hg. apply existsb_exists in Hf as (x & Hx & ->%String.eqb_eq). apply existsb_exists in Hg as (y & Hy & E%String.eqb_eq).
  destruct f, g; try reflexivity; exfalso; cbn in Hx, Hy; repeat destruct Hx as [Hx|Hx]; repeat destruct Hy as [Hy|Hy]; subst; done.
Qed.
