(* ===== verification/ApplyFiles.v ===== *)
(** * Files of an Apply ([live/manual-apply.mjs], the file half)

    Applying manual edits hands a batch of operations to a coding agent that edits the
    source files. What the batch may touch is saved before: in memory for one
    event ([snapshotApplyEventFiles], [rollbackApplySnapshot]) and on disk, against a crash
    of the server, for the whole Apply (the transaction). A batch is the JSON object the
    commit command built; reading a property of [null] throws. *)
From S2P Require Import Prelude JsString JsValue Json JsRegex NodePath EventValidation PollLanes Files ManualEditsBuffer.
Local Open Scope Z_scope.

(** [values.filter(Boolean)]. *)
Definition compact (l : list js) : list js := bfilter truthy l.

(** [l.map(f)], [l.some(f)] and the like need an array. *)
Definition as_array (v : js) : result (list js) :=
  match v with JArr l => Ok l | _ => Throw (error "is not a function") end.

Section Apply.
Context (cwd liveDir : string).

(** ** Names of files *)

Definition normalizeProjectFile (file : js) : option string :=
  match file with
  | JStr f =>
    if String.eqb f "" then None else
    let absolute := if is_absolute f then f else resolve cwd f in
    let rel := relative cwd absolute in
    if in_tree rel then Some rel else None
  | _ => None
  end.

Definition summarizeManualLogFile (file : js) : js :=
  match file with
  | JStr f =>
    if String.eqb f "" then JUndef
    else if negb (is_absolute f) then file
    else if in_tree (relative cwd f) then JStr (relative cwd f) else file
  | _ => JUndef
  end.

Definition compactManualLogText (value : js) (max : nat) : js :=
  match value with
  | JStr s =>
    let normalized := trim (re_replace_all (rplus rspace) (fun _ => " ") s) in
    if (slen normalized <=? max)%nat then JStr normalized
    else JStr (stake max normalized +:+ "... [truncated " +:+ print_Z (Z.of_nat (slen normalized - max)) +:+ " chars]")
  | _ => JUndef
  end.

(** [files.slice(0, n).map(summarizeManualLogFile).filter(Boolean)]. *)
Definition summarize_files (files : js) (n : nat) : js :=
  match files with
  | JArr l => JArr (compact (summarizeManualLogFile <$> take n l))
  | _ => JUndef
  end.

Definition summarize_diagnostic (item : js) : result js :=
  reason ← read_prop item "reason";
  mret (JObj [("reason", reason ||? item.["kind"] ||? JUndef);
              ("detail", compactManualLogText item.["detail"] 220);
              ("message", compactManualLogText item.["message"] 300);
              ("file", summarizeManualLogFile (item.["file"] ||? item.["relativeFile"]));
              ("line", item.["line"] ||? JUndef);
              ("ref", compactManualLogText item.["ref"] 180);
              ("marker", compactManualLogText item.["marker"] 120);
              ("files", summarize_files item.["files"] 8)]).

Definition summarizeManualDiagnostics (items : js) : result js :=
  match items with
  | JArr (item :: rest) => l ← mapM summarize_diagnostic (take 12 (item :: rest)); mret (JArr l)
  | _ => mret JUndef
  end.

Definition summarize_failure (item : js) : result js :=
  id ← read_prop item "id";
  checks ← summarizeManualDiagnostics item.["checks"];
  failures ← summarizeManualDiagnostics item.["failures"];
  candidates ← summarizeManualDiagnostics item.["candidates"];
  mret (JObj [("id", id ||? item.["entryId"] ||? JNull);
              ("reason", item.["reason"] ||? item.["message"] ||? JStr "failed");
              ("message", compactManualLogText item.["message"] 300);
              ("files", summarize_files item.["files"] 12);
              ("checks", checks); ("failures", failures); ("candidates", candidates)]).

Definition summarizeManualApplyFailures (failed : js) : result (list js) :=
  match failed with
  | JArr l => mapM summarize_failure (take 20 l)
  | _ => mret []
  end.

(** ** The files a batch names *)

Definition item_files (items : js) : result (list js) :=
  items ← iterate (items ||? JArr []);
  mapM (fun item => read_prop item "file") items.

Definition entry_files (entry : js) : result (list js) :=
  ops ← read_prop entry "ops";
  ops ← iterate (ops ||? JArr []);
  mapM (fun op => hint ← read_prop op "sourceHint"; mret (opt_get hint "file")) ops.

Definition candidate_files (candidate : js) : result (list js) :=
  hint ← read_prop candidate "sourceHint";
  text ← item_files candidate.["textMatches"];
  keys ← item_files candidate.["objectKeyMatches"];
  locators ← item_files candidate.["locatorMatches"];
  context ← item_files candidate.["contextTextMatches"];
  mret ([opt_get hint "relativeFile"; opt_get hint "file"] ++ text ++ keys ++ locators ++ context).

Definition collectManualApplyFiles (batch extraFiles : js) : result (list string) :=
  entries ← iterate (opt_get batch "entries" ||? JArr []);
  files ← mapM entry_files entries;
  candidates ← iterate (opt_get batch "candidates" ||? JArr []);
  more ← mapM candidate_files candidates;
  extra ← iterate (extraFiles ||? JArr []);
  mret (omap normalizeProjectFile (set_of (concat files ++ concat more ++ extra))).

(** ** Snapshot of one event *)

Record before := Before { b_exists : bool; b_content : string }.

(** A file that cannot be read is left out. *)
Definition snapshot_file (snapshot : gmap string before) (relativeFile : string) : eff fsys (gmap string before) :=
  let absolute := resolve cwd relativeFile in
  attempt
    (exists_ ← get (existsSync absolute);
     content ← (if exists_ : bool then readFileSync absolute else mret "");
     mret (<[relativeFile := Before exists_ content]> snapshot))
    (fun _ => mret snapshot).

Fixpoint snapshot_files (snapshot : gmap string before) (files : list string) : eff fsys (gmap string before) :=
  match files with
  | [] => mret snapshot
  | file :: files => snapshot ← snapshot_file snapshot file; snapshot_files snapshot files
  end.

Definition snapshotApplyEventFiles (batch : js) : eff fsys (gmap string before) :=
  files ← lift (collectManualApplyFiles batch (JArr []));
  snapshot_files ∅ files.

(** Write a file back, or remove it when it was not there. *)
Definition restore_file (absolute : string) (existed : bool) (content : js) : eff fsys unit :=
  if existed then
    _ ← mkdirp (dirname absolute);
    match content with
    | JStr text => writeFileSync absolute text
    | _ => lift (Throw (JsError "The data argument must be of type string" (Some "ERR_INVALID_ARG_TYPE")))
    end
  else
    there ← get (existsSync absolute);
    if there : bool then unlinkSync absolute else mret tt.

Record rollback := Rollback { rolledBackFiles : list string; rollbackFailures : list js }.

Definition restore_one (r : rollback) (relativeFile : string) (existed : bool) (content : js) : eff fsys rollback :=
  attempt
    (_ ← restore_file (resolve cwd relativeFile) existed content;
     mret (Rollback (rolledBackFiles r ++ [relativeFile]) (rollbackFailures r)))
    (fun err => mret (Rollback (rolledBackFiles r) (rollbackFailures r ++
       [JObj [("file", JStr relativeFile); ("reason", JStr "restore_failed"); ("message", JStr (err_message err))]]))).

Fixpoint restore_snapshot (snapshot : gmap string before) (r : rollback) (scope : list string) : eff fsys rollback :=
  match scope with
  | [] => mret r
  | file :: scope =>
    match snapshot !! file with
    | None => restore_snapshot snapshot r scope
    | Some b => r ← restore_one r file (b_exists b) (JStr (b_content b)); restore_snapshot snapshot r scope
    end
  end.

Definition rollbackApplySnapshot (batch : js) (rollbackSnapshot : gmap string before) (extraFiles : js) : eff fsys rollback :=
  scope ← lift (collectManualApplyFiles batch extraFiles);
  restore_snapshot rollbackSnapshot (Rollback [] []) scope.

(** ** The transaction file *)

Definition manualApplyTransactionPath : string := path_join [liveDir; "manual-edit-apply-transaction.json"].

Definition readManualApplyTransaction : eff fsys js :=
  there ← get (existsSync manualApplyTransactionPath);
  if negb there then mret JNull else
  attempt (text ← readFileSync manualApplyTransactionPath;
           match json_parse text with
           | Some v => mret v
           | None => lift (Throw (error "Unexpected token"))
           end)
          (fun _ => mret JNull).

Fixpoint transaction_files (files : list string) : eff fsys (list js) :=
  match files with
  | [] => mret []
  | relativeFile :: files =>
    let absolute := resolve cwd relativeFile in
    exists_ ← get (existsSync absolute);
    content ← (if exists_ : bool then readFileSync absolute else mret "");
    rest ← transaction_files files;
    mret (JObj [("file", JStr relativeFile); ("exists", JBool exists_); ("content", JStr content)] :: rest)
  end.

(** The ids of a batch or of the buffer. *)
Definition entry_ids (entries : js) : result (list js) :=
  entries ← as_array (entries ||? JArr []);
  ids ← mapM (fun entry => read_prop entry "id") entries;
  mret (compact ids).

(** [id] and [createdAt] are the random id and the clock. *)
Definition writeManualApplyTransaction (id createdAt pageUrl batch : js) : eff fsys js :=
  let file := manualApplyTransactionPath in
  files ← lift (collectManualApplyFiles batch (JArr []));
  entryIds ← lift (entry_ids (opt_get batch "entries"));
  saved ← transaction_files files;
  let transaction := JObj [("version", int 1); ("id", id); ("createdAt", createdAt); ("pageUrl", pageUrl);
                           ("entryIds", JArr entryIds); ("files", JArr saved)] in
  _ ← mkdirp (dirname file);
  _ ← writeFileSync (file +:+ ".tmp") (json_stringify2 transaction +:+ s_nl);
  _ ← renameSync (file +:+ ".tmp") file;
  mret transaction.

Definition clearManualApplyTransaction (transactionId : js) : eff fsys bool :=
  let file := manualApplyTransactionPath in
  there ← get (existsSync file);
  if negb there then mret false else
  existing ← (if truthy transactionId then readManualApplyTransaction else mret JNull);
  let other := opt_get existing "id" in
  if truthy transactionId && truthy other && negb (other === transactionId) then mret false else
  attempt (_ ← unlinkSync file; mret true) (fun _ => mret false).

Fixpoint restore_transaction (r : rollback) (items : list js) : eff fsys rollback :=
  match items with
  | [] => mret r
  | item :: items =>
    file ← lift (read_prop item "file");
    match normalizeProjectFile file with
    | None => restore_transaction r items
    | Some relativeFile =>
      r ← restore_one r relativeFile (truthy item.["exists"]) (item.["content"] ||? JStr "");
      restore_transaction r items
    end
  end.

Definition rollback_result (id reason : js) (r : rollback) : list (string * js) :=
  [("id", id); ("reason", reason); ("rolledBackFiles", JArr (JStr <$> rolledBackFiles r));
   ("rollbackFailures", JArr (rollbackFailures r))].

(** The ids still pending; the ids of the transaction when the buffer cannot be read. *)
Definition pending_ids (transaction : js) : eff fsys (list js) :=
  attempt (entries ← readBuffer liveDir; lift (entry_ids (JArr entries)))
          (fun _ => lift (iterate (transaction.["entryIds"] ||? JArr []))).

(** The result and the activity that is recorded last. *)
Definition rollbackManualApplyTransaction (pageUrl reason : js) : eff fsys (js * option (string * js)) :=
  transaction ← readManualApplyTransaction;
  if negb (truthy transaction) then mret (JNull, None) else
  if truthy pageUrl && truthy transaction.["pageUrl"] && negb (transaction.["pageUrl"] === pageUrl) then mret (JNull, None) else
  pendingIds ← pending_ids transaction;
  ids ← lift (as_array (transaction.["entryIds"] ||? JArr []));
  if negb (existsb (set_has pendingIds) ids) then
    _ ← clearManualApplyTransaction transaction.["id"];
    mret (JObj (rollback_result transaction.["id"] reason (Rollback [] []) ++ [("skipped", JStr "entries_not_pending")]), None)
  else
    items ← lift (iterate (transaction.["files"] ||? JArr []));
    r ← restore_transaction (Rollback [] []) items;
    _ ← clearManualApplyTransaction transaction.["id"];
    failures ← lift (summarizeManualDiagnostics (JArr (rollbackFailures r)));
    mret (JObj (rollback_result transaction.["id"] reason r),
          Some ("manual_edit_transaction_rolled_back",
                JObj [("id", transaction.["id"]); ("pageUrl", transaction.["pageUrl"] ||? JNull); ("reason", reason);
                      ("entryIds", transaction.["entryIds"] ||? JArr []);
                      ("rolledBackFiles", JArr (compact ((fun f => summarizeManualLogFile (JStr f)) <$> rolledBackFiles r)));
                      ("rollbackFailures", failures)])).

(** ** Evidence files *)

Definition manualApplyEvidenceDir : string := path_join [liveDir; "manual-edit-evidence"].

Definition writeManualApplyEvidence (eventId : string) (batch : js) : eff fsys string :=
  let evidencePath := path_join [manualApplyEvidenceDir; eventId +:+ ".json"] in
  _ ← mkdirp manualApplyEvidenceDir;
  _ ← writeFileSync evidencePath (json_stringify2 batch +:+ s_nl);
  mret evidencePath.

Definition normalizeManualApplyEvidencePath (evidencePath : js) : option string :=
  match evidencePath with
  | JStr p =>
    if String.eqb p "" then None else
    let fullPath := if is_absolute p then p else resolve cwd p in
    let rel := relative manualApplyEvidenceDir fullPath in
    if in_tree rel && String.eqb (extname rel) ".json" then Some fullPath else None
  | _ => None
  end.

Definition removeManualApplyEvidence (evidencePath : js) : eff fsys bool :=
  match normalizeManualApplyEvidencePath evidencePath with
  | None => mret false
  | Some fullPath => attempt (_ ← unlinkSync fullPath; mret true) (fun _ => mret false)
  end.
End Apply.

(** * Theorems *)

Section Facts.
Context (cwd liveDir : string).
Context (Hcwd : is_absolute cwd = true).
Implicit Types (s : fsys) (snapshot : gmap string before).
Notation abs f := (resolve cwd f).

Lemma project_file file rel : normalizeProjectFile cwd file = Some rel -> in_project cwd (abs rel).
Proof.
  destruct file as [| | | |f| |]; try done. cbn [normalizeProjectFile]. destruct (String.eqb f ""); [done|].
  cbv zeta. destruct (in_tree _) eqn:Ht; [|done]. intros [= <-].
  apply resolve_relative; [done| |done]. destruct (is_absolute f) eqn:Ef; [done|reflexivity].
Qed.

Lemma mapM_elem_of {A B} (f : A -> result B) l k y : mapM f l = Ok k -> y ∈ k -> exists x, x ∈ l /\ f x = Ok y.
Proof.
  revert k; induction l as [|x l IH]; intros k; simpl; [intros [= <-] Hy; by apply elem_of_nil in Hy|].
  intros (z & Hz & H)%bind_ok. apply bind_ok in H as (k' & Hk & [= <-]).
  intros [->|Hy]%elem_of_cons; [set_solver|]. destruct (IH _ Hk Hy) as (x' & ? & ?). set_solver.
Qed.

(** Every collected file is named from the project root. *)
Lemma collected_from batch extra files rel :
  collectManualApplyFiles cwd batch extra = Ok files -> rel ∈ files -> in_project cwd (abs rel).
Proof.
  unfold collectManualApplyFiles. intros H Hrel.
  repeat (apply bind_ok in H as (? & _ & H)). injection H as <-.
  apply list_elem_of_omap in Hrel as (file & _ & Hf). by apply project_file in Hf.
Qed.

(** Naming more files keeps those the batch names. *)
Lemma collect_extra batch extra files scope :
  collectManualApplyFiles cwd batch (JArr []) = Ok files ->
  collectManualApplyFiles cwd batch extra = Ok scope -> files ⊆ scope.
Proof.
  unfold collectManualApplyFiles. intros H1 H2 rel.
  apply bind_ok in H1 as (entries & He & H1). rewrite He in H2. cbn [mbind result_bind] in H2.
  apply bind_ok in H1 as (fs & Hf & H1). rewrite Hf in H2. cbn [mbind result_bind] in H2.
  apply bind_ok in H1 as (candidates & Hc & H1). rewrite Hc in H2. cbn [mbind result_bind] in H2.
  apply bind_ok in H1 as (more & Hm & H1). rewrite Hm in H2. cbn [mbind result_bind] in H2.
  injection H1 as <-. apply bind_ok in H2 as (e & _ & [= <-]). rewrite app_nil_r.
  intros (file & Hin & Hfile)%list_elem_of_omap. apply list_elem_of_omap. exists file. split; [|done].
  destruct file as [| | | |f| |]; try done. rewrite set_of_str in Hin |- *. set_solver.
Qed.

(** ** Restoring *)

(** [existed] and [content] are what the file was in [s0]. *)
Definition saved s0 (rel : string) (existed : bool) (content : string) : Prop :=
  f_text s0 !! abs rel = if existed then Some content else None.

Definition no_dirs s (files : list string) : Prop := forall f, f ∈ files -> is_dir (abs f) s = false.

(** A state of the restoration: [done] restored from [s0], the rest as in [s1]. *)
Record restoring s0 s1 (r : rollback) s : Prop := {
  rs_back : forall f, f ∈ rolledBackFiles r -> f_text s !! abs f = f_text s0 !! abs f;
  rs_rest : forall p, (forall f, f ∈ rolledBackFiles r -> p <> abs f) -> f_text s !! p = f_text s1 !! p;
  rs_dirs : f_dirs s ⊆ f_dirs s0 ∪ f_dirs s1;
  rs_failed : rollbackFailures r = [] }.

Lemma restore_one_ok s0 s1 r s rel existed content :
  fs_tree s0 -> restoring s0 s1 r s -> saved s0 rel existed content ->
  is_dir (abs rel) s0 = false -> is_dir (abs rel) s1 = false ->
  exists s', restore_one cwd r rel existed (JStr content) s = (Ok (Rollback (rolledBackFiles r ++ [rel]) []), s') /\
    restoring s0 s1 (Rollback (rolledBackFiles r ++ [rel]) []) s'.
Proof.
  intros Ht [Hb Hr Hd Hf] Hsaved Hd0 Hd1. unfold saved in Hsaved.
  assert (forall ds, ds ⊆ f_dirs s0 ∪ f_dirs s1 -> bool_decide (abs rel ∈ ds) = false) as Hnd.
  { intros ds Hds. apply bool_decide_eq_false. unfold is_dir in *. apply bool_decide_eq_false in Hd0, Hd1. set_solver. }
  assert (forall s', f_text s' !! abs rel = f_text s0 !! abs rel -> (forall p, p <> abs rel -> f_text s' !! p = f_text s !! p) ->
            f_dirs s' ⊆ f_dirs s0 ∪ f_dirs s1 -> restoring s0 s1 (Rollback (rolledBackFiles r ++ [rel]) []) s') as Hnew.
  { intros s' H1 H2 H3. constructor; cbn [rolledBackFiles rollbackFailures]; [| |done|done].
    - intros f [Hin| ->%list_elem_of_singleton]%elem_of_app; [|done].
      destruct (decide (abs f = abs rel)) as [->|]; [done|]. rewrite H2 by done. by apply Hb.
    - intros p Hp. rewrite H2 by (apply Hp; set_solver). apply Hr. intros f Hin. apply Hp. set_solver. }
  unfold restore_one, restore_file, attempt, mbind, eff_bind. rewrite Hf. cbn [app].
  destruct existed.
  - unfold mkdirp, upd, writeFileSync, is_dir. cbn [f_dirs f_text set_text].
    assert (list_to_set (dir_prefixes (dirname (abs rel))) ⊆ f_dirs s0) as Hpre.
    { intros d Hin. apply elem_of_list_to_set in Hin. by eapply Ht. }
    rewrite Hnd by set_solver. eexists. split; [reflexivity|]. apply Hnew; cbn [f_text f_dirs set_text].
    + by rewrite lookup_insert_eq, Hsaved.
    + intros p Hp. by rewrite lookup_insert_ne.
    + set_solver.
  - unfold get, existsSync, is_dir. rewrite Hnd by done. rewrite orb_false_r.
    destruct (f_text s !! abs rel) as [t|] eqn:E.
    + rewrite bool_decide_true by eauto. unfold unlinkSync. rewrite E. eexists. split; [reflexivity|].
      apply Hnew; cbn [f_text f_dirs set_text]; [by rewrite lookup_delete_eq, Hsaved| |done].
      intros p Hp. by rewrite lookup_delete_ne.
    + rewrite bool_decide_false by (intros [? ?]; done). eexists. split; [reflexivity|].
      apply Hnew; [by rewrite E, Hsaved|done|done].
Qed.

(** ** Snapshots *)

(** What [snapshot] holds is true of [s]. *)
Definition truthful s snapshot : Prop :=
  forall f b, snapshot !! f = Some b -> saved s f (b_exists b) (b_content b).

Lemma snapshot_file_ok snapshot f s : truthful s snapshot ->
  exists snapshot', snapshot_file cwd snapshot f s = (Ok snapshot', s) /\ truthful s snapshot' /\
    dom snapshot ⊆ dom snapshot' /\ (is_dir (abs f) s = false -> f ∈ dom snapshot').
Proof.
  intros Ht. unfold snapshot_file, attempt, mbind, eff_bind, get, existsSync, readFileSync.
  assert (forall b, saved s f (b_exists b) (b_content b) -> truthful s (<[f := b]> snapshot)) as Hnew.
  { intros b Hb g c [[-> <-]|[_ Hg]]%lookup_insert_Some; [done|by apply Ht]. }
  destruct (f_text s !! abs f) as [t|] eqn:E.
  - rewrite bool_decide_true by eauto. cbn [orb]. rewrite E. eexists. split; [reflexivity|].
    split; [by apply Hnew|]. rewrite dom_insert. set_solver.
  - rewrite bool_decide_false by (intros [? ?]; done). cbn [orb]. destruct (is_dir (abs f) s); [rewrite E|];
      (eexists; split; [reflexivity|]).
    + split_and!; [done|set_solver|done].
    + split; [by apply Hnew|]. rewrite dom_insert. set_solver.
Qed.

Lemma snapshot_files_ok files snapshot s : truthful s snapshot ->
  exists snapshot', snapshot_files cwd snapshot files s = (Ok snapshot', s) /\ truthful s snapshot' /\
    dom snapshot ⊆ dom snapshot' /\ forall f, f ∈ files -> is_dir (abs f) s = false -> f ∈ dom snapshot'.
Proof.
  revert snapshot; induction files as [|f files IH]; intros snapshot Ht; cbn [snapshot_files].
  { eexists. split; [reflexivity|]. split_and!; [done..|]. intros f Hf. by apply elem_of_nil in Hf. }
  destruct (snapshot_file_ok snapshot f s Ht) as (sn1 & H1 & Ht1 & Hd1 & Hf1).
  destruct (IH sn1 Ht1) as (sn2 & H2 & Ht2 & Hd2 & Hf2).
  exists sn2. unfold mbind, eff_bind. rewrite H1. split; [exact H2|]. split_and!; [done|set_solver|].
  intros g [->|Hg]%elem_of_cons Hdir; [|by apply Hf2]. apply Hd2, Hf1, Hdir.
Qed.

(** It holds no other file. *)
Lemma snapshot_files_dom f l : forall m m' s s',
  snapshot_files cwd m l s = (Ok m', s') -> f ∈ dom m' -> f ∈ dom m \/ f ∈ l.
Proof.
  induction l as [|g l IH]; intros m m' s s'; cbn [snapshot_files]; [intros [= <- _]; by left|].
  intros (m1 & s1 & H1 & H)%eff_bind_ok Hm. destruct (IH _ _ _ _ H Hm) as [Hf1|Hf1]; [|set_solver].
  unfold snapshot_file, attempt, mbind, eff_bind, get in H1. destruct (existsSync (abs g) s).
  - unfold readFileSync in H1. destruct (f_text s !! abs g); injection H1 as <- _; [|by left]. rewrite dom_insert in Hf1. set_solver.
  - injection H1 as <- _. rewrite dom_insert in Hf1. set_solver.
Qed.

(** The files of [scope] that the snapshot knows are restored, in order. *)
Lemma restore_snapshot_ok s0 s1 snapshot scope : fs_tree s0 -> truthful s0 snapshot ->
  (forall f, f ∈ scope -> f ∈ dom snapshot -> is_dir (abs f) s0 = false /\ is_dir (abs f) s1 = false) ->
  forall r s, restoring s0 s1 r s -> exists r' s', restore_snapshot cwd snapshot r scope s = (Ok r', s') /\
    restoring s0 s1 r' s' /\ rolledBackFiles r' = rolledBackFiles r ++ filter (fun f => f ∈ dom snapshot) scope.
Proof.
  intros Ht Hsn. induction scope as [|f scope IH]; intros Hd r s Hr; cbn [restore_snapshot].
  { exists r, s. split; [done|]. split; [done|]. cbn. by rewrite app_nil_r. }
  destruct (snapshot !! f) as [b|] eqn:E.
  - assert (f ∈ dom snapshot) as Hf by (apply elem_of_dom; eauto).
    destruct (restore_one_ok s0 s1 r s f (b_exists b) (b_content b)) as (s' & H1 & Hr1);
      [done|done|by apply Hsn|apply Hd; set_solver..|].
    destruct (IH ltac:(set_solver) _ _ Hr1) as (r2 & s2 & H2 & Hr2 & Hrb).
    exists r2, s2. unfold mbind, eff_bind. rewrite H1. split_and!; [done|done|].
    rewrite Hrb. cbn [rolledBackFiles]. rewrite filter_cons_True by done. by rewrite <- app_assoc.
  - assert (f ∉ dom snapshot) as Hf by by apply not_elem_of_dom.
    rewrite filter_cons_False by done. apply IH; [set_solver|done].
Qed.

(** A rollback restores what the snapshot saved: if files were snapshotted for a batch, then
    whatever an agent did to the file system since, rolling the batch back - with any more files
    the late reply names - gives every file of the batch its old content again, removes
    those that were not there, reports no failure and changes nothing else. *)
Theorem rollback_restores batch extra files snapshot s0 s0' s1 r s2 :
  collectManualApplyFiles cwd batch (JArr []) = Ok files ->
  snapshotApplyEventFiles cwd batch s0 = (Ok snapshot, s0') ->
  fs_tree s0 -> no_dirs s0 files -> no_dirs s1 files ->
  rollbackApplySnapshot cwd batch snapshot extra s1 = (Ok r, s2) ->
  (forall f, f ∈ files -> f_text s2 !! abs f = f_text s0 !! abs f) /\
  (forall p, (forall f, f ∈ files -> p <> abs f) -> f_text s2 !! p = f_text s1 !! p) /\
  rollbackFailures r = [].
Proof.
  intros Hc Hs Ht Hd0 Hd1 Hroll. unfold snapshotApplyEventFiles, lift, mbind, eff_bind in Hs. rewrite Hc in Hs.
  destruct (snapshot_files_ok files ∅ s0) as (sn & H1 & Hsn & _ & Hall); [by intros f b|].
  rewrite H1 in Hs. injection Hs as <- <-.
  assert (forall f, f ∈ dom sn -> f ∈ files) as Honly.
  { intros f Hf. destruct (snapshot_files_dom _ _ _ _ _ _ H1 Hf) as [He|]; [by rewrite dom_empty in He|done]. }
  unfold rollbackApplySnapshot in Hroll. apply eff_bind_ok in Hroll as (scope & s & Hsc & Hroll).
  injection Hsc as Hsc <-.
  assert (restoring s0 s1 (Rollback [] []) s1) as Hinit by (constructor; [intros f Hf; by apply elem_of_nil in Hf|done|set_solver|done]).
  destruct (restore_snapshot_ok s0 s1 sn scope Ht Hsn) with (r := Rollback [] []) (s := s1)
    as (r' & s' & Hr' & [Hb Hrest _ Hfail] & Hrb); [|done|].
  { intros f _ Hf. split; [apply Hd0|apply Hd1]; by apply Honly. }
  rewrite Hr' in Hroll. injection Hroll as -> ->. cbn [rolledBackFiles app] in Hrb. split_and!; [| |done].
  - intros f Hf. apply Hb. rewrite Hrb. apply list_elem_of_filter. split; [apply Hall; [done|by apply Hd0]|].
    by apply (collect_extra batch extra files scope).
  - intros p Hp. apply Hrest. intros f Hf. rewrite Hrb in Hf. apply list_elem_of_filter in Hf as [Hf _]. by apply Hp, Honly.
Qed.

(** ** The transaction *)

Lemma project_file_again file rel : normalizeProjectFile cwd file = Some rel -> normalizeProjectFile cwd (JStr rel) = Some rel.
Proof.
  destruct file as [| | | |f| |]; try done. cbn [normalizeProjectFile]. destruct (String.eqb f ""); [done|]. cbv zeta.
  set (a := if is_absolute f then f else resolve cwd f).
  assert (is_absolute a = true) as Ha by (unfold a; destruct (is_absolute f) eqn:Ef; [done|reflexivity]).
  destruct (in_tree (relative cwd a)) eqn:Ht; [|done]. intros [= <-].
  destruct (resolve_relative cwd a Hcwd Ha Ht) as [Hr _].
  pose proof Ht as Ht'. unfold in_tree in Ht. split_bools. rewrite H, H0, Hr.
  assert (relative cwd (of_segs (norm_segs false [] (segs_of a))) = relative cwd a) as ->; [|by rewrite Ht'].
  unfold relative. by rewrite norm_of_segs by (apply norm_segs_abs_plain; [constructor|apply split_no_sep]).
Qed.

Lemma collected_again batch extra files rel :
  collectManualApplyFiles cwd batch extra = Ok files -> rel ∈ files -> normalizeProjectFile cwd (JStr rel) = Some rel.
Proof.
  unfold collectManualApplyFiles. intros H Hrel. repeat (apply bind_ok in H as (? & _ & H)). injection H as <-.
  apply list_elem_of_omap in Hrel as (file & _ & Hf). by eapply project_file_again.
Qed.

(** The record of a file in the transaction. *)
Definition saved_item s (f : string) : js :=
  JObj [("file", JStr f); ("exists", JBool (bool_decide (is_Some (f_text s !! abs f))));
        ("content", JStr (default "" (f_text s !! abs f)))].

Lemma transaction_files_ok s files : no_dirs s files ->
  transaction_files cwd files s = (Ok (saved_item s <$> files), s).
Proof.
  induction files as [|f files IH]; intros Hd; cbn [transaction_files]; [done|].
  unfold mbind, eff_bind, get, existsSync. rewrite Hd by set_solver. rewrite orb_false_r.
  rewrite fmap_cons. assert (saved_item s f = JObj [("file", JStr f); ("exists", JBool (bool_decide (is_Some (f_text s !! abs f))));
    ("content", JStr (default "" (f_text s !! abs f)))]) as -> by done.
  specialize (IH ltac:(intros g Hg; apply Hd; set_solver)). destruct (f_text s !! abs f) as [t|] eqn:E.
  - rewrite bool_decide_true by eauto. unfold readFileSync. rewrite E, IH. reflexivity.
  - rewrite bool_decide_false by (intros [? ?]; done). unfold mret, eff_ret. rewrite IH. reflexivity.
Qed.

Lemma restore_transaction_ok s0 s1 files : fs_tree s0 -> no_dirs s0 files -> no_dirs s1 files ->
  (forall f, f ∈ files -> normalizeProjectFile cwd (JStr f) = Some f) ->
  forall r s, restoring s0 s1 r s -> exists r' s', restore_transaction cwd r (saved_item s0 <$> files) s = (Ok r', s') /\
    restoring s0 s1 r' s' /\ rolledBackFiles r' = rolledBackFiles r ++ files.
Proof.
  intros Ht. induction files as [|f files IH]; intros Hd0 Hd1 Hn r s Hr; cbn [fmap list_fmap restore_transaction].
  { exists r, s. by rewrite app_nil_r. }
  destruct (restore_one_ok s0 s1 r s f (bool_decide (is_Some (f_text s0 !! abs f))) (default "" (f_text s0 !! abs f)))
    as (s' & H1 & Hr1); [done|done| |apply Hd0; set_solver|apply Hd1; set_solver|].
  { unfold saved. destruct (f_text s0 !! abs f) as [t|]; [by rewrite bool_decide_true by eauto|].
    by rewrite bool_decide_false by (intros [? ?]; done). }
  destruct (IH ltac:(intros g Hg; apply Hd0; set_solver) ltac:(intros g Hg; apply Hd1; set_solver) ltac:(set_solver) _ _ Hr1)
    as (r2 & s2 & H2 & Hr2 & Hrb).
  exists r2, s2. unfold mbind, eff_bind, lift. change (read_prop (saved_item s0 f) "file") with (Ok (JStr f)).
  cbn beta iota. rewrite Hn by set_solver. change (truthy (saved_item s0 f).["exists"]) with (bool_decide (is_Some (f_text s0 !! abs f))).
  change ((saved_item s0 f).["content"]) with (JStr (default "" (f_text s0 !! abs f))).
  assert ((JStr (default "" (f_text s0 !! abs f)) ||? JStr "") = JStr (default "" (f_text s0 !! abs f))) as ->
    by (unfold or_else; by destruct (default "" _)).
  rewrite H1. split_and!; [done|done|]. rewrite Hrb. cbn [rolledBackFiles]. by rewrite <- app_assoc.
Qed.

(** The buffer still holds an entry of [ids]. *)
Definition still_pending (ids : list js) s : Prop :=
  exists entries pending, readBuffer liveDir s = (Ok entries, s) /\ entry_ids (JArr entries) = Ok pending /\
    existsb (set_has pending) ids = true.

Definition transaction (id at_ page : string) (ids : list string) s (files : list string) : js :=
  JObj [("version", int 1); ("id", JStr id); ("createdAt", JStr at_); ("pageUrl", JStr page);
        ("entryIds", JArr (JStr <$> ids)); ("files", JArr (saved_item s <$> files))].

Lemma json_strs (l : list string) : json_norm <$> (JStr <$> l) = JStr <$> l.
Proof. induction l as [|x l IH]; [done|]. by rewrite !fmap_cons, IH. Qed.

Lemma transaction_norm id at_ page ids s files :
  json_norm (transaction id at_ page ids s files) = transaction id at_ page ids s files.
Proof.
  unfold transaction. cbn [json_norm is_undef]. rewrite json_strs.
  assert (json_norm <$> (saved_item s <$> files) = saved_item s <$> files) as ->; [|done].
  induction files as [|f files IH]; [done|]. rewrite !fmap_cons, IH. done.
Qed.

Lemma transaction_json_ok id at_ page ids s files : json_ok (transaction id at_ page ids s files).
Proof.
  unfold transaction. apply json_ok_obj. split; [vm_compute; repeat constructor; set_solver|].
  repeat constructor; try (apply json_ok_arr, Forall_fmap, Forall_forall; intros x _; cbn [compose]); [done|].
  apply json_ok_obj. split; [vm_compute; repeat constructor; set_solver|]. repeat constructor.
Qed.

Lemma read_transaction s id at_ page ids s0 files :
  f_text s !! manualApplyTransactionPath liveDir =
    Some (json_stringify2 (transaction id at_ page ids s0 files) +:+ s_nl) ->
  readManualApplyTransaction liveDir s = (Ok (transaction id at_ page ids s0 files), s).
Proof.
  intros H. unfold readManualApplyTransaction, attempt, mbind, eff_bind, get, existsSync, readFileSync.
  rewrite H, bool_decide_true by eauto. cbn [orb negb]. rewrite H.
  unfold json_stringify2. rewrite parse_print_nl by (done || apply transaction_json_ok). by rewrite transaction_norm.
Qed.

Lemma write_transaction id at_ page batch files ids s tx s' :
  collectManualApplyFiles cwd batch (JArr []) = Ok files ->
  entry_ids (opt_get batch "entries") = Ok (JStr <$> ids) -> no_dirs s files ->
  writeManualApplyTransaction cwd liveDir (JStr id) (JStr at_) (JStr page) batch s = (Ok tx, s') ->
  f_text s' !! manualApplyTransactionPath liveDir =
    Some (json_stringify2 (transaction id at_ page ids s files) +:+ s_nl).
Proof.
  intros Hc Hi Hd. unfold writeManualApplyTransaction. cbv zeta. intros H.
  apply eff_bind_ok in H as (? & ? & [= Hf <-] & H). rewrite Hc in Hf. injection Hf as <-.
  apply eff_bind_ok in H as (? & ? & [= Hf <-] & H). rewrite Hi in Hf. injection Hf as <-.
  apply eff_bind_ok in H as (items & s1 & Hs & H). rewrite transaction_files_ok in Hs by done. injection Hs as <- <-.
  apply eff_bind_ok in H as ([] & s2 & _ & H). apply eff_bind_ok in H as ([] & s3 & Hw & H).
  apply eff_bind_ok in H as ([] & s4 & Hr & H). injection H as _ <-.
  unfold writeFileSync in Hw. destruct (is_dir _ s2); [done|]. injection Hw as <-.
  unfold renameSync in Hr. cbn [f_text set_text] in Hr. rewrite lookup_insert_eq in Hr.
  destruct (is_dir _ _); [done|]. injection Hr as <-. cbn [f_text set_text]. by rewrite lookup_insert_eq.
Qed.

Lemma clear_transaction s id at_ page ids s0 files : id <> "" ->
  f_text s !! manualApplyTransactionPath liveDir =
    Some (json_stringify2 (transaction id at_ page ids s0 files) +:+ s_nl) ->
  clearManualApplyTransaction liveDir (JStr id) s =
    (Ok true, set_text (delete (manualApplyTransactionPath liveDir) (f_text s)) s).
Proof.
  intros Hid H. unfold clearManualApplyTransaction, attempt, mbind, eff_bind, get, existsSync. cbv zeta.
  rewrite H, bool_decide_true by eauto. cbn [orb negb truthy].
  assert (String.eqb id "" = false) as -> by by apply String.eqb_neq. cbn [negb].
  rewrite (read_transaction _ _ _ _ _ _ _ H).
  assert (opt_get (transaction id at_ page ids s0 files) "id" = JStr id) as -> by done.
  cbn [truthy strict_eq]. rewrite String.eqb_refl, andb_false_r. unfold unlinkSync. by rewrite H.
Qed.

(** C14: An Apply interrupted by a crash is undone: if the transaction written before an Apply is still
    there and one of its entries is still pending in the buffer, then whatever text the source files
    were given since, recovery gives each file of the batch the content it had when the transaction was written,
    removes those that did not exist, removes the transaction and changes nothing else. Recovery is
    asked for no page, as the server does when it starts, or for the page of the Apply, as a later
    request does. None of the files has become a directory meanwhile and none is the transaction file. *)
Theorem interrupted_apply_is_undone asked id at_ page batch files ids s0 tx s0' s1 reason :
  (truthy asked = true -> asked = JStr page) ->
  collectManualApplyFiles cwd batch (JArr []) = Ok files ->
  entry_ids (opt_get batch "entries") = Ok (JStr <$> ids) -> id <> "" ->
  writeManualApplyTransaction cwd liveDir (JStr id) (JStr at_) (JStr page) batch s0 = (Ok tx, s0') ->
  fs_tree s0 -> no_dirs s0 files -> no_dirs s1 files ->
  (forall f, f ∈ files -> abs f <> manualApplyTransactionPath liveDir) ->
  f_text s1 !! manualApplyTransactionPath liveDir = f_text s0' !! manualApplyTransactionPath liveDir ->
  still_pending (JStr <$> ids) s1 ->
  exists out s2, rollbackManualApplyTransaction cwd liveDir asked reason s1 = (Ok out, s2) /\
    (forall f, f ∈ files -> f_text s2 !! abs f = f_text s0 !! abs f) /\
    f_text s2 !! manualApplyTransactionPath liveDir = None /\
    (forall p, p <> manualApplyTransactionPath liveDir -> (forall f, f ∈ files -> p <> abs f) -> f_text s2 !! p = f_text s1 !! p).
Proof.
  intros Hasked Hc Hi Hid Hw Ht Hd0 Hd1 Hpath Hsame (entries & pending & Hbuf & Hpend & Hsome).
  rewrite (write_transaction _ _ _ _ _ _ _ _ _ Hc Hi Hd0 Hw) in Hsame.
  assert (restoring s0 s1 (Rollback [] []) s1) as Hinit by (constructor; [intros f Hf; by apply elem_of_nil in Hf|done|set_solver|done]).
  destruct (restore_transaction_ok s0 s1 files Ht Hd0 Hd1) with (r := Rollback [] []) (s := s1)
    as (r & s2 & Hr & [Hb Hrest _ Hfail] & Hrb); [intros f Hf; by eapply collected_again|done|].
  cbn [rolledBackFiles app] in Hrb. rewrite Hrb in Hb, Hrest.
  assert (f_text s2 !! manualApplyTransactionPath liveDir = Some (json_stringify2 (transaction id at_ page ids s0 files) +:+ s_nl)) as Hs2.
  { rewrite Hrest; [done|]. intros f Hf. by apply not_eq_sym, Hpath. }
  unfold rollbackManualApplyTransaction, mbind, eff_bind. rewrite (read_transaction _ _ _ _ _ _ _ Hsame).
  cbn [negb truthy transaction]. change ((transaction id at_ page ids s0 files).["pageUrl"]) with (JStr page).
  assert (truthy asked && truthy (JStr page) && negb (JStr page === asked) = false) as ->.
  { destruct (truthy asked); [|done]. rewrite Hasked by done. cbn [strict_eq]. by rewrite String.eqb_refl, andb_false_r. }
  unfold pending_ids, attempt, mbind, eff_bind. rewrite Hbuf. unfold lift. rewrite Hpend.
  change ((transaction id at_ page ids s0 files).["entryIds"] ||? JArr []) with (JArr (JStr <$> ids)). cbn [as_array].
  rewrite Hsome. cbn [negb].
  change ((transaction id at_ page ids s0 files).["files"] ||? JArr []) with (JArr (saved_item s0 <$> files)). cbn [iterate].
  rewrite Hr. change ((transaction id at_ page ids s0 files).["id"]) with (JStr id).
  rewrite (clear_transaction _ _ _ _ _ _ _ Hid Hs2), Hfail. do 2 eexists. split; [reflexivity|]. cbn [f_text set_text].
  split_and!.
  - intros f Hf. rewrite lookup_delete_ne by (by apply not_eq_sym, Hpath). by apply Hb.
  - apply lookup_delete_eq.
  - intros p Hp Hnf. rewrite lookup_delete_ne by done. by apply Hrest.
Qed.

(** ** What a transaction file may do *)

Definition recoverable (p : string) : Prop := p = manualApplyTransactionPath liveDir \/ in_project cwd p.

Lemma touches_restore_one P r rel existed content : P (abs rel) -> only_touches P (restore_one cwd r rel existed content).
Proof.
  intros HP. unfold restore_one, restore_file. touch; try (by apply touches_write); by apply touches_unlink.
Qed.

Lemma touches_restore_transaction r items : only_touches recoverable (restore_transaction cwd r items).
Proof.
  revert r; induction items as [|item items IH]; intros r; cbn [restore_transaction]; [done|].
  apply touches_bind; [done|]. intros file. destruct (normalizeProjectFile cwd file) as [rel|] eqn:E; [|apply IH].
  apply touches_bind; [|intros ?; apply IH]. apply touches_restore_one. right. by eapply project_file.
Qed.

Lemma touches_clear P id : P (manualApplyTransactionPath liveDir) -> only_touches P (clearManualApplyTransaction liveDir id).
Proof. intros HP. unfold clearManualApplyTransaction, readManualApplyTransaction. touch. by apply touches_unlink. Qed.

Lemma touches_pending P tx : only_touches P (pending_ids liveDir tx).
Proof. unfold pending_ids, readBuffer, readBufferInternal. touch. Qed.

(** C15: Recovery stays in the project and respects what was committed: whatever a transaction file
    says - it comes with the repository - recovery changes only that file and files below the
    project root; and when none of its entries is pending any more it touches no
    source file at all. *)
Theorem recovery_is_confined pageUrl reason s p :
  (p <> manualApplyTransactionPath liveDir -> ~ in_project cwd p ->
   f_text (rollbackManualApplyTransaction cwd liveDir pageUrl reason s).2 !! p = f_text s !! p) /\
  (forall tx pending, readManualApplyTransaction liveDir s = (Ok tx, s) -> pending_ids liveDir tx s = (Ok pending, s) ->
   (forall ids, as_array (tx.["entryIds"] ||? JArr []) = Ok ids -> existsb (set_has pending) ids = false) ->
   p <> manualApplyTransactionPath liveDir ->
   f_text (rollbackManualApplyTransaction cwd liveDir pageUrl reason s).2 !! p = f_text s !! p).
Proof.
  split.
  - intros H1 H2. assert (only_touches recoverable (rollbackManualApplyTransaction cwd liveDir pageUrl reason)) as Ht;
      [|apply Ht; by intros [?|?]].
    unfold rollbackManualApplyTransaction, readManualApplyTransaction.
    touch; try apply touches_pending; try (apply touches_clear; by left); apply touches_restore_transaction.
  - intros tx pending Hr Hp Hn Hne. unfold rollbackManualApplyTransaction, mbind, eff_bind. rewrite Hr.
    destruct (negb (truthy tx)); [done|]. destruct (_ && _ && _); [done|]. rewrite Hp. unfold lift.
    destruct (as_array _) as [ids|e] eqn:Ea; [|done]. rewrite (Hn ids eq_refl). cbn [negb].
    assert (only_touches (fun q => q = manualApplyTransactionPath liveDir) (clearManualApplyTransaction liveDir tx.["id"])) as Ht
      by by apply touches_clear.
    specialize (Ht s p Hne). by destruct (clearManualApplyTransaction _ _ s) as [[b|e] s'].
Qed.
End Facts.

(** ** Concrete runs *)

Definition demo_batch : js :=
  JObj [("entries", JArr [JObj [("id", JStr "e1"); ("ops", JArr [JObj [("sourceHint", JObj [("file", JStr "a.html")])]])]])].
Definition demo_before : fsys := Fsys {[ "/p/a.html" := "old" ]} {[ "/"; "/p" ]}.
Definition demo_edited : fsys := Fsys {[ "/p/a.html" := "half-edited" ]} {[ "/"; "/p" ]}.

Lemma demo_tree : fs_tree demo_before.
Proof.
  intros p t d H. change (({[ "/p/a.html" := "old" ]} : gmap string string) !! p = Some t) in H. apply lookup_singleton_Some in H as [<- <-]. change (dir_prefixes (dirname "/p/a.html")) with ["/"; "/p"].
  intros [->|[->|H]%elem_of_cons]%elem_of_cons; [set_solver..|by apply elem_of_nil in H].
Qed.

Lemma demo_no_dirs (s : fsys) : f_dirs s = {[ "/"; "/p" ]} -> no_dirs "/p" s ["a.html"].
Proof.
  intros Hs f ->%list_elem_of_singleton. unfold is_dir. rewrite Hs. vm_compute. reflexivity.
Qed.

Lemma rollback_restores_witness : exists r s2,
  rollbackApplySnapshot "/p" demo_batch {[ "a.html" := Before true "old" ]} (JArr []) demo_edited = (Ok r, s2) /\
  f_text s2 !! "/p/a.html" = Some "old".
Proof.
  destruct (rollbackApplySnapshot "/p" demo_batch {[ "a.html" := Before true "old" ]} (JArr []) demo_edited) as [[r|e] s2] eqn:E;
    [|vm_compute in E; discriminate E].
  exists r, s2. split; [reflexivity|].
  destruct (rollback_restores "/p" eq_refl demo_batch (JArr []) ["a.html"] {[ "a.html" := Before true "old" ]} demo_before demo_before demo_edited r s2)
    as (H & _ & _); [vm_compute; reflexivity|vm_compute; reflexivity|apply demo_tree|by apply demo_no_dirs|by apply demo_no_dirs|exact E|].
  specialize (H "a.html" ltac:(by apply list_elem_of_singleton)). exact H.
Defined.

Definition demo_live_dir : string := "/p/.impeccable/live".
Definition demo_written : fsys :=
  (writeManualApplyTransaction "/p" demo_live_dir (JStr "t1") (JStr "now") (JStr "/") demo_batch demo_before).2.
(** The crash: the source half edited, the transaction and the buffer still there. *)
Definition demo_crashed : fsys :=
  Fsys (<["/p/a.html" := "half-edited"]> (<[getBufferPath demo_live_dir := json_stringify2 (buffer [JObj [("id", JStr "e1")]])]> (f_text demo_written)))
       (f_dirs demo_written).

Lemma interrupted_apply_is_undone_witness : exists out s2,
  rollbackManualApplyTransaction "/p" demo_live_dir JUndef (JStr "startup") demo_crashed = (Ok out, s2) /\
  f_text s2 !! "/p/a.html" = Some "old".
Proof.
  destruct (writeManualApplyTransaction "/p" demo_live_dir (JStr "t1") (JStr "now") (JStr "/") demo_batch demo_before)
    as [[tx|e] s0'] eqn:E; [|vm_compute in E; discriminate E].
  assert (s0' = demo_written) as -> by (unfold demo_written; rewrite E; reflexivity).
  destruct (interrupted_apply_is_undone "/p" demo_live_dir eq_refl JUndef "t1" "now" "/" demo_batch ["a.html"] ["e1"] demo_before tx
              demo_written demo_crashed (JStr "startup")) as (out & s2 & Hr & Hf & _).
  - discriminate.
  - vm_compute. reflexivity.
  - vm_compute. reflexivity.
  - discriminate.
  - exact E.
  - apply demo_tree.
  - by apply demo_no_dirs.
  - intros f ->%list_elem_of_singleton. vm_compute. reflexivity.
  - intros f ->%list_elem_of_singleton. vm_compute. discriminate.
  - vm_compute. reflexivity.
  - exists [JObj [("id", JStr "e1")]], [JStr "e1"]. split_and!; vm_compute; reflexivity.
  - exists out, s2. split; [exact Hr|]. specialize (Hf "a.html" ltac:(by apply list_elem_of_singleton)). exact Hf.
Defined.

Definition hostile : fsys :=
  Fsys {[ manualApplyTransactionPath demo_live_dir :=
            json_stringify (JObj [("entryIds", JArr [JStr "e1"]); ("files", JArr [JObj [("file", JStr "../x")]])]);
          "/x" := "kept" ]} {[ "/" ]}.

Lemma recovery_is_confined_witness :
  f_text (rollbackManualApplyTransaction "/p" demo_live_dir JUndef (JStr "startup") hostile).2 !! "/x" = Some "kept".
Proof.
  destruct (recovery_is_confined "/p" demo_live_dir eq_refl JUndef (JStr "startup") hostile "/x") as [H _].
  rewrite H; [vm_compute; reflexivity|vm_compute; discriminate|].
  intros (segs & Hs & Hp & rest & _ & ->). change (resolve_segs "/p" "/p") with ["p"] in *.
  change "/x" with (of_segs ["x"]) in Hp. apply of_segs_inj in Hp; [discriminate| |exact Hs]. repeat constructor.
Defined.
