(* ===== verification/ApplyBatch.v ===== *)
(** * Batches of an Apply ([live/manual-apply.mjs], the data half)

    What an Apply sends to the agent and what it accepts back: the compacted batch, the
    validation of the agent's reply, and the split of a large batch into chunks. *)
From S2P Require Import Prelude JsString JsValue Json JsRegex NodePath Vocabulary EventValidation PollLanes Files ManualEditsBuffer ApplyFiles.
Local Open Scope Z_scope.

Definition DEFAULT_MANUAL_EDIT_APPLY_CHUNK_SIZE : Z := 3.
Definition MIN_MANUAL_EDIT_APPLY_CHUNK_SIZE : Z := 1.
Definition MAX_MANUAL_EDIT_APPLY_CHUNK_SIZE : Z := 20.
Definition MANUAL_APPLY_COMPACT_TEXT_LIMIT : nat := 240.
Definition MANUAL_APPLY_COMPACT_NEARBY_LIMIT : nat := 4.

(** [raw] is [env.IMPECCABLE_LIVE_MANUAL_EDIT_CHUNK_SIZE]. *)
Definition manualEditApplyChunkSize (raw : js) : Z :=
  let clamp size := Z.max MIN_MANUAL_EDIT_APPLY_CHUNK_SIZE (Z.min MAX_MANUAL_EDIT_APPLY_CHUNK_SIZE size) in
  match to_num raw with
  | NInt z => clamp z
  | NFrac n d => clamp (Z.quot n (Zpos d))
  | _ => DEFAULT_MANUAL_EDIT_APPLY_CHUNK_SIZE
  end.

Fixpoint count_entry_ops (entries : list js) : result Z :=
  match entries with
  | [] => Ok 0
  | entry :: entries =>
    ops ← read_prop entry "ops";
    n ← count_entry_ops entries;
    mret ((match ops with JArr l => Z.of_nat (length l) | _ => 0 end) + n)
  end.
Definition countManualApplyOps (entriesOrBatch : js) : result Z :=
  match entriesOrBatch with
  | JArr entries => count_entry_ops entries
  | _ => match opt_get entriesOrBatch "entries" with JArr entries => count_entry_ops entries | _ => mret 0 end
  end.

(** ** The compacted batch *)

Definition array_or_empty (v : js) : js := match v with JArr _ => v | _ => JArr [] end.

Definition truncateManualApplyText (value : js) (max : nat) : js :=
  match value with
  | JStr s => if (max <? slen s)%nat then JStr (stake max s) else value
  | _ => value ||? JNull
  end.

Definition compactManualApplyContext (value : js) : js :=
  if negb (truthy value) || negb (is_objecty value) then JNull else
  JObj [("ref", value.["ref"]); ("tagName", value.["tagName"] ||? value.["tag"] ||? JNull);
        ("id", value.["id"] ||? JNull); ("classes", array_or_empty value.["classes"]);
        ("textContent", truncateManualApplyText value.["textContent"] MANUAL_APPLY_COMPACT_TEXT_LIMIT)].

Definition compact_nearby (item : js) : js :=
  match item with
  | JStr _ => JObj [("text", truncateManualApplyText item MANUAL_APPLY_COMPACT_TEXT_LIMIT)]
  | _ => JObj [("ref", opt_get item "ref"); ("tag", opt_get item "tag"); ("classes", array_or_empty (opt_get item "classes"));
               ("text", truncateManualApplyText (opt_get item "text") MANUAL_APPLY_COMPACT_TEXT_LIMIT)]
  end.
Definition compactNearbyManualEditTexts (items : js) : js :=
  match items with
  | JArr l => JArr (compact_nearby <$> take MANUAL_APPLY_COMPACT_NEARBY_LIMIT l)
  | _ => JArr []
  end.

(** A parameter with the default [{}]. *)
Definition or_object (v : js) : js := if is_undef v then JObj [] else v.

Definition compactManualApplyOp (op : js) : result js :=
  let op := or_object op in
  entryId ← read_prop op "entryId";
  mret (JObj [("entryId", entryId); ("ref", op.["ref"]); ("contextRef", op.["contextRef"]); ("tag", op.["tag"]);
    ("elementId", op.["elementId"]); ("classes", array_or_empty op.["classes"]);
    ("originalText", op.["originalText"]); ("newText", op.["newText"]);
    ("deleted", if op.["deleted"] === JBool true then JBool true else JUndef);
    ("sourceHint", op.["sourceHint"] ||? JNull);
    ("leaf", compactManualApplyContext op.["leaf"]);
    ("nearbyEditableTexts", compactNearbyManualEditTexts op.["nearbyEditableTexts"]);
    ("container", compactManualApplyContext op.["container"]);
    ("contextHints", match op.["contextHints"] with JArr l => JArr (take 8 l) | _ => JUndef end)]).

Definition compactManualApplyEntry (entry : js) : result js :=
  let entry := or_object entry in
  id ← read_prop entry "id";
  ops ← as_array (entry.["ops"] ||? JArr []);
  ops ← mapM compactManualApplyOp ops;
  mret (JObj [("id", id); ("pageUrl", entry.["pageUrl"]); ("stagedAt", entry.["stagedAt"] ||? JNull);
              ("element", compactManualApplyContext entry.["element"]); ("ops", JArr ops)]).

Section Cwd.
Context (cwd : string).

Definition compactManualApplySourceMatch (match_ : js) : js :=
  if negb (truthy match_) || negb (is_objecty match_) then JNull else
  let file := match_.["relativeFile"] ||? match_.["file"] in
  if negb (truthy file) && negb (truthy match_.["line"]) then JNull else
  JObj [("file", summarizeManualLogFile cwd file); ("line", match_.["line"] ||? JNull);
        ("column", match_.["column"] ||? JNull); ("reason", match_.["reason"] ||? match_.["kind"] ||? JUndef);
        ("status", match_.["status"] ||? JUndef)].

Definition compactManualApplySourceMatches (matches : js) (limit : nat) : js :=
  match matches with
  | JArr l => JArr (compact (compactManualApplySourceMatch <$> take limit l))
  | _ => JArr []
  end.

Definition compact_candidate (candidate : js) : result js :=
  entryId ← read_prop candidate "entryId";
  mret (JObj [("entryId", entryId); ("ref", candidate.["ref"]);
    ("sourceHint", compactManualApplySourceMatch candidate.["sourceHint"]);
    ("textMatches", compactManualApplySourceMatches candidate.["textMatches"] 8);
    ("objectKeyMatches", compactManualApplySourceMatches candidate.["objectKeyMatches"] 8);
    ("contextTextMatches", compactManualApplySourceMatches candidate.["contextTextMatches"] 8);
    ("locatorMatches", compactManualApplySourceMatches candidate.["locatorMatches"] 6)]).
Definition compactManualApplyCandidates (candidates : js) : result (list js) :=
  match candidates with
  | JArr l => mapM compact_candidate (take 24 l)
  | _ => mret []
  end.

(** [entries.flatMap((entry) => entry.ops.map((op) => ({ ...op, entryId: entry.id })))]. *)
Definition tagged_ops (entry : js) : list js :=
  match entry.["ops"] with
  | JArr ops => (fun op => spread_with op [("entryId", entry.["id"])]) <$> ops
  | _ => []
  end.

Definition compactManualApplyBatch (batch : js) : result js :=
  let batch := or_object batch in
  entries ← read_prop batch "entries";
  entries ← as_array (entries ||? JArr []);
  entries ← mapM compactManualApplyEntry entries;
  candidates ← compactManualApplyCandidates (batch.["candidates"] ||? JArr []);
  let context := batch.["context"] in
  mret (JObj [("version", batch.["version"]); ("pageUrl", batch.["pageUrl"] ||? JNull); ("count", batch.["count"]);
    ("entries", JArr entries); ("ops", JArr (concat (tagged_ops <$> entries)));
    ("candidates", if (0 <? length candidates)%nat then JArr candidates else JUndef);
    ("context", if truthy context then
       JObj [("bufferPath", context.["bufferPath"]); ("totalEntries", context.["totalEntries"]); ("totalOps", context.["totalOps"]);
             ("chunkIndex", context.["chunkIndex"]); ("chunkTotal", context.["chunkTotal"]); ("totalApplyOps", context.["totalApplyOps"])]
     else JUndef)]).

Definition summarizeManualApplyEvent (event batch : js) : result js :=
  let entries := match opt_get batch "entries" with JArr l => l | _ => [] end in
  opCount ← count_entry_ops entries;
  files ← collectManualApplyFiles cwd batch (JArr []);
  mret (JObj [("pageUrl", event.["pageUrl"] ||? JNull); ("chunk", event.["chunk"] ||? JNull);
              ("entryCount", int (Z.of_nat (length entries))); ("opCount", int opCount); ("files", JArr (JStr <$> files))]).
End Cwd.

(** ** What the agent is told to do *)

Definition manualApplyReplyCommand (eventOrId : js) : string :=
  let id := if is_string eventOrId then eventOrId else opt_get eventOrId "id" ||? JStr "EVENT_ID" in
  "live-poll.mjs --reply " +:+ to_str id +:+ " done --data '<json>'".

Definition buildManualApplyAgentAction (eventOrId : js) : js :=
  JObj [("kind", JStr "manual_edit_apply"); ("required", JStr "apply_source_edits_then_reply");
        ("replyCommand", JStr (manualApplyReplyCommand eventOrId));
        ("warning", JStr "Polling only leases this work item; it does not commit source edits.")].

(** ** The agent's reply *)

Definition manualApplyResultShapeHint (eventId : js) : string :=
  "Use live-poll.mjs --reply " +:+ to_str eventId +:+ " done --data '{" +:+ s_dq +:+ "status" +:+ s_dq +:+ ":" +:+ s_dq +:+ "done" +:+ s_dq +:+
  "," +:+ s_dq +:+ "appliedEntryIds" +:+ s_dq +:+ ":[" +:+ s_dq +:+ "ENTRY_ID" +:+ s_dq +:+ "]," +:+ s_dq +:+ "failed" +:+ s_dq +:+ ":[]," +:+
  s_dq +:+ "files" +:+ s_dq +:+ ":[" +:+ s_dq +:+ "src/page.html" +:+ s_dq +:+ "]," +:+ s_dq +:+ "notes" +:+ s_dq +:+ ":[]}'".

Definition invalidManualApplyResult (reason : string) (eventId : js) (extra : list (string * js)) : js :=
  JObj [("ok", JBool false);
        ("body", spread_with (JObj [("error", JStr "invalid_manual_apply_result"); ("reason", JStr reason);
                                    ("hint", JStr (manualApplyResultShapeHint eventId))]) extra)].

Definition has_key (v : js) (k : string) : bool :=
  match v with JObj o => bool_decide (is_Some (assoc_get k o)) | _ => false end.

Definition not_name (v : js) : bool := negb (is_string v) || negb (truthy v).

(** What is wrong with an element of [failed]. *)
Definition failed_problem (item : js) : option string :=
  if negb (truthy item) || negb (is_objecty item) || is_array item then Some "failed_must_contain_objects"
  else if not_name item.["entryId"] then Some "failed_entryId_required"
  else if not_name item.["reason"] then Some "failed_reason_required"
  else None.
Fixpoint first_problem (index : nat) (l : list js) : option (string * nat) :=
  match l with
  | [] => None
  | item :: l => match failed_problem item with Some reason => Some (reason, index) | None => first_problem (S index) l end
  end.

Section Validate.
Variables (eventId data : js).

Definition elems (k : string) : list js := match data.[k] with JArr l => l | _ => [] end.
Definition bad_index (reason : string) (bad : js -> bool) (k : string) : option js :=
  (fun i => invalidManualApplyResult reason eventId [("index", int (Z.of_nat i))]) <$> find_index bad (elems k).
Definition invalid (reason : string) (bad : bool) : option js :=
  if bad then Some (invalidManualApplyResult reason eventId []) else None.

(** The first check that fails. *)
Fixpoint first_some (l : list (option js)) : option js :=
  match l with [] => None | Some v :: _ => Some v | None :: l => first_some l end.

(** The checks of the reply's own shape. *)
Definition invalid_shape : option js :=
  first_some [
    invalid "missing_result_data" (negb (truthy data) || negb (is_objecty data) || is_array data);
    invalid "summary_result_not_allowed" (has_key data "entries" || has_key data "ops");
    (if has_str ["done"; "partial"; "error"] data.["status"] then None
     else Some (invalidManualApplyResult "invalid_status" eventId [("status", data.["status"] ?? JNull)]));
    invalid "appliedEntryIds_must_be_array" (negb (is_array data.["appliedEntryIds"]));
    invalid "failed_must_be_array" (negb (is_array data.["failed"]));
    invalid "files_must_be_array" (negb (is_array data.["files"]));
    invalid "notes_must_be_array" (negb (is_array data.["notes"]));
    bad_index "appliedEntryIds_must_contain_strings" not_name "appliedEntryIds";
    bad_index "files_must_contain_strings" not_name "files";
    bad_index "notes_must_contain_strings" (fun v => negb (is_string v)) "notes";
    (fun p : string * nat => invalidManualApplyResult p.1 eventId [("index", int (Z.of_nat p.2))]) <$> first_problem 0 (elems "failed")].

(** Its ids must be those of the event, when the event has any. *)
Definition foreign (ids : list js) (id : js) : bool := (0 <? length ids)%nat && negb (set_has ids id).
Definition invalid_ids (ids : list js) : option js :=
  first_some [
    (fun id => invalidManualApplyResult "applied_entry_id_not_in_event" eventId [("entryId", id)])
      <$> find (foreign ids) (elems "appliedEntryIds");
    (fun item => invalidManualApplyResult "failed_entry_id_not_in_event" eventId [("entryId", item.["entryId"])])
      <$> find (fun item => foreign ids item.["entryId"]) (elems "failed")].

(** The status must fit the lists. *)
Definition invalid_status (opCount : Z) : option js :=
  let applied := length (elems "appliedEntryIds") in
  let failed := length (elems "failed") in
  first_some [
    invalid "done_result_has_failed_entries" ((data.["status"] === JStr "done") && (0 <? failed)%nat);
    invalid "done_result_missing_applied_entry_ids" ((data.["status"] === JStr "done") && (0 <? opCount) && (applied =? 0)%nat);
    invalid "partial_result_has_no_entries" ((data.["status"] === JStr "partial") && (applied =? 0)%nat && (failed =? 0)%nat);
    invalid "error_result_has_applied_entries" ((data.["status"] === JStr "error") && (0 <? applied)%nat)].
End Validate.

Definition accepted_result (data : js) : js :=
  JObj [("ok", JBool true);
        ("result", JObj [("status", data.["status"]);
           ("message", match data.["message"] with JStr m => JStr m | _ => JUndef end);
           ("appliedEntryIds", data.["appliedEntryIds"]); ("failed", data.["failed"]);
           ("files", data.["files"]); ("notes", data.["notes"])])].

Definition validateManualApplyResultMessage (msg deferred : js) : result js :=
  let data := opt_get msg "data" in
  let eventId := opt_get msg "id" ||? opt_get (opt_get deferred "event") "id" ||? JStr "EVENT_ID" in
  match invalid_shape eventId data with
  | Some problem => mret problem
  | None =>
    ids ← entry_ids (opt_get (opt_get deferred "batch") "entries");
    match invalid_ids eventId data ids with
    | Some problem => mret problem
    | None =>
      opCount ← (if data.["status"] === JStr "done" then countManualApplyOps (opt_get deferred "batch") else mret 0);
      mret (default (accepted_result data) (invalid_status eventId data opCount))
    end
  end.

(** [{ status, message, appliedEntryIds, failed, files, notes }] of a reply, whatever it is. *)
Record chunk_result := ChunkResult {
  r_status : string; r_message : js; r_applied : list js; r_failed : list js; r_files : list js; r_notes : list js }.

Definition array_elems (v : js) : list js := match v with JArr l => l | _ => [] end.

Definition normalizeApplyChunkResult (result : js) : chunk_result :=
  ChunkResult
    (if opt_get result "status" === JStr "partial" then "partial" else if opt_get result "status" === JStr "error" then "error" else "done")
    (match opt_get result "message" with JStr m => JStr m | _ => JNull end)
    (bfilter is_string (array_elems (opt_get result "appliedEntryIds")))
    (compact (array_elems (opt_get result "failed")))
    (bfilter is_string (array_elems (opt_get result "files")))
    (bfilter is_string (array_elems (opt_get result "notes"))).

Definition firstFailureReason (result : chunk_result) : js :=
  let first := match r_failed result with [] => JUndef | item :: _ => item end in
  opt_get first "reason" ||? opt_get first "message" ||? JNull.

(** ** Chunks *)

(** A chunk under construction. [entryById] is the search for an entry by its id. *)
Record builder := Builder {
  bd_entries : list js; bd_ops : list js; bd_refsByEntry : jmap (list js); bd_opCounts : jmap Z; bd_opCount : nat }.

Definition createManualApplyChunkBuilder : builder := Builder [] [] [] [] 0.

(** [chunkEntry.ops.push(op)]. *)
Definition push_to (op chunkEntry : js) : js :=
  match chunkEntry.["ops"] with JArr ops => chunkEntry.["ops" := JArr (ops ++ [op])] | _ => chunkEntry end.

Definition entryById (id : js) (entries : list js) : option nat :=
  find_index (fun e => same_value_zero e.["id"] id) entries.

Definition addOpToManualApplyChunk (chunk : builder) (entry op : js) : result builder :=
  let id := entry.["id"] in
  let entries := match entryById id (bd_entries chunk) with
                 | Some _ => bd_entries chunk
                 | None => bd_entries chunk ++ [spread_with entry [("ops", JArr [])]]
                 end in
  let i := default (length (bd_entries chunk)) (entryById id (bd_entries chunk)) in
  entryId ← read_prop op "entryId";
  let refs := default [] (map_get id (bd_refsByEntry chunk)) in
  mret (Builder (alter (push_to op) i entries)
                (bd_ops chunk ++ [spread_with op [("entryId", entryId ||? id)]])
                (map_set id (if truthy op.["ref"] then set_add refs op.["ref"] else refs) (bd_refsByEntry chunk))
                (map_set id (default 0 (map_get id (bd_opCounts chunk)) + 1) (bd_opCounts chunk))
                (S (bd_opCount chunk))).

Fixpoint add_ops (chunk : builder) (entry : js) (ops : list js) : result builder :=
  match ops with
  | [] => Ok chunk
  | op :: ops => chunk ← addOpToManualApplyChunk chunk entry op; add_ops chunk entry ops
  end.

Section Split.
Variable maxOps : nat.

(** [rawChunks] and [current]. *)
Notation progress := (list builder * builder)%type.

Definition close (p : progress) : progress := (p.1 ++ [p.2], createManualApplyChunkBuilder).

(** An entry that fits in a chunk goes whole into the current one, or into a new one. *)
Definition add_small (p : progress) (entry : js) (ops : list js) : result progress :=
  let p := if (0 <? bd_opCount p.2)%nat && (maxOps <? bd_opCount p.2 + length ops)%nat then close p else p in
  current ← add_ops p.2 entry ops;
  mret (p.1, current).

(** A larger entry starts a new chunk and is cut. *)
Fixpoint cut_ops (p : progress) (entry : js) (ops : list js) : result progress :=
  match ops with
  | [] => Ok p
  | op :: ops =>
    let p := if (maxOps <=? bd_opCount p.2)%nat then close p else p in
    current ← addOpToManualApplyChunk p.2 entry op;
    cut_ops (p.1, current) entry ops
  end.
Definition add_large (p : progress) (entry : js) (ops : list js) : result progress :=
  cut_ops (if (0 <? bd_opCount p.2)%nat then close p else p) entry ops.

Definition add_entry (p : progress) (entry : js) : result progress :=
  ops ← read_prop entry "ops";
  l ← iterate (ops ||? JArr []);
  if (length l <=? maxOps)%nat then add_small p entry l else add_large p entry l.

Fixpoint add_entries (p : progress) (entries : list js) : result progress :=
  match entries with
  | [] => Ok p
  | entry :: entries => p ← add_entry p entry; add_entries p entries
  end.

Definition raw_chunks (entries : list js) : result (list builder) :=
  p ← add_entries ([], createManualApplyChunkBuilder) entries;
  mret (if (0 <? bd_opCount p.2)%nat then p.1 ++ [p.2] else p.1).
End Split.

Definition filterManualApplyChunkCandidates (batch : js) (refsByEntry : jmap (list js)) : result (list js) :=
  candidates ← as_array (opt_get batch "candidates" ||? JArr []);
  _ ← mapM (fun candidate => read_prop candidate "entryId") candidates;
  mret (bfilter (fun candidate =>
    match map_get candidate.["entryId"] refsByEntry with
    | None => false
    | Some refs => negb (truthy candidate.["ref"]) || set_has refs candidate.["ref"]
    end) candidates).

Record chunk := Chunk { k_batch : js; k_meta : js; k_entryIds : list js; k_opCounts : jmap Z }.

Definition finish_chunk (batch : js) (total totalOpCount : Z) (index : nat) (c : builder) : result chunk :=
  candidates ← filterManualApplyChunkCandidates batch (bd_refsByEntry c);
  let opCount := int (Z.of_nat (bd_opCount c)) in
  let chunkIndex := int (Z.of_nat index + 1) in
  mret (Chunk
    (spread_with batch [("count", opCount); ("entries", JArr (bd_entries c)); ("ops", JArr (bd_ops c));
       ("candidates", JArr candidates);
       ("context", spread_with (opt_get batch "context" ||? JObj [])
          [("totalEntries", int (Z.of_nat (length (bd_entries c)))); ("totalOps", opCount); ("chunkIndex", chunkIndex);
           ("chunkTotal", int total); ("totalApplyOps", int totalOpCount)])])
    (JObj [("index", chunkIndex); ("total", int total); ("opCount", opCount); ("totalOpCount", int totalOpCount)])
    (set_of (compact ((fun e => e.["id"]) <$> bd_entries c)))
    (bd_opCounts c)).

Fixpoint finish_chunks (batch : js) (total totalOpCount : Z) (index : nat) (l : list builder) : result (list chunk) :=
  match l with
  | [] => Ok []
  | c :: l =>
    k ← finish_chunk batch total totalOpCount index c;
    rest ← finish_chunks batch total totalOpCount (S index) l;
    mret (k :: rest)
  end.

(** The whole batch as one chunk. *)
Definition whole_chunk (batch : js) (entries : list js) : chunk :=
  Chunk batch JNull (set_of (compact ((fun e => e.["id"]) <$> entries)))
    (foldl (fun m e => map_set e.["id"] (match e.["ops"] with JArr l => Z.of_nat (length l) | _ => 0 end) m) [] entries).

Definition splitManualApplyBatch (batch : js) (maxOps : nat) : result (list chunk) :=
  totalOpCount ← countManualApplyOps batch;
  if totalOpCount <=? Z.of_nat maxOps then
    entries ← as_array (opt_get batch "entries" ||? JArr []);
    _ ← mapM (fun e => read_prop e "id") entries;
    mret [whole_chunk batch entries]
  else
    entries ← iterate (opt_get batch "entries" ||? JArr []);
    raw ← raw_chunks maxOps entries;
    finish_chunks batch (Z.of_nat (length raw)) totalOpCount 0 raw.

(** * Theorems *)

(** ** Maps keyed by strings *)

Lemma svz_str_str a b : same_value_zero (JStr a) (JStr b) = String.eqb a b.
Proof. done. Qed.

Lemma map_get_set {A} a b (v : A) (m : jmap A) :
  map_get (JStr a) (map_set (JStr b) v m) = if String.eqb b a then Some v else map_get (JStr a) m.
Proof.
  induction m as [|[k w] m IH]; cbn [map_set map_get].
  - by rewrite svz_str_str.
  - destruct (same_value_zero k (JStr b)) eqn:E; cbn [map_get].
    + apply same_value_zero_str in E as ->. rewrite svz_str_str. by destruct (String.eqb b a).
    + rewrite IH. destruct (same_value_zero k (JStr a)) eqn:Ea; [|done].
      apply same_value_zero_str in Ea as ->. rewrite svz_str_str, String.eqb_sym in E. by rewrite E.
Qed.

Lemma set_of_sub l i : i ∈ set_of l -> i ∈ l.
Proof.
  unfold set_of. assert (forall acc, i ∈ foldl set_add acc l -> i ∈ acc \/ i ∈ l) as H;
    [|intros Hi; by destruct (H [] Hi) as [?%elem_of_nil|]].
  induction l as [|x l IH]; intros acc; simpl; [by left|]. intros [Hi|]%IH; [|set_solver].
  unfold set_add in Hi. destruct (set_has acc x); set_solver.
Qed.

(** ** The reference split: operations with their entries, cut into groups *)

Notation pair := (js * js)%type.
Definition pairs (e : js) : list pair := (fun op => (e, op)) <$> ops_of e.
Definition pair_id (p : pair) : js := p.1.["id"].
Definition has_id (id : string) (p : pair) : bool := pair_id p === JStr id.
Definition tag (p : pair) : js := spread_with p.2 [("entryId", p.2.["entryId"] ||? pair_id p)].

(** Entries as the commit command builds them. *)
Record batch_entry (e : js) : Prop := {
  be_obj : is_obj e = true;
  be_id : exists id, e.["id"] = JStr id /\ id <> "";
  be_ops : exists ops, e.["ops"] = JArr ops;
  be_op : forall op, op ∈ ops_of e -> is_obj op = true }.

Definition good_pair (p : pair) : Prop := is_obj p.1 = true /\ is_obj p.2 = true /\ exists id, pair_id p = JStr id /\ id <> "".

Definition put (c : builder) (p : pair) : builder :=
  match addOpToManualApplyChunk c p.1 p.2 with Ok c' => c' | Throw _ => c end.
Definition build (g : list pair) : builder := foldl put createManualApplyChunkBuilder g.

Lemma put_ok c e op : good_pair (e, op) -> addOpToManualApplyChunk c e op = Ok (put c (e, op)).
Proof. intros (_ & H & _). unfold put. simpl in *. by destruct op. Qed.

Lemma build_snoc g p : build (g ++ [p]) = put (build g) p.
Proof. unfold build. by rewrite foldl_app. Qed.

Lemma build_count g : Forall good_pair g -> bd_opCount (build g) = length g.
Proof.
  induction g as [|p g IH] using rev_ind; [done|]. rewrite Forall_app, Forall_singleton, length_app. intros [Hg Hp].
  rewrite build_snoc. destruct p as [e op]. pose proof (put_ok (build g) e op Hp) as H. unfold addOpToManualApplyChunk in H. cbv zeta in H.
  apply bind_ok in H as (? & _ & H). injection H as <-. cbn [bd_opCount length]. rewrite IH by done. simpl. lia.
Qed.

Lemma add_ops_build e : forall ops g, Forall good_pair ((fun op => (e, op)) <$> ops) ->
  add_ops (build g) e ops = Ok (build (g ++ ((fun op => (e, op)) <$> ops))).
Proof.
  induction ops as [|op ops IH]; intros g H; cbn [add_ops fmap list_fmap]; [by rewrite app_nil_r|].
  rewrite fmap_cons in H. apply Forall_cons in H as [Hp H]. rewrite (put_ok (build g) e op Hp). cbn [mbind result_bind].
  rewrite <- build_snoc, IH by done. by rewrite <- app_assoc.
Qed.

(** The groups closed so far and the current one. *)
Notation groups := (list (list pair) * list pair)%type.
Definition built (q : groups) : list builder * builder := (build <$> q.1, build q.2).
Definition close_group (q : groups) : groups := (q.1 ++ [q.2], []).

Section Reference.
Variable maxOps : nat.

Fixpoint cut_pairs (q : groups) (ps : list pair) : groups :=
  match ps with
  | [] => q
  | p :: ps => let q := if (maxOps <=? length q.2)%nat then close_group q else q in cut_pairs (q.1, q.2 ++ [p]) ps
  end.
Definition add_pairs (q : groups) (ps : list pair) : groups :=
  if (length ps <=? maxOps)%nat
  then let q := if (0 <? length q.2)%nat && (maxOps <? length q.2 + length ps)%nat then close_group q else q in (q.1, q.2 ++ ps)
  else cut_pairs (if (0 <? length q.2)%nat then close_group q else q) ps.
Definition split_pairs (entries : list js) : list (list pair) :=
  let q := foldl (fun q e => add_pairs q (pairs e)) ([], []) entries in
  if (0 <? length q.2)%nat then q.1 ++ [q.2] else q.1.

Definition good_groups (q : groups) : Prop := Forall (Forall good_pair) q.1 /\ Forall good_pair q.2.

Lemma built_close q : close (built q) = built (close_group q).
Proof. unfold close, built, close_group. cbn [fst snd]. by rewrite fmap_app. Qed.
Lemma good_close q : good_groups q -> good_groups (close_group q).
Proof. intros [H1 H2]. split; [|constructor]. apply Forall_app. by repeat constructor. Qed.

Lemma cut_ops_built e : forall ops q, good_groups q -> Forall good_pair ((fun op => (e, op)) <$> ops) ->
  cut_ops maxOps (built q) e ops = Ok (built (cut_pairs q ((fun op => (e, op)) <$> ops))) /\
  good_groups (cut_pairs q ((fun op => (e, op)) <$> ops)).
Proof.
  induction ops as [|op ops IH]; intros q Hq H; cbn [cut_ops]; [done|].
  rewrite fmap_cons in *. cbn [cut_pairs]. apply Forall_cons in H as [Hp H]. cbn [snd built].
  rewrite build_count by apply Hq.
  set (q1 := if (maxOps <=? length q.2)%nat then close_group q else q).
  assert ((if (maxOps <=? length q.2)%nat then close (built q) else built q) = built q1) as E
    by (unfold q1; destruct (_ <=? _)%nat; [apply built_close|done]).
  assert (good_groups q1) as Hq1 by (unfold q1; destruct (_ <=? _)%nat; [by apply good_close|done]).
  unfold built in E at 2. change (build <$> q.1, build q.2) with (built q) in *. rewrite E. cbn [snd built].
  rewrite (put_ok (build q1.2) e op Hp). cbn [mbind result_bind]. rewrite <- build_snoc.
  apply (IH (q1.1, q1.2 ++ [(e, op)])); [|done]. split; [apply Hq1|]. apply Forall_app. split; [apply Hq1|by constructor].
Qed.

Lemma good_pairs e : batch_entry e -> Forall good_pair (pairs e).
Proof.
  intros [Ho Hi _ Hp]. apply Forall_forall. intros p (op & -> & Hin)%list_elem_of_fmap. split_and!; [done|by apply Hp|done].
Qed.

Lemma add_entry_built q e : good_groups q -> batch_entry e ->
  add_entry maxOps (built q) e = Ok (built (add_pairs q (pairs e))) /\ good_groups (add_pairs q (pairs e)).
Proof.
  intros Hq He. pose proof (good_pairs e He) as Hp. destruct He as [Ho _ [ops Hops] _].
  unfold pairs, ops_of in *. rewrite Hops in *.
  unfold add_entry, read_prop. assert (nullish e = false) as -> by (by destruct e). cbn [mbind result_bind]. rewrite Hops.
  cbn [or_else truthy iterate mbind result_bind]. unfold add_pairs. rewrite length_fmap.
  destruct (length ops <=? maxOps)%nat eqn:E.
  - unfold add_small. cbn [snd built]. rewrite build_count by apply Hq.
    set (q1 := if _ && _ then close_group q else q).
    assert ((if (0 <? length q.2)%nat && (maxOps <? length q.2 + length ops)%nat then close (built q) else built q) = built q1) as Eq
      by (unfold q1; destruct (_ && _); [apply built_close|done]).
    assert (good_groups q1) as Hq1 by (unfold q1; destruct (_ && _); [by apply good_close|done]).
    unfold built in Eq at 2. change (build <$> q.1, build q.2) with (built q) in *. rewrite Eq. cbn [snd built].
    rewrite add_ops_build by done. split; [done|]. split; [apply Hq1|]. apply Forall_app. split; [apply Hq1|done].
  - unfold add_large. cbn [snd built]. rewrite build_count by apply Hq.
    set (q1 := if (0 <? length q.2)%nat then close_group q else q).
    assert ((if (0 <? length q.2)%nat then close (built q) else built q) = built q1) as Eq
      by (unfold q1; destruct (_ <? _)%nat; [apply built_close|done]).
    assert (good_groups q1) as Hq1 by (unfold q1; destruct (_ <? _)%nat; [by apply good_close|done]).
    unfold built in Eq at 2. change (build <$> q.1, build q.2) with (built q) in *. rewrite Eq. by apply cut_ops_built.
Qed.

Lemma add_entries_built entries : Forall batch_entry entries -> forall q, good_groups q ->
  add_entries maxOps (built q) entries = Ok (built (foldl (fun q e => add_pairs q (pairs e)) q entries)) /\
  good_groups (foldl (fun q e => add_pairs q (pairs e)) q entries).
Proof.
  induction 1 as [|e entries He _ IH]; intros q Hq; cbn [add_entries foldl]; [done|].
  destruct (add_entry_built q e Hq He) as [H1 Hq1]. rewrite H1. cbn [mbind result_bind]. by apply IH.
Qed.

(** The chunks are built from the reference split. *)
Lemma raw_chunks_split entries : Forall batch_entry entries ->
  raw_chunks maxOps entries = Ok (build <$> split_pairs entries) /\ Forall (Forall good_pair) (split_pairs entries).
Proof.
  intros He. destruct (add_entries_built entries He ([], [])) as [H [Hg1 Hg2]]; [by split; constructor|].
  change (built ([], [])) with ([] : list builder, createManualApplyChunkBuilder) in H.
  unfold raw_chunks. rewrite H. cbn [mbind result_bind]. unfold split_pairs. cbv zeta. cbn [snd fst built].
  rewrite build_count by done. destruct (0 <? _)%nat; [rewrite fmap_app|]; (split; [done|]); [apply Forall_app; by repeat constructor|done].
Qed.

(** ** What the reference split does *)

Definition sized (q : groups) : Prop :=
  Forall (fun g => 1 <= length g <= maxOps)%nat q.1 /\ (length q.2 <= maxOps)%nat.
Definition flat (q : groups) : list pair := concat q.1 ++ q.2.
(** The groups of [q] are kept, the current one maybe extended. *)
Definition grows (q q' : groups) : Prop :=
  forall g, g ∈ q.1 \/ g = q.2 -> exists g' b, (g' ∈ q'.1 \/ g' = q'.2) /\ g' = g ++ b.

Lemma grows_refl q : grows q q.
Proof. intros g Hg. exists g, []. by rewrite app_nil_r. Qed.
Lemma grows_trans q1 q2 q3 : grows q1 q2 -> grows q2 q3 -> grows q1 q3.
Proof.
  intros H1 H2 g Hg. destruct (H1 g Hg) as (g' & b & Hg' & ->). destruct (H2 _ Hg') as (g'' & c & Hg'' & ->).
  exists ((g ++ b) ++ c), (b ++ c). by rewrite app_assoc.
Qed.
Lemma grows_close q : grows q (close_group q).
Proof. intros g Hg. exists g, []. rewrite app_nil_r. split; [|done]. left. unfold close_group. cbn [fst]. set_solver. Qed.
Lemma grows_extend q ps : grows q (q.1, q.2 ++ ps).
Proof. intros g [Hg| ->]; [exists g, []; rewrite app_nil_r; by split; [left|]|]. exists (q.2 ++ ps), ps. by split; [right|]. Qed.

Lemma flat_close q : flat (close_group q) = flat q.
Proof. unfold flat, close_group. cbn [fst snd]. rewrite concat_app. simpl. by rewrite !app_nil_r. Qed.
Lemma flat_extend q ps : flat (q.1, q.2 ++ ps) = flat q ++ ps.
Proof. unfold flat. cbn [fst snd]. by rewrite app_assoc. Qed.
Lemma sized_close q : (0 < length q.2)%nat -> sized q -> sized (close_group q).
Proof. intros H0 [H1 H2]. split; cbn [fst snd close_group length]; [|lia]. apply Forall_app. split; [done|]. constructor; [lia|done]. Qed.

Lemma cut_pairs_ok ps : (1 <= maxOps)%nat -> forall q, sized q ->
  sized (cut_pairs q ps) /\ flat (cut_pairs q ps) = flat q ++ ps /\ grows q (cut_pairs q ps).
Proof.
  intros Hmax. induction ps as [|p ps IH]; intros q Hq; cbn [cut_pairs].
  { rewrite app_nil_r. split_and!; [done..|apply grows_refl]. }
  set (q1 := if (maxOps <=? length q.2)%nat then close_group q else q).
  assert (sized q1 /\ (length q1.2 < maxOps)%nat /\ flat q1 = flat q /\ grows q q1) as (H1 & H2 & H3 & H4).
  { unfold q1. destruct (Nat.leb_spec maxOps (length q.2)); [|split_and!; [done|lia|done|apply grows_refl]].
    split_and!; [apply sized_close; [lia|done]|cbn; lia|apply flat_close|apply grows_close]. }
  destruct (IH (q1.1, q1.2 ++ [p])) as (Ha & Hb & Hc).
  { split; [apply H1|]. cbn [snd]. rewrite length_app. cbn. lia. }
  split_and!; [exact Ha| |].
  - rewrite Hb, flat_extend, H3. by rewrite <- app_assoc.
  - eapply grows_trans; [exact H4|]. eapply grows_trans; [apply (grows_extend q1 [p])|exact Hc].
Qed.

Lemma add_pairs_ok q ps : (1 <= maxOps)%nat -> sized q ->
  sized (add_pairs q ps) /\ flat (add_pairs q ps) = flat q ++ ps /\ grows q (add_pairs q ps) /\
  ((length ps <= maxOps)%nat -> exists a, (add_pairs q ps).2 = a ++ ps).
Proof.
  intros Hmax Hq. unfold add_pairs. destruct (Nat.leb_spec (length ps) maxOps) as [Hle|Hgt].
  - set (q1 := if _ && _ then close_group q else q). cbv zeta.
    assert (sized q1 /\ (length q1.2 + length ps <= maxOps)%nat /\ flat q1 = flat q /\ grows q q1) as (H1 & H2 & H3 & H4).
    { unfold q1. destruct (Nat.ltb_spec 0 (length q.2)), (Nat.ltb_spec maxOps (length q.2 + length ps)); cbn [andb];
        (split_and!; [first [done|by apply sized_close]|cbn; lia|first [apply flat_close|done]|first [apply grows_close|apply grows_refl]]). }
    split_and!; [split; [apply H1|cbn [snd]; rewrite length_app; lia]|by rewrite flat_extend, H3| |intros _; by exists q1.2].
    eapply grows_trans; [exact H4|apply grows_extend].
  - set (q1 := if (0 <? length q.2)%nat then close_group q else q).
    assert (sized q1 /\ flat q1 = flat q /\ grows q q1) as (H1 & H2 & H3).
    { unfold q1. destruct (Nat.ltb_spec 0 (length q.2)); [|split_and!; [done..|apply grows_refl]].
      split_and!; [by apply sized_close|apply flat_close|apply grows_close]. }
    destruct (cut_pairs_ok ps Hmax q1 H1) as (Ha & Hb & Hc). split_and!; [done|by rewrite Hb, H2|by eapply grows_trans|lia].
Qed.

(** The groups partition the operations in order, no group is empty or too large, and an entry
    that fits is not cut. *)
Lemma split_pairs_ok entries : (1 <= maxOps)%nat ->
  concat (split_pairs entries) = concat (pairs <$> entries) /\
  Forall (fun g => 1 <= length g <= maxOps)%nat (split_pairs entries) /\
  forall e, e ∈ entries -> (1 <= length (pairs e) <= maxOps)%nat ->
    exists g a b, g ∈ split_pairs entries /\ g = a ++ pairs e ++ b.
Proof.
  intros Hmax. unfold split_pairs. cbv zeta.
  assert (forall l q seen, sized q -> flat q = concat (pairs <$> seen) ->
    (forall e, e ∈ seen -> (length (pairs e) <= maxOps)%nat -> exists g a b, (g ∈ q.1 \/ g = q.2) /\ g = a ++ pairs e ++ b) ->
    let q' := foldl (fun q e => add_pairs q (pairs e)) q l in
    sized q' /\ flat q' = concat (pairs <$> (seen ++ l)) /\
    (forall e, e ∈ seen ++ l -> (length (pairs e) <= maxOps)%nat -> exists g a b, (g ∈ q'.1 \/ g = q'.2) /\ g = a ++ pairs e ++ b)) as H.
  { induction l as [|x l IH]; intros q seen Hs Hf Hw; cbn [foldl]; [rewrite app_nil_r; by split_and!|].
    destruct (add_pairs_ok q (pairs x) Hmax Hs) as (H1 & H2 & H3 & H4).
    rewrite cons_middle, app_assoc. apply IH; [done| |].
    - rewrite H2, Hf, fmap_app, concat_app. simpl. by rewrite app_nil_r.
    - intros e [He| ->%list_elem_of_singleton]%elem_of_app Hlen.
      + destruct (Hw e He Hlen) as (g & a & b & Hg & ->). destruct (H3 _ Hg) as (g' & c & Hg' & ->).
        exists ((a ++ pairs e ++ b) ++ c), a, (b ++ c). split; [done|]. by rewrite <- !app_assoc.
      + destruct (H4 Hlen) as [a Ha]. exists (add_pairs q (pairs x)).2, a, []. split; [by right|]. by rewrite app_nil_r. }
  destruct (H entries ([], []) []) as ([Hs1 Hs2] & Hf & Hw); [by split; [|cbn; lia]|done|intros e He; by apply elem_of_nil in He|].
  cbn [app] in *. set (q := foldl _ _ _) in *. unfold flat in Hf.
  destruct (Nat.ltb_spec 0 (length q.2)) as [Hpos|Hz].
  - split_and!; [rewrite concat_app; cbn; by rewrite app_nil_r|apply Forall_app; split; [done|]; constructor; [lia|done]|].
    intros e He Hlen. destruct (Hw e He ltac:(lia)) as (g & a & b & Hg & Heq). exists g, a, b. split; [|done]. set_solver.
  - destruct q.2 as [|] eqn:E; [|cbn in Hz; lia]. rewrite app_nil_r in Hf. split_and!; [done|done|].
    intros e He Hlen. destruct (Hw e He ltac:(lia)) as (g & a & b & [Hg|Hg] & Heq); [by exists g, a, b|].
    exfalso. rewrite Hg in Heq. apply (f_equal length) in Heq. rewrite !length_app in Heq. cbn in Heq. lia.
Qed.
End Reference.

(** ** What a chunk holds *)

(** A chunk's entry carries the chunk's operations of that entry, in order. *)
Definition carries (g : list pair) (e : js) : Prop :=
  is_obj e = true /\ exists id, e.["id"] = JStr id /\ e.["ops"] = JArr (snd <$> bfilter (has_id id) g).

Record holds (g : list pair) (c : builder) : Prop := {
  ho_entries : Forall (carries g) (bd_entries c);
  ho_ids : NoDup ((fun e => e.["id"]) <$> bd_entries c);
  ho_all : forall id, JStr id ∈ ((fun e => e.["id"]) <$> bd_entries c) <-> JStr id ∈ (pair_id <$> g);
  ho_ops : bd_ops c = tag <$> g;
  ho_counts : forall id, default 0 (map_get (JStr id) (bd_opCounts c)) = Z.of_nat (length (bfilter (has_id id) g)) }.

Lemma has_id_other id p : pair_id p <> JStr id -> has_id id p = false.
Proof. intros H. unfold has_id. apply not_true_iff_false. by rewrite strict_eq_str. Qed.

Lemma carries_other g p e : pair_id p <> e.["id"] -> carries g e -> carries (g ++ [p]) e.
Proof.
  intros Hne (Ho & id & Hi & Hops). split; [done|]. exists id. split; [done|].
  rewrite Hops, bfilter_app. cbn [bfilter]. rewrite has_id_other by congruence. by rewrite app_nil_r.
Qed.

Lemma carries_push g p e id : pair_id p = JStr id -> e.["id"] = JStr id -> carries g e ->
  carries (g ++ [p]) (push_to p.2 e) /\ (push_to p.2 e).["id"] = JStr id.
Proof.
  intros Hp He (Ho & id' & Hi & Hops). rewrite He in Hi. injection Hi as <-.
  unfold push_to. rewrite Hops. rewrite jget_jset by done. change (String.eqb "id" "ops") with false. cbn iota.
  split; [|done]. split; [by rewrite is_obj_jset|]. exists id. rewrite !jget_jset by done.
  change (String.eqb "id" "ops") with false. change (String.eqb "ops" "ops") with true. cbn iota. split; [done|].
  rewrite bfilter_app, fmap_app. cbn [bfilter].
  assert (has_id id p = true) as -> by (by apply strict_eq_str). done.
Qed.

(** Finding the entry of an id. *)
Lemma entryById_Some g c id i : Forall (carries g) (bd_entries c) -> entryById (JStr id) (bd_entries c) = Some i ->
  exists e, bd_entries c !! i = Some e /\ e.["id"] = JStr id.
Proof.
  intros _ H. apply find_index_Some in H as (e & He & Hs & _). exists e. split; [done|]. by apply same_value_zero_str.
Qed.
Lemma entryById_None c id : entryById (JStr id) (bd_entries c) = None ->
  JStr id ∉ ((fun e => e.["id"]) <$> bd_entries c).
Proof.
  intros H. unfold entryById in H. rewrite find_index_None in H. intros (e & He & Hin)%list_elem_of_fmap.
  specialize (H e Hin). rewrite <- He in H. by rewrite svz_str_str, String.eqb_refl in H.
Qed.

Lemma alter_split {A} (f : A -> A) l i e : l !! i = Some e ->
  exists l1 l2, l = l1 ++ e :: l2 /\ alter f i l = l1 ++ f e :: l2.
Proof.
  revert i; induction l as [|x l IH]; intros [|i]; simpl; try done.
  - intros [= ->]. by exists [], l.
  - intros H. destruct (IH i H) as (l1 & l2 & -> & E). exists (x :: l1), l2. split; [done|]. simpl. f_equal. exact E.
Qed.

Definition ids_of (l : list js) : list js := (fun e => e.["id"]) <$> l.

(** The entries of the builder after an operation: the entry of this id, created when missing,
    has one more operation. *)
Lemma put_entries g c e op id : holds g c -> good_pair (e, op) -> e.["id"] = JStr id ->
  exists l1 x l2, bd_entries (put c (e, op)) = l1 ++ push_to op x :: l2 /\ x.["id"] = JStr id /\
    Forall (carries g) (l1 ++ x :: l2) /\ NoDup (ids_of (l1 ++ x :: l2)) /\
    (forall i, i ∈ ids_of (l1 ++ x :: l2) <-> i = JStr id \/ i ∈ ids_of (bd_entries c)).
Proof.
  intros [He Hn Ha _ _] Hp Hid. pose proof (put_ok c e op Hp) as H. unfold addOpToManualApplyChunk in H. cbv zeta in H.
  apply bind_ok in H as (eid & _ & H). injection H as <-. cbn [bd_entries]. rewrite Hid.
  destruct (entryById (JStr id) (bd_entries c)) as [i|] eqn:E.
  - destruct (entryById_Some g c id i He E) as (x & Hx & Hxi). change (default (length (bd_entries c)) (Some i)) with i.
    destruct (alter_split (push_to op) _ _ _ Hx) as (l1 & l2 & El & Ealt). rewrite Ealt. rewrite El in He, Hn |- *.
    exists l1, x, l2. split_and!; [done..|]. intros i'. unfold ids_of. rewrite !fmap_app, !fmap_cons, Hxi. set_solver.
  - set (x := spread_with e [("ops", JArr [])]).
    assert (is_obj e = true) as Ho by apply Hp.
    assert (forall k, x.[k] = if String.eqb k "ops" then JArr [] else e.[k]) as Hx.
    { intros k. unfold x. rewrite jget_spread_with; [|done|repeat constructor; set_solver]. simpl. by destruct (String.eqb k "ops"). }
    assert ((bd_entries c ++ [x]) !! length (bd_entries c) = Some x) as Hl by by apply list_lookup_middle.
    destruct (alter_split (push_to op) _ _ _ Hl) as (l1 & l2 & El & Ealt). change (default (length (bd_entries c)) None) with (length (bd_entries c)). rewrite Ealt.
    exists l1, x, l2. rewrite <- El. apply entryById_None in E.
    assert (x.["id"] = JStr id) as Hxi by by rewrite Hx.
    split_and!; [done|done| | |].
    + apply Forall_app. split; [done|]. constructor; [|done]. split; [by destruct e|]. exists id. split; [done|].
      rewrite Hx. cbn. rewrite bfilter_none; [done|]. intros p Hin. apply has_id_other. intros Hpid. apply E, Ha.
      apply list_elem_of_fmap. by exists p.
    + unfold ids_of. rewrite fmap_app. apply NoDup_app. split_and!; [done| |by apply NoDup_singleton].
      intros i Hi Hi2%list_elem_of_singleton. rewrite Hxi in Hi2. by subst i.
    + intros i. unfold ids_of. rewrite fmap_app, fmap_cons, Hxi. set_solver.
Qed.

Lemma holds_put g c p : holds g c -> good_pair p -> holds (g ++ [p]) (put c p).
Proof.
  intros Hh Hp. destruct p as [e op]. pose proof Hp as (Ho & Hop & id & Hid & _). change (e.["id"] = JStr id) in Hid.
  destruct (put_entries g c e op id Hh Hp Hid) as (l1 & x & l2 & El & Hxi & Hc & Hn & Hids).
  pose proof (put_ok c e op Hp) as H. unfold addOpToManualApplyChunk in H. cbv zeta in H.
  apply bind_ok in H as (eid & Heid & H). assert (eid = op.["entryId"]) as -> by (unfold read_prop in Heid; destruct (nullish op); congruence).
  apply Ok_inj in H. apply Forall_app in Hc as [Hc1 [Hcx Hc2]%Forall_cons].
  assert (pair_id (e, op) = JStr id) as Hpid by exact Hid.
  destruct (carries_push g (e, op) x id Hpid Hxi Hcx) as [Hpush Hpushi]. cbn [snd] in Hpush, Hpushi.
  unfold ids_of in Hn. rewrite fmap_app, fmap_cons in Hn. pose proof Hn as (_ & Hn1 & [Hn2 _]%NoDup_cons)%NoDup_app.
  constructor.
  - rewrite El. apply Forall_app. split; [|constructor; [done|]].
    + eapply Forall_impl; [apply Forall_and; split; [exact Hc1|apply Forall_forall; intros y Hy; exact Hy]|]. cbn beta.
      intros y [Hy Hin]. apply carries_other; [|done]. rewrite Hpid, <- Hxi. intros Heq. apply (Hn1 y.["id"]).
      * apply list_elem_of_fmap. by exists y.
      * rewrite <- Heq. set_solver.
    + eapply Forall_impl; [apply Forall_and; split; [exact Hc2|apply Forall_forall; intros y Hy; exact Hy]|]. cbn beta.
      intros y [Hy Hin]. apply carries_other; [|done]. rewrite Hpid, <- Hxi. intros Heq. apply Hn2.
      rewrite Heq. apply list_elem_of_fmap. by exists y.
  - rewrite El, fmap_app, fmap_cons, Hpushi, <- Hxi. exact Hn.
  - intros i. rewrite El, fmap_app, fmap_cons, Hpushi, <- Hxi. specialize (Hids (JStr i)). unfold ids_of in Hids.
    rewrite fmap_app, fmap_cons in Hids. rewrite Hids, (ho_all g c Hh i), fmap_app, fmap_cons, Hpid. set_solver.
  - rewrite <- H. cbn [bd_ops]. rewrite (ho_ops g c Hh), fmap_app. done.
  - intros i. rewrite <- H. cbn [bd_opCounts]. rewrite Hid, map_get_set, bfilter_app, length_app. cbn [bfilter].
    assert (has_id i (e, op) = String.eqb id i) as -> by (unfold has_id; by rewrite Hpid).
    pose proof (ho_counts g c Hh) as Hk. destruct (String.eqb_spec id i) as [<-|].
    + rewrite Hk. cbn. lia.
    + rewrite Hk. cbn. lia.
Qed.

Lemma holds_build g : Forall good_pair g -> holds g (build g).
Proof.
  induction g as [|p g IH] using rev_ind.
  - intros _. constructor; [constructor|constructor|done|done|done].
  - rewrite Forall_app, Forall_singleton. intros [Hg Hp]. rewrite build_snoc. by apply holds_put; [apply IH|].
Qed.

(** ** Splitting *)

(** What a chunk sent to the agent says of its group of operations. *)
Record describes (g : list pair) (k : chunk) : Prop := {
  de_ops : (k_batch k).["ops"] = JArr (tag <$> g);
  de_entries : exists es, (k_batch k).["entries"] = JArr es /\ Forall (carries g) es;
  de_count : (k_meta k).["opCount"] = int (Z.of_nat (length g));
  de_ids : forall i, i ∈ k_entryIds k <-> i ∈ (pair_id <$> g);
  de_counts : forall id, default 0 (map_get (JStr id) (k_opCounts k)) = Z.of_nat (length (bfilter (has_id id) g)) }.

(** A batch as the commit command builds it. *)
Record batch_ok (batch : js) (entries : list js) : Prop := {
  ba_obj : is_obj batch = true;
  ba_entries : batch.["entries"] = JArr entries;
  ba_entry : Forall batch_entry entries;
  ba_candidates : exists cs, as_array (batch.["candidates"] ||? JArr []) = Ok cs /\ forall c, c ∈ cs -> nullish c = false }.

Definition all_pairs (entries : list js) : list pair := concat (pairs <$> entries).

Lemma opt_get_obj v k : is_obj v = true -> opt_get v k = v.[k].
Proof. by destruct v. Qed.

Lemma count_all batch entries : batch_ok batch entries ->
  countManualApplyOps batch = Ok (Z.of_nat (length (all_pairs entries))).
Proof.
  intros [Ho He Hs _]. unfold countManualApplyOps. rewrite (opt_get_obj batch "entries" Ho), He.
  assert (count_entry_ops entries = Ok (Z.of_nat (length (all_pairs entries)))) as H.
  { unfold all_pairs. clear -Hs. induction Hs as [|e entries [Hob _ [ops Hops] _] _ IH]; cbn [count_entry_ops]; [done|].
    unfold read_prop. assert (nullish e = false) as -> by (by destruct e). cbn [mbind result_bind]. rewrite IH, Hops.
    cbn [mbind result_bind]. rewrite fmap_cons. cbn [concat]. rewrite length_app. assert (length (pairs e) = length ops) as -> by (unfold pairs, ops_of; by rewrite Hops, length_fmap).
    unfold mret, result_ret. f_equal. lia. }
  by destruct batch.
Qed.

Lemma mapM_read_ok k l : (forall c, c ∈ l -> nullish c = false) -> mapM (fun c => read_prop c k) l = Ok ((fun c => c.[k]) <$> l).
Proof.
  induction l as [|c l IH]; intros H; [done|]. cbn [mapM]. rewrite IH by set_solver.
  assert (read_prop c k = Ok c.[k]) as ->; [|done]. unfold read_prop. by rewrite H by set_solver.
Qed.

Lemma finish_chunk_ok batch entries total totalOps index g : batch_ok batch entries -> Forall good_pair g ->
  exists k, finish_chunk batch total totalOps index (build g) = Ok k /\ describes g k.
Proof.
  intros [Ho _ _ (cs & Hcs & Hnn)] Hg. unfold finish_chunk, filterManualApplyChunkCandidates.
  rewrite (opt_get_obj batch "candidates" Ho), Hcs. cbn [mbind result_bind]. rewrite (mapM_read_ok "entryId" cs Hnn).
  cbn [mbind result_bind]. eexists. split; [reflexivity|]. destruct (holds_build g Hg) as [He Hn Ha Hops Hk].
  constructor; cbn [k_batch k_meta k_entryIds k_opCounts].
  - rewrite jget_spread_with; [|done|repeat constructor; set_solver]. cbn. by rewrite Hops.
  - rewrite jget_spread_with; [|done|repeat constructor; set_solver]. cbn. by eexists.
  - by rewrite build_count.
  - assert (forall i, i ∈ (pair_id <$> g) -> exists id, i = JStr id /\ id <> "") as Hstr.
    { intros i (p & -> & Hp)%list_elem_of_fmap. rewrite Forall_forall in Hg. destruct (Hg p Hp) as (_ & _ & id & -> & ?). eauto. }
    assert (forall i, i ∈ ((fun e => e.["id"]) <$> bd_entries (build g)) -> exists id, i = JStr id) as Hstr'.
    { intros i (e & -> & Hin)%list_elem_of_fmap. rewrite Forall_forall in He. destruct (He e Hin) as (_ & id & -> & _). eauto. }
    intros i. split.
    + intros Hi%set_of_sub. apply bfilter_elem_of in Hi as [Hi _]. destruct (Hstr' i Hi) as [id ->]. by apply Ha.
    + intros Hi. destruct (Hstr i Hi) as (id & -> & Hne). apply set_of_str, bfilter_elem_of. split; [by apply Ha|].
      simpl. by rewrite (proj2 (String.eqb_neq id "")).
  - exact Hk.
Qed.

Lemma finish_chunks_ok batch entries total totalOps gs : batch_ok batch entries -> Forall (Forall good_pair) gs -> forall index,
  exists ks, finish_chunks batch total totalOps index (build <$> gs) = Ok ks /\ Forall2 describes gs ks.
Proof.
  intros Hb. induction 1 as [|g gs Hg _ IH]; intros index; cbn [fmap list_fmap finish_chunks]; [by exists []|].
  destruct (finish_chunk_ok batch entries total totalOps index g Hb Hg) as (k & Hk & Hd).
  destruct (IH (S index)) as (ks & Hks & Hds). exists (k :: ks). rewrite Hk. cbn [mbind result_bind]. rewrite Hks. by split; [|constructor].
Qed.

Lemma split_chunks batch entries maxOps : batch_ok batch entries -> (maxOps < length (all_pairs entries))%nat ->
  exists chunks, splitManualApplyBatch batch maxOps = Ok chunks /\ Forall2 describes (split_pairs maxOps entries) chunks.
Proof.
  intros Hb Hlt. unfold splitManualApplyBatch. rewrite (count_all batch entries Hb). cbn [mbind result_bind].
  assert (Z.of_nat (length (all_pairs entries)) <=? Z.of_nat maxOps = false) as -> by (apply Z.leb_gt; lia).
  rewrite (opt_get_obj batch "entries" (ba_obj _ _ Hb)), (ba_entries _ _ Hb). cbn [or_else truthy iterate mbind result_bind].
  destruct (raw_chunks_split maxOps entries (ba_entry _ _ Hb)) as [Hr Hg]. rewrite Hr. cbn [mbind result_bind].
  rewrite length_fmap. by apply (finish_chunks_ok batch entries).
Qed.

(** C13: Splitting loses, repeats and reorders nothing: the chunks of a batch that is too large carry
    exactly its operations, in order, each under its entry; every chunk has between one
    and [maxOps] operations; and an entry that fits in a chunk is not cut. *)
Theorem split_partitions batch entries maxOps : batch_ok batch entries ->
  (1 <= maxOps)%nat -> (maxOps < length (all_pairs entries))%nat ->
  exists chunks groups, splitManualApplyBatch batch maxOps = Ok chunks /\ Forall2 describes groups chunks /\
    concat groups = all_pairs entries /\
    Forall (fun g => 1 <= length g <= maxOps)%nat groups /\
    (forall e, e ∈ entries -> (1 <= length (pairs e) <= maxOps)%nat ->
       exists g a b, g ∈ groups /\ g = a ++ pairs e ++ b).
Proof.
  intros Hb Hm Hlt. destruct (split_chunks batch entries maxOps Hb Hlt) as (chunks & Hs & Hd).
  exists chunks, (split_pairs maxOps entries). split; [done|]. split; [done|]. by apply split_pairs_ok.
Qed.

(** ** Replies *)

Definition names (l : list js) : Prop := forall v, v ∈ l -> exists s, v = JStr s /\ s <> "".

(** A reply that fits the event it answers: [ids] are the entry ids of the event and [ops] the
    number of its operations. *)
Record fits (ids : list js) (ops : Z) (data : js) : Prop := {
  fi_object : is_obj data = true;
  fi_plain : has_key data "entries" = false /\ has_key data "ops" = false;
  fi_status : exists s, data.["status"] = JStr s /\ s ∈ ["done"; "partial"; "error"];
  fi_arrays : forall k, k ∈ ["appliedEntryIds"; "failed"; "files"; "notes"] -> is_array data.[k] = true;
  fi_applied : names (elems data "appliedEntryIds");
  fi_files : names (elems data "files");
  fi_notes : forall v, v ∈ elems data "notes" -> is_string v = true;
  fi_failed : forall v, v ∈ elems data "failed" -> is_obj v = true /\ names [v.["entryId"]; v.["reason"]];
  fi_ids : ids <> [] -> forall v, v ∈ elems data "appliedEntryIds" \/ v ∈ ((fun i => i.["entryId"]) <$> elems data "failed") ->
           set_has ids v = true;
  fi_done : data.["status"] = JStr "done" -> elems data "failed" = [] /\ (0 < ops -> elems data "appliedEntryIds" <> []);
  fi_partial : data.["status"] = JStr "partial" -> elems data "appliedEntryIds" <> [] \/ elems data "failed" <> [];
  fi_error : data.["status"] = JStr "error" -> elems data "appliedEntryIds" = [] }.

Lemma first_some_None l : first_some l = None <-> Forall (fun o => o = None) l.
Proof.
  induction l as [|[v|] l IH]; cbn [first_some]; [by split|split; [done|]|].
  - by intros [? _]%Forall_cons.
  - rewrite IH, Forall_cons. naive_solver.
Qed.

Lemma invalid_None eventId reason bad : invalid eventId reason bad = None <-> bad = false.
Proof. unfold invalid. by destruct bad. Qed.

Lemma bad_index_None eventId data reason bad k :
  bad_index eventId data reason bad k = None <-> forall v, v ∈ elems data k -> bad v = false.
Proof. unfold bad_index. rewrite fmap_None. apply find_index_None. Qed.

Lemma find_None' {A} (f : A -> bool) l : find f l = None <-> forall v, v ∈ l -> f v = false.
Proof.
  induction l as [|x l IH]; cbn [find].
  - split; [|done]. intros _ v Hv. by apply elem_of_nil in Hv.
  - destruct (f x) eqn:E; [split; [done|]|rewrite IH].
    + intros H. rewrite (H x) in E; [done|set_solver].
    + split; [intros H v [->|Hv]%elem_of_cons; auto|intros H v Hv; apply H; set_solver].
Qed.

Lemma not_name_false v : not_name v = false <-> exists s, v = JStr s /\ s <> "".
Proof.
  unfold not_name. destruct v as [| | | |s| |]; simpl; try (split; [done|by intros (? & ? & _)]).
  rewrite negb_involutive, String.eqb_neq. naive_solver.
Qed.

Lemma failed_problem_None v : failed_problem v = None <-> is_obj v = true /\ names [v.["entryId"]; v.["reason"]].
Proof.
  unfold failed_problem, names. destruct (is_obj v) eqn:Eo.
  2: { assert (negb (truthy v) || negb (is_objecty v) || is_array v = true) as ->
         by (destruct v; simpl in *; rewrite ?orb_true_r; done). split; [done|by intros [? _]]. }
  assert (negb (truthy v) || negb (is_objecty v) || is_array v = false) as -> by by destruct v.
  set (a := v.["entryId"]). set (b := v.["reason"]).
  setoid_rewrite elem_of_cons. setoid_rewrite list_elem_of_singleton.
  destruct (not_name a) eqn:Ea; [split; [done|]|destruct (not_name b) eqn:Eb; split; try done].
  - intros [_ H]. assert (not_name a = false) by (apply not_name_false, H; by left). congruence.
  - intros [_ H]. assert (not_name b = false) by (apply not_name_false, H; by right). congruence.
  - intros _. split; [done|]. intros w [-> | ->]; by apply not_name_false.
Qed.

Lemma first_problem_None l n : first_problem n l = None <-> forall v, v ∈ l -> failed_problem v = None.
Proof.
  revert n; induction l as [|x l IH]; intros n; cbn [first_problem].
  - split; [|done]. intros _ v Hv. by apply elem_of_nil in Hv.
  - destruct (failed_problem x) eqn:E; [split; [done|]|rewrite IH].
    + intros H. rewrite (H x) in E; [done|set_solver].
    + split; [intros H v [->|Hv]%elem_of_cons; auto|intros H v Hv; apply H; set_solver].
Qed.

Lemma existsb_false {A} (f : A -> bool) l : (forall x, x ∈ l -> f x = false) -> existsb f l = false.
Proof. intros H. apply not_true_iff_false. intros (x & Hx & Hf)%existsb_exists. rewrite H in Hf; [done|by apply list_elem_of_In]. Qed.

Lemma foreign_false ids v : foreign ids v = false <-> (ids <> [] -> set_has ids v = true).
Proof. unfold foreign. destruct ids as [|i ids]; [naive_solver|]. cbn [length Nat.ltb Nat.leb andb]. rewrite negb_false_iff. naive_solver. Qed.

Lemma zero_length {A} (l : list A) : (length l =? 0)%nat = true <-> l = [].
Proof. destruct l; simpl; naive_solver. Qed.
Lemma pos_length {A} (l : list A) : (0 <? length l)%nat = true <-> l <> [].
Proof. destruct l; simpl; naive_solver. Qed.

Lemma invalid_shape_None eventId data : invalid_shape eventId data = None <->
  is_obj data = true /\ (has_key data "entries" = false /\ has_key data "ops" = false) /\
  (exists s, data.["status"] = JStr s /\ s ∈ ["done"; "partial"; "error"]) /\
  (forall k, k ∈ ["appliedEntryIds"; "failed"; "files"; "notes"] -> is_array data.[k] = true) /\
  names (elems data "appliedEntryIds") /\ names (elems data "files") /\
  (forall v, v ∈ elems data "notes" -> is_string v = true) /\
  (forall v, v ∈ elems data "failed" -> is_obj v = true /\ names [v.["entryId"]; v.["reason"]]).
Proof.
  unfold invalid_shape. rewrite first_some_None, !Forall_cons, !bad_index_None, !invalid_None, fmap_None, first_problem_None, Forall_nil.
  assert (negb (truthy data) || negb (is_objecty data) || is_array data = false <-> is_obj data = true) as ->
    by (destruct data as [| |[]|[[]| | |]|[]| |]; simpl; naive_solver).
  assert ((if has_str ["done"; "partial"; "error"] data.["status"] then None
           else Some (invalidManualApplyResult "invalid_status" eventId [("status", data.["status"] ?? JNull)])) = None <->
          exists s, data.["status"] = JStr s /\ s ∈ ["done"; "partial"; "error"]) as ->.
  { destruct (has_str _ _) eqn:E; rewrite <- has_str_iff, E; naive_solver. }
  rewrite orb_false_iff, !negb_false_iff. setoid_rewrite not_name_false. setoid_rewrite negb_false_iff.
  setoid_rewrite failed_problem_None. unfold names.
  assert ((forall k, k ∈ ["appliedEntryIds"; "failed"; "files"; "notes"] -> is_array data.[k] = true) <->
    is_array data.["appliedEntryIds"] = true /\ is_array data.["failed"] = true /\ is_array data.["files"] = true /\ is_array data.["notes"] = true) as ->.
  { rewrite <- Forall_forall, !Forall_cons, Forall_nil. tauto. }
  tauto.
Qed.

Lemma invalid_ids_None eventId data ids : invalid_ids eventId data ids = None <->
  (ids <> [] -> forall v, v ∈ elems data "appliedEntryIds" \/ v ∈ ((fun i => i.["entryId"]) <$> elems data "failed") -> set_has ids v = true).
Proof.
  unfold invalid_ids. rewrite first_some_None, !Forall_cons, !fmap_None, !find_None', Forall_nil.
  setoid_rewrite foreign_false. setoid_rewrite list_elem_of_fmap. split.
  - intros (H1 & H2 & _) Hne v [Hv|(i & -> & Hi)]; auto.
  - intros H. split_and!; [intros v Hv Hne; apply H; auto|intros v Hv Hne; apply H; eauto|done].
Qed.

Lemma invalid_status_None eventId data ops : (exists s, data.["status"] = JStr s) -> invalid_status eventId data ops = None <->
  (data.["status"] = JStr "done" -> elems data "failed" = [] /\ (0 < ops -> elems data "appliedEntryIds" <> [])) /\
  (data.["status"] = JStr "partial" -> elems data "appliedEntryIds" <> [] \/ elems data "failed" <> []) /\
  (data.["status"] = JStr "error" -> elems data "appliedEntryIds" = []).
Proof.
  intros [s Hs]. unfold invalid_status. cbv zeta. rewrite first_some_None, !Forall_cons, !invalid_None, Forall_nil, Hs.
  cbn [strict_eq]. rewrite !andb_false_iff, !Nat.eqb_neq, !Nat.ltb_ge, Z.ltb_ge, !String.eqb_neq.
  assert (forall l : list js, (length l <= 0)%nat <-> l = []) as Hl by (intros [|]; simpl; naive_solver lia).
  assert (forall l : list js, length l <> 0%nat <-> l <> []) as Hl' by (intros [|]; simpl; naive_solver).
  rewrite !Hl, !Hl'. split.
  - intros (H1 & H2 & H3 & H4 & _). split_and!; intros [= ->]; [split; [naive_solver|intros; naive_solver lia]|naive_solver|naive_solver].
  - intros (H1 & H2 & H3). split_and!; [| | | |done].
    + destruct (decide (s = "done")) as [->|]; naive_solver.
    + destruct (decide (s = "done")) as [->|]; [|naive_solver]. destruct (decide (0 < ops)); [naive_solver|left; right; lia].
    + destruct (decide (s = "partial")) as [->|]; naive_solver.
    + destruct (decide (s = "error")) as [->|]; naive_solver.
Qed.

(** A failed check makes a refusal. *)
Definition refuses (o : option js) : Prop := forall v, o = Some v -> v.["ok"] = JBool false.

Lemma refuses_first l : Forall refuses l -> refuses (first_some l).
Proof. induction 1 as [|[w|] l Hw _ IH]; [done| |exact IH]. intros v [= <-]. by apply Hw. Qed.
Lemma refuses_map {A} (f : A -> js) o : (forall a, (f a).["ok"] = JBool false) -> refuses (f <$> o).
Proof. intros Hf v. destruct o; [|done]. intros [= <-]. apply Hf. Qed.
Lemma refuses_invalid eventId reason bad : refuses (invalid eventId reason bad).
Proof. intros v. unfold invalid. by destruct bad; [intros [= <-]|]. Qed.
Lemma refuses_index eventId data reason bad k : refuses (bad_index eventId data reason bad k).
Proof. unfold bad_index. by apply refuses_map. Qed.

Lemma shape_refuses eventId data : refuses (invalid_shape eventId data).
Proof.
  apply refuses_first. repeat constructor; try apply refuses_invalid; try apply refuses_index; try (by apply refuses_map).
  destruct (has_str _ _); [done|]. by intros v [= <-].
Qed.
Lemma ids_refuse eventId data ids : refuses (invalid_ids eventId data ids).
Proof. apply refuses_first. repeat constructor; by apply refuses_map. Qed.
Lemma status_refuses eventId data ops : refuses (invalid_status eventId data ops).
Proof. apply refuses_first. repeat constructor; apply refuses_invalid. Qed.

(** Exactly the fitting replies are accepted: for an event whose entries and operations can be
    read, validation accepts a reply if and only if its data has the documented shape, it names
    only entries of the event, and its status agrees with its lists - "done" with nothing
    failed and, when there was something to do, something applied. What is accepted is
    handed on with its status and lists unchanged. *)
Theorem reply_accepted_iff msg deferred ids ops :
  entry_ids (opt_get (opt_get deferred "batch") "entries") = Ok ids ->
  countManualApplyOps (opt_get deferred "batch") = Ok ops ->
  exists v, validateManualApplyResultMessage msg deferred = Ok v /\
    (v.["ok"] = JBool true <-> fits ids ops (opt_get msg "data")) /\
    (v.["ok"] = JBool true -> v = accepted_result (opt_get msg "data")).
Proof.
  intros Hids Hops. unfold validateManualApplyResultMessage. cbv zeta. set (data := opt_get msg "data").
  set (eventId := opt_get msg "id" ||? _).
  pose proof (shape_refuses eventId data) as R1. pose proof (invalid_shape_None eventId data) as S1.
  destruct (invalid_shape eventId data) as [v|].
  { exists v. split; [done|]. rewrite (R1 v eq_refl). split; [|done]. split; [done|]. intros Hfit. exfalso.
    assert (Some v = None) as [=]. apply S1. destruct (fi_plain _ _ _ Hfit), Hfit. by split_and!. }
  pose proof (proj1 S1 eq_refl) as (F1 & F2 & (st & Fs & Fst) & F4 & F5 & F6 & F7 & F8).
  rewrite Hids. cbn [mbind result_bind].
  pose proof (ids_refuse eventId data ids) as R2. pose proof (invalid_ids_None eventId data ids) as S2.
  destruct (invalid_ids eventId data ids) as [v|].
  { exists v. split; [done|]. rewrite (R2 v eq_refl). split; [|done]. split; [done|]. intros []. exfalso.
    assert (Some v = None) as [=]. by apply S2. }
  set (n := if data.["status"] === JStr "done" then ops else 0).
  assert ((if data.["status"] === JStr "done" then countManualApplyOps (opt_get deferred "batch") else mret 0) = Ok n) as ->
    by (unfold n; by destruct (data.["status"] === JStr "done")).
  cbn [mbind result_bind]. eexists. split; [reflexivity|].
  pose proof (status_refuses eventId data n) as R3. pose proof (invalid_status_None eventId data n (ex_intro _ st Fs)) as S3.
  assert (data.["status"] = JStr "done" -> n = ops) as Hn by (unfold n; by intros ->).
  destruct (invalid_status eventId data n) as [v|]; cbn [from_option id].
  - rewrite (R3 v eq_refl). split; [|done]. split; [done|]. intros []. exfalso. assert (Some v = None) as [=].
    apply S3. split_and!; [|done|done]. intros Hd. rewrite Hn by done. auto.
  - split; [|done]. split; [intros _|done]. destruct (proj1 S3 eq_refl) as (F9 & F10 & F11).
    constructor; try done; [by exists st|by apply S2|]. intros Hd. rewrite <- Hn by done. auto.
Qed.

(** ** Concrete runs *)

Definition demo_op (ref : string) : js := JObj [("ref", JStr ref); ("newText", JStr "new")].
Definition demo_entry (id : string) (refs : list string) : js :=
  JObj [("id", JStr id); ("pageUrl", JStr "/"); ("ops", JArr (demo_op <$> refs))].
(** Three entries of one, five and two operations. *)
Definition demo_entries : list js := [demo_entry "a" ["1"]; demo_entry "b" ["2"; "3"; "4"; "5"; "6"]; demo_entry "c" ["7"; "8"]].
Definition demo_large_batch : js := JObj [("pageUrl", JStr "/"); ("entries", JArr demo_entries)].

Lemma demo_entry_ok id refs : id <> "" -> batch_entry (demo_entry id refs).
Proof.
  intros Hid. constructor; [done|by exists id|by eexists|]. intros op (r & -> & _)%list_elem_of_fmap. done.
Qed.
Lemma demo_batch_ok : batch_ok demo_large_batch demo_entries.
Proof.
  constructor; [done|done| |].
  - repeat constructor; by apply demo_entry_ok.
  - exists []. split; [done|]. intros c Hc. by apply elem_of_nil in Hc.
Qed.

Lemma split_partitions_witness : exists chunks,
  splitManualApplyBatch demo_large_batch 3 = Ok chunks /\ length chunks = 4%nat.
Proof.
  destruct (split_partitions demo_large_batch demo_entries 3 demo_batch_ok ltac:(lia) ltac:(vm_compute; lia))
    as (chunks & groups & Hs & _). exists chunks. split; [exact Hs|].
  vm_compute in Hs. injection Hs as <-. reflexivity.
Defined.

Definition demo_reply (applied : string) : js :=
  JObj [("id", JStr "ev"); ("data", JObj [("status", JStr "done"); ("appliedEntryIds", JArr [JStr applied]);
    ("failed", JArr []); ("files", JArr [JStr "a.html"]); ("notes", JArr [])])].
Definition demo_deferred : js := JObj [("batch", JObj [("entries", JArr [demo_entry "a" ["1"]])])].

Lemma reply_accepted_iff_witness :
  fits [JStr "a"] 1 (opt_get (demo_reply "a") "data") /\ ~ fits [JStr "a"] 1 (opt_get (demo_reply "z") "data").
Proof.
  split.
  - destruct (reply_accepted_iff (demo_reply "a") demo_deferred [JStr "a"] 1) as (v & Hv & [H _] & _); [reflexivity|reflexivity|].
    apply H. vm_compute in Hv. injection Hv as <-. reflexivity.
  - destruct (reply_accepted_iff (demo_reply "z") demo_deferred [JStr "a"] 1) as (v & Hv & [_ H] & _); [reflexivity|reflexivity|].
    intros Hf. specialize (H Hf). vm_compute in Hv. injection Hv as <-. discriminate H.
Defined.
