(* ===== verification/ApplyController.v ===== *)
(** * The Apply controller ([live/manual-apply.mjs], [createManualApplyController])

    The commit command hands a batch to the agent through the event queue and waits for
    its reply. [pushBatchInChunksAndWait] is a conversation: it pushes one event, waits for
    its promise and goes on. The promises, their timers, the tombstones of those that
    timed out and the files saved for each event are the controller's state; replies,
    timeouts and cancellations come in any order.

    The queue belongs to the server: [ApplyQueue] is what the controller uses of it. *)
From S2P Require Import Prelude JsString JsValue Json NodePath Vocabulary EventValidation PollLanes Files ManualEditsBuffer ApplyFiles ApplyBatch.
Local Open Scope Z_scope.

(** [Number(process.env.IMPECCABLE_LIVE_APPLY_EVENT_SOFT_DEADLINE_MS || 120_000)]. *)
Definition APPLY_EVENT_SOFT_DEADLINE_MS (env : js) : num := to_num (env ||? int 120000).

(** ** The conversation over the chunks *)

Inductive conv (A : Type) : Type :=
| Return (r : result A)
| Push (batch chunk repair : js) (resume : result js -> conv A).
Arguments Return {A}. Arguments Push {A}.

(** The replies, one per event pushed: a body, or the error the promise is rejected with. [None]
    while a reply is awaited. *)
Fixpoint converse {A} (answers : list (result js)) (c : conv A) {struct c} : option (result A) :=
  match c with
  | Return r => match answers with [] => Some r | _ => None end
  | Push _ _ _ resume => match answers with [] => None | answer :: answers => converse answers (resume answer) end
  end.

Record progress := Progress {
  pr_applied : jmap Z; pr_failed : jmap js; pr_files : list js; pr_notes : list js; pr_aborted : bool }.

Definition failure (entryId reason candidates : js) : js :=
  JObj [("entryId", entryId); ("reason", reason); ("candidates", candidates)].

(** [if (!failedByEntry.has(id)) failedByEntry.set(id, v)]. *)
Definition set_new {A} (m : jmap A) (id : js) (v : A) : jmap A := if map_has id m then m else map_set id v m.

Definition markChunkEntriesFailed (failedByEntry : jmap js) (k : chunk) (reason : js) : jmap js :=
  foldl (fun m id => set_new m id (failure id reason (JArr []))) failedByEntry (k_entryIds k).

Definition failed_id (item : js) : js := item.["entryId"] ||? item.["id"].

(** The ids a reply reports failed. *)
Definition failed_ids (failed : list js) : list js := bfilter truthy (failed_id <$> failed).

Definition note_failure (m : jmap js) (item : js) : jmap js :=
  let id := failed_id item in
  if negb (truthy id) then m else
  set_new m id (failure id (item.["reason"] ||? item.["message"] ||? JStr "failed") (array_or_empty item.["candidates"])).

(** What a reply that is not an error says of the chunk's entries. *)
Definition note_applied (k : chunk) (r : chunk_result) (m : jmap Z) : jmap Z :=
  foldl (fun m id =>
    if negb (set_has (k_entryIds k) id) || set_has (failed_ids (r_failed r)) id then m
    else map_set id (default 0 (map_get id m) + default 0 (map_get id (k_opCounts k))) m) m (set_of (r_applied r)).
Definition note_silent (k : chunk) (r : chunk_result) (m : jmap js) : jmap js :=
  foldl (fun m id =>
    if set_has (set_of (r_applied r)) id || set_has (failed_ids (r_failed r)) id then m
    else set_new m id (failure id (JStr "not_reported_applied") (JArr []))) m (k_entryIds k).

Definition take_reply (k : chunk) (p : progress) (answer : result js) : progress :=
  match answer with
  | Throw err =>
    Progress (pr_applied p) (markChunkEntriesFailed (pr_failed p) k (JStr (err_message err) ||? JStr "chat_agent_error"))
             (pr_files p) (pr_notes p) true
  | Ok body =>
    let r := normalizeApplyChunkResult body in
    let files := foldl set_add (pr_files p) (r_files r) in
    let notes := pr_notes p ++ r_notes r in
    let failed := foldl note_failure (pr_failed p) (r_failed r) in
    if String.eqb (r_status r) "error" then
      Progress (pr_applied p)
        (markChunkEntriesFailed failed k (r_message r ||? firstFailureReason r ||? JStr "chat_agent_error")) files notes true
    else Progress (note_applied k r (pr_applied p)) (note_silent k r failed) files notes false
  end.

(** After an error the remaining chunks are not sent. *)
Fixpoint push_chunks (chunks : list chunk) (p : progress) : conv progress :=
  match chunks with
  | [] => Return (Ok p)
  | k :: chunks =>
    if pr_aborted p then
      push_chunks chunks (Progress (pr_applied p) (markChunkEntriesFailed (pr_failed p) k (JStr "manual_edit_chunk_aborted"))
                                   (pr_files p) (pr_notes p) true)
    else Push (k_batch k) (k_meta k) JNull (fun answer => push_chunks chunks (take_reply k p answer))
  end.

(** [expectedOpsByEntry], then the final loop over it. *)
Definition expected_ops (entries : list js) : jmap Z :=
  foldl (fun m e => map_set e.["id"] (match e.["ops"] with JArr l => Z.of_nat (length l) | _ => 0 end) m) [] entries.

Definition settle_entry (applied : jmap Z) (acc : list js * jmap js) (e : js * Z) : list js * jmap js :=
  if map_has e.1 acc.2 then acc
  else if (default 0 (map_get e.1 applied) =? e.2) && (0 <? e.2) then (acc.1 ++ [e.1], acc.2)
  else (acc.1, map_set e.1 (failure e.1 (JStr "not_reported_applied") (JArr [])) acc.2).

Definition chunked_result (expected : jmap Z) (p : progress) : js :=
  let '(applied, failed) := foldl (settle_entry (pr_applied p)) ([], pr_failed p) expected in
  JObj [("status", JStr (if (length failed =? 0)%nat then "done" else if (0 <? length applied)%nat then "partial" else "error"));
        ("appliedEntryIds", JArr applied); ("failed", JArr failed.*2); ("files", JArr (pr_files p)); ("notes", JArr (pr_notes p))].

Fixpoint conv_map {A B} (f : A -> B) (c : conv A) : conv B :=
  match c with
  | Return r => Return (f <$> r)
  | Push batch k repair resume => Push batch k repair (fun answer => conv_map f (resume answer))
  end.

(** [chunkSize] is the environment variable. *)
Definition pushBatchInChunksAndWait (chunkSize batch context : js) : conv js :=
  let repair := opt_get context "repair" ||? opt_get batch "repair" ||? JNull in
  if truthy repair then Push batch JNull repair Return else
  match splitManualApplyBatch batch (Z.to_nat (manualEditApplyChunkSize chunkSize)) with
  | Throw e => Return (Throw e)
  | Ok chunks =>
    if (length chunks <=? 1)%nat then Push batch JNull JNull Return else
    match (entries ← iterate (opt_get batch "entries" ||? JArr []); _ ← mapM (fun e => read_prop e "id") entries; mret entries) with
    | Throw e => Return (Throw e)
    | Ok entries => conv_map (chunked_result (expected_ops entries)) (push_chunks chunks (Progress [] [] [] [] false))
    end
  end.

(** * Theorems *)

(** ** Which entries count as applied *)

Section Chunks.
Variable id : string.

(** A reply that reports the entry applied and does not report it failed. *)
Definition confirms (answer : result js) : bool :=
  match answer with
  | Ok body =>
    let r := normalizeApplyChunkResult body in
    negb (String.eqb (r_status r) "error") && set_has (r_applied r) (JStr id) && negb (set_has (failed_ids (r_failed r)) (JStr id))
  | Throw _ => false
  end.
Definition reports_failed (answer : result js) : bool :=
  match answer with
  | Ok body => set_has (failed_ids (r_failed (normalizeApplyChunkResult body))) (JStr id)
  | Throw _ => false
  end.

Definition is_failed (p : progress) : bool := map_has (JStr id) (pr_failed p).
Definition in_chunk (k : chunk) : Prop := JStr id ∈ k_entryIds k.
Definition count_in (k : chunk) : Z := default 0 (map_get (JStr id) (k_opCounts k)).
Definition applied_in (p : progress) : Z := default 0 (map_get (JStr id) (pr_applied p)).

(** The ids of a chunk are strings, those it has operations of. *)
Record chunk_ok (k : chunk) : Prop := {
  ck_names : forall i, i ∈ k_entryIds k -> exists s, i = JStr s;
  ck_count : ~ in_chunk k -> count_in k = 0 }.

Lemma map_has_set {A} a b (v : A) (m : jmap A) : map_has (JStr a) (map_set (JStr b) v m) = String.eqb b a || map_has (JStr a) m.
Proof. unfold map_has. rewrite map_get_set. destruct (String.eqb b a); [by apply bool_decide_eq_true|done]. Qed.

Lemma map_has_set_new {A} a b (v : A) (m : jmap A) : map_has (JStr a) (set_new m (JStr b) v) = String.eqb b a || map_has (JStr a) m.
Proof.
  unfold set_new. destruct (map_has (JStr b) m) eqn:E; [|apply map_has_set].
  destruct (String.eqb_spec b a) as [->|]; [by rewrite E|done].
Qed.

(** A write under another key, whatever the key. *)
Lemma map_has_other {A} k (v : A) (m : jmap A) : k <> JStr id -> map_has (JStr id) (map_set k v m) = map_has (JStr id) m.
Proof.
  intros Hk. unfold map_has. f_equal. assert (map_get (JStr id) (map_set k v m) = map_get (JStr id) m) as ->; [|done].
  induction m as [|[k' w] m IH]; cbn [map_set map_get].
  - destruct (same_value_zero k (JStr id)) eqn:E; [|done]. by apply same_value_zero_str in E.
  - destruct (same_value_zero k' k) eqn:E; cbn [map_get]; [|by rewrite IH].
    destruct (same_value_zero k' (JStr id)) eqn:E2; [|done]. apply same_value_zero_str in E2 as ->. exfalso. apply Hk.
    destruct k; simpl in E; try done. apply String.eqb_eq in E. by subst.
Qed.

Lemma marked_failed m k reason : chunk_ok k ->
  map_has (JStr id) (markChunkEntriesFailed m k reason) = true <-> map_has (JStr id) m = true \/ in_chunk k.
Proof.
  intros [Hn _]. unfold markChunkEntriesFailed, in_chunk. revert m Hn. induction (k_entryIds k) as [|i l IH]; intros m Hn; cbn [foldl].
  { rewrite elem_of_nil. tauto. }
  destruct (Hn i) as [s ->]; [set_solver|]. rewrite IH by (intros j Hj; apply Hn; set_solver).
  rewrite map_has_set_new, orb_true_iff, String.eqb_eq, elem_of_cons. naive_solver.
Qed.

Lemma noted_failures l m :
  map_has (JStr id) (foldl note_failure m l) = true <-> map_has (JStr id) m = true \/ set_has (failed_ids l) (JStr id) = true.
Proof.
  rewrite set_has_str. unfold failed_ids. revert m; induction l as [|x l IH]; intros m; cbn [foldl fmap list_fmap bfilter].
  { rewrite elem_of_nil. tauto. }
  rewrite IH. unfold note_failure. destruct (truthy (failed_id x)) eqn:Et; cbn [negb]; [|done].
  rewrite elem_of_cons. unfold set_new. destruct (decide (failed_id x = JStr id)) as [->|Hne].
  - destruct (map_has (JStr id) m) eqn:E; [naive_solver|]. rewrite map_has_set, String.eqb_refl. naive_solver.
  - destruct (map_has (failed_id x) m); [|rewrite map_has_other by done]; naive_solver.
Qed.

Lemma noted_silent k r m : chunk_ok k -> map_has (JStr id) (note_silent k r m) = true <->
  map_has (JStr id) m = true \/
  (in_chunk k /\ set_has (r_applied r) (JStr id) = false /\ set_has (failed_ids (r_failed r)) (JStr id) = false).
Proof.
  intros [Hn _]. unfold note_silent, in_chunk. revert m Hn. induction (k_entryIds k) as [|i l IH]; intros m Hn; cbn [foldl].
  { rewrite elem_of_nil. tauto. }
  destruct (Hn i) as [s ->]; [set_solver|]. rewrite IH by (intros j Hj; apply Hn; set_solver). rewrite elem_of_cons.
  assert (set_has (set_of (r_applied r)) (JStr s) = set_has (r_applied r) (JStr s)) as ->.
  { apply eq_iff_eq_true. by rewrite !set_has_str, set_of_str. }
  destruct (set_has (r_applied r) (JStr s)) eqn:E1; [cbn [orb]; naive_solver congruence|].
  destruct (set_has (failed_ids (r_failed r)) (JStr s)) eqn:E2; cbn [orb]; [naive_solver congruence|].
  rewrite map_has_set_new, orb_true_iff, String.eqb_eq. naive_solver.
Qed.

Lemma set_add_NoDup l i : (exists s, i = JStr s) -> NoDup l -> NoDup (set_add l i).
Proof.
  intros [s ->] Hl. unfold set_add. destruct (set_has l (JStr s)) eqn:E; [done|]. apply NoDup_app. split_and!; [done| |by apply NoDup_singleton].
  intros x Hx ->%list_elem_of_singleton. apply set_has_str in Hx. congruence.
Qed.
Lemma set_of_NoDup l : (forall i, i ∈ l -> exists s, i = JStr s) -> NoDup (set_of l).
Proof.
  unfold set_of. intros Hl. assert (forall acc, NoDup acc -> NoDup (foldl set_add acc l)) as H; [|by apply H, NoDup_nil_2].
  induction l as [|x l IH]; intros acc Ha; cbn [foldl]; [done|]. apply IH; [intros i Hi; apply Hl; set_solver|].
  apply set_add_NoDup; [apply Hl; set_solver|done].
Qed.

Lemma applied_names body i : i ∈ r_applied (normalizeApplyChunkResult body) -> exists s, i = JStr s.
Proof. cbn [r_applied normalizeApplyChunkResult]. intros [_ H]%bfilter_elem_of. destruct i; try discriminate. eauto. Qed.

(** The count of the entry goes up by its operations in the chunk, when the reply confirms it. *)
Lemma noted_applied k r m : (forall i, i ∈ r_applied r -> exists s, i = JStr s) ->
  default 0 (map_get (JStr id) (note_applied k r m)) =
  default 0 (map_get (JStr id) m) +
  (if set_has (r_applied r) (JStr id) && set_has (k_entryIds k) (JStr id) && negb (set_has (failed_ids (r_failed r)) (JStr id)) then count_in k else 0).
Proof.
  intros Hn. assert (set_has (r_applied r) (JStr id) = set_has (set_of (r_applied r)) (JStr id)) as ->.
  { apply eq_iff_eq_true. by rewrite !set_has_str, set_of_str. }
  unfold note_applied. pose proof (set_of_NoDup _ Hn) as Hd.
  assert (forall i, i ∈ set_of (r_applied r) -> exists s, i = JStr s) as Hs by (intros i Hi; by apply Hn, set_of_sub).
  clear Hn. revert m Hd Hs. induction (set_of (r_applied r)) as [|i l IH]; intros m Hd Hs; cbn [foldl]; [cbn; lia|].
  apply NoDup_cons in Hd as [Hi Hd]. destruct (Hs i) as [s ->]; [set_solver|].
  rewrite IH by (done || intros j Hj; apply Hs; set_solver). cbn [set_has existsb]. rewrite svz_str_str.
  change (existsb (fun x => same_value_zero x (JStr id)) l) with (set_has l (JStr id)).
  destruct (String.eqb_spec s id) as [->|Hne]; cbn [orb].
  - assert (set_has l (JStr id) = false) as -> by (apply not_true_iff_false; by rewrite set_has_str). cbn [andb].
    destruct (set_has (k_entryIds k) (JStr id)), (set_has (failed_ids (r_failed r)) (JStr id)); cbn [negb orb andb]; try lia.
    rewrite map_get_set, String.eqb_refl. cbn. unfold count_in. lia.
  - destruct (negb _ || _); [done|]. rewrite map_get_set. by apply String.eqb_neq in Hne as ->.
Qed.

(** What one reply changes. *)
Lemma take_reply_ok k p a : chunk_ok k ->
  (is_failed (take_reply k p a) = true <-> is_failed p = true \/ reports_failed a = true \/ (in_chunk k /\ confirms a = false)) /\
  (is_failed (take_reply k p a) = false -> applied_in (take_reply k p a) = applied_in p + count_in k).
Proof.
  intros Hk. pose proof (ck_count k Hk) as Hz. unfold is_failed, applied_in, in_chunk in *. destruct a as [body|err].
  - unfold take_reply, reports_failed, confirms. set (r := normalizeApplyChunkResult body). cbv zeta.
    pose proof (applied_names body) as Hnames. fold r in Hnames.
    destruct (String.eqb (r_status r) "error"); cbn [pr_failed pr_applied negb andb].
    + assert (forall reason, map_has (JStr id) (markChunkEntriesFailed (foldl note_failure (pr_failed p) (r_failed r)) k reason) = true <->
        map_has (JStr id) (pr_failed p) = true \/ set_has (failed_ids (r_failed r)) (JStr id) = true \/ JStr id ∈ k_entryIds k /\ false = false) as H.
      { intros reason. rewrite marked_failed by done. rewrite noted_failures. unfold in_chunk. tauto. }
      split; [apply H|]. intros Hf. rewrite Hz; [lia|]. intros Hin. rewrite (proj2 (H _)) in Hf by auto. discriminate.
    + assert (map_has (JStr id) (note_silent k r (foldl note_failure (pr_failed p) (r_failed r))) = true <->
        map_has (JStr id) (pr_failed p) = true \/ set_has (failed_ids (r_failed r)) (JStr id) = true \/
        JStr id ∈ k_entryIds k /\ set_has (r_applied r) (JStr id) && negb (set_has (failed_ids (r_failed r)) (JStr id)) = false) as H.
      { rewrite noted_silent, noted_failures by done. unfold in_chunk.
        destruct (set_has (r_applied r) (JStr id)), (set_has (failed_ids (r_failed r)) (JStr id)); cbn [andb negb]; naive_solver. }
      split; [exact H|]. intros Hf. rewrite noted_applied by done.
      destruct (decide (JStr id ∈ k_entryIds k)) as [Hin|Hin].
      * rewrite (proj2 (set_has_str (k_entryIds k) id) Hin), andb_true_r.
        destruct (set_has (r_applied r) (JStr id) && negb _) eqn:E; [done|].
        exfalso. rewrite (proj2 H) in Hf; [discriminate|]. right. right. done.
      * rewrite (Hz Hin). destruct (_ && _ && _) eqn:E; [|done]. apply andb_true_iff in E as [[_ E]%andb_true_iff _].
        by apply set_has_str in E.
  - cbn [take_reply pr_failed pr_applied reports_failed confirms].
    assert (map_has (JStr id) (markChunkEntriesFailed (pr_failed p) k (JStr (err_message err) ||? JStr "chat_agent_error")) = true <->
      map_has (JStr id) (pr_failed p) = true \/ JStr id ∈ k_entryIds k) as H by by apply marked_failed.
    split; [rewrite H; naive_solver|]. intros Hf. rewrite Hz; [lia|]. intros Hin. rewrite (proj2 H) in Hf by auto. discriminate.
Qed.

Definition total_in (ks : list chunk) : Z := foldr (fun k n => count_in k + n) 0 ks.

(** Once aborted, no event is pushed any more. *)
Lemma aborted_silent ks : forall p answers p', pr_aborted p = true ->
  converse answers (push_chunks ks p) = Some (Ok p') -> answers = [].
Proof.
  induction ks as [|k ks IH]; intros p answers p' Ha; cbn [push_chunks converse]; [by destruct answers|].
  rewrite Ha. by apply IH.
Qed.

Definition unconfirmed (ks : list chunk) (answers : list (result js)) : Prop :=
  exists i k, ks !! i = Some k /\ in_chunk k /\ forall a, answers !! i = Some a -> confirms a = false.

Lemma unconfirmed_cons k ks a answers :
  unconfirmed (k :: ks) (a :: answers) <-> (in_chunk k /\ confirms a = false) \/ unconfirmed ks answers.
Proof.
  split.
  - intros ([|i] & k' & Hk & Hin & Ha); simpl in *; [injection Hk as <-; left; split; [done|by apply Ha]|right; by exists i, k'].
  - intros [[Hin Ha]|(i & k' & Hk & Hin & Ha)]; [exists 0%nat, k; split_and!; [done..|by intros a' [= <-]]|by exists (S i), k'].
Qed.
Lemma unconfirmed_none k ks : unconfirmed (k :: ks) [] <-> in_chunk k \/ unconfirmed ks [].
Proof.
  split.
  - intros ([|i] & k' & Hk & Hin & Ha); simpl in *; [injection Hk as <-; by left|right; by exists i, k'].
  - intros [Hin|(i & k' & Hk & Hin & Ha)]; [by exists 0%nat, k|by exists (S i), k'].
Qed.

Lemma push_chunks_ok ks : Forall chunk_ok ks -> forall p answers p', converse answers (push_chunks ks p) = Some (Ok p') ->
  (is_failed p' = true <-> is_failed p = true \/ (exists a, a ∈ answers /\ reports_failed a = true) \/ unconfirmed ks answers) /\
  (is_failed p' = false -> applied_in p' = applied_in p + total_in ks).
Proof.
  induction 1 as [|k ks Hk _ IH]; intros p answers p'; cbn [push_chunks].
  - cbn [converse]. destruct answers; [|done]. intros [= <-]. split; [|cbn; lia]. split; [by left|].
    intros [?|[(a & Ha%elem_of_nil & _)|(i & k & Hk & _)]]; [done..|]. by rewrite lookup_nil in Hk.
  - destruct (pr_aborted p) eqn:Eab.
    + intros Hc. assert (answers = []) as -> by (by eapply aborted_silent; [|exact Hc]).
      destruct (IH _ _ _ Hc) as [H1 H2]. rewrite unconfirmed_none, H1. unfold is_failed at 1 in H1. cbn [pr_failed] in H1.
      unfold is_failed in *. cbn [pr_failed] in *. rewrite marked_failed in * by done. split; [split; naive_solver|].
      intros Hf. rewrite H2 by done. unfold applied_in. cbn [pr_applied total_in foldr].
      rewrite (ck_count k Hk); [done|]. intros Hin. assert (map_has (JStr id) (pr_failed p') = true) by (apply H1; auto). congruence.
    + cbn [converse]. destruct answers as [|a answers]; [done|]. intros Hc. destruct (IH _ _ _ Hc) as [H1 H2].
      destruct (take_reply_ok k p a Hk) as [H3 H4]. rewrite unconfirmed_cons, H1, H3. split.
      * assert ((exists a', a' ∈ a :: answers /\ reports_failed a' = true) <->
                reports_failed a = true \/ exists a', a' ∈ answers /\ reports_failed a' = true) as ->
          by (setoid_rewrite elem_of_cons; naive_solver).
        tauto.
      * intros Hf. rewrite H2 by done. rewrite H4; [cbn [total_in foldr]; unfold total_in; lia|].
        apply not_true_iff_false. intros Ht. assert (is_failed p' = true) by (apply H1; by left). congruence.
Qed.
End Chunks.

(** ** The final report *)

Lemma map_has_In {A} id (m : jmap A) : map_has (JStr id) m = true <-> exists v, (JStr id, v) ∈ m.
Proof.
  unfold map_has. rewrite bool_decide_eq_true. induction m as [|[k w] m IH]; cbn [map_get].
  - split; [by intros [? ?]|]. by intros [v Hv%elem_of_nil].
  - destruct (same_value_zero k (JStr id)) eqn:E.
    + apply same_value_zero_str in E as ->. split; [intros _; exists w; by left|eauto].
    + rewrite IH. split; [intros [v Hv]; exists v; by right|]. intros [v [[= <- <-]|Hv]%elem_of_cons]; [|eauto].
      by rewrite svz_str_str, String.eqb_refl in E.
Qed.

(** A failure is filed under its entry id. *)
Definition filed (m : jmap js) : Prop :=
  forall k v, (k, v) ∈ m -> v.["entryId"] = k \/ same_value_zero k v.["entryId"] = true.

Lemma filed_set k reason candidates m : filed m -> filed (map_set k (failure k reason candidates) m).
Proof.
  intros H k' v'. induction m as [|[k1 v1] m IH]; cbn [map_set].
  - intros [= -> ->]%list_elem_of_singleton. by left.
  - destruct (same_value_zero k1 k) eqn:E.
    + intros [[= -> ->]|Hin]%elem_of_cons; [by right|]. apply H. by right.
    + intros [[= -> ->]|Hin]%elem_of_cons; [apply H; by left|]. apply IH; [|done]. intros k2 v2 H2. apply H. by right.
Qed.
Lemma filed_set_new k reason candidates m : filed m -> filed (set_new m k (failure k reason candidates)).
Proof. unfold set_new. destruct (map_has k m); [done|apply filed_set]. Qed.
Lemma filed_fold {A} (f : jmap js -> A -> jmap js) l : (forall m x, filed m -> filed (f m x)) -> forall m, filed m -> filed (foldl f m l).
Proof. intros Hf. induction l as [|x l IH]; intros m Hm; cbn [foldl]; auto. Qed.

Lemma filed_mark m k reason : filed m -> filed (markChunkEntriesFailed m k reason).
Proof. apply filed_fold. intros m' i. apply filed_set_new. Qed.
Lemma filed_note m item : filed m -> filed (note_failure m item).
Proof. unfold note_failure. destruct (negb _); [done|apply filed_set_new]. Qed.
Lemma filed_take k p a : filed (pr_failed p) -> filed (pr_failed (take_reply k p a)).
Proof.
  intros H. destruct a as [body|err]; cbn [take_reply]; [|by apply filed_mark]. cbv zeta.
  assert (filed (foldl note_failure (pr_failed p) (r_failed (normalizeApplyChunkResult body)))) as H1
    by (apply filed_fold; [intros m x; apply filed_note|done]).
  destruct (String.eqb _ _); cbn [pr_failed]; [by apply filed_mark|]. apply filed_fold; [|done].
  intros m i Hm. destruct (_ || _); [done|by apply filed_set_new].
Qed.
Lemma filed_push ks : forall p answers p', filed (pr_failed p) -> converse answers (push_chunks ks p) = Some (Ok p') -> filed (pr_failed p').
Proof.
  induction ks as [|k ks IH]; intros p answers p' Hp; cbn [push_chunks].
  - cbn [converse]. destruct answers; [|done]. by intros [= <-].
  - destruct (pr_aborted p); [apply IH; by apply filed_mark|]. cbn [converse]. destruct answers as [|a answers]; [done|].
    apply IH. by apply filed_take.
Qed.

Section Settle.
Context (applied : jmap Z) (id : string).
Definition complete (n : Z) : Prop := default 0 (map_get (JStr id) applied) = n /\ 0 < n.

Lemma settle_one acc s n :
  (JStr id ∈ (settle_entry applied acc (JStr s, n)).1 <->
     JStr id ∈ acc.1 \/ (s = id /\ map_has (JStr id) acc.2 = false /\ complete n)) /\
  (map_has (JStr id) (settle_entry applied acc (JStr s, n)).2 = true <->
     map_has (JStr id) acc.2 = true \/ (s = id /\ ~ complete n)).
Proof.
  unfold settle_entry. cbn [fst snd]. destruct (decide (s = id)) as [->|Hne].
  - destruct (map_has (JStr id) acc.2) eqn:E; [rewrite E; naive_solver|].
    assert ((default 0 (map_get (JStr id) applied) =? n) && (0 <? n) = true <-> complete n) as Hc
      by (unfold complete; by rewrite andb_true_iff, Z.eqb_eq, Z.ltb_lt).
    destruct (_ && _); cbn [fst snd]; rewrite ?map_has_set, ?String.eqb_refl, ?elem_of_app, ?list_elem_of_singleton, ?E; cbn [orb].
    + assert (complete n) by by apply Hc. split; [tauto|naive_solver].
    + assert (~ complete n) by (intros ?%Hc; done). split; [tauto|naive_solver].
  - destruct (map_has (JStr s) acc.2); [naive_solver|].
    destruct (_ && _); cbn [fst snd]; rewrite ?map_has_set, ?elem_of_app, ?list_elem_of_singleton;
      rewrite ?(proj2 (String.eqb_neq s id) Hne); cbn [orb]; naive_solver.
Qed.

Lemma settle_all l : NoDup l.*1 -> (forall e, e ∈ l -> exists s, e.1 = JStr s) -> forall acc,
  (JStr id ∈ (foldl (settle_entry applied) acc l).1 <->
     JStr id ∈ acc.1 \/ exists n, (JStr id, n) ∈ l /\ map_has (JStr id) acc.2 = false /\ complete n) /\
  (map_has (JStr id) (foldl (settle_entry applied) acc l).2 = true <->
     map_has (JStr id) acc.2 = true \/ exists n, (JStr id, n) ∈ l /\ ~ complete n).
Proof.
  induction l as [|[k n] l IH]; intros Hd Hs acc; cbn [foldl].
  { setoid_rewrite elem_of_nil. naive_solver. }
  destruct (Hs (k, n)) as [s Hk]; [by left|]. cbn [fst] in Hk. subst k. cbn [fmap list_fmap fst] in Hd. apply NoDup_cons in Hd as [Hn Hd].
  destruct (IH Hd ltac:(intros e He; apply Hs; by right) (settle_entry applied acc (JStr s, n))) as [H1 H2].
  destruct (settle_one acc s n) as [H3 H4]. rewrite H1, H2, H3, H4. setoid_rewrite elem_of_cons.
  assert (forall m, s = id -> (JStr id, m) ∉ l) as Hfresh.
  { intros m -> Hin. apply Hn. apply list_elem_of_fmap. by exists (JStr id, m). }
  destruct (decide (s = id)) as [->|Hne].
  - split; (split; [intros [[?|(_ & H)]|(m & Hm & _)]|intros [?|(m & [Hm|Hm] & H)]]);
      try (injection Hm as <-); try (by destruct (Hfresh m eq_refl Hm)); auto; right; exists n; by split; [left|].
  - assert (map_has (JStr id) (settle_entry applied acc (JStr s, n)).2 = false <-> map_has (JStr id) acc.2 = false) as H5
      by (rewrite <- !not_true_iff_false, H4; tauto).
    setoid_rewrite H5. split; (split; [intros [[?|(? & _)]|(m & Hm & H)]|intros [?|(m & [Hm|Hm] & H)]]);
      try (injection Hm as ? <-); try done; auto; try (by exfalso; apply Hne); right; exists m; auto.
Qed.
End Settle.

Lemma settle_filed applied l : forall acc, filed acc.2 -> filed (foldl (settle_entry applied) acc l).2.
Proof.
  induction l as [|e l IH]; intros acc Ha; cbn [foldl]; [done|]. apply IH. unfold settle_entry.
  destruct (map_has _ _); [done|]. destruct (_ && _); [done|by apply filed_set].
Qed.

(** The expected counts, one per entry. *)
Lemma expected_list entries : Forall batch_entry entries -> NoDup (ids_of entries) ->
  expected_ops entries = (fun e => (e.["id"], Z.of_nat (length (ops_of e)))) <$> entries.
Proof.
  intros He Hd. unfold expected_ops.
  assert (forall (m : jmap Z) k v, (exists s, k = JStr s) -> k ∉ m.*1 -> map_set k v m = m ++ [(k, v)]) as Hset.
  { intros m k v [s ->]. induction m as [|[k' w] m IH]; cbn [map_set fmap list_fmap fst]; [done|]. intros Hn.
    destruct (same_value_zero k' (JStr s)) eqn:E; [apply same_value_zero_str in E as ->; exfalso; apply Hn; by left|].
    rewrite IH; [done|]. intros Hin. apply Hn. by right. }
  assert (forall l m, Forall batch_entry l -> NoDup (m.*1 ++ ids_of l) ->
    foldl (fun m e => map_set e.["id"] (match e.["ops"] with JArr l => Z.of_nat (length l) | _ => 0 end) m) m l =
    m ++ ((fun e => (e.["id"], Z.of_nat (length (ops_of e)))) <$> l)) as H; [|by apply (H entries [])].
  clear He Hd. induction l as [|e l IH]; intros m Hl Hn; cbn [foldl fmap list_fmap]; [by rewrite app_nil_r|].
  apply Forall_cons in Hl as [He Hl]. destruct (be_ops e He) as [ops Hops]. destruct (be_id e He) as (i & Hi & _).
  unfold ids_of in Hn. rewrite fmap_cons in Hn.
  rewrite Hset; [|by exists i|].
  - rewrite IH; [|done|rewrite fmap_app, <- app_assoc; exact Hn]. rewrite <- app_assoc. unfold ops_of. by rewrite Hops.
  - intros Hin. apply NoDup_app in Hn as (_ & Hn & _). apply (Hn _ Hin). by left.
Qed.

Lemma describes_ok id g k : describes g k -> Forall good_pair g ->
  chunk_ok id k /\ (in_chunk id k <-> exists p, p ∈ g /\ has_id id p = true) /\
  count_in id k = Z.of_nat (length (bfilter (has_id id) g)).
Proof.
  intros [_ _ _ Hids Hcounts] Hg.
  assert (in_chunk id k <-> exists p, p ∈ g /\ has_id id p = true) as Hin.
  { unfold in_chunk. rewrite Hids, list_elem_of_fmap. unfold has_id. setoid_rewrite strict_eq_str. naive_solver. }
  split; [|split; [done|apply Hcounts]]. constructor.
  - intros i. rewrite Hids. intros (p & -> & Hp)%list_elem_of_fmap. rewrite Forall_forall in Hg.
    destruct (Hg p Hp) as (_ & _ & s & ? & _). eauto.
  - intros Hno. unfold count_in. rewrite Hcounts. destruct (bfilter (has_id id) g) as [|p l] eqn:E; [done|]. exfalso. apply Hno, Hin.
    exists p. apply bfilter_elem_of. rewrite E. by left.
Qed.

Lemma total_groups id gs ks : Forall2 describes gs ks -> Forall (Forall good_pair) gs ->
  total_in id ks = Z.of_nat (length (bfilter (has_id id) (concat gs))).
Proof.
  induction 1 as [|g k gs ks Hd _ IH]; cbn [total_in foldr concat]; [done|]. intros [Hg Hgs]%Forall_cons.
  destruct (describes_ok id g k Hd Hg) as (_ & _ & Hc). unfold total_in in IH. rewrite IH, Hc, bfilter_app, length_app by done. lia.
Qed.

(** The operations of the batch that belong to one of its entries. *)
Lemma pairs_of_entry entries e id : NoDup (ids_of entries) -> e ∈ entries -> e.["id"] = JStr id ->
  bfilter (has_id id) (all_pairs entries) = pairs e.
Proof.
  unfold all_pairs. intros Hn He Hid.
  assert (forall x, x.["id"] = JStr id -> bfilter (has_id id) (pairs x) = pairs x) as Hsame.
  { intros x Hx. apply bfilter_all. intros p (op & -> & _)%list_elem_of_fmap. apply strict_eq_str. exact Hx. }
  assert (forall x, x.["id"] <> JStr id -> bfilter (has_id id) (pairs x) = []) as Hother.
  { intros x Hx. apply bfilter_none. intros p (op & -> & _)%list_elem_of_fmap. by apply has_id_other. }
  assert (forall l, JStr id ∉ ids_of l -> bfilter (has_id id) (concat (pairs <$> l)) = []) as Hnone.
  { induction l as [|x l IH]; [done|]. unfold ids_of. rewrite !fmap_cons. cbn [concat]. intros Hx. rewrite bfilter_app, Hother, IH; [done|set_solver..]. }
  induction entries as [|x entries IH]; [by apply elem_of_nil in He|].
  unfold ids_of in Hn. rewrite fmap_cons in *. apply NoDup_cons in Hn as [Hx Hn]. cbn [concat]. rewrite bfilter_app.
  apply elem_of_cons in He as [->|He].
  - rewrite Hsame, Hnone, app_nil_r; [done|by rewrite <- Hid|done].
  - rewrite Hother, IH; [done..|]. intros Heq. apply Hx. rewrite Heq, <- Hid. apply list_elem_of_fmap. by exists e.
Qed.

Lemma conv_map_inv {A B} (f : A -> B) c : forall answers r, converse answers (conv_map f c) = Some r ->
  exists r', converse answers c = Some r' /\ r = f <$> r'.
Proof.
  induction c as [r'|b k rep resume IH]; intros answers r; cbn [conv_map converse].
  - destruct answers; [|done]. intros [= <-]. eauto.
  - destruct answers as [|a answers]; [done|]. apply IH.
Qed.

Lemma push_chunks_total ks : forall p answers r, converse answers (push_chunks ks p) = Some r -> exists p', r = Ok p'.
Proof.
  induction ks as [|k ks IH]; intros p answers r; cbn [push_chunks].
  - cbn [converse]. destruct answers; [|done]. intros [= <-]. eauto.
  - destruct (pr_aborted p); [apply IH|]. cbn [converse]. destruct answers; [done|apply IH].
Qed.

(** The chunk loop, unfolded. *)
Lemma chunked_push size batch entries context chunks answers r :
  batch_ok batch entries -> truthy (opt_get context "repair") = false -> truthy batch.["repair"] = false ->
  splitManualApplyBatch batch (Z.to_nat (manualEditApplyChunkSize size)) = Ok chunks -> (1 < length chunks)%nat ->
  converse answers (pushBatchInChunksAndWait size batch context) = Some r ->
  exists p, converse answers (push_chunks chunks (Progress [] [] [] [] false)) = Some (Ok p) /\
    r = Ok (chunked_result (expected_ops entries) p).
Proof.
  intros Hb Hr1 Hr2 Hs Hl. unfold pushBatchInChunksAndWait.
  assert (truthy (opt_get context "repair" ||? opt_get batch "repair" ||? JNull) = false) as ->.
  { rewrite (opt_get_obj batch "repair" (ba_obj _ _ Hb)). unfold or_else. by rewrite Hr1, Hr2. }
  rewrite Hs. assert ((length chunks <=? 1)%nat = false) as -> by (apply Nat.leb_gt; lia).
  rewrite (opt_get_obj batch "entries" (ba_obj _ _ Hb)), (ba_entries _ _ Hb). cbn [or_else truthy iterate mbind result_bind].
  rewrite mapM_read_ok; [|intros c Hc; pose proof (ba_entry _ _ Hb) as He; rewrite Forall_forall in He; pose proof (be_obj _ (He c Hc)); by destruct c].
  cbn [mbind result_bind]. intros (r' & Hc & ->)%conv_map_inv. destruct (push_chunks_total _ _ _ _ Hc) as [p ->]. eauto.
Qed.


(** A split into several chunks is the reference split. *)
Lemma several_chunks size batch entries chunks : batch_ok batch entries ->
  splitManualApplyBatch batch (Z.to_nat (manualEditApplyChunkSize size)) = Ok chunks -> (1 < length chunks)%nat ->
  exists gs, Forall2 describes gs chunks /\ Forall (Forall good_pair) gs /\ concat gs = all_pairs entries.
Proof.
  intros Hb Hs Hl. set (n := Z.to_nat (manualEditApplyChunkSize size)) in *.
  assert (1 <= n)%nat as Hn.
  { unfold n, manualEditApplyChunkSize, MIN_MANUAL_EDIT_APPLY_CHUNK_SIZE, DEFAULT_MANUAL_EDIT_APPLY_CHUNK_SIZE.
    destruct (to_num size); lia. }
  assert (n < length (all_pairs entries))%nat as Hlarge.
  { unfold splitManualApplyBatch in Hs. rewrite (count_all batch entries Hb) in Hs. cbn [mbind result_bind] in Hs.
    destruct (Z.leb_spec (Z.of_nat (length (all_pairs entries))) (Z.of_nat n)); [|lia].
    apply bind_ok in Hs as (? & _ & Hs). apply bind_ok in Hs as (? & _ & Hs). injection Hs as <-. simpl in Hl. lia. }
  destruct (split_chunks batch entries n Hb Hlarge) as (chunks' & Hs' & Hd). rewrite Hs in Hs'. injection Hs' as <-.
  exists (split_pairs n entries). split_and!; [done| |by apply split_pairs_ok].
  by apply (raw_chunks_split n entries (ba_entry _ _ Hb)).
Qed.

Lemma ids_inj l x y : NoDup (ids_of l) -> x ∈ l -> y ∈ l -> x.["id"] = y.["id"] -> x = y.
Proof.
  induction l as [|z l IH]; [by intros _ ?%elem_of_nil|]. unfold ids_of. rewrite fmap_cons. intros [Hz Hl]%NoDup_cons.
  intros [->|Hx]%elem_of_cons [->|Hy]%elem_of_cons Heq; [done| | |by apply IH]; exfalso; apply Hz;
    [rewrite Heq|rewrite <- Heq]; apply list_elem_of_fmap; eauto.
Qed.

Definition counts (entries : list js) : jmap Z := (fun e => (e.["id"], Z.of_nat (length (ops_of e)))) <$> entries.

Lemma counts_keys entries : Forall batch_entry entries -> NoDup (ids_of entries) ->
  NoDup (counts entries).*1 /\ forall x, x ∈ counts entries -> exists s, x.1 = JStr s.
Proof.
  unfold counts. intros He Hn. split; [rewrite <- list_fmap_compose; exact Hn|].
  intros x (y & -> & Hy)%list_elem_of_fmap. rewrite Forall_forall in He. destruct (be_id y (He y Hy)) as (s & Hys & _). by exists s.
Qed.

Lemma counts_entry entries e id n : NoDup (ids_of entries) -> e ∈ entries -> e.["id"] = JStr id ->
  (JStr id, n) ∈ counts entries <-> n = Z.of_nat (length (ops_of e)).
Proof.
  intros Hd He Hid. unfold counts. rewrite list_elem_of_fmap. split; [|intros ->; exists e; by rewrite Hid].
  intros (y & [= Hy ->] & Hin). by rewrite (ids_inj entries y e) by (done || congruence).
Qed.

(** Looking for a failure by its entry id. *)
Lemma filed_report m id : filed m -> (exists v, v ∈ m.*2 /\ v.["entryId"] = JStr id) <-> map_has (JStr id) m = true.
Proof.
  intros Hfiled. rewrite map_has_In. split.
  - intros (v & ([k w] & -> & Hin)%list_elem_of_fmap & Hv). cbn [snd] in Hv. exists w. destruct (Hfiled k w Hin) as [Hk|Hk].
    + rewrite <- Hk, Hv in Hin. done.
    + rewrite Hv in Hk. apply same_value_zero_str in Hk as ->. done.
  - intros [v Hv]. exists v. split; [apply list_elem_of_fmap; by exists (JStr id, v)|].
    destruct (Hfiled _ _ Hv) as [|Hk]; [done|]. destruct v.["entryId"]; simpl in Hk; try done. apply String.eqb_eq in Hk. by subst.
Qed.

(** What the loop knows of an entry at its end. *)
Lemma progress_of_entry entries gs chunks answers p e id :
  Forall2 describes gs chunks -> Forall (Forall good_pair) gs -> concat gs = all_pairs entries ->
  NoDup (ids_of entries) -> e ∈ entries -> e.["id"] = JStr id ->
  converse answers (push_chunks chunks (Progress [] [] [] [] false)) = Some (Ok p) ->
  (map_has (JStr id) (pr_failed p) = true <-> (exists a, a ∈ answers /\ reports_failed id a = true) \/ unconfirmed id chunks answers) /\
  (map_has (JStr id) (pr_failed p) = false -> default 0 (map_get (JStr id) (pr_applied p)) = Z.of_nat (length (ops_of e))).
Proof.
  intros Hd Hgood Hall Hn He Hid Hp.
  assert (Forall (chunk_ok id) chunks) as Hks.
  { clear -Hd Hgood. induction Hd as [|g k gs ks H _ IH]; [constructor|]. apply Forall_cons in Hgood as [Hg Hgs].
    constructor; [by apply (describes_ok id g k)|by apply IH]. }
  destruct (push_chunks_ok id chunks Hks _ _ _ Hp) as [Hf Ha]. unfold is_failed, applied_in in *. split.
  - rewrite Hf. cbn [pr_failed]. change (map_has (JStr id) ([] : jmap js)) with false. naive_solver.
  - intros H. rewrite Ha by done. cbn [pr_applied map_get from_option].
    rewrite (total_groups id gs chunks Hd Hgood), Hall, (pairs_of_entry entries e id) by done. unfold pairs. rewrite length_fmap. lia.
Qed.

(** C12: An edit counts as applied only when every part of it was: when a batch is applied in chunks,
    an entry is reported applied if and only if it has operations, every chunk that carries
    some of them was answered by a reply that is no error and reports the entry applied, and no
    reply reports it failed. Every other entry is reported failed, none is reported both ways,
    and the status is "done" exactly when nothing failed. *)
Theorem chunked_apply_exact size batch entries context chunks answers r :
  batch_ok batch entries -> NoDup (ids_of entries) ->
  truthy (opt_get context "repair") = false -> truthy batch.["repair"] = false ->
  splitManualApplyBatch batch (Z.to_nat (manualEditApplyChunkSize size)) = Ok chunks -> (1 < length chunks)%nat ->
  converse answers (pushBatchInChunksAndWait size batch context) = Some r ->
  exists out, r = Ok out /\
    (out.["status"] = JStr "done" <-> elems out "failed" = []) /\
    forall e id, e ∈ entries -> e.["id"] = JStr id ->
      let applied := JStr id ∈ elems out "appliedEntryIds" in
      let failed := exists v, v ∈ elems out "failed" /\ v.["entryId"] = JStr id in
      (applied <-> ops_of e <> [] /\ (forall a, a ∈ answers -> reports_failed id a = false) /\ ~ unconfirmed id chunks answers) /\
      (failed <-> ~ applied).
Proof.
  intros Hb Hn Hr1 Hr2 Hs Hl Hc.
  destruct (chunked_push size batch entries context chunks answers r Hb Hr1 Hr2 Hs Hl Hc) as (p & Hp & ->).
  destruct (several_chunks size batch entries chunks Hb Hs Hl) as (gs & Hd & Hgood & Hall).
  rewrite expected_list by (done || apply Hb). fold (counts entries). unfold chunked_result.
  destruct (foldl (settle_entry (pr_applied p)) ([], pr_failed p) (counts entries)) as [applied failed] eqn:Ef.
  set (out := JObj _). exists out. split; [done|].
  change (elems out "failed") with (failed.*2). change (elems out "appliedEntryIds") with applied. split.
  { change (out.["status"]) with (JStr (if (length failed =? 0)%nat then "done" else if (0 <? length applied)%nat then "partial" else "error")).
    destruct failed as [|f failed]; [by split|]. split; [|done]. cbn [length Nat.eqb]. by destruct (0 <? length applied)%nat. }
  intros e id He Hid. cbv zeta.
  destruct (progress_of_entry entries gs chunks answers p e id Hd Hgood Hall Hn He Hid Hp) as [Hf Ha].
  destruct (counts_keys entries (ba_entry _ _ Hb) Hn) as [Hkeys Hstr].
  destruct (settle_all (pr_applied p) id _ Hkeys Hstr ([], pr_failed p)) as [H1 H2]. rewrite Ef in H1, H2. cbn [fst snd] in H1, H2.
  setoid_rewrite (counts_entry entries e id _ Hn He Hid) in H1. setoid_rewrite (counts_entry entries e id _ Hn He Hid) in H2.
  rewrite filed_report.
  2: { pose proof (settle_filed (pr_applied p) (counts entries) ([], pr_failed p)) as H. rewrite Ef in H. apply H. cbn [snd].
       eapply filed_push; [|exact Hp]. by intros k v ?%elem_of_nil. }
  assert (ops_of e <> [] <-> 0 < Z.of_nat (length (ops_of e))) as Hops by (destruct (ops_of e); simpl; naive_solver lia).
  rewrite H1, H2, Hops. unfold complete. destruct (map_has (JStr id) (pr_failed p)) eqn:EF.
  - assert (~ (JStr id ∈ [] \/ exists n, n = Z.of_nat (length (ops_of e)) /\ true = false /\
               default 0 (map_get (JStr id) (pr_applied p)) = n /\ 0 < n)) as Hno by (intros [?%elem_of_nil|(n & _ & [=] & _)]; done).
    split; [|tauto]. split; [tauto|]. intros (_ & Hrep & Hun). exfalso. destruct (proj1 Hf eq_refl) as [(a & Hin & Hr)|]; [|done].
    by rewrite Hrep in Hr.
  - assert ((forall a, a ∈ answers -> reports_failed id a = false) /\ ~ unconfirmed id chunks answers) as Hgood'.
    { split; [intros a Hin; apply not_true_iff_false; intros Hr|intros Hu];
        assert (false = true) as [=] by (apply Hf; eauto). }
    rewrite Ha by done. split; split.
    + intros [?%elem_of_nil|(n & -> & _ & _ & H)]; [done|tauto].
    + intros (H & _). right. by eexists.
    + intros [?|(n & -> & H)] [?%elem_of_nil|(m & -> & _ & _ & Hm)]; naive_solver.
    + intros H. right. eexists. split; [done|]. intros [_ Hpos]. apply H. right. by eexists.
Qed.

Definition reply_body (applied : list string) : result js :=
  Ok (JObj [("status", JStr "done"); ("appliedEntryIds", JArr (JStr <$> applied)); ("failed", JArr []); ("files", JArr []); ("notes", JArr [])]).
(** The second entry is cut in two: its second part is answered without naming it. *)
Definition demo_answers : list (result js) := [reply_body ["a"]; reply_body ["b"]; reply_body []; reply_body ["c"]].

Lemma chunked_apply_exact_witness : exists out,
  converse demo_answers (pushBatchInChunksAndWait JUndef demo_large_batch JUndef) = Some (Ok out) /\
  elems out "appliedEntryIds" = [JStr "a"; JStr "c"] /\
  exists v, v ∈ elems out "failed" /\ v.["entryId"] = JStr "b".
Proof.
  destruct (splitManualApplyBatch demo_large_batch (Z.to_nat (manualEditApplyChunkSize JUndef))) as [chunks|e] eqn:Es;
    [|vm_compute in Es; discriminate Es].
  destruct (converse demo_answers (pushBatchInChunksAndWait JUndef demo_large_batch JUndef)) as [r|] eqn:E;
    [|vm_compute in E; discriminate E].
  assert (1 < length chunks)%nat as Hl by (vm_compute in Es; injection Es as <-; vm_compute; lia).
  assert (NoDup (ids_of demo_entries)) as Hn by (apply (bool_decide_unpack _); vm_compute; exact I).
  destruct (chunked_apply_exact JUndef demo_large_batch demo_entries JUndef chunks demo_answers r demo_batch_ok Hn eq_refl eq_refl Es Hl E)
    as (out & -> & _ & Hall).
  exists out. split; [reflexivity|].
  assert (elems out "appliedEntryIds" = [JStr "a"; JStr "c"]) as Hx by (vm_compute in E; injection E as <-; reflexivity).
  split; [exact Hx|].
  destruct (Hall (demo_entry "b" ["2"; "3"; "4"; "5"; "6"]) "b") as [_ [_ H]]; [by right; left|reflexivity|].
  apply H. rewrite Hx. intros Hin. repeat (apply elem_of_cons in Hin as [Hin|Hin]; [discriminate Hin|]). by apply elem_of_nil in Hin.
Defined.
