(* ===== verification/ApplyPromises.v ===== *)
(** * Promises of the Apply controller ([live/manual-apply.mjs], [createManualApplyController])

    Every event pushed to the agent has a promise, a timer and a snapshot of the files it may
    touch. A reply resolves the promise; the timer or a cancellation rejects it and
    leaves a tombstone, so that a reply that comes late is undone instead of believed.
    The queue and its polls belong to the server: the controller only uses what [ApplyQueue]
    lists. *)
From S2P Require Import Prelude JsString JsValue Json NodePath Vocabulary EventValidation PollLanes Files ManualEditsBuffer ApplyFiles ApplyBatch ApplyController.
Local Open Scope Z_scope.

(** What the controller is given of the server's queue. [remove_events] is the loop of splices. *)
Class ApplyQueue (Q : Type) := {
  pendingEvents : Q -> list js;
  enqueueEvent : js -> Q -> Q;
  acknowledgePendingEvent : js -> Q -> Q;
  remove_events : (js -> bool) -> Q -> Q;
  flushPendingPolls : Q -> Q;
  pending_removed : forall f q, pendingEvents (remove_events f q) = bfilter (fun e => negb (f e)) (pendingEvents q);
  pending_flushed : forall q, pendingEvents (flushPendingPolls q) = pendingEvents q }.

Record deferred := Deferred { d_event : js; d_batch : js; d_pageUrl : js; d_chunk : js; d_snapshot : gmap string before }.
Record tombstone := Tombstone { t_batch : js; t_snapshot : gmap string before; t_reason : js }.

Section Controller.
Context {Q : Type} `{ApplyQueue Q}.

(** [c_settled]: the promises that settled, in order, by event id. *)
Record ctl := Ctl {
  c_fs : fsys; c_queue : Q;
  c_deferreds : list (string * deferred);
  c_timedOut : list (string * tombstone);
  c_settled : list (string * result js);
  c_activity : list (string * js) }.

Definition set_fs (f : fsys) (s : ctl) : ctl := Ctl f (c_queue s) (c_deferreds s) (c_timedOut s) (c_settled s) (c_activity s).
Definition set_queue (q : Q) (s : ctl) : ctl := Ctl (c_fs s) q (c_deferreds s) (c_timedOut s) (c_settled s) (c_activity s).
Definition set_deferreds m (s : ctl) : ctl := Ctl (c_fs s) (c_queue s) m (c_timedOut s) (c_settled s) (c_activity s).
Definition set_timedOut m (s : ctl) : ctl := Ctl (c_fs s) (c_queue s) (c_deferreds s) m (c_settled s) (c_activity s).
Definition settle (id : string) (r : result js) (s : ctl) : ctl :=
  Ctl (c_fs s) (c_queue s) (c_deferreds s) (c_timedOut s) (c_settled s ++ [(id, r)]) (c_activity s).
Definition log (type : string) (details : js) (s : ctl) : ctl :=
  Ctl (c_fs s) (c_queue s) (c_deferreds s) (c_timedOut s) (c_settled s) (c_activity s ++ [(type, details)]).

(** A file-system operation of the controller. *)
Definition on_fs {A} (m : eff fsys A) : eff ctl A := fun s => let (r, f) := m (c_fs s) in (r, set_fs f s).

Context (cwd liveDir : string) (softDeadline : num).

(** [Map.get(id)]: only a string can be a key. *)
Definition by_id {A} (id : js) (m : list (string * A)) : option A :=
  match id with JStr s => assoc_get s m | _ => None end.

Definition TOMBSTONES : nat := 200.

Definition tombstoneTimedOutApplyId (eventId : string) (t : tombstone) : eff ctl unit :=
  if String.eqb eventId "" then mret tt else
  upd (fun s => let m := assoc_set eventId t (c_timedOut s) in
                set_timedOut (if (length m <=? TOMBSTONES)%nat then m else tail m) s).

Definition entry_count (batch : js) : js := int (match opt_get batch "entries" with JArr l => Z.of_nat (length l) | _ => 0 end).

(** [eventId] is the random id. *)
Definition pushApplyEventAndWait (eventId : string) (batch pageUrl chunk repair : js) : eff ctl unit :=
  evidencePath ← on_fs (writeManualApplyEvidence liveDir eventId batch);
  compacted ← lift (compactManualApplyBatch cwd batch);
  let event := JObj ([("type", JStr "manual_edit_apply"); ("id", JStr eventId); ("pageUrl", pageUrl); ("batch", compacted);
                      ("evidencePath", JStr evidencePath); ("agentAction", buildManualApplyAgentAction (JStr eventId));
                      ("schemaVersion", int 1); ("deadlineMs", JNum softDeadline)]
                     ++ (if truthy chunk then [("chunk", chunk)] else []) ++ (if truthy repair then [("repair", repair)] else [])) in
  rollbackSnapshot ← on_fs (snapshotApplyEventFiles cwd batch);
  opCount ← lift (countManualApplyOps batch);
  files ← lift (collectManualApplyFiles cwd batch (JArr []));
  _ ← upd (log "manual_edit_apply_dispatched" (JObj [("id", JStr eventId); ("pageUrl", pageUrl); ("chunk", chunk); ("repair", repair);
        ("entryCount", entry_count batch); ("opCount", int opCount); ("fileCount", int (Z.of_nat (length files)))]));
  _ ← upd (fun s => set_deferreds (assoc_set eventId (Deferred event batch pageUrl chunk rollbackSnapshot) (c_deferreds s)) s);
  upd (fun s => set_queue (enqueueEvent event (c_queue s)) s).

Definition forget (eventId : string) : eff ctl unit := upd (fun s => set_deferreds (assoc_del eventId (c_deferreds s)) s).
Definition remove_evidence (event : js) : eff ctl bool := on_fs (removeManualApplyEvidence cwd liveDir (opt_get event "evidencePath")).

(** The timer of a promise, cleared when the promise leaves [pendingApplyDeferreds]. *)
Definition timeoutFires (eventId : string) : eff ctl unit :=
  d ← get (fun s => assoc_get eventId (c_deferreds s));
  match d with
  | None => mret tt
  | Some d =>
    _ ← forget eventId;
    _ ← tombstoneTimedOutApplyId eventId (Tombstone (d_batch d) (d_snapshot d) JUndef);
    _ ← upd (fun s => set_queue (acknowledgePendingEvent (JStr eventId) (c_queue s)) s);
    _ ← remove_evidence (d_event d);
    opCount ← lift (countManualApplyOps (d_batch d));
    _ ← upd (log "manual_edit_apply_timeout" (JObj [("id", JStr eventId); ("pageUrl", d_pageUrl d); ("chunk", d_chunk d);
          ("entryCount", entry_count (d_batch d)); ("opCount", int opCount)]));
    upd (settle eventId (Throw (error "chat_agent_timeout")))
  end.

Definition getDeferred (eventId : js) (s : ctl) : option deferred := by_id eventId (c_deferreds s).
Definition hasTimedOutId (eventId : js) (s : ctl) : bool := bool_decide (is_Some (by_id eventId (c_timedOut s))).

(** [resolveDeferred] and [rejectDeferred]. *)
Definition finish_deferred (eventId : js) (outcome : result js) : eff ctl bool :=
  d ← get (getDeferred eventId);
  match d, eventId with
  | Some d, JStr id =>
    _ ← forget id;
    _ ← remove_evidence (d_event d);
    _ ← upd (settle id outcome);
    mret true
  | _, _ => mret false
  end.
Definition resolveDeferred (eventId body : js) : eff ctl bool := finish_deferred eventId (Ok body).
Definition rejectDeferred (eventId reason : js) : eff ctl bool :=
  finish_deferred eventId (Throw (error (to_str (reason ||? JStr "chat_agent_error")))).

Definition rollbackTimedOutReply (msg : js) : eff ctl rollback :=
  details ← get (fun s => by_id msg.["id"] (c_timedOut s));
  match details, msg.["id"] with
  | Some t, JStr id =>
    _ ← upd (fun s => set_timedOut (assoc_del id (c_timedOut s)) s);
    on_fs (rollbackApplySnapshot cwd (t_batch t) (t_snapshot t) (opt_get msg.["data"] "files" ||? JArr []))
  | _, _ => mret (Rollback [] [])
  end.

(** ** Cancelling *)

Definition shouldCancel (pageUrl event : js) : bool :=
  (opt_get event "type" === JStr "manual_edit_apply") && (negb (truthy pageUrl) || (event.["pageUrl"] === pageUrl)).

Definition entries_length (batch : js) : js := opt_get (opt_get batch "entries") "length" ||? int 0.

(** From the end of the queue to its start. *)
Fixpoint cancel_queued (events : list js) (canceledById : jmap js) : eff ctl (jmap js) :=
  match events with
  | [] => mret canceledById
  | event :: events =>
    _ ← remove_evidence event;
    cancel_queued events (map_set event.["id"]
      (JObj [("id", event.["id"]); ("pageUrl", event.["pageUrl"]); ("entryCount", entries_length event.["batch"])]) canceledById)
  end.

Definition cancel_one (reason : string) (eventId : string) (d : deferred) (canceledById : jmap js) : eff ctl (jmap js) :=
  _ ← forget eventId;
  r ← on_fs (rollbackApplySnapshot cwd (d_batch d) (d_snapshot d) (JArr []));
  _ ← tombstoneTimedOutApplyId eventId (Tombstone (d_batch d) (d_snapshot d) (JStr reason));
  _ ← remove_evidence (d_event d);
  _ ← upd (settle eventId (Throw (error reason)));
  mret (map_set (JStr eventId)
    (JObj [("id", JStr eventId); ("pageUrl", d_pageUrl d); ("entryCount", entries_length (d_batch d));
           ("rolledBackFiles", JArr (JStr <$> rolledBackFiles r)); ("rollbackFailures", JArr (rollbackFailures r))]) canceledById).

Fixpoint cancel_deferreds (pageUrl : js) (reason : string) (l : list (string * deferred)) (canceledById : jmap js) : eff ctl (jmap js) :=
  match l with
  | [] => mret canceledById
  | (eventId, d) :: l =>
    canceledById ← (if shouldCancel pageUrl (d_event d) then cancel_one reason eventId d canceledById else mret canceledById);
    cancel_deferreds pageUrl reason l canceledById
  end.

Definition cancelPendingEvents (pageUrl : js) (reason : string) : eff ctl (list js) :=
  events ← get (fun s => bfilter (shouldCancel pageUrl) (pendingEvents (c_queue s)));
  _ ← upd (fun s => set_queue (remove_events (shouldCancel pageUrl) (c_queue s)) s);
  canceledById ← cancel_queued (rev events) [];
  deferreds ← get c_deferreds;
  canceledById ← cancel_deferreds pageUrl reason deferreds canceledById;
  _ ← run_if (0 <? length canceledById)%nat (upd (fun s => set_queue (flushPendingPolls (c_queue s)) s));
  mret canceledById.*2.

(** ** Evidence of events that are gone *)

Definition referencedManualApplyEvidencePaths (s : ctl) : list string :=
  omap (fun event => normalizeManualApplyEvidencePath cwd liveDir (opt_get event "evidencePath"))
       (pendingEvents (c_queue s) ++ (d_event <$> (c_deferreds s).*2)).

Fixpoint prune_names (referenced names removed : list string) : eff ctl (list string) :=
  match names with
  | [] => mret removed
  | name :: names =>
    let fullPath := path_join [manualApplyEvidenceDir liveDir; name] in
    if negb (ends_with ".json" name) || bool_decide (fullPath ∈ referenced) then prune_names referenced names removed else
    gone ← attempt (_ ← on_fs (unlinkSync fullPath); mret true) (fun _ => mret false);
    prune_names referenced names (if gone : bool then removed ++ [fullPath] else removed)
  end.

Definition pruneStaleEvidence : eff ctl (list string) :=
  there ← get (fun s => existsSync (manualApplyEvidenceDir liveDir) (c_fs s));
  if negb there then mret [] else
  referenced ← get referencedManualApplyEvidencePaths;
  names ← on_fs (readdirSync (manualApplyEvidenceDir liveDir));
  prune_names referenced names [].

(** ** Turns *)

(** The id of a new event is new: it is random. *)
Definition fresh (eventId : string) (s : ctl) : Prop :=
  eventId <> "" /\ eventId ∉ keys (c_deferreds s) /\ eventId ∉ keys (c_timedOut s) /\ eventId ∉ (c_settled s).*1.

Inductive turn : ctl -> ctl -> Prop :=
| turn_push s eventId batch pageUrl chunk repair : fresh eventId s ->
    turn s (pushApplyEventAndWait eventId batch pageUrl chunk repair s).2
| turn_timeout s eventId : turn s (timeoutFires eventId s).2
| turn_resolve s eventId body : turn s (resolveDeferred eventId body s).2
| turn_reject s eventId reason : turn s (rejectDeferred eventId reason s).2
| turn_late s msg : turn s (rollbackTimedOutReply msg s).2
| turn_cancel s pageUrl reason : turn s (cancelPendingEvents pageUrl reason s).2
| turn_prune s : turn s (pruneStaleEvidence s).2
(** The agent edits files; the server and its polls move the queue. *)
| turn_world s f q : turn s (set_queue q (set_fs f s)).
End Controller.
Arguments ctl : clear implicits.

(** * Theorems *)

Section AssocFacts.
Context {A : Type}.
Implicit Types (m : list (string * A)).

Lemma elem_assoc_set k v m e : e ∈ assoc_set k v m -> e = (k, v) \/ e ∈ m.
Proof.
  induction m as [|[k' v'] m IH]; cbn [assoc_set]; [intros ->%list_elem_of_singleton; by left|].
  destruct (String.eqb_spec k k') as [->|]; intros [->|He]%elem_of_cons; [by left|right; by right|right; by left|].
  destruct (IH He); [by left|right; by right].
Qed.
Lemma elem_assoc_del k m e : e ∈ assoc_del k m -> e ∈ m.
Proof.
  induction m as [|[k' v'] m IH]; cbn [assoc_del]; [done|]. destruct (String.eqb k k'); [intros; right; by apply IH|].
  intros [->|He]%elem_of_cons; [by left|right; by apply IH].
Qed.
Lemma keys_del_NoDup k m : NoDup (keys m) -> NoDup (keys (assoc_del k m)).
Proof.
  induction m as [|[k' v'] m IH]; cbn [assoc_del keys fmap list_fmap fst]; [done|]. intros [Hk Hn]%NoDup_cons.
  destruct (String.eqb k k'); [by apply IH|]. change (NoDup (k' :: keys (assoc_del k m))). apply NoDup_cons. split; [|by apply IH].
  intros (e & He0 & He%elem_assoc_del)%list_elem_of_fmap. apply Hk, list_elem_of_fmap. by exists e.
Qed.
Lemma elem_get k v m : NoDup (keys m) -> (k, v) ∈ m -> assoc_get k m = Some v.
Proof.
  induction m as [|[k' v'] m IH]; [by intros _ ?%elem_of_nil|]. cbn [keys fmap list_fmap fst assoc_get]. intros [Hk Hn]%NoDup_cons.
  intros [Heq|He]%elem_of_cons; [injection Heq as <- <-; by rewrite String.eqb_refl|].
  destruct (String.eqb_spec k k') as [->|]; [|by apply IH]. exfalso. apply Hk, list_elem_of_fmap. by exists (k', v).
Qed.
Lemma length_assoc_del k m : (length (assoc_del k m) <= length m)%nat.
Proof. induction m as [|[k' v'] m IH]; cbn [assoc_del]; [done|]. destruct (String.eqb k k'); cbn [length]; lia. Qed.
Lemma length_assoc_set k v m : (length (assoc_set k v m) <= S (length m))%nat.
Proof. induction m as [|[k' v'] m IH]; cbn [assoc_set]; [done|]. destruct (String.eqb k k'); cbn [length]; lia. Qed.
End AssocFacts.

Section Facts.
Context {Q : Type} `{ApplyQueue Q} (cwd liveDir : string) (softDeadline : num).
Implicit Types (s : ctl Q).

(** The batch of a pushed event can be read. *)
Definition readable (batch : js) : Prop :=
  (exists files, collectManualApplyFiles cwd batch (JArr []) = Ok files) /\ (exists n, countManualApplyOps batch = Ok n).

(** An event of the past: its batch and the snapshot taken for it. *)
Notation origin := (string * js * gmap string before)%type.

(** The state of the promises. [limbo]: the id that has just left [c_deferreds] and is about to settle. *)
Record promises_ok (o : option origin) (limbo : option string) s : Prop := {
  po_keys : NoDup (keys (c_deferreds s));
  po_bound : (length (c_timedOut s) <= TOMBSTONES)%nat;
  po_settled : NoDup (c_settled s).*1;
  po_apart : forall id d, assoc_get id (c_deferreds s) = Some d -> id ∉ (c_settled s).*1;
  po_limbo : forall id, limbo = Some id -> assoc_get id (c_deferreds s) = None /\ id ∉ (c_settled s).*1;
  po_readable : forall id d, assoc_get id (c_deferreds s) = Some d -> readable (d_batch d);
  po_origin : forall id batch snapshot, o = Some (id, batch, snapshot) ->
    (is_Some (assoc_get id (c_deferreds s)) \/ id ∈ (c_settled s).*1 \/ limbo = Some id) /\
    (forall d, assoc_get id (c_deferreds s) = Some d -> d_batch d = batch /\ d_snapshot d = snapshot) /\
    (forall t, (id, t) ∈ c_timedOut s -> t_batch t = batch /\ t_snapshot t = snapshot) }.

(** Only these three fields matter. *)
Lemma same_book o l s s' : c_deferreds s' = c_deferreds s -> c_timedOut s' = c_timedOut s -> c_settled s' = c_settled s ->
  promises_ok o l s -> promises_ok o l s'.
Proof. intros E1 E2 E3 []. constructor; rewrite ?E1, ?E2, ?E3; done. Qed.

Lemma ok_forget o s id d : promises_ok o None s -> assoc_get id (c_deferreds s) = Some d ->
  promises_ok o (Some id) (set_deferreds (assoc_del id (c_deferreds s)) s).
Proof.
  intros [Hk Hb Hs Ha _ Hr Ho] Hd. constructor; cbn [c_deferreds c_timedOut c_settled set_deferreds]; try done.
  - by apply keys_del_NoDup.
  - intros i d'. rewrite assoc_get_del. destruct (String.eqb i id); [done|apply Ha].
  - intros i [= <-]. rewrite assoc_get_del, String.eqb_refl. split; [done|by eapply Ha].
  - intros i d'. rewrite assoc_get_del. destruct (String.eqb i id); [done|apply Hr].
  - intros i b sn Eo. destruct (Ho i b sn Eo) as (H1 & H2 & H3). split_and!; [| |done].
    + rewrite assoc_get_del. destruct (String.eqb_spec i id) as [->|]; [by right; right|].
      destruct H1 as [?|[?|?]]; [by left|right; by left|done].
    + intros d'. rewrite assoc_get_del. destruct (String.eqb i id); [done|apply H2].
Qed.

Lemma ok_settle o s id r : promises_ok o (Some id) s -> promises_ok o None (settle id r s).
Proof.
  intros [Hk Hb Hs Ha Hl Hr Ho]. destruct (Hl id eq_refl) as [Hl1 Hl2].
  constructor; cbn [c_deferreds c_timedOut c_settled settle]; try done.
  - rewrite fmap_app. apply NoDup_app. split_and!; [done| |by apply NoDup_singleton]. intros x Hx Hx2%list_elem_of_singleton. by subst x.
  - intros i d Hd. rewrite fmap_app, elem_of_app. intros [?|?%list_elem_of_singleton]; [by eapply Ha|]. cbn in *. congruence.
  - intros i b sn Eo. destruct (Ho i b sn Eo) as (H1 & H2 & H3). split_and!; [|done..]. rewrite fmap_app, elem_of_app.
    destruct H1 as [?|[?|[= <-]]]; [by left|right; left; by left|]. right. left. right. by apply list_elem_of_singleton.
Qed.

Lemma ok_tombstone o l s id t : promises_ok o l s ->
  (forall batch snapshot, o = Some (id, batch, snapshot) -> t_batch t = batch /\ t_snapshot t = snapshot) ->
  promises_ok o l (tombstoneTimedOutApplyId id t s).2.
Proof.
  intros [Hk Hb Hs Ha Hl Hr Ho] Ht. unfold tombstoneTimedOutApplyId. destruct (String.eqb id ""); [done|].
  unfold upd. cbn [snd]. cbv zeta. set (m := assoc_set id t (c_timedOut s)).
  assert (forall e, e ∈ (if (length m <=? TOMBSTONES)%nat then m else tail m) -> e = (id, t) \/ e ∈ c_timedOut s) as Hm.
  { intros e He. apply elem_assoc_set. change (e ∈ m). destruct (_ <=? _)%nat; [done|]. destruct m; [done|by right]. }
  constructor; cbn [c_deferreds c_timedOut c_settled set_timedOut]; try done.
  - pose proof (length_assoc_set id t (c_timedOut s)). fold m in H0. destruct (Nat.leb_spec (length m) TOMBSTONES); [done|].
    destruct m; cbn [length tail] in *; lia.
  - intros i b sn Eo. destruct (Ho i b sn Eo) as (H1 & H2 & H3). split_and!; [done..|].
    intros t' [[= -> ->]|Hin]%Hm; [by apply Ht|by apply H3].
Qed.

Lemma ok_untomb o l s id : promises_ok o l s -> promises_ok o l (set_timedOut (assoc_del id (c_timedOut s)) s).
Proof.
  intros [Hk Hb Hs Ha Hl Hr Ho]. constructor; cbn [c_deferreds c_timedOut c_settled set_timedOut]; try done.
  - pose proof (length_assoc_del id (c_timedOut s)). lia.
  - intros i b sn Eo. destruct (Ho i b sn Eo) as (H1 & H2 & H3). split_and!; [done..|]. intros t Ht%elem_assoc_del. by apply H3.
Qed.

Lemma ok_defer o s id d : promises_ok o None s -> assoc_get id (c_deferreds s) = None -> id ∉ (c_settled s).*1 ->
  readable (d_batch d) -> promises_ok o None (set_deferreds (assoc_set id d (c_deferreds s)) s).
Proof.
  intros [Hk Hb Hs Ha _ Hr Ho] Hd Hid Hread. constructor; cbn [c_deferreds c_timedOut c_settled set_deferreds]; try done.
  - by apply assoc_set_NoDup.
  - intros i d'. rewrite assoc_get_set. destruct (String.eqb_spec i id) as [->|]; [done|apply Ha].
  - intros i d'. rewrite assoc_get_set. destruct (String.eqb_spec i id) as [->|]; [by intros [= <-]|apply Hr].
  - intros i b sn Eo. destruct (Ho i b sn Eo) as (H1 & H2 & H3).
    assert (i <> id) as Hne by (intros ->; destruct H1 as [[x Hx]|[|[=]]]; [congruence|done]).
    rewrite assoc_get_set. apply String.eqb_neq in Hne as ->. done.
Qed.

(** ** The operations *)

Lemma on_fs_eq {A} (m : eff fsys A) s : on_fs m s = ((m (c_fs s)).1, set_fs (m (c_fs s)).2 s).
Proof. unfold on_fs. by destruct (m (c_fs s)). Qed.

Lemma remove_evidence_eq event s : exists b f, remove_evidence cwd liveDir event s = (Ok b, set_fs f s).
Proof.
  unfold remove_evidence. rewrite on_fs_eq. set (m := removeManualApplyEvidence _ _ _).
  assert (exists b, (m (c_fs s)).1 = Ok b) as [b ->]; [|by do 2 eexists].
  unfold m, removeManualApplyEvidence, attempt, mbind, eff_bind. destruct (normalizeManualApplyEvidencePath _ _ _); [|by eexists].
  destruct (unlinkSync _ _) as [[]]; by eexists.
Qed.

Lemma tombstone_eq id t s : exists m, tombstoneTimedOutApplyId id t s = (Ok tt, set_timedOut m s).
Proof. unfold tombstoneTimedOutApplyId. destruct (String.eqb id ""); [by exists (c_timedOut s); destruct s|by eexists]. Qed.

Lemma keeps_on_fs {A} o (m : eff fsys A) : keeps (promises_ok o None) (on_fs m).
Proof. intros s Hs. rewrite on_fs_eq. by apply (same_book o None s). Qed.
Lemma push_ok o eventId batch pageUrl chunk repair s : promises_ok o None s -> fresh eventId s ->
  promises_ok o None (pushApplyEventAndWait cwd liveDir softDeadline eventId batch pageUrl chunk repair s).2.
Proof.
  intros Hs (_ & Hf1 & _ & Hf3). unfold pushApplyEventAndWait, mbind, eff_bind, lift, upd. rewrite on_fs_eq.
  set (f1 := (_ (c_fs s)).2). assert (promises_ok o None (set_fs f1 s)) as H1 by by apply (same_book o None s).
  destruct (writeManualApplyEvidence _ _ _ _).1; [|done]. destruct (compactManualApplyBatch cwd batch); [|done].
  cbn zeta. rewrite on_fs_eq. set (f2 := (_ (c_fs (set_fs f1 s))).2).
  assert (promises_ok o None (set_fs f2 (set_fs f1 s))) as H2 by by apply (same_book o None s).
  destruct (snapshotApplyEventFiles _ _ _).1; [|done].
  destruct (countManualApplyOps batch) eqn:E1; [|done]. destruct (collectManualApplyFiles cwd batch (JArr [])) eqn:E2; [|done].
  cbn [snd]. eapply same_book; [..|apply (ok_defer o (set_fs f2 (set_fs f1 s)) eventId)];
    cycle 3; [done|by apply assoc_get_None|done| |reflexivity..]. split; by eexists.
Qed.

(** What [o] says of the promise that [id] names. *)
Lemma origin_of o id d s : promises_ok o None s -> assoc_get id (c_deferreds s) = Some d ->
  forall batch snapshot, o = Some (id, batch, snapshot) -> d_batch d = batch /\ d_snapshot d = snapshot.
Proof. intros [] Hd b sn Eo. by apply (po_origin0 id b sn Eo). Qed.

Lemma timeout_ok o eventId s : promises_ok o None s -> promises_ok o None (timeoutFires cwd liveDir eventId s).2.
Proof.
  intros Hs. unfold timeoutFires, forget, mbind, eff_bind, lift, upd, get.
  destruct (assoc_get eventId (c_deferreds s)) as [d|] eqn:Hd; [|done]. cbn beta iota.
  pose proof (ok_tombstone o _ _ eventId (Tombstone (d_batch d) (d_snapshot d) JUndef) (ok_forget o s eventId d Hs Hd)
    (origin_of o eventId d s Hs Hd)) as H1.
  destruct (tombstone_eq eventId (Tombstone (d_batch d) (d_snapshot d) JUndef) (set_deferreds (assoc_del eventId (c_deferreds s)) s)) as [m E].
  rewrite E in H1 |- *. cbn beta iota. destruct (remove_evidence_eq (d_event d)
    (set_queue (acknowledgePendingEvent (JStr eventId) (c_queue (set_timedOut m (set_deferreds (assoc_del eventId (c_deferreds s)) s))))
               (set_timedOut m (set_deferreds (assoc_del eventId (c_deferreds s)) s)))) as (b & f & ->). cbn beta iota.
  destruct (po_readable _ _ _ Hs _ _ Hd) as [_ [n ->]]. cbn [snd]. apply ok_settle. by eapply same_book; [..|exact H1].
Qed.

Lemma finish_ok o eventId outcome s : promises_ok o None s -> promises_ok o None (finish_deferred cwd liveDir eventId outcome s).2.
Proof.
  intros Hs. unfold finish_deferred, forget, mbind, eff_bind, upd, get, getDeferred, by_id.
  destruct eventId as [| | | |id| |]; try done. destruct (assoc_get id (c_deferreds s)) as [d|] eqn:Hd; [|done]. cbn beta iota.
  destruct (remove_evidence_eq (d_event d) (set_deferreds (assoc_del id (c_deferreds s)) s)) as (b & f & ->).
  apply ok_settle. eapply same_book; [..|by apply (ok_forget o s id d)]; done.
Qed.

Lemma late_ok o msg s : promises_ok o None s -> promises_ok o None (rollbackTimedOutReply cwd msg s).2.
Proof.
  intros Hs. unfold rollbackTimedOutReply, mbind, eff_bind, upd, get. destruct (by_id _ _); [|done].
  destruct msg.["id"]; try done. apply keeps_on_fs. by apply ok_untomb.
Qed.

(** Restoring does not throw: it reports what it could not write. *)
Lemma restore_snapshot_total snapshot scope : forall r f, exists r', (restore_snapshot cwd snapshot r scope f).1 = Ok r'.
Proof.
  induction scope as [|rel scope IH]; intros r f; cbn [restore_snapshot]; [by eexists|].
  destruct (snapshot !! rel) as [b|]; [|apply IH]. unfold mbind, eff_bind.
  assert (exists r' f', restore_one cwd r rel (b_exists b) (JStr (b_content b)) f = (Ok r', f')) as (r' & f' & ->); [|apply IH].
  unfold restore_one, attempt, mbind, eff_bind. destruct (restore_file _ _ _ f) as [[] f']; by do 2 eexists.
Qed.

Lemma cancel_one_ok o reason eventId d m s : promises_ok o None s -> assoc_get eventId (c_deferreds s) = Some d ->
  exists m' s', cancel_one cwd liveDir reason eventId d m s = (Ok m', s') /\ promises_ok o None s' /\
    c_deferreds s' = assoc_del eventId (c_deferreds s) /\ c_queue s' = c_queue s /\
    c_settled s' = c_settled s ++ [(eventId, Throw (error reason))].
Proof.
  intros Hs Hd. unfold cancel_one, forget, mbind, eff_bind, upd. cbn beta iota. rewrite on_fs_eq.
  assert (exists b, (rollbackApplySnapshot cwd (d_batch d) (d_snapshot d) (JArr []) (c_fs (set_deferreds (assoc_del eventId (c_deferreds s)) s))).1 = Ok b)
    as [b ->].
  { destruct (po_readable _ _ _ Hs _ _ Hd) as [[files Hf] _]. unfold rollbackApplySnapshot, lift, mbind, eff_bind. rewrite Hf.
    apply restore_snapshot_total. }
  cbn beta iota. set (f := (_ _).2).
  pose proof (ok_tombstone o _ _ eventId (Tombstone (d_batch d) (d_snapshot d) (JStr reason))
    (same_book o _ (set_deferreds (assoc_del eventId (c_deferreds s)) s) (set_fs f (set_deferreds (assoc_del eventId (c_deferreds s)) s)) eq_refl eq_refl eq_refl (ok_forget o s eventId d Hs Hd))
    (origin_of o eventId d s Hs Hd)) as H1.
  edestruct (tombstone_eq eventId) as [m' E]. rewrite E in H1 |- *. cbn beta iota.
  edestruct (remove_evidence_eq (d_event d)) as (b' & f' & ->). cbn beta iota. do 2 eexists. split; [reflexivity|].
  split; [|done]. apply ok_settle. by eapply same_book; [..|exact H1].
Qed.

(** The loop goes over the promises there were when it started. *)
Lemma cancel_deferreds_ok o pageUrl reason l : forall m s, promises_ok o None s -> NoDup (keys l) ->
  (forall id d, (id, d) ∈ l -> assoc_get id (c_deferreds s) = Some d) ->
  exists m' s', cancel_deferreds cwd liveDir pageUrl reason l m s = (Ok m', s') /\ promises_ok o None s' /\ c_queue s' = c_queue s /\
    (forall id, assoc_get id (c_deferreds s') =
       if existsb (fun e => String.eqb id e.1 && shouldCancel pageUrl (d_event e.2)) l then None else assoc_get id (c_deferreds s)) /\
    c_settled s' = c_settled s ++ ((fun e => (e.1, Throw (error reason))) <$> bfilter (fun e => shouldCancel pageUrl (d_event e.2)) l).
Proof.
  induction l as [|[id d] l IH]; intros m s Hs Hn Hl; cbn [cancel_deferreds].
  { do 2 eexists. split; [reflexivity|]. split_and!; [done..|]. cbn. by rewrite app_nil_r. }
  apply NoDup_cons in Hn as [Hk Hn]. unfold mbind at 1, eff_bind at 1. cbn [existsb bfilter filter List.filter fst snd].
  destruct (shouldCancel pageUrl (d_event d)) eqn:Esc.
  - destruct (cancel_one_ok o reason id d m s Hs) as (m1 & s1 & -> & H1 & E & Eq & Es); [apply Hl; set_solver|].
    destruct (IH m1 s1) as (m2 & s2 & H2 & Hok & Eq2 & Ed2 & Es2); [done..| |].
    { intros i d' Hin. rewrite E, assoc_get_del. destruct (String.eqb_spec i id) as [->|]; [|apply Hl; set_solver].
      exfalso. apply Hk, list_elem_of_fmap. by exists (id, d'). }
    exists m2, s2. split_and!; [done|done|by rewrite Eq2| |].
    + intros i. rewrite Ed2, E, assoc_get_del, andb_true_r. by destruct (String.eqb i id), (existsb _ l).
    + rewrite Es2, Es, <- app_assoc. done.
  - destruct (IH m s) as (m2 & s2 & H2 & Hok & Eq2 & Ed2 & Es2); [done..| |].
    { intros i d' Hin. apply Hl. set_solver. }
    exists m2, s2. split_and!; [done..| |done]. intros i. by rewrite Ed2, andb_false_r.
Qed.

Lemma cancel_queued_total events : forall m s, exists m' f, cancel_queued cwd liveDir events m s = (Ok m', set_fs f s).
Proof.
  induction events as [|e events IH]; intros m s; cbn [cancel_queued]; [exists m, (c_fs s); by destruct s|].
  unfold mbind, eff_bind. destruct (remove_evidence_eq e s) as (b & f & ->).
  set (m1 := map_set _ _ _). destruct (IH m1 (set_fs f s)) as (m' & f' & E). exists m', f'. exact E.
Qed.

(** What a cancellation does to the promises and to the queue. *)
Lemma cancel_effect o pageUrl reason s : promises_ok o None s ->
  exists l s', cancelPendingEvents cwd liveDir pageUrl reason s = (Ok l, s') /\ promises_ok o None s' /\
    pendingEvents (c_queue s') = bfilter (fun e => negb (shouldCancel pageUrl e)) (pendingEvents (c_queue s)) /\
    (forall id, assoc_get id (c_deferreds s') =
       if existsb (fun e => String.eqb id e.1 && shouldCancel pageUrl (d_event e.2)) (c_deferreds s) then None else assoc_get id (c_deferreds s)) /\
    c_settled s' = c_settled s ++ ((fun e => (e.1, Throw (error reason))) <$> bfilter (fun e => shouldCancel pageUrl (d_event e.2)) (c_deferreds s)).
Proof.
  intros Hs. unfold cancelPendingEvents, get, upd. unfold mbind at 1, eff_bind at 1. unfold mbind at 1, eff_bind at 1. cbn beta iota.
  unfold mbind at 1, eff_bind at 1. set (s1 := set_queue _ s). assert (promises_ok o None s1) as H1 by by apply (same_book o None s).
  destruct (cancel_queued_total (rev (bfilter (shouldCancel pageUrl) (pendingEvents (c_queue s)))) [] s1) as (m & f & ->).
  unfold mbind at 1, eff_bind at 1. cbn beta iota. unfold mbind at 1, eff_bind at 1.
  destruct (cancel_deferreds_ok o pageUrl reason (c_deferreds s) m (set_fs f s1)) as (m' & s3 & E3 & H3 & Eq & Ed & Es).
  { by apply (same_book o None s1). } { by apply Hs. } { intros id d. apply elem_get, Hs. }
  change (c_deferreds (set_fs f s1)) with (c_deferreds s). rewrite E3. cbn [c_queue set_fs s1 set_queue] in Eq.
  unfold run_if, mbind, eff_bind. destruct (0 <? length m')%nat; do 2 eexists; (split; [reflexivity|]); split_and!; try done.
  - by apply (same_book o None s3).
  - cbn [c_queue set_queue]. by rewrite pending_flushed, Eq, pending_removed.
  - by rewrite Eq, pending_removed.
Qed.

Lemma cancel_ok o pageUrl reason s : promises_ok o None s -> promises_ok o None (cancelPendingEvents cwd liveDir pageUrl reason s).2.
Proof. intros Hs. by destruct (cancel_effect o pageUrl reason s Hs) as (l & s' & -> & ? & _). Qed.

Lemma prune_names_ok o referenced names : forall removed, keeps (promises_ok o None) (prune_names liveDir referenced names removed).
Proof.
  induction names as [|n names IH]; intros removed; cbn [prune_names]; keep; try apply IH. apply keeps_on_fs.
Qed.
Lemma prune_ok o : keeps (promises_ok o None) (pruneStaleEvidence cwd liveDir).
Proof. unfold pruneStaleEvidence. keep; [apply keeps_on_fs|apply prune_names_ok]. Qed.

Lemma turn_keeps_book o s s' : turn cwd liveDir softDeadline s s' -> promises_ok o None s -> promises_ok o None s'.
Proof.
  intros [] Hs; [by apply push_ok|by apply timeout_ok|by apply finish_ok|by apply finish_ok|by apply late_ok|by apply cancel_ok|by apply prune_ok|].
  by apply (same_book o None s0).
Qed.
Lemma turns_keep_book o s s' : rtc (turn cwd liveDir softDeadline) s s' -> promises_ok o None s -> promises_ok o None s'.
Proof. induction 1 as [|s s1 s2 Ht _ IH]; [done|]. intros Hs. by apply IH, (turn_keeps_book o s). Qed.

(** ** Properties *)

(** C11: A promise settles once. From a state whose books are in order, along any sequence of
    pushes, timeouts, replies, rejections, late replies, cancellations and prunings, whatever
    the agent does to the files and the server to its queue: no event settles twice, an event that has settled is no
    longer pending - so neither a timer nor a second reply reaches it - and at most 200
    tombstones are kept. *)
Theorem promises_settle_once o s s' : promises_ok o None s -> rtc (turn cwd liveDir softDeadline) s s' ->
  NoDup (c_settled s').*1 /\ (forall id, id ∈ keys (c_deferreds s') -> id ∉ (c_settled s').*1) /\
  (length (c_timedOut s') <= 200)%nat.
Proof.
  intros Hs Ht. destruct (turns_keep_book o s s' Ht Hs). split_and!; [done| |done]. intros id Hid.
  destruct (assoc_get id (c_deferreds s')) as [d|] eqn:E; [by eapply po_apart0|]. by apply assoc_get_None in E.
Qed.

(** What the push of an event leaves: its promise, with the snapshot of the files as they were. *)
Lemma pushed eventId batch pageUrl chunk repair s0 s1 : promises_ok None None s0 -> fresh eventId s0 ->
  pushApplyEventAndWait cwd liveDir softDeadline eventId batch pageUrl chunk repair s0 = (Ok tt, s1) ->
  exists snapshot f, promises_ok (Some (eventId, batch, snapshot)) None s1 /\
    snapshotApplyEventFiles cwd batch f = (Ok snapshot, c_fs s1).
Proof.
  intros Hs Hf Hp. pose proof (push_ok None eventId batch pageUrl chunk repair s0 Hs Hf) as Hok. rewrite Hp in Hok.
  destruct Hf as (_ & Hf1 & Hf2 & Hf3). unfold pushApplyEventAndWait, mbind, eff_bind, lift, upd in Hp. rewrite on_fs_eq in Hp.
  destruct (writeManualApplyEvidence _ _ _ _).1; [|done]. destruct (compactManualApplyBatch cwd batch); [|done].
  cbn zeta in Hp. rewrite on_fs_eq in Hp. set (f := c_fs (set_fs _ s0)) in Hp.
  destruct (snapshotApplyEventFiles cwd batch f) as [[snapshot|] f2] eqn:Esn; [|done]. cbn [fst snd] in Hp.
  destruct (countManualApplyOps batch); [|done]. destruct (collectManualApplyFiles cwd batch (JArr [])); [|done].
  apply (f_equal snd) in Hp. cbn [snd] in Hp. subst s1. cbn [snd] in Hok. exists snapshot, f. split; [|exact Esn].
  destruct Hok as [H1 H2 H3 H4 H5 H6 _]. constructor; try done.
  cbn [c_deferreds c_timedOut c_settled set_deferreds set_queue log set_fs].
  intros id b sn [= <- <- <-]. rewrite assoc_get_set_eq. split_and!; [left; by eexists|by intros d [= <-]|].
  intros t Ht. exfalso. apply Hf2, list_elem_of_fmap. by exists (eventId, t).
Qed.


Lemma existsb_key pageUrl (l : list (string * deferred)) id : NoDup (keys l) ->
  existsb (fun e => String.eqb id e.1 && shouldCancel pageUrl (d_event e.2)) l =
  match assoc_get id l with Some d => shouldCancel pageUrl (d_event d) | None => false end.
Proof.
  induction l as [|[k d] l IH]; [done|]. intros [Hk Hn]%NoDup_cons. cbn [existsb assoc_get fst snd]. rewrite IH by done.
  destruct (String.eqb_spec id k) as [->|]; [|done]. change (k ∉ keys l) in Hk.
  apply assoc_get_None in Hk as ->. cbn. apply orb_false_r.
Qed.

(** Cancelling the Apply events of a page (or of every page) always succeeds: it leaves no such
    event in the queue and no such promise pending, the promises of other pages
    stay pending, and the promises that were pending for the page - and no others - are
    rejected with the reason of the cancellation. *)
Theorem cancel_settles pageUrl reason s : promises_ok None None s ->
  exists l s', cancelPendingEvents cwd liveDir pageUrl reason s = (Ok l, s') /\
    (forall event, event ∈ pendingEvents (c_queue s') <-> event ∈ pendingEvents (c_queue s) /\ shouldCancel pageUrl event = false) /\
    (forall id d, assoc_get id (c_deferreds s') = Some d <->
       assoc_get id (c_deferreds s) = Some d /\ shouldCancel pageUrl (d_event d) = false) /\
    (forall id r, (id, r) ∈ c_settled s' <-> (id, r) ∈ c_settled s \/
       r = Throw (error reason) /\ exists d, assoc_get id (c_deferreds s) = Some d /\ shouldCancel pageUrl (d_event d) = true).
Proof.
  intros Hs. destruct (cancel_effect None pageUrl reason s Hs) as (l & s' & E & _ & Eq & Ed & Es). exists l, s'.
  pose proof (po_keys _ _ _ Hs) as Hk. split_and!; [done| | |].
  - intros e. by rewrite Eq, bfilter_elem_of, negb_true_iff.
  - intros id d. rewrite Ed, existsb_key by done. destruct (assoc_get id (c_deferreds s)) as [d'|]; [|split; [done|by intros [? _]]].
    destruct (shouldCancel pageUrl (d_event d')) eqn:E'.
    { split; [done|]. intros [[= ->] ?]. congruence. }
    split; [by intros [= ->]|by intros [? _]].
  - intros id r. rewrite Es, elem_of_app. apply or_iff_compat_l. rewrite list_elem_of_fmap. setoid_rewrite bfilter_elem_of. split.
    + intros ([i d] & [= -> ->] & Hin & Hc). split; [done|]. exists d. split; [|done]. by apply elem_get.
    + intros [-> (d & Hd & Hc)]. exists (id, d). split; [done|]. split; [by apply list_elem_of_In, assoc_get_In|done].
Qed.

(** The timer settles a promise: when it fires for an event that is pending, the promise is rejected with
    [chat_agent_timeout], the event leaves the pending promises, and its tombstone
    is kept even when 200 others are, so that a late reply is recognised. *)
Theorem timeout_settles eventId d s : promises_ok None None s -> eventId <> "" -> assoc_get eventId (c_deferreds s) = Some d ->
  eventId ∉ keys (c_timedOut s) ->
  exists s', timeoutFires cwd liveDir eventId s = (Ok tt, s') /\
    c_settled s' = c_settled s ++ [(eventId, Throw (error "chat_agent_timeout"))] /\
    c_deferreds s' = assoc_del eventId (c_deferreds s) /\
    by_id (JStr eventId) (c_timedOut s') = Some (Tombstone (d_batch d) (d_snapshot d) JUndef).
Proof.
  intros Hs He Hd Hnew. unfold timeoutFires, forget, mbind, eff_bind, lift, upd, get. rewrite Hd. cbn beta iota.
  unfold tombstoneTimedOutApplyId, upd. apply String.eqb_neq in He as ->. cbn zeta beta iota. set (t := Tombstone _ _ _).
  set (m := assoc_set eventId t _). edestruct (remove_evidence_eq (d_event d)) as (b & f & ->). cbn beta iota.
  destruct (po_readable _ _ _ Hs _ _ Hd) as [_ [n ->]]. cbn beta iota. eexists. split; [reflexivity|]. split_and!; [done..|].
  cbn [c_timedOut settle log set_fs set_queue set_timedOut by_id].
  assert (m = c_timedOut s ++ [(eventId, t)]) as Em by by apply assoc_set_fresh, assoc_get_None.
  pose proof (po_bound _ _ _ Hs). destruct (Nat.leb_spec (length m) TOMBSTONES) as [|Hlong]; [apply assoc_get_set_eq|].
  rewrite Em in Hlong |- *. rewrite length_app in Hlong. cbn [length] in Hlong. destruct (c_timedOut s) as [|[k v] l]; [cbn in Hlong; unfold TOMBSTONES in *; lia|].
  assert (assoc_get eventId l = None) as Hl by (apply assoc_get_None; cbn in Hnew; set_solver).
  cbn [tail app]. clear -Hl. induction l as [|[k' v'] l IH]; cbn in *; [by rewrite String.eqb_refl|].
  destruct (String.eqb eventId k'); [done|by apply IH].
Qed.
End Facts.

(** ** Witnesses *)

(** A queue of its own: the events in order. *)
#[export] Instance list_queue : ApplyQueue (list js).
Proof.
  refine {| pendingEvents q := q; enqueueEvent e q := q ++ [e];
            acknowledgePendingEvent id q := bfilter (fun e => negb (opt_get e "id" === id)) q;
            remove_events f q := bfilter (fun e => negb (f e)) q; flushPendingPolls q := q |}; done.
Defined.

Lemma start_ok {Q} `{ApplyQueue Q} cwd (f : fsys) (q : Q) activity : promises_ok cwd None None (Ctl f q [] [] [] activity).
Proof. constructor; cbn; try done; try (by constructor); lia. Qed.

Definition demo_ctl : ctl (list js) := Ctl demo_before [] [] [] [] [].
Definition demo_deadline : num := NInt 120000.
Definition demo_pushed : ctl (list js) :=
  (pushApplyEventAndWait "/p" demo_live_dir demo_deadline "ev1" demo_batch (JStr "/") JNull JNull demo_ctl).2.
Definition demo_agent_edits : ctl (list js) :=
  set_fs (Fsys (<["/p/a.html" := "half-edited"]> (f_text (c_fs demo_pushed))) (f_dirs (c_fs demo_pushed))) demo_pushed.
Definition demo_timed_out : ctl (list js) := (timeoutFires "/p" demo_live_dir "ev1" demo_agent_edits).2.

Lemma demo_fresh : fresh "ev1" demo_ctl.
Proof. split_and!; [done|..]; intros H%elem_of_nil; done. Qed.
Lemma demo_turns : rtc (turn "/p" demo_live_dir demo_deadline) demo_pushed demo_timed_out.
Proof.
  eapply rtc_l; [|apply rtc_once, turn_timeout].
  exact (turn_world "/p" demo_live_dir demo_deadline demo_pushed _ (c_queue demo_pushed)).
Qed.

Lemma promises_settle_once_witness : NoDup (c_settled demo_timed_out).*1.
Proof.
  apply (promises_settle_once "/p" demo_live_dir demo_deadline None demo_ctl); [by apply start_ok|].
  eapply rtc_l; [by apply (turn_push "/p" demo_live_dir demo_deadline demo_ctl "ev1" demo_batch (JStr "/") JNull JNull), demo_fresh|].
  apply demo_turns.
Defined.

(** Checked by evaluation. *)
Lemma fs_tree_dec (s : fsys) :
  bool_decide (map_Forall (fun p _ => Forall (fun d => d ∈ f_dirs s) (dir_prefixes (dirname p))) (f_text s)) = true -> fs_tree s.
Proof. intros H%bool_decide_eq_true p t d Hp Hd. specialize (H p t Hp). rewrite Forall_forall in H. by apply H. Qed.

Lemma demo_file_no_dir (s : fsys) : is_dir "/p/a.html" s = false -> no_dirs "/p" s ["a.html"].
Proof. by intros H f ->%list_elem_of_singleton. Qed.


Lemma cancel_settles_witness : exists l s', cancelPendingEvents "/p" demo_live_dir (JStr "/") "manual_edit_discarded" demo_pushed = (Ok l, s') /\
  ("ev1", Throw (error "manual_edit_discarded")) ∈ c_settled s'.
Proof.
  assert (promises_ok "/p" None None demo_pushed) as Hok by (apply push_ok; [apply start_ok|apply demo_fresh]).
  destruct (cancel_settles "/p" demo_live_dir (JStr "/") "manual_edit_discarded" demo_pushed Hok) as (l & s' & E & _ & _ & H).
  exists l, s'. split; [exact E|]. apply H. right. split; [reflexivity|].
  destruct (assoc_get "ev1" (c_deferreds demo_pushed)) as [d|] eqn:Ed; [|vm_compute in Ed; discriminate Ed].
  exists d. split; [reflexivity|]. vm_compute in Ed. injection Ed as <-. vm_compute. reflexivity.
Defined.

Lemma timeout_settles_witness : ("ev1", Throw (error "chat_agent_timeout")) ∈ c_settled demo_timed_out.
Proof.
  assert (promises_ok "/p" None None demo_agent_edits) as Hok.
  { apply (same_book "/p" None None demo_pushed); [reflexivity..|]. apply push_ok; [apply start_ok|apply demo_fresh]. }
  destruct (assoc_get "ev1" (c_deferreds demo_agent_edits)) as [d|] eqn:Ed; [|vm_compute in Ed; discriminate Ed].
  destruct (timeout_settles "/p" demo_live_dir "ev1" d demo_agent_edits Hok) as (s' & E & Hs & _);
    [done|exact Ed|intros H; vm_compute in H; by apply elem_of_nil in H|].
  unfold demo_timed_out. rewrite E. cbn [snd]. rewrite Hs. apply elem_of_app. right. by apply list_elem_of_singleton.
Defined.
