(* ===== verification/ServerApply.v ===== *)
(** * The server's queue behind the Apply controller ([live-server.mjs] over [live/manual-apply.mjs])

    [ApplyPromises] proves the controller against the interface [ApplyQueue]; here the queue of
    [PollQueue] implements it, as [live-server.mjs] passes [state.pendingEvents],
    [enqueueEvent], [acknowledgePendingEvent] and [flushPendingPolls] to the controller. *)
From S2P Require Import Prelude JsString JsValue Vocabulary SessionStore PollLanes Files ManualEditsBuffer ApplyFiles ApplyBatch ApplyController.
From S2P Require PollQueue ApplyPromises.
Local Open Scope Z_scope.

Section ServerQueue.
Context {W : Type} `{!PollQueue.Store W}.
Implicit Types (s : PollQueue.srv W).

(** The events of [state.pendingEvents]. *)
Definition queued_events s : list js := p_event <$> PollQueue.pendingEvents s.
(** The splices of [cancelPendingEvents]. *)
Definition splice_events (f : js -> bool) s : PollQueue.srv W :=
  PollQueue.set_queue (bfilter (fun k => match PollQueue.heap s !! k with Some e => negb (f (p_event e)) | None => true end)
                               (PollQueue.queue s)) s.

Lemma spliced_events f s : queued_events (splice_events f s) = bfilter (fun e => negb (f e)) (queued_events s).
Proof.
  unfold queued_events, splice_events, PollQueue.pendingEvents. cbn [PollQueue.heap PollQueue.queue PollQueue.set_queue].
  induction (PollQueue.queue s) as [|k q IH]; [done|]. cbn [bfilter omap list_omap].
  destruct (PollQueue.heap s !! k) as [e|] eqn:E; cbn [fmap list_fmap bfilter]; [|by cbn [omap list_omap]; rewrite E].
  destruct (negb (f (p_event e))); [|done]. cbn [omap list_omap]. rewrite E. cbn [fmap list_fmap]. by f_equal.
Qed.

Lemma same_core_events s0 s : PollQueue.same_core s0 s -> queued_events s = queued_events s0.
Proof. intros (Hh & Hq & _). unfold queued_events, PollQueue.pendingEvents. by rewrite Hh, Hq. Qed.

(** A claim leases an entry; its event stays. *)
Lemma claimed_events k pid l parked s : queued_events (PollQueue.claim k pid l parked s).2 = queued_events s.
Proof.
  destruct (PollQueue.claim_spec k pid l parked s) as (st & s2 & Hc & ->). cbn [snd].
  transitivity (queued_events s2); [done|]. rewrite (same_core_events _ _ Hc). clear Hc s2.
  unfold queued_events, PollQueue.pendingEvents. cbn [PollQueue.heap PollQueue.queue PollQueue.set_entry PollQueue.set_heap].
  induction (PollQueue.queue s) as [|k' q IH]; [done|]. cbn [omap list_omap].
  destruct (decide (k' = k)) as [->|Hne].
  - rewrite lookup_alter_eq. destruct (PollQueue.heap s !! k); cbn; [by f_equal|done].
  - rewrite lookup_alter_ne by done. destruct (PollQueue.heap s !! k'); cbn; [by f_equal|done].
Qed.

Lemma flushed_events L : keeps (fun s => queued_events s = L) PollQueue.flushPendingPolls.
Proof.
  assert (forall fuel b, keeps (fun s => queued_events s = L) (PollQueue.flush_loop fuel b)) as Hloop.
  { induction fuel as [|fuel IH]; intros b; cbn [PollQueue.flush_loop]; keep; try done.
    - apply keeps_upd. done.
    - intros s <-. apply claimed_events. }
  assert (forall m : eff (PollQueue.srv W) unit, PollQueue.quiet m -> keeps (fun s => queued_events s = L) m) as Hq.
  { intros m Hm. apply PollQueue.quiet_keeps; [done|]. intros s s' Hc <-. by apply same_core_events. }
  unfold PollQueue.flushPendingPolls. keep; [apply Hq, PollQueue.quiet_schedule|apply Hq, PollQueue.quiet_bcast_polling].
Qed.

#[export] Instance server_queue : ApplyPromises.ApplyQueue (PollQueue.srv W) := {
  pendingEvents := queued_events;
  enqueueEvent e s := (PollQueue.enqueueEvent e s).2;
  acknowledgePendingEvent id s := (PollQueue.acknowledgePendingEvent id JUndef s).2;
  remove_events := splice_events;
  flushPendingPolls s := (PollQueue.flushPendingPolls s).2;
  pending_removed := spliced_events;
  pending_flushed s := flushed_events (queued_events s) s eq_refl }.

(** A cancelled Apply never reaches an agent: once the Apply events of a page are cancelled on the live
    server - its queue with whatever leases and parked polls it has - no poll, whatever
    types it asks for, is given an Apply event of that page. *)
Theorem cancelled_apply_not_served cwd liveDir pageUrl reason (s : ApplyPromises.ctl (PollQueue.srv W)) :
  ApplyPromises.promises_ok cwd None None s ->
  exists l (s' : ApplyPromises.ctl (PollQueue.srv W)), ApplyPromises.cancelPendingEvents cwd liveDir pageUrl reason s = (Ok l, s') /\
    queued_events (ApplyPromises.c_queue s') =
      bfilter (fun e => negb (ApplyPromises.shouldCancel pageUrl e)) (queued_events (ApplyPromises.c_queue s)) /\
    forall types e, PollQueue.findAvailablePendingEvent types (ApplyPromises.c_queue s') = Some e ->
      ApplyPromises.shouldCancel pageUrl (p_event e) = false.
Proof.
  intros Hs. destruct (ApplyPromises.cancel_effect cwd liveDir None pageUrl reason s Hs) as (l & s' & E & _ & Eq & _).
  exists l, s'. split; [done|]. split; [exact Eq|]. intros types e He. unfold PollQueue.findAvailablePendingEvent in He.
  apply select_elem in He as (He & _). apply (list_elem_of_fmap_2 p_event) in He.
  change (p_event e ∈ ApplyPromises.pendingEvents (ApplyPromises.c_queue s')) in He. rewrite Eq in He.
  by apply bfilter_elem_of in He as [_ ?%negb_true_iff].
Qed.
End ServerQueue.

#[local] Existing Instance PollQueue.log_store.

(** A server with one Apply event queued and none of its promises pending. *)
Definition demo_server : ApplyPromises.ctl (PollQueue.srv (list js)) :=
  ApplyPromises.Ctl demo_before
    (PollQueue.enqueueEvent (JObj [("type", JStr "manual_edit_apply"); ("id", JStr "ev1"); ("pageUrl", JStr "/")]) PollQueue.start).2 [] [] [] [].

Lemma cancelled_apply_not_served_witness : exists l s',
  ApplyPromises.cancelPendingEvents "/p" demo_live_dir (JStr "/") "manual_edit_discarded" demo_server = (Ok l, s') /\
  forall e, PollQueue.findAvailablePendingEvent None (ApplyPromises.c_queue s') = Some e ->
    ApplyPromises.shouldCancel (JStr "/") (p_event e) = false.
Proof.
  destruct (cancelled_apply_not_served "/p" demo_live_dir (JStr "/") "manual_edit_discarded" demo_server) as (l & s' & E & _ & H).
  { apply ApplyPromises.start_ok. }
  exists l, s'. split; [exact E|]. intros e. apply (H None).
Defined.
