(* ===== verification/Globs.v ===== *)
(** * Ignore globs ([lib/impeccable-config.mjs], [globToRegex] and [matchesAnyGlob])

    A glob of the ignore configuration becomes a regular expression. The reference
    meaning [glob_match] says what a glob matches without any expression. *)
From S2P Require Import Prelude JsString JsValue JsRegex NodePath.

(** [[^/]]. *)
Definition not_slash : re := RClass (none_of "/").

(** An alternative of a brace as [RegExp] reads it: the special characters are escaped, but [*] and [?] are
    not: they quantify the character before them, and there must be one. *)
Fixpoint part_re (atom : option re) (s : string) : option re :=
  match s with
  | EmptyString => Some (default REmpty atom)
  | String c s' =>
    if Ascii.eqb c "*" || Ascii.eqb c "?" then
      match atom with
      | None => None
      | Some a =>
        let max := if Ascii.eqb c "*" then None else Some 1%nat in
        match s' with
        | String "?" s'' => RSeq (RRep false 0 max a) <$> part_re None s''
        | _ => RSeq (RRep true 0 max a) <$> part_re None s'
        end
      end
    else RSeq (default REmpty atom) <$> part_re (Some (ch c)) s'
  end.

Fixpoint alternatives (l : list re) : re :=
  match l with [] => REmpty | [r] => r | r :: l => RAlt r (alternatives l) end.

(** The loop: [glob] is what is left from index [i]. *)
Fixpoint glob_body (fuel : nat) (glob : string) : option re :=
  match fuel, glob with
  | O, _ => None
  | _, EmptyString => Some REmpty
  | S fuel, String c rest =>
    if Ascii.eqb c "*" then
      match rest with
      | String "*" rest => RSeq (rstar rdot) <$> glob_body fuel (match rest with String "/" rest => rest | _ => rest end)
      | _ => RSeq (rstar not_slash) <$> glob_body fuel rest
      end
    else if Ascii.eqb c "?" then RSeq not_slash <$> glob_body fuel rest
    else if Ascii.eqb c "{" then
      match index_of "}" rest with
      | None => RSeq (ch "{") <$> glob_body fuel rest
      | Some e =>
        parts ← mapM (part_re None) (split_char "," (stake e rest));
        RSeq (alternatives parts) <$> glob_body fuel (sdrop (S e) rest)
      end
    else RSeq (ch c) <$> glob_body fuel rest
  end.

(** [None]: the expression is malformed and [RegExp] throws. *)
Definition globToRegex (glob : string) : option re :=
  body ← glob_body (S (slen glob)) glob; Some (RBol ⋅ body ⋅ REol)%re.

Definition glob_tests (glob normalized : string) : bool :=
  match globToRegex glob with
  | None => false
  | Some re => re_test re normalized || re_test re (default "" (last (split_char SLASH normalized)))
  end.

Definition matchesAnyGlob (filePath globs : js) : bool :=
  match globs with
  | JArr globs => let normalized := to_str (filePath ||? JStr "") in existsb (fun glob => glob_tests (to_str glob) normalized) globs
  | _ => false
  end.

(** * Theorems *)

(** The reference meaning of a glob. *)
Inductive glob_match : string -> string -> Prop :=
| gm_end : glob_match "" ""
| gm_char c g p : none_of "*?{" c = true -> glob_match g p -> glob_match (String c g) (String c p)
| gm_open g p : index_of "}" g = None -> glob_match g p -> glob_match (String "{" g) (String "{" p)
| gm_one d g p : d <> "/"%char -> glob_match g p -> glob_match (String "?" g) (String d p)
| gm_star s g p : no_char "/" s = true -> starts_with "*" g = false -> glob_match g p -> glob_match (String "*" g) (s +:+ p)
| gm_deep s g p : no_char NL s = true -> no_char CR s = true ->
    glob_match (match g with String "/" g => g | _ => g end) p -> glob_match (String "*" (String "*" g)) (s +:+ p)
| gm_alt parts part g p : no_char "}" parts = true -> part ∈ split_char "," parts -> glob_match g p ->
    glob_match (String "{" (parts +:+ String "}" g)) (part +:+ p).

(** No brace holds a [*] or a [?]. *)
Definition plain_braces (g : string) : Prop :=
  forall a b c, g = a +:+ String "{" (b +:+ String "}" c) -> no_char "}" b = true -> sforall (none_of "*?") b = true.

Lemma plain_braces_tail a g : plain_braces (a +:+ g) -> plain_braces g.
Proof. intros H b c d -> Hc. apply (H (a +:+ b) c d); [by rewrite sapp_assoc|done]. Qed.

Lemma lang_seq_iff a b s : lang (RSeq a b) s <-> exists s1 s2, s = s1 +:+ s2 /\ lang a s1 /\ lang b s2.
Proof.
  split; [intros H; inversion H; subst; eauto|]. intros (s1 & s2 & -> & ? & ?). by constructor.
Qed.
Lemma lang_class_iff p s : lang (RClass p) s <-> exists c, s = String c "" /\ p c = true.
Proof. split; [intros H; inversion H; subst; eauto|]. intros (c & -> & ?). by constructor. Qed.
Lemma lang_empty_iff s : lang REmpty s <-> s = "".
Proof. split; [intros H; by inversion H|intros ->; constructor]. Qed.

Lemma lang_star_class p s : lang (rstar (RClass p)) s <-> sforall p s = true.
Proof.
  split.
  - intros H. remember (rstar (RClass p)) as r eqn:E. induction H as [| | | | | |g m r' s1 s2 Hm H1 _ H2 IH]; try discriminate E; [done|].
    injection E as -> -> ->. apply lang_class_iff in H1 as (c & -> & Hc). simpl. rewrite Hc. by apply IH.
  - induction s as [|c s IH]; [constructor|]. intros [Hc Hs]%andb_true_iff.
    apply (lang_rep_cons true None (RClass p) (String c "") s); [done|by constructor|by apply IH].
Qed.

(** An alternative without quantifiers is the text itself. *)
Lemma part_plain s : sforall (none_of "*?") s = true -> forall atom a,
  (forall w, lang (default REmpty atom) w <-> w = a) -> simple (default REmpty atom) = true ->
  exists r, part_re atom s = Some r /\ simple r = true /\ forall w, lang r w <-> w = a +:+ s.
Proof.
  induction s as [|c s IH]; intros Hs atom a Ha Hsim; cbn [part_re].
  { exists (default REmpty atom). split_and!; [done..|]. intros w. by rewrite sapp_nil_r. }
  cbn [sforall] in Hs. apply andb_true_iff in Hs as [Hc Hs].
  assert (Ascii.eqb c "*" || Ascii.eqb c "?" = false) as ->.
  { unfold none_of, one_of in Hc. cbn in Hc. rewrite orb_false_r in Hc. apply negb_true_iff in Hc.
    by rewrite (Ascii.eqb_sym c "*"), (Ascii.eqb_sym c "?"), orb_comm, orb_comm. }
  destruct (IH Hs (Some (ch c)) (String c "")) as (r & -> & Hr & Hl).
  { intros w. cbn [default from_option]. unfold ch. change (lang (RClass (Ascii.eqb c)) w <-> w = String c "").
    rewrite lang_class_iff. split; [by intros (d & -> & ->%Ascii.eqb_eq)|]. intros ->. exists c. by rewrite Ascii.eqb_refl. }
  { done. }
  eexists. split; [reflexivity|]. cbn [simple]. rewrite Hsim, Hr. split; [done|]. intros w. rewrite lang_seq_iff. split.
  - intros (s1 & s2 & -> & ->%Ha & ->%Hl). done.
  - intros ->. exists a, (String c s). split_and!; [done|by apply Ha|by apply Hl].
Qed.

Lemma parts_plain l : Forall (fun s => sforall (none_of "*?") s = true) l -> l <> [] ->
  exists parts, mapM (part_re None) l = Some parts /\ simple (alternatives parts) = true /\ forall w, lang (alternatives parts) w <-> w ∈ l.
Proof.
  induction 1 as [|s l Hs Hl IH]; intros Hne; [done|]. cbn [mapM].
  destruct (part_plain s Hs None "") as (r & Er & Hr & Hw); [apply lang_empty_iff|done|]. rewrite Er. cbn [mbind option_bind].
  destruct l as [|s' l].
  - cbn. eexists. split; [reflexivity|]. split; [done|]. intros w. by rewrite Hw, list_elem_of_singleton.
  - destruct IH as (parts & E & Hsim & Hlang); [done|]. rewrite E. cbn [mbind option_bind mret option_ret].
    eexists. split; [reflexivity|]. assert (exists r' parts', parts = r' :: parts') as (r' & parts' & ->).
    { destruct parts; [|eauto]. cbn [mapM] in E. destruct (part_re None s'); [|done]. cbn in E. by destruct (mapM (part_re None) l). }
    change (alternatives (r :: r' :: parts')) with (RAlt r (alternatives (r' :: parts'))). cbn [simple]. rewrite Hr, Hsim. split; [done|].
    intros w. rewrite elem_of_cons, <- Hlang. transitivity (lang r w \/ lang (alternatives (r' :: parts')) w); [|by rewrite Hw].
    split; [intros Hi; inversion Hi; auto|]. intros [?|?]; [by apply lang_alt_l|by apply lang_alt_r].
Qed.

Lemma sforall_split f sep s : sforall f s = true -> Forall (fun w => sforall f w = true) (split_char sep s).
Proof.
  induction s as [|c s IH]; cbn [split_char sforall]; [by repeat constructor|]. intros [Hc Hs]%andb_true_iff. specialize (IH Hs).
  destruct (Ascii.eqb c sep); [by constructor|]. destruct (split_char sep s) as [|w l]; [by repeat constructor; cbn; rewrite Hc|].
  inversion IH; subst. constructor; [|done]. cbn. by rewrite Hc.
Qed.

(** The first [}]: what is before it and after it. *)
Lemma index_of_brace rest e : index_of "}" rest = Some e ->
  rest = stake e rest +:+ String "}" (sdrop (S e) rest) /\ no_char "}" (stake e rest) = true.
Proof.
  revert e; induction rest as [|c rest IH]; intros e; cbn [index_of starts_with]; [done|].
  destruct (Ascii.eqb_spec "}" c) as [<-|Hne]; cbn [andb].
  - destruct rest; intros [= <-]; done.
  - destruct (index_of "}" rest) as [e'|] eqn:E; [|done]. intros [= <-]. destruct (IH e' eq_refl) as [H1 H2].
    cbn [stake sdrop]. split; [by rewrite H1 at 1|]. unfold no_char in *. cbn [sforall]. rewrite H2.
    apply not_eq_sym, Ascii.eqb_neq in Hne as ->. done.
Qed.

Lemma match_star {A} (X : string -> A) Y s :
  (match s with String "*" r => X r | _ => Y end) = if starts_with "*" s then X (sdrop 1 s) else Y.
Proof. destruct s as [|[[] [] [] [] [] [] [] []] s]; reflexivity. Qed.

Lemma none_of_cases l c : none_of l c = false <-> In c (list_ascii_of_string l).
Proof.
  unfold none_of, one_of. rewrite negb_false_iff, existsb_exists. split.
  - intros (d & Hd & ->%Ascii.eqb_eq). done.
  - intros H. exists c. by rewrite Ascii.eqb_refl.
Qed.

Lemma no_chars_dot s : no_char NL s = true /\ no_char CR s = true <-> sforall (none_of (String NL (String CR ""))) s = true.
Proof.
  unfold no_char. rewrite <- andb_true_iff. f_equiv. induction s as [|c s IH]; [done|]. cbn [sforall]. rewrite <- IH.
  unfold none_of, one_of. cbn [list_ascii_of_string existsb].
  by destruct (Ascii.eqb c NL), (Ascii.eqb c CR), (sforall _ s), (sforall _ s).
Qed.
Lemma no_slash_star s : no_char "/" s = sforall (none_of "/") s.
Proof.
  induction s as [|c s IH]; [done|]. unfold no_char in *. cbn [sforall]. rewrite IH. unfold none_of, one_of. cbn [list_ascii_of_string existsb].
  by rewrite orb_false_r.
Qed.

Lemma glob_match_star g p : starts_with "*" g = false ->
  glob_match (String "*" g) p <-> exists s q, p = s +:+ q /\ no_char "/" s = true /\ glob_match g q.
Proof.
  intros Hg. split; [|intros (s & q & -> & Hs & Hq); by constructor]. intros H. inversion H; subst; try done; try discriminate; eauto.
Qed.
Lemma glob_match_deep g p : glob_match (String "*" (String "*" g)) p <->
  exists s q, p = s +:+ q /\ (no_char NL s = true /\ no_char CR s = true) /\ glob_match (match g with String "/" g => g | _ => g end) q.
Proof.
  split; [|intros (s & q & -> & [Hs1 Hs2] & Hq); by constructor]. intros H. inversion H; subst; try done; try discriminate; eauto 6.
Qed.
Lemma glob_match_one g p : glob_match (String "?" g) p <-> exists d q, p = String d q /\ d <> "/"%char /\ glob_match g q.
Proof.
  split; [|intros (d & q & -> & Hd & Hq); by constructor]. intros H. inversion H; subst; try done; eauto.
Qed.
Lemma glob_match_char c g p : none_of "*?{" c = true ->
  glob_match (String c g) p <-> exists q, p = String c q /\ glob_match g q.
Proof.
  intros Hc. split; [|intros (q & -> & Hq); by constructor]. intros H. inversion H; subst; try (by discriminate Hc); eauto.
Qed.
Lemma glob_match_brace g p : glob_match (String "{" g) p <->
  match index_of "}" g with
  | None => exists q, p = String "{" q /\ glob_match g q
  | Some e => exists s q, p = s +:+ q /\ s ∈ split_char "," (stake e g) /\ glob_match (sdrop (S e) g) q
  end.
Proof.
  split.
  - intros H. inversion H as [|c g' q Hc| g' q Hi| | | |parts part g' q Hp Hin]; subst; try discriminate; [rewrite Hi; eauto|].
    assert (index_of "}" (parts +:+ String "}" g') = Some (slen parts)) as ->.
    { clear -Hp. induction parts as [|c parts IH]; [by destruct g'|]. unfold no_char in Hp. cbn in Hp.
      apply andb_true_iff in Hp as [Hc Hp]. cbn [append index_of starts_with]. apply negb_true_iff in Hc.
      rewrite Ascii.eqb_sym, Hc. cbn [andb]. by rewrite IH. }
    exists part, q. rewrite stake_app. split_and!; [done..|]. 
    replace (sdrop (S (slen parts)) (parts +:+ String "}" g')) with g'; [done|]. clear. induction parts; [done|]. exact IHparts.
  - destruct (index_of "}" g) as [e|] eqn:E.
    + intros (s & q & -> & Hs & Hq). apply index_of_brace in E as [E1 E2]. rewrite E1. by constructor.
    + intros (q & -> & Hq). by constructor.
Qed.

Lemma glob_body_lang fuel : forall g, (slen g < fuel)%nat -> plain_braces g ->
  exists r, glob_body fuel g = Some r /\ simple r = true /\ forall p, lang r p <-> glob_match g p.
Proof.
  induction fuel as [|fuel IH]; intros g Hf Hb; [lia|]. destruct g as [|c g]; cbn [glob_body].
  { exists REmpty. split_and!; [done..|]. intros p. rewrite lang_empty_iff. split; [intros ->; constructor|intros H; by inversion H]. }
  cbn [String.length] in Hf.
  assert (forall n, exists r, glob_body fuel (sdrop n g) = Some r /\ simple r = true /\ forall p, lang r p <-> glob_match (sdrop n g) p) as IHn.
  { intros n. apply IH; [rewrite slen_sdrop; lia|]. apply (plain_braces_tail (String c (stake n g))). cbn. by rewrite stake_sdrop. }
  assert (forall d, exists r, RSeq (RClass d) <$> glob_body fuel g = Some r /\ simple r = true /\
            forall p, lang r p <-> exists x q, p = String x q /\ d x = true /\ glob_match g q) as Hone.
  { intros d. destruct (IHn 0%nat) as (r & E & Hr & Hl). cbn [sdrop] in *. rewrite E. eexists. split; [reflexivity|]. cbn [simple].
    split; [by rewrite Hr|]. intros p. rewrite lang_seq_iff. split.
    - intros (s1 & s2 & -> & (x & -> & Hx)%lang_class_iff & ?%Hl). eauto.
    - intros (x & q & -> & Hx & ?%Hl). exists (String x ""), q. split_and!; [done|by constructor|done]. }
  assert (forall d n, exists r, RSeq (rstar (RClass d)) <$> glob_body fuel (sdrop n g) = Some r /\ simple r = true /\
            forall p, lang r p <-> exists s q, p = s +:+ q /\ sforall d s = true /\ glob_match (sdrop n g) q) as Hmany.
  { intros d n. destruct (IHn n) as (r & E & Hr & Hl). rewrite E. eexists. split; [reflexivity|]. cbn [simple rstar].
    split; [by rewrite Hr|]. intros p. rewrite lang_seq_iff. setoid_rewrite lang_star_class. by setoid_rewrite Hl. }
  destruct (Ascii.eqb_spec c "*") as [->|Hc1]; [|destruct (Ascii.eqb_spec c "?") as [->|Hc2]; [|destruct (Ascii.eqb_spec c "{") as [->|Hc3]]].
  - rewrite (match_star (fun rest => RSeq (rstar rdot) <$> glob_body fuel (match rest with String "/" rest => rest | _ => rest end))).
    destruct (starts_with "*" g) eqn:Es.
    + apply starts_with_iff in Es as [g' ->]. cbn [append sdrop].
      assert (exists n, (match g' with String "/" rest => rest | _ => g' end) = sdrop n (String "*" g')) as [n En].
      { destruct g' as [|d g'']; [by exists 1%nat|]. destruct (Ascii.eqb_spec d "/") as [->|Hd]; [by exists 2%nat|].
        exists 1%nat. destruct d as [[] [] [] [] [] [] [] []]; try reflexivity. by destruct Hd. }
      destruct (Hmany (none_of (String NL (String CR ""))) n) as (r & E & Hr & Hl). cbn [append] in E, Hl. rewrite <- En in E, Hl.
      exists r. split_and!; [exact E|done|]. intros p. rewrite Hl, glob_match_deep. setoid_rewrite no_chars_dot. done.
    + destruct (Hmany (none_of "/") 0%nat) as (r & E & Hr & Hl). exists r. split_and!; [exact E|done|]. intros p.
      rewrite Hl, glob_match_star by done. by setoid_rewrite no_slash_star.
  - destruct (Hone (none_of "/")) as (r & E & Hr & Hl). exists r. split_and!; [exact E|done|]. intros p. rewrite Hl, glob_match_one.
    assert (forall d, none_of "/" d = true <-> d <> "/"%char) as Hd.
    { intros d. unfold none_of, one_of. cbn. rewrite orb_false_r, negb_true_iff. apply Ascii.eqb_neq. }
    by setoid_rewrite Hd.
  - cbn [Ascii.eqb]. destruct (index_of "}" g) as [e|] eqn:Ei.
    + apply index_of_brace in Ei as Ei2. destruct Ei2 as [E1 E2].
      destruct (parts_plain (split_char "," (stake e g))) as (parts & Ep & Hps & Hpl);
        [apply sforall_split, (Hb "" _ (sdrop (S e) g)); [by rewrite <- E1|done]|apply split_char_nonempty|].
      rewrite Ep. cbn [mbind option_bind]. destruct (IHn (S e)) as (r & E & Hr & Hl). rewrite E. eexists. split; [reflexivity|].
      cbn [simple]. rewrite Hps, Hr. split; [done|]. intros p. rewrite lang_seq_iff, glob_match_brace, Ei.
      setoid_rewrite Hpl. by setoid_rewrite Hl.
    + destruct (Hone (Ascii.eqb "{")) as (r & E & Hr & Hl). exists r. split_and!; [exact E|done|]. intros p.
      rewrite Hl, glob_match_brace, Ei. split; [intros (x & q & -> & <-%Ascii.eqb_eq & ?); eauto|]. intros (q & -> & ?). by exists "{"%char, q.
  - destruct (Hone (Ascii.eqb c)) as (r & E & Hr & Hl). exists r. split_and!; [exact E|done|]. intros p.
    rewrite Hl, glob_match_char.
    + split; [intros (x & q & -> & <-%Ascii.eqb_eq & ?); eauto|]. intros (q & -> & ?). exists c, q. by rewrite Ascii.eqb_refl.
    + destruct (none_of "*?{" c) eqn:E'; [done|]. apply none_of_cases in E' as [|[|[|[]]]]; congruence.
Qed.

Definition last_segment (p : string) : string := default "" (last (split_char SLASH p)).

(** One glob against a path or its last segment. *)
Lemma glob_tests_iff g p : plain_braces g -> glob_tests g p = true <-> glob_match g p \/ glob_match g (last_segment p).
Proof.
  intros Hb. unfold glob_tests, globToRegex. destruct (glob_body_lang (S (slen g)) g) as (r & -> & Hr & Hl); [lia|done|].
  cbn [mbind option_bind]. by rewrite orb_true_iff, !re_test_anchored, !Hl.
Qed.

(** C26: The compiled globs mean what the reference says: a path matches a list of globs exactly when one of
    them matches the path or its last segment, where [*] stands for any text without a slash,
    [**] for any text on one line and swallows the slash after it, [?] for one character but a slash, a brace for
    one of its alternatives, and any other character - a dot or a parenthesis too - for itself. The regular expression
    never throws. The condition excludes braces with [*] or [?] inside, which the code
    passes to [RegExp] as quantifiers. *)
Theorem globs_match_exact p globs : Forall plain_braces globs ->
  matchesAnyGlob (JStr p) (JArr (JStr <$> globs)) = true <->
  exists g, g ∈ globs /\ (glob_match g p \/ glob_match g (last_segment p)).
Proof.
  intros Hg. unfold matchesAnyGlob. assert (to_str (JStr p ||? JStr "") = p) as -> by (by destruct p).
  cbv zeta. rewrite existsb_exists. rewrite Forall_forall in Hg. split.
  - intros (v & Hv & H). apply list_elem_of_In, list_elem_of_fmap in Hv as (g & -> & Hin). cbn [to_str] in H. exists g.
    split; [done|]. by apply glob_tests_iff; [apply Hg|].
  - intros (g & Hin & H). exists (JStr g). split; [by apply list_elem_of_In, list_elem_of_fmap_2|]. by apply glob_tests_iff; [apply Hg|].
Qed.

(** Decided by a scan. *)
Fixpoint plain_bracesb (g : string) : bool :=
  match g with
  | EmptyString => true
  | String c g =>
    (if Ascii.eqb c "{" then match index_of "}" g with Some e => sforall (none_of "*?") (stake e g) | None => true end else true)
    && plain_bracesb g
  end.
Lemma plain_bracesb_sound g : plain_bracesb g = true -> plain_braces g.
Proof.
  intros H a b c -> Hb. induction a as [|x a IH]; cbn [append plain_bracesb] in H; apply andb_true_iff in H as [H1 H2]; [|by apply IH].
  cbn [Ascii.eqb] in H1. assert (index_of "}" (b +:+ String "}" c) = Some (slen b)) as E.
  { clear -Hb. induction b as [|d b IH]; [by destruct c|]. unfold no_char in Hb. cbn in Hb. apply andb_true_iff in Hb as [Hd Hb].
    cbn [append index_of starts_with]. apply negb_true_iff in Hd. rewrite Ascii.eqb_sym, Hd. cbn [andb]. by rewrite IH. }
  change (Ascii.eqb "{" "{") with true in H1. cbn iota in H1. rewrite E, stake_app in H1. done.
Qed.

(** A deep glob with a brace matches, a glob of another directory does not. *)
Lemma globs_match_exact_witness : exists g, g ∈ ["docs/*"; "src/**/*.{test,spec}.ts"] /\
  (glob_match g "src/a/b.test.ts" \/ glob_match g (last_segment "src/a/b.test.ts")).
Proof.
  apply (globs_match_exact "src/a/b.test.ts" ["docs/*"; "src/**/*.{test,spec}.ts"]).
  - repeat constructor; apply plain_bracesb_sound; vm_compute; reflexivity.
  - vm_compute. reflexivity.
Defined.
