(* ===== verification/IgnoreConfig.v ===== *)
(** * The ignore configuration ([lib/impeccable-config.mjs])

    Which findings a project waives. The shared file [config.json] and the local one
    [config.local.json] hold lists of rules, globs and values; old builds stored
    them under [hook], new ones under [detector]. The same rules run in the design hook ([hook-lib.mjs]
    repeats these functions). Colours are compared by [colorIgnoreKey], and
    [decodeURIComponent] decodes a font name: both are parameters. *)
From S2P Require Import Prelude JsString JsValue Json JsRegex NodePath Vocabulary EventValidation PollLanes Files Globs.
Local Open Scope Z_scope.

Section Config.
Context (colorIgnoreKey : string -> string) (decodeURIComponent : string -> option string).

Definition getConfigPath (root : string) : string := path_join [root; ".impeccable"; "config.json"].
Definition getLocalConfigPath (root : string) : string := path_join [root; ".impeccable"; "config.local.json"].

(** [raw && typeof raw === 'object' && !Array.isArray(raw)]. *)
Definition plain_object (raw : js) : bool := truthy raw && is_objecty raw && negb (is_array raw).

Definition safeReadJson (filePath : string) : eff fsys js :=
  attempt (text ← readFileSync filePath;
           match json_parse text with
           | None => lift (Throw (error "Unexpected token"))
           | Some raw => mret (if plain_object raw then raw else JNull)
           end)
          (fun _ => mret JNull).

Definition hookSection (raw : js) : js := if truthy raw && plain_object raw.["hook"] then raw.["hook"] else JNull.
Definition detectorSection (raw : js) : js := if truthy raw && plain_object raw.["detector"] then raw.["detector"] else JNull.

Definition DETECTOR_CONFIG_KEYS : list string := ["ignoreRules"; "ignoreFiles"; "ignoreValues"; "designSystem"; "advisoryRules"].
Definition DEFAULT_DETECTION_CONFIG : js :=
  JObj [("ignoreRules", JArr []); ("ignoreFiles", JArr []); ("ignoreValues", JArr []); ("designSystem", JObj [("enabled", JBool true)])].
Definition cloneDetectionConfig : js :=
  JObj [("ignoreRules", JArr []); ("ignoreFiles", JArr []); ("ignoreValues", JArr []);
        ("designSystem", spread DEFAULT_DETECTION_CONFIG.["designSystem"])].
Definition cloneRawDetectionConfig : js := JObj [("ignoreRules", JArr []); ("ignoreFiles", JArr []); ("ignoreValues", JArr [])].

(** ** Normal forms *)

(** [.replace(/^["']|["']$/g, '')]. *)
Definition is_quote (c : ascii) : bool := Ascii.eqb c DQ || Ascii.eqb c "'".
Definition drop_quote (s : string) : string := match s with String c r => if is_quote c then r else s | _ => s end.
Definition strip_quotes (s : string) : string := srev (drop_quote (srev (drop_quote s))).

(** [.replace(/\s+/g, ' ')]. *)
Fixpoint collapse_spaces (space : bool) (s : string) : string :=
  match s with
  | EmptyString => ""
  | String c s => if is_space c then (if space then collapse_spaces true s else String " " (collapse_spaces true s))
                  else String c (collapse_spaces false s)
  end.

Definition plus_to_space (c : ascii) : ascii := if Ascii.eqb c "+" then " "%char else c.
Definition cleanIgnoreValueDisplay (value : js) : string :=
  collapse_spaces false (smap plus_to_space (strip_quotes (trim (to_str (value ||? JStr ""))))).
Definition normalizeIgnoreValue (value : js) : string :=
  to_lower (collapse_spaces false (smap plus_to_space (strip_quotes (trim (to_str (value ||? JStr "")))))).
Definition normalizeIgnoreRule (rule : js) : string := to_lower (trim (to_str (rule ||? JStr ""))).

(** [Array.from(new Set(values.map(String)))]. *)
Definition uniq (l : list string) : list string :=
  foldl (fun acc x => if bool_decide (x ∈ acc) then acc else acc ++ [x]) [] l.
Definition uniqueStrings (values : list js) : list string := uniq (to_str <$> values).
Definition strings (l : list string) : js := JArr (JStr <$> l).

(** [typeof v === 'string' && v.trim()], and the trimmed text. *)
Definition nonblank (v : js) : option string :=
  match v with JStr s => if String.eqb (trim s) "" then None else Some (trim s) | _ => None end.
Definition elements_of (v : js) : list js := match v with JArr l => l | _ => [] end.
Definition optional (k : string) (v : option string) : list (string * js) :=
  match v with Some s => [(k, JStr s)] | None => [] end.

(** The body of the loop of [normalizeIgnoreValueEntries]; [None] is [continue]. *)
Definition normalize_entry (entry : js) : option js :=
  if negb (truthy entry && is_objecty entry) then None else
  let rule := normalizeIgnoreRule entry.["rule"] in
  let value := normalizeIgnoreValue entry.["value"] in
  if String.eqb rule "" || String.eqb value "" then None else
  let files := uniq (option_list (nonblank entry.["file"]) ++ omap nonblank (elements_of entry.["files"])) in
  Some (JObj ([("rule", JStr rule); ("value", JStr value)]
              ++ (if (0 <? length files)%nat then [("files", strings files)] else [])
              ++ optional "createdAt" (nonblank entry.["createdAt"]) ++ optional "reason" (nonblank entry.["reason"]))).
Definition normalizeIgnoreValueEntries (entries : js) : list js := omap normalize_entry (elements_of entries).

Definition ignoreValueFilesKey (files : js) : string :=
  match files with
  | JArr ((_ :: _) as l) => join (String (chr 31) "") (sort_by (fun a b => negb (string_leb b a)) (to_str <$> l))
  | _ => ""
  end.
Definition entry_key (entry : js) : string :=
  to_str entry.["rule"] +:+ String (chr 0) (to_str entry.["value"] +:+ String (chr 0) (ignoreValueFilesKey entry.["files"])).
(** A [Map] from keys to entries: a later entry takes the place of the earlier one. *)
Definition set_entries (entries : list js) (map : list (string * js)) : list (string * js) :=
  foldl (fun map entry => assoc_set (entry_key entry) entry map) map entries.
Definition mergeIgnoreValues (existing incoming : js) : list js :=
  (set_entries (normalizeIgnoreValueEntries incoming) (set_entries (normalizeIgnoreValueEntries existing) [])).*2.

(** ** Reading *)

Definition advisory_setting (raw : js) : bool :=
  (raw.["advisoryRules"] === JStr "include") || (raw.["advisoryRules"] === JStr "exclude").
Definition enabled_of (designSystem : js) : js := JBool (negb (designSystem.["enabled"] === JBool false)).

Definition applyDetectionConfigSource (config raw : js) : js :=
  if negb (truthy raw && is_objecty raw) then config else
  let config := if advisory_setting raw then config.["advisoryRules" := raw.["advisoryRules"]] else config in
  let config := if plain_object raw.["designSystem"]
    then config.["designSystem" := spread_with config.["designSystem"] [("enabled", enabled_of raw.["designSystem"])]] else config in
  let config := match raw.["ignoreRules"] with
    | JArr l => config.["ignoreRules" := strings (uniqueStrings (elements_of config.["ignoreRules"] ++ l))] | _ => config end in
  let config := match raw.["ignoreFiles"] with
    | JArr l => config.["ignoreFiles" := strings (uniqueStrings (elements_of config.["ignoreFiles"] ++ l))] | _ => config end in
  match raw.["ignoreValues"] with
  | JArr l => config.["ignoreValues" := JArr (mergeIgnoreValues config.["ignoreValues"] (JArr l))] | _ => config end.

Definition read_source (filePath : string) (config : js) : eff fsys js :=
  raw ← safeReadJson filePath;
  mret (applyDetectionConfigSource (applyDetectionConfigSource config (hookSection raw)) (detectorSection raw)).

Definition readDetectionConfig (root : string) : eff fsys js :=
  config ← read_source (getConfigPath root) cloneDetectionConfig;
  read_source (getLocalConfigPath root) config.

Definition configFile (root : string) (local : bool) : string := if local then getLocalConfigPath root else getConfigPath root.
Definition readRawDetectionConfig (root : string) (local : bool) : eff fsys js :=
  read_source (configFile root local) cloneRawDetectionConfig.

(** ** Writing *)

Definition normalizeDetectionConfigForWrite (config : js) : js :=
  let out := JObj [] in
  let out := match opt_get config "ignoreRules" with
    | JArr l => out.["ignoreRules" := strings (uniq (bfilter (fun s => negb (String.eqb s "")) (normalizeIgnoreRule <$> l)))] | _ => out end in
  let out := match opt_get config "ignoreFiles" with
    | JArr l => out.["ignoreFiles" := strings (uniq (omap nonblank l))] | _ => out end in
  let out := out.["ignoreValues" := JArr (normalizeIgnoreValueEntries (opt_get config "ignoreValues" ||? JArr []))] in
  let out := if negb (nullish config) && advisory_setting config then out.["advisoryRules" := config.["advisoryRules"]] else out in
  if plain_object (opt_get config "designSystem")
  then out.["designSystem" := JObj [("enabled", enabled_of config.["designSystem"])]] else out.

Definition stripDetectorKeys (raw : js) : js :=
  if plain_object raw then JObj (bfilter (fun kv => negb (has_str DETECTOR_CONFIG_KEYS (JStr kv.1))) (own_props raw)) else JNull.

(** ** The exclude file of git *)

Definition EXCLUDE_OPEN : string := "# impeccable-config-ignore-start".
Definition EXCLUDE_CLOSE : string := "# impeccable-config-ignore-end".
Definition EXCLUDE_PATTERNS : list string := [".impeccable/config.local.json"].
Definition exclude_block : string := join s_nl (EXCLUDE_OPEN :: EXCLUDE_PATTERNS ++ [EXCLUDE_CLOSE]).
(** The markers hold no special character: [escapeRegExp] leaves them as they are. *)
Definition markerRe : re := (lit EXCLUDE_OPEN ⋅ rstar_lazy rany ⋅ lit EXCLUDE_CLOSE)%re.

Definition resolveGitDir (root : string) : eff fsys (option string) :=
  let dotGit := path_join [root; ".git"] in
  there ← get (existsSync dotGit);
  if negb there then mret None else
  dir ← get (is_dir dotGit);
  if dir : bool then mret (Some dotGit) else
  attempt (text ← readFileSync dotGit;
           mret (match re_exec (lit "gitdir:" ⋅ rstar rspace ⋅ RGroup 1 (rplus rdot))%re text with
                 | Some m => let resolved := trim (group_or "" m 1) in
                             Some (if is_absolute resolved then resolved else path_join [root; resolved])
                 | None => None
                 end))
          (fun _ => mret None).

Definition exclude_text (existing : string) : string :=
  if re_test markerRe existing then re_replace markerRe (fun _ => exclude_block) existing
  else (if String.eqb existing "" then "" else if ends_with s_nl existing then existing else existing +:+ s_nl) +:+ exclude_block +:+ s_nl.

Definition ensureConfigGitExclude (root : string) : eff fsys bool :=
  attempt
    (gitDir ← resolveGitDir root;
     match gitDir with
     | None => mret false
     | Some gitDir =>
       let target := path_join [gitDir; "info"; "exclude"] in
       there ← get (existsSync target);
       existing ← (if there : bool then readFileSync target else mret "");
       let updated := exclude_text existing in
       _ ← run_if (negb (String.eqb updated existing)) (_ ← mkdirp (dirname target); writeFileSync target updated);
       mret true
     end)
    (fun _ => mret false).

Definition write_json (filePath : string) (v : js) : eff fsys unit :=
  _ ← mkdirp (dirname filePath); writeFileSync filePath (json_stringify2 v +:+ s_nl).

Definition next_config (existing detectorConfig : js) : js :=
  let nextHook := stripDetectorKeys (hookSection existing) in
  let nextDetector := spread_with (detectorSection existing ||? JObj []) (own_props (normalizeDetectionConfigForWrite detectorConfig)) in
  let next := spread_with existing [("detector", nextDetector)] in
  if truthy nextHook && (0 <? length (own_props nextHook))%nat then next.["hook" := nextHook] else jdel next "hook".

Definition writeDetectionConfig (root : string) (detectorConfig : js) (local : bool) : eff fsys string :=
  let filePath := configFile root local in
  _ ← (if local then ensureConfigGitExclude root else mret false);
  raw ← safeReadJson filePath;
  _ ← write_json filePath (next_config (raw ||? JObj []) detectorConfig);
  mret filePath.

(** ** Consent to the hook *)

Definition consent_of (raw consent : js) : js :=
  let hook := hookSection raw in
  if truthy hook && ((hook.["consent"] === JStr "accepted") || (hook.["consent"] === JStr "declined")) then hook.["consent"] else consent.
Definition getHookConsent (root : string) : eff fsys js :=
  shared ← safeReadJson (getConfigPath root);
  let consent := consent_of shared JUndef in
  local ← safeReadJson (getLocalConfigPath root);
  mret (consent_of local consent).

Definition setHookConsent (root : string) (value : js) : eff fsys string :=
  let filePath := getLocalConfigPath root in
  raw ← safeReadJson filePath;
  let existing := raw ||? JObj [] in
  let hook := hookSection existing ||? JObj [] in
  _ ← write_json filePath (spread_with existing [("hook", spread_with hook [("consent", value)])]);
  _ ← ensureConfigGitExclude root;
  mret filePath.

(** ** The value of a finding *)

Definition extractMotionIgnoreValue (text : string) : string :=
  match re_exec (RWordB ⋅ liti "animate-bounce" ⋅ RWordB)%re text with
  | Some m => cleanIgnoreValueDisplay (JStr (m_text m))
  | None =>
  match re_exec (liti "cubic-bezier(" ⋅ rplus (RClass (none_of ")")) ⋅ lit ")")%re text with
  | Some m => cleanIgnoreValueDisplay (JStr (m_text m))
  | None =>
  match re_exec (liti "animation" ⋅ ropt (liti "-name") ⋅ rstar rspace ⋅ lit ":" ⋅ rstar rspace ⋅ RGroup 1 (rplus (RClass (none_of (String ";" s_nl)))))%re text with
  | Some m =>
    match find (re_test (liti "bounce" ∥ liti "elastic" ∥ liti "wobble" ∥ liti "jiggle" ∥ liti "spring")%re)
               (re_split (rplus (RClass (fun c => Ascii.eqb c "," || is_space c))) (group_or "" m 1)) with
    | Some token => cleanIgnoreValueDisplay (JStr token)
    | None => ""
    end
  | None => ""
  end end end.

(** A label, then what follows it: [label\s*([^stop]+)]. *)
Definition labelled (label : re) (stop : string) (text : string) : option string :=
  (fun m => group_or "" m 1) <$> re_exec (label ⋅ RGroup 1 (rplus (RClass (none_of stop))))%re text.

Definition font_of (text : string) : option string :=
  match labelled (liti "Primary font:" ⋅ rstar rspace)%re ("();" +:+ s_nl) text with
  | Some s => Some (cleanIgnoreValueDisplay (JStr s))
  | None =>
  match labelled (liti "Google Fonts:" ⋅ rstar rspace)%re ("();" +:+ s_nl) text with
  | Some s => Some (cleanIgnoreValueDisplay (JStr s))
  | None =>
  match labelled (liti "font-family" ⋅ rstar rspace ⋅ lit ":" ⋅ rstar rspace ⋅ ropt (RClass is_quote))%re ("',;" +:+ s_dq +:+ s_nl) text with
  | Some s => Some (cleanIgnoreValueDisplay (JStr s))
  | None =>
  match labelled (RClass (one_of "?&") ⋅ liti "family=")%re ("&:;" +:+ s_nl) text with
  | Some s => Some (cleanIgnoreValueDisplay (JStr (default s (decodeURIComponent s))))
  | None => None
  end end end end.

Fixpoint first_value (rule : string) (candidates : list string) : string :=
  match candidates with
  | [] => ""
  | text :: candidates =>
    if String.eqb rule "bounce-easing" then
      let motion := extractMotionIgnoreValue text in
      if String.eqb motion "" then first_value rule candidates else motion
    else match font_of text with Some value => value | None => first_value rule candidates end
  end.

Definition nonempty (v : js) : option string := match v with JStr s => if String.eqb s "" then None else Some s | _ => None end.

Definition extractFindingIgnoreValueRaw (finding : js) (rule : string) : string :=
  let direct := cleanIgnoreValueDisplay (finding.["ignoreValue"] ||? finding.["value"] ||? JStr "") in
  if negb (String.eqb direct "") then direct
  else first_value rule (omap nonempty [finding.["detail"]; finding.["snippet"]]).

Definition directValueRules : list string :=
  ["overused-font"; "bounce-easing"; "design-system-font"; "design-system-color"; "design-system-radius"; "design-system-font-size"].
Definition extractFindingIgnoreValue (finding : js) : string :=
  if negb (truthy finding && is_objecty finding) then "" else
  let rule := normalizeIgnoreRule finding.["antipattern"] in
  if negb (has_str directValueRules (JStr rule)) then ""
  else normalizeIgnoreValue (JStr (extractFindingIgnoreValueRaw finding rule)).

(** ** Filtering *)

Definition ignoreValueMatches (rule entryValue findingValue : string) : bool :=
  String.eqb entryValue findingValue ||
  (String.eqb rule "design-system-color" && negb (String.eqb (colorIgnoreKey entryValue) "")
   && String.eqb (colorIgnoreKey entryValue) (colorIgnoreKey findingValue)).

Definition findingMatchesScopedIgnoreFile (finding globs : js) : bool :=
  let filePath := trim (to_str (opt_get finding "file" ||? JStr "")) in
  if String.eqb filePath "" then false else
  matchesAnyGlob (JStr filePath) globs ||
  (let parts := bfilter (fun s => negb (String.eqb s "")) (split_char SLASH filePath) in
   existsb (fun i => matchesAnyGlob (JStr (join "/" (drop i parts))) globs) (seq 0 (length parts))).

(** [entry]: a normalized entry. *)
Definition entry_waives (finding : js) (rule value : string) (entry : js) : bool :=
  let entryValue := to_str entry.["value"] in
  let wildcardValue := String.eqb entryValue "*" in
  if negb (entry.["rule"] === JStr rule) then false else
  if negb wildcardValue && (String.eqb value "" || negb (ignoreValueMatches rule entryValue value)) then false else
  match entry.["files"] with
  | JArr (_ :: _) => findingMatchesScopedIgnoreFile finding entry.["files"]
  | _ => negb wildcardValue
  end.

Definition isIgnoredFindingValue (finding : js) (ignoreValues : list js) : bool :=
  let rule := normalizeIgnoreRule finding.["antipattern"] in
  if String.eqb rule "" then false else
  existsb (entry_waives finding rule (extractFindingIgnoreValue finding)) ignoreValues.

Definition kept (ignoreRules : list string) (ignoreValues : list js) (finding : js) : bool :=
  truthy finding && is_objecty finding
  && negb (has_str ignoreRules (JStr (normalizeIgnoreRule finding.["antipattern"])))
  && negb (isIgnoredFindingValue finding ignoreValues).

Definition rules_of (config : js) : result (list string) :=
  match opt_get config "ignoreRules" ||? JArr [] with
  | JArr l => Ok (normalizeIgnoreRule <$> l)
  | _ => Throw (error "map is not a function")
  end.
Definition filterDetectionFindings (findings config : js) : result (list js) :=
  match findings with
  | JArr ((_ :: _) as l) =>
    ignoreRules ← rules_of config;
    mret (bfilter (kept ignoreRules (normalizeIgnoreValueEntries (opt_get config "ignoreValues" ||? JArr []))) l)
  | _ => mret []
  end.

Definition shouldIgnoreDetectionFile (filePath : js) (root : string) (config : js) : bool :=
  match opt_get config "ignoreFiles" ||? JArr [] with
  | JArr (_ :: _) as globs =>
    let raw := trim (to_str (filePath ||? JStr "")) in
    if String.eqb raw "" then false else
    if matchesAnyGlob (JStr raw) globs then true else
    let abs := if is_absolute raw then raw else resolve root raw in
    if matchesAnyGlob (JStr abs) globs then true else
    let rel := relative root abs in
    if negb (String.eqb rel "") && negb (starts_with ".." rel) && negb (is_absolute rel) then matchesAnyGlob (JStr rel) globs else false
  | _ => false
  end.
End Config.

(** * Theorems *)

(** ** The exclude file *)

Lemma starts_with_long o u w w' : (slen o <= slen u)%nat -> starts_with o (u +:+ w) = starts_with o (u +:+ w').
Proof.
  revert u; induction o as [|c o IH]; intros u Hl; [by destruct u|]. destruct u as [|d u]; [simpl in Hl; lia|].
  simpl in *. rewrite (IH u); [done|lia].
Qed.

(** The first occurrence does not depend on what comes after it. *)
Lemma index_of_stable o a r r' : index_of o (a +:+ o +:+ r) = Some (slen a) -> index_of o (a +:+ o +:+ r') = Some (slen a).
Proof.
  induction a as [|x a IH].
  - intros _. assert (starts_with o (o +:+ r') = true) as H by apply starts_with_app. cbn [append]. destruct (o +:+ r'); cbn [index_of]; by rewrite H.
  - cbn [append index_of String.length]. pose proof (starts_with_long o (String x (a +:+ o)) r r') as Hs. cbn [append String.length] in Hs.
    rewrite !sapp_assoc in Hs. rewrite Hs by (rewrite slen_app; lia). destruct (starts_with o (String x (a +:+ o +:+ r'))); [by intros [=]|].
    destruct (index_of o (a +:+ o +:+ r)) as [i|]; [|by intros [=]]. intros [= ->]. by rewrite IH.
Qed.

Lemma starts_with_line o p w : no_char NL o = true -> starts_with o (p +:+ String NL w) = starts_with o p.
Proof.
  revert p; induction o as [|c o IH]; intros p Ho; [by destruct p|]. unfold no_char in *. cbn [sforall] in Ho.
  apply andb_true_iff in Ho as [Hc Ho]. apply negb_true_iff in Hc. destruct p as [|d p]; cbn [append starts_with]; [by rewrite Hc|].
  by rewrite IH.
Qed.

(** A marker on a line of its own is found where it was put. *)
Lemma index_of_line o p r : no_char NL o = true -> index_of o p = None -> index_of o (p +:+ String NL (o +:+ r)) = Some (S (slen p)).
Proof.
  intros Ho. induction p as [|x p IH].
  - intros Hp. cbn [append index_of String.length]. destruct o as [|c o]; [done|].
    assert (starts_with (String c o) (String NL (String c o +:+ r)) = false) as ->.
    { cbn [starts_with]. unfold no_char in Ho. cbn [sforall] in Ho. apply andb_true_iff in Ho as [Hc _]. apply negb_true_iff in Hc. by rewrite Hc. }
    pose proof (index_of_stable (String c o) "" r r) as H. cbn [append] in *. cbn [index_of].
    pose proof (starts_with_app (String c o) r) as Hs. cbn [append] in Hs. by rewrite Hs.
  - cbn [append index_of String.length]. pose proof (starts_with_line o (String x p) (o +:+ r) Ho) as Hs. cbn [append] in Hs. rewrite Hs.
    destruct (starts_with o (String x p)); [done|]. intros Hp. destruct (index_of o p) eqn:E; [done|]. by rewrite IH.
Qed.

Definition block_body : string := s_nl +:+ join s_nl EXCLUDE_PATTERNS +:+ s_nl.
Lemma exclude_block_eq : exclude_block = EXCLUDE_OPEN +:+ block_body +:+ EXCLUDE_CLOSE.
Proof. reflexivity. Qed.
Lemma close_after_body b : index_of EXCLUDE_CLOSE (block_body +:+ EXCLUDE_CLOSE +:+ b) = Some (slen block_body).
Proof. by destruct b. Qed.

Lemma block_split_spec o c s a mid b : block_split o c s = Some (a, mid, b) ->
  s = a +:+ o +:+ mid +:+ c +:+ b /\ index_of o s = Some (slen a).
Proof.
  unfold block_split. destruct (index_of o s) as [i|] eqn:Ei; [|done]. cbn [mbind option_bind].
  destruct (index_of c (sdrop (i + slen o) s)) as [j|] eqn:Ej; [|done]. cbn [mbind option_bind]. intros [= <- <- <-].
  apply index_of_Some in Ei as (x & y & -> & <-). rewrite sdrop_add, !sdrop_app in *. apply index_of_Some in Ej as (u & v & -> & <-).
  rewrite sdrop_add, !stake_app, !sdrop_app. done.
Qed.

(** Where the block is, and what is around it. *)
Lemma block_found a b : index_of EXCLUDE_OPEN (a +:+ exclude_block +:+ b) = Some (slen a) ->
  block_split EXCLUDE_OPEN EXCLUDE_CLOSE (a +:+ exclude_block +:+ b) = Some (a, block_body, b).
Proof.
  intros H. unfold block_split. rewrite H. cbn [mbind option_bind]. rewrite sdrop_add, sdrop_app, exclude_block_eq, !sapp_assoc, sdrop_app.
  rewrite close_after_body. cbn [mbind option_bind]. by rewrite sdrop_add, !stake_app, !sdrop_app.
Qed.

(** The text written: the block with what was around the old one, or after what was there. *)
Lemma exclude_text_spec t : index_of EXCLUDE_OPEN t = None \/ is_Some (block_split EXCLUDE_OPEN EXCLUDE_CLOSE t) ->
  exists a b, exclude_text t = a +:+ exclude_block +:+ b /\
    ((exists mid, t = a +:+ EXCLUDE_OPEN +:+ mid +:+ EXCLUDE_CLOSE +:+ b) \/ a = t \/ a = t +:+ s_nl) /\
    index_of EXCLUDE_OPEN (exclude_text t) = Some (slen a).
Proof.
  unfold exclude_text. change markerRe with (block_re EXCLUDE_OPEN EXCLUDE_CLOSE). rewrite test_block, replace_block.
  destruct (block_split EXCLUDE_OPEN EXCLUDE_CLOSE t) as [[[a mid] b]|] eqn:E.
  - intros _. rewrite bool_decide_true by eauto. apply block_split_spec in E as [-> Hi]. exists a, b. split_and!; [done|eauto|].
    rewrite exclude_block_eq, !sapp_assoc. by apply (index_of_stable _ _ (mid +:+ EXCLUDE_CLOSE +:+ b)).
  - intros [Hi|[? [=]]]. rewrite bool_decide_false by (intros [? [=]]).
    destruct (String.eqb_spec t "") as [->|Hne]; [exists "", s_nl; by split_and!; [|right; left|]|].
    destruct (ends_with s_nl t) eqn:Ee.
    + apply ends_with_iff in Ee as [p ->]. exists (p +:+ s_nl), s_nl. split_and!; [done|by right; left|].
      rewrite slen_app. cbn [String.length s_nl]. rewrite Nat.add_1_r. rewrite !sapp_assoc. cbn [append s_nl]. rewrite exclude_block_eq, !sapp_assoc.
      apply index_of_line; [done|]. clear -Hi. induction p as [|x p IH]; [done|]. cbn [append index_of] in Hi.
      pose proof (starts_with_line EXCLUDE_OPEN (String x p) "" eq_refl) as Hs. cbn [append] in Hs. unfold s_nl in Hi. rewrite Hs in Hi. cbn [index_of].
      destruct (starts_with EXCLUDE_OPEN (String x p)); [done|]. rewrite IH; [done|]. by destruct (index_of EXCLUDE_OPEN (p +:+ _)).
    + exists (t +:+ s_nl), s_nl. split_and!; [done|by right; right|].
      rewrite slen_app. cbn [String.length s_nl]. rewrite Nat.add_1_r. rewrite !sapp_assoc. cbn [append s_nl]. rewrite exclude_block_eq, !sapp_assoc.
      by apply index_of_line.
Qed.

Lemma exclude_text_again t : index_of EXCLUDE_OPEN t = None \/ is_Some (block_split EXCLUDE_OPEN EXCLUDE_CLOSE t) ->
  exclude_text (exclude_text t) = exclude_text t.
Proof.
  intros H. destruct (exclude_text_spec t H) as (a & b & E & _ & Hi). rewrite E in *. apply block_found in Hi.
  unfold exclude_text. change markerRe with (block_re EXCLUDE_OPEN EXCLUDE_CLOSE). rewrite test_block, replace_block, Hi.
  by rewrite bool_decide_true by eauto.
Qed.

(** The file that git reads in an ordinary checkout. *)
Definition exclude_file (root : string) : string := path_join [path_join [root; ".git"]; "info"; "exclude"].

Lemma resolve_checkout root s : is_dir (path_join [root; ".git"]) s = true ->
  resolveGitDir root s = (Ok (Some (path_join [root; ".git"])), s).
Proof.
  intros Hd. unfold resolveGitDir, mbind, eff_bind, get, existsSync. rewrite Hd, orb_true_r. cbn [negb]. by rewrite Hd.
Qed.

(** What the call does in an ordinary checkout. *)
Lemma ensure_eq root s : is_dir (path_join [root; ".git"]) s = true ->
  let t := default "" (f_text s !! exclude_file root) in
  is_dir (exclude_file root) (mkdirp (dirname (exclude_file root)) s).2 = false ->
  ensureConfigGitExclude root s = (Ok true,
    if String.eqb (exclude_text t) t then s
    else set_text (<[exclude_file root := exclude_text t]> (f_text s)) (mkdirp (dirname (exclude_file root)) s).2).
Proof.
  intros Hd t Hnd. unfold ensureConfigGitExclude, attempt, mbind, eff_bind, get. rewrite resolve_checkout by done.
  cbn beta iota zeta. fold (exclude_file root). unfold existsSync.
  assert (is_dir (exclude_file root) s = false) as Hnd0.
  { unfold mkdirp, upd, is_dir in *. cbn [snd f_dirs] in Hnd. apply bool_decide_eq_false in Hnd. apply bool_decide_eq_false.
    intros H. by apply Hnd, elem_of_union_l. }
  assert ((if bool_decide (is_Some (f_text s !! exclude_file root)) || is_dir (exclude_file root) s
           then readFileSync (exclude_file root) else mret "") s = (Ok t, s)) as ->.
  { rewrite Hnd0, orb_false_r. unfold t, readFileSync. destruct (f_text s !! exclude_file root) eqn:E.
    - by rewrite bool_decide_true by eauto; cbn; rewrite E.
    - by rewrite bool_decide_false by (intros [? ?]; done). }
  cbn beta iota. unfold run_if. destruct (String.eqb (exclude_text t) t); [done|]. cbn [negb].
  unfold mbind, eff_bind. destruct (mkdirp _ s) as [[[]|e] s1] eqn:Em; [|by unfold mkdirp, upd in Em].
  cbn [snd] in Hnd. unfold writeFileSync. rewrite Hnd. cbn. do 2 f_equal. unfold mkdirp, upd in Em. by injection Em as <-.
Qed.

(** The local configuration is kept out of git, once: in an ordinary checkout the call leaves the exclude
    file with the block that names [config.local.json], keeps every character the file had
    outside an older block - at most a final newline is added -, touches no other file, and a second call
    changes nothing. The condition leaves out a file with an opening marker and no
    closing one. *)
Theorem exclude_written_once root s : is_dir (path_join [root; ".git"]) s = true ->
  let t := default "" (f_text s !! exclude_file root) in
  is_dir (exclude_file root) (mkdirp (dirname (exclude_file root)) s).2 = false ->
  index_of EXCLUDE_OPEN t = None \/ is_Some (block_split EXCLUDE_OPEN EXCLUDE_CLOSE t) ->
  exists s1 a b, ensureConfigGitExclude root s = (Ok true, s1) /\
    f_text s1 !! exclude_file root = Some (a +:+ exclude_block +:+ b) /\
    ((exists mid, t = a +:+ EXCLUDE_OPEN +:+ mid +:+ EXCLUDE_CLOSE +:+ b) \/ a = t \/ a = t +:+ s_nl) /\
    (forall p, p <> exclude_file root -> f_text s1 !! p = f_text s !! p) /\
    ensureConfigGitExclude root s1 = (Ok true, s1).
Proof.
  intros Hd t Hnd Ht. destruct (exclude_text_spec t Ht) as (a & b & E & Hkeep & _).
  pose proof (exclude_text_again t Ht) as Hagain. pose proof (ensure_eq root s Hd Hnd) as Hcall. fold t in Hcall. cbn zeta in Hcall.
  destruct (String.eqb_spec (exclude_text t) t) as [Et|Hne].
  - exists s, a, b. split_and!; [done| |done|done|done].
    rewrite Et in E. subst t. destruct (f_text s !! exclude_file root) as [u|]; [by rewrite <- E|]. by destruct a.
  - eexists _, a, b. split; [exact Hcall|]. split_and!; [|done| |].
    + cbn [f_text set_text]. by rewrite lookup_insert_eq, E.
    + intros p Hp. cbn [f_text set_text]. by rewrite lookup_insert_ne.
    + set (s1 := set_text _ _). assert (default "" (f_text s1 !! exclude_file root) = exclude_text t) as E1.
      { unfold s1. cbn [f_text set_text]. by rewrite lookup_insert_eq. }
      rewrite ensure_eq.
      * rewrite E1, Hagain, String.eqb_refl. done.
      * unfold s1, is_dir, mkdirp, upd in *. cbn [f_dirs set_text snd] in *. apply bool_decide_eq_true in Hd. apply bool_decide_eq_true. by apply elem_of_union_l.
      * unfold s1, is_dir, mkdirp, upd in *. cbn [f_dirs set_text snd] in *. apply bool_decide_eq_false in Hnd. apply bool_decide_eq_false.
        intros [H|H]%elem_of_union; apply Hnd; [done|by apply elem_of_union_r].
Qed.

(** ** What JSON files hold *)

(** A value as [JSON.parse] returns it. *)
Definition parsed (v : js) : Prop := json_ok v /\ json_norm v = v.

Lemma parsed_obj o : parsed (JObj o) <-> NoDup (keys o) /\ Forall (fun kv => is_undef kv.2 = false /\ parsed kv.2) o.
Proof.
  unfold parsed. rewrite json_ok_obj, json_norm_obj. unfold live_props. split.
  - intros [[Hn Hok] Heq]. split; [done|]. injection Heq as Heq. clear Hn. induction o as [|[k x] o IH]; [done|].
    inversion Hok as [|? ? Hx Ho]; subst. cbn [bfilter snd] in Heq. destruct (is_undef x) eqn:Eu; cbn [negb fmap list_fmap] in Heq.
    + apply (f_equal length) in Heq. rewrite length_fmap in Heq. cbn [length] in Heq.
      pose proof (sublist_length _ _ (bfilter_sublist (fun kv : string * js => negb (is_undef kv.2)) o)). lia.
    + injection Heq as Hxn Ho'. constructor; [done|]. by apply IH.
  - intros [Hn Ho]. split; [split; [done|]; by eapply Forall_impl; [exact Ho|]; intros ? [_ [? _]]|]. f_equal. clear Hn.
    induction Ho as [|[k x] o [Hu [_ Hx]] Ho IH]; [done|]. cbn [bfilter snd] in *. rewrite Hu. cbn [negb fmap list_fmap fst snd]. by rewrite Hx, IH.
Qed.

Lemma Forall_assoc_set {A} (P : string * A -> Prop) k v l : P (k, v) -> Forall P l -> Forall P (assoc_set k v l).
Proof. intros Hp. induction 1 as [|[k' v'] l H Hl IH]; cbn [assoc_set]; [by repeat constructor|]. destruct (String.eqb_spec k k') as [->|]; by constructor. Qed.
Lemma assoc_set_twice {A} k (v w : A) l : assoc_set k v (assoc_set k w l) = assoc_set k v l.
Proof.
  induction l as [|[k' v'] l IH]; simpl; [by rewrite String.eqb_refl|].
  destruct (String.eqb_spec k k') as [->|Hk]; simpl; [by rewrite String.eqb_refl|]. apply String.eqb_neq in Hk. by rewrite Hk, IH.
Qed.
Lemma Forall_assoc_merge {A} (P : string * A -> Prop) extra : forall l, Forall P l -> Forall P extra -> Forall P (assoc_merge l extra).
Proof.
  unfold assoc_merge. induction extra as [|[k v] extra IH]; intros l Hl He; [done|]. inversion He; subst. cbn [foldl fst snd].
  apply IH; [by apply Forall_assoc_set|done].
Qed.
Lemma parsed_spread o extra : parsed (JObj o) -> Forall (fun kv => is_undef kv.2 = false /\ parsed kv.2) extra -> parsed (spread_with (JObj o) extra).
Proof.
  intros [Hn Ho]%parsed_obj He. apply parsed_obj. split; [by apply assoc_merge_NoDup|by apply Forall_assoc_merge].
Qed.
Lemma parsed_get o k : parsed (JObj o) -> is_undef (JObj o).[k] = false -> parsed (JObj o).[k].
Proof.
  intros [_ Ho]%parsed_obj. cbn [jget]. destruct (assoc_get k o) as [x|] eqn:E; [|done]. intros _.
  apply assoc_get_In, list_elem_of_In in E. rewrite Forall_forall in Ho. exact (proj2 (Ho (k, x) E)).
Qed.

Lemma safeReadJson_eq p s : exists v, safeReadJson p s = (Ok v, s) /\ (v = JNull \/ plain_object v = true).
Proof.
  unfold safeReadJson, attempt, mbind, eff_bind, readFileSync. destruct (f_text s !! p) as [t|]; [|by exists JNull; auto].
  destruct (json_parse t) as [v|]; [|by exists JNull; auto]. destruct (plain_object v) eqn:E; eexists; auto.
Qed.
Lemma safeReadJson_text p s s' : f_text s !! p = f_text s' !! p -> (safeReadJson p s).1 = (safeReadJson p s').1.
Proof.
  intros E. unfold safeReadJson, attempt, mbind, eff_bind, readFileSync. rewrite E.
  destruct (f_text s' !! p) as [t|]; [by destruct (json_parse t)|]. done.
Qed.

(** A JSON object written is the object read back. *)
Lemma write_json_read p o s : parsed (JObj o) -> is_dir p (mkdirp (dirname p) s).2 = false ->
  exists s1, write_json p (JObj o) s = (Ok tt, s1) /\ safeReadJson p s1 = (Ok (JObj o), s1) /\
    (forall q, q <> p -> f_text s1 !! q = f_text s !! q) /\ (forall d, is_dir d s = true -> is_dir d s1 = true).
Proof.
  intros [Hok Hn] Hd. unfold write_json, mbind, eff_bind. destruct (mkdirp (dirname p) s) as [[[]|e] s0] eqn:Em; [|done]. cbn [snd] in Hd.
  unfold writeFileSync. rewrite Hd. eexists. split; [reflexivity|]. injection Em as <-. split_and!.
  - unfold safeReadJson, attempt, mbind, eff_bind, readFileSync. cbn [f_text set_text]. rewrite lookup_insert_eq.
    unfold json_stringify2. by rewrite parse_print_nl, Hn.
  - intros q Hq. cbn [f_text set_text]. by rewrite lookup_insert_ne.
  - intros d H. unfold is_dir in *. cbn [f_dirs set_text]. apply bool_decide_eq_true in H. apply bool_decide_eq_true. by apply elem_of_union_l.
Qed.

(** In an ordinary checkout only the exclude file is touched. *)
Lemma ensure_touches root s q : is_dir (path_join [root; ".git"]) s = true -> q <> exclude_file root ->
  f_text (ensureConfigGitExclude root s).2 !! q = f_text s !! q.
Proof.
  intros Hd Hq. unfold ensureConfigGitExclude, attempt, mbind, eff_bind, get. rewrite resolve_checkout by done.
  cbn beta iota zeta. fold (exclude_file root). unfold existsSync, readFileSync, run_if, writeFileSync, mkdirp, upd, mret, eff_ret.
  repeat (case_match; simplify_eq; cbn [snd f_text set_text] in *; try done; try by rewrite ?lookup_insert_ne).
Qed.

Lemma attempt_ok {S A} (m : eff S A) h s : (forall e s', exists a, (h e s').1 = Ok a) -> exists a, (attempt m h s).1 = Ok a.
Proof. intros H. unfold attempt. destruct (m s) as [[a|e] s']; [by exists a|apply H]. Qed.

Lemma plain_object_obj v : plain_object v = true -> exists o, v = JObj o.
Proof.
  unfold plain_object. destruct v as [| | | | |l|o]; cbn [is_objecty is_array negb]; rewrite ?andb_false_r; try discriminate; eauto.
Qed.
Lemma safeReadJson_obj p s v : (safeReadJson p s).1 = Ok v -> exists o, (v ||? JObj []) = JObj o /\ (v = JNull \/ v = JObj o).
Proof.
  intros H. destruct (safeReadJson_eq p s) as (v' & E & Hv). rewrite E in H. injection H as ->.
  destruct Hv as [->|Hp]; [exists []; auto|]. apply plain_object_obj in Hp as [o ->]. exists o. auto.
Qed.

(** A recorded decision is found again and nothing else changes: in an ordinary checkout, after the decision is
    stored in the local configuration, reading it back gives that decision whatever the shared
    file says, and the local file holds what it held before with only
    [hook.consent] set. *)
Theorem consent_recorded root value existing s : (value = JStr "accepted" \/ value = JStr "declined") ->
  is_dir (path_join [root; ".git"]) s = true -> exclude_file root <> getLocalConfigPath root ->
  getConfigPath root <> getLocalConfigPath root ->
  (safeReadJson (getLocalConfigPath root) s).1 = Ok existing -> parsed (existing ||? JObj []) ->
  is_dir (getLocalConfigPath root) (mkdirp (dirname (getLocalConfigPath root)) s).2 = false ->
  exists s1, setHookConsent root value s = (Ok (getLocalConfigPath root), s1) /\
    (getHookConsent root s1).1 = Ok value /\
    (safeReadJson (getLocalConfigPath root) s1).1 =
      Ok (spread_with (existing ||? JObj []) [("hook", spread_with (hookSection (existing ||? JObj []) ||? JObj []) [("consent", value)])]).
Proof.
  intros Hv Hgit Hne Hne2 Hread Hp Hd. unfold setHookConsent, mbind, eff_bind.
  destruct (safeReadJson_eq (getLocalConfigPath root) s) as (v' & E & _). rewrite E in Hread |- *. injection Hread as ->. cbn beta iota zeta.
  destruct (safeReadJson_obj (getLocalConfigPath root) s existing) as (o & Eo & _); [by rewrite E|]. rewrite Eo in *.
  set (hook := hookSection (JObj o) ||? JObj []).
  assert (exists h, hook = JObj h /\ parsed (JObj h)) as (h & Eh & Hh).
  { unfold hook, hookSection. cbn [truthy]. destruct (plain_object (JObj o).["hook"]) eqn:Eph; [|by exists []; split; [|apply parsed_obj; split; [constructor|]]].
    pose proof (parsed_get o "hook" Hp) as Hpg. apply plain_object_obj in Eph as [h Eph]. rewrite Eph in Hpg |- *.
    exists h. split; [done|]. by apply Hpg. }
  rewrite Eh.
  assert (is_undef value = false /\ parsed value) as Hval by (destruct Hv as [->| ->]; (split; [done|by split])).
  set (next := [("hook", spread_with (JObj h) [("consent", value)])]).
  assert (parsed (spread_with (JObj o) next)) as Hnext.
  { apply parsed_spread; [done|]. apply Forall_singleton. split; [done|]. apply parsed_spread; [done|]. by apply Forall_singleton. }
  destruct (write_json_read _ (assoc_merge o next) s Hnext Hd) as (s1 & Ew & Hs1 & Hother & Hdirs).
  change (JObj (assoc_merge o next)) with (spread_with (JObj o) next) in Ew, Hs1. rewrite Ew. cbn beta iota.
  pose proof (ensure_touches root s1 (getLocalConfigPath root) (Hdirs _ Hgit) ltac:(done)) as Ht.
  assert (exists b, (ensureConfigGitExclude root s1).1 = Ok b) as [b Eb].
  { apply attempt_ok. intros e s'. by eexists. }
  destruct (ensureConfigGitExclude root s1) as [r s2]. cbn [fst snd] in Ht, Eb. subst r. eexists. split; [reflexivity|].
  assert ((safeReadJson (getLocalConfigPath root) s2).1 = Ok (spread_with (JObj o) next)) as Hfinal
    by by rewrite (safeReadJson_text _ _ _ Ht), Hs1.
  split; [|exact Hfinal]. unfold getHookConsent, mbind, eff_bind.
  destruct (safeReadJson_eq (getConfigPath root) s2) as (shared & -> & _). cbn beta iota zeta.
  destruct (safeReadJson_eq (getLocalConfigPath root) s2) as (v' & E' & _). rewrite E' in Hfinal |- *. injection Hfinal as ->.
  cbn [fst]. f_equal. unfold consent_of, hookSection.
  assert ((spread_with (JObj o) next).["hook"] = spread_with (JObj h) [("consent", value)]) as Ehook.
  { unfold next, spread_with, assoc_merge. cbn [own_props foldl fst snd jget]. by rewrite assoc_get_set_eq. }
  rewrite Ehook. unfold plain_object, spread_with, assoc_merge. cbn [own_props foldl fst snd jget truthy is_objecty is_array andb negb typeof].
  rewrite assoc_get_set_eq. cbn [from_option]. by destruct Hv as [->| ->].
Qed.

(** ** Writing and reading the filters *)

Lemma uniq_snoc_spec (l : list string) : forall acc : list string, NoDup acc ->
  NoDup (foldl (fun acc x => if bool_decide (x ∈ acc) then acc else acc ++ [x]) acc l) /\
  (NoDup (acc ++ l) -> foldl (fun acc x => if bool_decide (x ∈ acc) then acc else acc ++ [x]) acc l = acc ++ l).
Proof.
  induction l as [|x l IH]; intros acc Hacc; cbn [foldl]; [by rewrite app_nil_r|]. destruct (bool_decide (x ∈ acc)) eqn:E.
  - apply bool_decide_eq_true in E. split; [by apply IH|]. intros (_ & Hd & _)%NoDup_app. exfalso. by apply (Hd x E), elem_of_cons; left.
  - apply bool_decide_eq_false in E. assert (NoDup (acc ++ [x])) as H.
    { apply NoDup_app. split_and!; [done| |by apply NoDup_singleton]. by intros y Hy ->%list_elem_of_singleton. }
    split; [by apply IH|]. intros Hd. change (acc ++ x :: l) with (acc ++ [x] ++ l) in *. rewrite app_assoc in *. by apply IH.
Qed.
Lemma uniq_NoDup l : NoDup (uniq l).
Proof. apply uniq_snoc_spec. constructor. Qed.
Lemma uniq_id l : NoDup l -> uniq l = l.
Proof. intros H. by apply (uniq_snoc_spec l []); [constructor|]. Qed.
Lemma strings_read l : uniqueStrings (JStr <$> uniq l) = uniq l.
Proof.
  unfold uniqueStrings. rewrite <- list_fmap_compose. rewrite (list_fmap_ext _ id), list_fmap_id by done.
  apply uniq_id, uniq_NoDup.
Qed.

Lemma set_entries_fresh l : forall m, NoDup (keys m ++ (entry_key <$> l)) -> (set_entries l m).*2 = m.*2 ++ l.
Proof.
  induction l as [|e l IH]; intros m Hn; cbn [set_entries foldl]; [by rewrite app_nil_r|]. unfold set_entries in IH.
  rewrite fmap_cons in Hn. assert (assoc_get (entry_key e) m = None) as Hf.
  { apply assoc_get_None. intros Hin. apply NoDup_app in Hn as (_ & Hd & _). by apply (Hd _ Hin), elem_of_cons; left. }
  rewrite (assoc_set_fresh _ _ _ Hf), IH.
  - by rewrite fmap_app, <- app_assoc.
  - by rewrite keys_app, <- app_assoc.
Qed.
Lemma merge_stable l : normalizeIgnoreValueEntries (JArr l) = l -> NoDup (entry_key <$> l) -> mergeIgnoreValues (JArr []) (JArr l) = l.
Proof. intros Hs Hn. unfold mergeIgnoreValues. rewrite Hs. by rewrite set_entries_fresh. Qed.

Lemma parsed_str s : parsed (JStr s).
Proof. by split. Qed.
Lemma parsed_arr l : Forall parsed l -> parsed (JArr l).
Proof.
  intros H. split; [apply json_ok_arr; by eapply Forall_impl; [exact H|]; intros ? [? _]|]. cbn [json_norm]. f_equal.
  induction H as [|x l [_ Hx] H IH]; [done|]. by rewrite fmap_cons, Hx, IH.
Qed.
Lemma parsed_strings l : parsed (strings l).
Proof. apply parsed_arr, Forall_fmap, Forall_forall. intros s _. apply parsed_str. Qed.
Lemma parsed_entry e x : normalize_entry e = Some x -> parsed x.
Proof.
  unfold normalize_entry. destruct (negb _); [done|]. destruct (_ || _); [done|]. cbn zeta. intros [= <-]. apply parsed_obj.
  destruct (0 <? _)%nat, (nonblank e.["createdAt"]), (nonblank e.["reason"]); cbn [optional app keys fmap list_fmap fst];
    (split; [apply (bool_decide_unpack _); vm_compute; exact I|]); repeat constructor; cbn [snd]; try apply parsed_str; apply parsed_strings.
Qed.
Lemma parsed_entries v : parsed (JArr (normalizeIgnoreValueEntries v)).
Proof.
  apply parsed_arr, Forall_forall. intros x (e & _ & He)%list_elem_of_omap. by eapply parsed_entry.
Qed.

(** What is stored of a configuration. *)
Definition stored_rules (rules : list js) : list string := uniq (bfilter (fun s => negb (String.eqb s "")) (normalizeIgnoreRule <$> rules)).
Definition stored_files (files : list js) : list string := uniq (omap nonblank files).

Lemma stored_parts cfg rules files :
  opt_get cfg "ignoreRules" = JArr rules -> opt_get cfg "ignoreFiles" = JArr files ->
  exists o, normalizeDetectionConfigForWrite cfg = JObj o /\ parsed (JObj o) /\
    assoc_get "ignoreRules" o = Some (strings (stored_rules rules)) /\ assoc_get "ignoreFiles" o = Some (strings (stored_files files)) /\
    assoc_get "ignoreValues" o = Some (JArr (normalizeIgnoreValueEntries (opt_get cfg "ignoreValues" ||? JArr []))).
Proof.
  intros E1 E2. unfold normalizeDetectionConfigForWrite. rewrite E1, E2. cbv zeta.
  set (E := JArr (normalizeIgnoreValueEntries _)). assert (parsed E) as HE by apply parsed_entries.
  assert (negb (nullish cfg) && advisory_setting cfg = true -> is_undef cfg.["advisoryRules"] = false /\ parsed cfg.["advisoryRules"]) as Hadv.
  { intros [_ H]%andb_true_iff. unfold advisory_setting in H. apply orb_true_iff in H as [->%strict_eq_str| ->%strict_eq_str];
      (split; [done|apply parsed_str]). }
  assert (forall b, parsed (JObj [("enabled", JBool b)])) as Hds.
  { intros b. apply parsed_obj. split; [apply (bool_decide_unpack _); vm_compute; exact I|by repeat constructor]. }
  assert (forall extra, NoDup (["ignoreRules"; "ignoreFiles"; "ignoreValues"] ++ keys extra) ->
    Forall (fun kv => is_undef kv.2 = false /\ parsed kv.2) extra ->
    parsed (JObj ([("ignoreRules", strings (stored_rules rules)); ("ignoreFiles", strings (stored_files files)); ("ignoreValues", E)] ++ extra))) as Hall.
  { intros extra Hn He. apply parsed_obj. split; [exact Hn|]. repeat (apply Forall_cons; split; [split; [done|]|]); [apply parsed_strings..|exact HE|exact He]. }
  destruct (negb (nullish cfg) && advisory_setting cfg); [specialize (Hadv eq_refl)|clear Hadv];
    destruct (plain_object (opt_get cfg "designSystem"));
    (eexists; split; [reflexivity|]; split; [|by split_and!]).
  - apply (Hall [("advisoryRules", _); ("designSystem", _)]); [apply (bool_decide_unpack _); vm_compute; exact I|].
    apply Forall_cons; split; [exact Hadv|]. apply Forall_singleton. split; [done|apply Hds].
  - apply (Hall [("advisoryRules", _)]); [apply (bool_decide_unpack _); vm_compute; exact I|]. by apply Forall_singleton.
  - apply (Hall [("designSystem", _)]); [apply (bool_decide_unpack _); vm_compute; exact I|]. apply Forall_singleton. split; [done|apply Hds].
  - apply (Hall []); [apply (bool_decide_unpack _); vm_compute; exact I|constructor].
Qed.

Lemma stripped_get k h : k ∈ DETECTOR_CONFIG_KEYS ->
  assoc_get k (bfilter (fun kv : string * js => negb (has_str DETECTOR_CONFIG_KEYS (JStr kv.1))) h) = None.
Proof.
  intros Hk. apply assoc_get_None. intros (kv & -> & [_ Hn]%bfilter_elem_of)%list_elem_of_fmap. apply negb_true_iff in Hn.
  assert (has_str DETECTOR_CONFIG_KEYS (JStr kv.1) = true) as H by (apply has_str_iff; eauto). congruence.
Qed.

(** A source without detector keys changes nothing. *)
Lemma source_inert config h : (forall k, k ∈ DETECTOR_CONFIG_KEYS -> assoc_get k h = None) -> applyDetectionConfigSource config (JObj h) = config.
Proof.
  intros Hh. unfold applyDetectionConfigSource, advisory_setting. cbn [truthy is_objecty andb negb jget].
  by rewrite !Hh by (unfold DETECTOR_CONFIG_KEYS; set_solver).
Qed.

Lemma parsed_sub o o' : parsed (JObj o) -> o' `sublist_of` o -> parsed (JObj o').
Proof.
  intros [Hn Ho]%parsed_obj Hsub. apply parsed_obj. split.
  - eapply sublist_NoDup; [exact Hn|]. unfold keys. by rewrite Hsub.
  - rewrite Forall_forall in *. intros kv Hkv. apply Ho. by eapply elem_of_sublist.
Qed.

Lemma parsed_set o k x : parsed (JObj o) -> is_undef x = false -> parsed x -> parsed (JObj (assoc_set k x o)).
Proof. intros Ho Hu Hx. apply (parsed_spread o [(k, x)] Ho). by apply Forall_singleton. Qed.
Lemma assoc_del_sublist {A} k (l : list (string * A)) : assoc_del k l `sublist_of` l.
Proof. induction l as [|[k' v] l IH]; cbn [assoc_del]; [done|]. destruct (String.eqb k k'); by constructor. Qed.

Lemma detectorSection_obj o d : assoc_get "detector" o = Some (JObj d) -> detectorSection (JObj o) = JObj d.
Proof. intros E. unfold detectorSection. cbn [truthy jget]. rewrite E. done. Qed.

(** The file written: the filters under [detector], none left under [hook], the rest as it was. *)
Lemma next_config_parts o cfg n : parsed (JObj o) -> normalizeDetectionConfigForWrite cfg = JObj n -> parsed (JObj n) ->
  exists o', next_config (JObj o) cfg = JObj o' /\ parsed (JObj o') /\
    (exists d, detectorSection (JObj o') = JObj d /\ forall k, is_Some (assoc_get k n) -> assoc_get k d = assoc_get k n) /\
    (forall config, applyDetectionConfigSource config (hookSection (JObj o')) = config) /\
    (forall k, k <> "hook" -> k <> "detector" -> assoc_get k o' = assoc_get k o).
Proof.
  intros Ho Hn Hpn. unfold next_config. rewrite Hn. cbn [own_props].
  assert (exists d0, (detectorSection (JObj o) ||? JObj []) = JObj d0 /\ parsed (JObj d0)) as (d0 & -> & Hd0).
  { unfold detectorSection. cbn [truthy]. destruct (plain_object (JObj o).["detector"]) eqn:E; cbn [andb].
    - apply plain_object_obj in E as [d0 E]. exists d0. pose proof (parsed_get o "detector" Ho) as Hg. rewrite E in *. split; [done|by apply Hg].
    - exists []. split; [done|]. apply parsed_obj. by split; [constructor|]. }
  set (next := assoc_merge o [("detector", spread_with (JObj d0) n)]).
  assert (parsed (spread_with (JObj d0) n)) as Hd.
  { apply parsed_spread; [done|]. by apply parsed_obj in Hpn as [_ ?]. }
  assert (parsed (JObj next)) as Hnext by (apply (parsed_spread o); [done|]; by apply Forall_singleton).
  assert (assoc_get "detector" next = Some (spread_with (JObj d0) n)) as Hdet by (unfold next, assoc_merge; cbn; apply assoc_get_set_eq).
  assert (forall k, is_Some (assoc_get k n) -> assoc_get k (assoc_merge d0 n) = assoc_get k n) as Hget.
  { intros k [v Ev]. rewrite assoc_get_merge; [by rewrite Ev|]. by apply parsed_obj in Hpn as [? _]. }
  assert (forall k, k <> "detector" -> assoc_get k next = assoc_get k o) as Hrest.
  { intros k Hk. unfold next, assoc_merge. cbn [foldl fst snd]. by apply assoc_get_set_ne. }
  change (spread_with (JObj o) [("detector", spread_with (JObj d0) n)]) with (JObj next).
  assert (forall hk, (exists h, hookSection (JObj o) = JObj h /\ hk = bfilter (fun kv : string * js => negb (has_str DETECTOR_CONFIG_KEYS (JStr kv.1))) h) ->
    parsed (JObj hk)) as Hhk.
  { intros hk (h & Eh & ->). apply (parsed_sub h); [|apply bfilter_sublist]. unfold hookSection in Eh. cbn [truthy] in Eh.
    destruct (plain_object (JObj o).["hook"]) eqn:E; [|done]. cbn [andb] in Eh. pose proof (parsed_get o "hook" Ho) as Hg.
    rewrite Eh in Hg. by apply Hg. }
  destruct (stripDetectorKeys (hookSection (JObj o))) as [| |b|m|t|l|hk] eqn:Es; unfold stripDetectorKeys in Es;
    destruct (plain_object (hookSection (JObj o))) eqn:Eph; try discriminate Es.
  - cbn [truthy andb jdel]. exists (assoc_del "hook" next). split_and!; [done| | | |].
    + by apply (parsed_sub next), assoc_del_sublist.
    + exists (assoc_merge d0 n). split; [|done]. apply detectorSection_obj. by rewrite assoc_get_del.
    + intros config. unfold hookSection. cbn [truthy jget]. by rewrite assoc_get_del.
    + intros k H1 H2. rewrite assoc_get_del. apply String.eqb_neq in H1 as ->. by apply Hrest.
  - injection Es as <-. cbn [truthy own_props andb]. apply plain_object_obj in Eph as [h Eh]. rewrite Eh in *. cbn [own_props] in *.
    set (hk := bfilter _ h) in *. destruct (0 <? length hk)%nat; cbn [jset jdel].
    + exists (assoc_set "hook" (JObj hk) next). split_and!; [done| | | |].
      * apply parsed_set; [done..|]. apply Hhk. by exists h.
      * exists (assoc_merge d0 n). split; [|done]. apply detectorSection_obj. by rewrite assoc_get_set_ne.
      * intros config. unfold hookSection. cbn [truthy jget]. rewrite assoc_get_set_eq. apply source_inert. intros k. apply stripped_get.
      * intros k H1 H2. rewrite assoc_get_set_ne by done. by apply Hrest.
    + exists (assoc_del "hook" next). split_and!; [done| | | |].
      * by apply (parsed_sub next), assoc_del_sublist.
      * exists (assoc_merge d0 n). split; [|done]. apply detectorSection_obj. by rewrite assoc_get_del.
      * intros config. unfold hookSection. cbn [truthy jget]. by rewrite assoc_get_del.
      * intros k H1 H2. rewrite assoc_get_del. apply String.eqb_neq in H1 as ->. by apply Hrest.
Qed.

(** Reading a source that holds the three lists into an empty configuration. *)
Lemma source_read d rules files values :
  assoc_get "ignoreRules" d = Some (strings (stored_rules rules)) -> assoc_get "ignoreFiles" d = Some (strings (stored_files files)) ->
  assoc_get "ignoreValues" d = Some (JArr values) -> normalizeIgnoreValueEntries (JArr values) = values -> NoDup (entry_key <$> values) ->
  let config := applyDetectionConfigSource cloneRawDetectionConfig (JObj d) in
  config.["ignoreRules"] = strings (stored_rules rules) /\ config.["ignoreFiles"] = strings (stored_files files) /\
  config.["ignoreValues"] = JArr values.
Proof.
  intros E1 E2 E3 Hs Hn. unfold strings in E1, E2.
  unfold applyDetectionConfigSource. cbn [truthy is_objecty andb negb jget]. rewrite E1, E2, E3. cbn [from_option id]. cbv zeta.
  destruct (advisory_setting (JObj d)), (plain_object (default JUndef (assoc_get "designSystem" d))).
  all: cbn -[uniqueStrings mergeIgnoreValues strings stored_rules stored_files].
  all: rewrite (merge_stable values Hs Hn).
  all: unfold stored_rules, stored_files; rewrite !strings_read; done.
Qed.

(** The filters that are written are the filters that are read: writing a configuration to the shared file and reading
    the file back gives the rules lower-cased and trimmed, the globs trimmed, both without
    repetition, and the value waivers as they were normalised; filters an old build left under [hook] are
    gone, and every other key of the file is as it was. The condition on the values - normalising them again changes
    nothing and no two share their key - fails for a value in two pairs of quotes. *)
Theorem filters_roundtrip root cfg rules files values existing s :
  opt_get cfg "ignoreRules" = JArr rules -> opt_get cfg "ignoreFiles" = JArr files -> opt_get cfg "ignoreValues" = JArr values ->
  let waivers := normalizeIgnoreValueEntries (JArr values) in
  normalizeIgnoreValueEntries (JArr waivers) = waivers -> NoDup (entry_key <$> waivers) ->
  (safeReadJson (getConfigPath root) s).1 = Ok existing -> parsed (existing ||? JObj []) ->
  is_dir (getConfigPath root) (mkdirp (dirname (getConfigPath root)) s).2 = false ->
  exists s1 next config, writeDetectionConfig root cfg false s = (Ok (getConfigPath root), s1) /\
    readRawDetectionConfig root false s1 = (Ok config, s1) /\
    config.["ignoreRules"] = strings (stored_rules rules) /\ config.["ignoreFiles"] = strings (stored_files files) /\
    config.["ignoreValues"] = JArr waivers /\
    (safeReadJson (getConfigPath root) s1).1 = Ok next /\
    forall k, k <> "hook" -> k <> "detector" -> next.[k] = (existing ||? JObj []).[k].
Proof.
  intros E1 E2 E3 waivers Hs Hn Hread Hp Hd.
  destruct (stored_parts cfg rules files E1 E2) as (n & En & Hpn & G1 & G2 & G3). rewrite E3 in G3.
  assert ((JArr values ||? JArr []) = JArr values) as Ev by (by destruct values). rewrite Ev in G3.
  destruct (safeReadJson_obj _ s existing Hread) as (o & Eo & _). rewrite Eo in *.
  destruct (next_config_parts o cfg n Hp En Hpn) as (o' & Enext & Ho' & (d & Hdet & Hget) & Hhook & Hrest).
  destruct (write_json_read (getConfigPath root) o' s Ho' Hd) as (s1 & Ew & Hr & _).
  exists s1, (JObj o'). eexists. split_and!.
  - unfold writeDetectionConfig, mbind, eff_bind. cbn [configFile mret eff_ret]. destruct (safeReadJson_eq (getConfigPath root) s) as (v & Es & _).
    unfold mret, eff_ret. rewrite Es in Hread |- *. injection Hread as ->. by rewrite Eo, Enext, Ew.
  - unfold readRawDetectionConfig, read_source, mbind, eff_bind. cbn [configFile]. rewrite Hr, Hhook, Hdet. reflexivity.
  - by apply (source_read d rules files waivers); rewrite ?Hget.
  - by apply (source_read d rules files waivers); rewrite ?Hget.
  - by apply (source_read d rules files waivers); rewrite ?Hget.
  - by rewrite Hr.
  - intros k H1 H2. cbn [jget]. by rewrite Hrest.
Qed.

(** ** Scoped waivers *)

(** The texts of a path that a scoped glob is tried on. *)
Definition path_tail (path tail : string) : Prop :=
  tail = path \/ exists i, tail = join "/" (drop i (bfilter (fun s => negb (String.eqb s "")) (split_char SLASH path))).
Definition reaches (glob path : string) : Prop := exists tail, path_tail path tail /\ (glob_match glob tail \/ glob_match glob (last_segment tail)).

Definition path_of (finding : js) : string := trim (to_str (opt_get finding "file" ||? JStr "")).

Lemma glob_list_misses globs p : Forall plain_braces globs -> (forall g, g ∈ globs -> ~ (glob_match g p \/ glob_match g (last_segment p))) ->
  matchesAnyGlob (JStr p) (strings globs) = false.
Proof.
  intros Hb Hg. unfold matchesAnyGlob, strings. assert (to_str (JStr p ||? JStr "") = p) as -> by (by destruct p). cbv zeta.
  apply not_true_iff_false. rewrite existsb_exists. intros (v & Hv & H). apply list_elem_of_In, list_elem_of_fmap in Hv as (g & -> & Hin).
  cbn [to_str] in H. apply (Hg g Hin). apply glob_tests_iff; [|done]. rewrite Forall_forall in Hb. by apply Hb.
Qed.

Lemma scope_misses finding globs : Forall plain_braces globs -> (forall g, g ∈ globs -> ~ reaches g (path_of finding)) ->
  findingMatchesScopedIgnoreFile finding (strings globs) = false.
Proof.
  intros Hb Hg. unfold findingMatchesScopedIgnoreFile. fold (path_of finding). cbv zeta. destruct (String.eqb (path_of finding) ""); [done|].
  rewrite glob_list_misses; [cbn [orb]|done|intros g Hin H; apply (Hg g Hin); exists (path_of finding); split; [by left|done]].
  apply not_true_iff_false. rewrite existsb_exists. intros (i & _ & H). rewrite glob_list_misses in H; [done|done|].
  intros g Hin Hm. apply (Hg g Hin). eexists. split; [right; by exists i|done].
Qed.

(** A waiver that does not concern a file: it is scoped to globs that do not reach it, or it is the bare wildcard. *)
Definition elsewhere (path : string) (entry : js) : Prop :=
  (exists g globs, entry.["files"] = strings (g :: globs) /\ Forall plain_braces (g :: globs) /\ forall h, h ∈ g :: globs -> ~ reaches h path) \/
  (entry.["files"] = JUndef /\ entry.["value"] = JStr "*").

Section Filtering.
Context (colorIgnoreKey : string -> string) (decodeURIComponent : string -> option string).

Lemma elsewhere_waives_not finding rule value entry : elsewhere (path_of finding) entry ->
  entry_waives colorIgnoreKey finding rule value entry = false.
Proof.
  unfold entry_waives. intros [(g & globs & Ef & Hb & Hg)|[Ef Ev]].
  - rewrite Ef. cbv zeta. destruct (negb _); [done|]. destruct (negb _ && _); [done|].
    change (strings (g :: globs)) with (JArr (JStr g :: (JStr <$> globs))). cbn iota. by apply (scope_misses finding (g :: globs)).
  - rewrite Ef, Ev. cbn [to_str String.eqb]. destruct (negb _); [done|]. reflexivity.
Qed.

(** C27: A waiver stays in its scope: adding value waivers that are scoped to other files - to globs that match neither
    the path of the findings, nor a part of it from some segment on, nor the last segment of these - or that are a
    bare wildcard without files does not change which of a file's findings are reported,
    whatever else the configuration waives. *)
Theorem scoped_waivers_local path findings rules base extra :
  Forall (fun f => path_of f = path) findings -> Forall (elsewhere path) (normalizeIgnoreValueEntries (JArr extra)) ->
  filterDetectionFindings colorIgnoreKey decodeURIComponent (JArr findings) (JObj [("ignoreRules", rules); ("ignoreValues", JArr (base ++ extra))]) =
  filterDetectionFindings colorIgnoreKey decodeURIComponent (JArr findings) (JObj [("ignoreRules", rules); ("ignoreValues", JArr base)]).
Proof.
  intros Hf He. unfold filterDetectionFindings. destruct findings as [|f0 fs]; [done|]. set (findings := f0 :: fs) in *.
  assert (forall r, rules_of (JObj [("ignoreRules", rules); ("ignoreValues", r)]) = rules_of (JObj [("ignoreRules", rules)])) as Hr by done.
  rewrite !Hr. destruct (rules_of _) as [ignoreRules|e]; [|done]. cbn [mbind result_bind mret]. apply (f_equal Ok).
  assert (forall l, (JArr l ||? JArr []) = JArr l) as Hl by by intros [].
  assert (forall l, opt_get (JObj [("ignoreRules", rules); ("ignoreValues", JArr l)]) "ignoreValues" = JArr l) as Hget by done.
  rewrite !Hget, !Hl.
  unfold normalizeIgnoreValueEntries at 1. cbn [elements_of]. rewrite omap_app.
  change (omap normalize_entry extra) with (normalizeIgnoreValueEntries (JArr extra)).
  change (omap normalize_entry base) with (normalizeIgnoreValueEntries (JArr base)).
  set (E := normalizeIgnoreValueEntries (JArr extra)) in *. set (B := normalizeIgnoreValueEntries (JArr base)).
  clear Hr Hl Hget. induction Hf as [|f l Hpath Hf IH]; [done|]. cbn [bfilter]. rewrite IH.
  assert (kept colorIgnoreKey decodeURIComponent ignoreRules (B ++ E) f = kept colorIgnoreKey decodeURIComponent ignoreRules B f) as ->; [|done].
  unfold kept, isIgnoredFindingValue. f_equal. f_equal. destruct (String.eqb _ ""); [done|]. rewrite existsb_app.
  assert (existsb (entry_waives colorIgnoreKey f (normalizeIgnoreRule f.["antipattern"]) (extractFindingIgnoreValue decodeURIComponent f)) E = false) as ->; [|by rewrite orb_false_r].
  apply not_true_iff_false. rewrite existsb_exists. intros (e & Hin%list_elem_of_In & Hw). rewrite Forall_forall in He.
  rewrite elsewhere_waives_not in Hw; [done|]. rewrite Hpath. by apply He.
Qed.
End Filtering.

(** ** Witnesses *)

Definition demo_local : js := JObj [("updateCheck", JBool false); ("hook", JObj [("quiet", JBool true)])].
Definition demo_checkout : fsys :=
  Fsys (<["/p/.git/info/exclude" := "*.log"]> {[ "/p/.impeccable/config.local.json" := json_stringify demo_local ]})
       {[ "/"; "/p"; "/p/.git" ]}.

Lemma exclude_written_once_witness : exists s1, ensureConfigGitExclude "/p" demo_checkout = (Ok true, s1) /\
  ensureConfigGitExclude "/p" s1 = (Ok true, s1).
Proof.
  destruct (exclude_written_once "/p" demo_checkout) as (s1 & a & b & E & _ & _ & _ & Hagain); [vm_compute; reflexivity..|left; vm_compute; reflexivity|].
  exists s1. split; [exact E|exact Hagain].
Defined.

Lemma demo_local_parsed : parsed demo_local.
Proof. split; [apply json_okb_sound; vm_compute; reflexivity|reflexivity]. Qed.

Lemma consent_recorded_witness : exists s1, setHookConsent "/p" (JStr "declined") demo_checkout = (Ok "/p/.impeccable/config.local.json", s1) /\
  (getHookConsent "/p" s1).1 = Ok (JStr "declined").
Proof.
  destruct (consent_recorded "/p" (JStr "declined") demo_local demo_checkout) as (s1 & E & Hc & _);
    [by right|vm_compute; reflexivity|by vm_compute|by vm_compute|vm_compute; reflexivity|apply demo_local_parsed|vm_compute; reflexivity|].
  exists s1. split; [exact E|exact Hc].
Defined.

Definition demo_filters : js :=
  JObj [("ignoreRules", JArr [JStr " Side-Tab "; JStr "side-tab"]); ("ignoreFiles", JArr [JStr "docs/**"]);
        ("ignoreValues", JArr [JObj [("rule", JStr "overused-font"); ("value", JStr "Inter"); ("file", JStr "brand.css")]])].
Lemma filters_roundtrip_witness : exists s1 config,
  readRawDetectionConfig "/p" false s1 = (Ok config, s1) /\ config.["ignoreRules"] = strings ["side-tab"].
Proof.
  destruct (filters_roundtrip "/p" demo_filters [JStr " Side-Tab "; JStr "side-tab"] [JStr "docs/**"]
    [JObj [("rule", JStr "overused-font"); ("value", JStr "Inter"); ("file", JStr "brand.css")]] JNull demo_checkout)
    as (s1 & next & config & _ & Hr & H1 & _);
    [reflexivity..|vm_compute; reflexivity|apply (bool_decide_unpack _); vm_compute; exact I|vm_compute; reflexivity|
     apply parsed_obj; split; [constructor|done]|vm_compute; reflexivity|].
  exists s1, config. split; [exact Hr|exact H1].
Defined.

(** A font waived in one stylesheet is still reported in another. *)
Definition demo_finding (file : string) : js :=
  JObj [("antipattern", JStr "overused-font"); ("value", JStr "Inter"); ("file", JStr file)].
Definition demo_waiver : js := JObj [("rule", JStr "overused-font"); ("value", JStr "inter"); ("file", JStr "brand.css")].
Definition no_color (_ : string) : string := "".

Lemma exact_glob g p : sforall (none_of "*?{") g = true -> glob_match g p -> p = g.
Proof.
  revert p; induction g as [|c g IH]; intros p; cbn [sforall]; [intros _ H; by inversion H|]. intros [Hc Hg]%andb_true_iff H.
  apply glob_match_char in H as (q & -> & Hq); [|done]. by rewrite (IH q).
Qed.

Lemma scoped_waivers_local_witness :
  filterDetectionFindings no_color (fun s => Some s) (JArr [demo_finding "app/page.css"])
    (JObj [("ignoreRules", JArr []); ("ignoreValues", JArr ([] ++ [demo_waiver]))]) = Ok [demo_finding "app/page.css"].
Proof.
  rewrite (scoped_waivers_local no_color (fun s => Some s) "app/page.css"); [vm_compute; reflexivity|by repeat constructor|].
  apply Forall_singleton. left. exists "brand.css", []. split; [vm_compute; reflexivity|].
  split; [apply Forall_singleton, plain_bracesb_sound; vm_compute; reflexivity|].
  intros h ->%list_elem_of_singleton (tail & Ht & Hm). destruct Ht as [->|[[|[|[|i]]] ->]];
    destruct Hm as [Hm|Hm]; apply exact_glob in Hm; try reflexivity; vm_compute in Hm; try discriminate Hm.
Defined.
