(* ===== verification/LiveInject.v ===== *)
(** * Injecting and removing ([live-inject.mjs])

    The command that puts live mode into a project and takes it out: it reads the configuration, finds the
    framework, reconciles the journal, writes, and records what it wrote. The path of the configuration, which
    the code resolves elsewhere, and the expansion of globs by the file system are arguments; what is printed
    is the result, with the exit code. *)
From S2P Require Import Prelude JsString JsValue Json JsRegex RegexFacts NodePath EventValidation PollLanes Files IgnoreConfig InjectJournal TagStrategy Adapters Frameworks.
Local Open Scope Z_scope.

Definition IGNORE_MARKER_OPEN : string := "# impeccable-live-ignore-start".
Definition IGNORE_MARKER_CLOSE : string := "# impeccable-live-ignore-end".
Definition LIVE_IGNORE_PATTERNS : list string :=
  [".impeccable/hook.cache.json"; ".impeccable/hook.pending.json"; ".impeccable/config.local.json"; ".impeccable/live/server.json";
   ".impeccable/live/roots.json"; ".impeccable/live/app-root.json"; ".impeccable/live/inject-journal.json"; ".impeccable/live/sessions/";
   ".impeccable/live/previews/"; ".impeccable/live/annotations/"; ".impeccable/live/artifacts/"; ".impeccable/live/accept-receipts/";
   ".impeccable/live/locks/"; ".impeccable/live/cache/"; ".impeccable/live/manual-edit-apply-transaction.json";
   ".impeccable/live/manual-edit-events.jsonl"; ".impeccable/live/manual-edit-evidence/"; ".impeccable/live/pending-manual-edits.json";
   ".impeccable/live/deferred-svelte-component-accepts.json"; ".impeccable-live.json"; ".impeccable-live/"; "app/.impeccable-live/";
   "src/.impeccable-live/"; "node_modules/.impeccable-live/"; "src/lib/impeccable/ImpeccableLiveRoot.svelte"; "src/lib/impeccable/__runtime.js";
   "src/lib/impeccable/[0-9a-f]*/"; "plugins/impeccable-live.client.ts"; "app/plugins/impeccable-live.client.ts"; "src/plugins/impeccable-live.client.ts"].
Definition HARD_EXCLUDES : list string := ["**/node_modules/**"; "**/.git/**"].

(** ** The configuration *)

Definition nonempty_strings (l : list js) : bool :=
  forallb (fun f => match f with JStr s => negb (String.eqb s "") | _ => false end) l.

Definition validateConfig (cfg : js) : result unit :=
  let fail msg := Throw (error msg) in
  if negb (truthy cfg) || negb (is_objecty cfg) then fail "config.json must be an object" else
  match cfg.["files"] with
  | JArr ((_ :: _) as files) =>
    if negb (nonempty_strings files) then fail "config.files must contain only non-empty strings" else
    if negb (is_undef cfg.["exclude"]) && negb (is_array cfg.["exclude"]) then fail "config.exclude, if present, must be a string array" else
    if match cfg.["exclude"] with JArr l => negb (nonempty_strings l) | _ => false end then fail "config.exclude must contain only non-empty strings" else
    if negb (is_string cfg.["insertBefore"]) && negb (is_string cfg.["insertAfter"]) then fail "config.insertBefore or config.insertAfter (string) required" else
    if negb (cfg.["commentSyntax"] === JStr "html") && negb (cfg.["commentSyntax"] === JStr "jsx") then fail "config.commentSyntax must be 'html' or 'jsx'" else
    if negb (is_undef cfg.["cspChecked"]) && match cfg.["cspChecked"] with JBool _ => false | _ => true end
    then fail "config.cspChecked, if present, must be a boolean" else Ok tt
  | _ => fail "config.files (non-empty string array) required"
  end.

(** ** The files to inject into *)

(** [globToRegex]: unlike those of the detector, without braces. *)
Fixpoint inject_glob (s : string) : re :=
  match s with
  | "" => REmpty
  | String "*" (String "*" (String "/" s)) => (ropt (rstar rdot ⋅ lit "/") ⋅ inject_glob s)%re
  | String "*" (String "*" s) => (rstar rdot ⋅ inject_glob s)%re
  | String "*" s => (rstar (RClass (none_of "/")) ⋅ inject_glob s)%re
  | String "?" s => (RClass (none_of "/") ⋅ inject_glob s)%re
  | String c s => (ch c ⋅ inject_glob s)%re
  end.
Definition glob_excludes (pattern rel : string) : bool := re_test (RBol ⋅ inject_glob pattern ⋅ REol)%re rel.
Definition isGlob (s : string) : bool := existsb (fun c => one_of "*?[" c) (list_ascii_of_string s).

Section Inject.
Context (cwd configPath : string) (globSync : string -> fsys -> option (list string)).
Context (new_RegExp : string -> result re) (base64_text sha256_hex : string -> string).
Implicit Types (s : fsys).

Definition add_new (out : list string) (rel : string) : list string := if bool_decide (rel ∈ out) then out else out ++ [rel].
(** [globSync]: the files a pattern expands to, relative to the project; [None] when it throws. *)
Definition resolveFiles (config : js) s : list string :=
  let patterns := omap (fun f => match f with JStr f => Some f | _ => None end) (elements_of config.["files"]) in
  let allExcludes := HARD_EXCLUDES ++ (to_str <$> elements_of config.["exclude"]) in
  let isExcluded rel := existsb (fun p => glob_excludes p rel) allExcludes in
  foldl (fun out pat =>
    if negb (isGlob pat) then add_new out pat else
    match globSync pat s with
    | None => out
    | Some matches => foldl (fun out rel => if isExcluded rel then out else add_new out rel) out matches
    end) [] patterns.

(** ** What git should not see *)

Definition resolveGitInfoExcludePath (root : string) s : option string :=
  let dotGit := path_join [root; ".git"] in
  if is_dir dotGit s then Some (path_join [dotGit; "info"; "exclude"]) else
  body ← f_text s !! dotGit;
  m ← re_exec (RBol ⋅ liti "gitdir:" ⋅ rstar rspace ⋅ RGroup 1 (rplus rdot) ⋅ REol)%re (trim body);
  let gitDir := group_or "" m 1 in
  Some (path_join [if is_absolute gitDir then gitDir else resolve root gitDir; "info"; "exclude"]).
Definition resolveIgnoreTarget (root : string) s : string * string :=
  match resolveGitInfoExcludePath root s with
  | Some path => (path, "git-info-exclude")
  | None => (path_join [root; ".gitignore"], "gitignore")
  end.

Definition ignore_block (patterns : list string) : string := join s_nl (IGNORE_MARKER_OPEN :: patterns ++ [IGNORE_MARKER_CLOSE]).
(** The markers hold no special character. *)
Definition ignore_re : re := block_re IGNORE_MARKER_OPEN IGNORE_MARKER_CLOSE.
Definition ignore_text (patterns : list string) (existing : string) : string :=
  let block := ignore_block patterns in
  if re_test ignore_re existing then replace_template ignore_re 0 block existing else
  let prefix := if String.eqb existing "" then "" else if ends_with s_nl existing then existing else existing +:+ s_nl in
  prefix +:+ (if ends_with (s_nl +:+ s_nl) prefix || String.eqb prefix "" then "" else s_nl) +:+ block +:+ s_nl.

Definition ensureLiveGitIgnores (root : string) (extraPatterns : list string) : eff fsys js :=
  target ← get (resolveIgnoreTarget root);
  let '(path, mode) := target in
  there ← get (existsSync path);
  existing ← (if there : bool then readFileSync path else mret "");
  let patterns := uniq (LIVE_IGNORE_PATTERNS ++ extraPatterns) in
  let updated := ignore_text patterns existing in
  let changed := negb (String.eqb updated existing) in
  _ ← run_if changed (_ ← mkdirp (dirname path); writeFileSync path updated);
  mret (JObj [("file", JStr (relative (resolve cwd root) (resolve cwd path))); ("mode", JStr mode); ("changed", JBool changed); ("patterns", strings patterns)]).

(** ** Removing *)

Definition not_found (relFile : string) : js := JObj [("file", JStr relFile); ("error", JStr "file_not_found")].

Definition remove_file (relFile : string) : eff fsys js :=
  let absFile := resolve cwd relFile in
  there ← get (existsSync absFile);
  if negb (there : bool) then mret (not_found relFile) else
  content ← readFileSync absFile;
  let detagged := removeTag content in
  updated ← lift (revertCspMeta new_RegExp base64_text detagged);
  if String.eqb updated content then mret (JObj [("file", JStr relFile); ("removed", JBool false); ("note", JStr "no tag present")]) else
  _ ← writeFileSync absFile updated;
  mret (JObj [("file", JStr relFile); ("removed", JBool (negb (String.eqb detagged content))); ("cspReverted", JBool (negb (String.eqb updated detagged)))]).

Fixpoint for_each (f : string -> eff fsys js) (files : list string) : eff fsys (list js) :=
  match files with
  | [] => mret []
  | file :: files => r ← f file; rs ← for_each f files; mret (r :: rs)
  end.

Definition heal (keep : list js) : eff fsys (list js) :=
  r ← healInjectJournal cwd (PATCH_UNDOERS new_RegExp base64_text) keep;
  mret r.1.
Definition healed_field (healed : list js) : js := match healed with [] => JUndef | _ => JArr healed end.

(** What is printed, and whether the command failed. *)
Record run := Run { run_out : js; run_failed : bool }.

Definition has_error (result : js) : bool := truthy result && truthy result.["error"].

Definition adapter_apply (r : resolved) (port token config : js) : eff fsys js :=
  match r_project r with
  | PSvelte _ => applySvelteKitLiveAdapter cwd sha256_hex port token config
  | PNuxt p => applyNuxtLiveAdapter cwd port token (Some p)
  | PTanStack p => applyTanStackLiveAdapter cwd port token (Some p)
  | PVia _ _ _ => mret JUndef
  end.
Definition adapter_remove (r : resolved) (config : js) : eff fsys js :=
  match r_project r with
  | PSvelte _ => removeSvelteKitLiveAdapter cwd config
  | PNuxt p => removeNuxtLiveAdapter cwd (Some p)
  | PTanStack p => removeTanStackLiveAdapter cwd (Some p)
  | PVia _ _ _ => mret JUndef
  end.

Definition adapter_of (r : option resolved) : option resolved :=
  match r with Some r' => if is_adapter (r_framework r') then r else None | None => None end.

Definition remove_live (config : js) (files : list string) (r : option resolved) : eff fsys run :=
  match adapter_of r with
  | Some r =>
    adapterResult ← adapter_remove r config;
    healed ← heal [];
    _ ← clearInjectJournal cwd;
    let ok := negb (has_error adapterResult) in
    mret (Run (JObj [("ok", JBool ok); ("adapter", JStr (name_of (r_framework r))); ("results", JArr [adapterResult]); ("healed", healed_field healed)])
              (negb ok))
  | None =>
    results ← for_each remove_file files;
    healed ← heal [];
    _ ← clearInjectJournal cwd;
    mret (Run (JObj [("ok", JBool true); ("results", JArr results); ("healed", healed_field healed)]) false)
  end.

(** ** Inserting *)

Definition insert_file (config port token : js) (relFile : string) : eff fsys js :=
  let absFile := resolve cwd relFile in
  there ← get (existsSync absFile);
  if negb (there : bool) then mret (not_found relFile) else
  content ← readFileSync absFile;
  withoutOld ← lift (revertCspMeta new_RegExp base64_text (removeTag content));
  let scriptAttrs := st_injectScriptAttrs (resolveSourceTraits (JStr relFile)).2 in
  withTag ← lift (insertTag withoutOld config port token scriptAttrs);
  if String.eqb withTag withoutOld
  then mret (JObj [("file", JStr relFile); ("error", JStr "insertion_point_not_found"); ("anchor", config.["insertBefore"] ||? config.["insertAfter"])]) else
  let updated := patchCspMeta withTag port in
  _ ← writeFileSync absFile updated;
  mret (JObj [("file", JStr relFile); ("inserted", JBool true); ("cspPatched", JBool (negb (String.eqb updated withTag)))]).

(** The token of the running helper, when it serves this port. *)
Definition recorded_token (port : num) s : js :=
  match f_text s !! path_join [cwd; ".impeccable"; "live"; "server.json"] with
  | Some text => match json_parse text with
                 | Some info => if truthy (opt_get info "token") && num_eqb (to_num info.["port"]) port then info.["token"] else JUndef
                 | None => JUndef
                 end
  | None => JUndef
  end.

(** The repository above the application, when it is another directory. *)
Definition ignore_at_repo_root : eff fsys unit :=
  attempt
    (text ← readFileSync (path_join [cwd; ".impeccable"; "live"; "roots.json"]);
     match json_parse text with
     | None => lift (Throw (error "Unexpected token"))
     | Some manifest =>
       if negb (truthy (opt_get manifest "repoRoot")) then mret tt else
       root ← lift (resolve_value cwd manifest.["repoRoot"]);
       if String.eqb root (resolve cwd cwd) then mret tt else
       _ ← ensureLiveGitIgnores root [];
       mret tt
     end)
    (fun _ => mret tt).

Definition insert_live (config port token pid recordedAt : js) (files : list string) (r : option resolved) : eff fsys run :=
  let planned := describeInjectArtifacts r files in
  healed ← heal ((fun a => a.["path"]) <$> planned);
  gitIgnore ← ensureLiveGitIgnores cwd (frameworkIgnorePatterns r);
  _ ← ignore_at_repo_root;
  match adapter_of r with
  | Some r' =>
    adapterResult ← adapter_apply r' port token config;
    let ok := negb (has_error adapterResult) in
    _ ← run_if ok (_ ← recordInjection cwd (JStr (name_of (r_framework r'))) port pid recordedAt planned; mret tt);
    mret (Run (JObj [("ok", JBool ok); ("port", port); ("adapter", JStr (name_of (r_framework r'))); ("gitIgnore", gitIgnore);
                     ("results", JArr [adapterResult]); ("healed", healed_field healed)]) (negb ok))
  | None =>
    results ← for_each (insert_file config port token) files;
    let inserted := bfilter (fun r => truthy r.["inserted"]) results in
    let anyInserted := (0 <? length inserted)%nat in
    let writtenFiles := (fun r => r.["file"]) <$> inserted in
    _ ← recordInjection cwd (match r with Some r => JStr (name_of (r_framework r)) | None => JUndef end) port pid recordedAt
          (bfilter (fun a => set_has writtenFiles a.["path"]) planned);
    mret (Run (JObj [("ok", JBool anyInserted); ("port", port); ("gitIgnore", gitIgnore); ("results", JArr results); ("healed", healed_field healed)])
              (negb anyInserted))
  end.

(** ** The command *)

Definition arg_after (flag : string) (args : list string) : option js :=
  i ← find_index (String.eqb flag) args;
  Some (match args !! S i with Some a => JStr a | None => JUndef end).
Definition failure (fields : list (string * js)) : run := Run (JObj (("ok", JBool false) :: fields)) true.
Definition has_flag (flag : string) (args : list string) : bool := existsb (String.eqb flag) args.

(** [--check]: what the configuration is; it never fails. [parse_message]: the engine's message. *)
Definition check_config (parse_message : string -> string) : eff fsys run :=
  there ← get (existsSync configPath);
  let invalid msg := Run (JObj [("ok", JBool false); ("error", JStr "config_invalid"); ("message", JStr msg); ("path", JStr configPath)]) false in
  if negb (there : bool) then mret (Run (JObj [("ok", JBool false); ("error", JStr "config_missing"); ("path", JStr configPath)]) false) else
  attempt
    (text ← readFileSync configPath;
     match json_parse text with
     | None => mret (invalid (parse_message text))
     | Some cfg => match validateConfig cfg with
                   | Throw e => mret (invalid (err_message e))
                   | Ok _ => mret (Run (JObj [("ok", JBool true); ("config", cfg); ("path", JStr configPath)]) false)
                   end
     end)
    (fun e => mret (invalid (err_message e))).

Definition injectCli (parse_message : string -> string) (pid recordedAt : js) (args : list string) : eff fsys run :=
  if has_flag "--help" args || has_flag "-h" args then mret (Run JUndef false) else
  if has_flag "--check" args then check_config parse_message else
  there ← get (existsSync configPath);
  if negb (there : bool) then mret (failure [("error", JStr "config_missing"); ("path", JStr configPath)]) else
  text ← readFileSync configPath;
  match json_parse text with
  | None => lift (Throw (error (parse_message text)))
  | Some config =>
    _ ← lift (validateConfig config);
    files ← get (resolveFiles config);
    r ← get (resolveFramework cwd config);
    r ← lift r;
    if has_flag "--remove" args then remove_live config files r else
    let port := match arg_after "--port" args with Some v => parse_int (to_str v) | None => NNaN end in
    if negb (num_is_finite port) then mret (failure [("error", JStr "missing_port")]) else
    let given := match arg_after "--token" args with Some v => v | None => JUndef end in
    recorded ← get (recorded_token port);
    insert_live config (JNum port) (if truthy given then given else recorded) pid recordedAt files r
  end.
End Inject.

(** * Theorems *)

(** ** A session on a project without an adapter: the files come back *)

Section Session.
Context (cwd : string) (new_RegExp : string -> result re) (base64_text : string -> string).
Context (config : js) (port : Z) (token : js) (Hbefore : truthy config.["insertBefore"] = true).
Implicit Types (s : fsys).
Notation abs f := (resolve cwd f).
Notation undoers := (PATCH_UNDOERS new_RegExp base64_text).

Definition attrs_of (f : string) : string := st_injectScriptAttrs (resolveSourceTraits (JStr f)).2.
Lemma attrs_inert f : sforall inert (attrs_of f) = true.
Proof. unfold attrs_of, resolveSourceTraits. cbv zeta. destruct (find _ FRAMEWORKS) as [[]|]; done. Qed.

(** The text the file is given. *)
Definition inserted (f c : string) : string := match insertTag c config (int port) token (attrs_of f) with Ok t => t | Throw _ => c end.

(** A page live mode has not touched, without a policy of its own. *)
Record clean (f c : string) : Prop := Clean {
  cl_marker : includes MARKER_OPEN_TEXT c = false;
  cl_csp : includes CSP_MARKER_ATTR c = false;
  cl_lines : detectLineEnding c = s_cr -> no_char NL c = true;
  cl_policy : findCspMetaTags c = [];
  cl_policy_in : findCspMetaTags (inserted f c) = []
}.

Lemma insert_total f c : insertTag c config (int port) token (attrs_of f) = Ok (inserted f c).
Proof. unfold inserted, insertTag. cbv zeta. rewrite Hbefore. by destruct (last_index_of _ c). Qed.

Lemma remove_cleans f c : clean f c -> removeTag (inserted f c) = c.
Proof. intros H. apply (remove_before c config port token (attrs_of f)); [apply H|apply attrs_inert|apply H|done|apply insert_total]. Qed.

Lemma no_policy_revert t : findCspMetaTags t = [] -> revertCspMeta new_RegExp base64_text t = Ok t.
Proof. intros H. unfold revertCspMeta. by rewrite H. Qed.
Lemma no_policy_patch t : findCspMetaTags t = [] -> patchCspMeta t (int port) = t.
Proof. intros H. unfold patchCspMeta. by rewrite H. Qed.

Lemma undo_inserted f c : clean f c -> unpatchTagFile new_RegExp base64_text (inserted f c) = Ok c.
Proof. intros H. unfold unpatchTagFile. rewrite remove_cleans by done. by apply no_policy_revert, H. Qed.

(** *** Inserting *)

Definition same_dirs s s' : Prop := f_dirs s' = f_dirs s.

Lemma insert_file_ok f s r s' : insert_file cwd new_RegExp base64_text config (int port) token f s = (Ok r, s') ->
  (forall c, f_text s !! abs f = Some c -> clean f c) ->
  f_dirs s' = f_dirs s /\
  ((f_text s' = f_text s /\ truthy r.["inserted"] = false) \/
   exists c, f_text s !! abs f = Some c /\ inserted f c <> c /\ f_text s' = <[abs f := inserted f c]> (f_text s) /\
             truthy r.["inserted"] = true /\ r.["file"] = JStr f /\ is_dir (abs f) s = false).
Proof.
  intros H Hc. unfold insert_file in H. cbv zeta in H. apply eff_bind_ok in H as (there & s1 & H1 & H). injection H1 as <- <-.
  destruct (existsSync (abs f) s); cbn [negb] in H; [|injection H as <- <-; by split; [|left]].
  apply eff_bind_ok in H as (c & s1 & H1 & H). unfold readFileSync in H1. destruct (f_text s !! abs f) as [c'|] eqn:Et; [|done]. injection H1 as -> ->.
  specialize (Hc c eq_refl). unfold lift in H. rewrite removeTag_clean, no_policy_revert in H by apply Hc.
  apply eff_bind_ok in H as (w & s2 & H1 & H). injection H1 as <- <-.
  change (st_injectScriptAttrs (resolveSourceTraits (JStr f)).2) with (attrs_of f) in H. rewrite insert_total in H.
  apply eff_bind_ok in H as (w & s2 & H1 & H). injection H1 as <- <-.
  destruct (String.eqb_spec (inserted f c) c) as [E|E]; [injection H as <- <-; by split; [|left]|].
  apply eff_bind_ok in H as ([] & s2 & H1 & H). injection H as <- <-. rewrite no_policy_patch in H1 by apply Hc.
  unfold writeFileSync in H1. destruct (is_dir (abs f) s1) eqn:Ed; [done|]. injection H1 as <-. split; [done|]. right. exists c. by split_and!.
Qed.

Lemma bfilter_cons_true {A} (p : A -> bool) x l : p x = true -> bfilter p (x :: l) = x :: bfilter p l.
Proof. intros H. cbn [bfilter]. by rewrite H. Qed.
Lemma bfilter_cons_false {A} (p : A -> bool) x l : p x = false -> bfilter p (x :: l) = bfilter p l.
Proof. intros H. cbn [bfilter]. by rewrite H. Qed.

(** The files that were written are those reported. *)
Lemma insert_files_ok files : forall s rs s', for_each (insert_file cwd new_RegExp base64_text config (int port) token) files s = (Ok rs, s') ->
  NoDup ((fun f => abs f) <$> files) -> (forall f c, f ∈ files -> f_text s !! abs f = Some c -> clean f c) ->
  f_dirs s' = f_dirs s /\ exists written, written `sublist_of` files /\
    (fun r => r.["file"]) <$> bfilter (fun r => truthy r.["inserted"]) rs = JStr <$> written /\
    (forall f, f ∈ written -> exists c, f_text s !! abs f = Some c /\ f_text s' !! abs f = Some (inserted f c) /\ inserted f c <> c /\ is_dir (abs f) s = false) /\
    (forall p, (forall f, f ∈ written -> p <> abs f) -> f_text s' !! p = f_text s !! p).
Proof.
  induction files as [|f files IH]; intros s rs s' H Hn Hc; cbn [for_each] in H.
  - injection H as <- <-. split; [done|]. exists []. split_and!; [done|done|by intros ? ?%elem_of_nil|done].
  - apply eff_bind_ok in H as (r & s1 & H1 & H). apply eff_bind_ok in H as (rs' & s2 & H2 & H). injection H as <- <-.
    cbn [fmap list_fmap] in Hn. apply NoDup_cons in Hn as [Hf Hn].
    apply insert_file_ok in H1 as [Hd1 H1]; [|intros c Ec; apply (Hc f c); [left|done]].
    assert (forall g, g ∈ files -> abs g <> abs f) as Hne by (intros g Hg E; apply Hf; rewrite <- E; by apply list_elem_of_fmap_2).
    assert (forall g, g ∈ files -> f_text s1 !! abs g = f_text s !! abs g) as Hsame.
    { intros g Hg. destruct H1 as [[-> _]|(c & _ & _ & -> & _)]; [done|]. rewrite lookup_insert_ne; [done|]. intros E. by apply (Hne g Hg). }
    apply IH in H2 as [Hd2 (written & Hsub & Hr & Hw & Hrest)]; [|done|intros g c Hg; rewrite Hsame by done; apply Hc; by right].
    split; [congruence|]. destruct H1 as [[Et Hi]|(c & Ec & Hne' & Et & Hi & Hfile & Hdir)].
    + exists written. rewrite bfilter_cons_false by done. split_and!; [by constructor|done| |intros p Hp; rewrite Hrest by done; by rewrite Et].
      intros g Hg. destruct (Hw g Hg) as (c & E1 & E2 & E3 & E4). exists c. rewrite Et in E1. split_and!; [done..|]. unfold is_dir in *. by rewrite <- Hd1.
    + exists (f :: written). rewrite bfilter_cons_true by done. split_and!; [by constructor|cbn [fmap list_fmap]; by rewrite Hfile, Hr| |].
      * intros g [->|Hg]%elem_of_cons.
        -- exists c. split_and!; [done| |done..]. rewrite Hrest; [by rewrite Et, lookup_insert_eq|].
           intros h Hh E. apply (Hne h); [by apply (elem_of_sublist _ _ _ Hh Hsub)|done].
        -- destruct (Hw g Hg) as (c' & E1 & E2 & E3 & E4). exists c'. rewrite Hsame in E1 by (by apply (elem_of_sublist _ _ _ Hg Hsub)). split_and!; [done..|].
           unfold is_dir in *. by rewrite <- Hd1.
      * intros p Hp. rewrite Hrest by (intros g Hg; apply Hp; by right). rewrite Et, lookup_insert_ne; [done|]. intros E. apply (Hp f); [left|done].
Qed.

(** *** Healing what was recorded *)

Definition tag_artifact (f : string) : js := patched_artifact f TAG_PATCH_KIND TAG_PATCH_MARKERS.

(** The file [f] holds what live mode wrote over its text in [s0]. *)
Definition injected s0 s (f : string) : Prop :=
  insideProject cwd (abs f) = true /\ is_dir (abs f) s = false /\
  exists c, f_text s0 !! abs f = Some c /\ f_text s !! abs f = Some (inserted f c) /\ inserted f c <> c /\ clean f c.

Lemma heal_injected s0 s f : injected s0 s f -> exists c, f_text s0 !! abs f = Some c /\
  healArtifact cwd undoers (tag_artifact f) s = (Ok (outcome (JStr f) "unpatched"), set_text (<[abs f := c]> (f_text s)) s).
Proof.
  intros (Hin & Hd & c & E0 & E & Hne & Hc). exists c. split; [done|]. unfold healArtifact. cbv zeta.
  change ((tag_artifact f).["path"]) with (JStr f). cbn [to_str]. rewrite Hin. cbn [negb].
  unfold mbind, eff_bind, get, readIfPresent. rewrite E.
  change ((tag_artifact f).["kind"] === JStr "created") with false. change ((tag_artifact f).["kind"] === JStr "patched") with true. cbn iota.
  unfold heal_patched. cbv zeta. change ((tag_artifact f).["markers"]) with (JArr (JStr <$> TAG_PATCH_MARKERS)). change ((tag_artifact f).["path"]) with (JStr f). cbn iota.
  assert (includes MARKER_OPEN_TEXT (inserted f c) = true) as Hm.
  { destruct (insert_marks c config port token (attrs_of f) (inserted f c) (attrs_inert f) Hbefore (insert_total f c)); [done|done]. }
  assert (existsb (fun m => includes (to_str m) (inserted f c)) (JStr <$> TAG_PATCH_MARKERS) = true) as ->.
  { change (JStr <$> TAG_PATCH_MARKERS) with [JStr MARKER_OPEN_TEXT; JStr CSP_MARKER_ATTR]. cbn [existsb to_str]. by rewrite Hm. }
  cbn [negb andb]. rewrite andb_false_r.
  change (lookup_undoer undoers (tag_artifact f).["patch"]) with
    (Some (fun content => t ← unpatchTagFile new_RegExp base64_text content; mret (JStr t))).
  cbn iota. unfold mbind, eff_bind, lift, result_bind. rewrite undo_inserted by done. cbn [mret result_ret].
  assert ((JStr c === JStr (inserted f c)) = false) as ->.
  { cbn [strict_eq]. apply String.eqb_neq. congruence. }
  unfold attempt, writeFileSync. by rewrite Hd.
Qed.

Lemma heal_loop_injected s0 keepSet ws : forall healed kept s, NoDup ((fun f => abs f) <$> ws) -> (forall f, f ∈ ws -> injected s0 s f) ->
  exists r s', heal_loop cwd undoers keepSet (tag_artifact <$> ws) healed kept s = (Ok r, s') /\
    (forall f, f ∈ ws -> abs f ∉ keepSet -> f_text s' !! abs f = f_text s0 !! abs f) /\
    (forall p, p ∈ keepSet \/ (forall f, f ∈ ws -> p <> abs f) -> f_text s' !! p = f_text s !! p).
Proof.
  induction ws as [|f ws IH]; intros healed kept s Hn Hw; [exists (healed, kept), s; split_and!; [done|by intros ? ?%elem_of_nil|done]|].
  cbn [fmap list_fmap] in *. apply NoDup_cons in Hn as [Hf Hn].
  assert (forall g, g ∈ ws -> abs g <> abs f) as Hne by (intros g Hg E; apply Hf; rewrite <- E; by apply list_elem_of_fmap_2).
  cbn [heal_loop]. change (negb (truthy (tag_artifact f)) || negb (is_string (tag_artifact f).["path"])) with false.
  assert (normalizeRel cwd (tag_artifact f).["path"] = abs f) as -> by (by destruct f). cbn iota.
  assert (existsb (String.eqb (abs f)) keepSet = bool_decide (abs f ∈ keepSet)) as ->.
  { apply eq_iff_eq_true. rewrite bool_decide_eq_true, existsb_exists. split; [intros (x & Hx & ->%String.eqb_eq)|intros Hx; exists (abs f); rewrite String.eqb_refl; split; [|done]]; by apply list_elem_of_In. }
  destruct (bool_decide_reflect (abs f ∈ keepSet)) as [Hk|Hk].
  - destruct (IH healed (kept ++ [tag_artifact f]) s Hn) as (r & s' & Hr & H1 & H2); [intros g Hg; apply Hw; by right|].
    exists r, s'. split_and!; [done| |].
    + intros g [->|Hg]%elem_of_cons Hgk; [done|by apply H1].
    + intros p [Hp|Hp]; apply H2; [by left|right]. intros g Hg. apply Hp. by right.
  - destruct (heal_injected s0 s f (Hw f ltac:(left))) as (c & E0 & Eh).
    destruct (IH (healed ++ [outcome (JStr f) "unpatched"]) kept (set_text (<[abs f := c]> (f_text s)) s)) as (r & s' & Hr & H1 & H2); [done| |].
    { intros g Hg. destruct (Hw g ltac:(by right)) as (Hin & Hd & c' & E1 & E2 & E3). split_and!; [done|done|]. exists c'. split_and!; [done| |apply E3..].
      unfold set_text. cbn [f_text]. rewrite lookup_insert_ne; [done|]. intros E. by apply (Hne g Hg). }
    exists r, s'. split_and!.
    + unfold mbind at 1, eff_bind at 1. rewrite Eh. change (changed (outcome (JStr f) "unpatched")) with true. exact Hr.
    + intros g [->|Hg]%elem_of_cons Hgk; [|by apply H1]. rewrite H2; [|right; intros h Hh E; by apply (Hne h Hh)].
      unfold set_text. cbn [f_text]. by rewrite lookup_insert_eq.
    + intros p Hp. rewrite H2 by (destruct Hp as [Hp|Hp]; [by left|right; intros g Hg; apply Hp; by right]).
      unfold set_text. cbn [f_text]. rewrite lookup_insert_ne; [done|]. intros <-. destruct Hp as [Hp|Hp]; [done|]. apply (Hp f); [left|done].
Qed.

Lemma has_artifacts_truthy journal l : journal.["artifacts"] = JArr l -> truthy journal = true.
Proof. by destruct journal. Qed.

Lemma heal_restores s0 s ws journal keep : readInjectJournal cwd s = (Ok journal, s) -> journal.["artifacts"] = JArr (tag_artifact <$> ws) ->
  NoDup ((fun f => abs f) <$> ws) -> (forall f, f ∈ ws -> injected s0 s f) ->
  forall p, p <> injectJournalPath cwd -> p ∉ normalizeRel cwd <$> keep ->
  f_text (healInjectJournal cwd undoers keep s).2 !! p = if bool_decide (p ∈ (fun f => abs f) <$> ws) then f_text s0 !! p else f_text s !! p.
Proof.
  intros Hr Ha Hn Hw p Hp Hk. unfold healInjectJournal. unfold mbind at 1, eff_bind at 1. rewrite Hr. rewrite (has_artifacts_truthy _ _ Ha). cbn [negb].
  rewrite Ha. cbv zeta. destruct (heal_loop_injected s0 (normalizeRel cwd <$> keep) ws [] [] s Hn Hw) as (r & s' & El & H1 & H2).
  unfold mbind at 1, eff_bind at 1. rewrite El.
  match goal with |- f_text (?m s').2 !! p = _ => assert (only_touches (fun q => q = injectJournalPath cwd) m) as Ht end.
  { unfold writeInjectJournal, clearInjectJournal. touch; first [by apply touches_unlink | by apply touches_write]. }
  rewrite (Ht s' p Hp). destruct (bool_decide_reflect (p ∈ (fun f => abs f) <$> ws)) as [Hin|Hout].
  - apply list_elem_of_fmap in Hin as (f & -> & Hf). by apply H1.
  - apply H2. right. intros f Hf ->. apply Hout. by apply (list_elem_of_fmap_2 (fun f => abs f)).
Qed.

(** *** What is recorded *)

Lemma recorded_artifacts (files written : list string) :
  bfilter (fun a => set_has (JStr <$> written) a.["path"]) (tag_artifact <$> files) = tag_artifact <$> bfilter (fun f => bool_decide (f ∈ written)) files.
Proof.
  rewrite bfilter_fmap. f_equal. apply bfilter_ext. intros f. change ((tag_artifact f).["path"]) with (JStr f). unfold set_has.
  apply eq_iff_eq_true. rewrite bool_decide_eq_true, existsb_exists. split.
  - intros (x & Hx%list_elem_of_In & E). apply list_elem_of_fmap in Hx as (g & -> & Hg). cbn [same_value_zero] in E. by apply String.eqb_eq in E as ->.
  - intros Hf. exists (JStr f). split; [apply list_elem_of_In; by apply (list_elem_of_fmap_2 JStr)|]. apply String.eqb_refl.
Qed.

Lemma artifacts_normal (ws : list string) : json_norm <$> (tag_artifact <$> ws) = tag_artifact <$> ws.
Proof. rewrite <- list_fmap_compose. apply list_fmap_ext. intros i f _. reflexivity. Qed.
Lemma artifacts_ok (ws : list string) : json_ok (JArr (tag_artifact <$> ws)).
Proof.
  apply json_ok_arr, Forall_fmap, Forall_forall. intros f _. apply json_ok_obj. split; [apply (bool_decide_unpack _); vm_compute; exact I|].
  repeat constructor.
Qed.

(** Writing the journal leaves the other files as they were. *)
Lemma record_keeps framework pid recordedAt artifacts p s : p <> injectJournalPath cwd ->
  f_text (recordInjection cwd framework (int port) pid recordedAt artifacts s).2 !! p = f_text s !! p /\
  (p ∉ dir_prefixes (dirname (injectJournalPath cwd)) -> is_dir p (recordInjection cwd framework (int port) pid recordedAt artifacts s).2 = is_dir p s).
Proof.
  intros Hp. split.
  - assert (only_touches (fun q => q = injectJournalPath cwd) (recordInjection cwd framework (int port) pid recordedAt artifacts)) as Ht.
    { unfold recordInjection, clearInjectJournal, writeInjectJournal. touch; first [by apply touches_unlink | by apply touches_write]. }
    by apply Ht.
  - intros Hd. unfold recordInjection. destruct (length artifacts =? 0)%nat.
    + unfold clearInjectJournal, mbind, eff_bind, attempt, unlinkSync. by destruct (f_text s !! injectJournalPath cwd).
    + unfold writeInjectJournal, mkdirp, upd, mbind, eff_bind, writeFileSync.
      assert (is_dir p (Fsys (f_text s) (f_dirs s ∪ list_to_set (dir_prefixes (dirname (injectJournalPath cwd))))) = is_dir p s) as E.
      { unfold is_dir. cbn [f_dirs]. apply bool_decide_ext. rewrite elem_of_union, elem_of_list_to_set. tauto. }
      destruct (is_dir (injectJournalPath cwd) _); cbn [snd]; [exact E|]. exact E.
Qed.

Lemma ignores_keep root extra p s : p <> (resolveIgnoreTarget root s).1 ->
  f_text (ensureLiveGitIgnores cwd root extra s).2 !! p = f_text s !! p.
Proof.
  intros Hp. unfold ensureLiveGitIgnores. unfold mbind at 1, eff_bind at 1, get at 1. destruct (resolveIgnoreTarget root s) as [path mode]. cbn [fst] in Hp.
  match goal with |- f_text (?m s).2 !! _ = _ => assert (only_touches (fun q => q = path) m) as Ht end; [|by apply Ht].
  touch. by apply touches_write.
Qed.

(** *** The whole session *)

Context (sha256_hex : string -> string) (r : resolved) (pid recordedAt : js) (files : list string).
Context (Hkind : is_adapter (r_framework r) = false).
Notation insert := (insert_live cwd new_RegExp base64_text sha256_hex config (int port) token pid recordedAt files (Some r)).
Notation remove := (remove_live cwd new_RegExp base64_text config files (Some r)).

(** The project before the session: no journal, one repository, and the files to inject into are none of those live mode keeps. *)
Record ready s : Prop := Ready {
  rd_journal : f_text s !! injectJournalPath cwd = None;
  rd_roots : f_text s !! path_join [cwd; ".impeccable"; "live"; "roots.json"] = None /\
    path_join [cwd; ".impeccable"; "live"; "roots.json"] <> (resolveIgnoreTarget cwd s).1;
  rd_distinct : NoDup ((fun f => abs f) <$> files);
  rd_files : forall f, f ∈ files -> insideProject cwd (abs f) = true /\ abs f <> injectJournalPath cwd /\
    abs f <> (resolveIgnoreTarget cwd s).1 /\ abs f ∉ dir_prefixes (dirname (injectJournalPath cwd));
  rd_clean : forall f c, f ∈ files -> f_text s !! abs f = Some c -> clean f c;
  rd_ids : json_ok pid /\ json_ok recordedAt /\ Z.abs port < 10 ^ 21
}.

Definition journal_holds s (ws : list string) : Prop :=
  (ws = [] /\ f_text s !! injectJournalPath cwd = None) \/
  exists journal, readInjectJournal cwd s = (Ok journal, s) /\ journal.["artifacts"] = JArr (tag_artifact <$> ws).

Lemma heal_nothing keep s : f_text s !! injectJournalPath cwd = None -> heal cwd new_RegExp base64_text keep s = (Ok [], s).
Proof.
  intros H. unfold heal, healInjectJournal. unfold mbind at 1 2, eff_bind at 1 2. by rewrite missing_journal.
Qed.

(** The state a session leaves while it runs. *)
Lemma insert_live_ok s run s1 : ready s -> insert s = (Ok run, s1) ->
  exists ws, ws `sublist_of` files /\ (forall f, f ∈ ws -> injected s s1 f) /\
    (forall f, f ∈ files -> f ∉ ws -> f_text s1 !! abs f = f_text s !! abs f) /\ journal_holds s1 ws.
Proof.
  intros Hs H. unfold insert_live in H. cbv zeta in H. apply eff_bind_ok in H as (healed & sa & H1 & H).
  rewrite heal_nothing in H1 by apply Hs. injection H1 as <- <-.
  apply eff_bind_ok in H as (gi & sb & Hgi & H). apply eff_bind_ok in H as ([] & sc & Hrr & H).
  assert (forall p, p <> (resolveIgnoreTarget cwd s).1 -> f_text sb !! p = f_text s !! p) as Hb.
  { intros p Hp. pose proof (ignores_keep cwd (frameworkIgnorePatterns (Some r)) p s Hp) as E. by rewrite Hgi in E. }
  assert (sc = sb) as ->.
  { unfold ignore_at_repo_root, attempt in Hrr. unfold mbind at 1, eff_bind at 1, readFileSync at 1 in Hrr.
    destruct (rd_roots s Hs) as [En Hne]. rewrite Hb, En in Hrr by done. by injection Hrr as <-. }
  assert (adapter_of (Some r) = None) as Ea by (unfold adapter_of; by rewrite Hkind). rewrite Ea in H.
  apply eff_bind_ok in H as (rs & sd & Hfe & H). apply eff_bind_ok in H as (file & se & Hrec & H). injection H as _ <-.
  assert (forall f, f ∈ files -> f_text sb !! abs f = f_text s !! abs f) as Hbf by (intros f Hf; apply Hb; by apply (rd_files s Hs)).
  apply insert_files_ok in Hfe as [Hd (written & Hsub & Hfiles & Hw & Hrest)]; [|apply Hs|intros f c Hf; rewrite Hbf by done; by apply (rd_clean s Hs)].
  rewrite Hfiles in Hrec.
  assert (describeInjectArtifacts (Some r) files = tag_artifact <$> files) as Ep by (unfold describeInjectArtifacts; by rewrite Hkind).
  rewrite Ep, recorded_artifacts in Hrec. set (ws := bfilter (fun f => bool_decide (f ∈ written)) files) in *.
  assert (forall f, f ∈ ws <-> f ∈ written) as Hws.
  { intros f. unfold ws. rewrite bfilter_elem_of, bool_decide_eq_true. split; [by intros [_ ?]|]. intros Hf. split; [|done]. by apply (elem_of_sublist _ _ _ Hf Hsub). }
  assert (forall f, f ∈ files -> f_text se !! abs f = f_text sd !! abs f) as Hlast.
  { intros f Hf. destruct (rd_files s Hs f Hf) as (_ & Hj & _). pose proof (record_keeps (JStr (name_of (r_framework r))) pid recordedAt (tag_artifact <$> ws) (abs f) sd Hj) as [E _].
    by rewrite Hrec in E. }
  assert (ws `sublist_of` files) as Hwsub by apply bfilter_sublist.
  exists ws. split_and!; [done| | |].
  - intros f Hf. pose proof (elem_of_sublist _ _ _ Hf Hwsub) as Hff. apply Hws in Hf. destruct (Hw f Hf) as (c & E1 & E2 & Hne & Hdir).
    destruct (rd_files s Hs f Hff) as (Hin & Hj & _ & Hdp). split_and!; [done| |].
    + pose proof (record_keeps (JStr (name_of (r_framework r))) pid recordedAt (tag_artifact <$> ws) (abs f) sd Hj) as [_ E]. rewrite Hrec in E.
      specialize (E Hdp). cbn [snd] in E. rewrite E. unfold is_dir in *. by rewrite Hd.
    + rewrite Hbf in E1 by done. exists c. rewrite Hlast by done. split_and!; [done..|]. by apply (rd_clean s Hs).
  - intros f Hf Hn. rewrite Hlast by done. rewrite Hrest; [by apply Hbf|]. intros g Hg E. apply Hn, Hws.
    assert (f = g) as ->; [|done]. pose proof (elem_of_sublist _ _ _ Hg Hsub) as Hgf.
    apply list_elem_of_lookup in Hf as [i Hi]. apply list_elem_of_lookup in Hgf as [j Hj].
    pose proof (rd_distinct s Hs) as Hnd. rewrite NoDup_alt in Hnd.
    assert (i = j) as ->; [|congruence]. apply (Hnd i j (abs f)); rewrite list_lookup_fmap; [by rewrite Hi|by rewrite Hj, E].
  - destruct ws as [|w ws'] eqn:Ews.
    + left. split; [done|]. unfold recordInjection in Hrec. cbn [fmap list_fmap length Nat.eqb] in Hrec.
      apply eff_bind_ok in Hrec as ([] & sf & Hc & Hrec). injection Hrec as _ <-. pose proof (clear_journal cwd sd) as E. by rewrite Hc in E.
    + right. destruct file as [file|].
      2:{ unfold recordInjection in Hrec. cbn [fmap list_fmap length Nat.eqb] in Hrec. apply eff_bind_ok in Hrec as (? & ? & _ & Hrec). by injection Hrec. }
      destruct (rd_ids s Hs) as (H1 & H2 & H3).
      destruct (record_roundtrip cwd _ _ _ _ _ _ _ _ Hrec (artifacts_ok _)) as (journal & Hread & _ & Ha & _); [done..|].
      exists journal. split; [done|]. by rewrite Ha, artifacts_normal.
Qed.

(** *** Stopping *)

Lemma remove_file_ok f s0 s x s' : (injected s0 s f \/ (f_text s !! abs f = f_text s0 !! abs f /\ forall c, f_text s0 !! abs f = Some c -> clean f c)) ->
  remove_file cwd new_RegExp base64_text f s = (Ok x, s') ->
  f_text s' !! abs f = f_text s0 !! abs f /\ (forall p, p <> abs f -> f_text s' !! p = f_text s !! p) /\ f_dirs s' = f_dirs s.
Proof.
  intros Hf H. unfold remove_file in H. cbv zeta in H. apply eff_bind_ok in H as (there & s1 & H1 & H). injection H1 as <- <-.
  assert (existsSync (abs f) s = false -> f_text s !! abs f = f_text s0 !! abs f) as Hmiss.
  { intros E. destruct Hf as [(_ & _ & c & _ & E2 & _)|[E2 _]]; [|done]. unfold existsSync in E. apply orb_false_iff in E as [E _].
    apply bool_decide_eq_false in E. rewrite E2 in E. by destruct E. }
  destruct (existsSync (abs f) s); cbn [negb] in H; [|injection H as <- <-; split_and!; [by apply Hmiss|done|done]].
  apply eff_bind_ok in H as (t & s1 & H1 & H). unfold readFileSync in H1. destruct (f_text s !! abs f) as [t'|] eqn:Et; [|done]. injection H1 as -> ->.
  assert (exists c, f_text s0 !! abs f = Some c /\ removeTag t = c /\ clean f c) as (c & E0 & Hrm & Hc).
  { destruct Hf as [(_ & _ & c & E0 & E2 & _ & Hc)|[E2 Hc]].
    - exists c. rewrite Et in E2. injection E2 as ->. split_and!; [done|by apply remove_cleans|done].
    - exists t. specialize (Hc t (eq_sym E2)). split_and!; [done|apply removeTag_clean; by apply Hc|done]. }
  unfold lift in H. rewrite Hrm, no_policy_revert in H by apply Hc. apply eff_bind_ok in H as (u & s2 & H1 & H). injection H1 as <- <-.
  destruct (String.eqb_spec c t) as [E|_]; [injection H as <- <-; split_and!; [by rewrite Et, E0, E|done|done]|].
  apply eff_bind_ok in H as ([] & s2 & H1 & H). injection H as <- <-. unfold writeFileSync in H1. destruct (is_dir (abs f) s1); [done|]. injection H1 as <-.
  unfold set_text. cbn [f_text f_dirs]. split_and!; [by rewrite lookup_insert_eq|intros p Hp; by rewrite lookup_insert_ne|done].
Qed.

Lemma remove_files_ok s0 fs : forall s rs s', NoDup ((fun f => abs f) <$> fs) ->
  (forall f, f ∈ fs -> injected s0 s f \/ (f_text s !! abs f = f_text s0 !! abs f /\ forall c, f_text s0 !! abs f = Some c -> clean f c)) ->
  for_each (remove_file cwd new_RegExp base64_text) fs s = (Ok rs, s') ->
  (forall f, f ∈ fs -> f_text s' !! abs f = f_text s0 !! abs f) /\ (forall p, (forall f, f ∈ fs -> p <> abs f) -> f_text s' !! p = f_text s !! p).
Proof.
  induction fs as [|f fs IH]; intros s rs s' Hn Hf H; cbn [for_each] in H; [injection H as <- <-; by split; [intros ? ?%elem_of_nil|]|].
  apply eff_bind_ok in H as (x & s1 & H1 & H). apply eff_bind_ok in H as (rs' & s2 & H2 & H). injection H as <- <-.
  cbn [fmap list_fmap] in Hn. apply NoDup_cons in Hn as [Hfn Hn].
  assert (forall g, g ∈ fs -> abs g <> abs f) as Hne by (intros g Hg E; apply Hfn; rewrite <- E; by apply list_elem_of_fmap_2).
  apply (remove_file_ok f s0) in H1 as (E1 & E2 & Ed); [|apply Hf; left].
  apply IH in H2 as [H2 H3]; [|done|].
  - split; [|intros p Hp; rewrite H3, E2; [done|apply Hp; left|intros g Hg; apply Hp; by right]].
    intros g [->|Hg]%elem_of_cons; [|by apply H2]. rewrite H3; [done|]. intros h Hh E. by apply (Hne h Hh).
  - intros g Hg. rewrite E2 by (by apply Hne). destruct (Hf g ltac:(by right)) as [(Hin & Hd & Hc)|Hc]; [left|by right].
    split_and!; [done|unfold is_dir in *; by rewrite Ed|]. by rewrite E2 by (by apply Hne).
Qed.

(** The journal finds nothing to undo in a page without the block. *)
Lemma heal_clean_keeps s ws p c : journal_holds s ws -> p <> injectJournalPath cwd -> f_text s !! p = Some c ->
  includes MARKER_OPEN_TEXT c = false -> includes CSP_MARKER_ATTR c = false ->
  f_text (healInjectJournal cwd undoers [] s).2 !! p = Some c.
Proof.
  intros [[-> Hj]|(journal & Hr & Ha)] Hp Hc Hm Hm2.
  - unfold healInjectJournal. unfold mbind at 1, eff_bind at 1. by rewrite missing_journal.
  - apply (unowned_files_survive cwd undoers [] s p c journal (tag_artifact <$> ws)); [by rewrite Hr|done|done|done|].
    intros a Ha' _ _. left. apply list_elem_of_fmap in Ha' as (f & -> & _). split; [by intros [=]|].
    intros _. exists (JStr MARKER_OPEN_TEXT), [JStr CSP_MARKER_ATTR]. split; [reflexivity|].
    intros m Hin. apply elem_of_cons in Hin as [->|Hin]; [done|]. by apply list_elem_of_singleton in Hin as ->.
Qed.

Lemma journal_moves s s' ws : f_text s' !! injectJournalPath cwd = f_text s !! injectJournalPath cwd -> journal_holds s ws -> journal_holds s' ws.
Proof.
  intros E [[-> Hj]|(journal & Hr & Ha)]; [left; by rewrite E|right]. exists journal. split; [|done].
  revert Hr. unfold readInjectJournal, attempt, mbind, eff_bind, readFileSync. rewrite E. destruct (f_text s !! _) as [t|]; [|intros [= <-]; done].
  destruct (json_parse t); [|intros [= <-]; done]. destruct (_ || _); intros [= <-]; done.
Qed.

End Session.

(** ** A concrete session *)

Definition demo_config : js :=
  JObj [("files", JArr [JStr "index.html"; JStr "gone.html"]); ("insertBefore", JStr "</body>"); ("commentSyntax", JStr "html")].
Definition demo_tree : fsys := Fsys {[ "/p/index.html" := demo_page ]} {[ "/"; "/p"; "/p/.git" ]}.
Definition demo_files : list string := ["index.html"; "gone.html"].
Definition demo_resolved : resolved := Resolved staticHtml (PVia "fallback" None None).

Lemma demo_ready : ready "/p" demo_config 8400 (JStr "t") (int 1) (JStr "now") demo_files demo_tree.
Proof.
  split.
  - vm_compute. reflexivity.
  - split; [vm_compute; reflexivity|vm_compute; discriminate].
  - apply (bool_decide_unpack _). vm_compute. exact I.
  - intros f Hf. apply elem_of_cons in Hf as [->|Hf]; [|apply list_elem_of_singleton in Hf as ->];
      (split; [vm_compute; reflexivity|split; [vm_compute; discriminate|split; [vm_compute; discriminate|apply (bool_decide_unpack _); vm_compute; exact I]]]).
  - intros f c Hf Hc. apply elem_of_cons in Hf as [->|Hf]; [|apply list_elem_of_singleton in Hf as ->; vm_compute in Hc; discriminate Hc].
    vm_compute in Hc. injection Hc as <-. split; [vm_compute; reflexivity..|intros H; vm_compute in H; discriminate H|vm_compute; reflexivity|vm_compute; reflexivity].
  - split_and!; vm_compute; first [reflexivity|exact I].
Qed.

