(* ===== verification/InlineIgnores.v ===== *)
(** * Waivers written in the file ([detector/shared/inline-ignores.mjs])

    A comment of a scanned file can waive findings: of the whole file, of its own line, or of the next one.
    The sets of rules keep their order of insertion; a map from lines is an association list, looked up by
    number as the code does. *)
From S2P Require Import Prelude JsString JsValue JsRegex RegexFacts PollLanes.
Local Open Scope Z_scope.

Definition DIRECTIVE : string := "impeccable-disable".
(** One of the three directives as a whole word, without regard to case, then blanks, then the rest of the line. *)
Definition is_blank (c : ascii) : bool := Ascii.eqb c " " || Ascii.eqb c (chr 9).
Definition not_eol (c : ascii) : bool := negb (Ascii.eqb c NL || Ascii.eqb c CR).
Definition DIRECTIVE_RE : re :=
  (liti "impeccable-" ⋅ (RGroup 1 (liti "disable-next-line" ∥ liti "disable-line" ∥ liti "disable") ⋅ (RWordB
   ⋅ (rstar (RClass is_blank) ⋅ RGroup 2 (rstar (RClass not_eol))))))%re.
(** The end of a comment at the end of the text, with the space around it. *)
Definition TRAILING_CLOSER_RE : re :=
  (rstar rspace ⋅ ((lit "*/" ⋅ ropt (lit "}")) ∥ (lit "-" ⋅ rplus (lit "-") ⋅ lit ">") ∥ lit "*}" ∥ lit "#}" ∥ lit "%>" ∥ lit "}}")
   ⋅ rstar rspace ⋅ REol)%re.
Definition REASON_RE : re := (rstar rspace ⋅ ((lit "-" ⋅ rplus (lit "-")) ∥ lit ":") ⋅ rstar rspace)%re.

Definition normalizeRule (token : js) : string := to_lower (trim (to_str (token ||? JStr ""))).

Definition parseRuleList (remainder : string) : list string :=
  let text := trim (re_replace TRAILING_CLOSER_RE (fun _ => "") remainder) in
  let text := match re_exec REASON_RE text with Some m => stake (m_index m) text | None => text end in
  let tokens := bfilter (fun t => negb (String.eqb t ""))
    ((fun t => normalizeRule (JStr t)) <$> re_split (rplus (RClass (fun c => is_space c || Ascii.eqb c ","))) text) in
  if (length tokens =? 0)%nat || existsb (String.eqb "*") tokens then ["*"] else tokens.

(** [new Set], [set.add]. *)
Definition rule_set : Type := list string.
Definition addRules (set : rule_set) (rules : list string) : rule_set :=
  foldl (fun set rule => if bool_decide (rule ∈ set) then set else set ++ [rule]) set rules.
(** A map from lines to sets. *)
Definition line_map : Type := list (Z * rule_set).
Fixpoint line_get (line : Z) (m : line_map) : option rule_set :=
  match m with [] => None | (k, set) :: m => if k =? line then Some set else line_get line m end.
(** [addRules(getSet(map, line), rules)]: the set of the line is made when there is none. *)
Fixpoint add_line (line : Z) (rules : list string) (m : line_map) : line_map :=
  match m with
  | [] => [(line, addRules [] rules)]
  | (k, set) :: m => if k =? line then (k, addRules set rules) :: m else (k, set) :: add_line line rules m
  end.

Record directives := Directives { d_file : rule_set; d_line : line_map; d_nextLine : line_map }.
Definition no_directives : directives := Directives [] [] [].

(** One directive of the line with index [i]. *)
Definition add_directive (i : nat) (result : directives) (m : rmatch_result) : directives :=
  let variant := to_lower (group_or "" m 1) in
  let rules := parseRuleList (group_or "" m 2) in
  let number := Z.of_nat i in
  if String.eqb variant "disable" then Directives (addRules (d_file result) rules) (d_line result) (d_nextLine result)
  else if String.eqb variant "disable-line" then Directives (d_file result) (add_line (number + 1) rules (d_line result)) (d_nextLine result)
  else Directives (d_file result) (d_line result) (add_line (number + 2) rules (d_nextLine result)).

Definition parse_line (result : directives) (line : nat * string) : directives :=
  foldl (add_directive line.1) result (re_match_all DIRECTIVE_RE line.2).
Definition parse_lines (text : string) : directives :=
  foldl parse_line no_directives (imap (fun i line => (i, line)) (split_lines text)).
Definition parseInlineIgnores (content : js) : directives :=
  let text := match content with JStr s => s | _ => "" end in
  if negb (re_test (liti DIRECTIVE) text) then no_directives else parse_lines text.

Definition setMatches (set : option rule_set) (rule : string) : bool :=
  match set with Some set => existsb (String.eqb "*") set || existsb (String.eqb rule) set | None => false end.

(** The line of a finding: [Number(finding.line) || 0], and the key it is looked up with. *)
Definition finding_line (finding : js) : num := match to_num (opt_get finding "line") with NNaN => NInt 0 | n => n end.
Definition lookup_line (line : num) (m : line_map) : option rule_set := match line with NInt z => line_get z m | _ => None end.

Definition isInlineIgnored (finding : js) (d : directives) : bool :=
  let rule := normalizeRule (opt_get finding "antipattern") in
  if String.eqb rule "" then false else
  if setMatches (Some (d_file d)) rule then true else
  let line := finding_line finding in
  num_ltb (NInt 0) line && (setMatches (lookup_line line (d_line d)) rule || setMatches (lookup_line line (d_nextLine d)) rule).

Definition hasDirectives (d : directives) : bool :=
  (0 <? length (d_file d))%nat || (0 <? length (d_line d))%nat || (0 <? length (d_nextLine d))%nat.

Definition applyInlineIgnores (findings content : js) : js :=
  match findings with
  | JArr ((_ :: _) as l) =>
    let d := parseInlineIgnores content in
    if negb (hasDirectives d) then findings else JArr (bfilter (fun finding => negb (isInlineIgnored finding d)) l)
  | _ => findings
  end.

(** * Theorems *)

(** ** What a directive waives *)

Definition rules_waive (rules : list string) (rule : string) : bool := existsb (String.eqb "*") rules || existsb (String.eqb rule) rules.

Definition line_is (line : num) (z : Z) : bool := match line with NInt y => y =? z | _ => false end.
(** The directive [m] of the line with index [i] waives findings of [rule] at [line]. *)
Definition directive_waives (rule : string) (line : num) (d : nat * rmatch_result) : bool :=
  let variant := to_lower (group_or "" d.2 1) in
  rules_waive (parseRuleList (group_or "" d.2 2)) rule &&
  (if String.eqb variant "disable" then true
   else line_is line (Z.of_nat d.1 + (if String.eqb variant "disable-line" then 1 else 2))).
(** The directives of a text, from its lines. *)
Definition directives_of (text : string) : list (nat * rmatch_result) :=
  concat (imap (fun i line => pair i <$> re_match_all DIRECTIVE_RE line) (split_lines text)).
Definition waived (text : string) (finding : js) : bool :=
  let rule := normalizeRule (opt_get finding "antipattern") in
  negb (String.eqb rule "") && existsb (directive_waives rule (finding_line finding)) (directives_of text).

Lemma elem_addRules set rules x : x ∈ addRules set rules <-> x ∈ set \/ x ∈ rules.
Proof.
  revert set; induction rules as [|r rules IH]; intros set; cbn [addRules foldl]; [set_solver|]. fold (addRules (if bool_decide (r ∈ set) then set else set ++ [r]) rules).
  rewrite IH. case_bool_decide; set_solver.
Qed.
Lemma existsb_eq_elem x l : existsb (String.eqb x) l = bool_decide (x ∈ l).
Proof.
  apply eq_iff_eq_true. rewrite existsb_exists, bool_decide_eq_true, list_elem_of_In. split; [by intros (y & Hy & ->%String.eqb_eq)|].
  intros H. exists x. by rewrite String.eqb_refl.
Qed.
Lemma waive_addRules set rules rule : rules_waive (addRules set rules) rule = rules_waive set rule || rules_waive rules rule.
Proof.
  unfold rules_waive. rewrite !existsb_eq_elem. apply eq_iff_eq_true. rewrite !orb_true_iff, !bool_decide_eq_true, !elem_addRules. tauto.
Qed.

Definition line_waives (z : Z) (m : line_map) (rule : string) : bool := setMatches (line_get z m) rule.
Lemma waive_add_line z k rules m rule : line_waives z (add_line k rules m) rule = line_waives z m rule || ((k =? z) && rules_waive rules rule).
Proof.
  unfold line_waives. induction m as [|[j set] m IH]; cbn [add_line line_get].
  - destruct (k =? z); [|done]. cbn [setMatches andb orb]. apply (waive_addRules []).
  - destruct (Z.eqb_spec j k) as [->|Hne]; cbn [line_get].
    + destruct (Z.eqb_spec k z) as [->|]; [apply waive_addRules|]. by rewrite orb_false_r.
    + destruct (Z.eqb_spec j z) as [->|]; [|exact IH]. assert ((k =? z) = false) as -> by (apply Z.eqb_neq; congruence). by rewrite orb_false_r.
Qed.

Lemma line_waives_nil z rule : line_waives z [] rule = false.
Proof. done. Qed.

(** A loop that only adds to what is observed. *)
Lemma foldl_or {A B} (f : A -> B -> A) (obs : A -> bool) (g : B -> bool) : (forall a b, obs (f a b) = obs a || g b) ->
  forall l a, obs (foldl f a l) = obs a || existsb g l.
Proof. intros H l. induction l as [|b l IH]; intros a; cbn [foldl existsb]; [by rewrite orb_false_r|]. by rewrite IH, H, orb_assoc. Qed.

Lemma existsb_or {A} (f g : A -> bool) l : existsb (fun x => f x || g x) l = existsb f l || existsb g l.
Proof. induction l as [|x l IH]; [done|]. cbn [existsb]. rewrite IH. destruct (f x), (g x), (existsb f l); done. Qed.
Lemma existsb_and {A} (b : bool) (f : A -> bool) l : existsb (fun x => b && f x) l = b && existsb f l.
Proof. destruct b; [done|]. by induction l. Qed.
Lemma existsb_ext_in {A} (f g : A -> bool) l : (forall x, f x = g x) -> existsb f l = existsb g l.
Proof. intros H. induction l as [|x l IH]; [done|]. cbn [existsb]. by rewrite H, IH. Qed.

Lemma parse_lines_flat text : parse_lines text = foldl (fun d p => add_directive p.1 d p.2) no_directives (directives_of text).
Proof.
  unfold parse_lines, directives_of. generalize no_directives as d. generalize (split_lines text) as lines. intros lines.
  assert (forall n d, foldl parse_line d (imap (fun i line => (n + i, line)%nat) lines) =
    foldl (fun d p => add_directive p.1 d p.2) d (concat (imap (fun i line => pair (n + i)%nat <$> re_match_all DIRECTIVE_RE line) lines))) as H; [|intros d; exact (H 0%nat d)].
  induction lines as [|line lines IH]; intros n d; [done|]. cbn [imap concat foldl]. rewrite foldl_app.
  assert (foldl (fun d p => add_directive p.1 d p.2) d (pair (n + 0)%nat <$> re_match_all DIRECTIVE_RE line) = parse_line d ((n + 0)%nat, line)) as ->.
  { unfold parse_line. cbn [fst snd]. generalize (re_match_all DIRECTIVE_RE line) as ms. intros ms. revert d. induction ms as [|m ms IHm]; intros d; [done|].
    cbn [fmap list_fmap foldl fst snd]. apply IHm. }
  match goal with |- foldl parse_line _ (imap ?g lines) = _ => rewrite (imap_ext g (fun i l => (S n + i, l)%nat) lines) by (intros j l _; cbn; f_equal; lia) end.
  match goal with |- context [concat (imap ?g lines)] =>
    rewrite (imap_ext g (fun i l => pair (S n + i)%nat <$> re_match_all DIRECTIVE_RE l) lines) by (intros j l _; cbn; f_equal; f_equal; lia) end.
  apply IH.
Qed.

Definition variant_of (p : nat * rmatch_result) : string := to_lower (group_or "" p.2 1).
Definition rules_of_directive (p : nat * rmatch_result) : list string := parseRuleList (group_or "" p.2 2).

Lemma file_table text rule : rules_waive (d_file (parse_lines text)) rule =
  existsb (fun p => String.eqb (variant_of p) "disable" && rules_waive (rules_of_directive p) rule) (directives_of text).
Proof.
  rewrite parse_lines_flat. rewrite (foldl_or _ (fun d => rules_waive (d_file d) rule) (fun p => String.eqb (variant_of p) "disable" && rules_waive (rules_of_directive p) rule)); [done|].
  intros d p. unfold add_directive, variant_of, rules_of_directive. cbv zeta. destruct (String.eqb _ "disable"); [apply waive_addRules|].
  destruct (String.eqb _ "disable-line"); cbn [d_file andb]; by rewrite orb_false_r.
Qed.
Lemma line_table text z rule : line_waives z (d_line (parse_lines text)) rule =
  existsb (fun p => negb (String.eqb (variant_of p) "disable") && String.eqb (variant_of p) "disable-line" && ((Z.of_nat p.1 + 1 =? z) && rules_waive (rules_of_directive p) rule)) (directives_of text).
Proof.
  rewrite parse_lines_flat. rewrite (foldl_or _ (fun d => line_waives z (d_line d) rule) (fun p => negb (String.eqb (variant_of p) "disable") && String.eqb (variant_of p) "disable-line"
    && ((Z.of_nat p.1 + 1 =? z) && rules_waive (rules_of_directive p) rule))); [done|].
  intros d p. unfold add_directive, variant_of, rules_of_directive. cbv zeta. destruct (String.eqb _ "disable"); cbn [d_line negb andb]; [by rewrite orb_false_r|].
  destruct (String.eqb _ "disable-line"); cbn [d_line andb]; [apply waive_add_line|by rewrite orb_false_r].
Qed.
Lemma next_table text z rule : line_waives z (d_nextLine (parse_lines text)) rule =
  existsb (fun p => negb (String.eqb (variant_of p) "disable") && negb (String.eqb (variant_of p) "disable-line") && ((Z.of_nat p.1 + 2 =? z) && rules_waive (rules_of_directive p) rule)) (directives_of text).
Proof.
  rewrite parse_lines_flat. rewrite (foldl_or _ (fun d => line_waives z (d_nextLine d) rule) (fun p => negb (String.eqb (variant_of p) "disable") && negb (String.eqb (variant_of p) "disable-line")
    && ((Z.of_nat p.1 + 2 =? z) && rules_waive (rules_of_directive p) rule))); [done|].
  intros d p. unfold add_directive, variant_of, rules_of_directive. cbv zeta. destruct (String.eqb _ "disable"); cbn [d_nextLine negb andb]; [by rewrite orb_false_r|].
  destruct (String.eqb _ "disable-line"); cbn [d_nextLine negb andb]; [by rewrite orb_false_r|apply waive_add_line].
Qed.

(** The lookup in the three tables is the search for a directive that waives the finding. *)
Lemma ignored_is_waived text f : isInlineIgnored f (parse_lines text) = waived text f.
Proof.
  unfold isInlineIgnored, waived. cbv zeta. destruct (String.eqb _ ""); [done|]. cbn [negb andb].
  set (rule := normalizeRule _). set (line := finding_line f). cbn [setMatches]. fold (rules_waive (d_file (parse_lines text)) rule).
  set (fileP := fun p => String.eqb (variant_of p) "disable" && rules_waive (rules_of_directive p) rule).
  destruct line as [z|n d|neg|] eqn:El.
  2-4: cbn [lookup_line setMatches orb]; rewrite andb_false_r, file_table;
    match goal with |- (if ?b then true else false) = _ => transitivity b; [by destruct b|] end; apply existsb_ext_in; intros [i m];
    unfold directive_waives, fileP, variant_of, rules_of_directive, line_is; cbn [fst snd]; destruct (String.eqb _ "disable"); cbn [andb];
    [by rewrite andb_true_r|by rewrite andb_false_r].
  cbn [lookup_line]. fold (line_waives z (d_line (parse_lines text)) rule) (line_waives z (d_nextLine (parse_lines text)) rule).
    rewrite file_table, line_table, next_table.
    transitivity (existsb fileP (directives_of text) || ((0 <? z) && existsb (fun p =>
      (negb (String.eqb (variant_of p) "disable") && String.eqb (variant_of p) "disable-line" && ((Z.of_nat p.1 + 1 =? z) && rules_waive (rules_of_directive p) rule)) ||
      (negb (String.eqb (variant_of p) "disable") && negb (String.eqb (variant_of p) "disable-line") && ((Z.of_nat p.1 + 2 =? z) && rules_waive (rules_of_directive p) rule))) (directives_of text))).
    { rewrite existsb_or. fold fileP. destruct (existsb fileP _); [done|]. f_equal. }
    rewrite <- existsb_and, <- existsb_or. apply existsb_ext_in. intros [i m]. unfold directive_waives, fileP, variant_of, rules_of_directive, line_is. cbn [fst snd].
    destruct (String.eqb _ "disable"); cbn [negb andb orb]; [by rewrite andb_true_r, andb_false_r, orb_false_r|].
    destruct (String.eqb _ "disable-line"); cbn [negb andb orb].
    + rewrite orb_false_r. destruct (Z.eqb_spec (Z.of_nat i + 1) z) as [<-|Hne].
      * rewrite Z.eqb_refl, andb_true_r. assert ((0 <? Z.of_nat i + 1) = true) as -> by (apply Z.ltb_lt; lia). done.
      * assert ((z =? Z.of_nat i + 1) = false) as -> by (apply Z.eqb_neq; congruence). by rewrite !andb_false_r.
    + destruct (Z.eqb_spec (Z.of_nat i + 2) z) as [<-|Hne].
      * rewrite Z.eqb_refl, andb_true_r. assert ((0 <? Z.of_nat i + 2) = true) as -> by (apply Z.ltb_lt; lia). done.
      * assert ((z =? Z.of_nat i + 2) = false) as -> by (apply Z.eqb_neq; congruence). by rewrite !andb_false_r.
Qed.

(** ** The two early exits change nothing *)

Lemma split_char_part sep s : forall w, w ∈ split_char sep s -> exists a b, s = a +:+ w +:+ b.
Proof.
  induction s as [|c s IH]; intros w; cbn [split_char]; [intros ->%list_elem_of_singleton; by exists "", ""|].
  destruct (Ascii.eqb_spec c sep) as [->|Hne].
  - intros [->|Hw]%elem_of_cons; [by exists "", (String sep s)|]. destruct (IH w Hw) as (a & b & ->). by exists (String sep a), b.
  - destruct (split_char sep s) as [|v l] eqn:E; [by destruct (split_char_nonempty sep s)|].
    intros [->|Hw]%elem_of_cons.
    + exists "", (match l with [] => "" | _ => String sep (join (String sep "") l) end).
      cbn [append]. f_equal. rewrite <- (join_split_char sep s), E. destruct l; [cbn [join]; by rewrite sapp_nil_r|done].
    + destruct (IH w ltac:(by right)) as (a & b & ->). by exists (String c a), b.
Qed.

(** A line with a directive holds the word that the early exit looks for. *)
Lemma directive_word line m : m ∈ re_match_all DIRECTIVE_RE line -> exists a u b, line = a +:+ u +:+ b /\ to_lower u = to_lower DIRECTIVE.
Proof.
  intros (a & b & -> & Hc & _)%match_all_sound. unfold DIRECTIVE_RE in Hc. cbn [can_read] in Hc.
  destruct Hc as (s1 & s2 & Es & H1%can_read_liti & s3 & s4 & -> & H3 & _). rewrite Es.
  assert (exists v w, s3 = v +:+ w /\ to_lower v = "disable") as (v & w & -> & Hv).
  { assert (forall n d, to_lower s3 = d -> stake n d = "disable" -> exists v w, s3 = v +:+ w /\ to_lower v = "disable") as H.
    { intros n d Hd Hn. exists (stake n s3), (sdrop n s3). split; [by rewrite stake_sdrop|]. rewrite <- Hn, <- Hd. clear.
      revert n; induction s3 as [|c s IH]; intros [|n]; cbn [stake to_lower]; [done..|]. by rewrite IH. }
    destruct H3 as [[H3|H3]|H3]; apply can_read_liti in H3; [by apply (H 7%nat _ H3)..|by apply (H 7%nat _ H3)]. }
  exists a, (s1 +:+ v), (w +:+ s4 +:+ b). split; [by rewrite !sapp_assoc|].
  assert (forall x y, to_lower (x +:+ y) = to_lower x +:+ to_lower y) as Happ by (intros x y; induction x as [|c x IH]; [done|]; cbn [append to_lower]; by rewrite IH).
  by rewrite Happ, H1, Hv.
Qed.

Lemma no_word_no_directive text : re_test (liti DIRECTIVE) text = false -> directives_of text = [].
Proof.
  intros H. unfold directives_of. assert (forall line, line ∈ split_lines text -> re_match_all DIRECTIVE_RE line = []) as Hnone.
  { intros line Hl. destruct (re_match_all DIRECTIVE_RE line) as [|m ms] eqn:E; [done|]. exfalso.
    destruct (directive_word line m) as (a & u & b & -> & Hu); [rewrite E; left|]. apply split_char_part in Hl as (x & y & ->).
    apply not_true_iff_false in H. apply H. rewrite !sapp_assoc, <- (sapp_assoc x a). apply test_finds; [apply simple_liti|by apply lang_liti]. }
  revert Hnone. generalize (split_lines text) as lines. intros lines.
  assert (forall n, (forall line, line ∈ lines -> re_match_all DIRECTIVE_RE line = []) ->
    concat (imap (fun i line => pair (n + i)%nat <$> re_match_all DIRECTIVE_RE line) lines) = []) as Hgen; [|exact (Hgen 0%nat)].
  induction lines as [|line lines IH]; intros n Hn; [done|]. cbn [imap concat]. rewrite (Hn line) by left. cbn [fmap list_fmap app].
  rewrite (imap_ext _ (fun i l => pair (S n + i)%nat <$> re_match_all DIRECTIVE_RE l) lines) by (intros j l _; cbn; f_equal; f_equal; lia).
  apply IH. intros l Hl. apply Hn. by right.
Qed.

Lemma parse_bail_out text : parseInlineIgnores (JStr text) = parse_lines text.
Proof.
  unfold parseInlineIgnores. destruct (re_test (liti DIRECTIVE) text) eqn:E; [done|]. cbn [negb]. by rewrite parse_lines_flat, no_word_no_directive.
Qed.

Lemma empty_waives_nothing f d : hasDirectives d = false -> isInlineIgnored f d = false.
Proof.
  destruct d as [[|x fs] [|y ls] [|z ns]]; try done. intros _. unfold isInlineIgnored. cbv zeta. destruct (String.eqb _ ""); [done|].
  cbn [d_file d_line d_nextLine setMatches existsb orb]. destruct (finding_line f); cbn [lookup_line line_get setMatches orb]; by rewrite andb_false_r.
Qed.

(** C30: A scan keeps exactly the findings that no directive of the file waives: a directive for the file waives its rules
    everywhere, one for a line only on that line, one for the next line only on that one, and a bare directive or [*]
    every rule. Neither the search that skips files without the word nor the shortcut for files without directives
    changes what is kept. *)
Theorem waivers_are_local findings text :
  applyInlineIgnores (JArr findings) (JStr text) = JArr (bfilter (fun f => negb (waived text f)) findings).
Proof.
  assert (forall l, bfilter (fun f => negb (isInlineIgnored f (parse_lines text))) l = bfilter (fun f => negb (waived text f)) l) as He
    by (intros l; apply bfilter_ext; intros f; by rewrite ignored_is_waived).
  destruct findings as [|f fs]; [done|]. unfold applyInlineIgnores. cbv zeta. rewrite parse_bail_out.
  destruct (hasDirectives (parse_lines text)) eqn:E; cbn [negb]; [by rewrite He|].
  rewrite <- He, bfilter_all; [done|]. intros g _. by rewrite empty_waives_nothing.
Qed.

Example demo_waivers :
  let finding rule line := JObj [("antipattern", JStr rule); ("line", int line)] in
  applyInlineIgnores (JArr [finding "side-tab" 1; finding "side-tab" 2; finding "side-tab" 3; finding "bounce-easing" 2])
    (JStr (join s_nl ["/* impeccable-disable-next-line Side-Tab -- kept */"; ".x {}"; "a: b; /* impeccable-disable-line bounce-easing */"])) =
  JArr [finding "side-tab" 1; finding "side-tab" 3; finding "bounce-easing" 2].
Proof. vm_compute. reflexivity. Qed.
