(* ===== verification/TemplateExtensions.v ===== *)
(** * Configured template extensions ([lib/template-extensions.mjs])

    Which files hold markup: the entries of [detector.extensions], shared by the design
    hook and by Live's search for session markers. An entry is [{ ext, engine }]. *)
From S2P Require Import Prelude JsString JsValue Json NodePath Vocabulary EventValidation PollLanes Files IgnoreConfig.
Local Open Scope Z_scope.

Inductive engine := EngineHtml | EngineText.
#[export] Instance engine_eq_dec : EqDecision engine.
Proof. solve_decision. Defined.

Record ext_entry := ExtEntry { ext : string; engine_of : engine }.
#[export] Instance ext_entry_eq_dec : EqDecision ext_entry.
Proof. solve_decision. Defined.

Definition engine_js (e : engine) : js := JStr (match e with EngineHtml => "html" | EngineText => "text" end).
Definition ext_js (e : ext_entry) : js := JObj [("ext", JStr (ext e)); ("engine", engine_js (engine_of e))].

Definition LIVE_TEMPLATE_EXTENSIONS : list string :=
  [".html"; ".jsx"; ".tsx"; ".vue"; ".svelte"; ".astro"; ".ex"; ".heex"; ".eex"].

(** The body of the loop of [normalizeExtensionEntries]; [None] is [continue]. *)
Definition normalize_extension (entry : js) : option ext_entry :=
  match (if is_string entry then entry else opt_get entry "ext") with
  | JStr raw =>
    let e := to_lower (trim raw) in
    if String.eqb e "" then None else
    Some (ExtEntry (if starts_with "." e then e else "." +:+ e)
                   (if negb (is_string entry) && (opt_get entry "engine" === JStr "text") then EngineText else EngineHtml))
  | _ => None
  end.
Definition normalizeExtensionEntries (entries : js) : list ext_entry := omap normalize_extension (elements_of entries).

(** A [Map] by extension: a later entry takes the place of the earlier one. *)
Definition set_extensions (entries : list ext_entry) (map : list (string * ext_entry)) : list (string * ext_entry) :=
  foldl (fun map e => assoc_set (ext e) e map) map entries.
Definition mergeExtensions (existing incoming : js) : list ext_entry :=
  (set_extensions (normalizeExtensionEntries incoming) (set_extensions (normalizeExtensionEntries existing) [])).*2.

(** [name.length > ext.length && name.endsWith(ext)]. *)
Definition suffixed (name ext : string) : bool := (slen ext <? slen name)%nat && ends_with ext name.
Definition better (name : string) (best : option ext_entry) (e : ext_entry) : option ext_entry :=
  if suffixed name (ext e) && match best with Some b => (slen (ext b) <? slen (ext e))%nat | None => true end then Some e else best.
(** [path.basename(String(filePath || '')).toLowerCase()]. *)
Definition file_name (filePath : js) : string := to_lower (basename (to_str (filePath ||? JStr ""))).
Definition matchConfiguredExtension (filePath extensions : js) : option ext_entry :=
  if match elements_of extensions with [] => true | _ => false end then None else
  let name := file_name filePath in
  if String.eqb name "" then None else foldl (better name) None (normalizeExtensionEntries extensions).

Definition matchesTemplateExtension (filePath : js) (extensions : list string) : bool :=
  let name := file_name filePath in
  if String.eqb name "" then false else existsb (suffixed name) extensions.

(** ** Live's list

    The state holds the files and the memo of [resolveLiveTemplateExtensions]. *)
Definition parse_file (filePath : string) : eff fsys js :=
  attempt (text ← readFileSync filePath;
           match json_parse text with None => lift (Throw (error "Unexpected token")) | Some raw => mret raw end)
          (fun _ => mret JNull).

Definition configured_in (raw : js) : list ext_entry :=
  let detector := opt_get raw "detector" in
  if plain_object detector then normalizeExtensionEntries detector.["extensions"] else [].
Definition readLiveTemplateExtensions (cwd : string) : eff fsys (list string) :=
  shared ← parse_file (path_join [cwd; ".impeccable"; "config.json"]);
  local ← parse_file (path_join [cwd; ".impeccable"; "config.local.json"]);
  mret (foldl (fun out e => if bool_decide (ext e ∈ out) then out else out ++ [ext e]) LIVE_TEMPLATE_EXTENSIONS
          (configured_in shared ++ configured_in local)).

Definition ext_cache : Type := list (string * list string).
Definition resolveLiveTemplateExtensions (cwd : string) : eff (fsys * ext_cache) (list string) := fun s =>
  match assoc_get cwd s.2 with
  | Some cached => (Ok cached, s)
  | None =>
    match readLiveTemplateExtensions cwd s.1 with
    | (Ok resolved, f) => (Ok resolved, (f, assoc_set cwd resolved s.2))
    | (Throw e, f) => (Throw e, (f, s.2))
    end
  end.
Definition clearTemplateExtensionCache : eff (fsys * ext_cache) unit := upd (fun s => (s.1, [])).

(** * Theorems *)

(** ** The longest suffix *)

Lemma suffixed_eq name e1 e2 : suffixed name e1 = true -> suffixed name e2 = true -> slen e1 = slen e2 -> e1 = e2.
Proof.
  unfold suffixed. intros [_ H1]%andb_true_iff [_ H2]%andb_true_iff Hl. apply ends_with_iff in H1 as [a ->]. apply ends_with_iff in H2 as [b H].
  assert (slen a = slen b) as Hab by (apply (f_equal slen) in H; rewrite !slen_app in H; lia).
  pose proof (sdrop_app a e1) as E1. rewrite H, Hab, sdrop_app in E1. done.
Qed.

(** What the fold over the entries finds: the longest, the first of its length. *)
Lemma best_spec name entries best :
  (forall b, best = Some b -> suffixed name (ext b) = true) ->
  match foldl (better name) best entries with
  | Some r => (best = Some r \/ r ∈ entries) /\ suffixed name (ext r) = true /\
      (forall e, (best = Some e \/ e ∈ entries) -> suffixed name (ext e) = true -> (slen (ext e) <= slen (ext r))%nat)
  | None => best = None /\ forall e, e ∈ entries -> suffixed name (ext e) = false
  end.
Proof.
  revert best; induction entries as [|e entries IH]; intros best Hb; cbn [foldl].
  - destruct best as [b|]; [|split; [done|]; intros e He; by apply not_elem_of_nil in He]. split_and!; [by left|by apply Hb|].
    intros e [[= ->]|He]; [lia|by apply not_elem_of_nil in He].
  - assert (forall b, better name best e = Some b -> suffixed name (ext b) = true) as Hb'.
    { intros b. unfold better. destruct (suffixed name (ext e)) eqn:E; [|apply Hb]. cbn [andb]. repeat case_match; naive_solver. }
    specialize (IH _ Hb'). destruct (foldl _ (better name best e) entries) as [r|] eqn:Er.
    + destruct IH as (Hin & Hs & Hmax). split_and!; [|done|].
      * destruct Hin as [Hin|Hin]; [|by right; right]. unfold better in Hin. destruct (_ && _); [injection Hin as <-; by right; left|by left].
      * intros x Hx Hsx. unfold better in Hmax.
        destruct (suffixed name (ext e)) eqn:Ee; cbn [andb] in Hmax.
        -- destruct Hx as [->|[->|Hx]%elem_of_cons]; [|destruct best as [b|]; [|naive_solver]|by apply Hmax; [right|]].
           ++ destruct (Nat.ltb_spec (slen (ext x)) (slen (ext e))); [pose proof (Hmax e ltac:(by left) Ee); lia|by apply Hmax; [left|]].
           ++ destruct (Nat.ltb_spec (slen (ext b)) (slen (ext e))); [by apply Hmax; [left|]|].
              pose proof (Hmax b ltac:(by left) (Hb b eq_refl)). lia.
        -- destruct Hx as [->|[->|Hx]%elem_of_cons]; [by apply Hmax; [left|]|congruence|by apply Hmax; [right|]].
    + destruct IH as [Hn Hall]. unfold better in Hn. destruct (suffixed name (ext e)) eqn:Ee; cbn [andb] in Hn.
      * destruct best as [b|]; [|done]. by destruct (_ <? _)%nat.
      * split; [done|]. intros x [->|Hx]%elem_of_cons; [done|by apply Hall].
Qed.

Lemma match_configured filePath extensions :
  matchConfiguredExtension filePath extensions =
  if String.eqb (file_name filePath) "" then None else foldl (better (file_name filePath)) None (normalizeExtensionEntries extensions).
Proof.
  unfold matchConfiguredExtension, normalizeExtensionEntries. destruct (elements_of extensions) as [|x l]; [|done]. by destruct (String.eqb _ _).
Qed.

(** The longest configured suffix of the file name wins, whatever the order in the configuration: a
    match is an entry, a proper suffix of the name, and no entry that is a suffix is longer; without a
    match no entry is a suffix of the (non-empty) name; and when no extension is listed twice, listing
    the entries in another order gives the same entry. *)
Theorem longest_extension_wins filePath extensions :
  match matchConfiguredExtension filePath extensions with
  | Some r => r ∈ normalizeExtensionEntries extensions /\ suffixed (file_name filePath) (ext r) = true /\
      (forall e, e ∈ normalizeExtensionEntries extensions -> suffixed (file_name filePath) (ext e) = true -> (slen (ext e) <= slen (ext r))%nat)
  | None => file_name filePath = "" \/ forall e, e ∈ normalizeExtensionEntries extensions -> suffixed (file_name filePath) (ext e) = false
  end /\
  (NoDup (ext <$> normalizeExtensionEntries extensions) ->
   forall extensions', normalizeExtensionEntries extensions ≡ₚ normalizeExtensionEntries extensions' ->
   matchConfiguredExtension filePath extensions' = matchConfiguredExtension filePath extensions).
Proof.
  rewrite !match_configured. destruct (String.eqb_spec (file_name filePath) "") as [E|E].
  { split; [by left|]. intros _ ex' _. rewrite match_configured. by rewrite E. }
  pose proof (best_spec (file_name filePath) (normalizeExtensionEntries extensions) None ltac:(done)) as H. split.
  { destruct (foldl _ _ _) as [r|]; [|right; apply H]. destruct H as ([?|?] & ? & Hm); [done|]. split_and!; [done..|]. intros; apply Hm; [by right|done]. }
  intros Hnd ex' Hp. rewrite match_configured. destruct (String.eqb_spec (file_name filePath) "") as [?|_]; [done|].
  pose proof (best_spec (file_name filePath) (normalizeExtensionEntries ex') None ltac:(done)) as H'.
  destruct (foldl _ _ (normalizeExtensionEntries extensions)) as [r|], (foldl _ _ (normalizeExtensionEntries ex')) as [r'|].
  - destruct H as ([?|Hi] & Hs & Hm); [done|]. destruct H' as ([?|Hi'] & Hs' & Hm'); [done|]. f_equal.
    rewrite <- Hp in Hi'. assert (ext r' = ext r) as Ee.
    { eapply suffixed_eq; [done..|]. pose proof (Hm r' ltac:(by right) Hs'). assert (r ∈ normalizeExtensionEntries ex') as Hr by (by rewrite <- Hp). pose proof (Hm' r ltac:(by right) Hs). lia. }
    apply list_elem_of_lookup in Hi as [i Hi]. apply list_elem_of_lookup in Hi' as [j Hj]. 
    assert (j = i) as ->; [|congruence]. eapply NoDup_lookup; [done|by rewrite list_lookup_fmap, Hj|by rewrite list_lookup_fmap, Hi, Ee].
  - destruct H as ([?|Hi] & Hs & _); [done|]. destruct H' as [_ Hn]. rewrite Hp in Hi. by rewrite (Hn _ Hi) in Hs.
  - destruct H as [_ Hn]. destruct H' as ([?|Hi'] & Hs' & _); [done|]. rewrite <- Hp in Hi'. by rewrite (Hn _ Hi') in Hs'.
  - done.
Qed.

(** ** The list of Live *)

Lemma live_fold entries : forall out, NoDup out ->
  let out' := foldl (fun out e => if bool_decide (ext e ∈ out) then out else out ++ [ext e]) out entries in
  NoDup out' /\ forall x, x ∈ out' <-> x ∈ out \/ x ∈ ext <$> entries.
Proof.
  induction entries as [|e entries IH]; intros out Hnd; cbn [foldl].
  - split; [done|]. intros x. rewrite elem_of_nil. tauto.
  - destruct (bool_decide_reflect (ext e ∈ out)) as [Hi|Hi].
    + destruct (IH out Hnd) as [H1 H2]. split; [done|]. intros x. rewrite H2, fmap_cons, elem_of_cons. naive_solver.
    + destruct (IH (out ++ [ext e])) as [H1 H2].
      { apply NoDup_app. split_and!; [done| |by apply NoDup_singleton]. intros x Hx ->%list_elem_of_singleton. done. }
      split; [done|]. intros x. rewrite H2, fmap_cons, elem_of_cons, elem_of_app, list_elem_of_singleton. tauto.
Qed.

(** A file that the entries configure is a template for Live when its list holds their extensions. *)
Lemma configured_is_template filePath extensions exts r :
  matchConfiguredExtension filePath extensions = Some r -> (forall e, e ∈ normalizeExtensionEntries extensions -> ext e ∈ exts) ->
  matchesTemplateExtension filePath exts = true.
Proof.
  rewrite match_configured. unfold matchesTemplateExtension. destruct (String.eqb (file_name filePath) ""); [done|]. intros H Hall.
  pose proof (best_spec (file_name filePath) (normalizeExtensionEntries extensions) None ltac:(done)) as Hb. rewrite H in Hb.
  destruct Hb as ([?|Hi] & Hs & _); [done|]. apply existsb_exists. exists (ext r). split; [|done]. by apply list_elem_of_In, Hall.
Qed.
