(* ===== verification/SourceSearch.v ===== *)
(** * Finding source files

    live/source-search.mjs, the walk that wrap, insert and accept share, and lib/is-generated.mjs. What
    [fs.realpathSync] and [git check-ignore] answer are arguments. Names are listed in the order of the file system. *)
From S2P Require Import Prelude JsString JsValue JsRegex NodePath Files TemplateExtensions.
Local Open Scope nat_scope.

Definition SOURCE_SEARCH_DIRS : list string := ["src"; "app"; "pages"; "components"; "public"; "views"; "templates"; "lib"; "."].
Definition NEVER_SOURCE_DIRS : list string := ["node_modules"; ".git"; ".impeccable"].
Definition MAX_DEPTH : nat := 5.

Section Search.
Context (realpath : string -> option string).
Context (query : string) (extensions skip : list string) (fileFilter : string -> fsys -> bool).

(** A file of [dir] that the walk returns. *)
Definition holds_query (s : fsys) (dir name : string) : bool :=
  let filePath := path_join [dir; name] in
  bool_decide (is_Some (f_text s !! filePath)) && matchesTemplateExtension (JStr name) extensions && fileFilter filePath s
  && includes query (default "" (f_text s !! filePath)).

(** The directories of a listing, one after the other; [visit] walks one of them. *)
Definition walk_dirs (visit : string -> list string -> option string * list string) (s : fsys) (dir : string) :
    list string -> list string -> option string * list string :=
  fix go names seen :=
    match names with
    | [] => (None, seen)
    | name :: names =>
      if is_dir (path_join [dir; name]) s && negb (existsb (String.eqb name) skip) then
        match visit (path_join [dir; name]) seen with
        | (Some found, seen) => (Some found, seen)
        | (None, seen) => go names seen
        end
      else go names seen
    end.

(** [levels] is [MAX_DEPTH + 1 - depth]. *)
Fixpoint walk (s : fsys) (levels : nat) (dir : string) (seen : list string) : option string * list string :=
  match levels with
  | O => (None, seen)
  | S levels =>
    match realpath dir with
    | None => (None, seen)
    | Some realDir =>
      if existsb (String.eqb realDir) seen then (None, seen) else
      let seen := realDir :: seen in
      match (readdirSync dir s).1 with
      | Throw _ => (None, seen)
      | Ok entries =>
        match find (holds_query s dir) entries with
        | Some name => (Some (path_join [dir; name]), seen)
        | None => walk_dirs (walk s levels) s dir entries seen
        end
      end
    end
  end.

Fixpoint search_dirs (s : fsys) (cwd : string) (dirs seen : list string) : option string :=
  match dirs with
  | [] => None
  | dir :: dirs =>
    let absDir := path_join [cwd; dir] in
    if negb (existsSync absDir s) then search_dirs s cwd dirs seen else
    match walk s (S MAX_DEPTH) absDir seen with
    | (Some result, _) => Some result
    | (None, seen) => search_dirs s cwd dirs seen
    end
  end.
Definition findSourceFile (cwd : string) (s : fsys) : option string := search_dirs s cwd SOURCE_SEARCH_DIRS [].
End Search.

(** ** Generated files *)

Definition HEADER_SCAN_BYTES : Z := 300.
Definition HEADER_MARKERS : list re :=
  [ (liti "@generated" ⋅ RWordB)%re;
    (RWordB ⋅ lit "GENERATED" ⋅ rplus rspace ⋅ lit "FILE" ⋅ RWordB)%re;
    (RWordB ⋅ liti "AUTO" ⋅ ropt (lit "-") ⋅ liti "GENERATED" ⋅ RWordB)%re;
    (RWordB ⋅ liti "DO" ⋅ rplus rspace ⋅ liti "NOT" ⋅ rplus rspace ⋅ liti "EDIT" ⋅ RWordB)%re ].

(** The characters that are whole within the first [n] bytes. A character cut in two reads as one that is no part of a
    word, which the markers cannot tell from the end. *)
Fixpoint head_bytes (n : Z) (s : string) : string :=
  match s with
  | "" => ""
  | String c s => let size := (if code c <? 128 then 1 else 2)%Z in
                  if (size <=? n)%Z then String c (head_bytes (n - size) s) else ""
  end.

Definition hasGeneratedHeader (absPath : string) (s : fsys) : bool :=
  match f_text s !! absPath with
  | Some text => existsb (fun re => re_test re (head_bytes HEADER_SCAN_BYTES text)) HEADER_MARKERS
  | None => false
  end.
Definition isGeneratedFile (git_ignored : string -> bool) (cwd filePath : string) (s : fsys) : bool :=
  let absPath := if is_absolute filePath then filePath else resolve cwd filePath in
  git_ignored absPath || hasGeneratedHeader absPath s.

(** * Theorems *)

(** The entries of a listing of [dir] below it through directories that are not skipped. *)
Inductive reaches (skip : list string) : nat -> string -> string -> Prop :=
| R_here dir name : reaches skip 0 dir (path_join [dir; name])
| R_below n dir name file : ~ name ∈ skip -> reaches skip n (path_join [dir; name]) file -> reaches skip (S n) dir file.

Section Facts.
Context (realpath : string -> option string).
Context (query : string) (extensions skip : list string) (fileFilter : string -> fsys -> bool).
Notation walk := (walk realpath query extensions skip fileFilter).

(** What the walk may return of [dir], [n] levels deep. *)
Definition proper (s : fsys) (levels : nat) (dir file : string) : Prop :=
  (exists n, n < levels /\ reaches skip n dir file) /\
  fileFilter file s = true /\ exists text name, f_text s !! file = Some text /\ includes query text = true /\
    matchesTemplateExtension (JStr name) extensions = true /\ exists d, file = path_join [d; name].

Lemma here_proper s levels dir name : holds_query query extensions fileFilter s dir name = true -> proper s (S levels) dir (path_join [dir; name]).
Proof.
  unfold holds_query. cbv zeta. rewrite !andb_true_iff. intros [[[[text Ht]%bool_decide_eq_true He] Hf] Hq]. rewrite Ht in Hq. cbn [default] in Hq.
  split; [exists 0; split; [lia|constructor]|]. split; [done|]. exists text, name. split_and!; [done..|by exists dir].
Qed.

Lemma walk_proper s levels : forall dir seen file seen', walk s levels dir seen = (Some file, seen') -> proper s levels dir file.
Proof.
  induction levels as [|levels IH]; intros dir seen file seen' H; cbn [SourceSearch.walk] in H; [done|].
  destruct (realpath dir) as [realDir|]; [|done]. destruct (existsb _ seen); [done|].
  destruct ((readdirSync dir s).1) as [entries|]; [|done].
  destruct (find _ entries) as [name|] eqn:Ef.
  - injection H as <- _. apply find_some in Ef as [_ Ef]. by apply here_proper.
  - clear Ef. revert H. generalize (realDir :: seen). clear seen. induction entries as [|name entries IHe]; intros seen H; cbn [walk_dirs] in H; [done|].
    destruct (_ && _) eqn:Eb; [|by apply (IHe seen)]. apply andb_true_iff in Eb as [_ Hs].
    destruct (SourceSearch.walk _ _ _ _ _ s levels _ seen) as [[found|] seen1] eqn:Ew; [|by apply (IHe seen1)].
    injection H as <- _. apply IH in Ew as ((n & Hn & Hr) & Hrest). split; [|done]. exists (S n). split; [lia|].
    econstructor; [|exact Hr]. intros Hin. apply negb_true_iff in Hs. assert (existsb (String.eqb name) skip = true) as E; [|by rewrite E in Hs].
    apply existsb_exists. exists name. split; [by apply list_elem_of_In|apply String.eqb_refl].
Qed.

Lemma search_proper cwd s dirs : forall seen file, search_dirs realpath query extensions skip fileFilter s cwd dirs seen = Some file ->
  exists dir, dir ∈ dirs /\ proper s (S MAX_DEPTH) (path_join [cwd; dir]) file.
Proof.
  induction dirs as [|dir dirs IH]; intros seen file H; cbn [search_dirs] in H; [done|].
  destruct (negb _).
  - apply IH in H as (d & Hd & Hp). exists d. split; [by right|done].
  - destruct (SourceSearch.walk _ _ _ _ _ s _ _ seen) as [[found|] seen1] eqn:Ew.
    + injection H as <-. exists dir. split; [by left|]. exact (walk_proper s _ _ _ _ _ Ew).
    + apply IH in H as (d & Hd & Hp). exists d. split; [by right|done].
Qed.

(** The file that is found contains the text, ends in a template extension, passes the filter of the caller, and is
    reached from a search directory without entering a skipped directory. *)
Lemma found_is_source cwd s file : findSourceFile realpath query extensions skip fileFilter cwd s = Some file ->
  exists dir, dir ∈ SOURCE_SEARCH_DIRS /\ proper s (S MAX_DEPTH) (path_join [cwd; dir]) file.
Proof. apply search_proper. Qed.
End Facts.
