(* ===== verification/LiveWrap.v ===== *)
(** * Wrapping an element ([live-wrap.mjs])

    The search for the element in a source file, the staged copy edits that are shown in the wrapped original, the
    wrapper itself, and the command. The scaffold of a Svelte component session (live/svelte-component.mjs) is an
    argument of the command. *)
From S2P Require Import Prelude JsString JsValue Json JsRegex RegexFacts NodePath EventValidation PollLanes Files ManualEditsBuffer TagStrategy VariantBlock Adapters Frameworks IgnoreConfig TemplateExtensions SourceSearch.
Local Open Scope Z_scope.
Local Open Scope list_scope.

(** ** Queries *)

Definition given (o : option string) : bool := match o with Some "" | None => false | Some _ => true end.
Definition splitClassList (classes : string) : list string :=
  bfilter (fun c => negb (String.eqb c "")) (trim <$> re_split (rplus (RClass (fun c => Ascii.eqb c "," || is_space c))) classes).
Definition in_quotes (attr value : string) : string := attr +:+ "=" +:+ s_dq +:+ value +:+ s_dq.

Definition class_queries (classes : string) : list string :=
  match splitClassList classes with
  | [] => []
  | [c] => [c]
  | classList => [in_quotes "class" (join " " classList); in_quotes "className" (join " " classList)]
                 ++ sort_by (fun a b => (slen b <? slen a)%nat) classList
  end.
Definition tag_queries (tag classes : string) : list string :=
  let firstClass := default "undefined" (head (splitClassList classes)) in
  ["<" +:+ tag +:+ " class=" +:+ s_dq +:+ firstClass; "<" +:+ tag +:+ " className=" +:+ s_dq +:+ firstClass].

Definition buildSearchQueries (elementId classes tag query : option string) : list string :=
  (if given elementId then [in_quotes "id" (default "" elementId)] else [])
  ++ (if given classes then class_queries (default "" classes) else [])
  ++ (if given tag && given classes then tag_queries (default "" tag) (default "" classes) else [])
  ++ (if given query then [default "" query] else []).

(** ** Elements *)

Definition OPENER_RE : re :=
  (lit "<" ⋅ (RGroup 1 (RClass is_alpha ⋅ rstar (RClass is_alnum)) ⋅ RLook false (RClass (fun c => is_space c || one_of "/>" c) ∥ REol)))%re.
Definition opener_tag (line : string) : option string := (fun m => group_or "" m 1) <$> re_exec OPENER_RE line.
Definition wanted (tag : option string) (found : string) : bool := negb (given tag) || bool_decide (tag = Some found).

(** The walk back from line [i - 1], at most [n] lines. *)
Fixpoint opener_above (lines : list string) (tag : option string) (n i : nat) : option nat :=
  match n, i with
  | S n, S above =>
    match opener_tag (line_at lines above) with
    | None => opener_above lines tag n above
    | Some opener => if wanted tag opener then Some above else None
    end
  | _, _ => None
  end.
Definition MAX_BACKWALK : nat := 10.
Definition findOpenerLine (lines : list string) (matchLine : nat) (tag : option string) : option nat :=
  match opener_tag (line_at lines matchLine) with
  | Some self => if wanted tag self then Some matchLine else None
  | None => opener_above lines tag MAX_BACKWALK matchLine
  end.

Definition count_matches (r : re) (line : string) : Z := Z.of_nat (length (re_match_all r line)).
Definition depth_of_line (tagName line : string) : Z :=
  let opens := count_matches (lit ("<" +:+ tagName) ⋅ RLook false (RClass (fun c => is_space c || one_of "/>" c) ∥ REol))%re line in
  let selfCloses := count_matches (lit ("<" +:+ tagName) ⋅ (not_gt ⋅ lit "/>"))%re line in
  let closes := count_matches (lit ("</" +:+ tagName) ⋅ (rstar rspace ⋅ lit ">"))%re line in
  opens - selfCloses - closes.
Fixpoint close_from (tagName : string) (i : nat) (depth : Z) (lines : list string) : option nat :=
  match lines with
  | [] => None
  | line :: lines =>
    let depth := depth + depth_of_line tagName line in
    if depth <=? 0 then Some i else close_from tagName (S i) depth lines
  end.
Definition findClosingLine (lines : list string) (start : nat) : nat :=
  match opener_tag (line_at lines start) with
  | None => start
  | Some tagName => match close_from tagName start 0 (drop start lines) with
                    | Some i => i
                    | None => Nat.min (start + 50) (length lines - 1)
                    end
  end.

Record element := Element { e_start : nat; e_end : nat }.

(** The element a line with the query belongs to. *)
Definition element_at (lines : list string) (tag : option string) (i : nat) (line query : string) : option element :=
  if negb (includes query line) then None else
  let stripped := trim line in
  if starts_with "<!--" stripped || starts_with "{/*" stripped || starts_with "//" stripped then None else
  if includes "data-impeccable-variant" line then None else
  match findOpenerLine lines i tag with
  | Some openerLine => Some (Element openerLine (findClosingLine lines openerLine))
  | None => None
  end.
Definition elements_at (lines : list string) (query : string) (tag : option string) : list element :=
  omap (fun p => element_at lines tag p.1 p.2 query) (imap (fun i line => (i, line)) lines).
Definition findElement (lines : list string) (query : string) (tag : option string) : option element := head (elements_at lines query tag).

(** [if (seen.has(openerLine)) continue]. *)
Definition add_element (out : list element) (c : element) : list element :=
  if existsb (fun x => (e_start x =? e_start c)%nat) out then out else out ++ [c].
Definition findAllElements (lines : list string) (query : string) (tag : option string) : list element :=
  foldl add_element [] (elements_at lines query tag).

Definition one_space (s : string) : string := re_replace_all (rplus rspace) (fun _ => " ") s.
Definition no_space (s : string) : string := re_replace_all (rplus rspace) (fun _ => "") s.
Definition filterByText (candidates : list element) (lines : list string) (text : string) : list element :=
  let trimmed := stake 80 (to_lower (trim (one_space text))) in
  if (slen trimmed <? 8)%nat then [] else
  bfilter (fun c =>
    let body := join " " (take (S (e_end c) - e_start c) (drop (e_start c) lines)) in
    let inner := to_lower (re_replace_all (lit "{" ⋅ (rstar (RClass (none_of "}")) ⋅ lit "}"))%re (fun _ => " ")
                             (re_replace_all (lit "<" ⋅ (not_gt ⋅ lit ">"))%re (fun _ => " ") body)) in
    includes trimmed (trim (one_space inner)) || includes (no_space trimmed) (no_space inner)) candidates.

(** The candidates of the queries, until one query leaves exactly one. *)
Fixpoint gather (lines : list string) (tag : option string) (queries : list string) (candidates : list element) : list element :=
  match queries with
  | [] => candidates
  | q :: queries =>
    let candidates := foldl add_element candidates (findAllElements lines q tag) in
    if (length candidates =? 1)%nat then candidates else gather lines tag queries candidates
  end.

Inductive located := Located (e : element) | NotLocated | Ambiguous (reason : option string) (candidates : list element).
Definition first_element (lines : list string) (tag : option string) (queries : list string) : located :=
  match omap (fun q => findElement lines q tag) queries with e :: _ => Located e | [] => NotLocated end.
Definition locate (lines : list string) (queries : list string) (tag text : option string) : located :=
  if negb (given text) then first_element lines tag queries else
  let text := default "" text in
  match gather lines tag queries [] with
  | [] => NotLocated
  | [e] => Located e
  | (e :: _) as candidates =>
    match filterByText candidates lines text with
    | [e'] => Located e'
    | [] => if (slen (trim (one_space text)) <? 8)%nat then Located e else Ambiguous (Some "rendered_text_not_in_source") candidates
    | filtered => Ambiguous None filtered
    end
  end.

(** ** Staged copy edits *)

Definition replace_first (value needle replacement : string) : string :=
  match index_of needle value with
  | Some index => stake index value +:+ replacement +:+ sdrop (index + slen needle) value
  | None => value
  end.
Fixpoint count_occurrences (fuel : nat) (value needle : string) : nat :=
  match fuel with
  | O => O
  | S fuel => match index_of needle value with
              | Some index => S (count_occurrences fuel (sdrop (index + slen needle) value) needle)
              | None => O
              end
  end.
Definition countOccurrences (value needle : string) : nat :=
  if String.eqb needle "" then O else count_occurrences (S (slen value)) value needle.

Definition tag_locator (tag : string) : re :=
  (lit "<" ⋅ (rstar rspace ⋅ (liti tag ⋅ RLook false (RClass (fun c => is_space c || one_of ">/" c) ∥ REol))))%re.
Definition id_locator (id : string) : re :=
  let q := RClass (fun c => Ascii.eqb c DQ || Ascii.eqb c "'") in
  (RWordB ⋅ (lit "id" ⋅ (rstar rspace ⋅ (lit "=" ⋅ (rstar rspace ⋅ (q ⋅ (lit id ⋅ q)))))))%re.
Definition lineMatchesManualEditLocator (line : string) (op : js) : bool :=
  (negb (truthy op.["tag"]) || re_test (tag_locator (to_str op.["tag"])) line)
  && (negb (truthy op.["elementId"]) || re_test (id_locator (to_str op.["elementId"])) line)
  && forallb (fun className => includes (to_str className) line)
       (match op.["classes"] with JArr l => bfilter truthy l | _ => [] end).

(** [op.originalText] when it is a string that is not empty. *)
Definition original_text (op : js) : option string :=
  match opt_get op "originalText" with JStr "" => None | JStr t => Some t | _ => None end.

(** The hinted line of the selection; a fraction within the range is no index, and the read throws. *)
Definition hinted_line (op : js) (selectionStartLine : nat) (originalLines : list string) : result (option (nat * string)) :=
  let line := to_num (opt_get (opt_get op "sourceHint") "line") in
  if negb (num_is_finite line) then Ok None else
  let hintedIndex := num_add line (NInt (-1 - Z.of_nat selectionStartLine)) in
  if num_leb (NInt 0) hintedIndex && num_ltb hintedIndex (NInt (Z.of_nat (length originalLines))) then
    match hintedIndex with
    | NInt z => Ok (Some (Z.to_nat z, line_at originalLines (Z.to_nat z)))
    | _ => Throw (error "Cannot read properties of undefined (reading 'includes')")
    end
  else Ok None.

Definition manualEditHintFallsInsideSelection (cwd : string) (op : js) (targetAbs : string) (originalLines : list string) (selectionStartLine : nat) : result bool :=
  let hintFile := opt_get (opt_get op "sourceHint") "file" in
  if negb (truthy hintFile) || negb (num_is_finite (to_num (opt_get (opt_get op "sourceHint") "line"))) then Ok false else
  match hintFile with
  | JStr f =>
    if negb (String.eqb (resolve cwd f) targetAbs) then Ok false else
    match opt_get op "originalText" with
    | JStr t => h ← hinted_line op selectionStartLine originalLines;
                Ok (match (h : option (nat * string)) with Some (_, line) => includes t line | None => false end)
    | _ => Ok false
    end
  | _ => Throw (error "The path argument must be of type string")
  end.
Definition manualEditLocatorMatchesSelection (op : js) (originalLines : list string) : bool :=
  match original_text op with
  | Some t => existsb (fun line => includes t line && lineMatchesManualEditLocator line op) originalLines
  | None => false
  end.
Definition manualEditMayAffectWrap (cwd : string) (op : js) (targetFile : string) (originalLines : list string) (selectionStartLine : nat) : result bool :=
  hint ← manualEditHintFallsInsideSelection cwd op (resolve cwd targetFile) originalLines selectionStartLine;
  Ok ((hint : bool) || manualEditLocatorMatchesSelection op originalLines
      || match original_text op with Some t => includes t (join s_nl originalLines) | None => false end).

Definition replace_line (originalLines : list string) (i : nat) (from to : string) : list string :=
  imap (fun j line => if (j =? i)%nat then replace_first line from to else line) originalLines.

(** The line that alone matches the locators of the edit, or the only occurrence in the block. *)
Definition locator_matches (originalLines : list string) (op : js) (from : string) : list nat :=
  omap (fun p => if includes from p.2 && lineMatchesManualEditLocator p.2 op then Some p.1 else None) (imap (fun i line => (i, line)) originalLines).
Definition without_hint (originalLines : list string) (op : js) (from to : string) : option (list string) :=
  match locator_matches originalLines op from with
  | [i] => Some (replace_line originalLines i from to)
  | _ => let originalBlock := join s_nl originalLines in
         if (countOccurrences originalBlock from =? 1)%nat then Some (split_lines (replace_first originalBlock from to)) else None
  end.

(** [None]: the edit changes nothing. *)
Definition applyBufferedManualEditToLines (originalLines : list string) (selectionStartLine : nat) (op : js) : result (option (list string)) :=
  match original_text op, opt_get op "newText" with
  | Some from, JStr to =>
    h ← hinted_line op selectionStartLine originalLines;
    Ok (match (h : option (nat * string)) with
        | Some (i, line) => if includes from line then Some (replace_line originalLines i from to) else without_hint originalLines op from to
        | None => without_hint originalLines op from to
        end)
  | _, _ => Ok None
  end.

(** ** The wrapper *)

Definition reindent_original (indent : string) (originalLines : list string) : list string :=
  let originalBaseIndent := min_indent originalLines in
  (fun l => if blank l then "" else indent +:+ "    " +:+ sdrop originalBaseIndent l) <$> originalLines.

Definition style_contents (isJsx : bool) : string :=
  if isJsx then "style={{ display: " +:+ s_dq +:+ "contents" +:+ s_dq +:+ " }}" else "style=" +:+ s_dq +:+ "display: contents" +:+ s_dq.
Definition variants_attr (id : string) : string := "data-impeccable-variants=" +:+ s_dq +:+ id +:+ s_dq.
Definition outer_div (isJsx : bool) (id : string) (count : num) : string :=
  "<div " +:+ variants_attr id +:+ " data-impeccable-variant-count=" +:+ s_dq +:+ num_to_string count +:+ s_dq +:+ " " +:+ style_contents isJsx +:+ ">".

(** The wrapper up to the line under which the variants go, and what is below them. The original is one element of the
    array, with line ends in it. *)
Definition wrapper_above (isJsx : bool) (c : comment_syntax) (id : string) (count : num) (indent : string) (originalLines : list string) : list string :=
  let start := comment_line c ("impeccable-variants-start " +:+ id) in
  (if isJsx then [indent +:+ outer_div isJsx id count; indent +:+ "  " +:+ start]
   else [indent +:+ start; indent +:+ outer_div isJsx id count])
  ++ [ indent +:+ "  " +:+ comment_line c "Original";
       indent +:+ "  <div " +:+ variant_attr "original" +:+ ">";
       join s_nl (reindent_original indent originalLines);
       indent +:+ "  </div>";
       indent +:+ "  " +:+ comment_line c "Variants: insert below this line" ].
Definition wrapper_below (isJsx : bool) (c : comment_syntax) (id indent : string) : list string :=
  let end_ := comment_line c ("impeccable-variants-end " +:+ id) in
  if isJsx then [indent +:+ "  " +:+ end_; indent +:+ "</div>"] else [indent +:+ "</div>"; indent +:+ end_].
Definition wrapperLines (isJsx : bool) (c : comment_syntax) (id : string) (count : num) (indent : string) (originalLines : list string) : list string :=
  wrapper_above isJsx c id count indent originalLines ++ wrapper_below isJsx c id indent.

(** ** What the command says about the style *)

Definition syntax_of (filePath : string) : comment_syntax :=
  if String.eqb (st_commentSyntax (resolveSourceTraits (JStr filePath)).2) "jsx" then jsx_comments else html_comments.
Definition comment_js (c : comment_syntax) : js := JObj [("open", JStr (cs_open c)); ("close", JStr (cs_close c))].

(** [Array.from({ length: count }, ...)]. *)
Definition numbers_to (count : num) : result (list Z) :=
  match count with
  | NInt z => if 4294967295 <? z then Throw (error "Invalid array length") else Ok (Z.of_nat <$> seq 1 (Z.to_nat z))
  | _ => Ok []
  end.
Definition ASTRO_MODE : string := "astro-global-prefixed".
Definition buildCssSelectorPrefixExamples (mode : string) (count : num) : result js :=
  if negb (String.eqb mode ASTRO_MODE) then Ok (JArr []) else
  ns ← numbers_to count; Ok (JArr ((fun n => JStr ("[" +:+ variant_attr (print_Z n) +:+ "]")) <$> (ns : list Z))).

Definition strings (l : list string) : js := JArr (JStr <$> l).
Definition buildCssAuthoring (mode styleTag : string) (count : num) : result js :=
  ns ← numbers_to count;
  let ns := (ns : list Z) in
  if String.eqb mode ASTRO_MODE then
    Ok (JObj [("mode", JStr mode); ("styleTag", JStr styleTag); ("strategy", JStr "global-prefixed");
      ("rulePattern", JStr ("[" +:+ variant_attr "N" +:+ "] > .variant-class { ... }"));
      ("selectorExamples", strings ((fun n => "[" +:+ variant_attr (print_Z n) +:+ "] > .variant-class") <$> ns));
      ("requirements", strings
        [ "Use the styleTag exactly; the is:inline attribute is required for this file.";
          "Put raw CSS directly between the styleTag opening and a plain </style> close.";
          "Prefix every preview selector with the matching [" +:+ variant_attr "N" +:+ "] selector.";
          "Keep selectors anchored to the generated variant wrapper; do not rely on component CSS scoping for preview rules." ]);
      ("forbidden", strings
        [ "Do not use @scope for this styleMode.";
          "Do not wrap style content in a JSX/TSX template literal ({` ... `}); that syntax is for .tsx/.jsx only.";
          "Do not put { immediately after the style opening tag; Astro parses { as expression syntax." ])])
  else
    Ok (JObj [("mode", JStr mode); ("styleTag", JStr styleTag); ("strategy", JStr "scope-rule");
      ("rulePattern", JStr ("@scope ([" +:+ variant_attr "N" +:+ "]) { :scope > .variant-class { ... } }"));
      ("selectorExamples", strings ((fun n => "@scope ([" +:+ variant_attr (print_Z n) +:+ "]) { :scope > .variant-class { ... } }") <$> ns));
      ("requirements", strings
        [ "Use @scope blocks keyed to each [" +:+ variant_attr "N" +:+ "] wrapper.";
          "Inside each @scope block, make :scope rules step into the replacement element with a descendant combinator.";
          "Use the styleTag exactly; do not add framework-specific style attributes unless this object says to." ]);
      ("forbidden", strings
        [ "Do not use global [" +:+ variant_attr "N" +:+ "] selector prefixes for this styleMode.";
          "Do not add is:inline to the style tag for this styleMode." ])]).

(** ** The command *)

(** What is printed, and whether the exit code is 1. *)
Record printed := Printed { pr_out : js; pr_failed : bool }.

Definition argVal (args : list string) (flag : string) : option string :=
  match find (fun arg => starts_with (flag +:+ "=") arg) args with
  | Some arg => Some (sdrop (slen flag + 1) arg)
  | None => match find_index (String.eqb flag) args with Some idx => args !! S idx | None => None end
  end.

Definition truthy_or (v : js) : js := v ||? JNull.
Definition opt_js (o : option string) : js := match o with Some t => JStr t | None => JUndef end.

(** [some(...)] with a test that may throw. *)
Fixpoint some_ok (f : js -> result bool) (l : list js) : result bool :=
  match l with
  | [] => Ok false
  | x :: l => b ← f x; if (b : bool) then Ok true else some_ok f l
  end.
Definition entry_ops (entry : js) : result (list js) :=
  ops ← read_prop entry "ops";
  if truthy ops then as_ops ops else Ok [].

Section Wrap.
Context (cwd liveDir : string) (realpath : string -> option string) (git_ignored : string -> bool).

Definition pendingEntriesThatMayAffectWrap (entries : list js) (targetFile : string) (originalLines : list string) (start : nat) : result (list js) :=
  foldr (fun entry rest =>
    ops ← entry_ops entry;
    b ← some_ok (fun op => manualEditMayAffectWrap cwd op (resolve cwd targetFile) originalLines start) ops;
    l ← (rest : result (list js));
    Ok (if (b : bool) then entry :: l else l)) (Ok []) entries.

(** The staged edits of the page, one after the other: the lines so far and the edits that could not be applied. *)
Fixpoint apply_ops (entryId : js) (targetFile : string) (start : nat) (ops : list js) (lines : list string) (failed : list js) : result (list string * list js) :=
  match ops with
  | [] => Ok (lines, failed)
  | op :: ops =>
    mayAffectWrap ← manualEditMayAffectWrap cwd op targetFile lines start;
    r ← applyBufferedManualEditToLines lines start op;
    match (r : option (list string)) with
    | Some lines => apply_ops entryId targetFile start ops lines failed
    | None => apply_ops entryId targetFile start ops lines
        (if (mayAffectWrap : bool) then failed ++ [JObj [("entryId", entryId); ("ref", truthy_or (opt_get op "ref"));
           ("originalText", truthy_or (opt_get op "originalText")); ("reason", JStr "ambiguous_or_unmatched_pending_edit")]] else failed)
    end
  end.
Fixpoint apply_entries (pageUrl targetFile : string) (start : nat) (entries : list js) (lines : list string) (failed : list js) : result (list string * list js) :=
  match entries with
  | [] => Ok (lines, failed)
  | entry :: entries =>
    page ← read_prop entry "pageUrl";
    if negb (page === JStr pageUrl) then apply_entries pageUrl targetFile start entries lines failed else
    ops ← (if truthy entry.["ops"] then iterate entry.["ops"] else Ok []);
    r ← apply_ops entry.["id"] targetFile start ops lines failed;
    apply_entries pageUrl targetFile start entries r.1 r.2
  end.

Definition rel_of (file : string) : string := relative cwd (resolve cwd file).
Definition fallback_error (fields : list (string * js)) : printed := Printed (JObj fields) true.

Definition findFileWithQuery (exts : list string) (includeGenerated : bool) (s : fsys) (q : string) : option string :=
  findSourceFile realpath q exts NEVER_SOURCE_DIRS (fun f s => includeGenerated || negb (isGeneratedFile git_ignored cwd f s)) cwd s.
Definition first_hit (exts : list string) (includeGenerated : bool) (queries : list string) (s : fsys) : option string :=
  head (omap (findFileWithQuery exts includeGenerated s) queries).

(** The file to wrap in, or the refusal. *)
Definition find_target (exts queries : list string) (filePath : option string) (s : fsys) : printed + string :=
  if given filePath then
    let file := default "" filePath in
    if isGeneratedFile git_ignored cwd file s then
      inl (fallback_error [("error", JStr "file_is_generated"); ("fallback", JStr "agent-driven"); ("file", JStr (rel_of file));
        ("hint", JStr ("Explicit --file points at a generated file. Writing here gets wiped by the next build. See " +:+ s_dq +:+ "Handle fallback" +:+ s_dq +:+ " in live.md."))])
    else inr file
  else
    match first_hit exts false queries s with
    | Some file => inr file
    | None =>
      match first_hit exts true queries s with
      | Some generatedHit =>
        inl (fallback_error [("error", JStr "element_not_in_source"); ("fallback", JStr "agent-driven"); ("generatedMatch", JStr (rel_of generatedHit));
          ("hint", JStr ("Element found only in a generated file. See " +:+ s_dq +:+ "Handle fallback" +:+ s_dq +:+ " in live.md."))])
      | None =>
        inl (fallback_error [("error", JStr "element_not_found"); ("fallback", JStr "agent-driven");
          ("hint", JStr ("Element not found in any project file. It may be runtime-injected (JS component, etc.). See " +:+ s_dq +:+ "Handle fallback" +:+ s_dq +:+ " in live.md."))])
      end
    end.

Definition candidates_js (l : list element) : js :=
  JArr ((fun c => JObj [("startLine", int (Z.of_nat (e_start c) + 1)); ("endLine", int (Z.of_nat (e_end c) + 1))]) <$> l).
Definition not_located (targetFile : string) (queries : list string) (l : located) : printed :=
  match l with
  | Ambiguous (Some reason) candidates =>
    fallback_error [("error", JStr "element_ambiguous"); ("fallback", JStr "agent-driven"); ("reason", JStr reason); ("file", JStr (rel_of targetFile)); ("candidates", candidates_js candidates);
      ("hint", JStr "Rendered text does not occur in any matching source branch. The element may use dynamic props or expressions; inspect the candidates and wrap the intended instance manually.")]
  | Ambiguous None filtered =>
    fallback_error [("error", JStr "element_ambiguous"); ("fallback", JStr "agent-driven"); ("file", JStr (rel_of targetFile)); ("candidates", candidates_js filtered);
      ("hint", JStr ("Multiple source elements match both classes/tag and textContent. Pass --element-id, a more specific --text, or write the wrapper manually. See "
                     +:+ s_dq +:+ "Handle fallback" +:+ s_dq +:+ " in live.md."))]
  | _ => fallback_error [("error", JStr ("Found file but could not locate element in " +:+ targetFile +:+ ". Searched for: " +:+ join ", " queries))]
  end.

(** The lines of the element as the page shows them, or the refusal. *)
Definition shown_original (pageUrl : option string) (targetFile : string) (start : nat) (originalLines : list string) (entries : list js) : result (printed + list string) :=
  if negb (given pageUrl) then
    pending ← pendingEntriesThatMayAffectWrap entries targetFile originalLines start;
    match (pending : list js) with
    | [] => Ok (inr originalLines)
    | _ => Ok (inl (fallback_error [("error", JStr "missing_page_url_with_pending_edits"); ("pendingEntries", int (Z.of_nat (length pending)));
             ("hint", JStr "Pending manual edits may affect the selected source block. Pass --page-url=$event.pageUrl so the wrap block reflects the user's staged DOM.")]))
    end
  else
    r ← apply_entries (default "" pageUrl) targetFile start entries originalLines [];
    match r.2 with
    | [] => Ok (inr r.1)
    | failed => Ok (inl (fallback_error [("error", JStr "manual_edit_buffer_apply_failed"); ("pendingOps", JArr failed);
        ("hint", JStr "A staged copy edit appears to affect the selected source block, but could not be applied unambiguously to the wrap original. Apply or discard copy edits first, or write the wrapper manually.")]))
    end.

(** The wrapper in the place of the lines of the element. *)
Definition wrapped_lines (lines : list string) (e : element) (wrapper : list string) : list string :=
  take (e_start e) lines ++ wrapper ++ drop (S (e_end e)) lines.

(** What the wrapper of a source preview is and where it goes; with [deferSourceWrite] it is not written. *)
Definition wrap_source (id : string) (count : num) (deferSourceWrite : bool) (previewFallback : js) (targetFile : string) (lines originalLines : list string) (e : element) : eff fsys printed :=
  let c := syntax_of targetFile in
  let isJsx := is_jsx c in
  let traits := (resolveSourceTraits (JStr targetFile)).2 in
  let indent := indent_of (line_at lines (e_start e)) in
  let wrapper := wrapperLines isJsx c id count indent originalLines in
  let startLine := Z.of_nat (e_start e) in
  let extra := Z.of_nat (length originalLines) - 1 in
  let deferred := fun v : js => if deferSourceWrite then v else JUndef in
  _ ← run_if (negb deferSourceWrite) (writeFileSync (resolve cwd targetFile) (join s_nl (wrapped_lines lines e wrapper)));
  examples ← lift (buildCssSelectorPrefixExamples (st_styleMode traits) count);
  authoring ← lift (buildCssAuthoring (st_styleMode traits) (st_styleTag traits) count);
  mret (Printed (JObj [
    ("file", JStr (rel_of targetFile)); ("previewFallback", previewFallback);
    ("sourceWritten", deferred (JBool false)); ("wrapperBlock", deferred (JStr (join s_nl wrapper)));
    ("replaceStartLine", deferred (int (startLine + 1))); ("replaceEndLine", deferred (int (Z.of_nat (e_end e) + 1)));
    ("startLine", int (startLine + 1)); ("endLine", int (startLine + Z.of_nat (length wrapper) + extra)); ("insertLine", int (startLine + 6 + extra + 1));
    ("commentSyntax", comment_js c); ("styleMode", JStr (st_styleMode traits)); ("styleTag", JStr (st_styleTag traits));
    ("cssSelectorPrefixExamples", examples); ("cssAuthoring", authoring); ("originalLineCount", int (extra + 1)) ]) false).

(** The scaffold of a component session: a refusal with its reason, or what the command prints. *)
Definition wrap_with (scaffold : option (eff fsys (string + printed))) (id : string) (count : num) (deferSourceWrite : bool) (targetFile : string)
    (lines originalLines : list string) (e : element) : eff fsys printed :=
  match scaffold with
  | None => wrap_source id count deferSourceWrite JUndef targetFile lines originalLines e
  | Some m =>
    r ← m;
    match (r : string + printed) with
    | inl reason => wrap_source id count deferSourceWrite (JObj [("from", JStr "svelte-component"); ("reason", JStr reason)]) targetFile lines originalLines e
    | inr p => mret p
    end
  end.

(** [component] is the scaffold for the files that live/svelte-component.mjs claims. *)
Definition wrapCli (component : string -> element -> list string -> option (eff fsys (string + printed))) (args : list string) : eff fsys printed :=
  let id := argVal args "--id" in
  let count := parse_int (match argVal args "--count" with Some "" | None => "3" | Some t => t end) in
  let elementId := argVal args "--element-id" in
  let classes := argVal args "--classes" in
  let tag := argVal args "--tag" in
  let query := argVal args "--query" in
  let text := argVal args "--text" in
  let pageUrl := argVal args "--page-url" in
  let deferSourceWrite := existsb (String.eqb "--defer-source-write") args in
  if negb (given id) then mret (Printed (JStr "Missing --id") true) else
  if negb (given elementId) && negb (given classes) && negb (given query)
  then mret (Printed (JStr "Need at least one of: --element-id, --classes, --query") true) else
  let queries := buildSearchQueries elementId classes tag query in
  exts ← readLiveTemplateExtensions cwd;
  target ← get (find_target exts queries (argVal args "--file"));
  match (target : printed + string) with
  | inl p => mret p
  | inr targetFile =>
    content ← readFileSync (resolve cwd targetFile);
    let lines := split_lines content in
    match locate lines queries tag text with
    | Located e =>
      let original := take (S (e_end e) - e_start e) (drop (e_start e) lines) in
      entries ← attempt (readBuffer liveDir) (fun _ => mret []);
      shown ← lift (shown_original pageUrl targetFile (e_start e) original entries);
      match (shown : printed + list string) with
      | inl p => mret p
      | inr originalLines => wrap_with (component targetFile e originalLines) (default "" id) count deferSourceWrite targetFile lines originalLines e
      end
    | l => mret (not_located targetFile queries l)
    end
  end.
End Wrap.
