(* ===== verification/LiveInsert.v ===== *)
(** * Inserting beside an element ([live-insert.mjs])

    The wrapper for variants that are new markup before or after an anchor element, and the command that puts it into
    the source file. *)
From S2P Require Import Prelude JsString JsValue Json JsRegex NodePath Files TagStrategy VariantBlock Frameworks TemplateExtensions SourceSearch LiveWrap.
Local Open Scope Z_scope.
Local Open Scope list_scope.

Definition POSITIONS : list string := ["before"; "after"].
Definition isInsertPosition (value : string) : bool := existsb (String.eqb value) POSITIONS.
Definition computeInsertLine (startLine endLine : nat) (position : string) : nat :=
  if String.eqb position "before" then startLine else S endLine.

Definition insert_div (isJsx : bool) (id : string) (count : num) : string :=
  "<div " +:+ variants_attr id +:+ " data-impeccable-mode=" +:+ s_dq +:+ "insert" +:+ s_dq +:+ " data-impeccable-variant-count=" +:+ s_dq
  +:+ num_to_string count +:+ s_dq +:+ " " +:+ style_contents isJsx +:+ ">".

(** The wrapper up to the line under which the variants go, and what is below them. *)
Definition insert_above (isJsx : bool) (c : comment_syntax) (id : string) (count : num) (indent : string) : list string :=
  let start := comment_line c ("impeccable-variants-start " +:+ id) in
  (if isJsx then [indent +:+ insert_div isJsx id count; indent +:+ "  " +:+ start]
   else [indent +:+ start; indent +:+ insert_div isJsx id count])
  ++ [indent +:+ "  " +:+ comment_line c "Variants: insert below this line"].
Definition buildInsertWrapperLines (isJsx : bool) (c : comment_syntax) (id : string) (count : num) (indent : string) : list string :=
  insert_above isJsx c id count indent ++ wrapper_below isJsx c id indent.

(** [argVal] of this command: no [--flag=value]. *)
Definition arg_after (args : list string) (flag : string) : option string :=
  match find_index (String.eqb flag) args with Some idx => args !! S idx | None => None end.

Definition resolveElementMatch (lines : list string) (queries : list string) (tag text : option string) : located :=
  if negb (given text) then first_element lines tag queries else
  match gather lines tag queries [] with
  | [] => NotLocated
  | [e] => Located e
  | (e :: _) as candidates =>
    match filterByText candidates lines (default "" text) with
    | [e'] => Located e'
    | [] => Located e
    | filtered => Ambiguous None filtered
    end
  end.

(** [lines[spliceIndex]?.match(...) ?? lines[startLine]?.match(...) ?? '']. *)
Definition insert_indent (lines : list string) (spliceIndex startLine : nat) : string :=
  match lines !! spliceIndex with
  | Some line => indent_of line
  | None => match lines !! startLine with Some line => indent_of line | None => "" end
  end.

Section Insert.
Context (cwd : string) (realpath : string -> option string) (git_ignored : string -> bool).

Definition insert_target (exts queries : list string) (filePath : option string) (s : fsys) : printed + string :=
  if given filePath then
    let file := default "" filePath in
    if isGeneratedFile git_ignored cwd file s
    then inl (fallback_error [("error", JStr "file_is_generated"); ("fallback", JStr "agent-driven"); ("file", JStr (rel_of cwd file))])
    else inr file
  else
    match first_hit cwd realpath git_ignored exts false queries s with
    | Some file => inr file
    | None =>
      let generatedHit := first_hit cwd realpath git_ignored exts true queries s in
      inl (fallback_error [("error", JStr (if bool_decide (is_Some generatedHit) then "element_not_in_source" else "element_not_found"));
                           ("fallback", JStr "agent-driven"); ("hint", JStr ("See " +:+ s_dq +:+ "Handle fallback" +:+ s_dq +:+ " in live.md."))])
    end.

Definition insert_source (id : string) (count : num) (position : string) (deferSourceWrite : bool) (targetFile : string) (lines : list string) (e : element) : eff fsys printed :=
  let c := syntax_of targetFile in
  let isJsx := is_jsx c in
  let traits := (resolveSourceTraits (JStr targetFile)).2 in
  let spliceIndex := computeInsertLine (e_start e) (e_end e) position in
  let wrapper := buildInsertWrapperLines isJsx c id count (insert_indent lines spliceIndex (e_start e)) in
  let deferred := fun v : js => if deferSourceWrite then v else JUndef in
  _ ← run_if (negb deferSourceWrite) (writeFileSync (resolve cwd targetFile) (join s_nl (take spliceIndex lines ++ wrapper ++ drop spliceIndex lines)));
  examples ← lift (buildCssSelectorPrefixExamples (st_styleMode traits) count);
  authoring ← lift (buildCssAuthoring (st_styleMode traits) (st_styleTag traits) count);
  mret (Printed (JObj [
    ("mode", JStr "insert"); ("position", JStr position); ("file", JStr (rel_of cwd targetFile));
    ("sourceWritten", deferred (JBool false)); ("wrapperBlock", deferred (JStr (join s_nl wrapper)));
    ("replaceStartLine", deferred (int (Z.of_nat spliceIndex + 1))); ("replaceEndLine", deferred (int (Z.of_nat spliceIndex)));
    ("insertLine", int (Z.of_nat spliceIndex + 3 + 1)); ("commentSyntax", comment_js c);
    ("styleMode", JStr (st_styleMode traits)); ("styleTag", JStr (st_styleTag traits));
    ("cssSelectorPrefixExamples", examples); ("cssAuthoring", authoring) ]) false).

(** [component] is the scaffold of live/svelte-component.mjs for the files it claims. *)
Definition insertCli (component : string -> element -> nat -> list string -> option (eff fsys printed)) (args : list string) : eff fsys printed :=
  let id := arg_after args "--id" in
  let count := parse_int (match arg_after args "--count" with Some "" | None => "3" | Some t => t end) in
  let position := arg_after args "--position" in
  let elementId := arg_after args "--element-id" in
  let classes := arg_after args "--classes" in
  let tag := arg_after args "--tag" in
  let query := arg_after args "--query" in
  let deferSourceWrite := existsb (String.eqb "--defer-source-write") args in
  if negb (given id) then mret (Printed (JStr "Missing --id") true) else
  if negb (given position) then mret (Printed (JStr "Missing --position (before | after)") true) else
  let position := default "" position in
  if negb (isInsertPosition position) then mret (Printed (JStr ("Invalid --position: " +:+ position)) true) else
  if negb (given elementId) && negb (given classes) && negb (given query)
  then mret (Printed (JStr "Need at least one of: --element-id, --classes, --query") true) else
  let queries := buildSearchQueries elementId classes tag query in
  exts ← readLiveTemplateExtensions cwd;
  target ← get (insert_target exts queries (arg_after args "--file"));
  match (target : printed + string) with
  | inl p => mret p
  | inr targetFile =>
    content ← readFileSync (resolve cwd targetFile);
    let lines := split_lines content in
    match resolveElementMatch lines queries tag (arg_after args "--text") with
    | Located e =>
      match component targetFile e (computeInsertLine (e_start e) (e_end e) position) lines with
      | Some m => m
      | None => insert_source (default "" id) count position deferSourceWrite targetFile lines e
      end
    | Ambiguous _ candidates =>
      mret (fallback_error [("error", JStr "element_ambiguous"); ("fallback", JStr "agent-driven"); ("file", JStr (rel_of cwd targetFile)); ("candidates", candidates_js candidates)])
    | NotLocated => mret (fallback_error [("error", JStr "element_not_found"); ("fallback", JStr "agent-driven")])
    end
  end.
End Insert.
