(* ===== verification/BlockText.v ===== *)
(** * Lines and markers of a written block

    Facts on texts that are put together from known and unknown parts: where a marker can occur in them, how they split
    into lines, and how much white space a line begins with. *)
From S2P Require Import Prelude JsString JsValue Json Encodings JsRegex RegexFacts EventValidation TagStrategy VariantBlock.
Local Open Scope list_scope.
Local Open Scope nat_scope.

(** ** Occurrences *)

(** Neither text stops the other from being its beginning. *)
Fixpoint agree (p s : string) : bool :=
  match p, s with String a p, String b s => Ascii.eqb a b && agree p s | _, _ => true end.
(** No occurrence of a text that begins with [p] begins in [u]. *)
Fixpoint clear_of (p u : string) : bool :=
  match u with "" => true | String _ u' => negb (agree p u) && clear_of p u' end.

Lemma agree_not_starts p p2 u s : agree p u = false -> starts_with (p +:+ p2) (u +:+ s) = false.
Proof.
  revert u; induction p as [|a p IH]; intros [|b u] H; cbn [append starts_with agree] in *; [done..|].
  destruct (Ascii.eqb a b); [|done]. by apply IH.
Qed.
Lemma includes_over p p2 u s : clear_of p u = true -> includes (p +:+ p2) (u +:+ s) = includes (p +:+ p2) s.
Proof.
  induction u as [|d u IH]; [done|]. cbn [clear_of]. intros [Ha%negb_true_iff Hu]%andb_true_iff. rewrite <- (IH Hu).
  unfold includes at 1. cbn [append index_of]. rewrite (agree_not_starts p p2 (String d u) s Ha : starts_with (p +:+ p2) (String d (u +:+ s)) = false).
  unfold includes. by destruct (index_of (p +:+ p2) (u +:+ s)).
Qed.
Lemma includes_skip c p w s : no_char c w = true -> includes (String c p) (w +:+ s) = includes (String c p) s.
Proof.
  intros Hw. apply (includes_over (String c "") p). induction w as [|d w IH]; [done|]. cbn [no_char sforall] in Hw. apply andb_true_iff in Hw as [Hd Hw].
  cbn [clear_of agree]. rewrite andb_true_r, Ascii.eqb_sym, Hd. by apply IH.
Qed.
Lemma includes_absent c p w : no_char c w = true -> includes (String c p) w = false.
Proof. intros H. rewrite <- (sapp_nil_r w), includes_skip by done. done. Qed.
Lemma includes_drop p n s : includes p s = false -> includes p (sdrop n s) = false.
Proof. intros H. rewrite <- (stake_sdrop n s) in H. by apply includes_sub in H as []. Qed.
Lemma includes_part a p b s : includes p s = false -> includes (a +:+ p +:+ b) s = false.
Proof.
  intros H. apply not_true_iff_false in H. apply not_true_iff_false. intros (u & v & ->)%includes_iff. apply H, includes_iff.
  exists (u +:+ a), (b +:+ v). by rewrite !sapp_assoc.
Qed.

(** ** Lines *)

Notation no_nls := (Forall (fun l => no_char NL l = true)).

Lemma split_lines_cons l s : no_char NL l = true -> split_lines (l +:+ s_nl +:+ s) = l :: split_lines s.
Proof. intros H. apply (split_char_cons NL _ _ H). Qed.
Lemma split_join_lines l : l <> [] -> no_nls l -> split_lines (join s_nl l) = l.
Proof.
  intros Hl H. induction H as [|x [|y l'] Hx Hxs IH]; [done|by apply split_char_none|]. cbn [join].
  change (split_lines (x +:+ s_nl +:+ join s_nl (y :: l')) = x :: y :: l'). rewrite split_lines_cons by done. by rewrite IH.
Qed.
Lemma join_app a b : a <> [] -> b <> [] -> join s_nl (a ++ b) = join s_nl a +:+ s_nl +:+ join s_nl b.
Proof.
  intros Ha Hb. induction a as [|x [|y a] IH]; [done| |].
  - by destruct b.
  - cbn [join app]. change (x +:+ s_nl +:+ join s_nl ((y :: a) ++ b) = (x +:+ s_nl +:+ join s_nl (y :: a)) +:+ s_nl +:+ join s_nl b).
    rewrite IH by done. by rewrite !sapp_assoc.
Qed.

(** A text of several lines as one element of the array. *)
Lemma join_flat a l b : l <> [] -> join s_nl (a ++ join s_nl l :: b) = join s_nl (a ++ l ++ b).
Proof.
  intros Hl. assert (forall b, join s_nl (join s_nl l :: b) = join s_nl (l ++ b)) as H.
  { intros [|y b']; [by rewrite app_nil_r|]. by rewrite (join_app l (y :: b')). }
  destruct a as [|x a]; [apply H|]. rewrite !(join_app (x :: a)); [by rewrite H|done| |done|done]. by destruct l.
Qed.
Lemma join_lead l : l <> [] -> s_nl +:+ join s_nl l = join s_nl ("" :: l).
Proof. by destruct l. Qed.

Lemma join_free p l : p <> "" -> no_char NL p = true -> Forall (fun x => includes p x = false) l -> includes p (join s_nl l) = false.
Proof.
  intros Hp Hn H. induction H as [|x [|y l] Hx _ IH]; [by destruct p|done|]. cbn [join]. by apply (includes_break p NL).
Qed.

(** ** White space *)

Lemma space_not c : is_space c = true -> forall d, is_space d = false -> Ascii.eqb c d = false.
Proof. intros Hc d Hd. apply Ascii.eqb_neq. intros ->. congruence. Qed.
Lemma spaces_no_char d w : is_space d = false -> sforall is_space w = true -> no_char d w = true.
Proof. intros Hd. apply sforall_impl. intros c Hc. by rewrite (space_not c). Qed.

Lemma trim_start_spaces w s : sforall is_space w = true -> trim_start (w +:+ s) = trim_start s.
Proof. induction w as [|c w IH]; [done|]. cbn [sforall append trim_start]. intros [-> Hw]%andb_true_iff. by apply IH. Qed.
Lemma trim_start_split s : exists w, sforall is_space w = true /\ s = w +:+ trim_start s.
Proof.
  induction s as [|c s (w & Hw & E)]; [by exists ""|]. cbn [trim_start]. destruct (is_space c) eqn:Hc; [|by exists ""].
  exists (String c w). cbn [sforall append]. by rewrite Hc, Hw, <- E.
Qed.
Lemma leading_split s : sforall is_space (indent_of s) = true /\ slen (indent_of s) = leading_ws s /\ s = indent_of s +:+ trim_start s.
Proof.
  destruct (trim_start_split s) as (w & Hw & E). assert (leading_ws s = slen w) as El by (unfold leading_ws; rewrite E at 1; rewrite slen_app; lia).
  assert (indent_of s = w) as ->; [|done]. unfold indent_of. rewrite El, E. by rewrite stake_app.
Qed.
Lemma trim_empty s : sforall is_space s = true -> trim s = "".
Proof. intros H. unfold trim. rewrite <- (sapp_nil_r s), trim_start_spaces by done. done. Qed.
Lemma spaces_blank s : sforall is_space s = true -> blank s = true.
Proof. intros H. unfold blank. by rewrite trim_empty. Qed.
Lemma blank_spaces w s : sforall is_space w = true -> blank (w +:+ s) = blank s.
Proof. intros Hw. unfold blank, trim. by rewrite trim_start_spaces. Qed.
Lemma sforall_take f n s : sforall f s = true -> sforall f (stake n s) = true.
Proof. revert n; induction s as [|c s IH]; intros [|n]; cbn [stake sforall]; [done..|]. intros [-> H]%andb_true_iff. by apply IH. Qed.
Lemma sforall_drop f n s : sforall f s = true -> sforall f (sdrop n s) = true.
Proof. revert n; induction s as [|c s IH]; intros [|n]; cbn [sdrop sforall]; [done..| |]; [by intros ->|]. intros [_ H]%andb_true_iff. by apply IH. Qed.

(** Up to [leading_ws] characters of a line are its white space. *)
Lemma drop_leading n s : n <= leading_ws s -> exists w, sforall is_space w = true /\ slen w = n /\ s = w +:+ sdrop n s.
Proof.
  intros Hn. destruct (leading_split s) as (Hw & El & E). exists (stake n (indent_of s)). split_and!; [by apply sforall_take|rewrite slen_stake; lia|].
  assert (slen (stake n (indent_of s)) = n) as En by (rewrite slen_stake; lia).
  transitivity (stake n (indent_of s) +:+ sdrop n (indent_of s) +:+ trim_start s); [by rewrite <- sapp_assoc, stake_sdrop|].
  f_equal. rewrite E at 3. rewrite <- (stake_sdrop n (indent_of s)) at 2. rewrite sapp_assoc. rewrite <- En at 2. by rewrite sdrop_app.
Qed.
Lemma leading_app w s : sforall is_space w = true -> leading_ws (w +:+ s) = slen w + leading_ws s.
Proof.
  intros Hw. unfold leading_ws. rewrite trim_start_spaces, slen_app by done.
  assert (slen (trim_start s) <= slen s); [|lia]. destruct (trim_start_split s) as (v & _ & E). rewrite E at 2. rewrite slen_app. lia.
Qed.
