(* ===== verification/WrittenBlock.v ===== *)
(** * The block that is written and read back

    The lines that live-wrap.mjs and live-insert.mjs write, as live-accept.mjs reads them: which texts cannot occur in
    them by accident, where the markers, the original and the outer element are found, for both comment syntaxes. *)
From S2P Require Import Prelude JsString JsValue Json Encodings JsRegex RegexFacts Markup EventValidation NodePath TagStrategy VariantBlock VariantScan BlockText LiveWrap LiveInsert.
Local Open Scope list_scope.
Local Open Scope nat_scope.

(** ** The markers *)

Lemma scan_before id i pre rest : Forall (fun l => includes (start_pattern id) l = false /\ includes (end_pattern id) l = false) pre ->
  scan_markers id i None (pre ++ rest) = scan_markers id (i + length pre) None rest.
Proof.
  intros H. revert i; induction H as [|l pre [Hs He] _ IH]; intros i; [by rewrite Nat.add_0_r|].
  cbn [app scan_markers length]. rewrite Hs, He, IH. by rewrite Nat.add_succ_comm.
Qed.
Lemma scan_inside id i start mid rest : Forall (fun l => includes (end_pattern id) l = false) mid ->
  scan_markers id i (Some start) (mid ++ rest) = scan_markers id (i + length mid) (Some start) rest.
Proof.
  intros H. revert i; induction H as [|l mid He _ IH]; intros i; [by rewrite Nat.add_0_r|].
  cbn [app scan_markers length]. rewrite He, IH. by rewrite Nat.add_succ_comm.
Qed.
Lemma markers_found id pre s mid e post :
  Forall (fun l => includes (start_pattern id) l = false /\ includes (end_pattern id) l = false) pre ->
  includes (start_pattern id) s = true -> Forall (fun l => includes (end_pattern id) l = false) (s :: mid) -> includes (end_pattern id) e = true ->
  findMarkerBlock id (pre ++ s :: mid ++ e :: post) = Some (Block (length pre) (length pre + S (length mid))).
Proof.
  intros Hpre Hs [Hse Hmid]%Forall_cons He. unfold findMarkerBlock. rewrite scan_before by done. cbn [scan_markers]. rewrite Hs, Hse.
  rewrite scan_inside by done. cbn [scan_markers]. rewrite He. cbn. by rewrite Nat.add_succ_r.
Qed.
Lemma block_lines_at {A} (pre b post : list A) n : length b = S n ->
  take (S (length pre + n) - length pre) (drop (length pre) (pre ++ b ++ post)) = b.
Proof. intros H. rewrite drop_app_length. replace (S (length pre + n) - length pre) with (length b) by lia. by rewrite take_app_length. Qed.
Lemma replace_at {A} (pre b post r : list A) n : length b = S n ->
  take (length pre) (pre ++ b ++ post) ++ r ++ drop (S (length pre + n)) (pre ++ b ++ post) = pre ++ r ++ post.
Proof.
  intros H. rewrite take_app_length. do 2 f_equal. rewrite app_assoc. replace (S (length pre + n)) with (length (pre ++ b)) by (rewrite length_app; lia).
  by rewrite drop_app_length.
Qed.

(** ** Lines without style elements *)

Lemma strip_line_id l : includes "<style" l = false -> strip_line l = l.
Proof.
  intros H. unfold strip_line.
  assert (forall x y, l = x +:+ y -> starts_with "<style" y = false) as Hno.
  { intros x y ->. apply not_true_iff_false. intros [r ->]%starts_with_iff. apply not_true_iff_false in H. apply H, includes_iff. by exists x, r. }
  rewrite (replace_all_none style_closed_re); [|intros; by apply match_lit_prefix, (Hno x)].
  apply replace_all_none. intros. by apply match_lit_prefix, (Hno x).
Qed.
Lemma no_style_opens l : includes "<style" l = false -> re_exec style_open l = None.
Proof.
  intros H. apply exec_none. intros a t b -> (s1 & s2 & -> & ->%can_read_lit & _). apply not_true_iff_false in H. apply H, includes_iff.
  exists a, (s2 +:+ b). by rewrite !sapp_assoc.
Qed.
Lemma strip_plain A B : Forall (fun l => includes "<style" l = false) A -> strip_styles false (A ++ B) = A ++ strip_styles false B.
Proof. induction 1 as [|l A Hl _ IH]; [done|]. cbn [app strip_styles negb]. by rewrite strip_line_id, no_style_opens, IH. Qed.
Lemma strip_nonempty B : B <> [] -> strip_styles false B <> [].
Proof. destruct B as [|l B]; [done|]. intros _. cbn [strip_styles negb]. by destruct (re_exec style_open (strip_line l)). Qed.

(** ** Indentation *)

Definition is_min (m : nat) (l : list nat) : Prop := m ∈ l /\ forall x, x ∈ l -> m <= x.
Lemma fold_min_spec ns : forall n, is_min (foldl Nat.min n ns) (n :: ns).
Proof.
  induction ns as [|k ns IH]; intros n; [split; [by left|]; by intros x ->%list_elem_of_singleton|].
  cbn [foldl]. destruct (IH (Nat.min n k)) as [Hin Hle]. split.
  - apply elem_of_cons in Hin as [E|Hin]; [|by do 2 right]. rewrite E. destruct (Nat.min_spec n k) as [[_ ->]|[_ ->]]; [left|right; left].
  - intros x [-> |[-> |Hx]%elem_of_cons]%elem_of_cons; [| |apply Hle; by right]; (transitivity (Nat.min n k); [apply Hle; by left|lia]).
Qed.
Lemma min_indent_spec lines : bfilter (fun l => negb (blank l)) lines <> [] -> is_min (min_indent lines) (leading_ws <$> bfilter (fun l => negb (blank l)) lines).
Proof. unfold min_indent. destruct (bfilter _ lines) as [|l ls]; [done|]. intros _. apply fold_min_spec. Qed.
Lemma is_min_unique m n l : is_min m l -> is_min n l -> m = n.
Proof. intros [H1 H2] [H3 H4]. apply H2 in H3. apply H4 in H1. lia. Qed.
Lemma min_indent_le lines l : l ∈ lines -> blank l = false -> min_indent lines <= leading_ws l.
Proof.
  intros Hl Hb. assert (l ∈ bfilter (fun l => negb (blank l)) lines) as Hin by (apply bfilter_elem_of; by rewrite Hb).
  destruct (min_indent_spec lines) as [_ H]; [by intros E; rewrite E in Hin; apply elem_of_nil in Hin|]. apply H. by apply list_elem_of_fmap_2.
Qed.

Lemma leading_drop n s : n <= leading_ws s -> leading_ws (sdrop n s) = leading_ws s - n /\ blank (sdrop n s) = blank s.
Proof.
  intros Hn. destruct (drop_leading n s Hn) as (w & Hw & El & E). split.
  - rewrite E at 2. rewrite leading_app by done. lia.
  - rewrite E at 2. by rewrite blank_spaces.
Qed.

Section Reindent.
Context (indent : string) (orig : list string).
Hypothesis indent_space : sforall is_space indent = true.
Hypothesis some_line : exists l, l ∈ orig /\ blank l = false.

Definition moved (l : string) : string := indent +:+ "    " +:+ sdrop (min_indent orig) l.
Lemma moved_lead l : l ∈ orig -> blank l = false ->
  blank (moved l) = false /\ leading_ws (moved l) = slen indent + 4 + (leading_ws l - min_indent orig).
Proof using indent_space.
  intros Hl Hb. pose proof (min_indent_le orig l Hl Hb) as Hle. destruct (leading_drop _ _ Hle) as [E1 E2]. unfold moved. split.
  - rewrite <- sapp_assoc, blank_spaces by (by rewrite sforall_app, indent_space). by rewrite E2.
  - rewrite <- sapp_assoc, leading_app by (by rewrite sforall_app, indent_space). rewrite E1, slen_app. done.
Qed.

Lemma min_reindented sp : sforall is_space sp = true -> min_indent ("" :: reindent_original indent orig ++ [sp]) = slen indent + 4.
Proof using indent_space some_line.
  intros Hsp. assert (is_min (slen indent + 4) (leading_ws <$> bfilter (fun l => negb (blank l)) ("" :: reindent_original indent orig ++ [sp]))) as Hm.
  { split.
    - destruct some_line as (l0 & Hl0 & Hb0).
      destruct (min_indent_spec orig) as [(l & E & [Hl Hb]%bfilter_elem_of)%list_elem_of_fmap _].
      { intros E. assert (l0 ∈ bfilter (fun l => negb (blank l)) orig) as Hin by (apply bfilter_elem_of; by rewrite Hb0). rewrite E in Hin. by apply elem_of_nil in Hin. }
      apply negb_true_iff in Hb. destruct (moved_lead l Hl Hb) as [Hmb Hml]. apply list_elem_of_fmap. exists (moved l). split; [lia|].
      apply bfilter_elem_of. rewrite Hmb. split; [|done]. right. apply elem_of_app. left. apply list_elem_of_fmap. exists l. split; [|done]. by rewrite Hb.
    - intros x (l & -> & [Hl Hb]%bfilter_elem_of)%list_elem_of_fmap. apply negb_true_iff in Hb.
      apply elem_of_cons in Hl as [-> |[Hl|Hl]%elem_of_app]; [done| |].
      + apply list_elem_of_fmap in Hl as (l' & -> & Hl'). destruct (blank l') eqn:E; [done|]. destruct (moved_lead l' Hl' E) as [_ Hml]. fold (moved l'). lia.
      + apply list_elem_of_singleton in Hl as ->. by rewrite spaces_blank in Hb. }
  eapply is_min_unique; [|exact Hm]. apply min_indent_spec. intros E. rewrite E in Hm. destruct Hm as [Hm _]. by apply elem_of_nil in Hm.
Qed.

Lemma deindent_reindented sp : sforall is_space sp = true ->
  deindentContent ("" :: reindent_original indent orig ++ [sp]) indent = "" :: deindentContent orig indent ++ [""].
Proof using indent_space some_line.
  intros Hsp. unfold deindentContent at 1. rewrite min_reindented by done. cbv zeta. cbn [fmap list_fmap]. change (blank "") with true. f_equal.
  rewrite fmap_app. cbn [fmap list_fmap]. rewrite (spaces_blank sp) by done. f_equal. unfold reindent_original, deindentContent. rewrite <- list_fmap_compose.
  apply list_fmap_ext. intros i l Hl%list_elem_of_lookup_2. cbn [compose]. unfold compose. destruct (blank l) eqn:Hb; [done|].
  destruct (moved_lead l Hl Hb) as [Hmb _]. fold (moved l). rewrite Hmb. unfold moved. f_equal.
  rewrite <- sapp_assoc. replace (slen indent + 4) with (slen (indent +:+ "    ")) by (by rewrite slen_app). by rewrite sdrop_app.
Qed.
End Reindent.

(** Lines that all begin with the indentation of the first keep their place. *)
Lemma deindent_id l0 ls : blank l0 = false ->
  Forall (fun l => l = "" \/ blank l = false /\ starts_with (indent_of l0) l = true) (l0 :: ls) -> deindentContent (l0 :: ls) (indent_of l0) = l0 :: ls.
Proof.
  intros Hb0 H. assert (min_indent (l0 :: ls) = slen (indent_of l0)) as E.
  { destruct (leading_split l0) as (Hw & El & _). rewrite El. eapply is_min_unique; [apply min_indent_spec; cbn [bfilter]; by rewrite Hb0|].
    split; [cbn [bfilter]; rewrite Hb0; left|]. intros x (l & -> & [Hl Hb]%bfilter_elem_of)%list_elem_of_fmap. apply negb_true_iff in Hb.
    rewrite Forall_forall in H. destruct (H l Hl) as [-> |[_ [r ->]%starts_with_iff]]; [done|]. rewrite leading_app by done. lia. }
  unfold deindentContent. rewrite E. transitivity (id <$> (l0 :: ls)); [|apply list_fmap_id]. apply list_fmap_ext. intros i l Hl%list_elem_of_lookup_2.
  rewrite Forall_forall in H. destruct (H l Hl) as [-> |[-> [r ->]%starts_with_iff]]; [done|]. by rewrite sdrop_app.
Qed.

(** ** What does not occur in the wrapper *)

(** No occurrence of a text that begins with [p] begins in [u]. *)
Definition passes (p u : string) : Prop := forall p2 s, includes (p +:+ p2) (u +:+ s) = includes (p +:+ p2) s.
Lemma passes_app p u v : passes p u -> passes p v -> passes p (u +:+ v).
Proof. intros Hu Hv p2 s. by rewrite sapp_assoc, Hu, Hv. Qed.
Lemma passes_lit p u : clear_of p u = true -> passes p u.
Proof. intros H p2 s. by apply includes_over. Qed.
Lemma passes_no_char c p u : no_char c u = true -> passes (String c p) u.
Proof. intros H p2 s. by apply (includes_skip c (p +:+ p2)). Qed.
Lemma passes_none p p2 u : p <> "" -> passes p u -> includes (p +:+ p2) u = false.
Proof. intros Hp H. rewrite <- (sapp_nil_r u), H. by destruct p. Qed.
Lemma passes_none_self p u : p <> "" -> passes p u -> includes p u = false.
Proof. intros Hp H. rewrite <- (sapp_nil_r p). by apply passes_none. Qed.

Lemma hex_no_char d s : is_hex_lower d = false -> sforall is_hex_lower s = true -> no_char d s = true.
Proof. intros Hd. apply sforall_impl. intros c Hc. apply negb_true_iff, Ascii.eqb_neq. intros ->. congruence. Qed.
Definition is_number_char (c : ascii) : bool := is_digit c || Ascii.eqb c "-".
Lemma print_Z_chars z : sforall is_number_char (print_Z z) = true.
Proof.
  assert (forall s, sforall is_digit s = true -> sforall is_number_char s = true) as Hd by (intros s; apply sforall_impl; intros c; unfold is_number_char; by intros ->).
  unfold print_Z, print_nat. destruct (Z.ltb_spec z 0) as [H|H]; [|apply Hd; by apply print_digits_digits].
  rewrite sforall_cons. apply Hd, print_digits_digits; [lia|done].
Qed.
Lemma number_no_char d z : is_number_char d = false -> no_char d (print_Z z) = true.
Proof. intros Hd. generalize (print_Z_chars z). apply sforall_impl. intros c Hc. apply negb_true_iff, Ascii.eqb_neq. intros ->. congruence. Qed.

Definition syntax_for (isJsx : bool) : comment_syntax := if isJsx then jsx_comments else html_comments.

Section Wrapper.
Context (id indent : string) (n : Z).
Hypothesis id_hex : sforall is_hex_lower id = true.
Hypothesis indent_space : sforall is_space indent = true.

(** The texts looked for, of which no written line has an accidental occurrence. *)
Definition sought (p : string) : Prop := p = "impeccable-variants-end" \/ p = "<style" \/ p = "iant=".

Lemma sought_id p : sought p -> passes p id.
Proof using id_hex. intros [-> |[-> | ->]]; apply passes_no_char; by apply hex_no_char. Qed.
Lemma sought_indent p : sought p -> passes p indent.
Proof using indent_space. intros [-> |[-> | ->]]; apply passes_no_char; by apply spaces_no_char. Qed.
Lemma sought_number p : sought p -> passes p (print_Z n).
Proof using. intros [-> |[-> | ->]]; apply passes_no_char; by apply number_no_char. Qed.

Ltac passing H := repeat apply passes_app; first [by apply sought_id|by apply sought_indent|by apply sought_number|by (destruct H as [-> |[-> | ->]]; apply passes_lit)].

Lemma pass_start p isJsx : sought p -> passes p (comment_line (syntax_for isJsx) ("impeccable-variants-start " +:+ id)).
Proof using id_hex. intros H. unfold comment_line. destruct isJsx; cbn [syntax_for cs_open cs_close html_comments jsx_comments]; passing H. Qed.
Lemma pass_comment p isJsx t : t = "Original" \/ t = "Variants: insert below this line" -> sought p -> passes p (comment_line (syntax_for isJsx) t).
Proof using. intros Ht H. unfold comment_line. destruct Ht as [-> | ->], isJsx; cbn [syntax_for cs_open cs_close html_comments jsx_comments]; passing H. Qed.
Lemma pass_outer p isJsx : sought p -> passes p (outer_div isJsx id (NInt n)).
Proof using id_hex. intros H. unfold outer_div, variants_attr, style_contents. destruct isJsx; cbn [num_to_string]; passing H. Qed.
Lemma pass_insert p isJsx : sought p -> passes p (insert_div isJsx id (NInt n)).
Proof using id_hex. intros H. unfold insert_div, variants_attr, style_contents. destruct isJsx; cbn [num_to_string]; passing H. Qed.
End Wrapper.

(** ** The original in the block *)

Definition original_attr : string := variant_attr "original".
Definition original_open (indent : string) : string := indent +:+ "  <div " +:+ original_attr +:+ ">".
Definition original_close (indent : string) : string := indent +:+ "  </div>".

Lemma sought_style : sought "<style".
Proof. right; by left. Qed.
Lemma sought_attr : sought "iant=".
Proof. by do 2 right. Qed.
Lemma sought_end : sought "impeccable-variants-end".
Proof. by left. Qed.
Lemma no_attr_passes u : passes "iant=" u -> includes original_attr u = false.
Proof. intros H. change original_attr with ("data-impeccable-var" +:+ "iant=" +:+ s_dq +:+ "original" +:+ s_dq). apply includes_part. by apply passes_none_self. Qed.

Lemma pass_join p l : passes p s_nl -> Forall (passes p) l -> passes p (join s_nl l).
Proof.
  intros Hnl H. induction H as [|x [|y l'] Hx _ IH]; [by intros p2 s|done|]. cbn [join]. apply passes_app; [done|]. by apply passes_app.
Qed.

Section Original.
Context (indent : string) (R : list string).
Hypothesis indent_space : sforall is_space indent = true.
Hypothesis R_nonempty : R <> [].
Hypothesis R_nested : nested (join s_nl R).

Definition inner_text : string := s_nl +:+ join s_nl R +:+ s_nl +:+ indent +:+ "  ".

Lemma inner_nested : nested inner_text.
Proof using indent_space R_nested.
  assert (nested (s_nl +:+ indent +:+ "  ")) as H.
  { apply nested_text. by rewrite !no_char_app, (spaces_no_char "<" indent). }
  unfold inner_text. apply nested_app; [by apply nested_text|]. by apply nested_app.
Qed.

Lemma open_passes p : sought p -> passes p indent -> p <> "iant=" -> passes p (original_open indent).
Proof using. intros [-> |[-> | ->]] Hi Hne; [| |done]; (apply passes_app; [done|by apply passes_lit]). Qed.

Lemma original_inner H T : H <> [] -> T <> [] -> Forall (fun l => includes "<style" l = false) (H ++ R) ->
  quiet original_attr (join s_nl H +:+ s_nl +:+ indent +:+ "  ") ->
  extractInnerByAttr (join s_nl (strip_styles false (H ++ original_open indent :: R ++ original_close indent :: T))) original_attr = Some inner_text.
Proof using indent_space R_nonempty R_nested.
  intros HH HT [HsH HsR]%Forall_app Hq.
  replace (H ++ original_open indent :: R ++ original_close indent :: T) with ((H ++ original_open indent :: R ++ [original_close indent]) ++ T)
    by (rewrite <- !app_assoc; cbn [app]; by rewrite <- !app_assoc).
  rewrite strip_plain.
  2:{ apply Forall_app. split; [done|]. constructor; [|apply Forall_app; split; [done|constructor; [|done]]].
      - apply passes_none_self; [done|]. apply open_passes; [apply sought_style|by apply sought_indent, sought_style|done].
      - apply passes_none_self; [done|]. apply passes_app; [by apply sought_indent, sought_style|by apply passes_lit]. }
  rewrite <- !app_assoc. cbn [app]. rewrite <- app_assoc. cbn [app].
  rewrite (join_app H) by done. set (Y := strip_styles false T). assert (Y <> []) as HY by (by apply strip_nonempty).
  assert (join s_nl (original_open indent :: R ++ original_close indent :: Y) =
    original_open indent +:+ s_nl +:+ join s_nl R +:+ s_nl +:+ original_close indent +:+ s_nl +:+ join s_nl Y) as ->.
  { change (join s_nl ([original_open indent] ++ R ++ [original_close indent] ++ Y) = join s_nl [original_open indent] +:+ s_nl +:+ join s_nl R +:+ s_nl +:+ join s_nl [original_close indent] +:+ s_nl +:+ join s_nl Y).
    rewrite (join_app [original_open indent]), (join_app R), (join_app [original_close indent]); try done; by destruct R. }
  match goal with |- extractInnerByAttr ?t _ = _ => replace t with
    ((join s_nl H +:+ s_nl +:+ indent +:+ "  ") +:+ div_opener "" original_attr "" +:+ inner_text +:+ "</div>" +:+ (s_nl +:+ join s_nl Y)) end.
  2:{ unfold inner_text, original_open, original_close, div_opener. rewrite !sapp_assoc. cbn [append]. done. }
  apply inner_extracted; by try apply inner_nested.
Qed.

Lemma inner_lines : no_nls R -> no_char NL indent = true -> split_lines inner_text = "" :: R ++ [indent +:+ "  "].
Proof using R_nonempty.
  clear R_nested. intros HR Hi. unfold inner_text. change (indent +:+ "  ") with (join s_nl [indent +:+ "  "]).
  rewrite <- join_app by done. rewrite join_lead by (by destruct R). apply split_join_lines; [done|].
  constructor; [done|]. apply Forall_app. split; [done|]. constructor; [|done]. cbn [join]. by rewrite no_char_app, Hi.
Qed.
End Original.

(** ** The block as it is read back *)

Section Block.
Context (isJsx : bool) (id indent : string) (n : Z) (R V : list string).
Notation c := (syntax_for isJsx).
Hypothesis id_hex : sforall is_hex_lower id = true.
Hypothesis indent_space : sforall is_space indent = true.
Hypothesis indent_line : no_char NL indent = true.
Hypothesis R_nonempty : R <> [].
Hypothesis R_nested : nested (join s_nl R).
Hypothesis R_lines : no_nls R.
Hypothesis V_lines : no_nls V.
Hypothesis R_plain : Forall (fun l => includes "<style" l = false) R.
Hypothesis no_ends : Forall (fun l => includes (end_pattern id) l = false) (R ++ V).

Definition start_line : string := comment_line c ("impeccable-variants-start " +:+ id).
Definition end_line : string := comment_line c ("impeccable-variants-end " +:+ id).
Definition outer_line : string := indent +:+ outer_div isJsx id (NInt n).
Definition original_line : string := indent +:+ "  " +:+ comment_line c "Original".
Definition insert_line : string := indent +:+ "  " +:+ comment_line c "Variants: insert below this line".
Definition div_close_line : string := indent +:+ "</div>".
Definition inside : list string := original_open indent :: R ++ original_close indent :: insert_line :: V.

Lemma start_found i : includes (start_pattern id) (i +:+ start_line) = true.
Proof using. apply includes_iff. exists (i +:+ cs_open c +:+ " "), (" " +:+ cs_close c). unfold start_line, comment_line, start_pattern. by rewrite !sapp_assoc. Qed.
Lemma end_found i : includes (end_pattern id) (i +:+ end_line) = true.
Proof using. apply includes_iff. exists (i +:+ cs_open c +:+ " "), (" " +:+ cs_close c). unfold end_line, comment_line, end_pattern. by rewrite !sapp_assoc. Qed.

Lemma no_end u : passes "impeccable-variants-end" u -> includes (end_pattern id) u = false.
Proof using. intros H. change (end_pattern id) with ("impeccable-variants-end" +:+ (" " +:+ id)). by apply passes_none. Qed.

Lemma pass_indented p u : sought p -> passes p u -> passes p (indent +:+ "  " +:+ u).
Proof using indent_space. intros H Hu. apply passes_app; [by apply sought_indent|]. apply passes_app; [|done]. by destruct H as [-> |[-> | ->]]; apply passes_lit. Qed.
Lemma pass_start_line p : sought p -> passes p start_line.
Proof using id_hex. apply pass_start; done. Qed.
Lemma pass_outer_line p : sought p -> passes p outer_line.
Proof using id_hex indent_space. intros H. apply passes_app; [by apply sought_indent|by apply pass_outer]. Qed.
Lemma pass_original_line p : sought p -> passes p original_line.
Proof using indent_space. intros H. apply pass_indented; [done|]. apply pass_comment; [by left|done]. Qed.
Lemma pass_insert_line p : sought p -> passes p insert_line.
Proof using indent_space. intros H. apply pass_indented; [done|]. apply pass_comment; [by right|done]. Qed.

Lemma inside_no_end : Forall (fun l => includes (end_pattern id) l = false) inside.
Proof using indent_space no_ends.
  apply Forall_app in no_ends as [HR HV]. constructor.
  - apply no_end. apply open_passes; [apply sought_end|by apply sought_indent, sought_end|done].
  - apply Forall_app. split; [done|]. constructor; [|constructor; [|done]].
    + apply no_end, passes_app; [by apply sought_indent, sought_end|by apply passes_lit].
    + apply no_end, pass_insert_line, sought_end.
Qed.

(** The lines are lines. *)
Lemma hex_line : no_char NL id = true.
Proof using id_hex. by apply hex_no_char. Qed.
Ltac one_line := unfold start_line, end_line, outer_line, original_line, insert_line, div_close_line, original_open, original_close, original_attr, variant_attr,
  outer_div, variants_attr, style_contents, comment_line; cbn [num_to_string];
  rewrite ?no_char_app, ?indent_line, ?hex_line, ?number_no_char by done; by destruct isJsx.
Lemma inside_lines : no_nls inside.
Proof using indent_line R_lines V_lines.
  constructor; [one_line|]. apply Forall_app. split; [done|]. constructor; [one_line|]. constructor; [one_line|done].
Qed.
Lemma front_lines : no_nls [start_line; indent +:+ start_line; indent +:+ "  " +:+ start_line; end_line; indent +:+ end_line; indent +:+ "  " +:+ end_line; outer_line; original_line; div_close_line].
Proof using indent_line id_hex. repeat (constructor; [one_line|]). done. Qed.

Lemma indent_at x t : is_space x = false -> indent_of (indent +:+ String x t) = indent.
Proof using indent_space.
  intros Hx. unfold indent_of, leading_ws. rewrite trim_start_spaces by done. cbn [trim_start]. rewrite Hx, slen_app, Nat.add_sub. apply stake_app.
Qed.
Lemma line_at_mid pre x rest : line_at (pre ++ x :: rest) (length pre) = x.
Proof using. unfold line_at. by rewrite list_lookup_middle. Qed.

(** The original read back from the lines between the markers. *)
Lemma original_read H T : H <> [] -> T <> [] -> Forall (fun l => includes "<style" l = false) H -> quiet original_attr (join s_nl H +:+ s_nl +:+ indent +:+ "  ") ->
  extractInnerByAttr (join s_nl (strip_styles false (H ++ inside ++ T))) original_attr = Some (inner_text indent R).
Proof using indent_space R_nonempty R_nested R_plain.
  intros HH HT HsH Hq. unfold inside.
  replace (H ++ (original_open indent :: R ++ original_close indent :: insert_line :: V) ++ T)
    with (H ++ original_open indent :: R ++ original_close indent :: (insert_line :: V ++ T)) by (cbn [app]; by rewrite <- app_assoc).
  apply (original_inner indent R); try done. by apply Forall_app.
Qed.
Lemma original_found lines b H T : block_lines b lines = H ++ inside ++ T ->
  H <> [] -> T <> [] -> Forall (fun l => includes "<style" l = false) H -> quiet original_attr (join s_nl H +:+ s_nl +:+ indent +:+ "  ") ->
  extractOriginal lines b = "" :: R ++ [indent +:+ "  "].
Proof using indent_space R_nonempty R_nested R_plain R_lines indent_line.
  intros Eb HH HT HsH Hq. unfold extractOriginal, stripStyleAndJoin. rewrite Eb. change (variant_attr "original") with original_attr.
  rewrite original_read by done. by apply inner_lines.
Qed.

(** In front of the original, the last tag ends before a comment, or there is no tag. *)
Lemma quiet_html : isJsx = false -> quiet original_attr (join s_nl [indent +:+ start_line; outer_line; original_line] +:+ s_nl +:+ indent +:+ "  ").
Proof using id_hex indent_space.
  intros HJ. right. exists (indent +:+ start_line +:+ s_nl +:+ outer_line +:+ s_nl +:+ indent +:+ "  <!-- Original --"), (s_nl +:+ indent +:+ "  ").
  split_and!; [|apply no_attr_passes; by repeat (apply passes_app; [first [apply sought_indent; [done|apply sought_attr]|apply pass_start_line, sought_attr|apply pass_outer_line, sought_attr|by apply passes_lit]|]); apply passes_lit|].
  - unfold original_line, comment_line. rewrite HJ. cbn [join syntax_for html_comments cs_open cs_close]. by rewrite !sapp_assoc.
  - by rewrite !no_char_app, (spaces_no_char "<" indent).
Qed.
Lemma quiet_jsx : isJsx = true -> quiet original_attr (join s_nl [indent +:+ "  " +:+ start_line; original_line] +:+ s_nl +:+ indent +:+ "  ").
Proof using id_hex indent_space.
  intros HJ. left. unfold start_line, original_line, comment_line. rewrite HJ. cbn [join].
  by rewrite !no_char_app, (spaces_no_char "<" indent), (hex_no_char "<" id).
Qed.

Lemma plain_front : Forall (fun l => includes "<style" l = false) [indent +:+ start_line; indent +:+ "  " +:+ start_line; outer_line; original_line].
Proof using id_hex indent_space.
  repeat constructor; (apply passes_none_self; [done|]).
  - apply passes_app; [by apply sought_indent, sought_style|apply pass_start_line, sought_style].
  - apply pass_indented; [apply sought_style|apply pass_start_line, sought_style].
  - apply pass_outer_line, sought_style.
  - apply pass_original_line, sought_style.
Qed.
Lemma front_no_end : Forall (fun l => includes (end_pattern id) l = false) [indent +:+ start_line; indent +:+ "  " +:+ start_line; outer_line; original_line; div_close_line].
Proof using id_hex indent_space.
  repeat constructor; apply no_end.
  - apply passes_app; [by apply sought_indent, sought_end|apply pass_start_line, sought_end].
  - apply pass_indented; [apply sought_end|apply pass_start_line, sought_end].
  - apply pass_outer_line, sought_end.
  - apply pass_original_line, sought_end.
  - apply passes_app; [by apply sought_indent, sought_end|by apply passes_lit].
Qed.
End Block.

(** ** Discarding in a file with HTML comments *)

Definition no_markers (id : string) : list string -> Prop :=
  Forall (fun l => includes (start_pattern id) l = false /\ includes (end_pattern id) l = false).

Section Html.
Context (id indent : string) (n : Z) (pre R V post : list string).
Hypothesis id_hex : sforall is_hex_lower id = true.
Hypothesis indent_space : sforall is_space indent = true.
Hypothesis indent_line : no_char NL indent = true.
Hypothesis R_nonempty : R <> [].
Hypothesis R_nested : nested (join s_nl R).
Hypothesis R_lines : no_nls R.
Hypothesis R_plain : Forall (fun l => includes "<style" l = false) R.
Hypothesis no_ends : Forall (fun l => includes (end_pattern id) l = false) (R ++ V).
Hypothesis pre_free : no_markers id pre.

Definition html_block : list string :=
  [indent +:+ start_line false id; outer_line false id indent n; original_line false indent] ++ inside false indent R V ++ [div_close_line indent; indent +:+ end_line false id].
Definition html_mid : list string := [outer_line false id indent n; original_line false indent] ++ inside false indent R V ++ [div_close_line indent].

Lemma html_block_eq : html_block ++ post = (indent +:+ start_line false id) :: html_mid ++ (indent +:+ end_line false id) :: post.
Proof using. unfold html_block, html_mid. cbn [app]. by rewrite <- !app_assoc. Qed.
Lemma html_length : length html_block = S (S (length html_mid)).
Proof using. unfold html_block, html_mid. cbn [app length]. rewrite !length_app. cbn [length]. lia. Qed.

Lemma html_discarded : discarded_lines id (pre ++ html_block ++ post) false =
  Some (pre ++ deindentContent ("" :: R ++ [indent +:+ "  "]) indent ++ post).
Proof using All.
  pose proof (front_no_end false id indent n id_hex indent_space) as Hf. rewrite !Forall_cons in Hf. destruct Hf as (Hs & _ & Ho & Hc & Hd & _).
  pose proof (plain_front false id indent n id_hex indent_space) as Hp. rewrite !Forall_cons in Hp. destruct Hp as (Ps & _ & Po & Pc & _).
  unfold discarded_lines. rewrite html_block_eq at 1. rewrite (markers_found id pre _ html_mid _ post); [|done|apply start_found| |apply end_found].
  2:{ constructor; [done|]. unfold html_mid. do 2 (constructor; [done|]). apply Forall_app. split; [|by constructor].
      by apply (inside_no_end false id indent R V). }
  cbn [mbind option_bind]. set (b := Block _ _).
  rewrite (original_found false indent R V indent_space indent_line R_nonempty R_nested R_lines R_plain (pre ++ html_block ++ post) b
    [indent +:+ start_line false id; outer_line false id indent n; original_line false indent] [div_close_line indent; indent +:+ end_line false id]);
    [|apply block_lines_at; apply html_length|done|done|by repeat constructor|by apply quiet_html].
  unfold expandReplaceRange. cbn [negb]. cbv iota zeta. unfold replace_range. subst b. cbn [b_start b_end].
  rewrite replace_at by apply html_length. rewrite html_block_eq, line_at_mid. unfold start_line, comment_line. cbn [syntax_for html_comments cs_open append].
  by rewrite indent_at.
Qed.
End Html.

Lemma written_html pre id n indent orig V post : orig <> [] -> 
  join s_nl (pre ++ (wrapper_above false html_comments id (NInt n) indent orig ++ V ++ wrapper_below false html_comments id indent) ++ post)
  = join s_nl (pre ++ html_block id indent n (reindent_original indent orig) V ++ post).
Proof.
  intros Ho. unfold wrapper_above, wrapper_below, html_block, inside, original_open, original_close, insert_line, div_close_line, outer_line, original_line, start_line, end_line.
  cbn [syntax_for]. repeat first [rewrite <- app_assoc|progress cbn [app]].
  match goal with |- join _ (pre ++ ?a :: ?b :: ?c :: ?d :: join s_nl ?r :: ?t) = _ => change (a :: b :: c :: d :: join s_nl r :: t) with ([a; b; c; d] ++ join s_nl r :: t) end.
  rewrite app_assoc, join_flat by (by destruct orig). by rewrite <- app_assoc.
Qed.

(** ** The range of a block with JSX comments *)

Lemma last_char_in (p : ascii -> bool) y prev d : sforall p y = true -> last_char prev y = Some d -> prev = Some d \/ p d = true.
Proof.
  revert prev; induction y as [|x y IH]; intros prev Hy E; [by left|]. cbn [sforall] in Hy. apply andb_true_iff in Hy as [Hx Hy].
  cbn [last_char] in E. destruct (IH _ Hy E) as [[= ->]|H]; by right.
Qed.
(** The attributes of a tag that does not close itself. *)
Lemma not_self_closing d u x y : d <> "/"%char -> is_space d = false -> sforall is_space y = true -> u +:+ String d "" <> x +:+ "/" +:+ y.
Proof.
  intros Hd Hs Hy E. apply (f_equal (last_char None)) in E. rewrite !last_char_app in E. cbn [last_char] in E. symmetry in E.
  apply (last_char_in is_space y) in E as [[= E]|E]; [|by rewrite E in Hs|done]. by apply Hd.
Qed.

Lemma nested_line x l : nested x -> nested (join s_nl l) -> nested (join s_nl (x :: l)).
Proof. intros Hx Hl. destruct l as [|y l]; [done|]. apply nested_app; [done|]. by apply nested_app; [apply nested_text|]. Qed.
Lemma nested_lines l1 l2 : nested (join s_nl l1) -> nested (join s_nl l2) -> nested (join s_nl (l1 ++ l2)).
Proof.
  intros H1 H2. destruct l1 as [|x l1]; [done|]. destruct l2 as [|y l2]; [by rewrite app_nil_r|]. rewrite join_app by done.
  apply nested_app; [done|]. by apply nested_app; [apply nested_text|].
Qed.

Section JsxRange.
Context (id indent attrs : string) (pre marked post : list string).
Definition jsx_attrs : string := " " +:+ variants_attr id +:+ attrs +:+ "}".
Definition jsx_outer : string := indent +:+ "<div" +:+ jsx_attrs +:+ ">".
Hypothesis id_hex : sforall is_hex_lower id = true.
Hypothesis indent_space : sforall is_space indent = true.
Hypothesis indent_line : no_char NL indent = true.
Hypothesis attrs_tag : no_char ">" attrs = true.
Hypothesis attrs_line : no_char NL attrs = true.
Hypothesis attrs_end : passes "impeccable-variants-end" attrs.
Hypothesis marked_nonempty : marked <> [].
Hypothesis marked_nested : nested (join s_nl marked).
Hypothesis marked_lines : no_nls marked.

Definition jsx_lines : list string := jsx_outer :: marked ++ [div_close_line indent].

Lemma jsx_attrs_ok : no_char ">" jsx_attrs = true /\ starts_in is_word jsx_attrs = false /\ forall x y, sforall is_space y = true -> jsx_attrs <> x +:+ "/" +:+ y.
Proof using id_hex attrs_tag.
  split_and!; [unfold jsx_attrs, variants_attr; by rewrite !no_char_app, (hex_no_char ">" id), attrs_tag|done|].
  intros x y Hy E. apply (not_self_closing "}" (" " +:+ variants_attr id +:+ attrs) x y); [done..|]. rewrite <- E. unfold jsx_attrs. by rewrite !sapp_assoc.
Qed.
Lemma jsx_outer_passes : passes "impeccable-variants-end" jsx_outer.
Proof using id_hex indent_space attrs_end.
  unfold jsx_outer, jsx_attrs, variants_attr.
  repeat apply passes_app; first [done|apply sought_indent; [done|apply sought_end]|apply sought_id; [done|apply sought_end]|by apply passes_lit].
Qed.

Lemma wrapper_attr_seen : hasVariantWrapperAttr jsx_outer id = true.
Proof using.
  unfold hasVariantWrapperAttr, jsx_outer, jsx_attrs, variants_attr. set (v := "data-impeccable-variants=" +:+ s_dq +:+ id +:+ s_dq).
  replace (indent +:+ "<div" +:+ (" " +:+ v +:+ attrs +:+ "}") +:+ ">") with ((indent +:+ "<div ") +:+ v +:+ (attrs +:+ "}>")) by (rewrite !sapp_assoc; reflexivity).
  apply test_finds; [cbn [simple]; by rewrite !simple_lit|].
  change v with ("data-impeccable-variants" +:+ "" +:+ "=" +:+ "" +:+ (s_dq +:+ id +:+ s_dq)).
  apply lang_seq; [apply lang_lit|]. apply lang_seq; [constructor|]. apply lang_seq; [apply lang_lit|]. apply lang_seq; [constructor|].
  apply lang_alt_l, lang_alt_l, lang_lit || apply lang_alt_l, lang_lit.
Qed.
Lemma outer_not_end : isVariantEndMarkerLine jsx_outer id = false.
Proof using id_hex indent_space attrs_end.
  unfold isVariantEndMarkerLine, re_test. rewrite exec_none; [done|]. intros a t r E (s1 & s2 & -> & ->%can_read_lit & _).
  assert (includes "impeccable-variants-end" jsx_outer = false) as Hno by (apply passes_none_self; [done|apply jsx_outer_passes]).
  apply not_true_iff_false in Hno. apply Hno, includes_iff. exists a, (s2 +:+ r). by rewrite E, !sapp_assoc.
Qed.
Lemma outer_div_seen : re_test div_re jsx_outer = true.
Proof using.
  unfold re_test, re_exec, jsx_outer. destruct (search_later div_re indent ("<div" +:+ jsx_attrs +:+ ">") None 0) as [m ->]; [|done].
  unfold match_at, div_re. cbn [rmatch]. rewrite (rmatch_lit_app "<div" (jsx_attrs +:+ ">")) by done. rewrite boundary_if by done. by eexists.
Qed.
Lemma jsx_walk_back : walk_back (pre ++ jsx_lines ++ post) id (S (length pre)) (S (length pre)) = length pre.
Proof using id_hex indent_space attrs_end.
  cbn [walk_back]. unfold jsx_lines. cbn [app]. rewrite line_at_mid, outer_not_end, wrapper_attr_seen. cbv zeta.
  assert (walk_opener (pre ++ jsx_outer :: (marked ++ [div_close_line indent]) ++ post) id (length pre) = length pre) as ->.
  { destruct (length pre) as [|k] eqn:E; [done|]. cbn [walk_opener]. rewrite <- E, line_at_mid, outer_div_seen. done. }
  by rewrite line_at_mid, outer_div_seen.
Qed.

(** The text between the tags of the outer element. *)
Definition between : string := s_nl +:+ join s_nl marked +:+ s_nl +:+ indent.
Lemma between_nested : nested between.
Proof using indent_space marked_nested.
  apply nested_app; [by apply nested_text|]. apply nested_app; [done|]. apply nested_text. by rewrite no_char_app, (spaces_no_char "<" indent).
Qed.
Lemma jsx_text : join s_nl jsx_lines = indent +:+ ("<div" +:+ jsx_attrs +:+ ">") +:+ between +:+ ("</div" +:+ "" +:+ ">").
Proof using marked_nonempty.
  unfold jsx_lines. change (jsx_outer :: marked ++ ?l) with ([jsx_outer] ++ marked ++ l). rewrite (join_app [_]), (join_app marked) by (done || by intros [? _]%app_eq_nil).
  cbn [join]. unfold jsx_outer, between, div_close_line. rewrite !sapp_assoc. reflexivity.
Qed.
Lemma jsx_no_nls : no_nls jsx_lines.
Proof using id_hex indent_line attrs_line marked_lines.
  constructor; [unfold jsx_outer, jsx_attrs, variants_attr; by rewrite !no_char_app, indent_line, (hex_no_char NL id), attrs_line|].
  apply Forall_app. split; [done|]. constructor; [|done]. unfold div_close_line. by rewrite no_char_app, indent_line.
Qed.

Lemma jsx_range end_ : end_ <= length pre + S (length marked) ->
  expandReplaceRange id (Block (S (length pre)) end_) (pre ++ jsx_lines ++ post) true = Block (length pre) (length pre + S (length marked)).
Proof using All.
  intros Hend. unfold expandReplaceRange. cbn [negb b_start b_end]. rewrite jsx_walk_back. cbv zeta. f_equal. rewrite drop_app_length.
  assert (exists tail, join s_nl (jsx_lines ++ post) = join s_nl jsx_lines +:+ tail) as [tail ->].
  { destruct post as [|y post']; [exists ""; by rewrite app_nil_r, sapp_nil_r|]. exists (s_nl +:+ join s_nl (y :: post')). by apply join_app. }
  set (J := join s_nl jsx_lines +:+ tail). unfold re_match_all.
  assert (J = indent +:+ ("<div" +:+ jsx_attrs +:+ ">") +:+ between +:+ ("</div" +:+ "" +:+ ">") +:+ tail) as EJ by (subst J; by rewrite jsx_text, !sapp_assoc).
  destruct jsx_attrs_ok as (Ha & Hb & Hc).
  assert (match_all_from (S (slen J)) divRe None 0 J = match_all_from (S (slen J)) divRe (last_char None indent) (slen indent) (("<div" +:+ jsx_attrs +:+ ">") +:+ between +:+ ("</div" +:+ "" +:+ ">") +:+ tail)) as ->.
  { rewrite EJ at 2. rewrite match_all_skip; [done|]. intros u v Eu Hv. destruct v as [|v0 v]; [done|]. cbn [append]. apply (sc_char _ _ divRe_scans). intros ->.
    assert (no_char "<" indent = true) as Hi by (by apply spaces_no_char). rewrite Eu, no_char_app in Hi. cbn [no_char sforall] in Hi. by rewrite andb_false_r in Hi. }
  assert (slen (("<div" +:+ jsx_attrs +:+ ">") +:+ between +:+ ("</div" +:+ "" +:+ ">") +:+ tail) < S (slen J)) as Hfuel
    by (rewrite EJ, (slen_app indent); apply Nat.lt_succ_r, Nat.le_add_l).
  edestruct (match_all_tag divRe depth_change ("<div" +:+ jsx_attrs +:+ ">") 1%Z) as (m & f & Hf & Ek & _ & _ & E);
    [done|by apply (sc_open _ _ divRe_scans jsx_attrs)|exact Hfuel|rewrite E].
  cbn [walk_forward]. rewrite Ek. cbn [Z.add Z.leb Z.compare andb].
  edestruct (scan_nested divRe depth_change divRe_scans between between_nested (("</div" +:+ "" +:+ ">") +:+ tail)) as (ms & f2 & Hf2 & Hbal & E2); [exact Hf|rewrite E2].
  rewrite (forward_balanced _ Hbal ms) by done.
  edestruct (match_all_tag divRe depth_change ("</div" +:+ "" +:+ ">") (-1)%Z) as (m2 & f3 & Hf3 & Ek2 & Et2 & Ei2 & E3);
    [done|by apply (sc_close _ _ divRe_scans "")|exact Hf2|rewrite E3].
  cbn [walk_forward]. rewrite Ek2. cbn [Z.add Z.leb Z.compare Z.pos_sub Pos.pred_double andb].
  assert (line_of (length pre) J m2 = length pre + S (length marked)) as ->.
  { unfold line_of. rewrite Et2, Ei2.
    assert (stake (slen indent + slen ("<div" +:+ jsx_attrs +:+ ">") + slen between + slen ("</div" +:+ "" +:+ ">")) J = join s_nl jsx_lines) as ->.
    { subst J. rewrite <- !slen_app, jsx_text, <- !sapp_assoc. by rewrite stake_app. }
    rewrite split_join_lines; [|done|apply jsx_no_nls]. unfold jsx_lines. cbn [length]. rewrite length_app. cbn [length]. lia. }
  by apply Nat.leb_le in Hend as ->.
Qed.
End JsxRange.

(** ** Discarding in a file with JSX comments *)

Definition jsx_rest (mode : string) (n : Z) : string :=
  mode +:+ " data-impeccable-variant-count=" +:+ s_dq +:+ print_Z n +:+ s_dq +:+ " style={{ display: " +:+ s_dq +:+ "contents" +:+ s_dq +:+ " }".
Definition insert_mode : string := " data-impeccable-mode=" +:+ s_dq +:+ "insert" +:+ s_dq.

Section Jsx.
Context (id indent : string) (n : Z) (pre V post : list string).
Hypothesis id_hex : sforall is_hex_lower id = true.
Hypothesis indent_space : sforall is_space indent = true.
Hypothesis indent_line : no_char NL indent = true.
Hypothesis pre_free : no_markers id pre.

Lemma jsx_rest_ok mode : mode = "" \/ mode = insert_mode ->
  no_char ">" (jsx_rest mode n) = true /\ no_char NL (jsx_rest mode n) = true /\ passes "impeccable-variants-end" (jsx_rest mode n) /\ passes "impeccable-variants-start" (jsx_rest mode n).
Proof using.
  intros Hm. unfold jsx_rest. split_and!.
  - rewrite !no_char_app, (number_no_char ">" n) by done. by destruct Hm as [-> | ->].
  - rewrite !no_char_app, (number_no_char NL n) by done. by destruct Hm as [-> | ->].
  - destruct Hm as [-> | ->]; repeat apply passes_app; first [by apply passes_lit|apply passes_no_char; by apply number_no_char].
  - destruct Hm as [-> | ->]; repeat apply passes_app; first [by apply passes_lit|apply passes_no_char; by apply number_no_char].
Qed.

(** The block of either command: [mid] is what is between the lines of the two markers. *)
Section Marked.
Context (mode : string) (mid : list string).
Hypothesis mode_ok : mode = "" \/ mode = insert_mode.
Hypothesis mid_nested : nested (join s_nl mid).
Hypothesis mid_lines : no_nls mid.
Hypothesis mid_no_end : Forall (fun l => includes (end_pattern id) l = false) mid.
Notation attrs := (jsx_rest mode n).
Notation outer := (jsx_outer id indent attrs).

Definition jsx_marked : list string := (indent +:+ "  " +:+ start_line true id) :: mid ++ [indent +:+ "  " +:+ end_line true id].
Definition jsx_block : list string := jsx_lines id indent attrs jsx_marked.
Definition jsx_found_block : block := Block (S (length pre)) (S (length pre) + S (length mid)).

Lemma jsx_marked_length : length jsx_marked = S (S (length mid)).
Proof using. unfold jsx_marked. cbn [length]. rewrite length_app. cbn [length]. lia. Qed.
Lemma jsx_marked_ok : nested (join s_nl jsx_marked) /\ no_nls jsx_marked.
Proof using id_hex indent_space indent_line mid_nested mid_lines.
  assert (no_char "<" indent = true) as Hi by (by apply spaces_no_char).
  assert (no_char "<" id = true) as Hid by (by apply hex_no_char).
  split.
  - apply nested_line; [|apply nested_lines; [done|]]; cbn [join]; apply nested_text; unfold start_line, end_line, comment_line; rewrite !no_char_app, Hi, Hid; done.
  - pose proof (front_lines true id indent 0 id_hex indent_line) as H. rewrite !Forall_cons in H. destruct H as (_ & _ & Hs & _ & _ & He & _).
    constructor; [done|]. apply Forall_app. split; [done|by constructor].
Qed.

Lemma jsx_found : findMarkerBlock id (pre ++ jsx_block ++ post) = Some jsx_found_block.
Proof using id_hex indent_space pre_free mode_ok mid_no_end.
  destruct (jsx_rest_ok mode mode_ok) as (_ & _ & He & Hs).
  pose proof (front_no_end true id indent 0 id_hex indent_space) as Hf. rewrite !Forall_cons in Hf. destruct Hf as (_ & Hse & _).
  assert (no_markers id (pre ++ [outer])) as Hpre.
  { apply Forall_app. split; [done|]. constructor; [|done]. split.
    - change (start_pattern id) with ("impeccable-variants-start" +:+ (" " +:+ id)). apply passes_none; [done|]. unfold jsx_outer, jsx_attrs, variants_attr.
      repeat first [exact Hs|apply passes_app]; first [by apply passes_lit|apply passes_no_char; first [by apply hex_no_char|by apply spaces_no_char]].
    - apply no_end. by apply jsx_outer_passes. }
  pose proof (markers_found id (pre ++ [outer]) (indent +:+ "  " +:+ start_line true id) mid (indent +:+ "  " +:+ end_line true id) (div_close_line indent :: post)) as H.
  rewrite length_app, Nat.add_1_r in H. unfold jsx_found_block. rewrite <- H; [|done| |by constructor|].
  - f_equal. unfold jsx_block, jsx_lines, jsx_marked. cbn [app]. repeat first [rewrite <- app_assoc|progress cbn [app]]. done.
  - rewrite <- sapp_assoc. apply start_found.
  - rewrite <- sapp_assoc. apply end_found.
Qed.

Lemma jsx_block_lines : block_lines jsx_found_block (pre ++ jsx_block ++ post) = jsx_marked.
Proof using.
  unfold jsx_found_block, block_lines. cbn [b_start b_end]. unfold jsx_block, jsx_lines. cbn [app].
  replace (pre ++ outer :: (jsx_marked ++ [div_close_line indent]) ++ post) with ((pre ++ [outer]) ++ jsx_marked ++ (div_close_line indent :: post))
    by (repeat first [rewrite <- app_assoc|progress cbn [app]]; done).
  replace (S (length pre)) with (length (pre ++ [outer])) by (rewrite length_app; cbn [length]; lia). apply block_lines_at, jsx_marked_length.
Qed.

Lemma jsx_discarded : discarded_lines id (pre ++ jsx_block ++ post) true =
  Some (pre ++ deindentContent (extractOriginal (pre ++ jsx_block ++ post) jsx_found_block) indent ++ post).
Proof using All.
  destruct (jsx_rest_ok mode mode_ok) as (Hg & Hl & He & _). destruct jsx_marked_ok as [Hn Hnl].
  unfold discarded_lines. rewrite jsx_found. cbn [mbind option_bind]. cbv zeta. unfold jsx_block. set (o := extractOriginal _ _). unfold jsx_found_block.
  rewrite (jsx_range id indent attrs pre jsx_marked post) by (done || (rewrite jsx_marked_length; lia)). cbn [b_start b_end]. unfold replace_range. cbn [b_start b_end].
  rewrite (replace_at pre (jsx_lines id indent attrs jsx_marked) post) by (unfold jsx_lines; cbn [length]; rewrite length_app; cbn [length]; lia).
  unfold jsx_lines at 1. cbn [app]. rewrite line_at_mid. unfold jsx_outer at 1. cbn [append]. by rewrite indent_at.
Qed.
End Marked.
End Jsx.
