(* ===== verification/VariantRoundtrip.v ===== *)
(** * Discarding undoes wrapping and inserting

    The block that live-wrap.mjs or live-insert.mjs writes, found and discarded by live-accept.mjs with whatever the
    agent has put into it, gives back the lines that were there. *)
From S2P Require Import Prelude JsString JsValue Json Encodings JsRegex RegexFacts Markup EventValidation NodePath TagStrategy VariantBlock VariantScan BlockText LiveWrap LiveInsert WrittenBlock.
Local Open Scope list_scope.
Local Open Scope nat_scope.

(** ** The two commands *)

Section JsxWrap.
Context (id indent : string) (n : Z) (pre R V post : list string).
Hypothesis id_hex : sforall is_hex_lower id = true.
Hypothesis indent_space : sforall is_space indent = true.
Hypothesis indent_line : no_char NL indent = true.
Hypothesis R_nonempty : R <> [].
Hypothesis R_nested : nested (join s_nl R).
Hypothesis V_nested : nested (join s_nl V).
Hypothesis R_lines : no_nls R.
Hypothesis V_lines : no_nls V.
Hypothesis R_plain : Forall (fun l => includes "<style" l = false) R.
Hypothesis no_ends : Forall (fun l => includes (end_pattern id) l = false) (R ++ V).
Hypothesis pre_free : no_markers id pre.

Definition wrap_mid : list string := original_line true indent :: inside true indent R V.

Lemma inside_nested : nested (join s_nl (inside true indent R V)).
Proof using indent_space R_nonempty R_nested V_nested.
  assert (no_char "<" indent = true) as Hi by (by apply spaces_no_char).
  assert (join s_nl (inside true indent R V) = (indent +:+ "  ") +:+ ("<div" +:+ (" " +:+ original_attr) +:+ ">") +:+ inner_text indent R +:+
    ("</div" +:+ "" +:+ ">") +:+ (s_nl +:+ join s_nl (insert_line true indent :: V))) as ->.
  { unfold inside. change (?o :: R ++ ?d :: ?l :: V) with ([o] ++ R ++ [d] ++ l :: V).
    rewrite (join_app [_]), (join_app R), (join_app [_]) by (done || by intros [? _]%app_eq_nil). unfold inner_text. cbn [join]. unfold original_open, original_close. rewrite !sapp_assoc. reflexivity. }
  apply nested_app; [apply nested_text; by rewrite !no_char_app, Hi|].
  apply N_div; [done|done| |by apply inner_nested|done|].
  - intros x y. by apply (not_self_closing DQ (" data-impeccable-variant=" +:+ s_dq +:+ "original")).
  - apply nested_app; [by apply nested_text|]. apply nested_line; [|done]. apply nested_text. unfold insert_line. by rewrite !no_char_app, Hi.
Qed.
Lemma wrap_mid_ok : nested (join s_nl wrap_mid) /\ no_nls wrap_mid /\ Forall (fun l => includes (end_pattern id) l = false) wrap_mid.
Proof using All.
  split_and!.
  - apply nested_line; [|apply inside_nested]. apply nested_text. unfold original_line. by rewrite !no_char_app, (spaces_no_char "<" indent).
  - pose proof (front_lines true id indent n id_hex indent_line) as H. rewrite !Forall_cons in H. constructor; [by apply H|]. by apply inside_lines.
  - pose proof (front_no_end true id indent n id_hex indent_space) as H. rewrite !Forall_cons in H. constructor; [by apply H|]. by apply inside_no_end.
Qed.
Lemma jsx_wrap_discarded : discarded_lines id (pre ++ jsx_block id indent n "" wrap_mid ++ post) true =
  Some (pre ++ deindentContent ("" :: R ++ [indent +:+ "  "]) indent ++ post).
Proof using All.
  destruct wrap_mid_ok as (Hn & Hl & He). rewrite jsx_discarded by (done || by left).
  assert (extractOriginal (pre ++ jsx_block id indent n "" wrap_mid ++ post) (jsx_found_block pre wrap_mid) = "" :: R ++ [indent +:+ "  "]) as ->; [|done].
  pose proof (plain_front true id indent n id_hex indent_space) as Hp. rewrite !Forall_cons in Hp. destruct Hp as (_ & Ps & _ & Pc & _).
  apply (original_found true indent R V) with (H := [indent +:+ "  " +:+ start_line true id; original_line true indent]) (T := [indent +:+ "  " +:+ end_line true id]); try done.
  - apply jsx_block_lines.
  - by repeat constructor.
  - by apply quiet_jsx.
Qed.
End JsxWrap.

Lemma written_jsx pre id n indent orig V post : orig <> [] ->
  join s_nl (pre ++ (wrapper_above true jsx_comments id (NInt n) indent orig ++ V ++ wrapper_below true jsx_comments id indent) ++ post)
  = join s_nl (pre ++ jsx_block id indent n "" (wrap_mid indent (reindent_original indent orig) V) ++ post).
Proof.
  intros Ho. assert (indent +:+ outer_div true id (NInt n) = jsx_outer id indent (jsx_rest "" n)) as E.
  { unfold outer_div, jsx_outer, jsx_attrs, jsx_rest, style_contents. cbn [num_to_string]. rewrite !sapp_assoc. reflexivity. }
  unfold wrapper_above, wrapper_below, jsx_block, jsx_lines, jsx_marked, wrap_mid, inside, original_open, original_close, insert_line, div_close_line, original_line, start_line, end_line.
  rewrite E. cbn [syntax_for]. repeat first [rewrite <- app_assoc|progress cbn [app]].
  match goal with |- join _ (pre ++ ?a :: ?b :: ?c :: ?d :: join s_nl ?r :: ?t) = _ => change (a :: b :: c :: d :: join s_nl r :: t) with ([a; b; c; d] ++ join s_nl r :: t) end.
  rewrite app_assoc, join_flat by (by destruct orig). by rewrite <- app_assoc.
Qed.

Lemma reindented_free p p2 indent orig : p <> "" -> passes p indent -> passes p "    " -> Forall (fun l => includes (p +:+ p2) l = false) orig ->
  Forall (fun l => includes (p +:+ p2) l = false) (reindent_original indent orig).
Proof.
  intros Hp Hi Hs H. apply Forall_forall. intros x (l & -> & Hl)%list_elem_of_fmap. rewrite Forall_forall in H. destruct (blank l).
  - by destruct p.
  - rewrite Hi, Hs. by apply includes_drop, H.
Qed.
Lemma reindented_lines indent orig : no_char NL indent = true -> no_nls orig -> no_nls (reindent_original indent orig).
Proof.
  intros Hi H. apply Forall_forall. intros x (l & -> & Hl)%list_elem_of_fmap. rewrite Forall_forall in H. destruct (blank l); [done|].
  rewrite !no_char_app, Hi. cbn [andb]. by apply sforall_drop, H.
Qed.
Lemma html_lines id n indent R V : sforall is_hex_lower id = true -> no_char NL indent = true -> no_nls R -> no_nls V -> no_nls (html_block id indent n R V).
Proof.
  intros Hid Hi HR HV. pose proof (front_lines false id indent n Hid Hi) as H. rewrite !Forall_cons in H. destruct H as (_ & Hs & _ & _ & He & _ & Ho & Hc & Hd & _).
  unfold html_block. do 3 (constructor; [done|]). apply Forall_app. split; [by apply inside_lines|by repeat constructor].
Qed.
Lemma jsx_wrap_lines id n indent R V : sforall is_hex_lower id = true -> no_char NL indent = true -> no_nls R -> no_nls V -> no_nls (jsx_block id indent n "" (wrap_mid indent R V)).
Proof.
  intros Hid Hi HR HV. pose proof (front_lines true id indent n Hid Hi) as H. rewrite !Forall_cons in H. destruct H as (_ & _ & Hs & _ & _ & He & _ & Hc & _).
  apply jsx_no_nls; [done|done|by apply (jsx_rest_ok n ""); left|]. constructor; [done|]. apply Forall_app. split; [|by constructor].
  constructor; [done|]. by apply inside_lines.
Qed.

(** The commands agree about the comment syntax of every file. *)
Lemma syntax_agrees file : syntax_of file = detectCommentSyntax file.
Proof.
  unfold syntax_of, detectCommentSyntax, Frameworks.resolveSourceTraits.
  assert (to_str (JStr file ||? JStr "")%js = file) as -> by (by destruct file). set (ext := to_lower (extname file)).
  destruct (String.eqb_spec ext ".jsx") as [->|Hj]; [done|]. destruct (String.eqb_spec ext ".tsx") as [->|Ht]; [done|]. cbn [orb].
  apply String.eqb_neq in Hj, Ht. unfold Frameworks.FRAMEWORKS. cbn [find]. unfold Frameworks.claims. cbn [Frameworks.extensions_of existsb]. rewrite Hj, Ht. cbn [orb].
  by destruct (String.eqb ext ".svelte"), (String.eqb ext ".vue"), (String.eqb ext ".astro"), (String.eqb ext ".html"), (String.eqb ext ".htm").
Qed.
Lemma syntax_is file : syntax_of file = syntax_for (is_jsx (syntax_of file)).
Proof. unfold syntax_of. by destruct (String.eqb _ _). Qed.

(** The block of the wrapper, by comment syntax. *)
Lemma wrap_discarded isJsx id n pre l0 ls V post :
  let orig := l0 :: ls in let indent := indent_of l0 in let c := syntax_for isJsx in
  sforall is_hex_lower id = true -> no_nls (pre ++ orig ++ V ++ post) -> no_markers id pre ->
  Forall (fun l => includes (end_pattern id) l = false) (orig ++ V) -> Forall (fun l => includes "<style" l = false) orig ->
  blank l0 = false -> Forall (fun l => l = "" \/ blank l = false /\ starts_with indent l = true) orig ->
  nested (join s_nl (reindent_original indent orig)) -> (isJsx = true -> nested (join s_nl V)) ->
  discarded_lines id (split_lines (join s_nl
    (pre ++ (wrapper_above isJsx c id (NInt n) indent orig ++ V ++ wrapper_below isJsx c id indent) ++ post))) isJsx
  = Some (pre ++ ("" :: orig ++ [""]) ++ post).
Proof.
  intros orig indent c Hid Hl Hpre He Hst Hb Hk Hn HV.
  apply Forall_app in Hl as [Lpre [Lo [LV Lpost]%Forall_app]%Forall_app]. apply Forall_app in He as [Eo EV].
  destruct (leading_split l0) as (Hsp & _ & El0). fold indent in Hsp, El0.
  assert (no_char NL indent = true) as Hi by (apply Forall_cons in Lo as [Lo _]; rewrite El0, no_char_app in Lo; by apply andb_true_iff in Lo as []).
  set (R := reindent_original indent orig) in *.
  assert (no_nls R) as LR by (by apply reindented_lines).
  assert (Forall (fun l => includes (end_pattern id) l = false) (R ++ V)) as ER.
  { apply Forall_app. split; [|done]. apply (reindented_free "impeccable-variants-end" (" " +:+ id)); [done|by apply sought_indent, sought_end|by apply passes_lit|done]. }
  assert (Forall (fun l => includes "<style" l = false) R) as SR.
  { apply (reindented_free "<style" ""); [done|by apply sought_indent, sought_style|by apply passes_lit|done]. }
  assert (Some (pre ++ deindentContent ("" :: R ++ [indent +:+ "  "]) indent ++ post) = Some (pre ++ ("" :: orig ++ [""]) ++ post)) as <-.
  { do 2 f_equal. f_equal. subst R. rewrite deindent_reindented; [|done|by exists l0; split; [left|]|by rewrite sforall_app, Hsp]. do 2 f_equal. by apply deindent_id. }
  subst c. destruct isJsx; cbn [syntax_for].
  - rewrite written_jsx by done. fold R. rewrite split_join_lines; [by apply jsx_wrap_discarded; auto|by destruct pre|].
    apply Forall_app. split; [done|]. apply Forall_app. split; [|done]. by apply jsx_wrap_lines.
  - rewrite written_html by done. fold R. rewrite split_join_lines; [by apply html_discarded|by destruct pre|].
    apply Forall_app. split; [done|]. apply Forall_app. split; [|done]. by apply html_lines.
Qed.

(** C17: What live-wrap.mjs writes around an element, discarded by live-accept.mjs, whatever the agent has written below
    the insertion line since: the lines of the element are back in their place, character for character, the rest of
    the file is as it was, and nothing is added but at most one empty line on either side of the element. This is for
    an element whose lines are each empty or begin with the indentation of the first, whose markup is well nested
    ([nested]; in JSX that of the variants too) and that contains no style element, which would be lost; no line of
    the file before it has the markers of the session, none of the element or the variants its end marker. *)
Theorem discard_undoes_wrap file id n pre l0 ls V post :
  let orig := l0 :: ls in let indent := indent_of l0 in let c := syntax_of file in
  sforall is_hex_lower id = true -> no_nls (pre ++ orig ++ V ++ post) -> no_markers id pre ->
  Forall (fun l => includes (end_pattern id) l = false) (orig ++ V) -> Forall (fun l => includes "<style" l = false) orig ->
  blank l0 = false -> Forall (fun l => l = "" \/ blank l = false /\ starts_with indent l = true) orig ->
  nested (join s_nl (reindent_original indent orig)) -> (is_jsx c = true -> nested (join s_nl V)) ->
  exists above below,
  discarded_lines id (split_lines (join s_nl
    (pre ++ (wrapper_above (is_jsx c) c id (NInt n) indent orig ++ V ++ wrapper_below (is_jsx c) c id indent) ++ post))) (is_jsx (detectCommentSyntax file))
  = Some (pre ++ (above ++ orig ++ below) ++ post) /\
  (above = [] \/ above = [""]) /\ (below = [] \/ below = [""]).
Proof.
  intros orig indent c. subst c. intros. exists [""], [""]. split; [|by split; right].
  rewrite <- syntax_agrees. rewrite (syntax_is file) at 2 4. by apply wrap_discarded.
Qed.

(** The nested text of the witness: two lines inside a [div]. *)
Definition demo_section : list string := ["  <section>"; ""; "    <div class='a'>x</div>"; "  </section>"].
Definition demo_variants : list string := ["    <style data-impeccable-css='0a1b2c3d'>b {}</style>"; "    <div data-impeccable-variant='1'><p>y</p></div>"].

(** Reads a text up to the next tag. *)
Ltac read_text := repeat (apply N_char; [discriminate|]).

Definition demo_wrapped : list string :=
  ["<body>"] ++ (wrapper_above true jsx_comments "0a1b2c3d" (NInt 3) "  " demo_section ++ demo_variants
    ++ wrapper_below true jsx_comments "0a1b2c3d" "  ") ++ ["</body>"; ""].

(** The empty lines are there: the text of the element is kept with the line ends between it and its tags. *)
Example blank_lines_added :
  discarded_lines "0a1b2c3d" (split_lines (join s_nl demo_wrapped)) true = Some (["<body>"; ""] ++ demo_section ++ [""; "</body>"; ""]).
Proof. vm_compute. reflexivity. Qed.

Lemma discard_undoes_wrap_witness : exists above below,
  discarded_lines "0a1b2c3d" (split_lines (join s_nl demo_wrapped)) true
  = Some (["<body>"] ++ (above ++ demo_section ++ below) ++ ["</body>"; ""]) /\
  (above = [] \/ above = [""]) /\ (below = [] \/ below = [""]).
Proof.
  apply (discard_undoes_wrap "src/App.tsx" "0a1b2c3d" 3 ["<body>"] "  <section>" [""; "    <div class='a'>x</div>"; "  </section>"] demo_variants ["</body>"; ""]).
  - reflexivity.
  - apply (bool_decide_unpack _). vm_compute. exact I.
  - repeat constructor.
  - apply (bool_decide_unpack _). vm_compute. exact I.
  - apply (bool_decide_unpack _). vm_compute. exact I.
  - reflexivity.
  - constructor; [right; split; reflexivity|]. constructor; [left; reflexivity|]. constructor; [right; split; reflexivity|]. constructor; [right; split; reflexivity|]. constructor.
  - vm_compute. read_text. apply (N_tag "" "section" ">"); [by left|done|done|done|by left|]. read_text.
    apply (N_div " class='a'" "x" ""); [done|done| |by apply nested_text|done|].
    { intros x y. by apply (not_self_closing "'" " class='a"). }
    read_text. apply (N_tag "/" "section" ">"); [by right|done|done|done|by left|]. by apply nested_text.
  - intros _. vm_compute. read_text. apply (N_tag "" "style" " "); [by left|done|done|done|by left|]. read_text.
    apply (N_tag "/" "style" ">"); [by right|done|done|done|by left|]. read_text.
    apply (N_div " data-impeccable-variant='1'" "<p>y</p>" ""); [done|done| | |done|by apply nested_text].
    + intros x y. by apply (not_self_closing "'" " data-impeccable-variant='1").
    + apply (N_tag "" "p" ">"); [by left|done|done|done|by left|]. read_text. apply (N_tag "/" "p" ">"); [by right|done|done|done|by left|]. by apply nested_text.
Defined.

(** ** Discarding an insertion *)

Lemma strip_state V T inStyle : exists inStyle', strip_styles inStyle (V ++ T) = strip_styles inStyle V ++ strip_styles inStyle' T.
Proof.
  revert inStyle; induction V as [|l V IH]; intros inStyle; [by exists inStyle|]. cbn [app strip_styles]. destruct inStyle; cbn [negb].
  - destruct (re_exec style_close_re l); [destruct (IH false) as [st E]|destruct (IH true) as [st E]]; exists st; by rewrite E.
  - destruct (re_exec style_open (strip_line l)); [destruct (IH true) as [st E]|destruct (IH false) as [st E]]; exists st; by rewrite E.
Qed.
Lemma strip_tail inStyle T : Forall (fun l => includes "style" l = false) T -> forall l, l ∈ strip_styles inStyle T -> l ∈ T.
Proof.
  assert (forall a b t, includes "style" t = false -> includes (a +:+ "style" +:+ b) t = false) as Hp by (intros; by apply includes_part).
  intros H. destruct inStyle.
  - induction H as [|x T Hx _ IH]; [done|]. cbn [strip_styles negb]. rewrite exec_none; [intros l Hl; right; by apply IH|].
    intros a t b -> (s1 & s2 & -> & ->%can_read_lit & _). assert (includes "</style" (a +:+ ("</style" +:+ s2) +:+ b) = false) as Hno by (by apply (Hp "</" "")).
    apply not_true_iff_false in Hno. apply Hno, includes_iff. exists a, (s2 +:+ b). by rewrite !sapp_assoc.
  - replace (strip_styles false T) with (strip_styles false (T ++ [])) by (by rewrite app_nil_r). rewrite strip_plain; [|eapply Forall_impl; [exact H|]; intros x Hx; by apply (Hp "<" "")]. cbn [strip_styles]. by rewrite app_nil_r.
Qed.
Lemma nothing_extracted text attr : no_char ">" attr = true -> includes attr text = false -> extractInnerByAttr text attr = None.
Proof.
  intros Hg H. unfold extractInnerByAttr. rewrite exec_none; [done|]. intros a t b -> (w & m & -> & _)%openerRe_reads.
  apply not_true_iff_false in H. apply H, includes_iff. exists (a +:+ "<" +:+ w), (m +:+ ">" +:+ b). by rewrite !sapp_assoc.
Qed.

Section NoOriginal.
Context (isJsx : bool) (id indent : string) (n : Z) (V : list string).
Hypothesis id_hex : sforall is_hex_lower id = true.
Hypothesis indent_space : sforall is_space indent = true.
Hypothesis V_unmarked : Forall (fun l => includes original_attr l = false) (strip_styles false V).

Lemma no_original lines b H T : block_lines b lines = H ++ V ++ T -> Forall (fun l => includes "<style" l = false /\ includes original_attr l = false) H ->
  Forall (fun l => includes "style" l = false /\ includes original_attr l = false) T -> extractOriginal lines b = [].
Proof using V_unmarked.
  intros Eb HH HT. apply Forall_and in HH as [Hs Ha], HT as [Ts Ta]. unfold extractOriginal, stripStyleAndJoin. rewrite Eb. change (variant_attr "original") with original_attr.
  rewrite nothing_extracted; [done|done|]. rewrite strip_plain by done. destruct (strip_state V T false) as [st ->].
  apply join_free; [done|done|]. apply Forall_app. split; [done|]. apply Forall_app. split; [done|].
  apply Forall_forall. intros l Hl%strip_tail; [|done]. by rewrite Forall_forall in Ta; apply Ta.
Qed.

End NoOriginal.

Section InsertBlock.
Context (id indent : string) (n : Z) (pre V post : list string).
Hypothesis id_hex : sforall is_hex_lower id = true.
Hypothesis indent_space : sforall is_space indent = true.
Hypothesis indent_line : no_char NL indent = true.
Hypothesis V_lines : no_nls V.
Hypothesis V_unmarked : Forall (fun l => includes original_attr l = false) (strip_styles false V).
Hypothesis no_ends : Forall (fun l => includes (end_pattern id) l = false) V.
Hypothesis pre_free : no_markers id pre.

(** What no written line has by accident. *)
Definition silent (l : string) : Prop := includes "<style" l = false /\ includes original_attr l = false /\ includes (end_pattern id) l = false.
Lemma silent_passes l : (forall p, sought p -> passes p l) -> silent l.
Proof using.
  intros H. split_and!; [apply passes_none_self; [done|]; apply H, sought_style|apply no_attr_passes, H, sought_attr|apply no_end, H, sought_end].
Qed.
Lemma silent_insert isJsx : silent (insert_line isJsx indent).
Proof using indent_space. apply silent_passes. intros p Hp. by apply pass_insert_line. Qed.
Lemma silent_start isJsx i : sforall is_space i = true -> silent (i +:+ start_line isJsx id).
Proof using id_hex. intros Hi. apply silent_passes. intros p Hp. apply passes_app; [by apply sought_indent|by apply pass_start_line]. Qed.
Lemma silent_outer : silent (indent +:+ insert_div false id (NInt n)).
Proof using id_hex indent_space. apply silent_passes. intros p Hp. apply passes_app; [by apply sought_indent|by apply pass_insert]. Qed.

Lemma pass_end_line p isJsx : p = "style" \/ p = "iant=" -> passes p (end_line isJsx id).
Proof using id_hex.
  intros Hp. unfold end_line, comment_line. destruct Hp as [-> | ->], isJsx; cbn [syntax_for cs_open cs_close html_comments jsx_comments];
    repeat apply passes_app; first [by apply passes_lit|apply passes_no_char; by apply hex_no_char].
Qed.
Lemma below_silent l isJsx : l = div_close_line indent \/ (exists i, sforall is_space i = true /\ l = i +:+ end_line isJsx id) ->
  includes "style" l = false /\ includes original_attr l = false.
Proof using id_hex indent_space.
  intros H. assert (forall p, p = "style" \/ p = "iant=" -> passes p l) as Hl.
  { intros p Hp. assert (forall i, sforall is_space i = true -> passes p i) as Hi by (intros i Hi; destruct Hp as [-> | ->]; apply passes_no_char; by apply spaces_no_char).
    destruct H as [-> |(i & Hsp & ->)]; (apply passes_app; [by apply Hi|]); [destruct Hp as [-> | ->]; by apply passes_lit|by apply pass_end_line]. }
  split; [apply passes_none_self; [done|]; apply Hl; by left|apply no_attr_passes, Hl; by right].
Qed.

Definition insert_html_block : list string :=
  [indent +:+ start_line false id; indent +:+ insert_div false id (NInt n); insert_line false indent] ++ V ++ [div_close_line indent; indent +:+ end_line false id].
Definition insert_html_mid : list string := [indent +:+ insert_div false id (NInt n); insert_line false indent] ++ V ++ [div_close_line indent].

Lemma insert_html_eq : insert_html_block ++ post = (indent +:+ start_line false id) :: insert_html_mid ++ (indent +:+ end_line false id) :: post.
Proof using. unfold insert_html_block, insert_html_mid. repeat first [rewrite <- app_assoc|progress cbn [app]]. done. Qed.
Lemma insert_html_length : length insert_html_block = S (S (length insert_html_mid)).
Proof using. unfold insert_html_block, insert_html_mid. cbn [app length]. rewrite !length_app. cbn [length]. lia. Qed.

Lemma insert_html_discarded : discarded_lines id (pre ++ insert_html_block ++ post) false = Some (pre ++ post).
Proof using All.
  pose proof (silent_start false indent indent_space) as (Ss & Sa & Se). pose proof silent_outer as (Os & Oa & Oe). pose proof (silent_insert false) as (Is & Ia & Ie).
  unfold discarded_lines. rewrite insert_html_eq at 1. rewrite (markers_found id pre _ insert_html_mid _ post); [|done|apply start_found| |apply end_found].
  2:{ constructor; [done|]. unfold insert_html_mid. do 2 (constructor; [done|]). apply Forall_app. split; [done|]. constructor; [|done].
      pose proof (front_no_end false id indent n id_hex indent_space) as H. rewrite !Forall_cons in H. by apply H. }
  cbn [mbind option_bind]. set (b := Block _ _).
  rewrite (no_original V V_unmarked _ b [indent +:+ start_line false id; indent +:+ insert_div false id (NInt n); insert_line false indent] [div_close_line indent; indent +:+ end_line false id]).
  - unfold expandReplaceRange. cbn [negb]. cbv iota zeta. unfold replace_range. subst b. cbn [b_start b_end]. by rewrite replace_at by apply insert_html_length.
  - apply block_lines_at, insert_html_length.
  - by repeat constructor.
  - constructor; [apply (below_silent _ false); by left|]. constructor; [|done]. apply (below_silent _ false). right. by exists indent.
Qed.

Lemma insert_html_lines : no_nls insert_html_block.
Proof using id_hex indent_line V_lines.
  pose proof (front_lines false id indent n id_hex indent_line) as H. rewrite !Forall_cons in H. destruct H as (_ & Hs & _ & _ & He & _ & _ & _ & Hd & _).
  unfold insert_html_block. constructor; [done|]. constructor; [|constructor; [|apply Forall_app; split; [done|by repeat constructor]]].
  - unfold insert_div, variants_attr. cbn [num_to_string]. by rewrite !no_char_app, indent_line, (hex_no_char NL id), (number_no_char NL n).
  - unfold insert_line. by rewrite !no_char_app, indent_line.
Qed.

Hypothesis V_nested : nested (join s_nl V).
Definition insert_mid : list string := insert_line true indent :: V.
Lemma insert_mid_ok : nested (join s_nl insert_mid) /\ no_nls insert_mid /\ Forall (fun l => includes (end_pattern id) l = false) insert_mid.
Proof using indent_space indent_line V_lines no_ends V_nested.
  split_and!.
  - apply nested_line; [|done]. apply nested_text. unfold insert_line. by rewrite !no_char_app, (spaces_no_char "<" indent).
  - constructor; [|done]. unfold insert_line. by rewrite !no_char_app, indent_line.
  - constructor; [apply silent_insert|done].
Qed.
Lemma insert_jsx_discarded : discarded_lines id (pre ++ jsx_block id indent n insert_mode insert_mid ++ post) true = Some (pre ++ post).
Proof using All.
  destruct insert_mid_ok as (Hn & Hl & He). rewrite jsx_discarded by (done || by right).
  assert (extractOriginal (pre ++ jsx_block id indent n insert_mode insert_mid ++ post) (jsx_found_block pre insert_mid) = []) as ->; [|done].
  assert (sforall is_space (indent +:+ "  ") = true) as Hsp by (by rewrite sforall_app, indent_space).
  apply (no_original V V_unmarked _ _ [indent +:+ "  " +:+ start_line true id; insert_line true indent] [indent +:+ "  " +:+ end_line true id]).
  - apply jsx_block_lines.
  - rewrite <- !sapp_assoc. constructor; [|constructor; [|done]]; [pose proof (silent_start true _ Hsp) as (? & ? & _)|pose proof (silent_insert true) as (? & ? & _)]; done.
  - rewrite <- !sapp_assoc. constructor; [|done]. apply (below_silent _ true). right. by exists (indent +:+ "  ").
Qed.
Lemma insert_jsx_lines : no_nls (jsx_block id indent n insert_mode insert_mid).
Proof using id_hex indent_space indent_line V_lines no_ends V_nested.
  destruct insert_mid_ok as (Hn & Hl & He). apply jsx_no_nls; [done|done|by apply (jsx_rest_ok n insert_mode); right|].
  by apply (jsx_marked_ok id indent id_hex indent_space indent_line insert_mid).
Qed.
End InsertBlock.

Lemma written_insert isJsx id n indent V :
  insert_above isJsx (syntax_for isJsx) id (NInt n) indent ++ V ++ wrapper_below isJsx (syntax_for isJsx) id indent
  = if isJsx then jsx_block id indent n insert_mode (insert_mid indent V) else insert_html_block id indent n V.
Proof.
  destruct isJsx; unfold insert_above, wrapper_below; cbn [syntax_for]; [|done].
  unfold jsx_block, jsx_lines, jsx_marked, insert_mid, insert_line, start_line, end_line, div_close_line. cbn [syntax_for].
  repeat first [rewrite <- app_assoc|progress cbn [app]].
  do 2 f_equal. unfold insert_div, jsx_outer, jsx_attrs, jsx_rest, insert_mode, style_contents. cbn [num_to_string]. rewrite !sapp_assoc. reflexivity.
Qed.

Lemma insert_indent_ok lines k start : no_nls lines ->
  sforall is_space (insert_indent lines k start) = true /\ no_char NL (insert_indent lines k start) = true.
Proof.
  intros H. assert (forall l, l ∈ lines -> sforall is_space (indent_of l) = true /\ no_char NL (indent_of l) = true) as Hl.
  { intros l Hl. destruct (leading_split l) as (Hs & _ & E). split; [done|]. rewrite Forall_forall in H. specialize (H l Hl). rewrite E, no_char_app in H. by apply andb_true_iff in H as []. }
  unfold insert_indent. destruct (lines !! k) as [l|] eqn:E; [by apply Hl, (list_elem_of_lookup_2 _ k)|].
  destruct (lines !! start) as [l|] eqn:E2; [by apply Hl, (list_elem_of_lookup_2 _ start)|done].
Qed.

(** The block of an insertion, by comment syntax. *)
Lemma insert_discarded isJsx id n lines k start V :
  let indent := insert_indent lines k start in let c := syntax_for isJsx in
  sforall is_hex_lower id = true -> no_nls lines -> no_nls V -> no_markers id (take k lines) ->
  Forall (fun l => includes (end_pattern id) l = false) V -> Forall (fun l => includes (variant_attr "original") l = false) (strip_styles false V) ->
  (isJsx = true -> nested (join s_nl V)) ->
  discarded_lines id (split_lines (join s_nl
    (take k lines ++ (insert_above isJsx c id (NInt n) indent ++ V ++ wrapper_below isJsx c id indent) ++ drop k lines))) isJsx
  = Some lines.
Proof.
  intros indent c Hid Hl HV Hpre He Hu Hn. subst c. rewrite written_insert. destruct (insert_indent_ok lines k start Hl) as [Hs Hi]. fold indent in Hs, Hi.
  assert (no_nls (take k lines) /\ no_nls (drop k lines)) as [Lp Lq] by (by apply Forall_app; rewrite take_drop).
  transitivity (Some (take k lines ++ drop k lines)); [|by rewrite take_drop].
  destruct isJsx; (rewrite split_join_lines; [|by destruct (take k lines)|apply Forall_app; split; [done|apply Forall_app; split; [|done]]]).
  - by apply insert_jsx_discarded; auto.
  - by apply insert_jsx_lines; auto.
  - by apply insert_html_discarded.
  - by apply insert_html_lines.
Qed.

(** C18: What live-insert.mjs writes beside an element, discarded by live-accept.mjs, with the variants the agent has
    written into it since: the file is exactly what it was before. Outside JSX the variants are any lines that do not
    have the end marker of the session and, style elements aside, do not claim to be the original; in JSX their [div]
    elements are well nested as well, where an element that closes itself has no [>] in an attribute ([nested]). *)
Theorem discard_undoes_insert file id n lines k start V :
  let indent := insert_indent lines k start in let c := syntax_of file in
  sforall is_hex_lower id = true -> no_nls lines -> no_nls V -> no_markers id (take k lines) ->
  Forall (fun l => includes (end_pattern id) l = false) V -> Forall (fun l => includes (variant_attr "original") l = false) (strip_styles false V) ->
  (is_jsx c = true -> nested (join s_nl V)) ->
  discarded_lines id (split_lines (join s_nl
    (take k lines ++ (insert_above (is_jsx c) c id (NInt n) indent ++ V ++ wrapper_below (is_jsx c) c id indent) ++ drop k lines))) (is_jsx (detectCommentSyntax file))
  = Some lines.
Proof. intros indent c. subst c. rewrite <- syntax_agrees. rewrite (syntax_is file) at 3 5. apply insert_discarded. Qed.

Lemma discard_undoes_insert_witness :
  discarded_lines "0a1b2c3d" (split_lines (join s_nl (["<main>"; "  <p>x</p>"] ++ (insert_above false html_comments "0a1b2c3d" (NInt 2) "" ++ demo_variants
    ++ wrapper_below false html_comments "0a1b2c3d" "") ++ ["</main>"]))) false = Some ["<main>"; "  <p>x</p>"; "</main>"].
Proof.
  apply (discard_undoes_insert "index.html" "0a1b2c3d" 2 ["<main>"; "  <p>x</p>"; "</main>"] 2 1 demo_variants);
    [reflexivity|apply (bool_decide_unpack _); vm_compute; exact I..|discriminate].
Defined.

(** An arrow function in an attribute is no obstacle in an opening tag. *)
Example arrow_nested : nested "<div onClick={() => f()}>x</div>".
Proof.
  apply (N_div " onClick={() =" " f()}>x" "" ""); [done|done| |by apply nested_text|done|constructor].
  intros x y. by apply (not_self_closing "=" " onClick={() ").
Qed.

(** It is one in an element that closes itself: the scan takes the tag for an opening one and its end for text, so the
    depth stays one too high, and a discard removes everything up to the closing tag of an element around the
    insertion. Here the paragraph after the insertion and the closing tag of its parent are lost. *)
Definition arrow_page : list string := ["<main>"; "<div>"; "  <p>x</p>"; "  <p>y</p>"; "</div>"; "</main>"].
Definition arrow_variant : list string := ["    <div data-impeccable-variant='1'><div onClick={() => f()} /></div>"].
Example discard_deletes_beyond :
  discarded_lines "0a1b2c3d" (split_lines (join s_nl
    (take 3 arrow_page ++ (insert_above true jsx_comments "0a1b2c3d" (NInt 1) "  " ++ arrow_variant ++ wrapper_below true jsx_comments "0a1b2c3d" "  ")
       ++ drop 3 arrow_page))) true
  = Some ["<main>"; "<div>"; "  <p>x</p>"; "</main>"].
Proof. vm_compute. reflexivity. Qed.
