(* ===== verification/LiveAccept.v ===== *)
(** * Accepting and discarding ([live-accept.mjs])

    The command around the text operations of VariantBlock: the receipts that make it idempotent, the search for the
    session's file, the refusals, the source lock, and the clean-up of staged copy edits that an accept embodies. The
    source lock (SourceLock, a machine of its own) and the component sessions of live/svelte-component.mjs are
    arguments. *)
From S2P Require Import Prelude JsString JsValue Json JsRegex NodePath EventValidation PollLanes SessionJournal Files ManualEditsBuffer VariantBlock TemplateExtensions IgnoreConfig SourceSearch LiveWrap LiveInsert.
Local Open Scope js_scope.
Local Open Scope string_scope.
Local Open Scope list_scope.

Definition VARIANT_NUM_PATTERN : re := (RBol ⋅ (rtimes 1 3 (RClass is_digit) ⋅ REol))%re.

(** ** Results *)

Definition operationFailure (err : js_error) (extra : list (string * js)) : js :=
  spread_with (JObj [("handled", JBool false); ("mode", JStr "error"); ("error", JStr (err_message err))]) extra.
Definition markPreviewFailure (result : js) : js :=
  if (result.["handled"] === JBool false) && negb (truthy result.["mode"]) && truthy result.["previewMode"]
  then spread_with result [("mode", JStr "error")] else result.
(** [{ ...defaults, ...result }]. *)
Definition over (defaults : list (string * js)) (result : js) : js := JObj (assoc_merge defaults (own_props result)).
Definition cleanup_todo (file : string) : js :=
  JStr ("REQUIRED before next poll: carbonize cleanup in " +:+ file +:+ ". See reference/live.md " +:+ s_dq +:+ "Required after accept" +:+ s_dq +:+ ".").
Definition with_todo (file : string) (result : js) : js :=
  if truthy result.["carbonize"] then result.["todo" := cleanup_todo file] else result.

(** ** Staged copy edits in the accepted block *)

Definition normalizeManualEditText (text : string) : string := trim (one_space text).
Definition manualEditTextSegments (source : string) : list string :=
  let text := re_replace_all (lit "<" ⋅ (not_gt ⋅ lit ">"))%re (fun _ => s_nl) source in
  let text := re_replace_all (lit "{/*" ⋅ (rstar_lazy rany ⋅ lit "*/}"))%re (fun _ => s_nl) text in
  let text := re_replace_all (lit "<!--" ⋅ (rstar_lazy rany ⋅ lit "-->"))%re (fun _ => s_nl) text in
  bfilter (fun t => negb (String.eqb t "")) (normalizeManualEditText <$> re_split (rplus (RClass (Ascii.eqb NL))) text).
Definition originalBlockHasExactManualText (originalBlock text : string) : bool :=
  let needle := normalizeManualEditText text in
  negb (String.eqb needle "") && existsb (String.eqb needle) (manualEditTextSegments originalBlock).
Definition manualEditOpAppearsInBlock (op : js) (originalBlock : string) : bool :=
  existsb (fun text => match text with JStr "" => false | JStr t => originalBlockHasExactManualText originalBlock t | _ => false end)
    [opt_get op "newText"; opt_get op "originalText"].

(** An entry of the page without the operations of the block, and whether it lost any. *)
Definition scrub_entry (originalBlock pageUrl : string) (entry : js) : result (js * bool) :=
  page ← read_prop entry "pageUrl";
  if negb (page === JStr pageUrl) then Ok (entry, false) else
  ops ← as_ops entry.["ops"];
  let kept := bfilter (fun op => negb (manualEditOpAppearsInBlock op originalBlock)) ops in
  Ok (entry.["ops" := JArr kept], negb (length kept =? length ops)%nat).
Fixpoint scrub_entries (originalBlock pageUrl : string) (entries : list js) : result (list js * bool) :=
  match entries with
  | [] => Ok ([], false)
  | entry :: entries =>
    e ← scrub_entry originalBlock pageUrl entry;
    r ← scrub_entries originalBlock pageUrl entries;
    Ok (e.1 :: r.1, e.2 || r.2)
  end.
(** [buffer.entries.filter((entry) => entry.ops.length > 0)]. *)
Fixpoint with_ops (entries : list js) : result (list js) :=
  match entries with
  | [] => Ok []
  | entry :: entries =>
    n ← ops_length entry;
    rest ← with_ops entries;
    Ok (if num_ltb (NInt 0) n then entry :: rest else rest)
  end.

(** ** A preview of an older version *)

Definition decodeHtmlAttr (value : string) : string :=
  let replaced (from to text : string) := re_replace_all (lit from) (fun _ => to) text in
  replaced "&amp;" "&" (replaced "&gt;" ">" (replaced "&lt;" "<" (replaced "&quot;" s_dq value))).
Definition either_quote : re := RClass (fun c => Ascii.eqb c DQ || Ascii.eqb c "'").
Definition readHtmlAttr (tag name : string) : js :=
  match re_exec (rspace ⋅ (lit name ⋅ (rstar rspace ⋅ (lit "=" ⋅ (rstar rspace ⋅ (RGroup 1 either_quote ⋅ (RGroup 2 (rstar_lazy rdot) ⋅ RBack 1)))))))%re tag with
  | Some m => JStr (decodeHtmlAttr (group_or "" m 2))
  | None => JNull
  end.
Definition wrapperRe (id : string) : re :=
  (lit "<" ⋅ (rplus (RClass (none_of ">")) ⋅ (lit "data-impeccable-variants=" ⋅ (RGroup 1 either_quote ⋅ (lit id ⋅ (RBack 1 ⋅ (not_gt ⋅ lit ">")))))))%re.
(** Whether the block is such a preview. *)
Definition readSourceShadowPreviewMeta (content id : string) : bool :=
  match re_exec (wrapperRe id) content with
  | None => false
  | Some m =>
    let tag := m_text m in
    (readHtmlAttr tag "data-impeccable-preview" === JStr "source-shadow") && truthy (readHtmlAttr tag "data-impeccable-source-file")
    && num_is_finite (to_num (readHtmlAttr tag "data-impeccable-source-start")) && num_is_finite (to_num (readHtmlAttr tag "data-impeccable-source-end"))
  end.

Definition SEARCH_SKIP_DIRS : list string := NEVER_SOURCE_DIRS ++ ["dist"; "build"].

Section Accept.
Context (cwd liveDir stamp tmp : string) (realpath : string -> option string) (git_ignored : string -> bool).
(** [withSourceLockSync(file, owner, fn, ...)]. *)
Context (withSourceLock : string -> string -> eff fsys js -> eff fsys js).
(** [findSvelteComponentManifest(id)]: the source file and the component directory of a component session;
    [removeSvelteComponentSession] and [inlineSvelteComponentAccept]. *)
Context (manifest : string -> fsys -> option (string * js)) (removeSession : string -> eff fsys unit) (inlineAccept : string -> string -> js -> eff fsys js).

(** ** Receipts *)

Definition acceptReceiptPath (id : string) : result string :=
  id ← safeSessionId id; Ok (path_join [liveDir; "accept-receipts"; id +:+ ".json"]).
Definition readAcceptReceipt (id : string) : eff fsys js :=
  attempt (file ← lift (acceptReceiptPath id); text ← readFileSync file; lift (match json_parse text with Some v => Ok v | None => Throw (error "Unexpected token") end))
    (fun _ => mret JNull).
Definition receipt (id operation : string) (variantId result : js) : js :=
  JObj [("id", JStr id); ("operation", JStr operation); ("variantId", variantId); ("result", result); ("completedAt", JStr stamp)].
Definition writeAcceptReceipt (id operation : string) (variantId result : js) : eff fsys unit :=
  file ← lift (acceptReceiptPath id);
  _ ← mkdirp (dirname file);
  _ ← writeFileSync (file +:+ tmp) (json_stringify2 (receipt id operation variantId result) +:+ s_nl);
  renameSync (file +:+ tmp) file.

(** ** The operations under the lock *)

Definition handleDiscardUnlocked (id : string) (lines : list string) (targetFile : string) : eff fsys js :=
  match discarded_lines id lines (is_jsx (detectCommentSyntax targetFile)) with
  | None => mret (not_handled "Markers not found")
  | Some newLines => _ ← writeFileSync targetFile (join s_nl newLines); mret (JObj [])
  end.
Definition handleDiscard (id targetFile : string) : eff fsys js :=
  withSourceLock targetFile ("discard:" +:+ id) (text ← readFileSync targetFile; handleDiscardUnlocked id (split_lines text) targetFile).

Definition handleAcceptUnlocked (id variantNum : string) (lines : list string) (targetFile : string) (paramValues : js) : eff fsys js :=
  match buildAcceptedWrappedSource id variantNum lines targetFile paramValues with
  | NotHandled error => mret (not_handled error)
  | Accepted content carbonize originalText =>
    _ ← writeFileSync targetFile (join s_nl content);
    mret (JObj [("carbonize", JBool carbonize); ("acceptedOriginalText", JStr originalText)])
  end.
Definition handleAccept (id variantNum targetFile : string) (paramValues : js) : eff fsys js :=
  withSourceLock targetFile ("accept:" +:+ id) (text ← readFileSync targetFile; handleAcceptUnlocked id variantNum (split_lines text) targetFile paramValues).

Definition scrubManualEditsAgainstOriginalBlock (originalBlock : string) (pageUrl : option string) : eff fsys unit :=
  if String.eqb originalBlock "" || negb (given pageUrl) then mret tt else
  entries ← readBuffer liveDir;
  match (entries : list js) with
  | [] => mret tt
  | _ =>
    r ← lift (scrub_entries originalBlock (default "" pageUrl) entries);
    kept ← lift (with_ops r.1);
    run_if r.2 (writeBuffer liveDir kept)
  end.

(** ** The command *)

Definition findSessionFile (id : string) : eff fsys (option (string * string)) :=
  exts ← readLiveTemplateExtensions cwd;
  found ← get (findSourceFile realpath (start_pattern id) exts SEARCH_SKIP_DIRS (fun _ _ => true) cwd);
  match (found : option string) with
  | None => mret None
  | Some file => content ← readFileSync file; mret (Some (file, content))
  end.

(** What is asked for: [None] to discard, or the variant to accept. *)
Definition operation_of (request : option string) : string := match request with None => "discard" | Some _ => "accept" end.
Definition sameOperation (prior : js) (request : option string) : bool :=
  (prior.["operation"] === JStr (operation_of request)) && match request with None => true | Some v => String.eqb (to_str prior.["variantId"]) v end.
Definition prior_answer (prior : js) (request : option string) : js :=
  if sameOperation prior request
  then spread_with prior.["result"] [("handled", JBool true); ("alreadyApplied", JBool true)]
  else JObj [("handled", JBool false); ("mode", JStr "error"); ("error", JStr "accept_receipt_conflict");
             ("priorOperation", prior.["operation"]); ("priorVariantId", prior.["variantId"] ?? JNull)].

Definition emitResult (id : string) (request : option string) (rawResult : js) : eff fsys printed :=
  let result := markPreviewFailure rawResult in
  _ ← run_if (negb (result.["handled"] === JBool false))
        (writeAcceptReceipt id (operation_of request) (match request with None => JNull | Some v => JStr v end) result);
  mret (Printed result false).

(** A component session: its source is rewritten, or left as it is, by live/svelte-component.mjs. *)
Definition component_session (id : string) (request : option string) (paramValues : js) (sourceFile : string) (componentDir : js) : eff fsys printed :=
  let file := resolve cwd sourceFile in
  match request with
  | None =>
    result ← attempt (withSourceLock file ("discard:" +:+ id) (_ ← removeSession id; mret (JObj [("handled", JBool true)])))
               (fun err => mret (operationFailure err []));
    emitResult id request (spread_with result [("file", JStr sourceFile); ("carbonize", JBool false); ("previewMode", JStr "svelte-component"); ("componentDir", componentDir)])
  | Some v =>
    result ← attempt (withSourceLock file ("accept:" +:+ id) (inlineAccept id v paramValues))
               (fun err => mret (operationFailure err [("file", JStr sourceFile); ("sourceFile", JStr sourceFile); ("previewMode", JStr "svelte-component"); ("componentDir", componentDir)]));
    let result := with_todo (to_str (result.["file"])) result in
    emitResult id request (over [("handled", JBool (negb (result.["handled"] === JBool false)))] result)
  end.

(** A session in a source file. *)
Definition discard_in (id targetFile : string) : eff fsys printed :=
  let relFile := JStr (relative cwd targetFile) in
  result ← attempt (r ← handleDiscard id targetFile; mret (over [("handled", JBool true); ("file", relFile); ("carbonize", JBool false)] r))
             (fun err => mret (operationFailure err [("file", relFile)]));
  emitResult id None result.
Definition accept_in (id variantNum targetFile : string) (paramValues : js) (pageUrl : option string) : eff fsys printed :=
  let relFile := relative cwd targetFile in
  built ← attempt (r ← handleAccept id variantNum targetFile paramValues; mret (inr r)) (fun err => mret (inl (operationFailure err [("file", JStr relFile)])));
  match (built : js + js) with
  | inl failure => emitResult id (Some variantNum) failure
  | inr r =>
    let acceptedOriginalText := to_str (r.["acceptedOriginalText"] ||? JStr "") in
    let result := with_todo relFile (jdel r "acceptedOriginalText") in
    _ ← run_if (negb (result.["handled"] === JBool false)) (attempt (scrubManualEditsAgainstOriginalBlock acceptedOriginalText pageUrl) (fun _ => mret tt));
    emitResult id (Some variantNum) (over [("handled", JBool true); ("file", JStr relFile)] result)
  end.

Definition source_session (id : string) (request : option string) (paramValues : js) (pageUrl : option string) (targetFile content : string) : eff fsys printed :=
  generated ← get (isGeneratedFile git_ignored cwd targetFile);
  if bool_decide (is_Some (findMarkerBlock id (split_lines content))) && readSourceShadowPreviewMeta content id then
    mret (Printed (JObj [("handled", JBool false); ("error", JStr "source_shadow_preview_deprecated");
      ("hint", JStr "Svelte live mode now uses svelte-component injection. Re-wrap the element and regenerate variants.")]) false)
  else if (generated : bool) then
    mret (Printed (JObj [("handled", JBool false); ("mode", JStr "fallback"); ("file", JStr (relative cwd targetFile));
      ("hint", JStr "Session is in a generated file. Persist the accepted variant in source; do not rely on this script.")]) false)
  else match request with None => discard_in id targetFile | Some v => accept_in id v targetFile paramValues pageUrl end.

Definition apply_request (id : string) (request : option string) (paramValues : js) (pageUrl : option string) : eff fsys printed :=
  prior ← readAcceptReceipt id;
  if truthy prior then mret (Printed (prior_answer prior request) false) else
  found ← findSessionFile id;
  match (found : option (string * string)) with
  | Some (targetFile, content) => source_session id request paramValues pageUrl targetFile content
  | None =>
    m ← get (manifest id);
    match (m : option (string * js)) with
    | Some (sourceFile, componentDir) => component_session id request paramValues sourceFile componentDir
    | None => mret (Printed (JObj [("handled", JBool false); ("error", JStr ("Session markers not found for id: " +:+ id))]) false)
    end
  end.

Definition acceptCli (args : list string) : eff fsys printed :=
  let id := arg_after args "--id" in
  let variantNum := arg_after args "--variant" in
  let isDiscard := existsb (String.eqb "--discard") args in
  if negb (given id) then mret (Printed (JStr "Missing --id") true) else
  let id := default "" id in
  match safeSessionId id with
  | Throw _ => mret (Printed (JStr "Invalid --id") true)
  | Ok _ =>
    if negb isDiscard && negb (given variantNum) then mret (Printed (JStr "Need --discard or --variant N") true) else
    if negb isDiscard && negb (re_test VARIANT_NUM_PATTERN (default "" variantNum)) then mret (Printed (JStr "Invalid --variant") true) else
    let paramValues := match arg_after args "--param-values" with Some "" | None => JNull | Some raw => default JNull (json_parse raw) end in
    apply_request id (if isDiscard then None else variantNum) paramValues (arg_after args "--page-url")
  end.
End Accept.

(** * Theorems *)

(** ** JSON objects *)

Definition obj_ok (o : list (string * js)) : Prop := NoDup (keys o) /\ Forall (fun kv => json_ok kv.2) o.
Definition plain (v : js) : Prop := exists o, v = JObj o /\ obj_ok o.

Lemma plain_json v : plain v -> json_ok v.
Proof. intros (o & -> & H). by apply json_ok_obj. Qed.
Lemma merge_ok base extra : obj_ok base -> Forall (fun kv => json_ok kv.2) extra -> plain (JObj (assoc_merge base extra)).
Proof. intros [Hn Hf] He. eexists. split; [done|]. split; [by apply assoc_merge_NoDup|by apply Forall_assoc_merge]. Qed.
Lemma plain_spread v extra : plain v -> Forall (fun kv => json_ok kv.2) extra -> plain (spread_with v extra).
Proof. intros (o & -> & H) He. by apply merge_ok. Qed.
Lemma plain_over defaults v : obj_ok defaults -> plain v -> plain (over defaults v).
Proof. intros Hd (o & -> & [_ H]). by apply merge_ok. Qed.
Lemma plain_set v k x : plain v -> json_ok x -> plain (v.[k := x]).
Proof. intros (o & -> & [Hn Hf]) Hx. eexists. split; [done|]. split; [by apply assoc_set_NoDup|by apply Forall_assoc_set]. Qed.
Lemma keys_del_sublist {A} k (o : list (string * A)) : keys (assoc_del k o) `sublist_of` keys o.
Proof. induction o as [|[k' x] o IH]; [done|]. cbn [assoc_del]. destruct (String.eqb k k'); cbn; by constructor. Qed.
Lemma plain_del v k : plain v -> plain (jdel v k).
Proof.
  intros (o & -> & [Hn Hf]). eexists. split; [done|]. pose proof (assoc_del_sublist k o) as Hs. split.
  - eapply sublist_NoDup; [exact Hn|apply keys_del_sublist].
  - rewrite Forall_forall in *. intros kv Hkv. apply Hf. by eapply elem_of_sublist.
Qed.
Lemma plain_obj o : obj_ok o -> plain (JObj o).
Proof. intros H. by exists o. Qed.

Ltac json_fields := repeat constructor; try (apply (bool_decide_unpack _); vm_compute; exact I); try done.

Lemma plain_failure err extra : Forall (fun kv => json_ok kv.2) extra -> plain (operationFailure err extra).
Proof. intros He. apply plain_spread; [|done]. apply plain_obj. split; [apply (bool_decide_unpack _); vm_compute; exact I|by repeat constructor]. Qed.
Lemma plain_mark v : plain v -> plain (markPreviewFailure v).
Proof. intros H. unfold markPreviewFailure. destruct (_ && _); [|done]. by apply plain_spread; [|repeat constructor]. Qed.
Lemma plain_todo file v : plain v -> plain (with_todo file v).
Proof. intros H. unfold with_todo. destruct (truthy _); [|done]. by apply plain_set. Qed.

(** ** Receipts decide *)

Lemma same_request prior request request' : sameOperation prior request = true -> (sameOperation prior request' = true <-> request' = request).
Proof.
  intros H. split; [|by intros ->]. unfold sameOperation in *. apply andb_true_iff in H as [Ho Hv]. intros [Ho' Hv']%andb_true_iff.
  destruct request as [v|], request' as [v'|]; cbn [operation_of] in *.
  - apply String.eqb_eq in Hv, Hv'. by subst.
  - destruct (prior.["operation"]); try done. cbn in Ho, Ho'. apply String.eqb_eq in Ho, Ho'. by subst.
  - destruct (prior.["operation"]); try done. cbn in Ho, Ho'. apply String.eqb_eq in Ho, Ho'. by subst.
  - done.
Qed.

Section Receipts.
Context (cwd liveDir stamp tmp : string) (realpath : string -> option string) (git_ignored : string -> bool).
Context (withSourceLock : string -> string -> eff fsys js -> eff fsys js).
Context (manifest : string -> fsys -> option (string * js)) (removeSession : string -> eff fsys unit) (inlineAccept : string -> string -> js -> eff fsys js).

(** The lock runs the operation and hands back what it returned, or throws. *)
Hypothesis lock_result : forall file owner m s r s', withSourceLock file owner m s = (Ok r, s') -> exists s0 s1, m s0 = (Ok r, s1).
(** What a component session answers is a JSON object. *)
Hypothesis inline_json : forall id v params s r s', inlineAccept id v params s = (Ok r, s') -> plain r.
Hypothesis manifest_json : forall id s file dir, manifest id s = Some (file, dir) -> json_ok dir.

Notation apply_request := (apply_request cwd liveDir stamp tmp realpath git_ignored withSourceLock manifest removeSession inlineAccept).
Notation acceptCli := (acceptCli cwd liveDir stamp tmp realpath git_ignored withSourceLock manifest removeSession inlineAccept).
Notation emitResult := (emitResult liveDir stamp tmp).
Notation readAcceptReceipt := (readAcceptReceipt liveDir).

(** A receipt of the request is on disk. *)
Definition recorded (id : string) (request : option string) (s : fsys) : Prop :=
  exists prior, readAcceptReceipt id s = (Ok prior, s) /\ truthy prior = true /\ sameOperation prior request = true.

Lemma emit_records id request raw s p s1 : plain raw -> emitResult id request raw s = (Ok p, s1) -> (pr_out p).["handled"] = JBool true -> recorded id request s1.
Proof using.
  intros Hraw H Hh. unfold emitResult in H. apply eff_bind_ok in H as (u & s2 & Hw & H). cbn in H. injection H as <- <-. cbn [pr_out] in Hh.
  rewrite Hh in Hw. cbn [strict_eq negb run_if Bool.eqb] in Hw. set (result := markPreviewFailure raw) in *.
  set (variantId := match request with None => JNull | Some v => JStr v end) in *.
  assert (json_ok (receipt stamp id (operation_of request) variantId result)) as Hok.
  { apply json_ok_obj. split; [apply (bool_decide_unpack _); vm_compute; exact I|]. repeat (constructor; [first [exact I|apply plain_json, plain_mark, Hraw|by destruct request]|]). constructor. }
  unfold writeAcceptReceipt in Hw. apply eff_bind_ok in Hw as (file & s3 & Hfile & Hw). unfold lift in Hfile. injection Hfile as Hfile <-.
  apply eff_bind_ok in Hw as (u1 & s4 & _ & Hw). apply eff_bind_ok in Hw as (u2 & s5 & Hwr & Hr).
  assert (f_text s2 !! file = Some (json_stringify2 (receipt stamp id (operation_of request) variantId result) +:+ s_nl)) as Ht.
  { unfold writeFileSync in Hwr. destruct (is_dir _ s4); [done|]. injection Hwr as <- <-. unfold renameSync in Hr. cbn [f_text set_text] in Hr.
    rewrite lookup_insert_eq in Hr. destruct (is_dir file _); [done|]. injection Hr as <- <-. cbn [f_text set_text]. by rewrite lookup_insert_eq. }
  exists (json_norm (receipt stamp id (operation_of request) variantId result)). split_and!.
  - unfold LiveAccept.readAcceptReceipt, attempt, lift, mbind, eff_bind. rewrite Hfile. unfold readFileSync. rewrite Ht.
    unfold json_stringify2. by rewrite parse_print_nl.
  - done.
  - unfold sameOperation, receipt. rewrite json_norm_obj. subst variantId. destruct request as [v|]; cbn; rewrite ?String.eqb_refl; [|done].
    destruct result; cbn; by rewrite ?String.eqb_refl.
Qed.

Lemma lock_plain file owner m s r s' : (forall s0 r s1, m s0 = (Ok r, s1) -> plain r) -> withSourceLock file owner m s = (Ok r, s') -> plain r.
Proof using lock_result. intros Hm (s0 & s1 & H)%lock_result. by eapply Hm. Qed.
Lemma discard_plain id file s r s' : handleDiscard withSourceLock id file s = (Ok r, s') -> plain r.
Proof using lock_result.
  apply lock_plain. intros s0 r0 s1 (t & s2 & _ & H)%eff_bind_ok. unfold handleDiscardUnlocked in H. destruct (discarded_lines _ _ _).
  - apply eff_bind_ok in H as (u & s3 & _ & H). injection H as <- _. by apply plain_obj; split; constructor.
  - injection H as <- _. apply plain_obj. split; [apply (bool_decide_unpack _); vm_compute; exact I|by repeat constructor].
Qed.
Lemma accept_plain id v file params s r s' : handleAccept withSourceLock id v file params s = (Ok r, s') -> plain r.
Proof using lock_result.
  apply lock_plain. intros s0 r0 s1 (t & s2 & _ & H)%eff_bind_ok. unfold handleAcceptUnlocked in H. destruct (buildAcceptedWrappedSource _ _ _ _ _).
  - injection H as <- _. apply plain_obj. split; [apply (bool_decide_unpack _); vm_compute; exact I|by repeat constructor].
  - apply eff_bind_ok in H as (u & s3 & _ & H). injection H as <- _. apply plain_obj. split; [apply (bool_decide_unpack _); vm_compute; exact I|by repeat constructor].
Qed.
Lemma attempt_cases {A} (m : eff fsys A) h s a s' : attempt m h s = (Ok a, s') -> m s = (Ok a, s') \/ exists e s1, m s = (Throw e, s1) /\ h e s1 = (Ok a, s').
Proof. unfold attempt. destruct (m s) as [[x|e] s1]; intros H; [by left|right; by exists e, s1]. Qed.

Ltac concrete_fields := split; [apply (bool_decide_unpack _); vm_compute; exact I|by repeat constructor].

Lemma discard_in_recorded id file s p s1 : discard_in cwd liveDir stamp tmp withSourceLock id file s = (Ok p, s1) -> (pr_out p).["handled"] = JBool true -> recorded id None s1.
Proof using lock_result.
  intros (r & s2 & Hr & H)%eff_bind_ok. eapply emit_records; [|exact H]. apply attempt_cases in Hr as [Hr|(e & s3 & _ & Hr)].
  - apply eff_bind_ok in Hr as (r0 & s3 & Hr0%discard_plain & Hr). injection Hr as <- _. apply plain_over; [concrete_fields|done].
  - injection Hr as <- _. by apply plain_failure; repeat constructor.
Qed.
Lemma accept_in_recorded id v file params pageUrl s p s1 : accept_in cwd liveDir stamp tmp withSourceLock id v file params pageUrl s = (Ok p, s1) ->
  (pr_out p).["handled"] = JBool true -> recorded id (Some v) s1.
Proof using lock_result.
  intros (built & s2 & Hb & H)%eff_bind_ok. apply attempt_cases in Hb as [Hb|(e & s3 & _ & Hb)].
  - apply eff_bind_ok in Hb as (r & s3 & Hr%accept_plain & Hb). injection Hb as <- _. cbv zeta in H. apply eff_bind_ok in H as (u & s4 & _ & H).
    eapply emit_records; [|exact H]. apply plain_over; [concrete_fields|]. by apply plain_todo, plain_del.
  - injection Hb as <- _. eapply emit_records; [|exact H]. by apply plain_failure; repeat constructor.
Qed.
Lemma component_recorded id request params file dir s p s1 : json_ok dir ->
  component_session cwd liveDir stamp tmp withSourceLock removeSession inlineAccept id request params file dir s = (Ok p, s1) ->
  (pr_out p).["handled"] = JBool true -> recorded id request s1.
Proof using lock_result inline_json.
  intros Hd H. unfold component_session in H. destruct request as [v|]; apply eff_bind_ok in H as (r & s2 & Hr & H); (eapply emit_records; [|exact H]);
    apply attempt_cases in Hr as [Hr|(e & s3 & _ & Hr)].
  - apply lock_plain in Hr; [|apply inline_json]. apply plain_over; [concrete_fields|]. by apply plain_todo.
  - injection Hr as <- _. apply plain_over; [concrete_fields|]. apply plain_todo, plain_failure. by repeat constructor.
  - apply lock_plain in Hr; [by apply plain_spread; repeat constructor|]. intros s0 r0 s4 (u & s5 & _ & Hm)%eff_bind_ok. injection Hm as <- _. apply plain_obj. concrete_fields.
  - injection Hr as <- _. apply plain_spread; [by apply plain_failure|by repeat constructor].
Qed.

Lemma prior_handled prior request : (prior_answer prior request).["handled"] = JBool true -> sameOperation prior request = true.
Proof using. unfold prior_answer. by destruct (sameOperation prior request). Qed.
Lemma read_receipt_keeps id s r s1 : readAcceptReceipt id s = (Ok r, s1) -> s1 = s.
Proof using.
  intros H. assert (keeps (fun s' => s' = s) (readAcceptReceipt id)) as Hk by (unfold LiveAccept.readAcceptReceipt; keep; by intros s' Hs').
  specialize (Hk s eq_refl). by rewrite H in Hk.
Qed.

Lemma request_recorded id request params pageUrl s p s1 : apply_request id request params pageUrl s = (Ok p, s1) -> (pr_out p).["handled"] = JBool true -> recorded id request s1.
Proof using All.
  intros (prior & s2 & Hp & H)%eff_bind_ok Hh. pose proof (read_receipt_keeps _ _ _ _ Hp) as ->. destruct (truthy prior) eqn:Et.
  { injection H as <- <-. exists prior. split_and!; [done..|]. by apply prior_handled. }
  apply eff_bind_ok in H as (found & s3 & _ & H). destruct found as [[file content]|].
  - unfold source_session in H. apply eff_bind_ok in H as (g & s4 & _ & H). destruct (_ && _); [by injection H as <- _|]. destruct g; [by injection H as <- _|].
    destruct request as [v|]; [by eapply accept_in_recorded|by eapply discard_in_recorded].
  - apply eff_bind_ok in H as (m & s4 & Hm & H). destruct m as [[file dir]|]; [|by injection H as <- _].
    unfold get in Hm. injection Hm as Hm <-. by eapply component_recorded; [eapply manifest_json| |].
Qed.

Lemma recorded_answers id request request' params pageUrl s : recorded id request s ->
  exists prior, apply_request id request' params pageUrl s = (Ok (Printed (prior_answer prior request') false), s) /\ (sameOperation prior request' = true <-> request' = request).
Proof using.
  intros (prior & Hr & Ht & Hs). exists prior. split; [|by apply same_request]. unfold LiveAccept.apply_request, mbind, eff_bind. rewrite Hr. by rewrite Ht.
Qed.

(** What the arguments ask for. *)
Definition asked (args : list string) : option string := if existsb (String.eqb "--discard") args then None else arg_after args "--variant".

(** C23: An accept or a discard is final. Once a run has answered that it handled a session, no later run for that
    session changes a file: the same request is answered as already applied, and any other one - another variant, a
    discard after an accept - is refused as a conflict. *)
Theorem accept_is_final args args' s p s1 :
  acceptCli args s = (Ok p, s1) -> (pr_out p).["handled"] = JBool true -> arg_after args' "--id" = arg_after args "--id" ->
  exists p', acceptCli args' s1 = (Ok p', s1) /\ (pr_failed p' = false ->
    if decide (asked args' = asked args) then (pr_out p').["handled"] = JBool true /\ (pr_out p').["alreadyApplied"] = JBool true
    else (pr_out p').["handled"] = JBool false /\ (pr_out p').["error"] = JStr "accept_receipt_conflict").
Proof using All.
  intros H Hh Eid. unfold LiveAccept.acceptCli in H. destruct (given (arg_after args "--id")) eqn:Eg; cbn [negb] in H; [|by injection H as <- _].
  destruct (safeSessionId (default "" (arg_after args "--id"))) as [i|e] eqn:Es; [|by injection H as <- _].
  destruct (negb _ && negb (given _)); [by injection H as <- _|]. destruct (negb _ && negb (re_test _ _)); [by injection H as <- _|].
  apply request_recorded in H; [|done]. fold (asked args) in H.
  unfold LiveAccept.acceptCli. rewrite Eid, Eg, Es. cbn [negb].
  destruct (negb _ && negb (given _)); [by eexists|]. destruct (negb _ && negb (re_test _ _)); [by eexists|].
  fold (asked args').
  match goal with |- exists p', apply_request ?i ?r ?pv ?pu s1 = _ /\ _ => destruct (recorded_answers i (asked args) r pv pu s1 H) as (prior & Ha & Hsame) end.
  eexists. split; [exact Ha|]. intros _. cbn [pr_out]. unfold prior_answer. destruct (decide (asked args' = asked args)) as [E|E].
  - rewrite (proj2 Hsame E). unfold spread_with. cbn [jget]. rewrite !assoc_get_merge by (apply (bool_decide_unpack _); vm_compute; exact I). done.
  - destruct (sameOperation prior (asked args')) eqn:E2; [|done]. destruct E. by apply Hsame.
Qed.
End Receipts.

(** ** A concrete session *)

Definition demo_page : string := join s_nl
  (["<main>"] ++ wrapperLines false html_comments "0a1b2c3d" (NInt 1) "  " ["  <p>x</p>"] ++ ["</main>"]).
Definition demo_files : fsys := Fsys {[ "/p/src/a.html" := demo_page ]} {[ "/"; "/p"; "/p/src" ]}.
Definition demo_accept : list string -> eff fsys printed :=
  acceptCli "/p" "/p/.impeccable/live" "t" ".1.tmp" Some (fun _ => false) (fun _ _ m => m) (fun _ _ => None) (fun _ => mret tt) (fun _ _ _ => mret (JObj [])).
Definition demo_discard : list string := ["--id"; "0a1b2c3d"; "--discard"].
Definition demo_done : fsys := (demo_accept demo_discard demo_files).2.

Example demo_discarded : f_text demo_done !! "/p/src/a.html" = Some (join s_nl ["<main>"; ""; "  <p>x</p>"; ""; "</main>"]).
Proof. vm_compute. reflexivity. Qed.

Lemma accept_is_final_witness : exists p', demo_accept ["--id"; "0a1b2c3d"; "--variant"; "1"] demo_done = (Ok p', demo_done) /\
  (pr_failed p' = false -> (pr_out p').["handled"] = JBool false /\ (pr_out p').["error"] = JStr "accept_receipt_conflict").
Proof.
  apply (accept_is_final "/p" "/p/.impeccable/live" "t" ".1.tmp" Some (fun _ => false) (fun _ _ m => m) (fun _ _ => None) (fun _ => mret tt) (fun _ _ _ => mret (JObj [])))
    with (args := demo_discard) (args' := ["--id"; "0a1b2c3d"; "--variant"; "1"]) (s := demo_files)
         (p := match (demo_accept demo_discard demo_files).1 with Ok p => p | Throw _ => Printed JUndef true end).
  - intros file owner m s r s' H. exists s, s'. exact H.
  - intros id v params s r s' H. injection H as <- _. exists []. split; [reflexivity|]. split; constructor.
  - intros id s file dir H. discriminate H.
  - vm_compute. reflexivity.
  - vm_compute. reflexivity.
  - reflexivity.
Defined.
