(* ===== verification/AcceptVerify.v ===== *)
(** * What an accept may leave ([live/accept-verify.mjs], [live-complete.mjs])

    The scan for live-mode leftovers, and the gate of live-complete.mjs that does not let a session complete while its
    source has any. *)
From S2P Require Import Prelude JsString JsValue Json JsRegex NodePath EventValidation Files TagStrategy VariantBlock BlockText PollLanes WrittenBlock.
Local Open Scope js_scope.
Local Open Scope string_scope.
Local Open Scope list_scope.

Record forbidden := Forbidden { fb_hit : string -> bool; fb_label : string; fb_why : string }.
Definition plain_marker (marker why : string) : forbidden := Forbidden (includes marker) marker why.
Definition param_char (c : ascii) : bool := is_word c || Ascii.eqb c "-".
Definition param_attr_re : re := (RWordB ⋅ (lit "data-p-" ⋅ (rplus (RClass param_char) ⋅ (rstar rspace ⋅ RClass (one_of "=]")))))%re.
Definition param_var_re : re := (lit "var(" ⋅ (rstar rspace ⋅ (lit "--p-" ⋅ (rplus (RClass param_char) ⋅ (rstar rspace ⋅ RClass (one_of ",)"))))))%re.
Definition FORBIDDEN : list forbidden :=
  [ plain_marker "impeccable-variants-start" "variant wrapper comment left in source";
    plain_marker "impeccable-variants-end" "variant wrapper comment left in source";
    plain_marker "impeccable-carbonize-start" "carbonize block not rewritten into permanent form";
    plain_marker "impeccable-carbonize-end" "carbonize block not rewritten into permanent form";
    plain_marker "impeccable-param-values" "param-values comment not baked and removed";
    plain_marker "data-impeccable-" "live-mode plumbing attribute left on markup";
    Forbidden (re_test param_attr_re) "data-p-*" "preview parameter attribute left on markup";
    Forbidden (re_test param_var_re) "var(--p-*)" "preview parameter variable not baked to a literal";
    plain_marker "--impeccable-variant-ready" "preview readiness sentinel left in CSS" ].

Definition finding_of (i : nat) (line : string) (f : forbidden) : js :=
  JObj [("marker", JStr (fb_label f)); ("line", int (Z.of_nat i + 1)); ("excerpt", JStr (stake 120 (trim line))); ("why", JStr (fb_why f))].
Definition line_findings (i : nat) (line : string) : list js := finding_of i line <$> bfilter (fun f => fb_hit f line) FORBIDDEN.
(** The findings; the text is clean when there are none. *)
Definition verifyAcceptedSource (text : string) : list js := concat (imap line_findings (split_lines text)).
Definition verifyAcceptedFile (filePath : string) (s : fsys) : list js :=
  match f_text s !! filePath with Some text => verifyAcceptedSource text | None => [] end.

(** ** The gate of live-complete.mjs *)

Record complete_args := CompleteArgs { ca_status : string; ca_id : option string; ca_message : option string; ca_force : bool; ca_help : bool }.
Definition with_arg (arg : string) (next : option string) (out : complete_args) : complete_args * bool :=
  let 'CompleteArgs status id message force help := out in
  if String.eqb arg "--id" then (CompleteArgs status next message force help, true)
  else if starts_with "--id=" arg then (CompleteArgs status (Some (sdrop 5 arg)) message force help, false)
  else if String.eqb arg "--discarded" || String.eqb arg "--discard" then (CompleteArgs "discarded" id message force help, false)
  else if String.eqb arg "--error" then (CompleteArgs "agent_error" id (Some (match next with Some "" | None => "unknown error" | Some m => m end)) force help, true)
  else if starts_with "--error=" arg then (CompleteArgs "agent_error" id (Some (sdrop 8 arg)) force help, false)
  else if String.eqb arg "--force" then (CompleteArgs status id message true help, false)
  else if String.eqb arg "--help" || String.eqb arg "-h" then (CompleteArgs status id message force true, false)
  else (out, false).
(** [skip]: the argument before took this one as its value. *)
Fixpoint parse_args (skip : bool) (argv : list string) (out : complete_args) : complete_args :=
  match argv with
  | [] => out
  | arg :: argv =>
    if skip then parse_args false argv out
    else let r := with_arg arg (head argv) out in parse_args r.2 argv r.1
  end.
Definition parseArgs (argv : list string) : complete_args := parse_args false argv (CompleteArgs "complete" None None false false).

Definition inside_project (cwd absSource : string) : bool :=
  let relSource := relative cwd absSource in
  negb (String.eqb relSource "") && negb (starts_with ".." relSource) && negb (is_absolute relSource) && negb (starts_with "node_modules/" relSource).
Definition source_dirty (id : string) (sourceFile : js) (findings : list js) : js :=
  JObj [("ok", JBool false); ("error", JStr "source_dirty"); ("id", JStr id); ("file", sourceFile); ("findings", JArr findings);
    ("hint", JStr "The accepted source still carries live-mode leftovers. Finish the carbonize cleanup (bake params, remove markers and data-p-* attributes), then run live-complete again. Use --force only if a finding is a false positive.")].
(** What the command prints instead of completing the session of [snapshot], if anything. *)
Definition completion_refused (cwd : string) (args : complete_args) (snapshot : js) (s : fsys) : result (option js) :=
  if negb (String.eqb (ca_status args) "complete") || ca_force args then Ok None else
  let sourceFile := opt_get snapshot "sourceFile" in
  if negb (truthy sourceFile) then Ok None else
  match sourceFile with
  | JStr f =>
    let absSource := resolve cwd f in
    if negb (inside_project cwd absSource) then Ok None else
    match verifyAcceptedFile absSource s with
    | [] => Ok None
    | findings => Ok (Some (source_dirty (default "undefined" (ca_id args)) sourceFile findings))
    end
  | _ => Throw (error "The paths[1] argument must be of type string")
  end.

(** * Theorems *)

Lemma concat_nil_elem {A} (l : list (list A)) x : concat l = [] -> x ∈ l -> x = [].
Proof. induction l as [|y l IH]; [by intros _ ?%elem_of_nil|]. cbn [concat]. intros [Hy Hl]%app_eq_nil [-> |Hx]%elem_of_cons; [done|by apply IH]. Qed.

(** A text that holds a plain marker is not clean. *)
Lemma marked_dirty marker why text : plain_marker marker why ∈ FORBIDDEN -> marker <> "" -> no_char NL marker = true -> includes marker text = true ->
  verifyAcceptedSource text <> [].
Proof.
  intros Hm Hne Hnl Hi E. assert (includes marker (join s_nl (split_lines text)) = false) as H; [|unfold split_lines, s_nl in H; rewrite join_split_char in H; congruence].
  apply join_free; [done|done|]. apply Forall_forall. intros l (i & Hl)%list_elem_of_lookup. apply not_true_iff_false. intros Hit.
  assert (line_findings i l = []) as En.
  { apply (concat_nil_elem _ _ E). apply list_elem_of_lookup. exists i. by rewrite list_lookup_imap, Hl. }
  unfold line_findings in En. apply fmap_nil_inv in En. assert (plain_marker marker why ∈ bfilter (fun f => fb_hit f l) FORBIDDEN) as Hin by (by apply bfilter_elem_of).
  rewrite En in Hin. by apply elem_of_nil in Hin.
Qed.

Lemma includes_line p l ls : l ∈ ls -> includes p l = true -> includes p (join s_nl ls) = true.
Proof.
  intros (a & b & ->)%list_elem_of_split (u & v & ->)%includes_iff. apply includes_iff.
  destruct a as [|x a], b as [|y b]; cbn [app].
  - by exists u, v.
  - exists u, (v +:+ s_nl +:+ join s_nl (y :: b)). cbn [join]. by rewrite !sapp_assoc.
  - change (x :: a ++ [u +:+ p +:+ v]) with ((x :: a) ++ [u +:+ p +:+ v]). rewrite (join_app (x :: a) [_]) by done. exists (join s_nl (x :: a) +:+ s_nl +:+ u), v. cbn [join]. by rewrite !sapp_assoc.
  - change (x :: a ++ (u +:+ p +:+ v) :: y :: b) with ((x :: a) ++ [u +:+ p +:+ v] ++ y :: b). rewrite (join_app (x :: a)), (join_app [_]) by done.
    exists (join s_nl (x :: a) +:+ s_nl +:+ u), (v +:+ s_nl +:+ join s_nl (y :: b)). cbn [join]. by rewrite !sapp_assoc.
Qed.

(** Removing indentation removes no text that begins with a character that is not white space. *)
Lemma deindent_keeps c p lines indent l : l ∈ lines -> is_space c = false -> includes (String c p) l = true ->
  exists l', l' ∈ deindentContent lines indent /\ includes (String c p) l' = true.
Proof.
  intros Hl Hc Hi. assert (blank l = false) as Hb.
  { destruct (blank l) eqn:E; [|done]. destruct (trim_start_split l) as (w & Hw & El). unfold blank, trim, trim_end in E. apply String.eqb_eq in E.
    rewrite El, includes_skip in Hi by (by apply spaces_no_char). apply (f_equal srev) in E. rewrite srev_involutive in E.
    destruct (trim_start_split (srev (trim_start l))) as (v & Hv & Ev). rewrite E in Ev. cbn [srev srev_app] in Ev. rewrite sapp_nil_r in Ev.
    apply (f_equal srev) in Ev. rewrite srev_involutive in Ev. rewrite Ev in Hi. rewrite includes_absent in Hi; [done|].
    apply spaces_no_char; [done|]. clear -Hv. induction v as [|d v IH]; [done|]. cbn [sforall] in Hv. apply andb_true_iff in Hv as [Hd Hv].
    rewrite srev_cons, sforall_app. cbn [sforall]. by rewrite IH, Hd. }
  exists (indent +:+ sdrop (min_indent lines) l). split.
  - unfold deindentContent. apply list_elem_of_fmap. exists l. by rewrite Hb.
  - pose proof (min_indent_le lines l Hl Hb) as Hle. destruct (drop_leading _ _ Hle) as (w & Hw & _ & El).
    rewrite El, includes_skip in Hi by (by apply spaces_no_char). apply includes_iff in Hi as (u & v & ->). apply includes_iff. exists (indent +:+ u), v. by rewrite !sapp_assoc.
Qed.

(** An accept that asks for cleanup leaves a line with a marker of its own. *)
Lemma carbonize_marked id v lines file params content orig : buildAcceptedWrappedSource id v lines file params = Accepted content true orig ->
  includes "impeccable-carbonize-start" (join s_nl content) = true \/ includes "data-impeccable-" (join s_nl content) = true.
Proof.
  unfold buildAcceptedWrappedSource. destruct (findMarkerBlock id lines) as [b|]; [|done]. cbv zeta. set (rng := expandReplaceRange _ _ _ _). set (indent := indent_of _).
  destruct (extractVariant lines b v) as [variantContent|]; [|done]. intros [= <- Hc _]. set (c := detectCommentSyntax file) in *.
  assert (forall p l repl, l ∈ repl -> includes p l = true -> includes p (join s_nl (replace_range lines rng repl)) = true) as Hin.
  { intros p l repl Hl Hp. apply (includes_line p l); [|done]. unfold replace_range. apply elem_of_app. right. apply elem_of_app. by left. }
  destruct (extractCss lines b id) as [css|].
  - left. assert (forall ind bodyIndent rest, bodyIndent +:+ comment_line c ("impeccable-carbonize-start " +:+ id) ∈ carbonize_body c (is_jsx c) id v ind bodyIndent css params rest) as Hbody by (intros; unfold carbonize_body; left).
    assert (forall ind, includes "impeccable-carbonize-start" (ind +:+ comment_line c ("impeccable-carbonize-start " +:+ id)) = true) as Hp.
    { intros ind. apply includes_iff. exists (ind +:+ cs_open c +:+ " "), (" " +:+ id +:+ " " +:+ cs_close c). unfold comment_line. rewrite !sapp_assoc. reflexivity. }
    unfold buildCarbonizeReplacement. destruct (is_jsx c) eqn:Ej.
    + eapply Hin; [|apply Hp]. apply elem_of_app. right. apply elem_of_app. left. apply Hbody.
    + eapply Hin; [|apply Hp]. apply Hbody.
  - right. cbn in Hc. assert (exists l, l ∈ variantContent /\ includes "data-impeccable-" l = true) as (l & Hl & Hp).
    { destruct (existsb (includes "data-impeccable-") variantContent) eqn:E.
      - apply existsb_exists in E as (l & Hl & Hp). exists l. by rewrite list_elem_of_In.
      - exfalso. assert (includes "data-impeccable-" (join s_nl variantContent) = false) as Hno.
        { apply join_free; [done|done|]. apply Forall_forall. intros l Hl. apply not_true_iff_false. intros Hit. apply not_true_iff_false in E. apply E, existsb_exists. exists l. by rewrite <- list_elem_of_In. }
        assert (includes "data-impeccable-variant" (join s_nl variantContent) = false) as H2 by (by apply (includes_part "" "data-impeccable-" "variant")). congruence. }
    destruct (deindent_keeps "d" "ata-impeccable-" variantContent indent l Hl eq_refl Hp) as (l' & Hl' & Hp'). by eapply Hin.
Qed.

(** C24: The cleanup an accept asks for cannot be skipped: when it answers that a style sheet or a live-mode attribute is
    still to be carbonized, live-complete.mjs refuses to complete the session as long as the file is as the accept left
    it, unless it is forced. *)
Theorem cleanup_cannot_be_skipped id v lines params cwd sourceFile content orig args snapshot s :
  let file := resolve cwd sourceFile in
  buildAcceptedWrappedSource id v lines file params = Accepted content true orig -> f_text s !! file = Some (join s_nl content) ->
  opt_get snapshot "sourceFile" = JStr sourceFile -> sourceFile <> "" -> inside_project cwd file = true ->
  ca_status args = "complete" -> ca_force args = false ->
  exists out, completion_refused cwd args snapshot s = Ok (Some out) /\ out.["ok"] = JBool false /\ out.["error"] = JStr "source_dirty".
Proof.
  intros file Hb Hf Hs Hne Hin Hst Hfo. unfold completion_refused. rewrite Hst, Hfo, Hs. cbn [String.eqb Ascii.eqb Bool.eqb negb orb truthy].
  assert (String.eqb sourceFile "" = false) as -> by (by apply String.eqb_neq). cbn [negb]. fold file. rewrite Hin. cbn [negb].
  unfold verifyAcceptedFile. rewrite Hf.
  assert (verifyAcceptedSource (join s_nl content) <> []) as Hd.
  { apply carbonize_marked in Hb as [Hb|Hb].
    - apply (marked_dirty "impeccable-carbonize-start" "carbonize block not rewritten into permanent form"); [|done..]. by apply (list_elem_of_lookup_2 FORBIDDEN 2).
    - apply (marked_dirty "data-impeccable-" "live-mode plumbing attribute left on markup"); [|done..]. by apply (list_elem_of_lookup_2 FORBIDDEN 5). }
  destruct (verifyAcceptedSource _) as [|f fs]; [done|]. by eexists.
Qed.

Definition demo_lines : list string :=
  ["<main>"; "  <!-- impeccable-variants-start 0a1b2c3d -->"; "  <div data-impeccable-variants='0a1b2c3d'>";
   "    <style data-impeccable-css=" +:+ s_dq +:+ "0a1b2c3d" +:+ s_dq +:+ ">"; "      p { color: red }"; "    </style>";
   "    <div " +:+ variant_attr "1" +:+ "><p>y</p></div>"; "  </div>"; "  <!-- impeccable-variants-end 0a1b2c3d -->"; "</main>"].
Definition demo_content : list string :=
  match buildAcceptedWrappedSource "0a1b2c3d" "1" demo_lines "/p/src/a.html" JNull with Accepted content _ _ => content | NotHandled _ => [] end.
Definition demo_snapshot : js := JObj [("sourceFile", JStr "src/a.html")].

Example demo_accepted : demo_content =
  ["<main>"; "  <!-- impeccable-carbonize-start 0a1b2c3d -->"; "  <style data-impeccable-css=" +:+ s_dq +:+ "0a1b2c3d" +:+ s_dq +:+ ">"; "  p { color: red }"; "  </style>";
   "  <!-- impeccable-carbonize-end 0a1b2c3d -->"; "  <div " +:+ variant_attr "1" +:+ " style=" +:+ s_dq +:+ "display: contents" +:+ s_dq +:+ ">"; "    <p>y</p>"; "  </div>"; "</main>"].
Proof. vm_compute. reflexivity. Qed.

Lemma cleanup_cannot_be_skipped_witness : exists out,
  completion_refused "/p" (parseArgs ["--id"; "0a1b2c3d"]) demo_snapshot (Fsys {[ "/p/src/a.html" := join s_nl demo_content ]} ∅) = Ok (Some out) /\
  out.["ok"] = JBool false /\ out.["error"] = JStr "source_dirty".
Proof.
  apply (cleanup_cannot_be_skipped "0a1b2c3d" "1" demo_lines JNull "/p" "src/a.html" demo_content ""); vm_compute; try reflexivity. discriminate.
Defined.
