(* ===== verification/HookConfig.v ===== *)
(** * Settings of the design hook ([hook-lib.mjs], first part)

    The configuration the hook runs with: [config.json] and [config.local.json] over the
    defaults, and the directory they are looked for in. The value filters are those of
    IgnoreConfig ([hook-lib.mjs] holds the same functions). *)
From S2P Require Import Prelude JsString JsValue Json JsRegex NodePath Vocabulary EventValidation PollLanes Files IgnoreConfig TemplateExtensions.
Local Open Scope Z_scope.

Definition ENVELOPE_PREFIX : string := "[impeccable@1]".
Definition IMPECCABLE_COMMAND : string := "$" +:+ "impeccable".

Definition ALLOWED_EXTS : list string :=
  [".tsx"; ".jsx"; ".html"; ".htm"; ".vue"; ".svelte"; ".astro"; ".css"; ".scss"; ".sass"; ".less"; ".ts"; ".js"].
Definition ACK_EXTS : list string :=
  [".tsx"; ".jsx"; ".html"; ".htm"; ".vue"; ".svelte"; ".astro"; ".css"; ".scss"; ".sass"; ".less"].

(** A string set's [has]. *)
Definition has (set : list string) (s : string) : bool := has_str set (JStr s).

(** ** Paths never scanned *)

Local Open Scope re_scope.
Definition not_sep : re := RClass (none_of "/\").
Definition sep : re := RClass (one_of "/\").
(** [(?:^|[/\\])]. *)
Definition at_segment : re := RBol ∥ sep.
Fixpoint any_of (l : list string) : re :=
  match l with [] => RClass (fun _ => false) | [w] => liti w | w :: l => liti w ∥ any_of l end.

Definition SENSITIVE_PATH : re :=
  (at_segment ⋅ lit "." ⋅ liti "env" ⋅ (lit "." ∥ REol))
  ∥ (at_segment ⋅ lit "." ⋅ liti "git" ⋅ (sep ∥ REol))
  ∥ (at_segment ⋅ liti "id_rsa" ⋅ (REol ∥ RClass (one_of "._-")) ⋅ rstar not_sep ⋅ REol)
  ∥ (at_segment ⋅ rstar not_sep ⋅ lit "." ⋅ liti "pem" ⋅ REol)
  ∥ (at_segment ⋅ ropt (rstar not_sep ⋅ RClass (one_of "._-")) ⋅ any_of ["secret"; "secrets"; "credential"; "credentials"]
     ⋅ RLook false (RClass (one_of "._-")) ⋅ rstar not_sep ⋅ lit "."
     ⋅ (liti "json" ∥ (liti "y" ⋅ ropt (liti "a") ⋅ liti "ml") ∥ any_of ["toml"; "ini"; "conf"; "config"; "env"; "txt"; "key"; "cert"; "crt"; "pem"; "js"; "ts"]) ⋅ REol).

Definition letter : re := RClass is_alpha.
Definition GENERATED_PATH : re :=
  (lit "." ⋅ liti "generated" ⋅ lit "." ⋅ rplus letter ⋅ REol)
  ∥ (lit "." ⋅ liti "d" ⋅ lit "." ⋅ liti "ts" ⋅ REol)
  ∥ (lit "." ⋅ liti "min" ⋅ lit "." ⋅ rplus letter ⋅ REol)
  ∥ (sep ⋅ liti "node_modules" ⋅ sep)
  ∥ (sep ⋅ liti "generated" ⋅ sep)
  ∥ (sep ⋅ any_of ["dist"; "build"; "out"; ".next"; ".cache"; "coverage"] ⋅ sep)
  ∥ (ropt sep ⋅ rplus not_sep ⋅ lit "." ⋅ liti "lock" ⋅ ropt (lit "." ⋅ liti "json") ⋅ REol).
Local Close Scope re_scope.

(** ** Environment variables *)

Definition TRUTHY (s : string) : bool := has ["1"; "true"; "yes"; "on"] (to_lower s).
Definition truthy_env (value : js) : bool := match value with JStr s => TRUTHY s | _ => false end.
Definition depthIsSet (value : js) : bool :=
  if nullish value then false else
  let text := trim (to_str value) in
  if String.eqb text "" then false else if TRUTHY text then true
  else sforall is_digit text && num_ltb (NInt 0) (string_to_num text).

(** ** Rules *)

Definition IMMEDIATE_TIER_RULES : list string :=
  ["broken-image"; "text-overflow"; "clipped-overflow-container"; "body-text-viewport-edge"; "low-contrast"; "gray-on-color"; "tiny-text";
   "gradient-text"; "dark-glow"; "design-system-font"; "design-system-color"; "design-system-radius"; "design-system-font-size"].
Definition ADVISORY_RULES : list string := ["em-dash-overuse"].

(** ** The configuration *)

Definition DEFAULT_LIMITS : js := JObj [("maxFindings", int 5); ("maxChars", int 8000); ("maxFileBytes", int 131072)].
Definition DEFAULT_CONFIG : js :=
  JObj [("enabled", JBool true); ("quiet", JBool false); ("auditLog", JNull); ("designSystem", JObj [("enabled", JBool true)]);
        ("ignoreRules", JArr []); ("ignoreFiles", JArr []); ("ignoreValues", JArr []); ("extensions", JArr []);
        ("perEditRules", JStr "immediate"); ("advisoryRules", JStr "exclude"); ("limits", DEFAULT_LIMITS)].
Definition CACHE_MAX_SESSIONS : nat := 8.
Definition EDIT_COUNT_THRESHOLD : Z := 6.

Definition getCachePath (cwd : string) : string := path_join [cwd; ".impeccable"; "hook.cache.json"].

Definition cloneDefaultConfig : js :=
  spread_with DEFAULT_CONFIG [("ignoreRules", JArr []); ("ignoreFiles", JArr []); ("ignoreValues", JArr []); ("extensions", JArr []);
    ("designSystem", spread DEFAULT_CONFIG.["designSystem"]); ("limits", spread DEFAULT_CONFIG.["limits"])].

Definition positive (v : js) : bool := is_finite v && num_ltb (NInt 0) (to_num v).
Definition numberOr (value fallback : js) : js := if positive value then value else fallback.

(** Up to the extensions this is the code of [applyDetectionConfigSource]. *)
Definition applyDetectorConfigSource (config raw : js) : js :=
  if negb (truthy raw && is_objecty raw) then config else
  let config := applyDetectionConfigSource config raw in
  match raw.["extensions"] with
  | JArr l => config.["extensions" := JArr (ext_js <$> mergeExtensions config.["extensions"] (JArr l))] | _ => config end.

Definition hasOwn (raw : js) (k : string) : bool := bool_decide (k ∈ keys (own_props raw)).
Definition applyConfigSource (config raw : js) : js :=
  if negb (truthy raw && is_objecty raw) then config else
  let config := if hasOwn raw "enabled" then config.["enabled" := enabled_of raw] else config in
  let config := if hasOwn raw "quiet" then config.["quiet" := JBool (raw.["quiet"] === JBool true)] else config in
  let config := if (raw.["perEditRules"] === JStr "all") || (raw.["perEditRules"] === JStr "immediate")
                then config.["perEditRules" := raw.["perEditRules"]] else config in
  let config := match nonblank raw.["auditLog"] with Some s => config.["auditLog" := JStr s] | None => config end in
  let config := applyDetectorConfigSource config raw in
  if truthy raw.["limits"] && is_objecty raw.["limits"] then
    let of_limits k := (k, numberOr raw.["limits"].[k] config.["limits"].[k]) in
    config.["limits" := JObj [of_limits "maxFindings"; of_limits "maxChars"; of_limits "maxFileBytes"]]
  else config.

(** What [String] is called on while a section is applied: rules, globs, and the rule and the value of each waiver. *)
Definition converted_waiver (entry : js) : list js :=
  if truthy entry && is_objecty entry then [entry.["rule"]; entry.["value"]] else [].
Definition converted_in (raw : js) : list js :=
  if negb (truthy raw && is_objecty raw) then [] else
  elements_of raw.["ignoreRules"] ++ elements_of raw.["ignoreFiles"] ++ (elements_of raw.["ignoreValues"] ≫= converted_waiver).
(** One round of the loop of [readConfig]; a value [String] throws on ends it. *)
Definition read_config_file (filePath : string) (config : js) : eff fsys js :=
  raw ← parse_file filePath;
  if negb (forallb converts (converted_in (hookSection raw) ++ converted_in (detectorSection raw))) then lift (Throw not_primitive)
  else mret (applyDetectorConfigSource (applyConfigSource config (hookSection raw)) (detectorSection raw)).
Definition readConfig (cwd : string) : eff fsys js :=
  config ← read_config_file (getConfigPath cwd) cloneDefaultConfig;
  read_config_file (getLocalConfigPath cwd) config.

(** ** The project directory *)

Definition looksLikeProjectRoot (dir : string) (s : fsys) : bool :=
  existsb (fun marker => existsSync (path_join [dir; marker]) s) [".git"; "package.json"; ".impeccable"].

(** The loop of [resolveCacheCwd]; a directory is longer than its parent, so [fuel] above its length is enough. *)
Fixpoint nearest_root (fuel : nat) (home base dir : string) (s : fsys) : string :=
  match fuel with
  | O => base
  | S fuel =>
    if String.eqb dir home then base else
    if looksLikeProjectRoot dir s then dir else
    let parent := dirname dir in
    if String.eqb parent dir then base else nearest_root fuel home base parent s
  end.

Section Process.
(** [process.cwd()], [os.homedir()]. *)
Context (cwd0 homedir : string).
Definition hasPathTraversal (filePath : js) : bool := match filePath with JStr s => includes ".." s | _ => false end.
Definition resolveCacheCwd (primaryFile : js) (sessionCwd : string) (s : fsys) : string :=
  let base := resolve cwd0 (if String.eqb sessionCwd "" then cwd0 else sessionCwd) in
  match primaryFile with
  | JStr p =>
    if String.eqb p "" || hasPathTraversal primaryFile then base else
    if looksLikeProjectRoot base s then base else
    let dir := dirname (resolve cwd0 p) in nearest_root (S (slen dir)) (resolve cwd0 homedir) base dir s
  | _ => base
  end.
End Process.

Definition isNativePlatform (platform : js) : bool := has_str ["ios"; "android"; "adaptive"] platform.

(** * Theorems *)

(** ** Normalized extensions *)

Lemma lower_char_idem c : lower_char (lower_char c) = lower_char c.
Proof. by destruct c as [[] [] [] [] [] [] [] []]. Qed.
Lemma is_space_lower c : is_space (lower_char c) = is_space c.
Proof. by destruct c as [[] [] [] [] [] [] [] []]. Qed.
Lemma to_lower_idem s : to_lower (to_lower s) = to_lower s.
Proof. induction s as [|c s IH]; [done|]. cbn [to_lower]. by rewrite lower_char_idem, IH. Qed.
Lemma to_lower_app a b : to_lower (a +:+ b) = to_lower a +:+ to_lower b.
Proof. induction a as [|c a IH]; [done|]. cbn [append to_lower]. by rewrite IH. Qed.
Lemma to_lower_srev s : to_lower (srev s) = srev (to_lower s).
Proof. induction s as [|c s IH]; [done|]. cbn [to_lower]. by rewrite !srev_cons, to_lower_app, IH. Qed.
Lemma trim_start_lower s : trim_start (to_lower s) = to_lower (trim_start s).
Proof. induction s as [|c s IH]; [done|]. cbn [to_lower trim_start]. rewrite is_space_lower. by destruct (is_space c). Qed.
Lemma trim_lower s : trim (to_lower s) = to_lower (trim s).
Proof. unfold trim, trim_end. by rewrite trim_start_lower, <- to_lower_srev, trim_start_lower, to_lower_srev. Qed.

(** No white space at the head. *)
Definition sharp (s : string) : Prop := trim_start s = s.
Lemma trim_start_sharp s : sharp (trim_start s).
Proof. unfold sharp. induction s as [|c s IH]; [done|]. cbn [trim_start]. destruct (is_space c) eqn:E; [done|]. cbn [trim_start]. by rewrite E. Qed.
Lemma sharp_head c s : sharp (String c s) -> is_space c = false.
Proof.
  unfold sharp. cbn [trim_start]. destruct (is_space c); [|done]. intros H. exfalso.
  assert (forall t, (slen (trim_start t) <= slen t)%nat) as Hl. { induction t as [|d t IH]; [done|]. cbn [trim_start]. destruct (is_space d); cbn [String.length] in *; lia. }
  specialize (Hl s). rewrite H in Hl. cbn [String.length] in Hl. lia.
Qed.
Lemma trim_start_snoc s c : is_space c = false -> trim_start (s +:+ String c "") = trim_start s +:+ String c "".
Proof. intros Hc. induction s as [|d s IH]; cbn [append trim_start]; [by rewrite Hc|]. by destruct (is_space d). Qed.
Lemma sharp_trim_end s : sharp s -> sharp (trim_end s).
Proof.
  destruct s as [|c s]; [done|]. intros H%sharp_head. unfold trim_end. rewrite srev_cons, trim_start_snoc, srev_append by done.
  unfold sharp. cbn. by rewrite H.
Qed.
Lemma trim_idem s : trim (trim s) = trim s.
Proof.
  unfold trim. rewrite (sharp_trim_end (trim_start s)) by apply trim_start_sharp. unfold trim_end.
  by rewrite srev_involutive, trim_start_sharp.
Qed.
Lemma trim_dot e : trim e = e -> trim (String "." e) = String "." e.
Proof.
  intros He. assert (sharp (srev e)) as Hs. { rewrite <- He. unfold trim, trim_end. rewrite srev_involutive. apply trim_start_sharp. }
  unfold trim, trim_end. assert (trim_start (String "." e) = String "." e) as -> by reflexivity. rewrite srev_cons.
  replace (trim_start (srev e +:+ ".")) with (srev e +:+ "."); [by rewrite srev_append, srev_involutive|].
  destruct (srev e) as [|c t] eqn:E; [done|]. apply sharp_head in Hs. cbn [append trim_start]. by rewrite Hs.
Qed.

(** A normalized entry is its own normal form. *)
Lemma normalize_ext_js x e : normalize_extension x = Some e -> normalize_extension (ext_js e) = Some e.
Proof.
  unfold normalize_extension at 1. destruct (if is_string x then _ else _) as [| | | |raw| |]; try done. cbv zeta.
  destruct (String.eqb_spec (to_lower (trim raw)) "") as [|Hne]; [done|]. intros <-%(inj Some). set (g := if _ && _ then _ else _).
  set (u := to_lower (trim raw)) in *. assert (trim u = u /\ to_lower u = u) as [Ht Hl] by (unfold u; by rewrite trim_lower, trim_idem, to_lower_idem).
  clearbody u g.
  assert (forall w, trim w = w -> to_lower w = w -> w <> "" -> starts_with "." w = true -> normalize_extension (ext_js (ExtEntry w g)) = Some (ExtEntry w g)) as H.
  { intros w Ew Fw Hw Gw. unfold normalize_extension, ext_js, opt_get. change (JObj _).["ext"] with (JStr w). cbn [is_string nullish]. cbv iota zeta.
    rewrite Ew, Fw, Gw. destruct (String.eqb_spec w ""); [done|]. by destruct g. }
  destruct (starts_with "." u) eqn:E; [by apply H|]. apply H; [by apply trim_dot|cbn [append to_lower]; by rewrite Hl|done|by destruct u].
Qed.

Lemma normalized_exts l : Forall (fun e => exists x, normalize_extension x = Some e) l -> normalizeExtensionEntries (JArr (ext_js <$> l)) = l.
Proof.
  unfold normalizeExtensionEntries, elements_of. induction 1 as [|e l [x Hx] Hl IH]; [done|]. cbn [fmap list_fmap omap list_omap].
  rewrite (normalize_ext_js x e Hx). by rewrite IH.
Qed.

(** ** Whatever the files hold, the configuration is well formed *)

Section WellFormed.
(** The configured extensions satisfy [Q]. *)
Context (Q : ext_entry -> Prop).
Definition is_bool (v : js) : Prop := exists b, v = JBool b.
Definition one_of_str (l : list string) (v : js) : Prop := exists s, v = JStr s /\ s ∈ l.
Definition limits_ok (v : js) : Prop :=
  is_obj v = true /\ forall k, k ∈ ["maxFindings"; "maxChars"; "maxFileBytes"] -> positive v.[k] = true.
(** What each field of a configuration holds. *)
Definition FIELDS : list (string * (js -> Prop)) :=
  [("enabled", is_bool); ("quiet", is_bool); ("auditLog", fun v => v = JNull \/ exists s, v = JStr s /\ s <> "");
   ("designSystem", fun v => is_obj v = true /\ is_bool v.["enabled"]);
   ("ignoreRules", fun v => exists l, v = strings l /\ NoDup l); ("ignoreFiles", fun v => exists l, v = strings l /\ NoDup l);
   ("ignoreValues", fun v => exists l, v = JArr l /\ Forall (fun e => exists e0, normalize_entry e0 = Some e) l);
   ("extensions", fun v => exists l, v = JArr (ext_js <$> l) /\ Forall (fun e => (exists e0, normalize_extension e0 = Some e) /\ Q e) l);
   ("perEditRules", one_of_str ["all"; "immediate"]); ("advisoryRules", one_of_str ["include"; "exclude"]); ("limits", limits_ok)].
Definition field_ok (k : string) (v : js) : Prop := Forall (fun f => f.1 = k -> f.2 v) FIELDS.
Definition config_ok (config : js) : Prop := is_obj config = true /\ Forall (fun f => f.2 config.[f.1]) FIELDS.

Lemma config_ok_get config k P : config_ok config -> assoc_get k FIELDS = Some P -> P config.[k].
Proof. intros [_ H] E%assoc_get_In. rewrite Forall_forall in H. by apply (H (k, P)), list_elem_of_In. Qed.

Lemma config_ok_set config k v : config_ok config -> field_ok k v -> config_ok (config.[k := v]).
Proof.
  intros [Ho Hf] Hv. split; [by rewrite is_obj_jset|]. apply Forall_forall. intros f Hin.
  rewrite jget_jset by done. unfold field_ok in Hv. rewrite Forall_forall in Hf, Hv.
  destruct (String.eqb_spec f.1 k) as [E|_]; [by apply Hv|by apply Hf].
Qed.

(** Leave the field the key names. *)
Ltac field := unfold field_ok, FIELDS; repeat first [apply Forall_nil_2 | apply Forall_cons_2; [intros Hk; try discriminate Hk; clear Hk; cbn beta iota delta [snd]|]].

Lemma default_ok : config_ok cloneDefaultConfig.
Proof.
  split; [done|]. repeat first [apply Forall_nil_2 | apply Forall_cons_2]; cbn beta iota delta [fst snd].
  1-2: by eexists.
  - by left.
  - split; [done|by eexists].
  - exists []; split; [done|constructor].
  - exists []; split; [done|constructor].
  - exists []; split; [done|constructor].
  - exists []; split; [done|constructor].
  - eexists; split; [done|]; right; by left.
  - eexists; split; [done|]; right; by left.
  - split; [done|]. intros k Hk. repeat (apply elem_of_cons in Hk as [->|Hk]; [done|]). by apply not_elem_of_nil in Hk.
Qed.

Lemma omap_normal {A B} (f : A -> option B) (l : list A) : Forall (fun y => exists x, f x = Some y) (omap f l).
Proof. apply Forall_forall. intros y (x & _ & H)%list_elem_of_omap. by exists x. Qed.

(** The values of a [Map] filled from well-formed entries are well formed. *)
Lemma map_values {A} (key : A -> string) (P : A -> Prop) (l1 l2 : list A) : Forall P l1 -> Forall P l2 ->
  Forall P (foldl (fun m e => assoc_set (key e) e m) (foldl (fun m e => assoc_set (key e) e m) [] l1) l2).*2.
Proof.
  assert (forall l (m : list (string * A)), Forall (fun kv => P kv.2) m -> Forall P l ->
    Forall (fun kv => P kv.2) (foldl (fun m e => assoc_set (key e) e m) m l)) as H.
  { intros l. induction l as [|e l IH]; intros m Hm Hl; cbn [foldl]; [done|]. inversion Hl; subst. apply IH; [|done]. by apply Forall_assoc_set. }
  intros H1 H2. apply Forall_fmap, H; [|done]. by apply H.
Qed.

(** Setting a field when a condition holds. *)
Lemma config_ok_when (b : bool) config k v : config_ok config -> (b = true -> field_ok k v) -> config_ok (if b then config.[k := v] else config).
Proof. destruct b; [|done]. intros Hc Hv. by apply config_ok_set; [|apply Hv]. Qed.

Lemma spread_with_get_ne v k k' x : is_obj v = true -> k <> k' -> (spread_with v [(k', x)]).[k] = v.[k].
Proof.
  intros Ho Hne. rewrite jget_spread_with; [|done|by apply NoDup_singleton]. cbn [assoc_get fst snd].
  by destruct (String.eqb_spec k k').
Qed.
Lemma spread_with_get_eq v k x : is_obj v = true -> (spread_with v [(k, x)]).[k] = x.
Proof. intros Ho. rewrite jget_spread_with; [|done|by apply NoDup_singleton]. cbn [assoc_get fst snd]. by rewrite String.eqb_refl. Qed.

Lemma advisory_ok raw : advisory_setting raw = true -> field_ok "advisoryRules" raw.["advisoryRules"].
Proof.
  intros [H|H]%orb_true_iff; apply strict_eq_str in H; rewrite H; field; eexists; (split; [done|]); [by left|right; by left].
Qed.

Lemma detection_source_ok config raw : config_ok config -> config_ok (applyDetectionConfigSource config raw).
Proof.
  intros H. unfold applyDetectionConfigSource. destruct (negb _); [done|]. cbv zeta.
  pose proof (config_ok_when _ _ _ _ H (advisory_ok raw)) as H1. set (c1 := if advisory_setting raw then _ else _) in *. clearbody c1. clear H config.
  assert (config_ok (if plain_object raw.["designSystem"]
    then c1.["designSystem" := spread_with c1.["designSystem"] [("enabled", enabled_of raw.["designSystem"])]] else c1)) as H2.
  { apply config_ok_when; [done|]. intros _. destruct (config_ok_get _ "designSystem" _ H1 eq_refl) as [Ho _]. field.
    split; [done|]. rewrite spread_with_get_eq by done. by eexists. }
  set (c2 := if plain_object _ then _ else _) in *. clearbody c2. clear H1 c1.
  assert (forall l k c, config_ok c -> (k = "ignoreRules" \/ k = "ignoreFiles") -> config_ok (c.[k := strings (uniqueStrings l)])) as Hs.
  { intros l k c Hc Hk. apply config_ok_set; [done|]. destruct Hk as [-> | ->]; field; eexists; (split; [done|apply uniq_NoDup]). }
  set (c3 := match raw.["ignoreRules"] with JArr l => _ | _ => _ end) in *.
  assert (config_ok c3) as H3 by (unfold c3; destruct raw.["ignoreRules"]; try done; apply Hs; [done|by left]). clearbody c3. clear H2 c2.
  set (c4 := match raw.["ignoreFiles"] with JArr l => _ | _ => _ end) in *.
  assert (config_ok c4) as H4 by (unfold c4; destruct raw.["ignoreFiles"]; try done; apply Hs; [done|by right]). clearbody c4. clear H3 c3.
  destruct raw.["ignoreValues"] as [| | | | |l|]; try done. apply config_ok_set; [done|]. field. eexists; split; [done|].
  apply (map_values entry_key); apply omap_normal.
Qed.

Lemma detector_source_ok config raw : config_ok config -> Forall Q (normalizeExtensionEntries raw.["extensions"]) ->
  config_ok (applyDetectorConfigSource config raw).
Proof.
  intros H Hq. unfold applyDetectorConfigSource. destruct (negb _); [done|]. cbv zeta. apply (detection_source_ok _ raw) in H.
  destruct raw.["extensions"] as [| | | | |l|]; try done. apply config_ok_set; [done|].
  destruct (config_ok_get _ "extensions" _ H eq_refl) as (l0 & El & Hl0). field. eexists; split; [done|].
  apply (map_values ext).
  - rewrite El, normalized_exts; [done|]. eapply Forall_impl; [exact Hl0|]. by intros ? [? _].
  - apply Forall_and; split; [apply omap_normal|done].
Qed.

Lemma numberOr_ok v d : positive d = true -> positive (numberOr v d) = true.
Proof. unfold numberOr. intros Hd. by destruct (positive v) eqn:E. Qed.

Lemma per_edit_ok v : (v === JStr "all") || (v === JStr "immediate") = true -> field_ok "perEditRules" v.
Proof. intros [H|H]%orb_true_iff; apply strict_eq_str in H; rewrite H; field; eexists; (split; [done|]); [by left|right; by left]. Qed.

Lemma config_source_ok config raw : config_ok config -> Forall Q (normalizeExtensionEntries raw.["extensions"]) -> config_ok (applyConfigSource config raw).
Proof.
  intros H HQ. unfold applyConfigSource. destruct (negb _); [done|]. cbv zeta.
  assert (field_ok "enabled" (enabled_of raw)) as He by (field; by eexists). pose proof (config_ok_when (hasOwn raw "enabled") _ _ _ H (fun _ => He)) as H1.
  assert (field_ok "quiet" (JBool (raw.["quiet"] === JBool true))) as Hq by (field; by eexists). pose proof (config_ok_when (hasOwn raw "quiet") _ _ _ H1 (fun _ => Hq)) as H2.
  pose proof (config_ok_when _ _ _ _ H2 (per_edit_ok raw.["perEditRules"])) as H3.
  set (c3 := if _ || _ then _ else _) in *. clearbody c3. clear H He H1 Hq H2 config.
  assert (config_ok (match nonblank raw.["auditLog"] with Some s => c3.["auditLog" := JStr s] | None => c3 end)) as H4.
  { destruct (nonblank _) as [s|] eqn:E; [|done]. apply config_ok_set; [done|]. field. right. exists s; split; [done|].
    unfold nonblank in E. destruct raw.["auditLog"]; try done. destruct (String.eqb_spec (trim s0) ""); naive_solver. }
  apply (detector_source_ok _ raw) in H4; [|done].
  set (c5 := applyDetectorConfigSource _ raw) in *. clearbody c5. destruct (_ && _); [|done].
  destruct (config_ok_get _ "limits" _ H4 eq_refl) as [_ Hl]. apply config_ok_set; [done|]. field. split; [done|].
  intros k Hk. repeat (apply elem_of_cons in Hk as [->|Hk]; [apply numberOr_ok, Hl; repeat (first [by left|right])|]). by apply not_elem_of_nil in Hk.
Qed.

Lemma parse_file_eq p s : exists v, parse_file p s = (Ok v, s).
Proof.
  unfold parse_file, attempt, mbind, eff_bind, readFileSync. destruct (f_text s !! p) as [t|]; [|by eexists].
  destruct (json_parse t); by eexists.
Qed.

(** A configuration file holds a value that [String] throws on. *)
Definition unconvertible (cwd : string) (s : fsys) : Prop := exists p raw v, p ∈ [getConfigPath cwd; getLocalConfigPath cwd]
  /\ parse_file p s = (Ok raw, s) /\ (v ∈ converted_in (hookSection raw) \/ v ∈ converted_in (detectorSection raw)) /\ converts v = false.

Lemma read_config_file_eq p config s : exists v, parse_file p s = (Ok v, s) /\
  (read_config_file p config s = (Ok (applyDetectorConfigSource (applyConfigSource config (hookSection v)) (detectorSection v)), s)
   \/ read_config_file p config s = (Throw not_primitive, s)
      /\ exists x, (x ∈ converted_in (hookSection v) \/ x ∈ converted_in (detectorSection v)) /\ converts x = false).
Proof.
  destruct (parse_file_eq p s) as [v E]. exists v. split; [done|]. unfold read_config_file, mbind, eff_bind. rewrite E.
  destruct (forallb converts _) eqn:Ec; [by left|]. right. split; [done|].
  apply not_true_iff_false in Ec. rewrite forallb_forall in Ec.
  destruct (decide (Exists (fun x => converts x = false) (converted_in (hookSection v) ++ converted_in (detectorSection v)))) as [Hx|Hx].
  - apply Exists_exists in Hx as (x & [?|?]%elem_of_app & Hc); exists x; auto.
  - exfalso. apply Ec. intros x Hin%list_elem_of_In. destruct (converts x) eqn:Hc; [done|]. exfalso. apply Hx, Exists_exists. by exists x.
Qed.

Lemma readConfig_ok cwd s :
  (forall p v, p ∈ [getConfigPath cwd; getLocalConfigPath cwd] -> parse_file p s = (Ok v, s) ->
     Forall Q (normalizeExtensionEntries (hookSection v).["extensions"]) /\ Forall Q (normalizeExtensionEntries (detectorSection v).["extensions"])) ->
  (exists config, readConfig cwd s = (Ok config, s) /\ config_ok config) \/ readConfig cwd s = (Throw not_primitive, s) /\ unconvertible cwd s.
Proof.
  intros HQ. unfold readConfig, mbind, eff_bind.
  destruct (read_config_file_eq (getConfigPath cwd) cloneDefaultConfig s) as (v1 & E1 & [-> | (-> & x & Hx & Hc)]).
  2:{ right. split; [done|]. exists (getConfigPath cwd), v1, x. by split; [left|]. }
  set (c1 := applyDetectorConfigSource _ _). destruct (HQ _ v1 ltac:(by left) E1) as [Qh Qd].
  assert (config_ok c1) as H1 by (apply detector_source_ok; [apply config_source_ok; [apply default_ok|]|]; done). clearbody c1.
  destruct (read_config_file_eq (getLocalConfigPath cwd) c1 s) as (v2 & E2 & [-> | (-> & x & Hx & Hc)]).
  - left. destruct (HQ _ v2 ltac:(by right; left) E2). eexists; split; [done|]. apply detector_source_ok; [by apply config_source_ok|done].
  - right. split; [done|]. exists (getLocalConfigPath cwd), v2, x. by split; [right; left|].
Qed.
End WellFormed.

(** C38: The configuration of the hook is well typed. For every content of the two configuration files - missing,
    malformed, or holding values of any type - [readConfig] touches no file, and it either returns a configuration in
    which the switches are booleans, the lists are lists of strings and normalized entries, the modes are among their
    two values, and the three limits are finite and positive, or throws the TypeError of [String], and then a rule, a
    glob or a waiver of one of the files has an object with a property [toString] of its own in the place of a text. *)
Theorem config_well_formed cwd s : exists r, readConfig cwd s = (r, s) /\
  match r with
  | Ok config => config_ok (fun _ => True) config
  | Throw e => e = not_primitive /\ unconvertible cwd s
  end.
Proof.
  destruct (readConfig_ok (fun _ => True) cwd s) as [(config & -> & H)|[-> H]]; [intros p v _ _; split; by apply Forall_forall| |]; by eexists.
Qed.

(** Reading changes nothing. *)
Lemma config_keeps cwd s : exists r, readConfig cwd s = (r, s).
Proof. destruct (readConfig_ok (fun _ => True) cwd s) as [(config & -> & _)|[-> _]]; [intros p v _ _; split; by apply Forall_forall|by eexists..]. Qed.

(** Such a value. *)
Example unusable_rule :
  readConfig "/p" (Fsys {[ "/p/.impeccable/config.json" :=
    json_stringify (JObj [("hook", JObj [("ignoreRules", JArr [JObj [("toString", int 1)]])])]) ]} (list_to_set ["/"; "/p"; "/p/.impeccable"]))
  = (Throw not_primitive, Fsys {[ "/p/.impeccable/config.json" :=
    json_stringify (JObj [("hook", JObj [("ignoreRules", JArr [JObj [("toString", int 1)]])])]) ]} (list_to_set ["/"; "/p"; "/p/.impeccable"])).
Proof. by vm_compute. Qed.

(** ** Live sees the templates the hook is told about *)

Lemma configured_in_eq v : configured_in v = normalizeExtensionEntries (detectorSection v).["extensions"].
Proof.
  unfold configured_in, detectorSection, opt_get. destruct v as [| |b|n|t|l|o]; try done; cbn [nullish]; cbv iota;
    destruct (truthy _) eqn:E; try done; cbn [andb]; by destruct (plain_object _).
Qed.

(** Live's search accepts every template the hook was taught: when the two configuration files list their
    extensions under [detector] (not under the older [hook] key), a file that matches a configured extension
    of the hook is a template for Live's source search. *)
Theorem hook_templates_reach_live cwd s config filePath r :
  (forall p v, p ∈ [getConfigPath cwd; getLocalConfigPath cwd] -> parse_file p s = (Ok v, s) ->
     elements_of (hookSection v).["extensions"] = []) ->
  readConfig cwd s = (Ok config, s) -> matchConfiguredExtension filePath config.["extensions"] = Some r ->
  exists exts, readLiveTemplateExtensions cwd s = (Ok exts, s) /\ matchesTemplateExtension filePath exts = true.
Proof.
  intros Hh Hc Hm. unfold readLiveTemplateExtensions, mbind, eff_bind.
  change (path_join [cwd; ".impeccable"; "config.json"]) with (getConfigPath cwd).
  change (path_join [cwd; ".impeccable"; "config.local.json"]) with (getLocalConfigPath cwd).
  destruct (parse_file_eq (getConfigPath cwd) s) as [v1 E1], (parse_file_eq (getLocalConfigPath cwd) s) as [v2 E2]. rewrite E1, E2.
  eexists; split; [done|]. eapply configured_is_template; [exact Hm|].
  destruct (readConfig_ok (fun e => e ∈ configured_in v1 ++ configured_in v2) cwd s) as [(c' & Hc' & Hok)|[Hc' _]]; [| |by rewrite Hc in Hc'].
  { intros p v Hp Hv. specialize (Hh p v Hp Hv). rewrite <- configured_in_eq. split; [unfold normalizeExtensionEntries; rewrite Hh; constructor|].
    assert (v = v1 \/ v = v2) as [-> | ->].
    { repeat (apply elem_of_cons in Hp as [->|Hp]; [first [left; congruence | right; congruence]|]). by apply not_elem_of_nil in Hp. }
    all: apply Forall_forall; intros e He; apply elem_of_app; first [by left | by right]. }
  assert (c' = config) as -> by congruence. destruct (config_ok_get _ _ "extensions" _ Hok eq_refl) as (l & El & Hl).
  rewrite El, normalized_exts. 2: { eapply Forall_impl; [exact Hl|]. by intros ? [? _]. }
  intros e He. rewrite Forall_forall in Hl. destruct (Hl e He) as [_ Hin].
  apply live_fold; [apply (bool_decide_unpack _); vm_compute; exact I|]. right. apply list_elem_of_fmap. eauto.
Qed.

Definition demo_template_config : js :=
  JObj [("detector", JObj [("extensions", JArr [JStr "blade.php"; JObj [("ext", JStr ".html.erb"); ("engine", JStr "html")]])])].
Definition demo_template_project : fsys := Fsys {[ "/p/.impeccable/config.json" := json_stringify demo_template_config ]} (list_to_set ["/"; "/p"; "/p/.impeccable"]).

Lemma hook_templates_reach_live_witness : exists config exts,
  matchConfiguredExtension (JStr "/p/views/home.blade.php") config.["extensions"] = Some (ExtEntry ".blade.php" EngineHtml) /\
  readLiveTemplateExtensions "/p" demo_template_project = (Ok exts, demo_template_project) /\
  matchesTemplateExtension (JStr "/p/views/home.blade.php") exts = true.
Proof.
  assert (exists config, readConfig "/p" demo_template_project = (Ok config, demo_template_project)) as [config Hc].
  { destruct (readConfig "/p" demo_template_project) as [[config|e] s] eqn:E; pose proof (f_equal fst E) as E1; vm_compute in E1; [|done].
    exists config. destruct (config_keeps "/p" demo_template_project) as [r Hr]. rewrite Hr in E. by injection E as -> <-. }
  assert (matchConfiguredExtension (JStr "/p/views/home.blade.php") config.["extensions"] = Some (ExtEntry ".blade.php" EngineHtml)) as Hm.
  { apply (f_equal fst) in Hc. vm_compute in Hc. injection Hc as <-. reflexivity. }
  destruct (hook_templates_reach_live "/p" demo_template_project config (JStr "/p/views/home.blade.php") (ExtEntry ".blade.php" EngineHtml)) as (exts & H1 & H2); [|done|done|].
  - intros p v Hp Hv. apply (f_equal fst) in Hv. apply elem_of_cons in Hp as [->|Hp]; [|apply elem_of_cons in Hp as [->|Hp]; [|by apply not_elem_of_nil in Hp]];
      vm_compute in Hv; injection Hv as <-; reflexivity.
  - exists config, exts. exact (conj Hm (conj H1 H2)).
Defined.
