(* ===== verification/HookCache.v ===== *)
(** * What the hook remembers ([hook-lib.mjs], the session cache)

    The cache maps a session and a file to an edit count and to the keys of the findings
    already reported. It is one JavaScript object, mutated in place and written to
    [.impeccable/hook.cache.json]; here an operation returns the changed object, or the
    TypeError that a damaged cache file provokes. An array where the code expects an object keeps no
    named property: it is left unchanged. [now] is [Date.now()]. *)
From S2P Require Import Prelude JsString JsValue Json JsRegex NodePath Vocabulary EventValidation PollLanes Files Globs IgnoreConfig TemplateExtensions HookConfig.
Local Open Scope Z_scope.

(** [v[k]] and [v[k] = x] where [v] can be any value. *)
Definition prop (v : js) (k : string) : result js :=
  if nullish v then Throw (error "Cannot read properties of undefined") else Ok v.[k].
Definition put (v : js) (k : string) (x : js) : result js :=
  if is_objecty v && negb (nullish v) then Ok (v.[k := x]) else Throw (error "Cannot create property").

(** [a + b]. *)
Definition js_add (a b : js) : js :=
  match to_prim a, to_prim b with
  | JStr x, y => JStr (x +:+ to_str y)
  | x, JStr y => JStr (to_str x +:+ y)
  | x, y => JNum (num_add (to_num x) (to_num y))
  end.

(** ** Reading and writing the file *)

Definition readCache (cwd : string) : eff fsys js :=
  raw ← parse_file (getCachePath cwd);
  if negb (truthy raw) || negb (is_objecty raw) || negb (raw.["version"] === int 1)
  then mret (JObj [("version", int 1); ("sessions", JObj [])])
  else mret (JObj [("version", int 1);
                   ("sessions", if truthy raw.["sessions"] && is_objecty raw.["sessions"] then raw.["sessions"] else JObj [])]).

(** *** The exclude file of git *)

Definition HOOK_LOCAL_IGNORE_PATTERNS : list string :=
  [".impeccable/hook.cache.json"; ".impeccable/hook.pending.json"; ".impeccable/config.local.json"].
Definition HOOK_IGNORE_MARKER_OPEN : string := "# impeccable-hook-ignore-start".
Definition HOOK_IGNORE_MARKER_CLOSE : string := "# impeccable-hook-ignore-end".

Definition resolveHookGitDir (dotGit worktreeDir : string) : eff fsys (option string) :=
  dir ← get (is_dir dotGit);
  if dir : bool then mret (Some dotGit) else
  text ← readFileSync dotGit;
  mret (match re_exec (RBol ⋅ liti "gitdir:" ⋅ rstar rspace ⋅ RGroup 1 (rplus rdot) ⋅ REol)%re (trim text) with
        | None => None
        | Some m => let target := group_or "" m 1 in Some (if is_absolute target then target else resolve worktreeDir target)
        end).

(** The loop of [resolveHookGitExcludeTarget]: the exclude file and the path of the project inside the work tree. *)
Fixpoint git_target (fuel : nat) (start dir : string) : eff fsys (option (string * string)) :=
  match fuel with
  | O => mret None
  | S fuel =>
    let dotGit := path_join [dir; ".git"] in
    there ← get (existsSync dotGit);
    if there : bool then
      gitDir ← resolveHookGitDir dotGit dir;
      mret (match gitDir with
            | None => None
            | Some gitDir => let relPrefix := relative dir start in
                Some (path_join [gitDir; "info"; "exclude"], if String.eqb relPrefix "." then "" else relPrefix)
            end)
    else
      let parent := dirname dir in
      if String.eqb parent dir then mret None else git_target fuel start parent
  end.

(** The text a replacement string stands for: [$$], [$&], and the text before and after the match. *)
Fixpoint expand_dollars (before matched after t : string) : string :=
  match t with
  | String "$" (String "$" t) => String "$" (expand_dollars before matched after t)
  | String "$" (String "&" t) => matched +:+ expand_dollars before matched after t
  | String "$" (String "`" t) => before +:+ expand_dollars before matched after t
  | String "$" (String "'" t) => after +:+ expand_dollars before matched after t
  | String c t => String c (expand_dollars before matched after t)
  | EmptyString => ""
  end.

Definition hook_patterns (patternPrefix : string) : list string :=
  if String.eqb patternPrefix "" then HOOK_LOCAL_IGNORE_PATTERNS
  else (fun pattern => patternPrefix +:+ "/" +:+ pattern) <$> HOOK_LOCAL_IGNORE_PATTERNS.
Definition hook_exclude_text (patternPrefix existing : string) : string :=
  let markerSuffix := if String.eqb patternPrefix "" then "." else patternPrefix in
  let markerOpen := HOOK_IGNORE_MARKER_OPEN +:+ " " +:+ markerSuffix in
  let markerClose := HOOK_IGNORE_MARKER_CLOSE +:+ " " +:+ markerSuffix in
  let block := join s_nl (markerOpen :: hook_patterns patternPrefix ++ [markerClose]) in
  (* every special character of the markers is escaped *)
  let markerRe := (lit markerOpen ⋅ rstar_lazy rany ⋅ lit markerClose)%re in
  if re_test markerRe existing
  then re_replace markerRe (fun m => expand_dollars (stake (m_index m) existing) (m_text m) (m_after m) block) existing
  else
    let prefix := if String.eqb existing "" then "" else if ends_with s_nl existing then existing else existing +:+ s_nl in
    prefix +:+ (if ends_with (s_nl +:+ s_nl) prefix || String.eqb prefix "" then "" else s_nl) +:+ block +:+ s_nl.

Record exclude_result := ExcludeResult { ex_mode : string; ex_file : option string; ex_changed : bool; ex_patterns : list string }.

Section Process.
Context (cwd0 : string).
Definition ensureHookGitExcludes (cwd : string) : eff fsys exclude_result :=
  attempt
    (let start := resolve cwd0 cwd in
     target ← git_target (S (slen start)) start start;
     match target with
     | None => mret (ExcludeResult "none" None false HOOK_LOCAL_IGNORE_PATTERNS)
     | Some (path, patternPrefix) =>
       there ← get (existsSync path);
       existing ← (if there : bool then readFileSync path else mret "");
       let updated := hook_exclude_text patternPrefix existing in
       let changed := negb (String.eqb updated existing) in
       _ ← run_if changed (_ ← mkdirp (dirname path); writeFileSync path updated);
       mret (ExcludeResult "git-info-exclude" (Some (relative start path)) changed (hook_patterns patternPrefix))
     end)
    (fun _ => mret (ExcludeResult "error" None false HOOK_LOCAL_IGNORE_PATTERNS)).

(** *** The oldest sessions go first *)

Definition updated_at (sessions : js) (id : string) : js := opt_get sessions.[id] "updatedAt" ||? int 0.
(** [b[1] - a[1] < 0]. *)
Definition newer (a b : string * js) : bool := num_ltb (to_num b.2) (to_num a.2).
Definition newest_ids (sessions : js) : list string :=
  (take CACHE_MAX_SESSIONS (sort_by newer ((fun id => (id, updated_at sessions id)) <$> keys (own_props sessions)))).*1.
Definition collect_sessions (cache : js) : js :=
  let sessions := cache.["sessions"] ||? JObj [] in
  if (CACHE_MAX_SESSIONS <? length (own_props sessions))%nat
  then spread_with cache [("sessions", JObj (foldl (fun next id => assoc_set id sessions.[id] next) [] (newest_ids sessions)))]
  else cache.

Definition persistCache (cwd : string) (cache : js) : eff fsys bool :=
  let cache := collect_sessions cache in
  let target := getCachePath cwd in
  attempt (_ ← ensureHookGitExcludes cwd;
           _ ← mkdirp (dirname target);
           _ ← writeFileSync target (json_stringify cache);
           mret true)
          (fun _ => mret false).
End Process.

(** ** Sessions and files *)

Section Cache.
Context (now : Z) (decodeURIComponent : string -> option string).
Implicit Types (cache : js) (sessionId filePath : string).

Definition session_of cache sessionId : js := cache.["sessions"].[sessionId].
Definition file_of cache sessionId filePath : js := (session_of cache sessionId).["files"].[filePath].
(** Replace the session, or the file entry, that was mutated. *)
Definition set_session cache sessionId (session : js) : js := cache.["sessions" := cache.["sessions"].[sessionId := session]].
Definition set_file cache sessionId filePath (entry : js) : js :=
  let session := session_of cache sessionId in
  set_session cache sessionId (session.["files" := session.["files"].[filePath := entry]]).

Definition ensureSession cache sessionId : result js :=
  session ← prop cache.["sessions"] sessionId;
  if truthy session then Ok cache else
  sessions ← put cache.["sessions"] sessionId (JObj [("updatedAt", int now); ("files", JObj [])]);
  Ok (cache.["sessions" := sessions]).
Definition ensureFile cache sessionId filePath : result js :=
  cache ← ensureSession cache sessionId;
  files ← prop (session_of cache sessionId) "files";
  entry ← prop files filePath;
  if truthy entry then Ok cache else
  _ ← put files filePath (JObj [("editCount", int 0); ("findings", JArr [])]);
  Ok (set_file cache sessionId filePath (JObj [("editCount", int 0); ("findings", JArr [])])).
(** [fileEntry.k = x]. *)
Definition put_in_file cache sessionId filePath (k : string) (x : js) : result js :=
  entry ← put (file_of cache sessionId filePath) k x;
  Ok (set_file cache sessionId filePath entry).
(** [ensureSession(cache, sessionId).updatedAt = Date.now()]. *)
Definition stamp cache sessionId : result js :=
  cache ← ensureSession cache sessionId;
  session ← put (session_of cache sessionId) "updatedAt" (int now);
  Ok (set_session cache sessionId session).

Definition bumpEditCount cache sessionId filePath : result (js * js) :=
  cache ← ensureFile cache sessionId filePath;
  let editCount := js_add ((file_of cache sessionId filePath).["editCount"] ||? int 0) (int 1) in
  cache ← put_in_file cache sessionId filePath "editCount" editCount;
  cache ← stamp cache sessionId;
  Ok (editCount, cache).
Definition touchFile cache sessionId filePath : result js :=
  cache ← ensureFile cache sessionId filePath;
  stamp cache sessionId.

Definition findingCacheKey (finding : js) : string :=
  let line := opt_get finding "line" ||? int 0 in
  let value := extractFindingIgnoreValue decodeURIComponent finding in
  let on_line := num_ltb (NInt 0) (to_num line) in
  let rule := to_str finding.["antipattern"] in
  if on_line && negb (String.eqb value "") then rule +:+ ":" +:+ to_str line +:+ ":" +:+ value
  else if on_line then rule +:+ ":" +:+ to_str line
  else if negb (String.eqb value "") then rule +:+ ":0:" +:+ value
  else
    let snippet := stake 80 (trim (to_str (opt_get finding "snippet" ||? JStr ""))) in
    if String.eqb snippet "" then rule +:+ ":0" else rule +:+ ":0:" +:+ snippet.

(** The loop of [dedupeAgainstCache]. *)
Fixpoint fresh_of (known : list js) (findings : list js) : list js :=
  match findings with
  | [] => []
  | f :: findings =>
    let key := JStr (findingCacheKey f) in
    if set_has known key then fresh_of known findings else f :: fresh_of (set_add known key) findings
  end.
Definition dedupeAgainstCache (findings : list js) cache sessionId filePath : result (list js * js) :=
  match findings with
  | [] => Ok ([], cache)
  | _ =>
    cache ← ensureFile cache sessionId filePath;
    known ← iterate ((file_of cache sessionId filePath).["findings"] ||? JArr []);
    Ok (fresh_of (set_of known) findings, cache)
  end.
Definition rememberFindings cache sessionId filePath (findings : list js) : result js :=
  cache ← ensureFile cache sessionId filePath;
  cache ← put_in_file cache sessionId filePath "findings" (strings (uniq (findingCacheKey <$> findings)));
  stamp cache sessionId.
End Cache.

(** * Theorems *)

(** ** The shape of a cache *)

Definition entry_ok (v : js) : Prop := is_obj v = true /\ exists l, v.["findings"] = strings l.
Definition session_ok (v : js) : Prop := is_obj v = true /\ exists fo, v.["files"] = JObj fo /\ Forall (fun kv => entry_ok kv.2) fo.
(** What the hook's own operations keep: objects all the way down, lists of strings at the leaves. *)
Definition cache_ok (cache : js) : Prop :=
  is_obj cache = true /\ exists so, cache.["sessions"] = JObj so /\ Forall (fun kv => session_ok kv.2) so.
(** The keys remembered for a file. *)
Definition known (cache : js) (sessionId filePath : string) : list string :=
  to_str <$> elements_of (file_of cache sessionId filePath).["findings"].
Definition new_entry : js := JObj [("editCount", int 0); ("findings", JArr [])].
(** The entry [ensureFile] leaves. *)
Definition entry_of (cache : js) (sessionId filePath : string) : js :=
  let entry := file_of cache sessionId filePath in if truthy entry then entry else new_entry.

Lemma new_entry_ok : entry_ok new_entry.
Proof. split; [done|]. by exists []. Qed.

Lemma Forall_assoc_get {A} (P : string * A -> Prop) k v l : Forall P l -> assoc_get k l = Some v -> P (k, v).
Proof. intros H E%assoc_get_In. rewrite Forall_forall in H. by apply H, list_elem_of_In. Qed.

Lemma session_get cache sid : cache_ok cache -> session_of cache sid = JUndef \/ session_ok (session_of cache sid).
Proof.
  intros (_ & so & E & Hs). unfold session_of. rewrite E. cbn [jget]. destruct (assoc_get sid so) as [v|] eqn:Ev; [|by left].
  right. by apply (Forall_assoc_get _ _ _ _ Hs Ev).
Qed.

Lemma file_get cache sid f : cache_ok cache -> file_of cache sid f = JUndef \/ entry_ok (file_of cache sid f).
Proof.
  intros H. unfold file_of. destruct (session_get cache sid H) as [-> |(_ & fo & E & Hf)]; [by left|]. rewrite E. cbn [jget].
  destruct (assoc_get f fo) as [v|] eqn:Ev; [|by left]. right. by apply (Forall_assoc_get _ _ _ _ Hf Ev).
Qed.

Lemma entry_of_ok cache sid f : cache_ok cache -> entry_ok (entry_of cache sid f).
Proof.
  intros H. unfold entry_of. destruct (file_get cache sid f H) as [-> |Hf]; [apply new_entry_ok|]. cbv zeta.
  destruct Hf as [Ho He]. assert (truthy (file_of cache sid f) = true) as -> by (by destruct (file_of cache sid f)). by split.
Qed.

Lemma set_session_ok cache sid s : cache_ok cache -> session_ok s ->
  cache_ok (set_session cache sid s) /\ forall sid', session_of (set_session cache sid s) sid' = if String.eqb sid' sid then s else session_of cache sid'.
Proof.
  intros (Ho & so & E & Hs) Hss. unfold set_session, session_of. rewrite E. split.
  - split; [by rewrite is_obj_jset|]. exists (assoc_set sid s so). rewrite jget_jset, String.eqb_refl by done. split; [done|].
    by apply Forall_assoc_set.
  - intros sid'. rewrite jget_jset, String.eqb_refl by done. cbn [jget jset]. rewrite assoc_get_set. by destruct (String.eqb sid' sid).
Qed.

Lemma set_file_ok cache sid f e : cache_ok cache -> session_ok (session_of cache sid) -> entry_ok e ->
  cache_ok (set_file cache sid f e) /\ session_ok (session_of (set_file cache sid f e) sid) /\
  forall sid' f', file_of (set_file cache sid f e) sid' f' = if String.eqb sid' sid && String.eqb f' f then e else file_of cache sid' f'.
Proof.
  intros Hc (Ho & fo & E & Hf) He. unfold set_file.
  assert (session_ok (session_of cache sid).["files" := (session_of cache sid).["files"].[f := e]]) as Hs.
  { split; [by rewrite is_obj_jset|]. exists (assoc_set f e fo). rewrite jget_jset, String.eqb_refl, E by done. split; [done|]. by apply Forall_assoc_set. }
  destruct (set_session_ok cache sid _ Hc Hs) as [Hc' Hget]. split_and!; [done|by rewrite Hget, String.eqb_refl|].
  intros sid' f'. unfold file_of. rewrite Hget. destruct (String.eqb_spec sid' sid) as [->|_]; [|done].
  rewrite jget_jset, String.eqb_refl, E by done. cbn [jget jset andb]. rewrite assoc_get_set. by destruct (String.eqb f' f).
Qed.

Section Operations.
Context (now : Z) (decodeURIComponent : string -> option string).

(** [cache'] holds the entry [e] for the file and agrees with [cache] on the others. *)
Definition updates (cache cache' : js) (sid f : string) (e : js) : Prop :=
  cache_ok cache' /\ session_ok (session_of cache' sid) /\
  forall sid' f', file_of cache' sid' f' = if String.eqb sid' sid && String.eqb f' f then e else file_of cache sid' f'.

Lemma ensureSession_eq cache sid : cache_ok cache -> exists cache', ensureSession now cache sid = Ok cache' /\
  cache_ok cache' /\ session_ok (session_of cache' sid) /\ forall sid' f', file_of cache' sid' f' = file_of cache sid' f'.
Proof.
  intros H. pose proof H as (Ho & so & E & Hs). unfold ensureSession, prop. rewrite E. cbn [nullish mbind result_bind].
  change (JObj so).[sid] with (default JUndef (assoc_get sid so)). pose proof (session_get cache sid H) as Hg. unfold session_of in Hg. rewrite E in Hg. cbn [jget] in Hg.
  destruct Hg as [Hg|Hg].
  - rewrite Hg. cbn [truthy]. unfold put. cbn [is_objecty nullish negb andb mbind result_bind]. eexists; split; [done|].
    assert (session_ok (JObj [("updatedAt", int now); ("files", JObj [])])) as Hn by (split; [done|]; exists []; split; [done|constructor]).
    pose proof (set_session_ok cache sid _ H Hn) as [Hc Hget]. unfold set_session in *. rewrite E in *. split_and!; [done|by rewrite Hget, String.eqb_refl|].
    intros sid' f'. unfold file_of. rewrite Hget. destruct (String.eqb_spec sid' sid) as [->|_]; [|done].
    unfold session_of. rewrite E. cbn [jget]. by rewrite Hg.
  - assert (truthy (default JUndef (assoc_get sid so)) = true) as -> by (destruct Hg as [Hg _]; by destruct (default _ _)).
    eexists; split; [done|]. split_and!; [done| |done]. unfold session_of. by rewrite E.
Qed.

Lemma ensureFile_eq cache sid f : cache_ok cache -> exists cache', ensureFile now cache sid f = Ok cache' /\
  updates cache cache' sid f (entry_of cache sid f).
Proof.
  intros H. unfold ensureFile. destruct (ensureSession_eq cache sid H) as (c1 & -> & H1 & Hs1 & Hf1). cbn [mbind result_bind].
  pose proof Hs1 as (Ho & fo & E & Hfo). unfold prop. assert (nullish (session_of c1 sid) = false) as -> by (by destruct (session_of c1 sid)).
  cbn [mbind result_bind]. rewrite E. cbn [nullish mbind result_bind].
  assert ((JObj fo).[f] = file_of cache sid f) as -> by (rewrite <- Hf1; unfold file_of; by rewrite E).
  unfold entry_of. destruct (file_get cache sid f H) as [Hg|Hg].
  - rewrite Hg. cbn [truthy]. unfold put. cbn [is_objecty nullish negb andb mbind result_bind]. eexists; split; [done|].
    destruct (set_file_ok c1 sid f _ H1 Hs1 new_entry_ok) as (? & ? & Hg'). split_and!; [done..|]. intros sid' f'. rewrite Hg'. by rewrite Hf1.
  - assert (truthy (file_of cache sid f) = true) as -> by (destruct Hg as [Hg _]; by destruct (file_of cache sid f)).
    eexists; split; [done|]. split_and!; [done..|]. intros sid' f'. rewrite Hf1.
    destruct (String.eqb_spec sid' sid) as [->|_]; [|done]. by destruct (String.eqb_spec f' f) as [->|_].
Qed.

Lemma stamp_eq cache sid : cache_ok cache -> exists cache', stamp now cache sid = Ok cache' /\
  cache_ok cache' /\ session_ok (session_of cache' sid) /\ forall sid' f', file_of cache' sid' f' = file_of cache sid' f'.
Proof.
  intros H. unfold stamp. destruct (ensureSession_eq cache sid H) as (c1 & -> & H1 & Hs1 & Hf1). cbn [mbind result_bind].
  pose proof Hs1 as (Ho & fo & E & Hfo). unfold put. assert (is_objecty (session_of c1 sid) && negb (nullish (session_of c1 sid)) = true) as -> by (by destruct (session_of c1 sid)).
  cbn [mbind result_bind]. eexists; split; [done|].
  assert (session_ok (session_of c1 sid).["updatedAt" := int now]) as Hn.
  { split; [by rewrite is_obj_jset|]. exists fo. by rewrite jget_jset. }
  destruct (set_session_ok c1 sid _ H1 Hn) as [Hc Hget]. split_and!; [done|by rewrite Hget, String.eqb_refl|]. intros sid' f'. rewrite <- Hf1. unfold file_of. rewrite Hget.
  destruct (String.eqb_spec sid' sid) as [->|_]; [|done]. by rewrite jget_jset.
Qed.

Lemma updates_refl cache c1 sid f : updates cache c1 sid f (entry_of cache sid f) -> file_of c1 sid f = entry_of cache sid f.
Proof. intros (_ & _ & H). by rewrite H, !String.eqb_refl. Qed.

(** An operation on the entry of a file: a property of it is set and the session is stamped. *)
Lemma put_stamp_eq cache sid f k x : cache_ok cache -> entry_ok (entry_of cache sid f).[k := x] -> exists cache',
  (cache ← ensureFile now cache sid f; cache ← put_in_file cache sid f k x; stamp now cache sid) = Ok cache' /\
  updates cache cache' sid f (entry_of cache sid f).[k := x].
Proof.
  intros H He. destruct (ensureFile_eq cache sid f H) as (c1 & -> & Hu). cbn [mbind result_bind]. unfold put_in_file.
  rewrite (updates_refl _ _ _ _ Hu). destruct Hu as (H1 & Hs1 & Hf1). unfold put.
  pose proof (entry_of_ok cache sid f H) as [Ho _].
  assert (is_objecty (entry_of cache sid f) && negb (nullish (entry_of cache sid f)) = true) as -> by (by destruct (entry_of cache sid f)).
  cbn [mbind result_bind]. destruct (set_file_ok c1 sid f _ H1 Hs1 He) as (H2 & Hs2 & Hf2).
  destruct (stamp_eq _ sid H2) as (c3 & -> & H3 & Hs3 & Hf3). eexists; split; [done|]. split_and!; [done..|]. intros sid' f'. rewrite Hf3, Hf2, Hf1.
  by destruct (_ && _).
Qed.

Lemma rememberFindings_eq cache sid f findings : cache_ok cache -> exists cache',
  rememberFindings now decodeURIComponent cache sid f findings = Ok cache' /\
  updates cache cache' sid f (entry_of cache sid f).["findings" := strings (uniq (findingCacheKey decodeURIComponent <$> findings))].
Proof.
  intros H. apply put_stamp_eq; [done|]. destruct (entry_of_ok cache sid f H) as [Ho _]. split; [by rewrite is_obj_jset|].
  eexists. by rewrite jget_jset, String.eqb_refl.
Qed.
End Operations.

(** ** What is reported again, and what is not *)

Lemma elem_uniq l x : x ∈ uniq l <-> x ∈ l.
Proof.
  unfold uniq. assert (forall acc, x ∈ foldl (fun acc x => if bool_decide (x ∈ acc) then acc else acc ++ [x]) acc l <-> x ∈ acc \/ x ∈ l) as H.
  { induction l as [|y l IH]; intros acc; cbn [foldl]; [rewrite elem_of_nil; tauto|]. rewrite IH, elem_of_cons.
    destruct (bool_decide_reflect (y ∈ acc)); [naive_solver|]. rewrite elem_of_app, list_elem_of_singleton. tauto. }
  rewrite H, elem_of_nil. tauto.
Qed.

Section Surfacing.
Context (decodeURIComponent : string -> option string).
Notation key := (findingCacheKey decodeURIComponent).

Lemma set_add_str set t u : JStr u ∈ set_add set (JStr t) <-> JStr u ∈ set \/ u = t.
Proof.
  unfold set_add. destruct (set_has set (JStr t)) eqn:E.
  - apply set_has_str in E. split; [by left|]. by intros [?| ->].
  - rewrite elem_of_app, list_elem_of_singleton. naive_solver.
Qed.

(** The fresh findings: those with an unknown key, the first of each key. *)
Lemma fresh_spec findings : forall known,
  fresh_of decodeURIComponent known findings `sublist_of` findings /\
  NoDup (key <$> fresh_of decodeURIComponent known findings) /\
  (forall x, x ∈ fresh_of decodeURIComponent known findings -> JStr (key x) ∉ known) /\
  (forall x, x ∈ findings -> JStr (key x) ∈ known \/ key x ∈ key <$> fresh_of decodeURIComponent known findings).
Proof.
  induction findings as [|f findings IH]; intros known; cbn [fresh_of].
  { split_and!; [done|constructor|intros x Hx; by apply not_elem_of_nil in Hx..]. }
  destruct (set_has known (JStr (key f))) eqn:E.
  - destruct (IH known) as (H1 & H2 & H3 & H4). split_and!; [by constructor|done..|]. intros x [->|Hx]%elem_of_cons; [left; by apply set_has_str|by apply H4].
  - destruct (IH (set_add known (JStr (key f)))) as (H1 & H2 & H3 & H4). rewrite fmap_cons. split_and!; [by constructor| | |].
    + apply NoDup_cons. split; [|done]. intros (x & Ex & Hx)%list_elem_of_fmap. apply (H3 x Hx). apply set_add_str. by right.
    + intros x [->|Hx]%elem_of_cons.
      * intros Hin. apply set_has_str in Hin. congruence.
      * intros Hin. apply (H3 x Hx), set_add_str. by left.
    + intros x [->|Hx]%elem_of_cons; [right; by apply elem_of_cons; left|]. destruct (H4 x Hx) as [Hk|Hk]; [|right; by apply elem_of_cons; right].
      apply set_add_str in Hk as [Hk|Hk]; [by left|right]. rewrite Hk. by apply elem_of_cons; left.
Qed.

Lemma known_strings cache sid f l : (file_of cache sid f).["findings"] = strings l -> known cache sid f = l.
Proof. unfold known. intros ->. unfold strings, elements_of. rewrite <- list_fmap_compose. by rewrite (list_fmap_ext _ id), list_fmap_id. Qed.

(** [dedupeAgainstCache] on a cache of the hook's making. *)
Lemma dedupe_eq now cache sid f findings : cache_ok cache -> exists fresh cache',
  dedupeAgainstCache now decodeURIComponent findings cache sid f = Ok (fresh, cache') /\ cache_ok cache' /\
  fresh = fresh_of decodeURIComponent (JStr <$> known cache sid f) findings /\
  (forall sid' f', known cache' sid' f' = known cache sid' f') /\
  (findings <> [] -> updates cache cache' sid f (entry_of cache sid f)).
Proof.
  intros H. unfold dedupeAgainstCache. destruct findings as [|x findings]; [by exists [], cache|].
  destruct (ensureFile_eq now cache sid f H) as (c1 & -> & Hu). cbn [mbind result_bind]. rewrite (updates_refl _ _ _ _ Hu).
  destruct (entry_of_ok cache sid f H) as (Ho & l & El). rewrite El. unfold or_else, strings. cbn [truthy iterate mbind result_bind].
  assert (known cache sid f = l) as Hk.
  { unfold entry_of in El. destruct (file_get cache sid f H) as [Hg|Hg].
    - unfold known. rewrite Hg in *. cbn [truthy] in El. unfold new_entry in El. cbn in El. unfold strings in El. injection El as El. by destruct l.
    - assert (truthy (file_of cache sid f) = true) as E by (destruct Hg as [Hg _]; by destruct (file_of cache sid f)). rewrite E in El. by apply known_strings. }
  eexists _, c1. split; [done|]. split; [apply Hu|]. split; [|split; [|done]].
  - rewrite Hk. assert (forall fs k1 k2, (forall t, JStr t ∈ k1 <-> JStr t ∈ k2) -> fresh_of decodeURIComponent k1 fs = fresh_of decodeURIComponent k2 fs) as Hext.
    { induction fs as [|g fs IH]; intros k1 k2 Hkk; [done|]. cbn [fresh_of].
      assert (set_has k1 (JStr (key g)) = set_has k2 (JStr (key g))) as ->.
      { destruct (set_has k2 _) eqn:E2; [by apply set_has_str, Hkk, set_has_str|]. destruct (set_has k1 _) eqn:E1; [|done].
        apply set_has_str, Hkk, set_has_str in E1. congruence. }
      destruct (set_has k2 _); [by apply IH|]. f_equal. apply IH. intros t. by rewrite !set_add_str, Hkk. }
    apply Hext. intros t. apply set_of_str.
  - intros sid' f'. unfold known. destruct Hu as (_ & _ & Hf). rewrite Hf. destruct (String.eqb_spec sid' sid) as [->|_]; [|done].
    destruct (String.eqb_spec f' f) as [->|_]; [|done]. cbn [andb]. rewrite El. unfold known in Hk. rewrite Hk.
    unfold strings, elements_of. rewrite <- list_fmap_compose. by rewrite (list_fmap_ext _ id), list_fmap_id.
Qed.

(** The memory of a file is its last scan. Once the findings [scan] of a file are remembered, whatever was
    remembered before, the next scan reports exactly the findings that [scan] had not: a finding still there
    is not repeated, one that was fixed and comes back is reported again, each key once and in the order of
    the scan. The other files of the session and the other sessions keep their memory. *)
Theorem memory_is_the_last_scan now now' cache sid f scan next : cache_ok cache ->
  exists cache1 fresh cache2,
    rememberFindings now decodeURIComponent cache sid f scan = Ok cache1 /\
    dedupeAgainstCache now' decodeURIComponent next cache1 sid f = Ok (fresh, cache2) /\
    fresh `sublist_of` next /\ NoDup (key <$> fresh) /\
    (forall x, x ∈ next -> key x ∈ key <$> fresh <-> key x ∉ key <$> scan) /\
    (forall sid' f', (sid', f') <> (sid, f) -> known cache2 sid' f' = known cache sid' f') /\
    known cache2 sid f = uniq (key <$> scan) /\ cache_ok cache2.
Proof.
  intros H. destruct (rememberFindings_eq now decodeURIComponent cache sid f scan H) as (c1 & E1 & H1 & _ & Hf1).
  destruct (dedupe_eq now' c1 sid f next H1) as (fresh & c2 & E2 & H2 & -> & Hk & _).
  assert (known c1 sid f = uniq (key <$> scan)) as Hk1.
  { apply known_strings. rewrite Hf1, !String.eqb_refl. cbn [andb]. by rewrite jget_jset, String.eqb_refl by apply (entry_of_ok cache sid f H). }
  rewrite Hk1 in *. exists c1, (fresh_of decodeURIComponent (JStr <$> uniq (key <$> scan)) next), c2. split_and!; [done|done| | | | | |done].
  - apply fresh_spec.
  - apply fresh_spec.
  - intros x Hx. destruct (fresh_spec next (JStr <$> uniq (key <$> scan))) as (_ & _ & H3 & H4). split.
    + intros (y & Ey & Hy)%list_elem_of_fmap Hin. apply (H3 y Hy). rewrite <- Ey. apply list_elem_of_fmap. exists (key x). split; [done|]. by apply elem_uniq.
    + intros Hn. destruct (H4 x Hx) as [Hin|?]; [|done]. apply list_elem_of_fmap in Hin as (t & [= Et] & Ht). destruct Hn. rewrite Et. by apply elem_uniq.
  - intros sid' f' Hne. rewrite Hk. unfold known. rewrite Hf1. destruct (String.eqb_spec sid' sid) as [->|_]; [|done].
    destruct (String.eqb_spec f' f) as [->|_]; [done|done].
  - by rewrite Hk, Hk1.
Qed.
End Surfacing.

(** ** The newest sessions are kept *)

Section Sorted.
Context {A : Type} (lt : A -> A -> bool) (P : A -> Prop).
Context (irrefl : forall x, P x -> lt x x = false).
Context (trans : forall x y z, P x -> P y -> P z -> lt x y = true -> lt y z = true -> lt x z = true).
(** No element is before an earlier one. *)
Notation in_order := (StronglySorted (fun a b => lt b a = false)).

Lemma insert_in_order x l : P x -> Forall P l -> in_order l -> in_order (insert_by lt x l).
Proof.
  intros Hx. induction l as [|y l IH]; intros HP Hs; cbn [insert_by]; [repeat constructor|].
  apply Forall_cons in HP as [Hy HP]. apply StronglySorted_inv in Hs as [Hs Hall]. destruct (lt x y) eqn:E.
  - constructor; [by constructor|]. apply Forall_cons; split.
    + apply not_true_iff_false. intros E'. pose proof (trans x y x Hx Hy Hx E E') as H. by rewrite irrefl in H.
    + rewrite Forall_forall in Hall, HP |- *. intros z Hz. apply not_true_iff_false. intros E'.
      pose proof (trans z x y (HP z Hz) Hx Hy E' E) as H. by rewrite Hall in H.
  - constructor; [by apply IH|]. rewrite Forall_forall in Hall |- *. intros z [->|Hz]%insert_by_elem; [done|by apply Hall].
Qed.

Lemma sort_in_order l : Forall P l -> in_order (sort_by lt l).
Proof.
  unfold sort_by. assert (forall acc, Forall P acc -> in_order acc -> Forall P l -> in_order (foldl (fun acc x => insert_by lt x acc) acc l)) as H.
  { induction l as [|x l IH]; intros acc Ha Hs Hl; cbn [foldl]; [done|]. apply Forall_cons in Hl as [Hx Hl]. apply IH; [|by apply insert_in_order|done].
    rewrite Forall_forall in *. intros z [->|Hz]%insert_by_elem; [done|by apply Ha]. }
  intros Hl. by apply H; [|constructor|].
Qed.
End Sorted.

Lemma in_order_split {A} (R : A -> A -> Prop) l1 l2 x y : StronglySorted R (l1 ++ l2) -> x ∈ l1 -> y ∈ l2 -> R x y.
Proof.
  induction l1 as [|z l1 IH]; [by intros _ ?%not_elem_of_nil|]. intros [Hs Hall]%StronglySorted_inv [->|Hx]%elem_of_cons Hy; [|by apply IH].
  rewrite Forall_forall in Hall. apply Hall, elem_of_app. by right.
Qed.

Definition stamped (p : string * js) : Prop := exists z, p.2 = int z.
Lemma newer_order l : Forall stamped l -> StronglySorted (fun a b => newer b a = false) (sort_by newer l).
Proof.
  apply sort_in_order.
  - intros [? ?] [z Hz]. unfold newer. cbn [snd] in *. rewrite Hz. cbn [to_num]. rewrite num_ltb_int. apply Z.ltb_irrefl.
  - intros [? ?] [? ?] [? ?] [a Ha] [b Hb] [c Hc]. unfold newer. cbn [snd] in *. rewrite Ha, Hb, Hc. cbn [to_num]. rewrite !num_ltb_int, !Z.ltb_lt. lia.
Qed.

Lemma collect_fresh (g : string -> js) ids : NoDup ids -> forall acc, NoDup (keys acc ++ ids) ->
  foldl (fun next id => assoc_set id (g id) next) acc ids = acc ++ ((fun id => (id, g id)) <$> ids).
Proof.
  induction ids as [|id ids IH]; intros Hn acc Ha; cbn [foldl]; [by rewrite app_nil_r|]. apply NoDup_cons in Hn as [_ Hn].
  rewrite assoc_set_fresh.
  - rewrite IH; [by rewrite <- app_assoc|done|]. by rewrite keys_app, <- app_assoc.
  - apply assoc_get_None. intros Hin. apply NoDup_app in Ha as (_ & Hd & _). by apply (Hd _ Hin), elem_of_cons; left.
Qed.

Lemma assoc_get_elem {A} (so : list (string * A)) : NoDup (keys so) -> forall id v, (id, v) ∈ so -> assoc_get id so = Some v.
Proof.
  induction so as [|[k w] so IH]; intros Hn id v Hi; [by apply not_elem_of_nil in Hi|]. apply NoDup_cons in Hn as [Hk Hn]. cbn [assoc_get fst snd].
  apply elem_of_cons in Hi as [[= -> ->]|Hi]; [by rewrite String.eqb_refl|]. destruct (String.eqb_spec id k) as [->|_]; [|by apply IH].
  destruct Hk. apply list_elem_of_fmap. by exists (k, v).
Qed.

(** What [collect_sessions] keeps. *)
Lemma collect_spec so : NoDup (keys so) -> Forall (fun id => exists z, updated_at (JObj so) id = int z) (keys so) -> exists kept,
  collect_sessions (JObj [("version", int 1); ("sessions", JObj so)]) = JObj [("version", int 1); ("sessions", JObj kept)] /\
  length kept = (length so `min` 8)%nat /\ NoDup (keys kept) /\ (forall id v, (id, v) ∈ kept -> assoc_get id so = Some v) /\ (length so <= 8 -> kept = so)%nat /\
  (forall id id' a b, id ∈ keys kept -> id' ∈ keys so -> id' ∉ keys kept ->
     updated_at (JObj so) id = int a -> updated_at (JObj so) id' = int b -> b <= a).
Proof.
  intros Hn Hst. unfold collect_sessions. change ((JObj [("version", int 1); ("sessions", JObj so)]).["sessions"]) with (JObj so).
  change (JObj so ||? JObj []) with (JObj so). cbn [own_props]. unfold CACHE_MAX_SESSIONS. destruct (Nat.ltb_spec 8 (length so)) as [Hl|Hl].
  2: { exists so. split_and!; [done|lia|done|by apply assoc_get_elem|done|by intros]. }
  set (pairs := (fun id => (id, updated_at (JObj so) id)) <$> keys so).
  assert (newest_ids (JObj so) = (take 8 (sort_by newer pairs)).*1) as Hids by done.
  assert (pairs.*1 = keys so) as Hfst by (unfold pairs; rewrite <- list_fmap_compose; by apply list_fmap_id).
  pose proof (sort_by_perm newer pairs) as Hp. assert ((sort_by newer pairs).*1 ≡ₚ keys so) as Hp1 by (by rewrite <- Hfst, Hp).
  assert ((sort_by newer pairs).*1 = newest_ids (JObj so) ++ (drop 8 (sort_by newer pairs)).*1) as Happ by (by rewrite Hids, <- fmap_app, take_drop).
  assert (NoDup (newest_ids (JObj so))) as Hnd. { rewrite Happ in Hp1. rewrite <- Hp1 in Hn. by apply NoDup_app in Hn as (? & _ & _). }
  rewrite collect_fresh by done. cbn [app]. set (kept := (fun id => (id, (JObj so).[id])) <$> newest_ids (JObj so)).
  assert (keys kept = newest_ids (JObj so)) as Hk by (unfold kept, keys; rewrite <- list_fmap_compose; by apply list_fmap_id).
  exists kept. split_and!; [done| |by rewrite Hk| |lia|].
  - unfold kept. rewrite length_fmap, Hids, length_fmap, length_take, (Permutation_length Hp). unfold pairs, keys. rewrite !length_fmap. lia.
  - intros id v (i & [= -> ->] & Hi)%list_elem_of_fmap. assert (i ∈ keys so) as Hin by (rewrite <- Hp1, Happ; apply elem_of_app; by left).
    cbn [jget]. destruct (assoc_get i so) eqn:E; [done|]. by apply assoc_get_None in E.
  - intros id id' a b Hi Hi' Hni Ha Hb. rewrite Hk in Hi, Hni.
    assert (Forall stamped pairs) as Hs. { apply Forall_fmap. eapply Forall_impl; [exact Hst|]. intros x [z Hz]. by exists z. }
    apply newer_order in Hs. rewrite <- (take_drop 8 (sort_by newer pairs)) in Hs.
    assert ((id, updated_at (JObj so) id) ∈ take 8 (sort_by newer pairs)) as H1.
    { rewrite Hids in Hi. apply list_elem_of_fmap in Hi as ([i w] & Ei & Hi). cbn in Ei. subst i. assert ((id, w) ∈ pairs) as Hw.
      { rewrite <- Hp. rewrite <- (take_drop 8 (sort_by newer pairs)). apply elem_of_app. by left. }
      apply list_elem_of_fmap in Hw as (i & [= <- ->] & _). done. }
    assert ((id', updated_at (JObj so) id') ∈ drop 8 (sort_by newer pairs)) as H2.
    { assert ((id', updated_at (JObj so) id') ∈ sort_by newer pairs) as H2. { rewrite Hp. apply list_elem_of_fmap. by exists id'. }
      rewrite <- (take_drop 8 (sort_by newer pairs)) in H2. apply elem_of_app in H2 as [H2|H2]; [|done]. destruct Hni. rewrite Hids.
      apply list_elem_of_fmap. by exists (id', updated_at (JObj so) id'). }
    pose proof (in_order_split _ _ _ _ _ Hs H1 H2) as H. unfold newer in H. cbn [snd] in H. rewrite Ha, Hb in H. cbn [to_num] in H.
    rewrite num_ltb_int, Z.ltb_ge in H. done.
Qed.

Lemma ensure_excludes_ok cwd0 cwd s : exists r s', ensureHookGitExcludes cwd0 cwd s = (Ok r, s').
Proof.
  assert (exists r, (ensureHookGitExcludes cwd0 cwd s).1 = Ok r) as [r Hr] by (apply attempt_ok; intros e s'; by eexists).
  destruct (ensureHookGitExcludes cwd0 cwd s) as [x s']. cbn [fst] in Hr. subst x. by exists r, s'.
Qed.

Lemma write_compact_read p v s : parsed v -> is_dir p s = false -> exists s1,
  writeFileSync p (json_stringify v) s = (Ok tt, s1) /\ parse_file p s1 = (Ok v, s1).
Proof.
  intros [Hok Hn] Hd. unfold writeFileSync. rewrite Hd. eexists; split; [reflexivity|].
  unfold parse_file, attempt, mbind, eff_bind, readFileSync. cbn [f_text set_text]. rewrite lookup_insert_eq.
  unfold json_stringify. by rewrite parse_print, Hn.
Qed.

(** What the hook remembers survives the process: a cache written by [persistCache] is read back by
    [readCache] as it was when it has at most eight sessions; of a longer one eight sessions are read back
    unchanged, and none of the sessions left out was updated after one that was kept. *)
Theorem newest_sessions_survive cwd0 cwd so s :
  parsed (JObj so) -> Forall (fun id => exists z, updated_at (JObj so) id = int z) (keys so) ->
  is_dir (getCachePath cwd) (mkdirp (dirname (getCachePath cwd)) (ensureHookGitExcludes cwd0 cwd s).2).2 = false ->
  exists s1 kept,
    persistCache cwd0 cwd (JObj [("version", int 1); ("sessions", JObj so)]) s = (Ok true, s1) /\
    readCache cwd s1 = (Ok (JObj [("version", int 1); ("sessions", JObj kept)]), s1) /\
    length kept = (length so `min` 8)%nat /\ (forall id v, (id, v) ∈ kept -> assoc_get id so = Some v) /\ (length so <= 8 -> kept = so)%nat /\
    (forall id id' a b, id ∈ keys kept -> id' ∈ keys so -> id' ∉ keys kept ->
       updated_at (JObj so) id = int a -> updated_at (JObj so) id' = int b -> b <= a).
Proof.
  intros Hp Hst Hd. apply parsed_obj in Hp as [Hn Hv]. destruct (collect_spec so Hn Hst) as (kept & Ec & Hlen & Hnk & Hsub & Hsame & Hnew).
  assert (parsed (JObj [("version", int 1); ("sessions", JObj kept)])) as Hpc.
  { apply parsed_obj. split; [apply (bool_decide_unpack _); vm_compute; exact I|]. repeat apply Forall_cons_2; [done| |constructor]. split; [done|].
    apply parsed_obj. split; [done|]. apply Forall_forall. intros [id v] Hin. apply Hsub, assoc_get_In, list_elem_of_In in Hin.
    rewrite Forall_forall in Hv. by apply (Hv _ Hin). }
  destruct (ensure_excludes_ok cwd0 cwd s) as (r & s2 & Ee). rewrite Ee in Hd. cbn [snd] in Hd.
  destruct (mkdirp (dirname (getCachePath cwd)) s2) as [x s3] eqn:Em. assert (x = Ok tt) as -> by (by injection Em as <- _).
  destruct (write_compact_read _ _ s3 Hpc Hd) as (s1 & Ew & Er).
  exists s1, kept. split; [|split; [|done]].
  - unfold persistCache, attempt, mbind, eff_bind. rewrite Ec, Ee. cbn beta iota. rewrite Em. cbn beta iota. by rewrite Ew.
  - unfold readCache, mbind, eff_bind. by rewrite Er.
Qed.

(** A project directory with a [$] in its name: the replacement text is read as a pattern, so the second
    run rewrites the block under another name and the third adds a new one. *)
Example dollar_directory :
  let once := hook_exclude_text "a$$b" "" in
  hook_exclude_text "a$$b" once <> once /\ (slen once < slen (hook_exclude_text "a$$b" (hook_exclude_text "a$$b" once)))%nat.
Proof. split; [by vm_compute|]. apply Nat.ltb_lt. vm_compute. reflexivity. Qed.

Definition demo_sessions : list (string * js) :=
  (fun n => ("session-" +:+ print_Z (Z.of_nat n), JObj [("updatedAt", int (Z.of_nat n)); ("files", JObj [])])) <$> seq 1 9.
Lemma newest_sessions_survive_witness : exists s1 kept,
  persistCache "/p" "/p" (JObj [("version", int 1); ("sessions", JObj demo_sessions)]) demo_checkout = (Ok true, s1) /\
  readCache "/p" s1 = (Ok (JObj [("version", int 1); ("sessions", JObj kept)]), s1) /\ length kept = 8%nat.
Proof.
  destruct (newest_sessions_survive "/p" "/p" demo_sessions demo_checkout) as (s1 & kept & H1 & H2 & H3 & _).
  - split; [apply json_okb_sound; vm_compute; reflexivity|vm_compute; reflexivity].
  - repeat constructor; by eexists.
  - vm_compute. reflexivity.
  - exists s1, kept. by split_and!.
Defined.

Definition demo_cache : js :=
  JObj [("version", int 1); ("sessions", JObj [("s", JObj [("updatedAt", int 1); ("files", JObj [("/p/a.css", JObj [("editCount", int 1); ("findings", strings ["side-tab:3"])])])])])].
Definition no_decoding (_ : string) : option string := None.
Definition demo_hit (rule : string) (line : Z) : js := JObj [("antipattern", JStr rule); ("line", int line)].
Lemma memory_is_the_last_scan_witness : exists cache1 fresh cache2,
  rememberFindings 2 no_decoding demo_cache "s" "/p/a.css" [demo_hit "tiny-text" 5] = Ok cache1 /\
  dedupeAgainstCache 3 no_decoding [demo_hit "side-tab" 3; demo_hit "tiny-text" 5] cache1 "s" "/p/a.css" = Ok (fresh, cache2) /\
  findingCacheKey no_decoding (demo_hit "side-tab" 3) ∈ findingCacheKey no_decoding <$> fresh.
Proof.
  destruct (memory_is_the_last_scan no_decoding 2 3 demo_cache "s" "/p/a.css" [demo_hit "tiny-text" 5] [demo_hit "side-tab" 3; demo_hit "tiny-text" 5])
    as (c1 & fresh & c2 & H1 & H2 & _ & _ & H & _).
  - split; [done|]. eexists; split; [reflexivity|]. apply Forall_cons_2; [|constructor]. split; [done|]. eexists; split; [reflexivity|].
    apply Forall_cons_2; [|constructor]. split; [done|]. by exists ["side-tab:3"].
  - exists c1, fresh, c2. split_and!; [done..|]. apply H; [by left|]. apply (bool_decide_unpack _). vm_compute. exact I.
Defined.
