(* ===== verification/HookEvent.v ===== *)
(** * From a tool event to the files to scan ([hook-lib.mjs])

    The events of the four harnesses brought to one shape, the files an event names, and
    the stylesheets scanned with them. [realpathSync] is the system's: [None] is an error. The memo of [canonicalPath]
    only saves calls and is left out: the hook is a process per event. *)
From S2P Require Import Prelude JsString JsValue Json JsRegex NodePath Vocabulary EventValidation PollLanes Files IgnoreConfig TemplateExtensions HookConfig HookCache.
Local Open Scope Z_scope.

Definition plain_js (v : js) : bool := truthy v && is_objecty v && negb (is_array v).
Definition nonempty_string (v : js) : bool := is_string v && truthy v.

(** ** The harness *)

Definition resolveHarness (env event : js) : string :=
  let explicit := opt_get env "IMPECCABLE_HOOK_HARNESS" in
  if explicit === JStr "cursor" then "cursor"
  else if explicit === JStr "github" then "github"
  else if (explicit === JStr "claude") || (explicit === JStr "codex") then "claude"
  else if truthy event && is_objecty event && (is_string event.["toolName"] || negb (is_undef event.["toolArgs"]))
          && is_undef event.["tool_name"] && is_undef event.["tool_input"] then "github"
  else if nonempty_string (opt_get event "conversation_id") then "cursor"
  else "claude".

Definition parseGitHubToolArgs (toolArgs : js) : js :=
  if plain_js toolArgs then toolArgs else
  match toolArgs with
  | JStr s => if String.eqb (trim s) "" then JObj [] else
              match json_parse s with Some parsed => if plain_js parsed then parsed else JObj [] | None => JObj [] end
  | _ => JObj []
  end.

Definition APPLY_PATCH_MARKER : re :=
  (lit "*** " ⋅ (lit "Begin Patch" ∥ lit "Add File:" ∥ lit "Update File:" ∥ lit "Delete File:"))%re.
Definition looksLikeApplyPatch (rawArgs : js) : bool :=
  match rawArgs with
  | JStr s => re_test APPLY_PATCH_MARKER s &&
              match json_parse s with Some parsed => negb (truthy parsed && is_objecty parsed) | None => true end
  | _ => false
  end.
Definition patch_in (v : js) : js := v.["patch"] ||? v.["input"] ||? v.["command"] ||? JStr "".
Definition applyPatchText (rawArgs : js) : js :=
  match rawArgs with
  | JStr s => if re_test APPLY_PATCH_MARKER s then rawArgs else patch_in (parseGitHubToolArgs rawArgs)
  | _ => if plain_js rawArgs then patch_in rawArgs else JStr ""
  end.

Section Process.
(** [process.cwd()], [process.env.CURSOR_PROJECT_DIR]. *)
Context (cwd0 : string) (CURSOR_PROJECT_DIR : js).

Definition envProjectDir (fallback : js) : js := if nonempty_string CURSOR_PROJECT_DIR then CURSOR_PROJECT_DIR else fallback.
Definition resolveProjectCwd (event fallback : js) : js :=
  opt_get event "cwd"
  ||? (match opt_get event "workspace_roots" with JArr l => (JArr l).["0"] | _ => JBool false end)
  ||? envProjectDir fallback ||? fallback.

Definition normalizeGitHubEvent (event projectCwd : js) : js :=
  let cwd := event.["cwd"] ||? envProjectDir projectCwd ||? projectCwd in
  let sessionId := event.["sessionId"] ||? event.["session_id"] ||? JStr "unknown" in
  let toolName := event.["toolName"] ||? event.["tool_name"] ||? JNull in
  let toolInput := if truthy event.["tool_input"] && is_objecty event.["tool_input"] then spread event.["tool_input"] else JObj [] in
  let rawArgs := event.["toolArgs"] in
  let '(normalizedToolName, toolInput) :=
    if (toolName === JStr "apply_patch") || looksLikeApplyPatch rawArgs then
      let patch := applyPatchText rawArgs in
      if truthy patch then (JStr "apply_patch", toolInput.["command" := patch]) else (toolName, toolInput)
    else
      let args := parseGitHubToolArgs rawArgs in
      let filePath := args.["path"] ||? args.["file_path"] ||? args.["filePath"] ||? args.["target_file"] in
      (toolName, if nonempty_string filePath then toolInput.["file_path" := filePath] else toolInput) in
  spread_with event [("cwd", cwd); ("session_id", sessionId); ("tool_name", normalizedToolName); ("tool_input", toolInput)].

Definition normalizeHookEvent (event projectCwd : js) (harness : string) : js :=
  if negb (truthy event && is_objecty event) then event
  else if String.eqb harness "github" then normalizeGitHubEvent event projectCwd
  else if negb (String.eqb harness "cursor") then event
  else
    let cwd := event.["cwd"] ||? (match event.["workspace_roots"] with JArr l => (JArr l).["0"] | _ => JBool false end)
               ||? envProjectDir projectCwd ||? projectCwd in
    let sessionId := event.["session_id"] ||? event.["conversation_id"] ||? JStr "unknown" in
    let ti := if truthy event.["tool_input"] && is_objecty event.["tool_input"] then event.["tool_input"] else JObj [] in
    let filePath := ti.["file_path"] ||? ti.["path"] ||? event.["file_path"] in
    if truthy filePath
    then spread_with event [("cwd", cwd); ("session_id", sessionId); ("tool_input", spread_with ti [("file_path", filePath)])]
    else spread_with event [("cwd", cwd); ("session_id", sessionId)].

(** ** The files an event names *)

(** The expression has the flag [m] and [.] matches no line terminator: each line is matched on its own. *)
Definition APPLY_PATCH_FILE_RE : re :=
  (RBol ⋅ lit "*** " ⋅ (lit "Update" ∥ lit "Add") ⋅ lit " File: " ⋅ RGroup 1 (rplus rdot) ⋅ REol)%re.
Definition text_lines (s : string) : list string := mjoin (split_char CR <$> split_char NL s).
Definition parseApplyPatchPaths (command : js) (projectCwd : string) : list string :=
  match command with
  | JStr s =>
    omap (fun line => m ← re_exec APPLY_PATCH_FILE_RE line;
                      let p := trim (group_or "" m 1) in
                      if String.eqb p "" then None else Some (if is_absolute p then p else resolve (resolve cwd0 projectCwd) p)) (text_lines s)
  | _ => []
  end.

Definition add_path (out : list string) (filePath : js) : list string :=
  match filePath with
  | JStr p => if String.eqb p "" || bool_decide (p ∈ out) then out else out ++ [p]
  | _ => out
  end.
Definition resolveTargetFiles (event : js) (projectCwd : string) : list string :=
  let ti := opt_get event "tool_input" in
  let out := if (opt_get event "tool_name" === JStr "apply_patch") && truthy ti && is_string ti.["command"]
             then foldl add_path [] (JStr <$> parseApplyPatchPaths ti.["command"] projectCwd) else [] in
  let out := if truthy ti then add_path out ti.["file_path"] else out in
  let out := if truthy ti then add_path out ti.["path"] else out in
  add_path out (opt_get event "file_path").

(** ** Inside the project *)

Definition UI_CODE_EXTS : list string := [".jsx"; ".tsx"; ".vue"; ".svelte"; ".astro"].
Definition STYLE_EXTS : list string := [".css"; ".scss"; ".sass"; ".less"].
Definition CO_SCAN_STYLE_NAMES : list string :=
  ["styles.css"; "styles.scss"; "styles.sass"; "styles.less"; "index.css"; "index.scss"; "index.sass"; "index.less";
   "global.css"; "global.scss"; "global.sass"; "global.less"; "globals.css"; "globals.scss"; "globals.sass"; "globals.less"].
Definition MAX_SCAN_TARGETS : nat := 6.

(** [path.relative] of any two paths. *)
Definition path_relative (from to : string) : string := relative (resolve cwd0 from) (resolve cwd0 to).
Definition isInsideProject (filePath projectCwd : string) : bool :=
  if String.eqb filePath "" || String.eqb projectCwd "" || hasPathTraversal (JStr filePath) then false else
  let rel := path_relative projectCwd filePath in
  String.eqb rel "" || (negb (starts_with ".." rel) && negb (is_absolute rel)).

Section Canonical.
Context (realpathSync : string -> option string).
(** The loop of [canonicalPath]. *)
Fixpoint canonical_from (fuel : nat) (resolved dir : string) (tail : list string) : string :=
  match fuel with
  | O => resolved
  | S fuel =>
    match realpathSync dir with
    | Some real => match tail with [] => real | _ => path_join (real :: tail) end
    | None =>
      let parent := dirname dir in
      if String.eqb parent dir then resolved else canonical_from fuel resolved parent (basename dir :: tail)
    end
  end.
Definition canonicalPath (p : string) : string :=
  let resolved := resolve cwd0 p in canonical_from (S (slen resolved)) resolved resolved [].
Definition isScanTargetInsideProject (filePath projectCwd : string) : bool :=
  if String.eqb filePath "" || String.eqb projectCwd "" then false
  else isInsideProject (canonicalPath filePath) (canonicalPath projectCwd).
End Canonical.

(** ** Stylesheets scanned with a component *)

Definition STATIC_STYLE_IMPORT_RE : re :=
  (liti "import" ⋅ rplus rspace
   ⋅ ropt (rplus (RClass (fun c => is_word c || is_space c || one_of "*{},$" c)) ⋅ rplus rspace ⋅ liti "from" ⋅ rplus rspace)
   ⋅ RClass is_quote ⋅ RGroup 1 (rplus (RClass (fun c => negb (is_quote c))) ⋅ lit "." ⋅ any_of ["css"; "scss"; "sass"; "less"]) ⋅ RClass is_quote)%re.
Definition parseStaticStyleImports (content fromFile projectCwd : string) : list string :=
  let dir := dirname fromFile in
  omap (fun m =>
    let p := trim (group_or "" m 1) in
    if String.eqb p "" then None else
    let p := if starts_with "." p then resolve (resolve cwd0 dir) p else if is_absolute p then p else resolve (resolve cwd0 projectCwd) p in
    if isInsideProject p projectCwd then Some p else None) (re_match_all STATIC_STYLE_IMPORT_RE content).

Definition coLocatedStylesheets (filePath : string) (s : fsys) : list string :=
  let dir := dirname filePath in
  let base := stake (slen (basename filePath) - slen (extname filePath)) (basename filePath) in
  let candidates := (fun e => path_join [dir; base +:+ e]) <$> [".css"; ".module.css"; ".scss"; ".module.scss"; ".sass"; ".module.sass"; ".less"; ".module.less"] in
  bfilter (fun p => existsSync p s) (uniq (candidates ++ ((fun name => path_join [dir; name]) <$> CO_SCAN_STYLE_NAMES))).

(** ** The targets *)

Definition normalizeTarget (baseCwd p : string) : string :=
  if hasPathTraversal (JStr p) then p else if is_absolute p then p else resolve (resolve cwd0 baseCwd) p.
(** [seen] holds the paths of [ordered]. *)
Definition add_target (baseCwd : string) (ordered : list string) (p : string) : list string :=
  if (MAX_SCAN_TARGETS <=? length ordered)%nat then ordered else
  let abs := normalizeTarget baseCwd p in
  if bool_decide (abs ∈ ordered) then ordered else ordered ++ [abs].
Definition or_cwd (projectCwd : string) : string := if String.eqb projectCwd "" then cwd0 else projectCwd.
Definition normalizeScanTargets (primaryTargets : list string) (projectCwd : string) : list string :=
  foldl (add_target (or_cwd projectCwd)) [] primaryTargets.

(** The body of the loop of [expandScanTargets] over the primary files. *)
Definition expand_target (projectCwd : string) (s : fsys) (ordered : list string) (p : string) : list string :=
  let baseCwd := or_cwd projectCwd in
  if (MAX_SCAN_TARGETS <=? length ordered)%nat then ordered
  else if negb (isInsideProject p baseCwd) then ordered
  else
    let e := to_lower (extname p) in
    if has STYLE_EXTS e || negb (has UI_CODE_EXTS e) then ordered else
    let content := match (readFileSync p s).1 with Ok t => t | Throw _ => "" end in
    let ordered := foldl (add_target baseCwd) ordered (parseStaticStyleImports content p projectCwd) in
    foldl (add_target baseCwd) ordered (coLocatedStylesheets p s).
Definition expandScanTargets (primaryTargets : list string) (projectCwd : string) (s : fsys) : list string :=
  let ordered := normalizeScanTargets primaryTargets projectCwd in
  foldl (expand_target projectCwd s) ordered ordered.
End Process.

(** * Theorems *)

Section Targets.
Context (cwd0 projectCwd : string).

Definition grows (l l' : list string) : Prop := l `prefix_of` l' /\ (NoDup l -> NoDup l') /\ (length l <= 6 -> length l' <= 6)%nat.
Lemma targets_grow_refl l : grows l l.
Proof. by split_and!. Qed.
Lemma targets_grow_trans l1 l2 l3 : grows l1 l2 -> grows l2 l3 -> grows l1 l3.
Proof. intros (? & ? & ?) (? & ? & ?). split_and!; [by etrans|by auto|by auto]. Qed.
Lemma targets_grow_fold {A} (f : list string -> A -> list string) xs : (forall l x, grows l (f l x)) -> forall l, grows l (foldl f l xs).
Proof. intros Hf. induction xs as [|x xs IH]; intros l; cbn [foldl]; [apply targets_grow_refl|]. eapply targets_grow_trans; [apply Hf|apply IH]. Qed.
Lemma grows_add base l p : grows l (add_target cwd0 base l p).
Proof.
  unfold add_target, MAX_SCAN_TARGETS. destruct (Nat.leb_spec 6 (length l)); [apply targets_grow_refl|]. cbv zeta.
  destruct (bool_decide_reflect (normalizeTarget cwd0 base p ∈ l)) as [|Hn]; [apply targets_grow_refl|]. split_and!.
  - by eexists.
  - intros Hd. apply NoDup_app. split_and!; [done| |by apply NoDup_singleton]. by intros x Hx ->%list_elem_of_singleton.
  - intros _. rewrite length_app. cbn. lia.
Qed.

(** A tool event never makes the hook scan more than six files: the targets are at most six, none is listed
    twice, and they start with the files the event names, before any stylesheet that is added. *)
Theorem scan_targets_bounded primaryTargets s :
  let targets := expandScanTargets cwd0 primaryTargets projectCwd s in
  (length targets <= 6)%nat /\ NoDup targets /\ normalizeScanTargets cwd0 primaryTargets projectCwd `prefix_of` targets.
Proof.
  cbv zeta. unfold expandScanTargets. assert (grows [] (normalizeScanTargets cwd0 primaryTargets projectCwd)) as (_ & Hn & Hl) by (apply targets_grow_fold; intros; apply grows_add).
  set (l0 := normalizeScanTargets _ _ _) in *.
  assert (forall xs l, grows l (foldl (expand_target cwd0 projectCwd s) l xs)) as H.
  { intros xs. apply targets_grow_fold. intros l p. unfold expand_target. repeat case_match; try apply targets_grow_refl.
    all: eapply targets_grow_trans; apply (targets_grow_fold (A:=string)); intros; apply grows_add. }
  destruct (H l0 l0) as (Hp & Hd & Hlen). split_and!; [apply Hlen, Hl; cbn; lia|apply Hd, Hn; constructor|done].
Qed.
End Targets.
