(* ===== verification/HookText.v ===== *)
(** * What the hook says ([hook-lib.mjs], the messages)

    The reminder with the findings, cut to the limits of the configuration, the
    acknowledgements, and the envelope of each harness. Two characters of the messages
    are outside Latin-1 and are parameters of the model: the ellipsis and the dash. *)
From S2P Require Import Prelude JsString JsValue Json JsRegex NodePath Vocabulary EventValidation PollLanes Files IgnoreConfig TemplateExtensions HookConfig HookCache HookEvent.
Local Open Scope Z_scope.

(** ** Limits *)

(** [Math.max(a, b)]. *)
Definition num_max (a b : num) : num :=
  match a, b with NNaN, _ | _, NNaN => NNaN | _, _ => if num_ltb a b then b else a end.
(** The end of [slice(0, n)] on [len] elements. *)
Definition slice_end (n : num) (len : nat) : nat :=
  let from_Z z := if z <? 0 then (len - Z.to_nat (- z))%nat else Z.to_nat z in
  match n with
  | NInt z => from_Z z
  | NFrac m d => from_Z (Z.quot m (Zpos d))
  | NInf neg => if neg then O else len
  | NNaN => O
  end.

Definition limits_of (config : js) : js := opt_get config "limits" ||? DEFAULT_LIMITS.
Definition max_findings (config : js) : num := num_max (NInt 1) (to_num ((limits_of config).["maxFindings"] ||? DEFAULT_LIMITS.["maxFindings"])).
Definition max_chars (config : js) : num := num_max (NInt 500) (to_num ((limits_of config).["maxChars"] ||? DEFAULT_LIMITS.["maxChars"])).

Definition count (n : nat) : string := print_Z (Z.of_nat n).

Section Text.
Context (cwd0 : string) (decodeURIComponent : string -> option string) (ELLIPSIS EM_DASH : ascii).

(** ** One finding *)

Definition quoteCommandArg (value : string) : string :=
  let text := trim value in
  if negb (String.eqb text "") && sforall (fun c => is_alpha c || is_digit c || one_of "._:-" c) text then text
  else s_dq +:+ string_of_list_ascii (mjoin ((fun c =>
    if Ascii.eqb c "\" then ["\"; "\"]%char else if Ascii.eqb c DQ then ["\"%char; DQ] else [c]) <$> list_ascii_of_string text)) +:+ s_dq.

Definition formatFindingIgnoreCommand (finding : js) : string :=
  if negb (truthy finding && is_objecty finding) then "" else
  let rule := normalizeIgnoreRule finding.["antipattern"] in
  if String.eqb rule "" then "" else
  if String.eqb (extractFindingIgnoreValue decodeURIComponent finding) "" then "" else
  let value := extractFindingIgnoreValueRaw decodeURIComponent finding rule in
  IMPECCABLE_COMMAND +:+ " hooks ignore-value " +:+ rule +:+ " " +:+ quoteCommandArg value +:+ " --shared --reason "
  +:+ quoteCommandArg ("User confirmed " +:+ value +:+ " is intentional").

(** [(v || '').trim()]. *)
Definition trim_of (v : js) : result string :=
  match v ||? JStr "" with JStr s => Ok (trim s) | _ => Throw (error "trim is not a function") end.
Definition TRAILING_DOTS : re := (rplus (lit ".") ⋅ rstar rspace ⋅ REol)%re.

Definition formatFindingLine (f : js) : result string :=
  let prefix := if truthy f.["line"] && num_ltb (NInt 0) (to_num f.["line"]) then "- L" +:+ to_str f.["line"] else "-" in
  desc ← trim_of f.["description"];
  name ← trim_of f.["name"];
  let nameSegment := if String.eqb name "" then "" else re_replace TRAILING_DOTS (fun _ => "") name +:+ "." in
  let ignoreCommand := formatFindingIgnoreCommand f in
  let ignoreSegment := if String.eqb ignoreCommand "" then ""
    else " If the user explicitly confirms this value is intentional: `" +:+ ignoreCommand +:+ "`." in
  Ok (trim (collapse_spaces false (prefix +:+ " [" +:+ to_str f.["antipattern"] +:+ "] " +:+ nameSegment +:+ " " +:+ desc +:+ ignoreSegment))).

Definition relativize (filePath cwd : string) : string :=
  let rel := path_relative cwd0 cwd filePath in
  if String.eqb rel "" || starts_with ".." rel then filePath else rel.

(** ** Cutting a message to a number of characters *)

(** The loop of [clampToBudget] and of [clampGroupedToBudget]: the last line goes until the text fits, the first one
    stays. [popped]: a line has gone. *)
Fixpoint drop_lines (assemble : list string -> bool -> string) (maxChars : num) (fuel : nat) (working : list string) (popped : bool) : list string * bool :=
  match fuel with
  | O => (working, popped)
  | S fuel =>
    if num_ltb maxChars (NInt (js_length (assemble working popped))) && (1 <? length working)%nat
    then drop_lines assemble maxChars fuel (removelast working) true
    else (working, popped)
  end.
Definition clamp_with (assemble : list string -> bool -> string) (lines : list string) (maxChars : num) : string :=
  let '(working, popped) := drop_lines assemble maxChars (length lines) lines false in
  let assembled := assemble working popped in
  if num_ltb maxChars (NInt (js_length assembled))
  then stake (slice_end (num_add maxChars (NInt (-1))) (slen assembled)) assembled +:+ String ELLIPSIS ""
  else assembled.

Definition and_more : string := "... and more (see " +:+ IMPECCABLE_COMMAND +:+ " audit).".
Definition assemble_text (header : string) (more : option string) (footer : string) (lines : list string) : string :=
  join s_nl (header :: lines ++ option_list more ++ [""; footer]).
Definition clampToBudget (header : string) (lines : list string) (more : option string) (footer : string) (maxChars : num) : string :=
  clamp_with (fun lines popped => assemble_text header (if popped then Some and_more else more) footer lines) lines maxChars.
Definition clampGroupedToBudget (header : string) (lines : list string) (footer : string) (maxChars : num) : string :=
  clamp_with (fun lines omitted => assemble_text header (if omitted then Some and_more else None) footer lines) lines maxChars.

(** ** The reminder *)

Definition directiveFooter (display : string) (grouped : bool) : string :=
  let target := if grouped then "<path>" else quoteCommandArg display in
  let fileIgnoreGuidance :=
    "run `" +:+ IMPECCABLE_COMMAND +:+ " hooks ignore-value <id> " +:+ s_dq +:+ "*" +:+ s_dq +:+ " --file " +:+ target
    +:+ "` to scope just that rule to the file, or `" +:+ IMPECCABLE_COMMAND +:+ " hooks ignore-file " +:+ target
    +:+ "` only when the whole file is out of scope for design review (a fixture, a generated artifact, a deliberate demo)" in
  join s_nl [
    "Handle these before finalizing: fix findings that are real design problems, or explicitly classify contextually intentional findings as false positives. Acknowledge what you changed or why you are leaving a finding unchanged.";
    "";
    "Use context judgment before editing. A finding is not automatically a defect; literal or domain-appropriate motion, intentional demos or fixtures, documentation of bad design, and user-confirmed choices can be valid as-is.";
    "";
    "Do not change intentional design just to satisfy the hook, and do not silence a real finding with an inline ignore comment to skip fixing it. Suppress a finding only after the user explicitly confirms it is intentional. Prefer a config ignore (one reviewable place, the commands below); reach for an inline `impeccable-disable <rule>` comment only when the waiver must travel with a file that leaves the repo, such as an exported or standalone document. Prefer the narrowest persisted exception: run the exact `"
    +:+ IMPECCABLE_COMMAND +:+ " hooks ignore-value ... --shared` command shown next to a value-specific finding. For `overused-font`, use `ignore-value` for a specific font and use `"
    +:+ IMPECCABLE_COMMAND +:+ " hooks ignore-rule overused-font --all-values` only when the user asks to ignore overused fonts generally. For a finding whose line shows no exact ignore-value command, such as `side-tab`, "
    +:+ fileIgnoreGuidance +:+ "; use `" +:+ IMPECCABLE_COMMAND +:+ " hooks ignore-rule <id>` only when the user asks to suppress the whole non-value-specific rule. Run "
    +:+ IMPECCABLE_COMMAND +:+ " audit for the full pass."].

(** [cwd]: [opts.cwd], which the hook always gives. *)
Definition renderTemplate (findings : list js) (filePath : string) (config : js) (cwd : string) : result string :=
  match findings with
  | [] => Ok ""
  | _ =>
    let display := relativize filePath cwd in
    let total := length findings in
    let shown := take (slice_end (max_findings config) total) findings in
    let remaining := (total - length shown)%nat in
    let header := ENVELOPE_PREFIX +:+ " Design hook findings requiring review in " +:+ display +:+ " (" +:+ count total +:+ " issue(s)):" in
    lines ← mapM formatFindingLine shown;
    let more := if (0 <? remaining)%nat then Some ("... and " +:+ count remaining +:+ " more (see " +:+ IMPECCABLE_COMMAND +:+ " audit).") else None in
    let footer := directiveFooter display false in
    let text := assemble_text header more footer lines in
    Ok (if num_ltb (max_chars config) (NInt (js_length text)) then clampToBudget header lines more footer (max_chars config) else text)
  end.

Record group := Group { g_file : string; g_findings : list js }.
(** The lines of one group, and how many findings are shown after it. *)
Definition group_lines (cwd : string) (cap : num) (acc : list string * nat) (g : group) : result (list string * nat) :=
  let '(lines, shownCount) := acc in
  let display := relativize (g_file g) cwd in
  let shown := take (slice_end (num_max (NInt 0) (num_add cap (NInt (- Z.of_nat shownCount)))) (length (g_findings g))) (g_findings g) in
  shown_lines ← mapM formatFindingLine shown;
  let hidden := (length (g_findings g) - length shown)%nat in
  Ok (lines ++ [display +:+ " (" +:+ count (length (g_findings g)) +:+ " issue(s)):"] ++ shown_lines
        ++ (if (0 <? hidden)%nat then ["- ... " +:+ count hidden +:+ " more in " +:+ display +:+ " (see " +:+ IMPECCABLE_COMMAND +:+ " audit)."] else []),
      (shownCount + length shown)%nat).
Definition renderGroupedTemplate (groups : list group) (config : js) (cwd : string) : result string :=
  match bfilter (fun g => (0 <? length (g_findings g))%nat) groups with
  | [] => Ok ""
  | [g] => renderTemplate (g_findings g) (g_file g) config cwd
  | realGroups =>
    let total := foldr (fun g n => (length (g_findings g) + n)%nat) O realGroups in
    let header := ENVELOPE_PREFIX +:+ " Design hook findings requiring review across " +:+ count (length realGroups) +:+ " files (" +:+ count total +:+ " issue(s)):" in
    '(lines, _) ← foldl (fun acc g => acc ≫= fun acc => group_lines cwd (max_findings config) acc g) (Ok ([], O)) realGroups;
    let footer := directiveFooter "the affected files" true in
    let text := assemble_text header None footer lines in
    Ok (if num_ltb (max_chars config) (NInt (js_length text)) then clampGroupedToBudget header lines footer (max_chars config) else text)
  end.

(** ** Acknowledgements *)

Definition STEER_LINE : string := "That does not mean the design is good: keep following the project design system and the impeccable skill guidance.".
Definition renderCleanAck (filePath cwd : string) : string :=
  ENVELOPE_PREFIX +:+ " Design hook scanned " +:+ relativize filePath cwd +:+ ". No deterministic design-quality issues found. " +:+ STEER_LINE.
Definition renderPendingAck (filePath : string) (knownFindings : list string) (cwd : string) : string :=
  let n := length knownFindings in
  let more := if (3 <? n)%nat then ", +" +:+ count (n - 3) +:+ " more" else "" in
  ENVELOPE_PREFIX +:+ " Design hook scanned " +:+ relativize filePath cwd +:+ ". Still has " +:+ count n +:+ " finding(s) flagged earlier this session ("
  +:+ join ", " (take 3 knownFindings) +:+ more +:+ "). Handle them before finalizing " +:+ String EM_DASH " the previous reminder still applies.".
Definition suppressionNotice (filePath : string) : string :=
  ENVELOPE_PREFIX +:+ " Suppressing further design hints on " +:+ filePath +:+ ". More than " +:+ print_Z EDIT_COUNT_THRESHOLD
  +:+ " edits in this session reached. Run " +:+ IMPECCABLE_COMMAND +:+ " audit to revisit.".

Definition shouldEmitAckForFile (filePath config : js) : bool :=
  if has ACK_EXTS (to_lower (extname (to_str (filePath ||? JStr "")))) then true else
  match matchConfiguredExtension filePath (opt_get config "extensions") with Some e => bool_decide (engine_of e = EngineHtml) | None => false end.

Definition appendDesignSystemNote (text : string) (scanOptions : js) : string :=
  if String.eqb text "" || negb (truthy (opt_get (opt_get scanOptions "designSystem") "mdNewerThanJson")) then text
  else text +:+ s_nl +:+ s_nl +:+ ENVELOPE_PREFIX +:+ " DESIGN.md is newer than .impeccable/design.json. Run " +:+ IMPECCABLE_COMMAND +:+ " document to refresh the design-system sidecar.".

Definition payload (text eventName harness : string) : string :=
  json_stringify
    (if String.eqb harness "cursor" then JObj [("additional_context", JStr text)]
     else if String.eqb harness "github" then JObj [("additionalContext", JStr text)]
     else JObj [("hookSpecificOutput", JObj [("hookEventName", JStr eventName); ("additionalContext", JStr text)])]).
End Text.

(** * Theorems *)

Section Budget.
Context (cwd0 : string) (decodeURIComponent : string -> option string) (ELLIPSIS : ascii).

Lemma max_chars_int config z : (limits_of config).["maxChars"] = int z -> 0 < z -> max_chars config = NInt (Z.max 500 z).
Proof.
  intros E Hz. unfold max_chars. rewrite E. unfold or_else. cbn [truthy]. destruct (Z.eqb_spec z 0); [lia|]. cbn [negb to_num num_max].
  rewrite num_ltb_int. destruct (Z.ltb_spec 500 z); f_equal; lia.
Qed.

Lemma clamp_within assemble lines m : 500 <= m -> js_length (clamp_with ELLIPSIS assemble lines (NInt m)) <= m.
Proof.
  intros Hm. unfold clamp_with. destruct (drop_lines _ _ _ _ _) as [w p]. rewrite num_ltb_int. destruct (Z.ltb_spec m (js_length (assemble w p))) as [Hl|Hl]; [|done].
  unfold js_length in *. rewrite slen_app, slen_stake. cbn [num_add slice_end String.length]. destruct (Z.ltb_spec (m + -1) 0); lia.
Qed.

(** The text of one file, then of several. *)
Lemma template_within findings filePath config cwd text m : max_chars config = NInt m -> 500 <= m ->
  renderTemplate cwd0 decodeURIComponent ELLIPSIS findings filePath config cwd = Ok text -> js_length text <= m.
Proof.
  intros E Hm. destruct findings as [|f fs]; [intros H; apply Ok_inj in H as <-; change (0 <= m); lia|]. unfold renderTemplate. cbv zeta. intros (lines & _ & H)%bind_ok.
  rewrite E in H. apply Ok_inj in H as <-. case_match eqn:El; [by apply clamp_within|]. rewrite num_ltb_int in El. by apply Z.ltb_ge in El.
Qed.

(** The reminder stays within its budget: whatever the findings, the text for one or several files is at most
    [limits.maxChars] characters long (500 when the limit is lower). *)
Theorem reminder_within_budget groups config cwd text z :
  (limits_of config).["maxChars"] = int z -> 0 < z ->
  renderGroupedTemplate cwd0 decodeURIComponent ELLIPSIS groups config cwd = Ok text -> js_length text <= Z.max 500 z.
Proof.
  intros E Hz. pose proof (max_chars_int config z E Hz) as Em. unfold renderGroupedTemplate.
  destruct (bfilter _ groups) as [|g [|g' gs]]; [intros H; apply Ok_inj in H as <-; change (0 <= Z.max 500 z); lia|apply template_within; [done|lia]|]. cbv zeta. intros ([lines n] & _ & H)%bind_ok.
  rewrite Em in H. apply Ok_inj in H as <-. case_match eqn:El; [apply clamp_within; lia|]. rewrite num_ltb_int in El. by apply Z.ltb_ge in El.
Qed.

End Budget.

Definition demo_config : js := JObj [("limits", JObj [("maxFindings", int 5); ("maxChars", int 600); ("maxFileBytes", int 131072)])].
Definition wordy (n : nat) : js :=
  JObj [("antipattern", JStr "tiny-text"); ("line", int (Z.of_nat n)); ("name", JStr "Tiny text."); ("description", JStr "Text below twelve pixels is hard to read.")].
Lemma reminder_within_budget_witness : exists text,
  renderGroupedTemplate "/p" no_decoding "~" [Group "/p/a.css" (wordy <$> seq 1 4); Group "/p/b.css" (wordy <$> seq 1 4)] demo_config "/p" = Ok text /\ js_length text <= 600.
Proof.
  eexists. split; [vm_compute; reflexivity|].
  match goal with |- js_length ?t <= _ =>
    apply (reminder_within_budget "/p" no_decoding "~" [Group "/p/a.css" (wordy <$> seq 1 4); Group "/p/b.css" (wordy <$> seq 1 4)] demo_config "/p" t 600) end;
    [reflexivity|lia|vm_compute; reflexivity].
Defined.
