(* ===== verification/HookRun.v ===== *)
(** * The design hook at work ([hook-lib.mjs]: [runHook], [runStopHook])

    The pass after an edit scans the edited files and reports the findings of the immediate tier that
    it had not reported; the pass at the end of a turn scans every file of the session with
    the full set of rules. The detector is the argument the code injects; the platform of the project
    comes from [context.mjs] and is a parameter. Of the audit record the time, the event and the project are modelled;
    the harness, the session, the file, the counts and the durations, which nothing reads, are a parameter. The
    clock stands still during a run, and the size of a directory is taken as 0. *)
From S2P Require Import Prelude JsString JsValue Json JsRegex JsDate NodePath Vocabulary EventValidation PollLanes Files Globs IgnoreConfig TemplateExtensions HookConfig HookCache HookEvent HookText.
Local Open Scope Z_scope.

(** ** Filtering and tiers *)

Definition isAdvisoryFinding (finding : js) : bool :=
  truthy finding &&
  let id := normalizeIgnoreRule (opt_get finding "antipattern") in
  negb (String.eqb id "") && (has ADVISORY_RULES id || (finding.["advisory"] === JBool true)).

Section Filter.
Context (colorIgnoreKey : string -> string) (decodeURIComponent : string -> option string).
Definition includeAdvisory (config : js) : bool := (opt_get config "advisoryRules" ||? DEFAULT_CONFIG.["advisoryRules"]) === JStr "include".
Definition filterFindings (findings config : js) : result (list js) :=
  match findings with
  | JArr ((_ :: _) as l) =>
    _ ← prop config "ignoreRules";
    ignoreRules ← rules_of config;
    let ignoreValues := normalizeIgnoreValueEntries (opt_get config "ignoreValues" ||? JArr []) in
    Ok (bfilter (fun f =>
      if negb (truthy f && is_objecty f) then false
      else if negb (includeAdvisory config) && isAdvisoryFinding f then false
      else if has ignoreRules (normalizeIgnoreRule f.["antipattern"]) then false
      else negb (isIgnoredFindingValue colorIgnoreKey decodeURIComponent f ignoreValues)) l)
  | _ => Ok []
  end.
End Filter.

Definition is_immediate (f : js) : bool := truthy f && has IMMEDIATE_TIER_RULES (normalizeIgnoreRule f.["antipattern"]).
(** Immediate, deferred. *)
Definition splitFindingsByTier (findings : list js) : list js * list js :=
  foldl (fun '(immediate, deferred) f => if is_immediate f then (immediate ++ [f], deferred) else (immediate, deferred ++ [f])) ([], []) findings.
Definition perEditTieringActive (config : js) (harness : string) : bool :=
  if String.eqb harness "cursor" || String.eqb harness "github" then false
  else negb ((opt_get config "perEditRules" ||? DEFAULT_CONFIG.["perEditRules"]) === JStr "all").

(** ** The detector *)

Record detector := Detector {
  detectText : string -> string -> js -> result js;
  detectHtml : option (string -> js -> result js);
  loadDesignSystemForCwd : option (string -> result js)
}.
Definition designSystemOptions (config : js) (det : detector) (projectCwd : string) : js :=
  if opt_get (opt_get config "designSystem") "enabled" === JBool false then JObj [] else
  match loadDesignSystemForCwd det with
  | Some load => match load projectCwd with Ok d => if truthy d then JObj [("designSystem", d)] else JObj [] | Throw _ => JObj [] end
  | None => JObj []
  end.
(** The findings of a file, and whether the detector threw. *)
Definition detect (det : detector) (scanOptions : js) (configuredExt : option ext_entry) (filePath content : string) : js * bool :=
  let e := to_lower (extname filePath) in
  let useHtmlEngine := match configuredExt with Some c => bool_decide (engine_of c = EngineHtml) | None => String.eqb e ".html" || String.eqb e ".htm" end in
  match (match useHtmlEngine, detectHtml det with
         | true, Some html => html filePath scanOptions
         | _, _ => detectText det content filePath scanOptions end) with
  | Ok findings => (findings ||? JArr [], false)
  | Throw _ => (JArr [], true)
  end.

(** ** Outcomes *)

Inductive emission :=
| Silent (reason : string)
| Fresh (groups : list group)
| Pending (file : string) (known : list string)
| Suppression (file : string)
| Clean (file : string)
| DeepPass (groups : list group)
| Failed (message : string).
(** The exit code is always 0. *)
Record outcome := Outcome { o_stdout : string; o_emission : emission }.
Definition silent (reason : string) : outcome := Outcome "" (Silent reason).

Section Run.
(** The process: its directory, [os.homedir()], [CURSOR_PROJECT_DIR], the clock, [realpathSync]. *)
Context (cwd0 homedir : string) (CURSOR_PROJECT_DIR : js) (now : Z) (realpathSync : string -> option string).
Context (colorIgnoreKey : string -> string) (decodeURIComponent : string -> option string) (ELLIPSIS EM_DASH : ascii).
(** [resolveProjectPlatform], and the detector that is injected or loaded, if there is one. *)
Context (resolveProjectPlatform : string -> js) (det : option detector).
Notation key := (findingCacheKey decodeURIComponent).

(** ** Which files are scanned *)

Definition file_size (filePath : string) (s : fsys) : Z := match f_text s !! filePath with Some t => utf8_size t | None => 0 end.
(** The checks both passes make before reading a file; [Some reason] skips it. *)
Definition gate (config : js) (projectCwd filePath : string) (s : fsys) : option string :=
  if hasPathTraversal (JStr filePath) || re_test SENSITIVE_PATH filePath then Some "sensitive"
  else if re_test GENERATED_PATH filePath then Some "generated"
  else
    let configuredExt := matchConfiguredExtension (JStr filePath) config.["extensions"] in
    if negb (has ALLOWED_EXTS (to_lower (extname filePath))) && bool_decide (configuredExt = None) then Some "extension"
    else if matchesAnyGlob (JStr (relativize cwd0 filePath projectCwd)) config.["ignoreFiles"] || matchesAnyGlob (JStr filePath) config.["ignoreFiles"]
    then Some "config-ignore-file"
    else if negb (existsSync filePath s) then Some "file-missing"
    else if negb (isScanTargetInsideProject cwd0 realpathSync filePath projectCwd) then Some "outside-project"
    else None.
Definition too_large (config : js) (filePath : string) (s : fsys) : bool :=
  let maxFileBytes := opt_get config.["limits"] "maxFileBytes" ?? DEFAULT_LIMITS.["maxFileBytes"] in
  num_ltb (NInt 0) (to_num maxFileBytes) && num_ltb (to_num maxFileBytes) (NInt (file_size filePath s)).

(** ** The pass after an edit *)

(** The variables of the loop of [runHook]. *)
Record scan := Scan {
  sc_cache : js;
  pendingWinner : option (string * list string);
  cleanWinner : option string;
  freshGroups : list group;
  suppressionWinner : option string;
  cleanAckDeduped : bool;
  detectorThrewAny : bool;
  lastSkip : string;
  suppressedHit : bool;
  cacheDirty : bool;
  deferredTotal : nat
}.
Definition start_scan (cache : js) : scan := Scan cache None None [] None false false "no-scannable-file" false false 0.
Definition with_cache (c : js) (st : scan) : scan :=
  Scan c (pendingWinner st) (cleanWinner st) (freshGroups st) (suppressionWinner st) (cleanAckDeduped st) (detectorThrewAny st)
    (lastSkip st) (suppressedHit st) true (deferredTotal st).
Definition with_skip (reason : string) (st : scan) : scan :=
  Scan (sc_cache st) (pendingWinner st) (cleanWinner st) (freshGroups st) (suppressionWinner st) (cleanAckDeduped st) (detectorThrewAny st)
    reason (suppressedHit st) (cacheDirty st) (deferredTotal st).
Definition with_suppressed (winner : option string) (st : scan) : scan :=
  Scan (sc_cache st) (pendingWinner st) (cleanWinner st) (freshGroups st) winner (cleanAckDeduped st) (detectorThrewAny st)
    "suppressed" true (cacheDirty st) (deferredTotal st).
Definition with_deferred (n : nat) (st : scan) : scan :=
  Scan (sc_cache st) (pendingWinner st) (cleanWinner st) (freshGroups st) (suppressionWinner st) (cleanAckDeduped st) (detectorThrewAny st)
    (lastSkip st) (suppressedHit st) (cacheDirty st) (deferredTotal st + n).
Definition with_threw (c : js) (st : scan) : scan :=
  Scan c (pendingWinner st) (cleanWinner st) (freshGroups st) (suppressionWinner st) (cleanAckDeduped st) true
    (lastSkip st) (suppressedHit st) (cacheDirty st) (deferredTotal st).
Definition with_group (g : group) (st : scan) : scan :=
  Scan (sc_cache st) (pendingWinner st) (cleanWinner st) (freshGroups st ++ [g]) (suppressionWinner st) (cleanAckDeduped st) (detectorThrewAny st)
    (lastSkip st) (suppressedHit st) (cacheDirty st) (deferredTotal st).
Definition with_pending (p : string * list string) (st : scan) : scan :=
  Scan (sc_cache st) (Some p) (cleanWinner st) (freshGroups st) (suppressionWinner st) (cleanAckDeduped st) (detectorThrewAny st)
    (lastSkip st) (suppressedHit st) (cacheDirty st) (deferredTotal st).
Definition with_clean (clean : option string) (deduped : bool) (st : scan) : scan :=
  Scan (sc_cache st) (pendingWinner st) clean (freshGroups st) (suppressionWinner st) deduped (detectorThrewAny st)
    (lastSkip st) (suppressedHit st) (cacheDirty st) (deferredTotal st).

(** What does not change during the loop. *)
Record setting := Setting { s_config : js; s_project : string; s_session : string; s_primary : list string; s_options : js; s_tiered : bool; s_quiet : bool }.

(** The acknowledgement of a file without immediate findings: once per file and session. *)
Definition on_clean (g : setting) (filePath : string) (st : scan) : result scan :=
  if s_quiet g || negb (shouldEmitAckForFile (JStr filePath) (s_config g)) then Ok (with_clean (Some filePath) (cleanAckDeduped st) st)
  else
    cache ← ensureFile now (sc_cache st) (s_session g) filePath;
    let st := with_cache cache st in
    if truthy (file_of cache (s_session g) filePath).["cleanAcked"] then Ok (with_clean (cleanWinner st) true st)
    else
      cache ← put_in_file cache (s_session g) filePath "cleanAcked" (JBool true);
      Ok (with_clean (Some filePath) false (with_cache cache st)).

(** From the findings of a file to the state. *)
Definition on_findings (g : setting) (filePath : string) (findings : js) (detectorThrew : bool) (st : scan) : result scan :=
  filtered ← filterFindings colorIgnoreKey decodeURIComponent findings (s_config g);
  let '(immediate, deferred) := if s_tiered g then splitFindingsByTier filtered else (filtered, []) in
  st ← (match deferred with
        | [] => Ok st
        | _ => cache ← touchFile now (sc_cache st) (s_session g) filePath; Ok (with_deferred (length deferred) (with_cache cache st))
        end);
  '(fresh, cache) ← dedupeAgainstCache now decodeURIComponent immediate (sc_cache st) (s_session g) filePath;
  if detectorThrew then Ok (with_threw cache st) else
  cache ← rememberFindings now decodeURIComponent cache (s_session g) filePath immediate;
  let st := with_cache cache st in
  match fresh, immediate with
  | _ :: _, _ => Ok (with_group (Group filePath fresh) st)
  | [], _ :: _ => Ok (if bool_decide (pendingWinner st = None) then with_pending (filePath, key <$> immediate) st else st)
  | [], [] => if bool_decide (cleanWinner st = None) then on_clean g filePath st else Ok st
  end.

(** The body of the loop of [runHook]. *)
Definition scan_file (d : detector) (g : setting) (s : fsys) (st : scan) (filePath : string) : result scan :=
  match gate (s_config g) (s_project g) filePath s with
  | Some reason => Ok (with_skip reason st)
  | None =>
    if too_large (s_config g) filePath s then Ok (with_skip "too-large" st) else
    '(editCount, st) ← (if bool_decide (filePath ∈ s_primary g)
                        then '(editCount, cache) ← bumpEditCount now (sc_cache st) (s_session g) filePath; Ok (editCount, with_cache cache st)
                        else Ok (int 0, st));
    if bool_decide (filePath ∈ s_primary g) && num_ltb (NInt EDIT_COUNT_THRESHOLD) (to_num editCount) then
      let wasJustCrossed := editCount === int (EDIT_COUNT_THRESHOLD + 1) in
      Ok (with_suppressed (match suppressionWinner st with None => if wasJustCrossed then Some filePath else None | w => w end) st)
    else
      content ← (readFileSync filePath s).1;
      let '(findings, detectorThrew) := detect d (s_options g) (matchConfiguredExtension (JStr filePath) (s_config g).["extensions"]) filePath content in
      on_findings g filePath findings detectorThrew st
  end.
Definition scan_files (d : detector) (g : setting) (s : fsys) (targets : list string) (cache : js) : result scan :=
  foldl (fun st filePath => st ≫= fun st => scan_file d g s st filePath) (Ok (start_scan cache)) targets.

(** What is said at the end of the loop. *)
Definition report (g : setting) (harness : string) (st : scan) : result outcome :=
  let note text := appendDesignSystemNote text (s_options g) in
  let say text e := Outcome (payload text "PostToolUse" harness) e in
  match freshGroups st with
  | (_ :: _) as groups =>
    text ← renderGroupedTemplate cwd0 decodeURIComponent ELLIPSIS groups (s_config g) (s_project g);
    Ok (say (note text) (Fresh groups))
  | [] => Ok (
    if detectorThrewAny st && bool_decide (pendingWinner st = None) && bool_decide (cleanWinner st = None) then silent "detector-threw"
    else if s_quiet g then silent "quiet"
    else
      match pendingWinner st with
      | Some (file, known) =>
        if shouldEmitAckForFile (JStr file) (s_config g)
        then say (note (renderPendingAck cwd0 EM_DASH file known (s_project g))) (Pending file known)
        else match suppressionWinner st, cleanWinner st with
             | Some f, _ => say (suppressionNotice (relativize cwd0 f (s_project g))) (Suppression f)
             | None, Some f => if negb (cleanAckDeduped st) && shouldEmitAckForFile (JStr f) (s_config g)
                               then say (note (renderCleanAck cwd0 f (s_project g))) (Clean f) else silent "non-ui-ack"
             | None, None => silent "non-ui-ack"
             end
      | None =>
        match suppressionWinner st, cleanWinner st with
        | Some f, _ => say (suppressionNotice (relativize cwd0 f (s_project g))) (Suppression f)
        | None, Some f => if negb (cleanAckDeduped st) && shouldEmitAckForFile (JStr f) (s_config g)
                          then say (note (renderCleanAck cwd0 f (s_project g))) (Clean f) else silent "non-ui-ack"
        | None, None => silent (if cleanAckDeduped st then "clean-ack-deduped" else if suppressedHit st then "suppressed" else lastSkip st)
        end
      end)
  end.

(** ** The parts both passes share *)

(** The event, unless the run stops before. *)
Definition parse_event (stdinJson env : js) : outcome + js :=
  if depthIsSet (opt_get env "IMPECCABLE_HOOK_DEPTH") || depthIsSet (opt_get env "CLAUDE_HOOK_DEPTH") then inl (silent "reentrant")
  else if truthy_env (opt_get env "IMPECCABLE_HOOK_DISABLED") then inl (silent "env-disabled")
  else
    match (match stdinJson with JStr text => json_parse text | _ => Some stdinJson end) with
    | None => inl (silent "stdin-malformed")
    | Some event => if negb (truthy event && is_objecty event) then inl (silent "stdin-empty") else inr event
    end.
Definition failed (e : js_error) : eff fsys outcome := mret (Outcome "" (Failed (err_message e))).
Definition as_path (v : js) : result string :=
  match v with JStr p => Ok p | _ => Throw (error "The path argument must be of type string") end.

(** The event, the edited files and the project. *)
Definition edit_scope (event env : js) (cwd : string) : eff fsys (js * list string * string) :=
  let event := normalizeHookEvent CURSOR_PROJECT_DIR event (JStr cwd) (resolveHarness env event) in
  sessionCwd ← lift (as_path (event.["cwd"] ||? JStr cwd));
  let primaryFiles := normalizeScanTargets cwd0 (resolveTargetFiles cwd0 event sessionCwd) sessionCwd in
  projectCwd ← get (resolveCacheCwd cwd0 homedir (match primaryFiles with p :: _ => JStr p | [] => JUndef end) sessionCwd);
  mret (event, primaryFiles, projectCwd).
Definition runHook_body (event env : js) (cwd : string) : eff fsys outcome :=
  let harness := resolveHarness env event in
  '(event, primaryFiles, projectCwd) ← edit_scope event env cwd;
  targetFiles ← get (expandScanTargets cwd0 primaryFiles projectCwd);
  if bool_decide (targetFiles = []) then mret (silent "no-file-path") else
  config ← readConfig projectCwd;
  if config.["enabled"] === JBool false then mret (silent "config-disabled") else
  if isNativePlatform (resolveProjectPlatform projectCwd) then mret (silent "native-platform") else
  cache ← readCache projectCwd;
  match det with
  | None => mret (silent "detector-missing")
  | Some d =>
    let g := Setting config projectCwd (to_str (event.["session_id"] ||? JStr "unknown")) primaryFiles (designSystemOptions config d projectCwd)
      (perEditTieringActive config harness) (truthy_env (opt_get env "IMPECCABLE_HOOK_QUIET") || (config.["quiet"] === JBool true)) in
    scanned ← get (fun s => scan_files d g s targetFiles cache);
    st ← lift scanned;
    footprint ← get (existsSync (path_join [projectCwd; ".impeccable"]));
    _ ← (if (0 <? length (freshGroups st))%nat || (0 <? deferredTotal st)%nat || (cacheDirty st && footprint)
         then persistCache cwd0 projectCwd (sc_cache st) else mret false);
    lift (report g harness st)
  end.
Definition runHook (stdinJson env : js) (cwd : string) : eff fsys outcome :=
  attempt (match parse_event stdinJson env with inl o => mret o | inr event => runHook_body event env cwd end) failed.

(** ** The pass at the end of a turn *)

Definition STOP_MAX_FILES : nat := 20.
(** The variables of the loop: the cache, the groups, the files scanned. *)
Definition stop_state : Type := js * list group * nat.
(** From the findings of a file to the state. *)
Definition stop_findings (config : js) (sessionId filePath : string) (findings : js) (cache : js) : result (js * list group) :=
  filtered ← filterFindings colorIgnoreKey decodeURIComponent findings config;
  '(fresh, cache) ← dedupeAgainstCache now decodeURIComponent filtered cache sessionId filePath;
  match fresh with
  | [] => Ok (cache, [])
  | _ => cache ← rememberFindings now decodeURIComponent cache sessionId filePath fresh; Ok (cache, [Group filePath fresh])
  end.
Definition stop_file (d : detector) (config scanOptions : js) (projectCwd sessionId : string) (s : fsys) (st : stop_state) (filePath : string) : result stop_state :=
  let '(cache, groups, scanned) := st in
  if (STOP_MAX_FILES <=? scanned)%nat then Ok st else
  match gate config projectCwd filePath s with
  | Some _ => Ok st
  | None =>
    match (readFileSync filePath s).1 with
    | Throw _ => Ok (cache, groups, S scanned)
    | Ok content =>
      let '(findings, _) := detect d scanOptions (matchConfiguredExtension (JStr filePath) config.["extensions"]) filePath content in
      '(cache, fresh) ← stop_findings config sessionId filePath findings cache;
      Ok (cache, groups ++ fresh, S scanned)
    end
  end.

Definition runStopHook_body (event env : js) (cwd : string) : eff fsys outcome :=
  if event.["stop_hook_active"] === JBool true then mret (silent "stop-hook-active") else
  let harness := resolveHarness env event in
  base ← lift (as_path (event.["cwd"] ||? JStr cwd));
  let projectCwd := resolve cwd0 base in
  let sessionId := to_str (event.["session_id"] ||? JStr "unknown") in
  config ← readConfig projectCwd;
  if config.["enabled"] === JBool false then mret (silent "config-disabled") else
  cache ← readCache projectCwd;
  let touched := keys (own_props (opt_get (opt_get (opt_get cache "sessions") sessionId) "files" ||? JObj [])) in
  if bool_decide (touched = []) then mret (silent "no-touched-files") else
  if isNativePlatform (resolveProjectPlatform projectCwd) then mret (silent "native-platform") else
  match det with
  | None => mret (silent "detector-missing")
  | Some d =>
    let scanOptions := designSystemOptions config d projectCwd in
    scanned ← get (fun s => foldl (fun st filePath => st ≫= fun st => stop_file d config scanOptions projectCwd sessionId s st filePath) (Ok (cache, [], O)) touched);
    '(cache, groups, _) ← lift scanned;
    match groups with
    | [] => mret (silent "stop-clean")
    | _ =>
      _ ← persistCache cwd0 projectCwd cache;
      text ← lift (renderGroupedTemplate cwd0 decodeURIComponent ELLIPSIS groups config projectCwd);
      mret (Outcome (payload (appendDesignSystemNote text scanOptions) "Stop" harness) (DeepPass groups))
    end
  end.
Definition runStopHook (stdinJson env : js) (cwd : string) : eff fsys outcome :=
  attempt (match parse_event stdinJson env with inl o => mret o | inr event => runStopHook_body event env cwd end) failed.

(** ** The entry point ([hook.mjs]) *)

Definition isStopEvent (stdinJson : string) : bool :=
  match json_parse stdinJson with
  | Some event => truthy event && is_objecty event && (event.["hook_event_name"] === JStr "Stop")
  | None => false
  end.
(** The file of the audit log: named by the environment, else by the configuration. *)
Definition auditLogPath (env : js) (baseCwd : string) (s : fsys) : option string :=
  let target := opt_get env "IMPECCABLE_HOOK_LOG" in
  let target := if truthy target && is_string target then target
                else match (readConfig baseCwd s).1 with Ok config => config.["auditLog"] | Throw _ => JNull end in
  match target with
  | JStr t =>
    if String.eqb t "" then None
    else Some (if starts_with "~/" t then path_join [to_str (opt_get env "HOME" ||? opt_get env "USERPROFILE" ||? JStr "."); sdrop 2 t]
               else if is_absolute t then t else resolve (resolve cwd0 baseCwd) t)
  | _ => None
  end.
(** [fs.appendFileSync]. *)
Definition append_text (p text : string) : eff fsys unit :=
  old ← get (fun s => default "" (f_text s !! p)); writeFileSync p (old +:+ text).
Definition writeAuditLog (env entry : js) (cwd : string) : eff fsys bool :=
  let baseCwd := match entry.["cwd"] with JStr c => if String.eqb c "" then cwd else c | _ => cwd end in
  target ← get (auditLogPath env baseCwd);
  match target with
  | None => mret false
  | Some expanded =>
    attempt (_ ← mkdirp (dirname expanded);
             _ ← append_text expanded (json_stringify (spread_with (JObj [("ts", JStr (to_iso now))]) (own_props entry)) +:+ s_nl);
             mret true)
            (fun _ => mret false)
  end.

(** [audit.cwd]: the project, once the run has got so far. *)
Definition audit_cwd (stop : bool) (stdinJson env : js) (cwd : string) (s : fsys) : option string :=
  match parse_event stdinJson env with
  | inl _ => None
  | inr event =>
    if stop then
      if event.["stop_hook_active"] === JBool true then None
      else match as_path (event.["cwd"] ||? JStr cwd) with Ok base => Some (resolve cwd0 base) | Throw _ => None end
    else match (edit_scope event env cwd s).1 with Ok scope => Some scope.2 | Throw _ => None end
  end.
(** The record of a run; [audit_fields] are the other fields. *)
Context (audit_fields : outcome -> list (string * js)).
Definition audit_record (stop : bool) (project : option string) (result : outcome) : js :=
  JObj ([("ts", JStr (to_iso now)); ("event", JStr (if stop then "Stop" else "PostToolUse"))]
        ++ match project with Some p => [("cwd", JStr p)] | None => [] end ++ audit_fields result).

(** The pass that is run, and [main]. *)
Definition hook_run (stdinJson : string) (env : js) (cwd : string) : eff fsys outcome :=
  (if isStopEvent stdinJson then runStopHook else runHook) (JStr stdinJson) env cwd.
Definition hook_main (stdinJson : string) (env : js) (cwd : string) : eff fsys outcome :=
  let stop := isStopEvent stdinJson in
  project ← get (audit_cwd stop (JStr stdinJson) env cwd);
  result ← hook_run stdinJson env cwd;
  _ ← writeAuditLog env (audit_record stop project result) cwd;
  mret result.
End Run.

(** * Theorems *)

(** ** The hook hides what the detector's own filter hides *)


(** The hook and the detector agree on the waivers: the findings the hook keeps are those that the filter of
    the detector ([filterDetectionFindings]) keeps, less the advisory ones when the project does not ask for
    them; a configuration one of them rejects is rejected by the other. *)
Theorem hook_filter_agrees colorIgnoreKey decodeURIComponent findings config : nullish config = false ->
  filterFindings colorIgnoreKey decodeURIComponent findings config =
  bfilter (fun f => includeAdvisory config || negb (isAdvisoryFinding f)) <$> filterDetectionFindings colorIgnoreKey decodeURIComponent findings config.
Proof.
  intros Hn. destruct findings as [| | | | |[|x l]|]; try done. unfold filterFindings, filterDetectionFindings, prop. rewrite Hn. cbn [mbind result_bind].
  destruct (rules_of config) as [rules|e]; [|done]. cbn [mbind result_bind fmap result_fmap mret result_ret]. f_equal. rewrite bfilter_bfilter. apply bfilter_ext. intros f. unfold kept, has.
  destruct (truthy f && is_objecty f), (includeAdvisory config), (isAdvisoryFinding f), (has_str rules _), (isIgnoredFindingValue _ _ _ _); done.
Qed.

Lemma split_spec l : splitFindingsByTier l = (bfilter is_immediate l, bfilter (fun f => negb (is_immediate f)) l).
Proof.
  unfold splitFindingsByTier. assert (forall a b, foldl (fun '(immediate, deferred) f => if is_immediate f then (immediate ++ [f], deferred) else (immediate, deferred ++ [f])) (a, b) l
    = (a ++ bfilter is_immediate l, b ++ bfilter (fun f => negb (is_immediate f)) l)) as H; [|apply H].
  induction l as [|f l IH]; intros a b; cbn [foldl bfilter]; [by rewrite !app_nil_r|]. destruct (is_immediate f); cbn [negb]; rewrite IH; by rewrite <- app_assoc.
Qed.

(** ** One file after an edit *)

Section Edit.
Context (cwd0 : string) (now : Z) (realpathSync : string -> option string).
Context (colorIgnoreKey : string -> string) (decodeURIComponent : string -> option string).
Notation key := (findingCacheKey decodeURIComponent).
Notation filter_findings := (filterFindings colorIgnoreKey decodeURIComponent).

(** The findings the pass after an edit reports. *)
Definition immediate_of (tiered : bool) (l : list js) : list js := if tiered then bfilter is_immediate l else l.
Definition unknown (known : list string) (l : list js) : list js := fresh_of decodeURIComponent (JStr <$> known) l.
Definition as_groups (filePath : string) (fresh : list js) : list group := match fresh with [] => [] | _ => [Group filePath fresh] end.

Lemma known_updates cache cache' sid f e : updates cache cache' sid f e -> forall sid' f', known cache' sid' f' =
  if String.eqb sid' sid && String.eqb f' f then to_str <$> elements_of e.["findings"] else known cache sid' f'.
Proof. intros (_ & _ & H) sid' f'. unfold known. rewrite H. by destruct (_ && _). Qed.

(** The findings of the entry [ensureFile] leaves are those remembered. *)
Lemma entry_of_findings cache sid f : cache_ok cache -> to_str <$> elements_of (entry_of cache sid f).["findings"] = known cache sid f.
Proof.
  intros H. unfold entry_of, known. destruct (file_get cache sid f H) as [Hg|[Hg _]]; [by rewrite Hg|].
  assert (truthy (file_of cache sid f) = true) as -> by (by destruct (file_of cache sid f)). done.
Qed.

Lemma touchFile_eq cache sid f : cache_ok cache -> exists cache', touchFile now cache sid f = Ok cache' /\ cache_ok cache' /\
  forall sid' f', known cache' sid' f' = known cache sid' f'.
Proof.
  intros H. unfold touchFile. destruct (ensureFile_eq now cache sid f H) as (c1 & -> & Hu). cbn [mbind result_bind].
  destruct (stamp_eq now c1 sid (proj1 Hu)) as (c2 & E & H2 & _ & Hf). exists c2. split_and!; [done|done|]. intros sid' f'.
  assert (known c2 sid' f' = known c1 sid' f') as -> by (unfold known; by rewrite Hf). rewrite (known_updates _ _ _ _ _ Hu), entry_of_findings by done.
  destruct (String.eqb_spec sid' sid) as [->|_]; [|done]. by destruct (String.eqb_spec f' f) as [->|_].
Qed.

(** [cleanAcked] is a property beside the findings. *)
Lemma on_clean_eq g f st : cache_ok (sc_cache st) -> exists st', on_clean now g f st = Ok st' /\ cache_ok (sc_cache st') /\
  freshGroups st' = freshGroups st /\ deferredTotal st' = deferredTotal st /\
  forall sid' f', known (sc_cache st') sid' f' = known (sc_cache st) sid' f'.
Proof.
  intros H. unfold on_clean. destruct (_ || _); [by eexists|]. destruct (ensureFile_eq now _ (s_session g) f H) as (c1 & -> & Hu). cbn [mbind result_bind]. cbv zeta.
  pose proof (entry_of_ok _ (s_session g) f H) as He.
  assert (forall sid' f', known c1 sid' f' = known (sc_cache st) sid' f') as Hk.
  { intros sid' f'. rewrite (known_updates _ _ _ _ _ Hu), entry_of_findings by done. destruct (String.eqb_spec sid' (s_session g)) as [->|_]; [|done]. by destruct (String.eqb_spec f' f) as [->|_]. }
  rewrite (updates_refl _ _ _ _ Hu). destruct (truthy _); [eexists; split_and!; [done|apply Hu|done..]|].
  unfold put_in_file. rewrite (updates_refl _ _ _ _ Hu). unfold put.
  assert (is_objecty (entry_of (sc_cache st) (s_session g) f) && negb (nullish (entry_of (sc_cache st) (s_session g) f)) = true) as -> by (destruct He as [Ho _]; by destruct (entry_of _ _ _)).
  cbn [mbind result_bind]. destruct He as (Ho & l & El).
  assert (entry_ok (entry_of (sc_cache st) (s_session g) f).["cleanAcked" := JBool true]) as He' by (split; [by rewrite is_obj_jset|]; exists l; by rewrite jget_jset).
  destruct Hu as (H1 & Hs1 & Hf1). pose proof (set_file_ok c1 _ f _ H1 Hs1 He') as Hu2. eexists; split; [done|]. split_and!; [apply Hu2|done..|].
  intros sid' f'. cbn [sc_cache with_clean with_cache]. rewrite (known_updates c1 _ _ _ _ Hu2), <- (Hk sid' f').
  destruct (String.eqb_spec sid' (s_session g)) as [->|_]; [|done]. destruct (String.eqb_spec f' f) as [->|_]; [|done]. cbn [andb].
  rewrite jget_jset by done. change (String.eqb "findings" "cleanAcked") with false. cbv iota. rewrite entry_of_findings by done. by rewrite Hk.
Qed.

(** What a scan does to the state: the unknown immediate findings are reported, the immediate ones remembered. *)
Definition scanned_as (g : setting) (f : string) (l : list js) (st st' : scan) : Prop :=
  let immediate := immediate_of (s_tiered g) l in
  cache_ok (sc_cache st') /\
  freshGroups st' = freshGroups st ++ as_groups f (unknown (known (sc_cache st) (s_session g) f) immediate) /\
  known (sc_cache st') (s_session g) f = uniq (key <$> immediate) /\
  (forall sid' f', (sid', f') <> (s_session g, f) -> known (sc_cache st') sid' f' = known (sc_cache st) sid' f').

Lemma on_findings_eq g f findings l st : cache_ok (sc_cache st) -> filter_findings findings (s_config g) = Ok l ->
  exists st', on_findings now colorIgnoreKey decodeURIComponent g f findings false st = Ok st' /\ scanned_as g f l st st'.
Proof.
  intros H Hl. unfold on_findings. rewrite Hl. cbn [mbind result_bind].
  assert (exists deferred, (if s_tiered g then splitFindingsByTier l else (l, [])) = (immediate_of (s_tiered g) l, deferred)) as [deferred ->].
  { unfold immediate_of. destruct (s_tiered g); [rewrite split_spec|]; by eexists. }
  assert (exists st1, (match deferred with [] => Ok st | _ => cache ← touchFile now (sc_cache st) (s_session g) f; Ok (with_deferred (length deferred) (with_cache cache st)) end) = Ok st1 /\
    cache_ok (sc_cache st1) /\ freshGroups st1 = freshGroups st /\ forall sid' f', known (sc_cache st1) sid' f' = known (sc_cache st) sid' f') as (st1 & -> & H1 & Hg1 & Hk1).
  { destruct deferred as [|x xs]; [by exists st|]. destruct (touchFile_eq _ (s_session g) f H) as (c & -> & Hc & Hk). by eexists. }
  cbn [mbind result_bind]. set (imm := immediate_of (s_tiered g) l) in *.
  destruct (dedupe_eq decodeURIComponent now _ (s_session g) f imm H1) as (fresh & c2 & -> & H2 & Hfresh & Hk2 & _). cbn [mbind result_bind].
  destruct (rememberFindings_eq now decodeURIComponent c2 (s_session g) f imm H2) as (c3 & -> & Hu). cbn [mbind result_bind]. cbv zeta.
  assert (known c3 (s_session g) f = uniq (key <$> imm)) as Hk3.
  { rewrite (known_updates _ _ _ _ _ Hu), !String.eqb_refl. cbn [andb]. rewrite jget_jset, String.eqb_refl by apply (entry_of_ok c2 _ f H2).
    unfold strings, elements_of. rewrite <- list_fmap_compose. by rewrite (list_fmap_ext _ id), list_fmap_id. }
  assert (forall sid' f', (sid', f') <> (s_session g, f) -> known c3 sid' f' = known (sc_cache st) sid' f') as Hko.
  { intros sid' f' Hne. rewrite (known_updates _ _ _ _ _ Hu). destruct (String.eqb_spec sid' (s_session g)) as [->|_]; [destruct (String.eqb_spec f' f) as [->|_]; [done|]|];
      cbn [andb]; by rewrite Hk2, Hk1. }
  rewrite Hk1 in Hfresh. fold (unknown (known (sc_cache st) (s_session g) f) imm) in Hfresh. unfold scanned_as. fold imm. rewrite <- Hfresh. clear Hfresh.
  destruct fresh as [|x fresh].
  2: { eexists; split; [done|]. cbn [sc_cache freshGroups with_group with_cache]. rewrite Hg1. split_and!; [apply Hu|done|done|done]. }
  cbn [as_groups]. rewrite app_nil_r. destruct imm as [|y imm'] eqn:Ei.
  - destruct (bool_decide _).
    + destruct (on_clean_eq g f (with_cache c3 st1) (proj1 Hu)) as (st' & E & Hc & Hg & _ & Hk). exists st'. split; [done|]. cbn [sc_cache freshGroups with_cache] in *.
      split_and!; [done|by rewrite Hg|by rewrite Hk|]. intros sid' f' Hne. rewrite Hk. by apply Hko.
    + eexists; split; [done|]. split_and!; [apply Hu|done..].
  - eexists; split; [done|]. destruct (bool_decide _); (split_and!; [apply Hu|done..]).
Qed.
End Edit.

Section EditCount.
Context (cwd0 : string) (now : Z) (realpathSync : string -> option string).
Context (colorIgnoreKey : string -> string) (decodeURIComponent : string -> option string).

Definition edit_count (cache : js) (sessionId filePath : string) : js := (entry_of cache sessionId filePath).["editCount"] ||? int 0.

Lemma bumpEditCount_eq cache sid f n : cache_ok cache -> edit_count cache sid f = int n -> exists cache',
  bumpEditCount now cache sid f = Ok (int (n + 1), cache') /\ cache_ok cache' /\ edit_count cache' sid f = (int (n + 1) ||? int 0) /\
  forall sid' f', known cache' sid' f' = known cache sid' f'.
Proof.
  intros H Hn. pose proof (entry_of_ok cache sid f H) as (Ho & l & El). unfold edit_count in Hn.
  assert (entry_ok (entry_of cache sid f).["editCount" := int (n + 1)]) as He by (split; [by rewrite is_obj_jset|]; exists l; by rewrite jget_jset).
  destruct (put_stamp_eq now cache sid f "editCount" (int (n + 1)) H He) as (c' & E & Hu). unfold bumpEditCount.
  destruct (ensureFile_eq now cache sid f H) as (c1 & E1 & Hu1). rewrite E1 in E |- *. cbn [mbind result_bind] in E |- *. cbv zeta.
  rewrite (updates_refl _ _ _ _ Hu1), Hn. change (js_add (int n) (int 1)) with (int (n + 1)).
  destruct (put_in_file c1 sid f "editCount" (int (n + 1))) as [c2|]; [|done]. cbn [mbind result_bind] in E |- *. rewrite E. cbn [mbind result_bind].
  exists c'. split_and!; [done|apply Hu| |].
  - unfold edit_count, entry_of. destruct Hu as (_ & _ & Hf). rewrite Hf, !String.eqb_refl. cbn [andb]. cbv zeta.
    assert (truthy (entry_of cache sid f).["editCount" := int (n + 1)] = true) as -> by (by destruct (entry_of cache sid f)). by rewrite jget_jset, String.eqb_refl.
  - intros sid' f'. rewrite (known_updates _ _ _ _ _ Hu). destruct (String.eqb_spec sid' sid) as [->|_]; [|done]. destruct (String.eqb_spec f' f) as [->|_]; [|done].
    cbn [andb]. rewrite jget_jset by done. change (String.eqb "findings" "editCount") with false. cbv iota. by apply entry_of_findings.
Qed.

(** C31: An edit of a file the hook watches is answered for what it brings: as long as the file was edited fewer than
    six times before in the session, exactly the immediate findings that are not remembered are reported
    (all of them when the project asks for all rules), and the immediate findings of this scan are what is remembered of
    the file; from the seventh edit on the file is not scanned, nothing is reported or forgotten, and the notice is given at the seventh
    edit only. In both cases the other files and sessions keep their memory. *)
Theorem edit_reports_what_is_new d g s st filePath content n v l :
  cache_ok (sc_cache st) -> gate cwd0 realpathSync (s_config g) (s_project g) filePath s = None -> too_large (s_config g) filePath s = false ->
  filePath ∈ s_primary g -> f_text s !! filePath = Some content -> edit_count (sc_cache st) (s_session g) filePath = int n ->
  detect d (s_options g) (matchConfiguredExtension (JStr filePath) (s_config g).["extensions"]) filePath content = (v, false) ->
  filterFindings colorIgnoreKey decodeURIComponent v (s_config g) = Ok l ->
  exists st', scan_file cwd0 now realpathSync colorIgnoreKey decodeURIComponent d g s st filePath = Ok st' /\
    if n <? 6 then scanned_as decodeURIComponent g filePath l st st'
    else freshGroups st' = freshGroups st /\ suppressedHit st' = true /\
         suppressionWinner st' = (match suppressionWinner st with None => if n =? 6 then Some filePath else None | w => w end) /\
         forall sid' f', known (sc_cache st') sid' f' = known (sc_cache st) sid' f'.
Proof.
  intros H Hg Hs Hp Ht Hn Hd Hl. unfold scan_file. rewrite Hg, Hs, !bool_decide_true by done. cbn [andb].
  destruct (bumpEditCount_eq _ _ _ n H Hn) as (c & -> & Hc & _ & Hk). cbn [mbind result_bind]. cbv beta iota zeta. cbn [to_num]. rewrite num_ltb_int.
  destruct (Z.ltb_spec n 6) as [Hlt|Hge].
  - assert (EDIT_COUNT_THRESHOLD <? n + 1 = false) as -> by (apply Z.ltb_ge; unfold EDIT_COUNT_THRESHOLD; lia). unfold readFileSync. rewrite Ht. cbn [fst mbind result_bind].
    rewrite Hd. destruct (on_findings_eq now colorIgnoreKey decodeURIComponent g filePath v l (with_cache c st) Hc Hl) as (st' & -> & Hc' & Hg' & Hk' & Ho').
    eexists; split; [done|]. cbn [sc_cache freshGroups with_cache] in *. unfold scanned_as. split_and!; [done| |done|].
    + by rewrite Hg', Hk.
    + intros sid' f' Hne. by rewrite Ho', Hk.
  - assert (EDIT_COUNT_THRESHOLD <? n + 1 = true) as -> by (apply Z.ltb_lt; unfold EDIT_COUNT_THRESHOLD; lia). eexists; split; [done|].
    cbn [freshGroups suppressedHit suppressionWinner sc_cache with_suppressed with_cache]. split_and!; [done|done| |done].
    destruct (suppressionWinner st); [done|]. cbn [strict_eq]. rewrite num_eqb_int. unfold EDIT_COUNT_THRESHOLD.
    destruct (Z.eqb_spec (n + 1) (6 + 1)), (Z.eqb_spec n 6); (done || lia).
Qed.
End EditCount.

(** ** The end of a turn *)

Section Stop.
Context (now : Z) (colorIgnoreKey : string -> string) (decodeURIComponent : string -> option string).
Notation key := (findingCacheKey decodeURIComponent).
Notation filter_findings := (filterFindings colorIgnoreKey decodeURIComponent).
Notation stop := (stop_findings now colorIgnoreKey decodeURIComponent).

(** On findings with distinct keys, the fresh ones are those whose key is unknown. *)
Lemma unknown_distinct known l : NoDup (key <$> l) -> unknown decodeURIComponent known l = bfilter (fun f => negb (bool_decide (key f ∈ known))) l.
Proof.
  unfold unknown. assert (forall K, NoDup (key <$> l) -> (forall f, f ∈ l -> JStr (key f) ∈ K <-> key f ∈ known) ->
    fresh_of decodeURIComponent K l = bfilter (fun f => negb (bool_decide (key f ∈ known))) l) as H.
  { induction l as [|f l IH]; intros K Hn HK; [done|]. rewrite fmap_cons in Hn. apply NoDup_cons in Hn as [Hf Hn]. cbn [fresh_of bfilter].
    destruct (bool_decide_reflect (key f ∈ known)) as [Hi|Hi].
    - assert (set_has K (JStr (key f)) = true) as -> by (apply set_has_str, HK; [by left|done]). apply IH; [done|]. intros x Hx. apply HK. by right.
    - destruct (set_has K (JStr (key f))) eqn:E; [apply set_has_str, HK in E; [done|by left]|]. cbn [negb]. f_equal. apply IH; [done|]. intros x Hx.
      rewrite set_add_str, (HK x) by (by right). split; [|by left]. intros [?|E']; [done|]. destruct Hf. rewrite <- E'. apply list_elem_of_fmap. by exists x. }
  intros Hn. apply H; [done|]. intros f _. rewrite list_elem_of_fmap. split; [by intros (t & [= ->] & ?)|eauto].
Qed.

Lemma stop_eq config sid f v l cache : cache_ok cache -> filter_findings v config = Ok l ->
  let fresh := unknown decodeURIComponent (known cache sid f) l in
  exists cache', stop config sid f v cache = Ok (cache', as_groups f fresh) /\ cache_ok cache' /\
    known cache' sid f = (match fresh with [] => known cache sid f | _ => uniq (key <$> fresh) end) /\
    forall sid' f', (sid', f') <> (sid, f) -> known cache' sid' f' = known cache sid' f'.
Proof.
  intros H Hl. cbv zeta. unfold stop_findings. rewrite Hl. cbn [mbind result_bind].
  destruct (dedupe_eq decodeURIComponent now cache sid f l H) as (fresh & c & -> & Hc & Hfresh & Hk & _). cbn [mbind result_bind]. fold (unknown decodeURIComponent (known cache sid f) l) in Hfresh.
  rewrite <- Hfresh. destruct fresh as [|x fs]; [by exists c|].
  destruct (rememberFindings_eq now decodeURIComponent c sid f (x :: fs) Hc) as (c' & -> & Hu). cbn [mbind result_bind]. exists c'. split_and!; [done|apply Hu| |].
  - rewrite (known_updates _ _ _ _ _ Hu), !String.eqb_refl. cbn [andb]. rewrite jget_jset, String.eqb_refl by apply (entry_of_ok c _ f Hc).
    unfold strings, elements_of. rewrite <- list_fmap_compose. by rewrite (list_fmap_ext _ id), list_fmap_id.
  - intros sid' f' Hne. rewrite (known_updates _ _ _ _ _ Hu). destruct (String.eqb_spec sid' sid) as [->|_]; [destruct (String.eqb_spec f' f) as [->|_]; [done|]|]; cbn [andb]; by rewrite Hk.
Qed.

(** The pass at the end of a turn forgets: it remembers only what it has just reported. When a file has findings
    that were already reported and one that was not, this pass reports the new ones, and the next pass over the unchanged
    file reports all the old ones again, which the session had been told before. *)
Theorem stop_repeats_known config sid f v l cache : cache_ok cache -> filter_findings v config = Ok l -> NoDup (key <$> l) ->
  (exists x, x ∈ l /\ key x ∈ known cache sid f) -> (exists x, x ∈ l /\ key x ∉ known cache sid f) ->
  exists cache1 cache2,
    stop_findings now colorIgnoreKey decodeURIComponent config sid f v cache = Ok (cache1, [Group f (bfilter (fun x => negb (bool_decide (key x ∈ known cache sid f))) l)]) /\
    stop_findings now colorIgnoreKey decodeURIComponent config sid f v cache1 = Ok (cache2, [Group f (bfilter (fun x => bool_decide (key x ∈ known cache sid f)) l)]).
Proof.
  intros H Hl Hn (x & Hx & Hkx) (y & Hy & Hky). destruct (stop_eq config sid f v l cache H Hl) as (c1 & E1 & H1 & Hk1 & _).
  destruct (stop_eq config sid f v l c1 H1 Hl) as (c2 & E2 & _). exists c1, c2. rewrite (unknown_distinct (known cache sid f)) in * by done.
  set (K := known cache sid f) in *. set (F := bfilter (fun x => negb (bool_decide (key x ∈ K))) l) in *.
  assert (y ∈ F) as HyF by (apply bfilter_elem_of; split; [done|]; by rewrite bool_decide_false).
  assert (as_groups f F = [Group f F]) as EF by (destruct F; [by apply not_elem_of_nil in HyF|done]). rewrite EF in E1. split; [done|].
  assert (known c1 sid f = uniq (key <$> F)) as Hk1' by (rewrite Hk1; destruct F; [by apply not_elem_of_nil in HyF|done]).
  rewrite unknown_distinct, Hk1' in E2 by done.
  assert (bfilter (fun z => negb (bool_decide (key z ∈ uniq (key <$> F)))) l = bfilter (fun z => bool_decide (key z ∈ K)) l) as Eq.
  { assert (forall m, m ⊆ l -> bfilter (fun z => negb (bool_decide (key z ∈ uniq (key <$> F)))) m = bfilter (fun z => bool_decide (key z ∈ K)) m) as Hm; [|by apply Hm].
    induction m as [|z m IH]; intros Hs; [done|]. cbn [bfilter]. rewrite IH by (intros w Hw; apply Hs; by right).
    assert (z ∈ l) as Hz by (apply Hs; by left). destruct (bool_decide_reflect (key z ∈ K)) as [Hi|Hi].
    - rewrite bool_decide_false; [done|]. rewrite elem_uniq. intros (w & Ew & Hw)%list_elem_of_fmap. apply bfilter_elem_of in Hw as [_ Hw].
      rewrite <- Ew, bool_decide_true in Hw by done. done.
    - rewrite bool_decide_true; [done|]. apply elem_uniq, list_elem_of_fmap. exists z. split; [done|]. apply bfilter_elem_of. split; [done|]. by rewrite bool_decide_false. }
  rewrite Eq in E2. assert (x ∈ bfilter (fun z => bool_decide (key z ∈ K)) l) as HxF by (apply bfilter_elem_of; split; [done|]; by rewrite bool_decide_true).
  rewrite E2. do 2 f_equal. destruct (bfilter (fun z => bool_decide (key z ∈ K)) l); [by apply not_elem_of_nil in HxF|done].
Qed.
End Stop.

(** ** No harm *)

Section Harmless.
Context (cwd0 homedir : string) (CURSOR_PROJECT_DIR : js) (now : Z) (realpathSync : string -> option string).
Context (colorIgnoreKey : string -> string) (decodeURIComponent : string -> option string) (ELLIPSIS EM_DASH : ascii).
Context (resolveProjectPlatform : string -> js) (det : option detector) (audit_fields : outcome -> list (string * js)).
Notation run := (hook_run cwd0 homedir CURSOR_PROJECT_DIR now realpathSync colorIgnoreKey decodeURIComponent ELLIPSIS EM_DASH resolveProjectPlatform det).
Notation main := (hook_main cwd0 homedir CURSOR_PROJECT_DIR now realpathSync colorIgnoreKey decodeURIComponent ELLIPSIS EM_DASH resolveProjectPlatform det audit_fields).

(** The files the hook may write. *)
Definition hook_file (p : string) : Prop := (exists dir, p = getCachePath dir) \/ (exists gitDir, p = path_join [gitDir; "info"; "exclude"]).

Lemma git_target_touches fuel start : forall dir, only_touches hook_file (git_target fuel start dir).
Proof. induction fuel as [|fuel IH]; intros dir; cbn [git_target]; unfold resolveHookGitDir; touch. Qed.
Lemma git_target_path fuel start : forall dir s path prefix s', git_target fuel start dir s = (Ok (Some (path, prefix)), s') -> hook_file path.
Proof.
  induction fuel as [|fuel IH]; intros dir s path prefix s'; cbn [git_target]; [done|]. unfold mbind, eff_bind, get. cbn beta iota zeta.
  destruct (existsSync _ s); [|destruct (String.eqb _ dir); [done|apply IH]].
  destruct (resolveHookGitDir _ dir s) as [[[gitDir|]|e] s1]; [|done..]. intros [= <- _ _]. right. by eexists.
Qed.
Lemma excludes_touches cwd : only_touches hook_file (ensureHookGitExcludes cwd0 cwd).
Proof.
  unfold ensureHookGitExcludes. apply touches_attempt; [|intros ?; touch]. cbv zeta. intros s p Hp.
  set (start := resolve cwd0 cwd). unfold mbind at 1, eff_bind at 1. pose proof (git_target_touches (S (slen start)) start start s p Hp) as Ht.
  destruct (git_target (S (slen start)) start start s) as [[[[path prefix]|]|e] s1] eqn:E; cbn [snd] in Ht; [|done..]. rewrite <- Ht.
  pose proof (git_target_path _ _ _ _ _ _ _ E) as Hpath.
  match goal with |- f_text ((?m : eff fsys exclude_result) s1).2 !! p = _ => assert (only_touches hook_file m) as Hm; [|by apply Hm] end.
  touch. by apply touches_write.
Qed.
Lemma persist_touches cwd cache : only_touches hook_file (persistCache cwd0 cwd cache).
Proof.
  unfold persistCache. touch; [apply excludes_touches|apply touches_write; left; by eexists].
Qed.
Lemma read_source_touches p config : only_touches hook_file (read_config_file p config).
Proof. unfold read_config_file, parse_file. touch. Qed.

Lemma run_touches stdinJson env cwd : only_touches hook_file (run stdinJson env cwd).
Proof.
  assert (forall d, only_touches hook_file (readConfig d)) as Hr by (intros d; unfold readConfig; apply touches_bind; [|intros ?]; apply read_source_touches).
  assert (forall d, only_touches hook_file (readCache d)) as Hc by (intros d; unfold readCache, parse_file; touch).
  unfold hook_run. destruct (isStopEvent stdinJson); unfold runStopHook, runHook, failed, runStopHook_body, runHook_body, edit_scope; touch; auto using persist_touches.
Qed.
Lemma run_ok stdinJson env cwd s : exists o s1, run stdinJson env cwd s = (Ok o, s1).
Proof.
  assert (exists o, (run stdinJson env cwd s).1 = Ok o) as [o Ho] by (unfold hook_run; destruct (isStopEvent stdinJson); apply attempt_ok; intros e s'; by eexists).
  destruct (run stdinJson env cwd s) as [x s1]. cbn [fst] in Ho. subst x. by exists o, s1.
Qed.

(** The audit log gets one line more. *)
Lemma audit_appends env entry cwd s : exists b s1, writeAuditLog cwd0 now env entry cwd s = (Ok b, s1) /\
  forall p, f_text s1 !! p = f_text s !! p
    \/ (exists base, auditLogPath cwd0 env base s = Some p) /\ exists line, f_text s1 !! p = Some (default "" (f_text s !! p) +:+ line +:+ s_nl).
Proof.
  unfold writeAuditLog, mbind, eff_bind, get. cbn beta zeta. set (base := match entry.["cwd"] with JStr c => _ | _ => _ end).
  destruct (auditLogPath cwd0 env base s) as [path|] eqn:Ep; [|by exists false, s; split; [|left]].
  unfold attempt. destruct (mkdirp (dirname path) s) as [x s2] eqn:Em. assert (x = Ok tt /\ f_text s2 = f_text s) as [-> Ht] by (by injection Em as <- <-).
  unfold append_text, mbind, eff_bind, get, writeFileSync. cbn beta iota. destruct (is_dir path s2).
  - exists false, s2. split; [done|]. intros p. left. by rewrite Ht.
  - eexists true, _. split; [reflexivity|]. intros p. cbn [f_text set_text]. rewrite Ht. destruct (decide (p = path)) as [->|Hne].
    + right. split; [by exists base|]. eexists. by rewrite lookup_insert_eq.
    + left. by rewrite lookup_insert_ne by done.
Qed.

End Harmless.

(** ** A clean edit where Impeccable is not used *)

Section CleanRun.
Context (cwd0 homedir : string) (CURSOR_PROJECT_DIR : js) (now : Z) (realpathSync : string -> option string).
Context (colorIgnoreKey : string -> string) (decodeURIComponent : string -> option string) (ELLIPSIS EM_DASH : ascii).
Context (resolveProjectPlatform : string -> js).

(** A detector that finds nothing, or fails. *)
Definition finds_nothing (d : detector) : Prop := forall options ce filePath content, exists threw, detect d options ce filePath content = (JArr [], threw).
Definition nothing_found (st : scan) : Prop := freshGroups st = [] /\ deferredTotal st = O.

Lemma on_clean_nothing g f st st' : nothing_found st -> on_clean now g f st = Ok st' -> nothing_found st'.
Proof.
  intros H. unfold on_clean. destruct (_ || _); [by intros [= <-]|]. intros (c & _ & E)%bind_ok. cbv zeta in E.
  destruct (truthy _); [by injection E as <-|]. apply bind_ok in E as (c' & _ & [= <-]). done.
Qed.
Lemma scan_file_nothing d g s f st st' : finds_nothing d -> nothing_found st ->
  scan_file cwd0 now realpathSync colorIgnoreKey decodeURIComponent d g s st f = Ok st' -> nothing_found st'.
Proof.
  intros Hd H. unfold scan_file. destruct (gate _ _ _ _ _ _); [by intros [= <-]|]. destruct (too_large _ _ _); [by intros [= <-]|].
  intros ([n st1] & E1 & E)%bind_ok.
  assert (nothing_found st1) as H1. { destruct (bool_decide _) in E1; [apply bind_ok in E1 as ([m c] & _ & [= _ <-])|injection E1 as _ <-]; done. }
  clear E1 H. cbv zeta in E. destruct (_ && _); [injection E as <-; done|]. apply bind_ok in E as (content & _ & E).
  destruct (Hd (s_options g) (matchConfiguredExtension (JStr f) (s_config g).["extensions"]) f content) as [threw Et]. rewrite Et in E.
  unfold on_findings in E. cbn [filterFindings mbind result_bind] in E.
  assert ((if s_tiered g then splitFindingsByTier [] else ([], [])) = ([], [])) as Es by (by destruct (s_tiered g)). rewrite Es in E. cbn [mbind result_bind dedupeAgainstCache] in E.
  destruct threw; [injection E as <-; done|]. apply bind_ok in E as (c & _ & E). cbv zeta in E. destruct (bool_decide _); [|injection E as <-; done].
  by eapply on_clean_nothing in E.
Qed.
Lemma scan_files_nothing d g s targets cache st : finds_nothing d ->
  scan_files cwd0 now realpathSync colorIgnoreKey decodeURIComponent d g s targets cache = Ok st -> nothing_found st.
Proof.
  intros Hd. unfold scan_files. assert (nothing_found (start_scan cache)) as H by done. revert H. generalize (start_scan cache) as st0.
  induction targets as [|f fs IH]; intros st0 H; cbn [foldl]; [by intros [= <-]|]. cbn [mbind result_bind].
  destruct (scan_file _ _ _ _ _ d g s st0 f) as [st1|e] eqn:E; [apply IH; by eapply scan_file_nothing|].
  intros E'. exfalso. clear -E'. induction fs as [|x fs IH]; [done|]. by apply IH.
Qed.

Lemma readCache_eq dir s : exists v, readCache dir s = (Ok v, s).
Proof. unfold readCache, mbind, eff_bind. destruct (parse_file_eq (getCachePath dir) s) as [v ->]. destruct (_ || _); by eexists. Qed.

(** A clean edit leaves no trace in a project that does not use Impeccable: when there is no [.impeccable]
    directory and the detector finds nothing, the pass after an edit leaves the file system exactly as it was. *)
Theorem clean_run_leaves_no_trace d stdinJson env cwd s : finds_nothing d ->
  (forall dir, existsSync (path_join [dir; ".impeccable"]) s = false) ->
  (runHook cwd0 homedir CURSOR_PROJECT_DIR now realpathSync colorIgnoreKey decodeURIComponent ELLIPSIS EM_DASH resolveProjectPlatform (Some d) stdinJson env cwd s).2 = s.
Proof.
  intros Hd Hf. unfold runHook, attempt. match goal with |- context [match ?m s with _ => _ end] => assert ((m s).2 = s) as H; [|destruct (m s) as [[o|e] s']; cbn [snd] in *; by rewrite H] end.
  destruct (parse_event stdinJson env) as [o|event]; [done|]. unfold runHook_body, edit_scope. cbv zeta. unfold mbind, eff_bind, lift, get. cbn beta.
  destruct (as_path _) as [sessionCwd|e]; [|done]. unfold mret at 1, eff_ret at 1. cbn beta iota. destruct (bool_decide (expandScanTargets _ _ _ _ = _)); [done|].
  match goal with |- context [readConfig ?c s] => set (projectCwd := c) end.
  destruct (config_keeps projectCwd s) as [[config|e] ->]; [|done]. cbn beta iota.
  destruct (config.["enabled"] === JBool false); [done|]. destruct (isNativePlatform _); [done|]. destruct (readCache_eq projectCwd s) as [cache ->]. cbn beta iota.
  match goal with |- context [scan_files ?a ?b ?c ?d ?e ?f ?g s ?t ?h] => destruct (scan_files a b c d e f g s t h) as [st|err] eqn:E end; [|done]. cbn beta iota.
  apply scan_files_nothing in E as [Eg Ed]; [|done]. rewrite Eg, Ed, Hf. cbn [length Nat.ltb Nat.leb orb]. by rewrite andb_false_r.
Qed.
End CleanRun.

(** ** The theorems at work *)

Definition demo_detector : detector := Detector (fun _ _ _ => Ok (JArr [demo_hit "tiny-text" 1; demo_hit "side-tab" 2])) None None.
Definition clean_detector : detector := Detector (fun _ _ _ => Ok (JArr [])) None None.
Definition demo_project : fsys := Fsys {[ "/p/package.json" := "{}"; "/p/a.css" := "a { }" ]} (list_to_set ["/"; "/p"]).
Definition demo_setting : setting := Setting cloneDefaultConfig "/p" "s" ["/p/a.css"] (JObj []) true false.
Definition empty_cache : js := JObj [("version", int 1); ("sessions", JObj [])].
Lemma empty_cache_ok : cache_ok empty_cache.
Proof. split; [done|]. exists []. split; [done|constructor]. Qed.

Lemma hook_filter_agrees_witness :
  filterFindings no_color no_decoding (JArr [demo_hit "em-dash-overuse" 3; demo_hit "side-tab" 2]) cloneDefaultConfig =
  bfilter (fun f => includeAdvisory cloneDefaultConfig || negb (isAdvisoryFinding f)) <$>
    filterDetectionFindings no_color no_decoding (JArr [demo_hit "em-dash-overuse" 3; demo_hit "side-tab" 2]) cloneDefaultConfig /\
  filterFindings no_color no_decoding (JArr [demo_hit "em-dash-overuse" 3; demo_hit "side-tab" 2]) cloneDefaultConfig = Ok [demo_hit "side-tab" 2].
Proof. split; [apply hook_filter_agrees; reflexivity|vm_compute; reflexivity]. Defined.

Lemma edit_reports_what_is_new_witness : exists st',
  scan_file "/p" 7 Some no_color no_decoding demo_detector demo_setting demo_project (start_scan empty_cache) "/p/a.css" = Ok st' /\
  freshGroups st' = [Group "/p/a.css" [demo_hit "tiny-text" 1]].
Proof.
  destruct (edit_reports_what_is_new "/p" 7 Some no_color no_decoding demo_detector demo_setting demo_project (start_scan empty_cache) "/p/a.css" "a { }" 0
    (JArr [demo_hit "tiny-text" 1; demo_hit "side-tab" 2]) [demo_hit "tiny-text" 1; demo_hit "side-tab" 2]) as (st' & E & H).
  - apply empty_cache_ok.
  - vm_compute. reflexivity.
  - vm_compute. reflexivity.
  - left.
  - vm_compute. reflexivity.
  - vm_compute. reflexivity.
  - vm_compute. reflexivity.
  - vm_compute. reflexivity.
  - exists st'. split; [done|]. change (0 <? 6) with true in H. cbv iota in H. destruct H as (_ & Hg & _). rewrite Hg. vm_compute. reflexivity.
Defined.

Lemma stop_repeats_known_witness : exists cache1 cache2,
  stop_findings 8 no_color no_decoding cloneDefaultConfig "s" "/p/a.css" (JArr [demo_hit "side-tab" 3; demo_hit "tiny-text" 5]) demo_cache
    = Ok (cache1, [Group "/p/a.css" [demo_hit "tiny-text" 5]]) /\
  stop_findings 8 no_color no_decoding cloneDefaultConfig "s" "/p/a.css" (JArr [demo_hit "side-tab" 3; demo_hit "tiny-text" 5]) cache1
    = Ok (cache2, [Group "/p/a.css" [demo_hit "side-tab" 3]]).
Proof.
  destruct (stop_repeats_known 8 no_color no_decoding cloneDefaultConfig "s" "/p/a.css" (JArr [demo_hit "side-tab" 3; demo_hit "tiny-text" 5])
    [demo_hit "side-tab" 3; demo_hit "tiny-text" 5] demo_cache) as (c1 & c2 & E1 & E2).
  - split; [done|]. eexists; split; [reflexivity|]. apply Forall_cons_2; [|constructor]. split; [done|]. eexists; split; [reflexivity|].
    apply Forall_cons_2; [|constructor]. split; [done|]. by exists ["side-tab:3"].
  - vm_compute. reflexivity.
  - apply (bool_decide_unpack _). vm_compute. exact I.
  - exists (demo_hit "side-tab" 3). split; [left|]. apply (bool_decide_unpack _). vm_compute. exact I.
  - exists (demo_hit "tiny-text" 5). split; [right; left|]. apply (bool_decide_unpack _). vm_compute. exact I.
  - exists c1, c2. split; [rewrite E1|rewrite E2]; vm_compute; reflexivity.
Defined.

Definition demo_event (name : string) : string :=
  json_stringify (JObj [("hook_event_name", JStr name); ("session_id", JStr "s"); ("cwd", JStr "/p"); ("tool_name", JStr "Edit"); ("tool_input", JObj [("file_path", JStr "/p/a.css")])]).
Definition demo_run (d : detector) (name : string) : eff fsys outcome :=
  hook_main "/p" "/home" JUndef 7 Some no_color no_decoding "~" "-" (fun _ => JNull) (Some d) (fun _ => []) (demo_event name) (JObj []) "/p".

(** An edit, then three ends of turn without any change: told of the text, then of the tab, of the text again and of the tab again. *)
Example stop_alternates :
  let '(edit, s1) := demo_run demo_detector "PostToolUse" demo_project in
  let '(stop1, s2) := demo_run demo_detector "Stop" s1 in
  let '(stop2, s3) := demo_run demo_detector "Stop" s2 in
  let '(stop3, _) := demo_run demo_detector "Stop" s3 in
  o_emission <$> edit = Ok (Fresh [Group "/p/a.css" [demo_hit "tiny-text" 1]]) /\
  o_emission <$> stop1 = Ok (DeepPass [Group "/p/a.css" [demo_hit "side-tab" 2]]) /\
  o_emission <$> stop2 = Ok (DeepPass [Group "/p/a.css" [demo_hit "tiny-text" 1]]) /\
  o_emission <$> stop3 = Ok (DeepPass [Group "/p/a.css" [demo_hit "side-tab" 2]]).
Proof. vm_compute. by split_and!. Qed.

Lemma join_last sep l x : exists r, join sep (l ++ [x]) = r +:+ x.
Proof.
  induction l as [|y l [r IH]]; [by exists ""|]. cbn [app join]. destruct (l ++ [x]) as [|z zs] eqn:E; [by destruct l|].
  exists (y +:+ sep +:+ r). by rewrite IH, !sapp_assoc.
Qed.
(** A path joined with a plain name ends with the name. *)
Lemma path_join_last dir name : plain_seg name = true -> exists r, path_join [dir; name] = r +:+ name.
Proof.
  intros Hn. assert (name <> "" /\ no_char SLASH name = true) as [Hne Hns] by (unfold plain_seg in Hn; split_bools; split; [by intros ->|done]).
  assert (forall above ps acc, norm_segs above acc (ps ++ [name]) = norm_segs above acc ps ++ [name]) as Hsnoc.
  { intros above. induction ps as [|p ps IH]; intros acc; [apply norm_segs_plain; by apply Forall_singleton|]. cbn [app norm_segs]. repeat case_goal; apply IH. }
  assert (forall a, a +:+ name <> "") as Hna by (intros a Ea; by destruct a, name).
  assert (forall a l, segs_of (a +:+ name) = l ++ [name] -> exists r, normalize (a +:+ name) = r +:+ name) as H.
  { intros a l E. unfold normalize. destruct (String.eqb_spec (a +:+ name) "") as [Ea|_]; [by apply Hna in Ea|]. rewrite E, Hsnoc, ends_with_slash by done.
    destruct (join_last "/" (norm_segs (negb (is_absolute (a +:+ name))) [] l) name) as [r ->]. destruct (String.eqb_spec (r +:+ name) "") as [Er|_]; [by apply Hna in Er|].
    destruct (is_absolute _); [|by exists r]. exists ("/" +:+ r). by rewrite sapp_assoc. }
  unfold path_join. cbn [bfilter]. destruct (String.eqb_spec name "") as [|_]; [done|]. cbn [negb]. destruct (String.eqb_spec dir "") as [->|Hd]; cbn [negb join].
  - destruct (String.eqb_spec name "") as [|_]; [done|]. apply (H "" []). by apply split_char_none.
  - rewrite <- sapp_assoc. destruct (String.eqb_spec ((dir +:+ "/") +:+ name) "") as [Ed|_]; [by apply Hna in Ed|].
    apply (H (dir +:+ "/") (split_char SLASH dir)). unfold segs_of. rewrite sapp_assoc. change ("/" +:+ name) with (String SLASH name).
    by rewrite split_char_app_sep, (split_char_none SLASH name).
Qed.
Lemma not_named dir q : ends_with ".impeccable" q = false -> q <> path_join [dir; ".impeccable"].
Proof. intros H ->. destruct (path_join_last dir ".impeccable" eq_refl) as [r E]. rewrite E in H. apply not_true_iff_false in H. apply H, ends_with_iff. by exists r. Qed.

Lemma clean_run_leaves_no_trace_witness :
  (runHook "/p" "/home" JUndef 7 Some no_color no_decoding "~" "-" (fun _ => JNull) (Some clean_detector) (JStr (demo_event "PostToolUse")) (JObj []) "/p" demo_project).2 = demo_project.
Proof.
  apply clean_run_leaves_no_trace.
  - intros options ce filePath content. exists false. unfold detect. cbn [detectHtml detectText clean_detector]. by destruct (match ce with Some _ => _ | None => _ end).
  - intros dir. unfold existsSync, is_dir. apply orb_false_iff. split; apply bool_decide_eq_false.
    + intros [t Ht]. change (f_text demo_project) with (<["/p/package.json" := "{}"]> ({[ "/p/a.css" := "a { }" ]} : gmap string string)) in Ht.
      rewrite lookup_insert_ne, lookup_singleton_ne in Ht by (by apply not_named). done.
    + intros Hd. cbn [f_dirs demo_project list_to_set] in Hd. rewrite !elem_of_union, !elem_of_singleton, elem_of_empty in Hd.
      destruct Hd as [Ep|[Ep|[]]]; symmetry in Ep; [by apply (not_named dir "/") in Ep|by apply (not_named dir "/p") in Ep].
Defined.
