(* ===== verification/HookGate.v ===== *)
(** * The write gate ([hook-before-edit.mjs])

    Before a write, the content it would leave is computed from the event - given, an edit
    of the file, or a shell command - and given to the detector; a write with findings is denied, six times at most
    for the same file and findings. The audit log is not modelled. [detectStaged content] is the HTML engine on a
    temporary file with that content. *)
From S2P Require Import Prelude JsString JsValue Json JsRegex NodePath Vocabulary EventValidation PollLanes Files Globs IgnoreConfig TemplateExtensions HookConfig HookCache HookEvent HookText HookRun.
Local Open Scope Z_scope.

(** ** Shell commands *)

Local Open Scope re_scope.
Definition no_quote (c : ascii) : re := RClass (fun d => negb (Ascii.eqb d c)).
(** A text between two quotes of one kind, in group [i]: the back-reference of the source as two cases. *)
Definition quoted (i : nat) : re :=
  (ch DQ ⋅ RGroup i (rstar_lazy rdot) ⋅ ch DQ) ∥ (lit "'" ⋅ RGroup i (rstar_lazy rdot) ⋅ lit "'").

Definition shellRedirectPath (command : string) : string :=
  match re_exec ((RBol ∥ RClass (fun c => is_space c || one_of ";&|" c)) ⋅ ((lit ">" ⋅ ropt (lit ">")) ∥ (lit "1>" ⋅ ropt (lit ">"))) ⋅ rstar rspace
                 ⋅ ((ch DQ ⋅ RGroup 1 (rplus (no_quote DQ)) ⋅ ch DQ) ∥ (lit "'" ⋅ RGroup 1 (rplus (no_quote "'")) ⋅ lit "'")
                    ∥ RGroup 1 (rplus (RClass (fun c => negb (one_of "<>" c || is_space c)))))) command with
  | Some m => trim (group_or "" m 1)
  | None => ""
  end.

(** One word: the three groups of the source are one here, only one of them is set. *)
Definition WORD : re :=
  (ch DQ ⋅ RGroup 1 (rstar ((lit "\" ⋅ ch DQ) ∥ no_quote DQ)) ⋅ ch DQ)
  ∥ (lit "'" ⋅ RGroup 1 (rstar (lit "\'" ∥ no_quote "'")) ⋅ lit "'")
  ∥ RGroup 1 (rplus (RClass (fun c => negb (is_space c)))).
Definition shellWords (command : string) : list string :=
  (fun m => re_replace_all (lit "\" ⋅ RGroup 1 (RClass is_quote)) (fun q => group_or "" q 1) (group_or "" m 1)) <$> re_match_all WORD command.

Definition CONTROL : list string := ["&&"; "||"; ";"; "|"].
Fixpoint first_operand (words : list string) : string :=
  match words with
  | [] => ""
  | word :: words =>
    if has CONTROL word then "" else if String.eqb word "--" then first_operand words
    else if starts_with "-" word then first_operand words else word
  end.
Definition shellTeeDestination (command : string) : string :=
  let words := shellWords command in
  match find_index (fun word => String.eqb (basename word) "tee") words with
  | None => ""
  | Some teeIndex => first_operand (drop (S teeIndex) words)
  end.

Fixpoint operands (words : list string) : list string :=
  match words with
  | [] => []
  | word :: words =>
    if has CONTROL word then [] else if String.eqb word "--" then operands words
    else if starts_with "-" word then operands words else word :: operands words
  end.
(** Source, destination. *)
Definition shellCopyPaths (command : string) : option (string * string) :=
  match shellWords command with
  | (cp :: _ :: _ :: _) as words =>
    if negb (String.eqb (basename cp) "cp") then None else
    match rev (operands (drop 1 words)) with dest :: source :: _ => Some (source, dest) | _ => None end
  | _ => None
  end.

Definition PYTHON : re := RWordB ⋅ lit "python" ⋅ ropt (lit "3") ⋅ RWordB.
Definition path_call (i : nat) : re := ropt (lit "pathlib.") ⋅ lit "Path(" ⋅ rstar rspace ⋅ quoted i ⋅ rstar rspace ⋅ lit ")".
Definition identifier : re := RClass (fun c => is_alpha c || Ascii.eqb c "_") ⋅ rstar (RClass is_word).
Definition first_match (r : re) (command : string) : string :=
  match re_exec r command with Some m => trim (group_or "" m 2) | None => "" end.
Definition pathsByVar (command : string) : list (string * string) :=
  foldl (fun m hit => assoc_set (group_or "" hit 1) (group_or "" hit 3) m) []
    (re_match_all (RWordB ⋅ RGroup 1 identifier ⋅ rstar rspace ⋅ lit "=" ⋅ rstar rspace ⋅ path_call 3) command).
Fixpoint first_known (paths : list (string * string)) (hits : list rmatch_result) : option string :=
  match hits with
  | [] => None
  | hit :: hits => match assoc_get (group_or "" hit 1) paths with
                   | Some p => if String.eqb p "" then first_known paths hits else Some p
                   | None => first_known paths hits end
  end.
Definition shellPythonWriteDestination (command : string) : string :=
  if negb (re_test PYTHON command) then "" else
  let directPath := first_match ((RBol ∥ RClass (fun c => negb (is_word c || Ascii.eqb c "."))) ⋅ path_call 2 ⋅ rstar rspace ⋅ lit ".write_text" ⋅ rstar rspace ⋅ lit "(") command in
  if negb (String.eqb directPath "") then directPath else
  match first_known (pathsByVar command) (re_match_all (RWordB ⋅ RGroup 1 identifier ⋅ lit ".write_text" ⋅ rstar rspace ⋅ lit "(") command) with
  | Some candidate => candidate
  | None =>
    let mode q := ch q ⋅ RClass (one_of "wax") ⋅ ropt (lit "+") ⋅ ropt (lit "b") ⋅ ch q in
    first_match (RWordB ⋅ lit "open(" ⋅ rstar rspace ⋅ quoted 2 ⋅ rstar rspace ⋅ lit "," ⋅ rstar rspace ⋅ (mode DQ ∥ mode "'"%char)) command
  end.
Definition shellWriteDestination (command : string) : string :=
  let redirect := shellRedirectPath command in
  if negb (String.eqb redirect "") then redirect else
  let tee := shellTeeDestination command in
  if negb (String.eqb tee "") then tee else
  match shellCopyPaths command with
  | Some (_, dest) => if String.eqb dest "" then shellPythonWriteDestination command else dest
  | None => shellPythonWriteDestination command
  end.

(** ** Content in a command *)

Definition shellHereDocContent (command : string) : string :=
  match re_exec (lit "<<" ⋅ ropt (lit "-") ⋅ rstar rspace ⋅ ropt (RClass is_quote)
                 ⋅ RGroup 1 (rplus (RClass (fun c => is_alpha c || is_digit c || one_of "_.-" c))) ⋅ ropt (RClass is_quote) ⋅ rstar rdot ⋅ ropt (ch CR) ⋅ ch NL) command with
  | None => ""
  | Some m =>
    let rest := m_after m in
    match re_exec (ropt (ch CR) ⋅ ch NL ⋅ lit (group_or "" m 1) ⋅ ((ropt (ch CR) ⋅ ch NL) ∥ REol)) rest with
    | Some e => stake (m_index e) rest
    | None => ""
    end
  end.
Local Close Scope re_scope.

(** A Python string after its quote; [None]: it does not end. *)
Fixpoint python_string (quote : ascii) (s : string) : option string :=
  match s with
  | EmptyString => None
  | String c s =>
    if Ascii.eqb c "\" then
      match s with String d s => String d <$> python_string quote s | EmptyString => None end
    else if Ascii.eqb c quote then Some ""
    else String c <$> python_string quote s
  end.
Fixpoint first_string (hits : list rmatch_result) : string :=
  match hits with
  | [] => ""
  | hit :: hits =>
    let text := m_after hit in
    let triple := stake 3 text in
    if String.eqb triple "'''" || String.eqb triple (s_dq +:+ s_dq +:+ s_dq) then
      match index_of triple (sdrop 3 text) with Some i => stake i (sdrop 3 text) | None => first_string hits end
    else match text with
         | String q s => if is_quote q then match python_string q s with Some out => out | None => first_string hits end else first_string hits
         | EmptyString => first_string hits
         end
  end.
Definition pythonStringArg (script name : string) : string :=
  first_string (re_match_all (lit name ⋅ rstar rspace ⋅ lit "(" ⋅ rstar rspace)%re script).
Definition shellPythonWriteContent (command : string) : string :=
  if negb (re_test PYTHON command) then "" else
  let doc := shellHereDocContent command in
  let script := if String.eqb doc "" then command else doc in
  let text := pythonStringArg script ".write_text" in
  if String.eqb text "" then pythonStringArg script ".write" else text.

(** ** The content after the write *)

Inductive proposed := Content (text : string) | Skipped (reason : string).

Definition toolInput (event : js) : js :=
  let ti := opt_get event "tool_input" in if truthy ti && is_objecty ti then ti else JObj [].
Definition shellCommand (input : js) : string :=
  match input.["command"] with
  | JStr command => command
  | _ => match (if truthy input.["args"] then input.["args"].["command"] else JUndef) with JStr command => command | _ => "" end
  end.
Fixpoint firstString (obj : js) (ks : list string) : option string :=
  match ks with
  | [] => None
  | k :: ks => match opt_get obj k with JStr s => Some s | _ => firstString obj ks end
  end.
Definition OLD_KEYS : list string := ["old_string"; "oldString"; "old_str"; "target"].
Definition NEW_KEYS : list string := ["new_string"; "newString"; "new_str"; "replacement"].

Definition replaceOnce (original oldString newString : string) : option string :=
  if String.eqb oldString "" then None else
  match index_of oldString original with
  | None => None
  | Some index => Some (stake index original +:+ newString +:+ sdrop (index + slen oldString) original)
  end.
Definition hasFragmentEditContent (input : js) : bool :=
  existsb (fun k => is_string input.[k]) ["new_string"; "newString"; "new_str"; "replacement"]
  || match input.["edits"] with JArr edits => existsb (fun edit => truthy edit && is_objecty edit) edits | _ => false end.

Section Gate.
Context (cwd0 homedir : string) (CURSOR_PROJECT_DIR : js) (now : Z) (realpathSync : string -> option string).
Context (colorIgnoreKey : string -> string) (decodeURIComponent : string -> option string) (ELLIPSIS : ascii).
Context (resolveProjectPlatform : string -> js) (det : option detector) (detectStaged : string -> string -> js -> result js).
Notation inside := (isScanTargetInsideProject cwd0 realpathSync).

(** [1024 * 1024]: larger files are not read. *)
Definition read_guarded (filePath cwd : string) (s : fsys) : option string :=
  if negb (inside filePath cwd) then None else
  if re_test SENSITIVE_PATH filePath || re_test GENERATED_PATH filePath then None else
  match f_text s !! filePath with
  | Some text => if 1024 * 1024 <? utf8_size text then None else Some text
  | None => None
  end.
Definition readExistingProjectFile (filePath cwd : string) (s : fsys) : option string := read_guarded filePath cwd s.
Definition shellCopiedFileContent (command cwd : string) (s : fsys) : string :=
  match shellCopyPaths command with
  | Some (source, _) => if String.eqb source "" then "" else default "" (read_guarded (if is_absolute source then source else resolve (resolve cwd0 cwd) source) cwd s)
  | None => ""
  end.

(** One edit of the list. *)
Definition apply_edit (projected : proposed) (edit : js) : proposed :=
  match projected with
  | Skipped r => Skipped r
  | Content text =>
    if negb (truthy edit && is_objecty edit) then Skipped "fragment-only-edit" else
    match firstString edit OLD_KEYS, firstString edit NEW_KEYS with
    | Some o, Some n => match replaceOnce text o n with Some next => Content next | None => Skipped "edit-old-string-missing" end
    | _, _ => Skipped "fragment-only-edit"
    end
  end.
(** [None]: not an edit. *)
Definition projectedEditContent (input : js) (filePath cwd : string) (s : fsys) : option proposed :=
  if String.eqb filePath "" then None else
  match firstString input OLD_KEYS, firstString input NEW_KEYS with
  | None, None =>
    match input.["edits"] with
    | JArr edits => match readExistingProjectFile filePath cwd s with
                    | None => Some (Skipped "edit-original-unreadable")
                    | Some original => Some (foldl apply_edit (Content original) edits) end
    | _ => None
    end
  | Some singleOld, Some singleNew =>
    match readExistingProjectFile filePath cwd s with
    | None => Some (Skipped "edit-original-unreadable")
    | Some original => Some (match replaceOnce original singleOld singleNew with Some projected => Content projected | None => Skipped "edit-old-string-missing" end)
    end
  | _, _ => Some (Skipped "fragment-only-edit")
  end.

Definition proposedFilePath (event : js) (cwd : string) : string :=
  let input := toolInput event in
  let raw := input.["file_path"] ||? input.["path"] ||? input.["target_file"] ||? opt_get event "file_path" in
  let candidate := match raw with JStr s => if String.eqb (trim s) "" then shellWriteDestination (shellCommand input) else s
                   | _ => shellWriteDestination (shellCommand input) end in
  if String.eqb (trim candidate) "" then "" else if is_absolute candidate then candidate else resolve (resolve cwd0 cwd) candidate.
Definition proposedContent (event : js) (cwd filePath : string) (s : fsys) : proposed :=
  let input := toolInput event in
  match firstString input ["content"; "streamContent"; "text"] with
  | Some text => Content text
  | None =>
    match projectedEditContent input filePath cwd s with
    | Some p => p
    | None =>
      if hasFragmentEditContent input then Skipped "fragment-only-edit" else
      let command := shellCommand input in
      let pythonContent := shellPythonWriteContent command in
      if negb (String.eqb pythonContent "") then Content pythonContent else
      let shellContent := shellHereDocContent command in
      if negb (String.eqb shellContent "") then Content shellContent else Content (shellCopiedFileContent command cwd s)
    end
  end.

(** ** The verdict *)

Inductive verdict := Allow (reason : string) | AllowWarned (message : string) | Deny (message : string).

Definition relativePath (filePath cwd : string) : string :=
  let rel := path_relative cwd0 cwd filePath in
  if String.eqb rel "" || starts_with ".." rel || is_absolute rel then filePath else rel.

(** [(findings || []).map(...)]: findings name the file, not the temporary one. *)
Definition detectProposedHtml (content filePath : string) (scanOptions : js) : result js :=
  findings ← detectStaged content (basename filePath) scanOptions;
  match findings ||? JArr [] with
  | JArr l => Ok (JArr ((fun f => if truthy f && is_objecty f then spread_with f [("file", JStr filePath)] else f) <$> l))
  | _ => Throw (error "map is not a function")
  end.
Definition detect_proposed (d : detector) (configuredExt : option ext_entry) (content filePath : string) (scanOptions : js) : result js :=
  let e := to_lower (extname filePath) in
  let useHtmlEngine := match configuredExt with Some c => bool_decide (engine_of c = EngineHtml) | None => String.eqb e ".html" || String.eqb e ".htm" end in
  match useHtmlEngine, detectHtml d with
  | true, Some _ => detectProposedHtml content filePath scanOptions
  | _, _ => detectText d content filePath scanOptions
  end.

Definition HEADING : string := "[impeccable@1] Design hook findings requiring review".
Definition BLOCKED : string := "[impeccable@1] Impeccable design hook blocked this write before it landed. Design hook findings requiring review".
Definition cursorBlockMessage (findings : list js) (filePath : string) (config : js) (cwd : string) : result string :=
  rendered ← renderTemplate cwd0 decodeURIComponent ELLIPSIS findings filePath config cwd;
  let blocked := match index_of HEADING rendered with
                 | Some i => stake i rendered +:+ BLOCKED +:+ sdrop (i + slen HEADING) rendered
                 | None => rendered end in
  Ok (if 4000 <? js_length blocked then stake 3984 blocked +:+ s_nl +:+ "...(truncated)" else blocked).

Definition findingSignature (findings : list js) : string :=
  join "|" (sort_by (fun a b => negb (string_leb b a))
    ((fun finding => to_str (finding.["antipattern"] ||? JStr "unknown") +:+ ":" +:+ to_str (finding.["line"] ||? int 0)) <$> findings)).

(** The denials of a file: the count after this one, and the cache. *)
Definition bumpCursorDenial (cache : js) (sessionId filePath : string) (findings : list js) : result (js * js) :=
  found ← prop cache.["sessions"] sessionId;
  let session := found ||? JObj [("updatedAt", int now); ("files", JObj [])] in
  sessions ← put cache.["sessions"] sessionId session;
  session ← put session "updatedAt" (int now);
  entry ← prop session.["files"] filePath;
  let fileEntry := entry ||? new_entry in
  files ← put session.["files"] filePath fileEntry;
  let key := findingSignature findings in
  let denials := if truthy fileEntry.["cursorDenials"] && is_objecty fileEntry.["cursorDenials"] then fileEntry.["cursorDenials"] else JObj [] in
  let count := js_add (denials.[key] ||? int 0) (int 1) in
  fileEntry ← put fileEntry "cursorDenials" (denials.[key := count]);
  let session := session.["files" := files.[filePath := fileEntry]] in
  Ok (count, cache.["sessions" := sessions.[sessionId := session]]).

Definition ordinal_warning (message : string) (count : js) : string :=
  message +:+ s_nl +:+ s_nl +:+ "This is the " +:+ to_str count
  +:+ "th repeated denial for the same file and finding signature, so Impeccable is allowing this write to avoid a loop. Reconsider the issue immediately after the tool runs.".
(** What is answered to a write with findings, from the count of its denials. *)
Definition answer (message : string) (count : js) : verdict :=
  if num_ltb (NInt EDIT_COUNT_THRESHOLD) (to_num count) then AllowWarned (ordinal_warning message count) else Deny message.

(** From the extension to the findings; [inl]: allowed. *)
Definition findings_of (config : js) (event : js) (cwd filePath : string) (s : fsys) : result (verdict + list js * js) :=
  let configuredExt := matchConfiguredExtension (JStr filePath) config.["extensions"] in
  if negb (has ALLOWED_EXTS (to_lower (extname filePath))) && bool_decide (configuredExt = None) then Ok (inl (Allow "extension")) else
  match proposedContent event cwd filePath s with
  | Skipped reason => Ok (inl (Allow reason))
  | Content content =>
    if String.eqb content "" then Ok (inl (Allow "no-proposed-content"))
    else if config.["enabled"] === JBool false then Ok (inl (Allow "config-disabled"))
    else if isNativePlatform (resolveProjectPlatform cwd) then Ok (inl (Allow "native-platform"))
    else if matchesAnyGlob (JStr (relativePath filePath cwd)) config.["ignoreFiles"] || matchesAnyGlob (JStr filePath) config.["ignoreFiles"]
    then Ok (inl (Allow "config-ignore-file"))
    else
      match det with
      | None => Ok (inl (Allow "detector-missing"))
      | Some d =>
        let scanOptions := designSystemOptions config d cwd in
        match detect_proposed d configuredExt content filePath scanOptions with
        | Throw _ => Ok (inl (Allow "detector-threw"))
        | Ok findings =>
          filtered ← filterFindings colorIgnoreKey decodeURIComponent (findings ||? JArr []) config;
          Ok (match filtered with [] => inl (Allow "no-findings") | _ => inr (filtered, scanOptions) end)
        end
      end
  end.

Definition gate_event (event : js) : eff fsys verdict :=
  sessionCwd ← lift (as_path (resolveProjectCwd CURSOR_PROJECT_DIR event (JStr cwd0)));
  let filePath := proposedFilePath event sessionCwd in
  cwd ← get (resolveCacheCwd cwd0 homedir (JStr filePath) sessionCwd);
  if String.eqb filePath "" then mret (Allow "no-file-path")
  else if negb (inside filePath cwd) then mret (Allow "outside-project")
  else if re_test SENSITIVE_PATH filePath then mret (Allow "sensitive")
  else if re_test GENERATED_PATH filePath then mret (Allow "generated")
  else
    config ← readConfig cwd;
    scanned ← get (findings_of config event cwd filePath);
    found ← lift scanned;
    match found with
    | inl v => mret v
    | inr (filtered, scanOptions) =>
      blocked ← lift (cursorBlockMessage filtered filePath config cwd);
      let message := appendDesignSystemNote blocked scanOptions in
      let sessionId := to_str (event.["session_id"] ||? event.["conversation_id"] ||? JStr "unknown") in
      cache ← readCache cwd;
      '(count, cache) ← lift (bumpCursorDenial cache sessionId filePath filtered);
      _ ← persistCache cwd0 cwd cache;
      mret (answer message count)
    end.
(** [main]: every exception allows the write. *)
Definition gate_main (raw : string) (env : js) : eff fsys verdict :=
  attempt
    (if truthy_env (opt_get env "IMPECCABLE_HOOK_DISABLED") then mret (Allow "env-disabled") else
     match (if String.eqb raw "" then Some JNull else json_parse raw) with
     | None => mret (Allow "stdin-malformed")
     | Some event => if negb (truthy event && is_objecty event) then mret (Allow "stdin-empty") else gate_event event
     end)
    (fun _ => mret (Allow "error")).
End Gate.

(** * Theorems *)

(** ** What an edit does to the text *)

Lemma replaceOnce_spec original o n : replaceOnce original o n =
  match (if String.eqb o "" then None else index_of o original) with
  | Some i => Some (stake i original +:+ n +:+ sdrop (i + slen o) original) | None => None end.
Proof. unfold replaceOnce. by destruct (String.eqb o ""). Qed.

Section Verdicts.
Context (cwd0 homedir : string) (CURSOR_PROJECT_DIR : js) (now : Z) (realpathSync : string -> option string).
Context (colorIgnoreKey : string -> string) (decodeURIComponent : string -> option string) (ELLIPSIS : ascii).
Context (resolveProjectPlatform : string -> js) (det : option detector) (detectStaged : string -> string -> js -> result js).
Notation gate := (gate_main cwd0 homedir CURSOR_PROJECT_DIR now realpathSync colorIgnoreKey decodeURIComponent ELLIPSIS resolveProjectPlatform det detectStaged).
Notation found_in := (findings_of cwd0 realpathSync colorIgnoreKey decodeURIComponent resolveProjectPlatform det detectStaged).

(** The hook is enabled and not for a native platform, the file has an extension it looks at and is not one to ignore. *)
Definition may_be_scanned (config : js) (cwd filePath : string) : Prop :=
  (config.["enabled"] === JBool false) = false /\ isNativePlatform (resolveProjectPlatform cwd) = false
  /\ (has ALLOWED_EXTS (to_lower (extname filePath)) = true \/ matchConfiguredExtension (JStr filePath) config.["extensions"] <> None)
  /\ matchesAnyGlob (JStr (relativePath cwd0 filePath cwd)) config.["ignoreFiles"] = false
  /\ matchesAnyGlob (JStr filePath) config.["ignoreFiles"] = false.
(** What [findings_of] establishes when it does not allow the write. *)
Lemma findings_of_inr config event cwd filePath s l opts : found_in config event cwd filePath s = Ok (inr (l, opts)) ->
  may_be_scanned config cwd filePath /\ l <> [] /\
  exists d content findings, det = Some d /\ proposedContent cwd0 realpathSync event cwd filePath s = Content content /\ content <> "" /\
    detect_proposed detectStaged d (matchConfiguredExtension (JStr filePath) config.["extensions"]) content filePath opts = Ok findings /\
    filterFindings colorIgnoreKey decodeURIComponent (findings ||? JArr []) config = Ok l.
Proof.
  unfold findings_of. cbv zeta. destruct (negb _ && _) eqn:Ex; [done|]. destruct (proposedContent _ _ _ _ _ _) as [content|r]; [|done].
  destruct (String.eqb_spec content "") as [|Hc]; [done|]. destruct (config.["enabled"] === JBool false) eqn:Een; [done|]. destruct (isNativePlatform _) eqn:Enp; [done|].
  destruct (matchesAnyGlob _ _ || _) eqn:Eg; [done|]. apply orb_false_iff in Eg as [Eg1 Eg2].
  assert (may_be_scanned config cwd filePath) as Hmay.
  { split_and!; [done..| |done|done]. destruct (has ALLOWED_EXTS _); [by left|right]. by apply bool_decide_eq_false in Ex. }
  destruct det as [d|]; [|done]. destruct (detect_proposed _ _ _ _ _ _) as [findings|e] eqn:Ed; [|done]. intros (l' & El & E)%bind_ok.
  apply Ok_inj in E. destruct l' as [|x l']; [done|]. injection E as <- <-. split_and!; [done..|]. by exists d, content, findings.
Qed.

Lemma findings_of_inl config event cwd filePath s msg : found_in config event cwd filePath s <> Ok (inl (Deny msg)).
Proof.
  unfold findings_of. cbv zeta. destruct (_ && _); [done|]. destruct (proposedContent _ _ _ _ _ _) as [content|r]; [|done].
  destruct (String.eqb content ""); [done|]. destruct (config.["enabled"] === JBool false); [done|]. destruct (isNativePlatform _); [done|]. destruct (_ || _); [done|].
  destruct det as [d|]; [|done]. destruct (detect_proposed _ _ _ _ _ _) as [findings|e]; [|done]. intros (l & _ & El)%bind_ok.
  apply Ok_inj in El. by destruct l.
Qed.

(** C36: a write is denied only for findings in what it would leave. Whenever the gate answers deny, the event was read;
    the file is the one the event writes and the project the one of that file; the file is in the project and is neither
    sensitive nor generated, and by the configuration of the project it may be scanned ([may_be_scanned]); and the
    detector, run on the content computed from the event, returned findings of which some pass the project's filters. *)
Theorem denied_only_for_findings raw env s msg s' : gate raw env s = (Ok (Deny msg), s') ->
  exists event sessionCwd config l opts,
    let filePath := proposedFilePath cwd0 event sessionCwd in
    let cwd := resolveCacheCwd cwd0 homedir (JStr filePath) sessionCwd s in
    json_parse raw = Some event /\ resolveProjectCwd CURSOR_PROJECT_DIR event (JStr cwd0) = JStr sessionCwd /\ filePath <> "" /\
    isScanTargetInsideProject cwd0 realpathSync filePath cwd = true /\
    re_test SENSITIVE_PATH filePath = false /\ re_test GENERATED_PATH filePath = false /\
    readConfig cwd s = (Ok config, s) /\ may_be_scanned config cwd filePath /\ l <> [] /\
    exists d content findings, det = Some d /\ proposedContent cwd0 realpathSync event cwd filePath s = Content content /\ content <> "" /\
      detect_proposed detectStaged d (matchConfiguredExtension (JStr filePath) config.["extensions"]) content filePath opts = Ok findings /\
      filterFindings colorIgnoreKey decodeURIComponent (findings ||? JArr []) config = Ok l.
Proof.
  unfold gate_main, attempt. destruct (truthy_env _); [done|]. destruct (if String.eqb raw "" then Some JNull else json_parse raw) as [event|] eqn:Er; [|done].
  destruct (negb _) eqn:Eo; [done|]. assert (json_parse raw = Some event) as Hr by (destruct (String.eqb raw ""); [by injection Er as <-|done]).
  match goal with |- context [gate_event ?a ?b ?c ?d ?e ?f ?g ?h ?i ?j ?k event s] => destruct (gate_event a b c d e f g h i j k event s) as [[v|e0] s1] eqn:E end; [|done].
  intros [= -> <-]. unfold gate_event in E. cbv zeta in E. unfold mbind, eff_bind, lift, get in E. cbn beta in E.
  destruct (as_path _) as [sessionCwd|e] eqn:Ep; [|done]. cbn beta iota in E. set (filePath := proposedFilePath cwd0 event sessionCwd) in *.
  set (cwd := resolveCacheCwd cwd0 homedir (JStr filePath) sessionCwd s) in *. destruct (String.eqb_spec filePath "") as [|Hne]; [done|].
  destruct (isScanTargetInsideProject cwd0 realpathSync filePath cwd) eqn:Ei; [|done]. cbn [negb] in E. destruct (re_test SENSITIVE_PATH filePath) eqn:Es; [done|].
  destruct (re_test GENERATED_PATH filePath) eqn:Eg; [done|]. destruct (config_keeps cwd s) as [[config|e] Ec]; rewrite Ec in E; [|done].
  cbn beta iota in E. destruct (found_in config event cwd filePath s) as [[v|[l opts]]|e] eqn:Ef; cbn beta iota in E.
  - injection E as -> <-. by apply findings_of_inl in Ef.
  - apply findings_of_inr in Ef as (He & Hl & Hd). exists event, sessionCwd, config, l, opts. cbv zeta. fold filePath cwd.
    split; [done|]. split; [by destruct (resolveProjectCwd _ _ _); try done; injection Ep as ->|]. by split_and!.
  - done.
Qed.

(** ** Six denials at most *)

Definition denial_count (cache : js) (sessionId filePath signature : string) : js :=
  let denials := (entry_of cache sessionId filePath).["cursorDenials"] in
  if truthy denials && is_objecty denials then denials.[signature] ||? int 0 else int 0.
(** Denials are counted in an object. *)
Definition denials_ok (cache : js) (sessionId filePath : string) : Prop :=
  let denials := (entry_of cache sessionId filePath).["cursorDenials"] in
  is_obj denials = true \/ truthy denials && is_objecty denials = false.

Lemma bumpCursorDenial_eq cache sid f findings n : cache_ok cache -> denials_ok cache sid f -> 0 <= n -> denial_count cache sid f (findingSignature findings) = int n ->
  exists cache', bumpCursorDenial now cache sid f findings = Ok (int (n + 1), cache') /\
    cache_ok cache' /\ denials_ok cache' sid f /\ denial_count cache' sid f (findingSignature findings) = int (n + 1).
Proof.
  intros H Hd Hn Hc. pose proof H as (Ho & so & E & Hs). unfold bumpCursorDenial, prop. rewrite E. cbn [nullish mbind result_bind].
  set (session := (JObj so).[sid] ||? JObj [("updatedAt", int now); ("files", JObj [])]).
  assert (session_ok session /\ session.["files"].[f] = file_of cache sid f) as [(Hso & fo & Ef & Hfo) Hfile].
  { unfold session, file_of, session_of. rewrite E. pose proof (session_get cache sid H) as Hg. unfold session_of in Hg. rewrite E in Hg. destruct Hg as [Hg|Hg].
    - rewrite Hg. split; [|done]. split; [done|]. exists []. split; [done|constructor].
    - assert (truthy (JObj so).[sid] = true) as Ht by (destruct Hg as [Hg _]; by destruct ((JObj so).[sid])). unfold or_else. rewrite Ht. done. }
  clearbody session. unfold put. cbn [is_objecty nullish negb andb mbind result_bind].
  assert (is_objecty session && negb (nullish session) = true) as -> by (by destruct session). cbn [mbind result_bind].
  assert ((session.["updatedAt" := int now]).["files"] = JObj fo) as -> by (by rewrite jget_jset). cbn [nullish mbind result_bind is_objecty negb andb].
  assert ((JObj fo).[f] ||? new_entry = entry_of cache sid f) as -> by (rewrite <- Ef, Hfile; done).
  pose proof (entry_of_ok cache sid f H) as (Heo & l & El). set (entry := entry_of cache sid f) in *.
  assert (is_objecty entry && negb (nullish entry) = true) as -> by (by destruct entry). cbn [mbind result_bind]. cbv zeta.
  set (D := if truthy entry.["cursorDenials"] && is_objecty entry.["cursorDenials"] then entry.["cursorDenials"] else JObj []).
  assert (is_obj D = true /\ (D.[findingSignature findings] ||? int 0) = int n) as [HD HDn].
  { unfold D. unfold denials_ok, denial_count in *. fold entry in Hd, Hc. destruct (truthy entry.["cursorDenials"] && is_objecty entry.["cursorDenials"]); [|split; [done|by rewrite <- Hc]].
    destruct Hd as [Hd|[=]]. done. }
  clearbody D. rewrite HDn. change (js_add (int n) (int 1)) with (int (n + 1)). set (entry' := entry.["cursorDenials" := D.[findingSignature findings := int (n + 1)]]).
  assert (entry_ok entry') as He' by (split; [unfold entry'; by rewrite is_obj_jset|]; exists l; unfold entry'; by rewrite jget_jset).
  set (session' := (session.["updatedAt" := int now]).["files" := (JObj fo).[f := entry].[f := entry']]).
  assert (session_ok session') as Hs'.
  { split; [unfold session'; by rewrite !is_obj_jset|]. exists (assoc_set f entry' (assoc_set f entry fo)). unfold session'. rewrite jget_jset, String.eqb_refl by (by rewrite is_obj_jset).
    split; [done|]. by repeat apply Forall_assoc_set; [..|apply (entry_of_ok cache sid f H)|]. }
  eexists. split; [reflexivity|]. cbn [jset]. change (JObj (assoc_set sid session' (assoc_set sid session so))) with ((JObj (assoc_set sid session so)).[sid := session']).
  set (cache' := cache.["sessions" := _]).
  assert (file_of cache' sid f = entry') as Hf'.
  { unfold file_of, session_of, cache'. rewrite (jget_jset cache), String.eqb_refl by done. rewrite (jget_jset (JObj _)), String.eqb_refl by done.
    unfold session'. rewrite jget_jset, String.eqb_refl by (by rewrite is_obj_jset). rewrite jget_jset, String.eqb_refl by done. done. }
  assert (entry_of cache' sid f = entry') as Hen. { unfold entry_of. rewrite Hf'. destruct He' as [He' _]. by destruct entry'. }
  split_and!.
  - split; [unfold cache'; by rewrite is_obj_jset|]. eexists. unfold cache'. rewrite jget_jset, String.eqb_refl by done. split; [reflexivity|].
    apply Forall_assoc_set; [done|]. by apply Forall_assoc_set; [split; [done|]; by exists fo|].
  - left. rewrite Hen. unfold entry'. rewrite jget_jset, String.eqb_refl by done. by rewrite is_obj_jset.
  - unfold denial_count. rewrite Hen. unfold entry'. rewrite jget_jset, String.eqb_refl by done.
    assert (truthy (D.[findingSignature findings := int (n + 1)]) && is_objecty (D.[findingSignature findings := int (n + 1)]) = true) as -> by (by destruct D).
    rewrite jget_jset, String.eqb_refl by done. unfold or_else. cbn [truthy]. by destruct (Z.eqb_spec (n + 1) 0); [lia|].
Qed.

(** *** The count is kept in the file *)

Definition cache_of (so : list (string * js)) : js := JObj [("version", int 1); ("sessions", JObj so)].

Lemma parsed_jset v k x : is_obj v = true -> parsed v -> is_undef x = false -> parsed x -> parsed v.[k := x].
Proof. destruct v; try done. intros _. apply parsed_set. Qed.
Lemma parsed_prop v k d : is_obj v = true -> parsed v -> parsed d -> parsed (v.[k] ||? d).
Proof.
  destruct v as [| | | | | |o]; try done. intros _ Hv Hd. unfold or_else. destruct (truthy _) eqn:E; [|done].
  apply parsed_get; [done|]. by destruct ((JObj o).[k]).
Qed.
Lemma parsed_int z : Z.abs z < 10 ^ 21 -> parsed (int z).
Proof. by split. Qed.
(** The cache after a denial has one session changed or added, and holds nothing that JSON does not keep. *)
Lemma bump_parsed so sid f findings n : cache_ok (cache_of so) -> denials_ok (cache_of so) sid f -> parsed (JObj so) ->
  Z.abs now < 10 ^ 21 -> 0 <= n < 10 ^ 21 - 1 -> denial_count (cache_of so) sid f (findingSignature findings) = int n ->
  exists session, bumpCursorDenial now (cache_of so) sid f findings = Ok (int (n + 1), cache_of (assoc_set sid session so)) /\
    parsed session /\ is_undef session = false.
Proof.
  intros H Hd Hp Hnow Hn Hc. unfold bumpCursorDenial, prop. change ((cache_of so).["sessions"]) with (JObj so). cbn [nullish mbind result_bind].
  set (session := (JObj so).[sid] ||? JObj [("updatedAt", int now); ("files", JObj [])]).
  assert (parsed session) as Hs.
  { apply parsed_prop; [done..|]. apply parsed_obj. split; [apply (bool_decide_unpack _); vm_compute; exact I|].
    repeat apply Forall_cons_2; [split; [done|by apply parsed_int]| |constructor]. split; [done|]. apply parsed_obj. split; constructor. }
  assert (is_obj session = true /\ exists fo, session.["files"] = JObj fo /\ (JObj fo).[f] = file_of (cache_of so) sid f) as (Hso & fo & Ef & Hfile).
  { unfold file_of. pose proof (session_get (cache_of so) sid H) as Hg. unfold session_of in Hg |- *. change ((cache_of so).["sessions"]) with (JObj so) in Hg |- *. unfold session, or_else.
    destruct Hg as [Hg|[Hg (fo & Ef & _)]]; [rewrite Hg; split; [done|]; by exists []|].
    assert (truthy (JObj so).[sid] = true) as -> by (by destruct ((JObj so).[sid])). split; [done|]. exists fo. by rewrite Ef. }
  clearbody session. unfold put. cbn [is_objecty nullish negb andb mbind result_bind].
  assert (is_objecty session && negb (nullish session) = true) as -> by (by destruct session). cbn [mbind result_bind].
  assert ((session.["updatedAt" := int now]).["files"] = JObj fo) as -> by (by rewrite jget_jset). cbn [nullish mbind result_bind is_objecty negb andb].
  assert ((JObj fo).[f] ||? new_entry = entry_of (cache_of so) sid f) as -> by (by rewrite Hfile).
  assert (parsed (JObj fo)) as Hfo by (rewrite <- Ef; destruct session; try done; apply parsed_get; [done|by rewrite Ef]).
  pose proof (entry_of_ok (cache_of so) sid f H) as [Heo _].
  assert (parsed (entry_of (cache_of so) sid f)) as He.
  { change (parsed (file_of (cache_of so) sid f ||? new_entry)). rewrite <- Hfile. apply parsed_prop; [done..|].
    apply parsed_obj. split; [apply (bool_decide_unpack _); vm_compute; exact I|].
    repeat apply Forall_cons_2; [split; [done|by apply parsed_int]| |constructor]. split; [done|by apply parsed_arr]. }
  unfold denials_ok, denial_count in Hd, Hc. set (entry := entry_of (cache_of so) sid f) in *. clearbody entry.
  assert (is_objecty entry && negb (nullish entry) = true) as -> by (by destruct entry). cbn [mbind result_bind]. cbv zeta in Hd, Hc |- *.
  set (D := if truthy entry.["cursorDenials"] && is_objecty entry.["cursorDenials"] then entry.["cursorDenials"] else JObj []).
  assert (is_obj D = true /\ parsed D /\ (D.[findingSignature findings] ||? int 0) = int n) as (HD & HDp & HDn).
  { unfold D. destruct (truthy entry.["cursorDenials"] && is_objecty entry.["cursorDenials"]) eqn:E; [|split; [done|split; [apply parsed_obj; split; constructor|exact Hc]]].
    destruct Hd as [Hd|[=]]. split; [done|]. split; [|exact Hc]. destruct entry as [| | | | | |eo]; try done. apply parsed_get; [done|].
    by destruct ((JObj eo).["cursorDenials"]). }
  clearbody D. rewrite HDn. change (js_add (int n) (int 1)) with (int (n + 1)).
  set (entry' := entry.["cursorDenials" := D.[findingSignature findings := int (n + 1)]]).
  assert (parsed entry') as He'.
  { apply parsed_jset; [done..|by destruct D|]. apply parsed_jset; [done..|apply parsed_int; lia]. }
  eexists. split.
  - cbn [jset]. unfold cache_of. cbn [jset assoc_set String.eqb Ascii.eqb Bool.eqb]. rewrite assoc_set_twice. reflexivity.
  - assert (is_obj (session.["updatedAt" := int now]) = true) as Hu by (by rewrite is_obj_jset). split.
    + apply parsed_jset; [done|by apply parsed_jset; [..|by apply parsed_int]|by destruct (JObj fo)|]. apply parsed_set; [by apply parsed_set; [|by destruct entry|]|by destruct entry|done].
    + by destruct session.
Qed.

(** The cache can be written. *)
Definition writable (cwd : string) (s : fsys) : Prop :=
  is_dir (getCachePath cwd) (mkdirp (dirname (getCachePath cwd)) (ensureHookGitExcludes cwd0 cwd s).2).2 = false.

Lemma persist_read cwd so s : parsed (JObj so) -> (length so <= 8)%nat -> writable cwd s ->
  readCache cwd (persistCache cwd0 cwd (cache_of so) s).2 = (Ok (cache_of so), (persistCache cwd0 cwd (cache_of so) s).2).
Proof.
  intros Hp Hl Hd. unfold writable in Hd. unfold persistCache.
  assert (collect_sessions (cache_of so) = cache_of so) as ->.
  { unfold collect_sessions, cache_of. change ((JObj [("version", int 1); ("sessions", JObj so)]).["sessions"] ||? JObj []) with (JObj so). cbn [own_props].
    unfold CACHE_MAX_SESSIONS. destruct (Nat.ltb_spec 8 (length so)); [lia|done]. }
  destruct (ensure_excludes_ok cwd0 cwd s) as (r & s2 & Ee). rewrite Ee in Hd. cbn [snd] in Hd.
  destruct (mkdirp (dirname (getCachePath cwd)) s2) as [x s3] eqn:Em. assert (x = Ok tt) as -> by (by injection Em as <- _).
  assert (parsed (cache_of so)) as Hc.
  { apply parsed_obj. split; [apply (bool_decide_unpack _); vm_compute; exact I|]. repeat apply Forall_cons_2; [done|done|constructor]. }
  destruct (write_compact_read _ _ s3 Hc Hd) as (s1 & Ew & Er).
  unfold attempt, mbind, eff_bind. rewrite Ee. cbn beta iota. rewrite Em. cbn beta iota. rewrite Ew. cbn beta iota.
  unfold mret at 1 3, eff_ret at 1 2. cbn beta iota. cbn [snd]. unfold readCache, mbind, eff_bind. by rewrite Er.
Qed.

(** A write with findings: the event on the input writes the file [f] of the project [cwd], and what it would leave has
    the findings [l], of which [msg] tells. *)
Definition asks (raw : string) (s : fsys) (cwd sid f : string) (l : list js) (msg : string) : Prop :=
  exists event sessionCwd config opts blocked,
    json_parse raw = Some event /\ truthy event && is_objecty event = true
    /\ resolveProjectCwd CURSOR_PROJECT_DIR event (JStr cwd0) = JStr sessionCwd
    /\ f = proposedFilePath cwd0 event sessionCwd /\ cwd = resolveCacheCwd cwd0 homedir (JStr f) sessionCwd s /\ f <> ""
    /\ isScanTargetInsideProject cwd0 realpathSync f cwd = true /\ re_test SENSITIVE_PATH f = false /\ re_test GENERATED_PATH f = false
    /\ readConfig cwd s = (Ok config, s) /\ found_in config event cwd f s = Ok (inr (l, opts))
    /\ sid = to_str (event.["session_id"] ||? event.["conversation_id"] ||? JStr "unknown")
    /\ cursorBlockMessage cwd0 decodeURIComponent ELLIPSIS l f config cwd = Ok blocked /\ msg = appendDesignSystemNote blocked opts.

(** What the gate does then. *)
Lemma gate_found raw env s cwd sid f l msg cache count cache' : asks raw s cwd sid f l msg ->
  truthy_env (opt_get env "IMPECCABLE_HOOK_DISABLED") = false -> readCache cwd s = (Ok cache, s) ->
  bumpCursorDenial now cache sid f l = Ok (count, cache') ->
  gate raw env s = (Ok (answer msg count), (persistCache cwd0 cwd cache' s).2).
Proof.
  intros (event & sessionCwd & config & opts & blocked & Hp & Ho & Hr & Hf & Hc & Hne & Hin & Hsens & Hgen & Hcfg & Hfound & Hsid & Hb & Hmsg) Henv Hcache Hbump.
  unfold gate_main, attempt. rewrite Henv. assert (String.eqb raw "" = false) as -> by (destruct (String.eqb_spec raw "") as [->|]; [by vm_compute in Hp|done]).
  rewrite Hp, Ho. cbn [negb]. unfold gate_event, mbind, eff_bind, lift, get. rewrite Hr. cbn [as_path]. cbn beta iota zeta. rewrite <- Hf, <- Hc.
  assert (String.eqb f "" = false) as -> by by apply String.eqb_neq. rewrite Hin, Hsens, Hgen. cbn [negb]. rewrite Hcfg. cbn beta iota. rewrite Hfound. cbn beta iota.
  rewrite Hb. cbn beta iota. rewrite Hcache. cbn beta iota. rewrite <- Hsid, Hbump. cbn beta iota.
  destruct (persistCache cwd0 cwd cache' s) as [[b|e] s1] eqn:Ep; [by rewrite <- Hmsg|].
  exfalso. assert (exists b, (persistCache cwd0 cwd cache' s).1 = Ok b) as [b Hb'] by (unfold persistCache; apply attempt_ok; intros e' s'; by eexists).
  by rewrite Ep in Hb'.
Qed.
End Verdicts.

Definition demo_write : string :=
  json_stringify (JObj [("cwd", JStr "/p"); ("session_id", JStr "s"); ("tool_name", JStr "Write");
                        ("tool_input", JObj [("file_path", JStr "/p/b.css"); ("content", JStr "b { }")])]).
Definition demo_gate : eff fsys verdict :=
  gate_main "/p" "/home" JUndef 7 Some no_color no_decoding "~" (fun _ => JNull) (Some demo_detector) (fun _ _ _ => Ok (JArr [])) demo_write (JObj []).

Lemma denied_only_for_findings_witness : exists msg s', demo_gate demo_project = (Ok (Deny msg), s') /\
  exists event sessionCwd, json_parse demo_write = Some event /\ proposedFilePath "/p" event sessionCwd <> "".
Proof.
  assert (exists msg, (demo_gate demo_project).1 = Ok (Deny msg)) as [msg Hm] by (eexists; vm_compute; reflexivity).
  destruct (demo_gate demo_project) as [o s'] eqn:E. cbn [fst] in Hm. subst o.
  destruct (denied_only_for_findings "/p" "/home" JUndef 7 Some no_color no_decoding "~" (fun _ => JNull) (Some demo_detector) (fun _ _ _ => Ok (JArr []))
    demo_write (JObj []) demo_project msg s' E) as (event & sessionCwd & config & l & opts & H1 & _ & H2 & _).
  exists msg, s'. split; [reflexivity|]. exists event, sessionCwd. split; [exact H1|exact H2].
Defined.

(** ** Again and again *)

Section Attempts.
Context (cwd0 homedir : string) (CURSOR_PROJECT_DIR : js) (realpathSync : string -> option string).
Context (colorIgnoreKey : string -> string) (decodeURIComponent : string -> option string) (ELLIPSIS : ascii).
Context (resolveProjectPlatform : string -> js) (det : option detector) (detectStaged : string -> string -> js -> result js).
Notation gate_at now := (gate_main cwd0 homedir CURSOR_PROJECT_DIR now realpathSync colorIgnoreKey decodeURIComponent ELLIPSIS resolveProjectPlatform det detectStaged).
Notation asks := (asks cwd0 homedir CURSOR_PROJECT_DIR realpathSync colorIgnoreKey decodeURIComponent ELLIPSIS resolveProjectPlatform det detectStaged).
Context (cwd sid f sig : string).

(** The cache file holds a cache of the hook that counts [n] denials of the write, with room for the session: at most
    eight sessions are kept. *)
Record counted (n : Z) (s : fsys) : Prop := Counted {
  ct_sessions : list (string * js);
  ct_read : readCache cwd s = (Ok (cache_of ct_sessions), s);
  ct_cache : cache_ok (cache_of ct_sessions);
  ct_parsed : parsed (JObj ct_sessions);
  ct_denials : denials_ok (cache_of ct_sessions) sid f;
  ct_count : denial_count (cache_of ct_sessions) sid f sig = int n;
  ct_room : (length ct_sessions < 8)%nat \/ (length ct_sessions <= 8)%nat /\ sid ∈ keys ct_sessions }.

(** A session: the gate denies the write, at any times and with any events that ask for it; in between anything may
    happen that leaves the cache file as it is. *)
Inductive denials : nat -> fsys -> Prop :=
| denials_start s : counted 0 s -> denials 0 s
| denials_again n s now raw env l msg denied s' : denials n s -> 0 <= now < 10 ^ 21 -> asks raw s cwd sid f l msg -> findingSignature l = sig ->
    writable cwd0 cwd s -> gate_at now raw env s = (Ok (Deny denied), s') -> denials (S n) s'
| denials_between n s s' : denials n s -> f_text s' !! getCachePath cwd = f_text s !! getCachePath cwd -> denials n s'.

Lemma readCache_text s s' c : f_text s' !! getCachePath cwd = f_text s !! getCachePath cwd -> readCache cwd s = (Ok c, s) -> readCache cwd s' = (Ok c, s').
Proof.
  intros E. unfold readCache, mbind, eff_bind. destruct (parse_file_eq (getCachePath cwd) s) as [v Hv], (parse_file_eq (getCachePath cwd) s') as [v' Hv'].
  assert (v' = v) as ->.
  { assert ((parse_file (getCachePath cwd) s').1 = (parse_file (getCachePath cwd) s).1) as H; [|rewrite Hv, Hv' in H; by injection H].
    unfold parse_file, attempt, mbind, eff_bind, readFileSync. rewrite E. destruct (f_text s !! _) as [t|]; [by destruct (json_parse t)|done]. }
  rewrite Hv, Hv'. unfold mret, eff_ret. by destruct (_ || _); intros [= <-].
Qed.
Lemma counted_text n s s' : counted n s -> f_text s' !! getCachePath cwd = f_text s !! getCachePath cwd -> counted n s'.
Proof. intros [so Hr H1 H2 H3 H4 H5] E. exists so; [|done..]. by apply (readCache_text s). Qed.
Lemma room_set (so : list (string * js)) session : (length so < 8)%nat \/ (length so <= 8)%nat /\ sid ∈ keys so ->
  (length (assoc_set sid session so) <= 8)%nat /\ sid ∈ keys (assoc_set sid session so).
Proof.
  intros H. split.
  - destruct H as [H|[H Hin]].
    + assert (forall l : list (string * js), (length (assoc_set sid session l) <= S (length l))%nat) as Hl; [|specialize (Hl so); lia].
      induction l as [|[k v] l IH]; cbn [assoc_set length]; [lia|]. destruct (String.eqb sid k); cbn [length]; lia.
    + assert (forall l : list (string * js), sid ∈ keys l -> length (assoc_set sid session l) = length l) as Hl; [|by rewrite Hl].
      induction l as [|[k v] l IH]; [by intros ?%elem_of_nil|]. cbn [assoc_set keys fmap list_fmap fst]. destruct (String.eqb_spec sid k) as [->|Hne]; [done|].
      intros [->|Hk]%elem_of_cons; [done|]. cbn [length]. by rewrite IH.
  - clear H. induction so as [|[k v] so IH]; cbn [assoc_set]; [by left|]. destruct (String.eqb_spec sid k) as [->|Hne]; [by left|by right].
Qed.

(** What an attempt does: the count goes up by one, and the verdict depends on it. *)
Lemma attempt_counts n s now raw env l msg : counted n s -> 0 <= n < 10 ^ 20 -> 0 <= now < 10 ^ 21 -> asks raw s cwd sid f l msg -> findingSignature l = sig ->
  writable cwd0 cwd s -> truthy_env (opt_get env "IMPECCABLE_HOOK_DISABLED") = false ->
  exists s', gate_at now raw env s = (Ok (answer msg (int (n + 1))), s') /\ counted (n + 1) s'.
Proof.
  intros [so Hr Hok Hp Hd Hc Hroom] Hn Hnow Hasks Hsig Hw Henv. rewrite <- Hsig in Hc.
  destruct (bump_parsed now so sid f l n) as (session & Hbump & Hsp & Hsu); [done..|lia|lia|done|].
  destruct (bumpCursorDenial_eq now (cache_of so) sid f l n) as (cache' & Hbump' & Hok' & Hd' & Hc'); [done|done|lia|done|].
  rewrite Hbump in Hbump'. injection Hbump' as <-. eexists. split.
  - by eapply gate_found.
  - destruct (room_set so session Hroom) as [Hlen Hin]. assert (parsed (JObj (assoc_set sid session so))) as Hp' by by apply parsed_set.
    exists (assoc_set sid session so); [by apply persist_read|done|done|done|by rewrite <- Hsig|by right].
Qed.

End Attempts.

(** The write of the demonstration, before the first attempt; its project has no cache yet. *)
Definition demo_findings : list js := [demo_hit "tiny-text" 1; demo_hit "side-tab" 2].
Definition demo_message : string :=
  match cursorBlockMessage "/p" no_decoding "~" demo_findings "/p/b.css" cloneDefaultConfig "/p" with Ok m => m | Throw _ => "" end.
Lemma demo_asks :
  asks "/p" "/home" JUndef Some no_color no_decoding "~" (fun _ => JNull) (Some demo_detector) (fun _ _ _ => Ok (JArr []))
    demo_write demo_project "/p" "s" "/p/b.css" demo_findings demo_message.
Proof.
  exists (match json_parse demo_write with Some e => e | None => JUndef end), "/p", cloneDefaultConfig, (JObj []), demo_message.
  repeat (split; [first [by vm_compute | (intros E; by vm_compute in E)]|]). by vm_compute.
Qed.
Lemma demo_counted : counted "/p" "s" "/p/b.css" (findingSignature demo_findings) 0 demo_project.
Proof.
  exists []; [by vm_compute|split; [done|by exists []]|apply parsed_obj; split; constructor|by right; vm_compute|by vm_compute|left; cbn; lia].
Qed.

(** Seven attempts at it, the gate writing and reading its cache. *)
Fixpoint attempts (k : nat) (s : fsys) : list bool :=
  match k with O => [] | S k => let '(v, s') := demo_gate s in (match v with Ok (Deny _) => true | _ => false end) :: attempts k s' end.
Example seven_attempts : attempts 8 demo_project = [true; true; true; true; true; true; false; false].
Proof. by vm_compute. Qed.
