(* ===== verification/Preflight.v ===== *)
(** * Scaffolding a generation ([live/generation-preflight.mjs])

    Before an agent is given a generation the live server runs live-wrap or live-insert for it. This file has the
    command line that is built from the event, what is made of the output, and the cache of source files between
    two runs; and that the helpers read from the command line what the event says. The child process is an
    argument: its output, or the error it ends with. *)
From S2P Require Import Prelude JsString JsValue Json NodePath LiveWrap LiveInsert.
Local Open Scope Z_scope.
Local Open Scope list_scope.

(** ** The target *)

(** [normalizeTarget] and the position of an insertion. *)
Record target := Target { t_elementId : js; t_classes : js; t_tag : js; t_text : js; t_position : string }.

Definition array_join (sep : string) (l : list js) : string := join sep ((fun x => if nullish x then "" else to_str x) <$> l).

Definition normalizeTarget (v : js) (position : string) : target :=
  let classes := match v.["classes"] with JArr l => array_join " " l | c => trim (to_str (c ||? JStr "")) end in
  let text := match v.["textContent"] with JStr t => stake 80 (trim t) | _ => "" end in
  Target (v.["id"] ||? v.["elementId"] ||? JUndef) (JStr classes ||? JUndef) (v.["tagName"] ||? v.["tag"] ||? JUndef)
         (JStr text ||? JUndef) position.

Definition replaceTarget (event : js) : target := normalizeTarget (event.["element"] ||? JObj []) "".
Definition insertTarget (event : js) : target :=
  normalizeTarget (event.["insert"].["anchor"] ||? JObj [])
    (if event.["insert"].["position"] === JStr "before" then "before" else "after").
Definition is_insert (event : js) : bool := event.["mode"] === JStr "insert".
Definition target_of (event : js) : target := if is_insert event then insertTarget event else replaceTarget event.
Definition mode_of (event : js) : string := if is_insert event then "insert" else "replace".

Definition targetSignature (event : js) : string :=
  let t := target_of event in
  json_stringify (JObj
    [ ("mode", JStr (mode_of event));
      ("position", if is_insert event then JStr (t_position t) else JNull);
      ("elementId", t_elementId t ||? JNull);
      ("classes", t_classes t ||? JNull);
      ("tag", t_tag t ||? JNull);
      ("pageUrl", event.["pageUrl"] ||? JNull) ]).

(** ** The command line *)

Notation cache := (list (string * string)).
Record command := Command { c_script : string; c_args : list js; c_mode : string; c_signature : string }.

Definition option_arg (flag : string) (v : js) : list js := if truthy v then [JStr flag; v] else [].

Definition preflight_args (event : js) (cachedFile : option string) : list js :=
  let t := target_of event in
  [JStr "--id"; event.["id"]; JStr "--count"; JStr (to_str (event.["count"] ||? int 3)); JStr "--defer-source-write"]
  ++ (if is_insert event then [JStr "--position"; JStr (t_position t)] else [])
  ++ option_arg "--element-id" (t_elementId t)
  ++ option_arg "--classes" (t_classes t)
  ++ option_arg "--tag" (t_tag t)
  ++ option_arg "--text" (t_text t)
  ++ (if negb (is_insert event) then option_arg "--page-url" event.["pageUrl"] else [])
  ++ option_arg "--file" (opt_js cachedFile).

Definition buildGenerationPreflight (event : js) (scriptsDir : string) (c : cache) : option command :=
  if negb (truthy event) || negb (event.["type"] === JStr "generate") || negb (truthy event.["id"]) then None else
  let t := target_of event in
  if negb (truthy (t_elementId t)) && negb (truthy (t_classes t)) then None else
  let script := path_join [scriptsDir; if is_insert event then "live-insert.mjs" else "live-wrap.mjs"] in
  let signature := targetSignature event in
  Some (Command script (JStr script :: preflight_args event (assoc_get signature c)) (mode_of event) signature).

(** ** The run *)

(** The last line that is not empty. *)
Definition last_line (text : string) : option string :=
  last (bfilter (fun l => negb (String.eqb l "")) (split_lines (trim text))).

Definition compactError (e : js) : string :=
  let stderr := if truthy e.["stderr"] then trim (to_str e.["stderr"]) else "" in
  stake 500 (to_str (opt_js (last_line stderr) ||? e.["message"] ||? JStr "preflight failed")).

Section Run.
(** The message of the engine for text that is not JSON. *)
Context (syntax_error : string -> string).

Definition scaffold_of (stdout : string) : result js :=
  match last_line stdout with
  | None => Throw (error "preflight returned no scaffold metadata")
  | Some line =>
    match json_parse line with
    | None => Throw (error (syntax_error line))
    | Some scaffold =>
      if nullish scaffold then Throw (error ("Cannot read properties of " +:+ to_str scaffold +:+ " (reading 'sourceFile')")) else Ok scaffold
    end
  end.
Definition resolved_source (scaffold : js) : js := scaffold.["sourceFile"] ||? scaffold.["file"].

Definition run_failed (mode : string) (durationMs e : js) : js :=
  JObj [("ok", JBool false); ("mode", JStr mode); ("durationMs", durationMs); ("error", JStr (compactError e))].

(** What follows the [await]: the cache, and the result. *)
Definition finish_run (cmd : command) (outcome : js + string) (durationMs : js) (c : cache) : cache * js :=
  let fail e := (assoc_del (c_signature cmd) c, run_failed (c_mode cmd) durationMs e) in
  match outcome with
  | inl e => fail e
  | inr stdout =>
    match scaffold_of stdout with
    | Throw e => fail (JObj [("message", JStr (err_message e))])
    | Ok scaffold =>
      (match resolved_source scaffold with JStr file => assoc_set (c_signature cmd) file c | _ => c end,
       JObj [("ok", JBool true); ("mode", JStr (c_mode cmd)); ("durationMs", durationMs); ("scaffold", scaffold)])
    end
  end.

Definition no_locator : js := JObj [("ok", JBool false); ("skipped", JBool true); ("reason", JStr "insufficient_locator")].

(** A run nothing else interleaves with. *)
Definition runGenerationPreflight (execFile : list js -> js + string) (event : js) (scriptsDir : string) (durationMs : js) (c : cache) : cache * js :=
  match buildGenerationPreflight event scriptsDir c with
  | None => (c, no_locator)
  | Some cmd => finish_run cmd (execFile (c_args cmd)) durationMs c
  end.

Definition clearSourceResolutionCache (c : cache) : cache := [].

(** ** Runs that overlap *)

(** The cache and the runs that wait for their process, and the turns of the server that touch them. *)
Record runs := Runs { r_cache : cache; r_waiting : list command }.
Inductive turn : Type :=
| Start (event : js) (scriptsDir : string)
| Finish (i : nat) (outcome : js + string) (durationMs : js)
| Clear.

Definition take_turn (t : turn) (s : runs) : runs :=
  match t with
  | Start event dir =>
    match buildGenerationPreflight event dir (r_cache s) with
    | Some cmd => Runs (r_cache s) (r_waiting s ++ [cmd])
    | None => s
    end
  | Finish i outcome ms =>
    match r_waiting s !! i with
    | Some cmd => Runs (finish_run cmd outcome ms (r_cache s)).1 (delete i (r_waiting s))
    | None => s
    end
  | Clear => Runs (clearSourceResolutionCache (r_cache s)) (r_waiting s)
  end.

(** What the turns say of a signature: the file of the run that settled last. *)
Definition verdict (outcome : js + string) (before : option string) : option string :=
  match outcome with
  | inl _ => None
  | inr stdout =>
    match scaffold_of stdout with
    | Throw _ => None
    | Ok scaffold => match resolved_source scaffold with JStr file => Some file | _ => before end
    end
  end.
Definition hear (sig : string) (t : turn) (s : runs) (before : option string) : option string :=
  match t with
  | Start _ _ => before
  | Finish i outcome _ =>
    match r_waiting s !! i with
    | Some cmd => if String.eqb sig (c_signature cmd) then verdict outcome before else before
    | None => before
    end
  | Clear => None
  end.
Fixpoint heard (sig : string) (ts : list turn) (s : runs) (before : option string) : option string :=
  match ts with
  | [] => before
  | t :: ts => heard sig ts (take_turn t s) (hear sig t s before)
  end.
Definition run_turns (ts : list turn) (s : runs) : runs := foldl (fun s t => take_turn t s) s ts.

Lemma turn_heard sig t s : assoc_get sig (r_cache (take_turn t s)) = hear sig t s (assoc_get sig (r_cache s)).
Proof.
  destruct t as [event dir|i outcome ms|]; simpl; [by destruct (buildGenerationPreflight _ _ _)| |done].
  destruct (r_waiting s !! i) as [cmd|]; [|done]. cbn [r_cache]. unfold finish_run, verdict.
  destruct outcome as [e|stdout]; [apply assoc_get_del|]. cbn [fst].
  destruct (scaffold_of stdout) as [scaffold|e]; [|apply assoc_get_del]. cbn [fst].
  destruct (resolved_source scaffold); try by destruct (String.eqb _ _). apply assoc_get_set.
Qed.

(** The cache holds, for every signature, the file of the run that settled last and nothing after a failure,
    however the runs overlap. *)
Theorem cache_is_the_last_verdict sig ts s :
  assoc_get sig (r_cache (run_turns ts s)) = heard sig ts s (assoc_get sig (r_cache s)).
Proof.
  revert s; induction ts as [|t ts IH]; intros s; [done|]. unfold run_turns in *. cbn [foldl heard]. by rewrite IH, turn_heard.
Qed.
End Run.

(** ** What the helpers read *)

(** An option of a command line: a flag alone, or with its value. *)
Inductive item : Type := Lone (flag : string) | Opt (flag value : string).
Definition words (i : item) : list string := match i with Lone f => [f] | Opt f v => [f; v] end.
Definition line_of (l : list item) : list string := l ≫= words.
Fixpoint opt_get (flag : string) (l : list item) : option string :=
  match l with
  | [] => None
  | Opt f v :: l => if String.eqb flag f then Some v else opt_get flag l
  | Lone _ :: l => opt_get flag l
  end.
Definition is_flag (f : string) : bool := starts_with "--" f && negb (includes "=" f).
(** A flag of its own for every word that begins with two dashes. *)
Definition plain_item (lone : string -> bool) (i : item) : Prop :=
  match i with
  | Lone f => is_flag f = true /\ lone f = true
  | Opt f v => is_flag f = true /\ starts_with "--" v = false
  end.

Lemma dashes_of f r : is_flag f = true -> starts_with "--" (f +:+ r) = true.
Proof. intros [(t & ->)%starts_with_iff _]%andb_prop. apply starts_with_iff. exists (t +:+ r). by rewrite sapp_assoc. Qed.

Lemma not_flag_assignment f w : is_flag f = true -> is_flag w = true \/ starts_with "--" w = false -> starts_with (f +:+ "=") w = false.
Proof.
  intros Hf Hw. destruct (starts_with (f +:+ "=") w) eqn:E; [|done]. apply starts_with_iff in E as (r & ->).
  destruct Hw as [[_ Hn]%andb_prop|Hn].
  - apply negb_true_iff in Hn. assert (includes "=" ((f +:+ "=") +:+ r) = true) as Hi; [|congruence].
    apply includes_iff. exists f, r. by rewrite sapp_assoc.
  - rewrite sapp_assoc, dashes_of in Hn; done.
Qed.

Section Line.
Context (lone : string -> bool).
Implicit Types l : list item.

Lemma item_words i w : plain_item lone i -> w ∈ words i -> is_flag w = true \/ starts_with "--" w = false.
Proof. destruct i; simpl; intros [? ?]; rewrite ?elem_of_cons; intros Hw; destruct_or!; subst; auto; by apply elem_of_nil in Hw. Qed.

Lemma no_assignment flag l : is_flag flag = true -> Forall (plain_item lone) l ->
  List.find (fun arg => starts_with (flag +:+ "=") arg) (line_of l) = None.
Proof.
  intros Hf Hl. destruct (List.find _ _) as [w|] eqn:E; [|done]. apply List.find_some in E as [Hw E].
  apply list_elem_of_In, list_elem_of_bind in Hw as (i & Hw & Hi). rewrite Forall_forall in Hl.
  rewrite not_flag_assignment in E; [done|done|]. by apply (item_words i); auto.
Qed.

Lemma arg_after_cons flag w args : String.eqb flag w = false -> arg_after (w :: args) flag = arg_after args flag.
Proof. intros E. unfold arg_after. cbn [find_index]. rewrite E. by destruct (find_index _ args). Qed.

Lemma plain_not_flag flag v : is_flag flag = true -> starts_with "--" v = false -> String.eqb flag v = false.
Proof. intros [Hf _]%andb_prop Hv. apply String.eqb_neq. congruence. Qed.

Lemma line_read flag l : is_flag flag = true -> lone flag = false -> Forall (plain_item lone) l -> arg_after (line_of l) flag = opt_get flag l.
Proof.
  intros Hf Hn. induction 1 as [|[f|f v] l [Hi Hv] _ IH]; [done| |]; unfold line_of in *; cbn [mbind list_bind words app opt_get].
  - rewrite arg_after_cons; [done|]. apply String.eqb_neq. congruence.
  - destruct (String.eqb flag f) eqn:E.
    + unfold arg_after. cbn [find_index]. by rewrite E.
    + rewrite arg_after_cons by done. rewrite arg_after_cons; [done|]. by apply plain_not_flag.
Qed.

Lemma line_read_both flag l : is_flag flag = true -> lone flag = false -> Forall (plain_item lone) l ->
  argVal (line_of l) flag = opt_get flag l /\ arg_after (line_of l) flag = opt_get flag l.
Proof. intros Hf Hn Hl. split; [|by apply line_read]. unfold argVal. rewrite no_assignment by done. by apply line_read. Qed.
End Line.

(** ** The event read back *)

Definition opt_text (v : js) : option string := match v with JStr "" => None | JStr t => Some t | _ => None end.
Definition opt_item (flag : string) (v : js) : list item := match opt_text v with Some t => [Opt flag t] | None => [] end.
Definition count_text (event : js) : string := to_str (event.["count"] ||? int 3).

Definition preflight_items (event : js) (cachedFile : option string) : list item :=
  let t := target_of event in
  opt_item "--id" event.["id"] ++ [Opt "--count" (count_text event); Lone "--defer-source-write"]
  ++ (if is_insert event then [Opt "--position" (t_position t)] else [])
  ++ opt_item "--element-id" (t_elementId t) ++ opt_item "--classes" (t_classes t) ++ opt_item "--tag" (t_tag t) ++ opt_item "--text" (t_text t)
  ++ (if negb (is_insert event) then opt_item "--page-url" event.["pageUrl"] else [])
  ++ opt_item "--file" (opt_js cachedFile).

(** What an option is given, when it is given: text that no helper takes for an option. *)
Definition plain_value (v : js) : Prop := truthy v = true -> exists t, v = JStr t /\ starts_with "--" t = false.
Definition option_values (event : js) (cachedFile : option string) : list js :=
  let t := target_of event in
  [event.["id"]; JStr (count_text event); t_elementId t; t_classes t; t_tag t; t_text t; event.["pageUrl"]; opt_js cachedFile].

(** The options of a command line that was built for [event], and what each of them says. *)
Definition event_options (event : js) (cachedFile : option string) : list (string * option string) :=
  let t := target_of event in
  [ ("--id", opt_text event.["id"]); ("--count", Some (count_text event));
    ("--position", if is_insert event then Some (t_position t) else None);
    ("--element-id", opt_text (t_elementId t)); ("--classes", opt_text (t_classes t)); ("--tag", opt_text (t_tag t));
    ("--text", opt_text (t_text t)); ("--page-url", if is_insert event then None else opt_text event.["pageUrl"]);
    ("--file", opt_text (opt_js cachedFile)); ("--query", None) ].

Lemma option_arg_words flag v : plain_value v -> to_str <$> option_arg flag v = line_of (opt_item flag v).
Proof.
  unfold option_arg, opt_item, plain_value. destruct (truthy v) eqn:E.
  - intros (t & -> & _); [done|]. simpl in E. by destruct t.
  - intros _. destruct v as [| | | |[|] |  |]; done.
Qed.

Lemma opt_item_plain lone flag v : is_flag flag = true -> plain_value v -> Forall (plain_item lone) (opt_item flag v).
Proof.
  intros Hf Hv. unfold opt_item. destruct (opt_text v) as [t|] eqn:E; [|constructor].
  destruct v as [| | | |[|c s]| |]; try done. destruct Hv as (t' & [= <-] & Ht); [done|]. injection E as <-.
  by repeat constructor.
Qed.

Lemma line_of_app l1 l2 : line_of (l1 ++ l2) = line_of l1 ++ line_of l2.
Proof. apply bind_app. Qed.

Lemma opt_get_app flag l1 l2 : opt_get flag (l1 ++ l2) = match opt_get flag l1 with Some v => Some v | None => opt_get flag l2 end.
Proof. induction l1 as [|[f|f v] l1 IH]; [done|done|]. cbn [app opt_get]. by destruct (String.eqb flag f). Qed.

Lemma opt_get_item flag f v : opt_get flag (opt_item f v) = if String.eqb flag f then opt_text v else None.
Proof. unfold opt_item. destruct (opt_text v) as [t|]; simpl; by destruct (String.eqb flag f). Qed.

Definition lone_flag (f : string) : bool := String.eqb f "--defer-source-write".

Lemma preflight_line event file : plain_value event.["id"] -> truthy event.["id"] = true -> Forall plain_value (option_values event file) ->
  to_str <$> preflight_args event file = line_of (preflight_items event file).
Proof.
  intros Hid Ht Hv. unfold preflight_args, preflight_items. rewrite !fmap_app, !line_of_app.
  repeat (apply Forall_cons in Hv as [? Hv]).
  replace (opt_item "--id" event.["id"]) with [Opt "--id" (to_str event.["id"])].
  2: { destruct (Hid Ht) as (t & Et & _). rewrite Et in *. destruct t; done. }
  rewrite !option_arg_words by done.
  destruct (is_insert event); cbn [negb]; rewrite ?option_arg_words by done; reflexivity.
Qed.

Lemma preflight_plain event file : starts_with "--" (t_position (target_of event)) = false -> Forall plain_value (option_values event file) ->
  Forall (plain_item lone_flag) (preflight_items event file).
Proof.
  intros Hp Hv. unfold preflight_items. unfold option_values in Hv. repeat (apply Forall_cons in Hv as [? Hv]).
  repeat (apply Forall_app; split); try (by apply opt_item_plain).
  - repeat constructor; try done. destruct (count_text event) as [|c s] eqn:E; [done|]. by destruct H0 as (t & [= <-] & ?).
  - destruct (is_insert event); by repeat constructor.
  - destruct (is_insert event); [done|]. by apply opt_item_plain.
Qed.

Lemma position_plain event : starts_with "--" (t_position (target_of event)) = false.
Proof. unfold target_of, insertTarget. destruct (is_insert event); [|done]. simpl. by destruct (strict_eq _ _). Qed.

Lemma some_or_none {A} (o : option A) : match o with Some v => Some v | None => None end = o.
Proof. by destruct o. Qed.

Lemma options_of_items event file :
  Forall (fun o => opt_get o.1 (preflight_items event file) = o.2 /\ is_flag o.1 = true /\ lone_flag o.1 = false) (event_options event file).
Proof.
  unfold event_options, preflight_items. repeat apply Forall_cons_2; [..|by apply Forall_nil_2]; (split; [|done]); cbn [fst snd];
    destruct (is_insert event); repeat first [rewrite opt_get_app|rewrite opt_get_item|progress cbn -[t_elementId t_classes t_tag t_text t_position opt_text count_text opt_js]];
    by rewrite ?some_or_none.
Qed.

(** C19: The helpers read from the command line what the event says. Of the command that is built for a generation whose
    values do not begin with two dashes, both ways in which live-wrap and live-insert look for an option give, for every
    option, the value of the event (the file is the cached one), nothing for an option the event does not have, and the
    request not to write the source. *)
Theorem helpers_read_the_event event scriptsDir c cmd :
  buildGenerationPreflight event scriptsDir c = Some cmd ->
  let file := assoc_get (targetSignature event) c in
  Forall plain_value (option_values event file) ->
  let argv := to_str <$> tail (c_args cmd) in
  Forall (fun o => argVal argv o.1 = o.2 /\ arg_after argv o.1 = o.2) (event_options event file)
  /\ existsb (String.eqb "--defer-source-write") argv = true.
Proof.
  unfold buildGenerationPreflight. destruct (truthy event.["id"]) eqn:Hid; [|by rewrite !orb_true_r].
  destruct (negb (truthy event) || _ || _); [done|]. destruct (negb _ && negb _); [done|]. intros [= <-] Hv.
  cbn [c_args tail]. rewrite preflight_line; [|exact (Forall_inv Hv)|done|done]. split.
  - eapply Forall_impl; [apply options_of_items|]. intros [flag v] (<- & Hf & Hn).
    apply (line_read_both lone_flag); [done..|]. apply preflight_plain; [apply position_plain|done].
  - apply existsb_exists. exists "--defer-source-write". split; [|done]. unfold preflight_items.
    apply list_elem_of_In. rewrite line_of_app. apply elem_of_app. right. simpl. apply elem_of_cons. right. apply elem_of_cons. right. apply elem_of_cons. by left.
Qed.

Definition demo_generate (text : string) : js :=
  JObj [("type", JStr "generate"); ("id", JStr "ab12"); ("count", int 2); ("pageUrl", JStr "/about");
        ("element", JObj [("id", JStr "hero"); ("classes", JArr [JStr "card"; JStr "big"]); ("tagName", JStr "section"); ("textContent", JStr text)])].

Lemma helpers_read_the_event_witness :
  exists event c cmd, buildGenerationPreflight event "/s" c = Some cmd
  /\ let argv := to_str <$> tail (c_args cmd) in
     Forall (fun o => argVal argv o.1 = o.2 /\ arg_after argv o.1 = o.2) (event_options event (assoc_get (targetSignature event) c))
     /\ existsb (String.eqb "--defer-source-write") argv = true.
Proof.
  exists (demo_generate " Hello there "), [(targetSignature (demo_generate ""), "src/a.html")]. eexists. split; [by vm_compute|].
  apply (helpers_read_the_event (demo_generate " Hello there ") "/s" [(targetSignature (demo_generate ""), "src/a.html")]); [by vm_compute|].
  repeat apply Forall_cons_2; [..|by apply Forall_nil_2]; intros _; eexists; (split; [by vm_compute|by vm_compute]).
Defined.

(** The hypothesis matters: the text of the page is such a value, and text that reads like an option is one. *)
Example text_is_an_option : forall file : option string,
  argVal (to_str <$> preflight_args (demo_generate "--file=secret.html") file) "--file" = Some "secret.html".
Proof. intros [file|]; by vm_compute. Qed.

(** The text is not part of the signature: two elements that differ in nothing else share the file of the cache. *)
Example signature_ignores_text : targetSignature (demo_generate "One") = targetSignature (demo_generate "Two").
Proof. reflexivity. Qed.
