(* ===== verification/CssDeclarations.v ===== *)
(** * CSS declarations of the static engine ([detector/engines/static-html/css-cascade.mjs])

    How the text of a declaration is cut into tokens, how a colour is found in it, and what a shorthand says of the
    longhand properties the rules look at. The object tables of the code are association lists of their own
    properties: a property name that is also a member of Object.prototype is outside the model. *)
From S2P Require Import Prelude JsString JsValue JsRegex RegexFacts PollLanes.
Local Open Scope Z_scope.
Local Open Scope list_scope.

(** ** Tables *)

Definition STATIC_INHERITED_PROPS : list string :=
  [ "color"; "fontFamily"; "fontSize"; "fontStyle"; "fontWeight"; "fontVariant"; "lineHeight"; "letterSpacing"; "textTransform";
    "textAlign"; "hyphens"; "webkitHyphens" ].
Definition STATIC_DEFAULT_STYLE : list (string * string) :=
  [ ("color", "rgb(0, 0, 0)"); ("backgroundColor", "rgba(0, 0, 0, 0)"); ("backgroundImage", "none"); ("borderTopWidth", "0px");
    ("borderRightWidth", "0px"); ("borderBottomWidth", "0px"); ("borderLeftWidth", "0px"); ("borderTopColor", "rgb(0, 0, 0)");
    ("borderRightColor", "rgb(0, 0, 0)"); ("borderBottomColor", "rgb(0, 0, 0)"); ("borderLeftColor", "rgb(0, 0, 0)");
    ("borderRadius", "0px"); ("outlineWidth", "0px"); ("outlineColor", "rgb(0, 0, 0)"); ("outlineStyle", "none");
    ("boxShadow", "none"); ("textShadow", "none"); ("fontFamily", ""); ("fontSize", "16px"); ("fontStyle", "normal");
    ("fontVariant", "normal"); ("fontWeight", "400"); ("lineHeight", "normal"); ("letterSpacing", "normal");
    ("textTransform", "none"); ("textAlign", "start"); ("hyphens", "manual"); ("webkitHyphens", "manual");
    ("transitionProperty", ""); ("transitionTimingFunction", ""); ("animationName", ""); ("animationTimingFunction", "");
    ("webkitBackgroundClip", ""); ("backgroundClip", ""); ("width", ""); ("height", ""); ("paddingTop", "0px");
    ("paddingRight", "0px"); ("paddingBottom", "0px"); ("paddingLeft", "0px"); ("marginTop", "0px"); ("marginRight", "0px");
    ("marginBottom", "0px"); ("marginLeft", "0px"); ("position", "static"); ("visibility", "visible"); ("top", "auto");
    ("right", "auto"); ("bottom", "auto"); ("left", "auto"); ("inset", ""); ("display", ""); ("overflow", "visible");
    ("overflowX", "visible"); ("overflowY", "visible") ].
Definition STATIC_PROP_MAP : list (string * string) :=
  [ ("background-color", "backgroundColor"); ("background-image", "backgroundImage"); ("background-clip", "backgroundClip");
    ("-webkit-background-clip", "webkitBackgroundClip"); ("border-radius", "borderRadius"); ("border-top-width", "borderTopWidth");
    ("border-right-width", "borderRightWidth"); ("border-bottom-width", "borderBottomWidth");
    ("border-left-width", "borderLeftWidth"); ("border-top-color", "borderTopColor"); ("border-right-color", "borderRightColor");
    ("border-bottom-color", "borderBottomColor"); ("border-left-color", "borderLeftColor"); ("outline-width", "outlineWidth");
    ("outline-color", "outlineColor"); ("outline-style", "outlineStyle"); ("box-shadow", "boxShadow"); ("text-shadow", "textShadow");
    ("font-family", "fontFamily"); ("font-size", "fontSize"); ("font-style", "fontStyle"); ("font-weight", "fontWeight");
    ("line-height", "lineHeight"); ("letter-spacing", "letterSpacing"); ("text-transform", "textTransform");
    ("text-align", "textAlign"); ("hyphens", "hyphens"); ("-webkit-hyphens", "webkitHyphens");
    ("transition-property", "transitionProperty"); ("transition-timing-function", "transitionTimingFunction");
    ("animation-name", "animationName"); ("animation-timing-function", "animationTimingFunction"); ("width", "width");
    ("height", "height"); ("padding-top", "paddingTop"); ("padding-right", "paddingRight"); ("padding-bottom", "paddingBottom");
    ("padding-left", "paddingLeft"); ("margin-top", "marginTop"); ("margin-right", "marginRight"); ("margin-bottom", "marginBottom");
    ("margin-left", "marginLeft"); ("position", "position"); ("visibility", "visibility"); ("top", "top"); ("right", "right");
    ("bottom", "bottom"); ("left", "left"); ("inset", "inset"); ("display", "display"); ("overflow", "overflow");
    ("overflow-x", "overflowX"); ("overflow-y", "overflowY") ].

(** The named colours of [detector/rules/checks.mjs]. *)
Definition CSS_NAMED_COLORS : list (string * (Z * Z * Z)) :=
  [ ("black", (0, 0, 0)); ("white", (255, 255, 255)); ("gray", (128, 128, 128)); ("grey", (128, 128, 128));
    ("silver", (192, 192, 192)); ("dimgray", (105, 105, 105)); ("darkgray", (169, 169, 169)); ("lightgray", (211, 211, 211));
    ("gainsboro", (220, 220, 220)); ("whitesmoke", (245, 245, 245)); ("red", (255, 0, 0)); ("crimson", (220, 20, 60));
    ("tomato", (255, 99, 71)); ("coral", (255, 127, 80)); ("salmon", (250, 128, 114)); ("orange", (255, 165, 0));
    ("gold", (255, 215, 0)); ("yellow", (255, 255, 0)); ("olive", (128, 128, 0)); ("lime", (0, 255, 0)); ("green", (0, 128, 0));
    ("teal", (0, 128, 128)); ("turquoise", (64, 224, 208)); ("cyan", (0, 255, 255)); ("aqua", (0, 255, 255));
    ("skyblue", (135, 206, 235)); ("dodgerblue", (30, 144, 255)); ("blue", (0, 0, 255)); ("navy", (0, 0, 128));
    ("indigo", (75, 0, 130)); ("rebeccapurple", (102, 51, 153)); ("purple", (128, 0, 128)); ("violet", (238, 130, 238));
    ("orchid", (218, 112, 214)); ("magenta", (255, 0, 255)); ("fuchsia", (255, 0, 255)); ("hotpink", (255, 105, 180));
    ("pink", (255, 192, 203)); ("maroon", (128, 0, 0)) ].

(** ** Lists and tokens *)

Definition BACKSLASH : ascii := chr 92.
Definition is_quote (c : ascii) : bool := Ascii.eqb c DQ || Ascii.eqb c "'".
(** The quote that is open after [c] in quoted text: an escaped quote does not close it. *)
Definition in_quote (q c prev : ascii) : option ascii := if Ascii.eqb c q && negb (Ascii.eqb prev BACKSLASH) then None else Some q.

(** [prev] is the character before, [cur] what has been read of the part. *)
Fixpoint list_parts (quote : option ascii) (depth : nat) (prev : ascii) (cur s : string) : list string :=
  match s with
  | "" => let tail := trim cur in if String.eqb tail "" then [] else [tail]
  | String c s =>
    let more quote depth := list_parts quote depth c (cur +:+ String c "") s in
    match quote with
    | Some q => more (in_quote q c prev) depth
    | None =>
      if is_quote c then more (Some c) depth
      else if Ascii.eqb c "(" || Ascii.eqb c "[" then more None (S depth)
      else if Ascii.eqb c ")" || Ascii.eqb c "]" then more None (pred depth)
      else if Ascii.eqb c "," && (depth =? 0)%nat then trim cur :: list_parts None depth c "" s
      else more None depth
    end
  end%string.
Definition splitCssList (value : string) : list string := list_parts None 0 NL "" value.

Definition push_token (cur : string) (l : list string) : list string := if String.eqb cur "" then l else cur :: l.
Fixpoint token_parts (quote : option ascii) (depth : nat) (prev : ascii) (cur s : string) : list string :=
  match s with
  | "" => push_token cur []
  | String c s =>
    let more quote depth := token_parts quote depth c (cur +:+ String c "") s in
    match quote with
    | Some q => more (in_quote q c prev) depth
    | None =>
      if is_quote c then more (Some c) depth
      else if Ascii.eqb c "(" then more None (S depth)
      else if Ascii.eqb c ")" then more None (pred depth)
      else if is_space c && (depth =? 0)%nat then push_token cur (token_parts None depth c "" s)
      else more None depth
    end
  end%string.
Definition splitCssTokens (value : string) : list string := token_parts None 0 NL "" value.

Definition upper_char (c : ascii) : ascii := if is_lower c then chr (nat_of_ascii c - 32) else c.
Definition capitalize (s : string) : string := match s with String c s => String (upper_char c) s | "" => "" end%string.
Definition HYPHEN_RE : re := (lit "-" ⋅ RGroup 1 (RClass is_lower))%re.
Definition cssPropToCamel (prop : string) : string :=
  if String.eqb prop "" then prop else
  match assoc_get prop STATIC_PROP_MAP with
  | Some mapped => mapped
  | None => re_replace_all HYPHEN_RE (fun m => capitalize (group_or "" m 1)) prop
  end.

(** ** Colours *)

(** One of the words, tried in their order. *)
Fixpoint words_of (l : list string) : re :=
  match l with [] => RClass (fun _ => false) | [w] => liti w | w :: l => (liti w ∥ words_of l)%re end.
Definition NAMED_COLOR_TOKENS : list string := sort_by (fun a b => (slen b <? slen a)%nat) (CSS_NAMED_COLORS.*1 ++ ["transparent"]).
Definition call_of (name : re) : re := (name ⋅ lit "(" ⋅ rplus (RClass (none_of ")")) ⋅ lit ")")%re.
Definition is_hexi (c : ascii) : bool := is_digit c || one_of "abcdefABCDEF" c.
Definition STATIC_COLOR_TOKEN_RE : re :=
  (call_of (liti "rgb" ⋅ ropt (liti "a")) ∥ call_of (liti "oklch") ∥ call_of (liti "oklab") ∥ call_of (liti "lch") ∥ call_of (liti "lab")
   ∥ call_of (liti "hsl" ⋅ ropt (liti "a")) ∥ call_of (liti "hwb") ∥ (lit "#" ⋅ rtimes 3 8 (RClass is_hexi) ⋅ RWordB)
   ∥ (RWordB ⋅ words_of NAMED_COLOR_TOKENS ⋅ RWordB))%re.

(** The text up to the parenthesis that closes the first one. *)
Fixpoint balanced (depth : nat) (s : string) : option string :=
  match s with
  | "" => None
  | String c s =>
    if Ascii.eqb c "(" then String c <$> balanced (S depth) s
    else if Ascii.eqb c ")" then match depth with
      | 1%nat => Some (String c "")
      | _ => String c <$> balanced (pred depth) s
      end
    else String c <$> balanced depth s
  end%string.

Definition extractStaticColor (value : string) : string :=
  if String.eqb value "" then "" else
  let raw := trim value in
  if re_test (RBol ⋅ liti "var(")%re raw then raw else
  match re_exec (liti "color-mix(") raw with
  | Some m =>
    let mix := sdrop (m_index m) raw in
    let open := default 0%nat (index_of "(" mix) in
    match balanced 0 (sdrop open mix) with Some call => stake open mix +:+ call | None => "" end
  | None => match re_exec STATIC_COLOR_TOKEN_RE raw with Some m => m_text m | None => "" end
  end.

(** ** Shorthands *)

Definition expandStaticBoxValues (tokens : list string) : string * string * string * string :=
  match tokens with
  | [] => ("0px", "0px", "0px", "0px")
  | [a] => (a, a, a, a)
  | [a; b] => (a, b, a, b)
  | [a; b; c] => (a, b, c, b)
  | a :: b :: c :: d :: _ => (a, b, c, d)
  end.

Definition unit_re : re := (lit "px" ∥ lit "rem" ∥ lit "em" ∥ lit "%")%re.
Definition is_digit_dot (c : ascii) : bool := is_digit c || Ascii.eqb c ".".
Definition LENGTH_RE : re := (RBol ⋅ ropt (lit "-") ⋅ rplus (RClass is_digit_dot) ⋅ unit_re ⋅ REol)%re.

Definition border_token (acc : string * string) (token : string) : string * string :=
  (if String.eqb acc.1 "" && re_test LENGTH_RE token then token else acc.1,
   if String.eqb acc.2 "" then extractStaticColor token else acc.2).
(** The width and the colour, empty where there is none. *)
Definition parseStaticBorder (value : string) : string * string := foldl border_token ("", "")%string (splitCssTokens value).

Definition FONT_SIZE_RE : re :=
  ((RBol ∥ rspace) ⋅ RGroup 1 (rplus (RClass is_digit_dot) ⋅ unit_re) ⋅ ropt (lit "/" ⋅ RGroup 2 (rplus (RClass (fun c => negb (is_space c))))))%re.
Definition FONT_WEIGHT_RE : re :=
  (RWordB ⋅ RGroup 1 ((RClass (in_range 49 57) ⋅ lit "00") ∥ liti "bold" ∥ liti "normal" ∥ liti "lighter" ∥ liti "bolder") ⋅ RWordB)%re.
Definition parseStaticFont (value : string) : list (string * string) :=
  (if re_test (RWordB ⋅ liti "italic" ⋅ RWordB)%re value then [("fontStyle", "italic")] else [])
  ++ match re_exec FONT_WEIGHT_RE value with Some m => [("fontWeight", group_or "" m 1)] | None => [] end
  ++ match re_exec FONT_SIZE_RE value with
     | Some m =>
       let family := trim (sdrop (default 0%nat (index_of (m_text m) value) + slen (m_text m)) value) in
       [("fontSize", group_or "" m 1)]
       ++ (if String.eqb (group_or "" m 2) "" then [] else [("lineHeight", group_or "" m 2)])
       ++ (if String.eqb family "" then [] else [("fontFamily", family)])
     | None => []
     end.

Definition TIMING_RE : re := (RBol ⋅ (liti "ease" ∥ liti "linear" ∥ liti "step-" ∥ liti "cubic-bezier("))%re.
Definition one_word (l : list string) (t : string) : bool := existsb (String.eqb t) l.
Definition TRANSITION_KEYWORDS : list string := ["ease"; "linear"; "infinite"; "alternate"; "forwards"; "backwards"; "both"; "normal"; "none"].
Definition is_letter_dash (c : ascii) : bool := is_alpha c || Ascii.eqb c "-".
Definition transition_prop (t : string) : bool :=
  negb (String.eqb t "") && sforall is_letter_dash t && negb (one_word TRANSITION_KEYWORDS t) && negb (ends_with "s" t).
Definition animation_name (t : string) : bool :=
  re_test (RBol ⋅ RClass (fun c => is_alpha c || one_of "_-" c) ⋅ rstar (RClass (fun c => is_word c || Ascii.eqb c "-")) ⋅ REol)%re t
  && negb (one_word (TRANSITION_KEYWORDS ++ ["running"; "paused"]) t).
(** The first token of every item that passes, where one does. *)
Definition first_tokens (f : string -> bool) (value : string) : string :=
  join ", " (omap (fun item => List.find f (splitCssTokens item)) (splitCssList value)).
Definition parseStaticTransition (value : string) : string * string := (first_tokens transition_prop value, first_tokens (re_test TIMING_RE) value).
Definition parseStaticAnimation (value : string) : string * string := (first_tokens animation_name value, first_tokens (re_test TIMING_RE) value).

(** ** Declarations *)

Definition said (prop value : string) : list (string * string) := if String.eqb value "" then [] else [(prop, value)].
Definition SIDES : list string := ["Top"; "Right"; "Bottom"; "Left"].
Definition four (a b c d : string) (value : string) : list (string * string) :=
  let '(t, r, bo, l) := expandStaticBoxValues (splitCssTokens value) in [(a, t); (b, r); (c, bo); (d, l)].
Definition border_side (side : string) (value : string) : list (string * string) :=
  let '(width, color) := parseStaticBorder value in said ("border" +:+ side +:+ "Width") width ++ said ("border" +:+ side +:+ "Color") color.

Definition IMAGE_RE : re := (ropt (liti "repeating-") ⋅ (liti "linear" ∥ liti "radial" ∥ liti "conic") ⋅ liti "-gradient(" ∥ liti "url(")%re.
Definition before_image (v : string) : string := match re_exec IMAGE_RE v with Some m => stake (m_index m) v | None => v end.
Definition expand_background (v : string) : list (string * string) :=
  let hasImage := re_test (liti "gradient" ∥ liti "url(")%re v in
  let color := extractStaticColor (if hasImage then before_image v else v) in
  (if hasImage then [("backgroundImage", v)] else []) ++ said "backgroundColor" color
  ++ (if String.eqb color "" && negb hasImage && negb (re_test (liti "var(") v)
      then [("backgroundColor", "rgba(0, 0, 0, 0)"); ("backgroundImage", "none")] else []).

Definition OUTLINE_STYLES : list string := ["none"; "hidden"; "solid"; "dashed"; "dotted"; "double"; "groove"; "ridge"; "inset"; "outset"].
Definition ZERO_RE : re := (RBol ⋅ lit "0" ⋅ ropt unit_re ⋅ REol)%re.
Definition expand_outline (v : string) : list (string * string) :=
  let '(width, color) := parseStaticBorder v in
  said "outlineWidth" width ++ said "outlineColor" color
  ++ match List.find (fun t => one_word OUTLINE_STYLES (to_lower t)) (splitCssTokens v) with
     | Some t => [("outlineStyle", to_lower t)]
     | None => []
     end
  ++ (if String.eqb width "" && re_test ZERO_RE (trim v) then [("outlineWidth", "0px")] else []).

Definition longhand (p v : string) : list (string * string) :=
  let mapped := cssPropToCamel p in
  if existsb (String.eqb mapped) (keys STATIC_DEFAULT_STYLE) || existsb (String.eqb mapped) STATIC_INHERITED_PROPS then [(mapped, v)] else [].

Definition expandStaticDeclaration (prop value : string) : list (string * string) :=
  let p := to_lower prop in
  let v := trim value in
  if String.eqb v "" then []
  else if starts_with "--" p then [(p, v)]
  else if String.eqb p "background" then expand_background v
  else if String.eqb p "border" then SIDES ≫= (fun side => border_side side v)
  else if String.eqb p "outline" then expand_outline v
  else match List.find (fun side => String.eqb p ("border-" +:+ side)) ["top"; "right"; "bottom"; "left"]%string with
  | Some side => border_side (capitalize side) v
  | None =>
    if String.eqb p "border-width" then four "borderTopWidth" "borderRightWidth" "borderBottomWidth" "borderLeftWidth" v
    else if String.eqb p "border-color" then four "borderTopColor" "borderRightColor" "borderBottomColor" "borderLeftColor" v
    else if String.eqb p "padding" then four "paddingTop" "paddingRight" "paddingBottom" "paddingLeft" v
    else if String.eqb p "margin" then four "marginTop" "marginRight" "marginBottom" "marginLeft" v
    else if String.eqb p "font" then parseStaticFont v
    else if String.eqb p "transition" then said "transitionProperty" (parseStaticTransition v).1 ++ said "transitionTimingFunction" (parseStaticTransition v).2
    else if String.eqb p "animation" then said "animationName" (parseStaticAnimation v).1 ++ said "animationTimingFunction" (parseStaticAnimation v).2
    else longhand p v
  end.

(** A style attribute: the declarations, their importance and their order. *)
Record inline_decl := InlineDecl { id_prop : string; id_value : string; id_important : bool; id_order : Z }.
Definition IMPORTANT_RE : re := (rstar rspace ⋅ liti "!important" ⋅ rstar rspace ⋅ REol)%re.
Fixpoint style_parts (order : Z) (parts : list string) : list inline_decl :=
  match parts with
  | [] => []
  | part :: parts =>
    match index_of ":" part with
    | Some (S _ as idx) =>
      let value := trim (sdrop (S idx) part) in
      InlineDecl (trim (stake idx part)) (trim (re_replace IMPORTANT_RE (fun _ => "") value)) (re_test (liti "!important" ⋅ rstar rspace ⋅ REol)%re value) order
      :: style_parts (order + 1) parts
    | _ => style_parts order parts
    end
  end.
Definition parseStaticStyleAttribute (styleText : string) (orderBase : Z) : list inline_decl := style_parts orderBase (split_char ";" styleText).
