(* ===== verification/CssCascade.v ===== *)
(** * The cascade of the static engine ([detector/engines/static-html/css-cascade.mjs])

    Rules are taken out of the style sheets, matched against the elements of a page, and of the declarations of a
    property the one with the highest priority is kept; then the styles are computed down the tree. The parser of
    CSS and the selector engine (css-tree and css-select) are arguments, as are the colour parser and the
    multiplications of [detector/rules/checks.mjs], which compute with floating-point numbers.

    An element has a key, its identity in the maps of the code. *)
From S2P Require Import Prelude JsString JsValue JsRegex RegexFacts PollLanes CssDeclarations.
Local Open Scope Z_scope.
Local Open Scope list_scope.

(** ** Style sheets *)

Record css_decl := CssDecl { cd_prop : string; cd_value : string; cd_important : bool }.
(** A style rule with the generated text of its selectors, an at-rule with a block, anything else. *)
Inductive css_node : Type :=
| StyleRule (prelude : string) (declarations : list css_decl)
| BlockRule (name : string) (children : list css_node)
| OtherRule.

Record specificity := Specificity { sp_ids : Z; sp_classes : Z; sp_types : Z }.
Record css_rule := CssRule {
  cr_selector : string; cr_declarations : list css_decl; cr_specificity : specificity; cr_order : Z;
  cr_hover : bool; cr_match : option string }.

Definition is_name (c : ascii) : bool := is_word c || Ascii.eqb c "-".
Definition name_re : re := rplus (RClass is_name).
Definition args_re : re := ropt (lit "(" ⋅ rstar (RClass (none_of ")")) ⋅ lit ")")%re.
Definition WHERE_RE : re := (lit ":where(" ⋅ rstar (RClass (none_of ")")) ⋅ lit ")")%re.
Definition ID_RE : re := (lit "#" ⋅ name_re)%re.
Definition attr_re : re := (lit "[" ⋅ rplus (RClass (none_of "]")) ⋅ lit "]")%re.
Definition CLASS_RE : re := (lit "." ⋅ name_re ∥ attr_re ∥ (lit ":" ⋅ RLook true (lit ":") ⋅ name_re ⋅ args_re))%re.
Definition CLASS_OR_PSEUDO_RE : re := (lit "." ⋅ name_re ∥ attr_re ∥ (rtimes 1 2 (lit ":") ⋅ name_re ⋅ args_re))%re.
Definition TYPE_RE : re := (RWordB ⋅ RClass is_alpha ⋅ rstar (RClass is_name) ⋅ RWordB)%re.
Definition count_of (r : re) (s : string) : Z := Z.of_nat (length (re_match_all r s)).

Definition staticSpecificity (selector : string) : specificity :=
  let noWhere := re_replace_all WHERE_RE (fun _ => "") selector in
  let stripped := re_replace_all ID_RE (fun _ => " ") noWhere in
  let stripped := re_replace_all CLASS_OR_PSEUDO_RE (fun _ => " ") stripped in
  let stripped := smap (fun c => if one_of "*>+~()," c then " " else c)%char stripped in
  Specificity (count_of ID_RE noWhere) (count_of CLASS_RE noWhere) (count_of TYPE_RE stripped).

Definition HOVER_RE : re := (liti ":hover" ⋅ RWordB)%re.
Definition is_combinator (c : ascii) : bool := one_of ">+~" c.
Definition HOLE_RE : re := (RGroup 1 (RBol ∥ RClass (fun c => is_space c || is_combinator c)) ⋅ RLook false (REol ∥ RClass (fun c => is_space c || is_combinator c)))%re.
(** The selector without its hover state; [None] where nothing is left to match. *)
Definition hover_target (selector : string) : option string :=
  let bare := trim (re_replace_all HOVER_RE (fun _ => "") selector) in
  if String.eqb bare "" || re_test (RClass is_combinator ⋅ rstar rspace ⋅ REol)%re bare then None
  else Some (re_replace_all HOLE_RE (fun m => group_or "" m 1 +:+ "*") bare).

Definition generated (d : css_decl) : css_decl := CssDecl (cd_prop d) (trim (cd_value d)) (cd_important d).
Definition is_keyframes (name : string) : bool := ends_with "keyframes" (to_lower name).
Fixpoint walkList (atRuleStack : list string) (n : css_node) : list (string * list css_decl) :=
  match n with
  | StyleRule prelude declarations =>
    if existsb is_keyframes atRuleStack then []
    else (fun selector => (selector, generated <$> declarations)) <$> bfilter (fun s => negb (String.eqb s "")) (splitCssList (trim prelude))
  | BlockRule name children =>
    let name := to_lower name in
    if existsb (String.eqb name) ["media"; "supports"; "layer"] then flat_map (walkList (atRuleStack ++ [name])) children else []
  | OtherRule => []
  end.
Definition rule_of (i : nat) (sd : string * list css_decl) : css_rule :=
  let hover := re_test HOVER_RE sd.1 in
  CssRule sd.1 sd.2 (staticSpecificity sd.1) (Z.of_nat i) hover (if hover then hover_target sd.1 else None).
Definition collectStaticCssRules (sheet : list css_node) : list css_rule := imap rule_of (flat_map (walkList []) sheet).

(** ** Priority *)

Record meta := Meta { m_important : bool; m_specificity : specificity; m_order : Z; m_inline : bool }.
Record decl := Decl { d_meta : meta; d_value : string }.

Definition compareStaticPriority (existing : option decl) (next : decl) : bool :=
  match existing with
  | None => true
  | Some a =>
    let a := d_meta a in let b := d_meta next in
    let sa := m_specificity a in let sb := m_specificity b in
    if negb (Bool.eqb (m_important b) (m_important a)) then m_important b
    else if negb (Bool.eqb (m_inline b) (m_inline a)) then m_inline b
    else if negb (sp_ids sb =? sp_ids sa) then sp_ids sa <? sp_ids sb
    else if negb (sp_classes sb =? sp_classes sa) then sp_classes sa <? sp_classes sb
    else if negb (sp_types sb =? sp_types sa) then sp_types sa <? sp_types sb
    else m_order a <=? m_order b
  end.

Notation decls := (list (string * decl)).
Notation specified := (gmap Z decls).

Definition keep_best (meta : meta) (map : decls) (pv : string * string) : decls :=
  let next := Decl meta pv.2 in if compareStaticPriority (assoc_get pv.1 map) next then assoc_set pv.1 next map else map.
Definition applyStaticDeclaration (s : specified) (node : Z) (prop value : string) (meta : meta) : specified :=
  <[node := foldl (keep_best meta) (default [] (s !! node)) (expandStaticDeclaration prop value)]> s.

(** ** Custom properties *)

Notation custom := (list (string * string)).
Definition VAR_RE : re :=
  (lit "var(" ⋅ rstar rspace ⋅ RGroup 1 (lit "--" ⋅ rplus (RClass is_name)) ⋅ rstar rspace
   ⋅ ropt (lit "," ⋅ rstar rspace ⋅ RGroup 2 (rplus (RClass (none_of ")")))) ⋅ lit ")")%re.
Fixpoint resolve_var (levels : nat) (raw : string) (customs : custom) : string :=
  match levels with
  | O => raw
  | S levels =>
    if negb (includes "var(" raw) then raw else
    re_replace_all VAR_RE (fun m =>
      match assoc_get (group_or "" m 1) customs with
      | Some v => resolve_var levels v customs
      | None => match group m 2 with
                | Some fallback => if String.eqb fallback "" then m_text m else resolve_var levels (trim fallback) customs
                | None => m_text m
                end
      end) raw
  end.
(** Nine levels: the depths 0 to 8. *)
Definition resolveVarRefs (raw : string) (customs : custom) : string := resolve_var 9 raw customs.

Definition CUSTOM_RE : re := (RGroup 1 (lit "--" ⋅ name_re) ⋅ rstar rspace ⋅ lit ":" ⋅ rstar rspace ⋅ RGroup 2 (rplus (RClass (none_of ";{}"))))%re.
Definition collectCssCustomProps (content : string) : custom :=
  foldl (fun map m => match assoc_get (group_or "" m 1) map with Some _ => map | None => assoc_set (group_or "" m 1) (trim (group_or "" m 2)) map end)
    [] (re_match_all CUSTOM_RE content).

(** ** Elements *)

(** An element with its key, its style attribute and its children; text and comments. *)
Inductive dnode : Type :=
| Tag (key : Z) (styleText : option string) (children : list dnode)
| OtherNode.
Definition key_of (n : dnode) : Z := match n with Tag k _ _ => k | OtherNode => -1 end.
Definition style_text (n : dnode) : string := match n with Tag _ (Some t) _ => t | _ => "" end.

(** A colour: the channels, and the alpha where there is one. *)
Record color := Color { c_r : num; c_g : num; c_b : num; c_a : option num }.
Notation style := (list (string * string)).

Section Engine.
(** [parseAnyColor] and [resolveLengthPx] of the rules, and the rounding of an alpha to three decimals. *)
Context (parseAnyColor : string -> option color) (resolveLengthPx : string -> num -> option num) (fixed3 : num -> num).
(** The selector engine over the page: the elements in document order, or a selector it refuses. *)
Context (selectAll : string -> option (list dnode)).

(** ** Normalised values *)

Definition staticColorToCss (c : color) : string :=
  let rgb := num_to_string (c_r c) +:+ ", " +:+ num_to_string (c_g c) +:+ ", " +:+ num_to_string (c_b c) in
  match c_a c with
  | Some a => if num_ltb a (NInt 1) then "rgba(" +:+ rgb +:+ ", " +:+ num_to_string (fixed3 a) +:+ ")" else "rgb(" +:+ rgb +:+ ")"
  | None => "rgb(" +:+ rgb +:+ ")"
  end.
Definition parseStaticColor (value : string) : option color :=
  match parseAnyColor value with
  | Some c => Some c
  | None => if String.eqb (to_lower (trim value)) "transparent" then Some (Color (NInt 0) (NInt 0) (NInt 0) (Some (NInt 0))) else None
  end.

Definition MODERN_COLOR_RE : re :=
  (RBol ⋅ (liti "oklch" ∥ liti "oklab" ∥ liti "lch" ∥ liti "lab" ∥ liti "hsl" ∥ liti "hwb") ⋅ lit "(")%re.
Definition BORDER_COLOR_RE : re := (RBol ⋅ lit "border" ⋅ RClass is_upper ⋅ rplus (RClass is_lower) ⋅ lit "Color" ⋅ REol)%re.
Definition font_base (size : option string) : num :=
  match parse_float (default "" size) with NNaN | NInt 0 => NInt 16 | n => n end.
Definition in_px (resolved : string) (base : num) : string :=
  match resolveLengthPx resolved base with Some px => num_to_string px +:+ "px" | None => resolved end.
Definition style_or_none (parent : option style) (prop : string) : option string := parent ≫= assoc_get prop.
(** [currentStyle?.fontSize || parentStyle?.fontSize]. *)
Definition font_of (current parent : option style) : option string :=
  match style_or_none current "fontSize" with Some "" | None => style_or_none parent "fontSize" | size => size end.

Definition normalizeStaticCssValue (prop value : string) (customs : custom) (parent current : option style) : string :=
  let resolved := resolveVarRefs (trim value) customs in
  if String.eqb resolved "inherit" then
    match style_or_none parent prop with
    | Some "" | None => default "" (assoc_get prop STATIC_DEFAULT_STYLE)
    | Some v => v
    end
  else
  let modern := re_test BORDER_COLOR_RE prop && re_test MODERN_COLOR_RE resolved in
  let resolved := if negb modern && ends_with "color" (to_lower prop)
                  then match parseStaticColor resolved with Some c => staticColorToCss c | None => resolved end else resolved in
  if String.eqb prop "fontSize" then in_px resolved (font_base (style_or_none parent "fontSize"))
  else if String.eqb prop "letterSpacing" then in_px resolved (font_base (font_of current parent))
  else if String.eqb prop "lineHeight" && negb (String.eqb resolved "normal") then in_px resolved (font_base (font_of current parent))
  else resolved.

(** ** What the rules say of the elements *)

Record cascade := Cascade {
  k_specified : specified;
  k_hover : specified;
  k_dash : list Z;                  (* elements with an accent dash *)
  k_surface : gmap Z color }.       (* elements whose pseudo-element paints their background *)

Definition num_max (a b : num) : num := if num_ltb a b then b else a.
Definition num_min (a b : num) : num := if num_ltb b a then b else a.
Definition channel_spread (c : color) : num :=
  num_add (num_max (num_max (c_r c) (c_g c)) (c_b c)) (num_opp (num_min (num_min (c_r c) (c_g c)) (c_b c))).
Definition alpha_of (c : color) : num := default (NInt 1) (c_a c).

Definition CSS_LENGTH_RE : re := (RBol ⋅ RGroup 1 (ropt (lit "-") ⋅ rplus (RClass is_digit_dot)) ⋅ RGroup 2 (liti "px" ∥ liti "rem" ∥ liti "em") ⋅ REol)%re.
Definition times16 (a : num) : num :=
  match a with NInt z => NInt (16 * z) | NFrac n d => mk_num (16 * n) d | a => a end.
Definition cssLengthToPx (value : string) : option num :=
  m ← re_exec CSS_LENGTH_RE (trim value);
  let n := parse_float (group_or "" m 1) in
  Some (if String.eqb (to_lower (group_or "" m 2)) "px" then n else times16 n).

Definition PSEUDO_RE : re := (RBol ⋅ RGroup 1 (RRep false 1 None rdot) ⋅ rstar rspace ⋅ lit ":" ⋅ ropt (lit ":") ⋅ (liti "before" ∥ liti "after") ⋅ REol)%re.
Definition COLOR_CALL_RE : re :=
  (((liti "rgb" ⋅ ropt (liti "a")) ∥ (liti "hsl" ⋅ ropt (liti "a")) ∥ liti "oklch" ∥ liti "oklab" ∥ liti "lab" ∥ liti "lch" ∥ liti "hwb" ∥ liti "color-mix")
   ⋅ lit "(" ⋅ rstar (RClass (none_of ")")) ⋅ args_re ⋅ rstar (RClass (none_of ")")) ⋅ lit ")"
   ∥ (lit "#" ⋅ rtimes 3 8 (RClass is_hexi) ⋅ RWordB))%re.
Definition color_in (raw : string) : option color :=
  parseAnyColor (match re_exec COLOR_CALL_RE raw with Some m => m_text m | None => raw end).

Definition decl_map (l : list css_decl) : list (string * string) := foldl (fun map d => assoc_set (to_lower (cd_prop d)) (cd_value d) map) [] l.
(** [a || b || ''] of two entries. *)
Definition first_of (map : list (string * string)) (a b : string) : string :=
  match assoc_get a map with Some "" | None => default "" (assoc_get b map) | Some v => v end.

Definition within (lo hi : Z) (n : num) : bool := num_leb (NInt lo) n && num_leb n (NInt hi).
Definition is_dash (map : list (string * string)) (rootCustom : custom) : bool :=
  match cssLengthToPx (resolveVarRefs (first_of map "width" "inline-size") rootCustom), cssLengthToPx (resolveVarRefs (first_of map "height" "block-size") rootCustom) with
  | Some w, Some h =>
    within 8 80 w && within 1 6 h
    && match color_in (resolveVarRefs (first_of map "background-color" "background") rootCustom) with
       | Some c => num_leb (mk_num 1 10) (alpha_of c) && num_leb (NInt 30) (channel_spread c)
       | None => false
       end
  | _, _ => false
  end.

Definition zero_len (v : string) : bool := re_test (RBol ⋅ lit "0" ⋅ ropt (lit "px") ⋅ REol)%re v.
Definition covers_box (map : list (string * string)) : bool :=
  let inset := trim (default "" (assoc_get "inset" map)) in
  let get p := default "" (assoc_get p map) in
  (negb (String.eqb inset "") && forallb zero_len (re_split (rplus rspace) inset))
  || forallb (fun side => match assoc_get side map with Some v => zero_len (trim v) | None => false end) ["top"; "right"; "bottom"; "left"]
  || (String.eqb (trim (get "width")) "100%" && String.eqb (trim (get "height")) "100%").
Definition pseudo_surface (map : list (string * string)) (rootCustom : custom) : option color :=
  let position := to_lower (default "" (assoc_get "position" map)) in
  if (String.eqb position "absolute" || String.eqb position "fixed") && covers_box map && existsb (String.eqb "content") (keys map) then
    let raw := resolveVarRefs (first_of map "background-color" "background") rootCustom in
    match color_in raw with
    | Some c => if num_leb (mk_num 9 10) (alpha_of c) && negb (re_test (liti "gradient") raw) then Some c else None
    | None => None
    end
  else None.

Definition selected (selector : string) : list Z := key_of <$> default [] (selectAll selector).
Definition mark_pseudo (rootCustom : custom) (base : string) (r : css_rule) (k : cascade) : cascade :=
  let map := decl_map (cr_declarations r) in
  Cascade (k_specified k) (k_hover k)
    (if is_dash map rootCustom then k_dash k ++ selected base else k_dash k)
    (match pseudo_surface map rootCustom with
     | Some c => foldl (fun m node => <[node := c]> m) (k_surface k) (selected base)
     | None => k_surface k
     end).

Definition rule_meta (r : css_rule) (d : css_decl) : meta := Meta (cd_important d) (cr_specificity r) (cr_order r) false.
Definition apply_rule (r : css_rule) (s : specified) (node : Z) : specified :=
  foldl (fun s d => applyStaticDeclaration s node (cd_prop d) (cd_value d) (rule_meta r d)) s (cr_declarations r).

(** A rule for a pseudo-element; [None] for the others, and for hover rules. *)
Definition pseudo_base (r : css_rule) : option string :=
  if cr_hover r then None else (fun m => group_or "" m 1) <$> re_exec PSEUDO_RE (cr_selector r).
Definition match_selector (r : css_rule) : option string :=
  match (if cr_hover r then cr_match r else Some (cr_selector r)) with Some "" => None | s => s end.

Definition match_rule (rootCustom : custom) (k : cascade) (r : css_rule) : cascade :=
  match pseudo_base r with
  | Some base => mark_pseudo rootCustom base r k
  | None =>
    match match_selector r with
    | None => k
    | Some sel =>
      if cr_hover r then Cascade (k_specified k) (foldl (apply_rule r) (k_hover k) (selected sel)) (k_dash k) (k_surface k)
      else Cascade (foldl (apply_rule r) (k_specified k) (selected sel)) (k_hover k) (k_dash k) (k_surface k)
    end
  end.

Definition inline_meta (d : inline_decl) : meta := Meta (id_important d) (Specificity 1 0 0) (id_order d) true.
Definition apply_inline (s : specified) (node : Z) (d : inline_decl) : specified :=
  applyStaticDeclaration s node (id_prop d) (id_value d) (inline_meta d).
Fixpoint apply_style_attributes (order : Z) (nodes : list dnode) (s : specified) : specified :=
  match nodes with
  | [] => s
  | n :: nodes =>
    if String.eqb (style_text n) "" then apply_style_attributes order nodes s
    else apply_style_attributes (order + 1000) nodes (foldl (fun s d => apply_inline s (key_of n) d) s (parseStaticStyleAttribute (style_text n) order))
  end.

Definition match_all (rules : list css_rule) (rootCustom : custom) (allNodes : list dnode) : cascade :=
  let k := foldl (match_rule rootCustom) (Cascade ∅ ∅ [] ∅) rules in
  Cascade (apply_style_attributes (Z.of_nat (length rules) + 1) allNodes (k_specified k)) (k_hover k) (k_dash k) (k_surface k).

(** ** Computed styles *)

Definition is_custom (prop : string) : bool := starts_with "--" prop.
Definition custom_props (map : decls) (parentCustom : custom) : custom :=
  foldl (fun c pd => if is_custom pd.1 then assoc_set pd.1 (resolveVarRefs (d_value pd.2) c) c else c) parentCustom map.
Definition initial_values (parent : option style) : style :=
  (fun pd => (pd.1, if existsb (String.eqb pd.1) STATIC_INHERITED_PROPS then default pd.2 (style_or_none parent pd.1) else pd.2)) <$> STATIC_DEFAULT_STYLE.
Definition set_value (customs : custom) (parent : option style) (values : style) (pd : string * decl) : style :=
  if is_custom pd.1 then values else assoc_set pd.1 (normalizeStaticCssValue pd.1 (d_value pd.2) customs parent (Some values)) values.
Definition computed_values (map : decls) (customs : custom) (parent : option style) : style :=
  foldl (set_value customs parent) (initial_values parent) map.
Definition makeStaticStyle (values : style) : style := assoc_merge STATIC_DEFAULT_STYLE values.

(** The values while the pointer is over the element, where they differ. *)
Definition hover_value (k : cascade) (node : Z) (customs : custom) (parent : option style) (values : style) (prop : string) : option string :=
  hoverDecl ← (k_hover k !! node ≫= assoc_get prop);
  if negb (compareStaticPriority (k_specified k !! node ≫= assoc_get prop) hoverDecl) then None else
  let next := normalizeStaticCssValue prop (d_value hoverDecl) customs parent (Some values) in
  if String.eqb next (default "" (assoc_get prop values)) then None else Some next.
Definition hover_style (k : cascade) (node : Z) (customs : custom) (parent : option style) (values : style) : option style :=
  let changes := omap (fun prop => (fun v => (prop, v)) <$> hover_value k node customs parent values prop) ["color"; "backgroundColor"] in
  match changes with [] => None | _ => Some (makeStaticStyle (assoc_merge values changes)) end.

Record computed := Computed { cp_node : Z; cp_style : style; cp_hover : option style }.
Fixpoint computeNode (k : cascade) (n : dnode) (parent : option style) (parentCustom : custom) : list computed :=
  match n with
  | OtherNode => []
  | Tag key _ children =>
    let map := default [] (k_specified k !! key) in
    let customs := custom_props map parentCustom in
    let values := computed_values map customs parent in
    let style := makeStaticStyle values in
    Computed key style (hover_style k key customs parent values)
    :: flat_map (fun child => computeNode k child (Some style) customs) children
  end.

(** The document after [buildStaticStyleMap]: the styles, and the marks. A selector engine that refuses the universal
    selector throws. *)
Record styled := Styled { sd_styles : list computed; sd_cascade : cascade }.
Definition buildStaticStyleMap (parse : string -> option (list css_node)) (root : list dnode) (cssText : string) : result styled :=
  let rootCustom := collectCssCustomProps cssText in
  match selectAll "*" with
  | None => Throw (error "unsupported selector")
  | Some allNodes =>
    let rules := match parse cssText with Some sheet => collectStaticCssRules sheet | None => [] end in
    let k := match_all rules rootCustom allNodes in
    Ok (Styled (flat_map (fun child => computeNode k child None []) root) k)
  end.

(** [getStyle] and [getHoverStyle] of an element. *)
Definition getStyle (d : styled) (node : Z) : style :=
  match List.find (fun c => cp_node c =? node) (sd_styles d) with Some c => cp_style c | None => makeStaticStyle [] end.
Definition getHoverStyle (d : styled) (node : Z) : option style :=
  List.find (fun c => cp_node c =? node) (sd_styles d) ≫= cp_hover.
Definition getPropertyValue (s : style) (prop : string) : string :=
  match assoc_get (cssPropToCamel prop) s with Some "" | None => default "" (assoc_get prop s) | Some v => v end.
End Engine.
