(* ===== verification/CascadeFacts.v ===== *)
(** * What the cascade computes

    The declaration that is kept for a property is the one the order of CSS gives it to, among all the page offers;
    and the computed style of an element is that declaration's value, the parent's or the default. *)
From S2P Require Import Prelude JsString JsValue JsRegex RegexFacts PollLanes CssDeclarations CssCascade.
Local Open Scope Z_scope.
Local Open Scope list_scope.

(** ** The order of the cascade *)

Definition z_of (b : bool) : Z := if b then 1 else 0.
(** Importance, the style attribute, the specificity, the order of appearance. *)
Definition rank (d : decl) : list Z :=
  let m := d_meta d in let s := m_specificity m in
  [z_of (m_important m); z_of (m_inline m); sp_ids s; sp_classes s; sp_types s; m_order m].
Fixpoint rank_lt (a b : list Z) : bool :=
  match a, b with
  | x :: a, y :: b => (x <? y) || (x =? y) && rank_lt a b
  | _, _ => false
  end.
Definition outranks (a b : decl) : bool := rank_lt (rank b) (rank a).

(** The last of the highest: nothing before it outranks it, and it outranks everything after it. *)
Definition is_winner (offers : list decl) (w : decl) : Prop :=
  exists before after, offers = before ++ w :: after
  /\ Forall (fun c => outranks c w = false) before /\ Forall (fun c => outranks w c = true) after.

Lemma rank_lt_irrefl a : rank_lt a a = false.
Proof. induction a as [|x a IH]; [done|]. simpl. by rewrite Z.ltb_irrefl, IH, andb_false_r. Qed.

Lemma rank_lt_trans a b c : length a = length b -> length b = length c ->
  rank_lt b a = false -> rank_lt c b = false -> rank_lt c a = false.
Proof.
  revert b c; induction a as [|x a IH]; intros [|y b] [|z c] Hab Hbc; try done. simpl in *. injection Hab as Hab. injection Hbc as Hbc.
  rewrite !orb_false_iff, !andb_false_iff, !Z.ltb_ge, !Z.eqb_neq. intros [H1 H2] [H3 H4].
  split; [lia|]. destruct (decide (z = x)) as [->|]; [|lia]. assert (y = x) as -> by lia. right. apply (IH b c); destruct H2, H4; auto; lia.
Qed.

Lemma rank_lt_below a b c : length a = length b -> length b = length c ->
  rank_lt a b = true -> rank_lt c b = false -> rank_lt a c = true.
Proof.
  revert b c; induction a as [|x a IH]; intros [|y b] [|z c] Hab Hbc; try done. simpl in *. injection Hab as Hab. injection Hbc as Hbc.
  rewrite !orb_true_iff, !orb_false_iff, !andb_true_iff, !andb_false_iff, !Z.ltb_lt, !Z.ltb_ge, !Z.eqb_neq, !Z.eqb_eq.
  intros H1 [H2 H3]. destruct (decide (x = z)) as [->|]; [|left; lia]. right. split; [done|].
  destruct H1 as [|[-> H1]]; [lia|]. destruct H3; [lia|]. by apply (IH b c).
Qed.

Lemma rank_lt_asym a b : rank_lt a b = true -> rank_lt b a = false.
Proof.
  revert b; induction a as [|x a IH]; intros [|y b]; try done. simpl.
  rewrite orb_true_iff, orb_false_iff, andb_true_iff, andb_false_iff, Z.ltb_lt, Z.ltb_ge, Z.eqb_eq, Z.eqb_neq.
  intros [|[-> H]]; [split; [lia|left; lia]|]. split; [lia|]. right. by apply IH.
Qed.

Lemma compare_rank a d : compareStaticPriority (Some a) d = negb (rank_lt (rank d) (rank a)).
Proof.
  unfold compareStaticPriority, rank. destruct (d_meta a) as [ia [a1 a2 a3] oa na], (d_meta d) as [id [d1 d2 d3] od nd]. simpl.
  repeat match goal with |- context [negb (?x =? ?y)] => destruct (Z.eqb_spec x y) as [->|]; cbn [negb] end;
    destruct ia, id, na, nd; simpl; rewrite ?Z.ltb_irrefl, ?Z.eqb_refl; simpl; try done;
    repeat match goal with |- context [?x =? ?y] => destruct (Z.eqb_spec x y); try congruence end; simpl; rewrite ?orb_false_r;
    repeat match goal with |- context [?x <? ?y] => destruct (Z.ltb_spec x y) end;
    repeat match goal with |- context [?x <=? ?y] => destruct (Z.leb_spec x y) end; try done; lia.
Qed.

Definition pick (o : option decl) (d : decl) : option decl := if compareStaticPriority o d then Some d else o.

Lemma rank_length a b : length (rank a) = length (rank b).
Proof. done. Qed.

Lemma pick_winner offers w d : is_winner offers w ->
  exists w', pick (Some w) d = Some w' /\ is_winner (offers ++ [d]) w'.
Proof.
  intros (before & after & -> & Hb & Ha). unfold pick. rewrite compare_rank.
  destruct (rank_lt (rank d) (rank w)) eqn:E; cbn [negb].
  - exists w. split; [done|]. exists before, (after ++ [d]). split; [by rewrite <- app_assoc|]. split; [done|].
    apply Forall_app. split; [done|]. by repeat constructor.
  - exists d. split; [done|]. exists (before ++ w :: after), []. split; [done|]. split; [|done].
    apply Forall_app. split; [|constructor; [done|]].
    + eapply Forall_impl; [exact Hb|]. intros c Hc. by apply (rank_lt_trans _ (rank w)).
    + eapply Forall_impl; [exact Ha|]. intros c Hc. unfold outranks in *.
      destruct (rank_lt (rank d) (rank c)) eqn:Ed; [|done]. 
      assert (rank_lt (rank d) (rank w) = true); [|congruence].
      by apply (rank_lt_below _ (rank c)), rank_lt_asym.
Qed.

Lemma picked_winner offers o : (match o with None => offers = [] | Some w => is_winner offers w end) ->
  forall more, match foldl pick o more with None => offers ++ more = [] | Some w => is_winner (offers ++ more) w end.
Proof.
  intros Ho more. revert offers o Ho. induction more as [|d more IH]; intros offers o Ho; [by rewrite app_nil_r|].
  cbn [foldl]. replace (offers ++ d :: more) with ((offers ++ [d]) ++ more) by by rewrite <- app_assoc. apply IH.
  destruct o as [w|].
  - destruct (pick_winner offers w d Ho) as (w' & -> & Hw). done.
  - subst offers. exists [], []. done.
Qed.

(** ** The offers of the page *)

Definition offers (m : meta) (prop value p : string) : list decl :=
  omap (fun pv => if String.eqb p pv.1 then Some (Decl m pv.2) else None) (expandStaticDeclaration prop value).
Definition held (s : specified) (node : Z) (p : string) : option decl := s !! node ≫= assoc_get p.
Definition distinct (s : specified) : Prop := forall node map, s !! node = Some map -> NoDup (keys map).

Lemma keep_best_get m p l map :
  assoc_get p (foldl (keep_best m) map l)
  = foldl pick (assoc_get p map) (omap (fun pv => if String.eqb p pv.1 then Some (Decl m pv.2) else None) l).
Proof.
  revert map; induction l as [|[q v] l IH]; intros map; [done|]. cbn [foldl omap list_omap]. rewrite IH. cbn [fst snd].
  unfold keep_best at 1. cbn [fst snd]. destruct (String.eqb_spec p q) as [->|Hne]; cbn [foldl].
  - f_equal. unfold pick. destruct (compareStaticPriority _ _); [apply assoc_get_set_eq|done].
  - f_equal. destruct (compareStaticPriority _ _); [by apply assoc_get_set_ne|done].
Qed.

Lemma keep_best_NoDup m l map : NoDup (keys map) -> NoDup (keys (foldl (keep_best m) map l)).
Proof.
  revert map; induction l as [|[q v] l IH]; intros map H; [done|]. cbn [foldl]. apply IH. unfold keep_best.
  destruct (compareStaticPriority _ _); [by apply assoc_set_NoDup|done].
Qed.

Lemma apply_held s node prop value m node' p :
  held (applyStaticDeclaration s node prop value m) node' p
  = if node =? node' then foldl pick (held s node' p) (offers m prop value p) else held s node' p.
Proof.
  unfold held, applyStaticDeclaration. destruct (Z.eqb_spec node node') as [->|Hne].
  - rewrite lookup_insert_eq. cbn [mbind option_bind]. rewrite keep_best_get. f_equal. by destruct (s !! node').
  - by rewrite lookup_insert_ne.
Qed.

Lemma apply_distinct s node prop value m : distinct s -> distinct (applyStaticDeclaration s node prop value m).
Proof.
  intros Hs node' map. unfold applyStaticDeclaration. rewrite lookup_insert_Some. intros [[<- <-]|[_ H]]; [|by apply (Hs node')].
  apply keep_best_NoDup. destruct (s !! node) eqn:E; [by apply (Hs node)|apply NoDup_nil_2].
Qed.

(** A sequence of declarations for nodes. *)
Record entry := Entry { en_node : Z; en_prop : string; en_value : string; en_meta : meta }.
Definition apply_entry (s : specified) (e : entry) : specified := applyStaticDeclaration s (en_node e) (en_prop e) (en_value e) (en_meta e).
Definition entry_offers (node : Z) (p : string) (e : entry) : list decl :=
  if en_node e =? node then offers (en_meta e) (en_prop e) (en_value e) p else [].

Lemma entries_held l s node p : held (foldl apply_entry s l) node p = foldl pick (held s node p) (l ≫= entry_offers node p).
Proof.
  revert s; induction l as [|e l IH]; intros s; [done|]. cbn [foldl mbind list_bind]. rewrite IH, foldl_app. f_equal.
  unfold apply_entry, entry_offers. rewrite apply_held. by destruct (en_node e =? node).
Qed.

Lemma entries_distinct l s : distinct s -> distinct (foldl apply_entry s l).
Proof. revert s; induction l as [|e l IH]; intros s H; [done|]. cbn [foldl]. by apply IH, apply_distinct. Qed.

Lemma foldl_bind {A B S} (f : S -> B -> S) (g : A -> list B) (l : list A) (s : S) :
  foldl f s (l ≫= g) = foldl (fun s a => foldl f s (g a)) s l.
Proof. revert s; induction l as [|a l IH]; intros s; [done|]. cbn [mbind list_bind foldl]. by rewrite foldl_app, IH. Qed.

Lemma foldl_same {A S} (f g : S -> A -> S) (l : list A) s : (forall s a, f s a = g s a) -> foldl f s l = foldl g s l.
Proof. intros H. revert s; induction l as [|a l IH]; intros s; [done|]. cbn [foldl]. by rewrite H, IH. Qed.

Section Page.
Context (parseAnyColor : string -> option color) (resolveLengthPx : string -> num -> option num) (fixed3 : num -> num).
Context (selectAll : string -> option (list dnode)).

(** What a rule says, resting or hovered, and what the style attributes say, in the order of the page. *)
Definition rule_entries (hover : bool) (r : css_rule) : list entry :=
  if negb (Bool.eqb (cr_hover r) hover) then [] else
  match pseudo_base r, match_selector r with
  | None, Some sel => selected selectAll sel ≫= (fun node => (fun d => Entry node (cd_prop d) (cd_value d) (rule_meta r d)) <$> cr_declarations r)
  | _, _ => []
  end.
Fixpoint style_entries (order : Z) (nodes : list dnode) : list entry :=
  match nodes with
  | [] => []
  | n :: nodes =>
    if String.eqb (style_text n) "" then style_entries order nodes
    else ((fun d => Entry (key_of n) (id_prop d) (id_value d) (inline_meta d)) <$> parseStaticStyleAttribute (style_text n) order)
         ++ style_entries (order + 1000) nodes
  end.
Definition page_entries (rules : list css_rule) (allNodes : list dnode) : list entry :=
  (rules ≫= rule_entries false) ++ style_entries (Z.of_nat (length rules) + 1) allNodes.
(** Every declaration the page offers for a property of an element. *)
Definition page_offers (rules : list css_rule) (allNodes : list dnode) (node : Z) (p : string) : list decl :=
  page_entries rules allNodes ≫= entry_offers node p.
Definition hover_offers (rules : list css_rule) (node : Z) (p : string) : list decl :=
  (rules ≫= rule_entries true) ≫= entry_offers node p.

Lemma apply_rule_entries r s node :
  apply_rule r s node = foldl apply_entry s ((fun d => Entry node (cd_prop d) (cd_value d) (rule_meta r d)) <$> cr_declarations r).
Proof. unfold apply_rule. by rewrite foldl_fmap. Qed.

Lemma match_rule_specified rc k r :
  k_specified (match_rule parseAnyColor selectAll rc k r) = foldl apply_entry (k_specified k) (rule_entries false r)
  /\ k_hover (match_rule parseAnyColor selectAll rc k r) = foldl apply_entry (k_hover k) (rule_entries true r).
Proof.
  unfold match_rule, rule_entries. destruct (pseudo_base r); [by destruct (cr_hover r)|].
  destruct (match_selector r) as [sel|]; [|by destruct (cr_hover r)].
  destruct (cr_hover r); simpl; first [split; [|done]|split; [done|]];
    rewrite foldl_bind; apply foldl_same; intros; apply apply_rule_entries.
Qed.

Lemma match_rules_specified rc rules k :
  k_specified (foldl (match_rule parseAnyColor selectAll rc) k rules) = foldl apply_entry (k_specified k) (rules ≫= rule_entries false)
  /\ k_hover (foldl (match_rule parseAnyColor selectAll rc) k rules) = foldl apply_entry (k_hover k) (rules ≫= rule_entries true).
Proof.
  revert k; induction rules as [|r rules IH]; intros k; [done|]. cbn [foldl mbind list_bind]. rewrite !foldl_app.
  destruct (IH (match_rule parseAnyColor selectAll rc k r)) as [-> ->]. by destruct (match_rule_specified rc k r) as [-> ->].
Qed.

Lemma style_attributes_entries order nodes s :
  apply_style_attributes order nodes s = foldl apply_entry s (style_entries order nodes).
Proof.
  revert order s; induction nodes as [|n nodes IH]; intros order s; [done|]. cbn [apply_style_attributes style_entries].
  destruct (String.eqb _ _); [apply IH|]. rewrite IH, foldl_app, foldl_fmap. f_equal.
Qed.

Lemma matched_specified rules rc nodes :
  k_specified (match_all parseAnyColor selectAll rules rc nodes) = foldl apply_entry ∅ (page_entries rules nodes).
Proof.
  unfold match_all, page_entries. cbn [k_specified]. rewrite style_attributes_entries, foldl_app.
  by destruct (match_rules_specified rc rules (Cascade ∅ ∅ [] ∅)) as [-> _].
Qed.

Lemma held_empty node p : held ∅ node p = None.
Proof. unfold held. by rewrite lookup_empty. Qed.

Lemma matched_held rules rc nodes node p :
  match held (k_specified (match_all parseAnyColor selectAll rules rc nodes)) node p with
  | None => page_offers rules nodes node p = []
  | Some w => is_winner (page_offers rules nodes node p) w
  end.
Proof.
  rewrite matched_specified, entries_held, held_empty. exact (picked_winner [] None eq_refl (page_offers rules nodes node p)).
Qed.

Lemma matched_distinct rules rc nodes : distinct (k_specified (match_all parseAnyColor selectAll rules rc nodes)).
Proof. rewrite matched_specified. apply entries_distinct. intros node map. by rewrite lookup_empty. Qed.

(** ** Computed styles *)

Notation normalize := (normalizeStaticCssValue parseAnyColor resolveLengthPx fixed3).
Notation set_value := (set_value parseAnyColor resolveLengthPx fixed3).

(** The value of a property after the declarations of an element have been gone through. *)
Lemma values_fold customs parent p map values : NoDup (keys map) -> is_custom p = false ->
  match assoc_get p map with
  | Some w => exists current, assoc_get p (foldl (set_value customs parent) values map) = Some (normalize p (d_value w) customs parent (Some current))
  | None => assoc_get p (foldl (set_value customs parent) values map) = assoc_get p values
  end.
Proof.
  intros Hd Hp. revert values Hd; induction map as [|[q w] map IH]; intros values Hd; [done|].
  unfold keys in Hd. cbn [fmap list_fmap fst] in Hd. apply NoDup_cons in Hd as [Hn Hd].
  cbn [assoc_get foldl]. destruct (String.eqb_spec p q) as [->|Hne].
  - exists values. specialize (IH (set_value customs parent values (q, w)) Hd).
    assert (assoc_get q map = None) as E by (by apply assoc_get_None). rewrite E in IH. rewrite IH.
    unfold CssCascade.set_value. cbn [fst snd]. rewrite Hp. apply assoc_get_set_eq.
  - specialize (IH (set_value customs parent values (q, w)) Hd). destruct (assoc_get p map); [done|]. rewrite IH.
    unfold CssCascade.set_value. cbn [fst snd]. destruct (is_custom q); [done|]. by apply assoc_get_set_ne.
Qed.

Definition inherited (p : string) : bool := existsb (String.eqb p) STATIC_INHERITED_PROPS.
Lemma initial_value parent p def : assoc_get p STATIC_DEFAULT_STYLE = Some def ->
  assoc_get p (initial_values parent) = Some (if inherited p then default def (style_or_none parent p) else def).
Proof.
  unfold initial_values, inherited. induction STATIC_DEFAULT_STYLE as [|[q d] l IH]; [done|]. cbn [fmap list_fmap assoc_get fst snd].
  destruct (String.eqb_spec p q) as [->|]; [by intros [= ->]|done].
Qed.

Lemma default_not_custom p def : assoc_get p STATIC_DEFAULT_STYLE = Some def -> is_custom p = false.
Proof.
  intros H%assoc_get_In. assert (Forall (fun pd => is_custom pd.1 = false) STATIC_DEFAULT_STYLE) as Hf by (by repeat constructor).
  rewrite Forall_forall in Hf. apply (Hf (p, def)). by apply list_elem_of_In.
Qed.

Notation computeNode := (computeNode parseAnyColor resolveLengthPx fixed3).

Definition customs_of (k : cascade) (key : Z) (parentCustom : custom) : custom := custom_props (default [] (k_specified k !! key)) parentCustom.
Definition style_of (k : cascade) (key : Z) (parent : option style) (parentCustom : custom) : style :=
  makeStaticStyle (computed_values parseAnyColor resolveLengthPx fixed3 (default [] (k_specified k !! key)) (customs_of k key parentCustom) parent).

(** An element of the page with the style and the custom properties of its parent. *)
Inductive placed (k : cascade) : list dnode -> option style -> custom -> dnode -> option style -> custom -> Prop :=
| placed_here l n parent pc : n ∈ l -> placed k l parent pc n parent pc
| placed_below l key st children parent pc n p c :
    Tag key st children ∈ l -> placed k children (Some (style_of k key parent pc)) (customs_of k key pc) n p c ->
    placed k l parent pc n p c.

Fixpoint node_keys (n : dnode) : list Z :=
  match n with Tag key _ children => key :: flat_map node_keys children | OtherNode => [] end.
Definition page_keys (root : list dnode) : list Z := flat_map node_keys root.

Lemma placed_computed k l parent pc n p c key st children : placed k l parent pc n p c -> n = Tag key st children ->
  exists hover, Computed key (style_of k key p c) hover ∈ flat_map (fun n => computeNode k n parent pc) l.
Proof.
  induction 1 as [l n parent pc Hn|l key' st' children' parent pc n p c Hn _ IH]; intros ->.
  - eexists. apply list_elem_of_In, in_flat_map. eexists. split; [by apply list_elem_of_In|]. by left.
  - destruct IH as [hover IH]; [done|]. exists hover. apply list_elem_of_In, in_flat_map. eexists. split; [by apply list_elem_of_In|].
    right. by apply list_elem_of_In.
Qed.

(** Induction over elements and their children. *)
Fixpoint dnode_rect_all (P : dnode -> Prop) (Ht : forall key st children, Forall P children -> P (Tag key st children)) (Ho : P OtherNode) (n : dnode) : P n :=
  match n with
  | Tag key st children =>
    Ht key st children ((fix go l : Forall P l := match l with [] => Forall_nil_2 P | n :: l => Forall_cons_2 P n l (dnode_rect_all P Ht Ho n) (go l) end) children)
  | OtherNode => Ho
  end.

Lemma fmap_flat_map {A B C} (f : B -> C) (g : A -> list B) l : f <$> flat_map g l = flat_map (fun a => f <$> g a) l.
Proof. induction l as [|a l IH]; [done|]. cbn [flat_map]. by rewrite fmap_app, IH. Qed.

Lemma computed_keys k n : forall parent pc, cp_node <$> computeNode k n parent pc = node_keys n.
Proof.
  induction n as [key st children IH|] using dnode_rect_all; intros parent pc; [|done]. cbn [CssCascade.computeNode node_keys fmap list_fmap cp_node]. f_equal.
  change (list_fmap computed Z cp_node) with (fmap (M:=list) cp_node). rewrite fmap_flat_map.
  induction IH as [|n children Hn _ IHc]; [done|]. cbn [flat_map]. by rewrite Hn, IHc.
Qed.

Lemma page_computed_keys k root parent pc : cp_node <$> flat_map (fun n => computeNode k n parent pc) root = page_keys root.
Proof.
  rewrite fmap_flat_map. unfold page_keys. induction root as [|n root IH]; [done|]. cbn [flat_map]. by rewrite computed_keys, IH.
Qed.

Lemma find_unique (l : list computed) x : NoDup (cp_node <$> l) -> x ∈ l -> List.find (fun c => cp_node c =? cp_node x) l = Some x.
Proof.
  induction l as [|y l IH]; intros Hd Hx; [by apply elem_of_nil in Hx|]. cbn [fmap list_fmap] in Hd. apply NoDup_cons in Hd as [Hn Hd]. simpl.
  apply elem_of_cons in Hx as [->|Hx]; [by rewrite Z.eqb_refl|].
  destruct (Z.eqb_spec (cp_node y) (cp_node x)) as [E|]; [|by apply IH]. exfalso. apply Hn. rewrite E. by apply list_elem_of_fmap_2.
Qed.

Lemma values_NoDup customs parent map values : NoDup (keys values) -> NoDup (keys (foldl (set_value customs parent) values map)).
Proof.
  revert values; induction map as [|[q w] map IH]; intros values H; [done|]. cbn [foldl]. apply IH. unfold CssCascade.set_value.
  destruct (is_custom _); [done|]. by apply assoc_set_NoDup.
Qed.

Lemma initial_NoDup parent : NoDup (keys (initial_values parent)).
Proof.
  assert (keys (initial_values parent) = keys STATIC_DEFAULT_STYLE) as ->; [|apply (bool_decide_unpack _); by vm_compute].
  unfold keys, initial_values. by rewrite <- list_fmap_compose.
Qed.

Lemma style_value k key parent pc p def : distinct (k_specified k) -> assoc_get p STATIC_DEFAULT_STYLE = Some def ->
  exists v, assoc_get p (style_of k key parent pc) = Some v
  /\ match held (k_specified k) key p with
     | Some w => exists current, v = normalize p (d_value w) (customs_of k key pc) parent (Some current)
     | None => v = if inherited p then default def (style_or_none parent p) else def
     end.
Proof.
  intros Hd Hp. unfold style_of, makeStaticStyle. set (map := default [] (k_specified k !! key)).
  rewrite assoc_get_merge by apply values_NoDup, initial_NoDup. unfold computed_values.
  assert (NoDup (keys map)) as Hm by (subst map; destruct (k_specified k !! key) eqn:E; [by apply (Hd key)|apply NoDup_nil_2]).
  assert (held (k_specified k) key p = assoc_get p map) as -> by (unfold held; subst map; by destruct (k_specified k !! key)).
  pose proof (values_fold (customs_of k key pc) parent p map (initial_values parent) Hm (default_not_custom p def Hp)) as H.
  destruct (assoc_get p map) as [w|].
  - destruct H as [current ->]. eauto.
  - rewrite H, (initial_value parent p def Hp). eauto.
Qed.

(** Only two properties look at the values computed so far. *)
Lemma normalize_current p value customs parent current : one_word ["letterSpacing"; "lineHeight"] p = false ->
  normalize p value customs parent current = normalize p value customs parent None.
Proof.
  unfold one_word. cbn [existsb]. rewrite !orb_false_iff. intros (E1 & E2 & _). unfold normalizeStaticCssValue.
  by rewrite E1, E2.
Qed.

(** A hover declaration shows only where nothing that holds of the element at rest outranks it. *)
Theorem hover_is_not_outranked rules rc nodes node customs parent values p v :
  let k := match_all parseAnyColor selectAll rules rc nodes in
  hover_value parseAnyColor resolveLengthPx fixed3 k node customs parent values p = Some v ->
  exists w, is_winner (hover_offers rules node p) w /\ v = normalize p (d_value w) customs parent (Some values)
  /\ Forall (fun r => outranks r w = false) (page_offers rules nodes node p).
Proof.
  intros k. unfold hover_value. fold (held (k_hover k) node p) (held (k_specified k) node p).
  assert (held (k_hover k) node p = foldl pick None (hover_offers rules node p)) as ->.
  { unfold k, match_all. cbn [k_hover]. destruct (match_rules_specified rc rules (Cascade ∅ ∅ [] ∅)) as [_ ->].
    cbn [k_hover]. by rewrite entries_held, held_empty. }
  pose proof (picked_winner [] None eq_refl (hover_offers rules node p)) as Hw. cbn [app] in Hw.
  destruct (foldl pick None (hover_offers rules node p)) as [w|]; [|done]. cbn [mbind option_bind].
  pose proof (matched_held rules rc nodes node p) as Hr. fold k in Hr.
  destruct (negb _) eqn:Ec; [done|]. apply negb_false_iff in Ec.
  destruct (String.eqb _ _); [done|]. intros [= <-]. exists w. split; [done|]. split; [done|].
  destruct (held (k_specified k) node p) as [r|]; [|rewrite Hr; constructor].
  rewrite compare_rank in Ec. apply negb_true_iff in Ec. destruct Hr as (before & after & -> & Hb & Ha).
  apply Forall_app. split; [|constructor; [done|]].
  - eapply Forall_impl; [exact Hb|]. intros c Hc. by apply (rank_lt_trans _ (rank r)).
  - eapply Forall_impl; [exact Ha|]. intros c Hc%rank_lt_asym. by apply (rank_lt_trans _ (rank r)).
Qed.

(** C29: The styles of a page are those of the cascade. Of every element of a page whose styles were built, each of the
    properties the rules look at is computed from one declaration: the one that is highest, and last among equals, in
    the order of CSS (importance, style attribute, specificity, order) of all that the page offers for the property of
    the element; where the page offers none, the value is the one of the parent for an inherited property, and the
    default for the others. Only letter spacing and line height depend on the values computed before them. *)
Theorem page_styles_are_cascaded parse root cssText d allNodes :
  buildStaticStyleMap parseAnyColor resolveLengthPx fixed3 selectAll parse root cssText = Ok d ->
  selectAll "*" = Some allNodes -> NoDup (page_keys root) ->
  forall key st children parent customs, placed (sd_cascade d) root None [] (Tag key st children) parent customs ->
  forall p def, assoc_get p STATIC_DEFAULT_STYLE = Some def ->
  let rules := match parse cssText with Some sheet => collectStaticCssRules sheet | None => [] end in
  exists v, assoc_get p (getStyle d key) = Some v
  /\ ((page_offers rules allNodes key p = [] /\ v = if inherited p then default def (style_or_none parent p) else def)
      \/ exists w current, is_winner (page_offers rules allNodes key p) w
           /\ v = normalize p (d_value w) (customs_of (sd_cascade d) key customs) parent (Some current)
           /\ (one_word ["letterSpacing"; "lineHeight"] p = false ->
               v = normalize p (d_value w) (customs_of (sd_cascade d) key customs) parent None)).
Proof.
  intros Hb Hall Hk key st children parent customs Hpl p def Hp rules.
  unfold buildStaticStyleMap in Hb. rewrite Hall in Hb. apply Ok_inj in Hb. subst d. cbn [sd_cascade sd_styles] in *.
  set (k := match_all _ _ _ _ _) in *.
  destruct (placed_computed _ _ _ _ _ _ _ key st children Hpl eq_refl) as [hover Hc].
  unfold getStyle. cbn [sd_styles].
  pose proof (find_unique _ _ ltac:(rewrite page_computed_keys; exact Hk) Hc) as Hf. cbn [cp_node] in Hf. rewrite Hf. cbn [cp_style].
  destruct (style_value k key parent customs p def (matched_distinct _ _ _) Hp) as (v & Hv & Hw). exists v. split; [done|].
  pose proof (matched_held rules (collectCssCustomProps cssText) allNodes key p) as Hm. fold k in Hm.
  change (match_all parseAnyColor selectAll rules (collectCssCustomProps cssText) allNodes) with k in Hm.
  destruct (held (k_specified k) key p) as [w|]; [|by left]. right. destruct Hw as [current ->].
  exists w, current. split; [done|]. split; [done|]. apply normalize_current.
Qed.
End Page.

(** ** A page *)

Definition no_color (_ : string) : option color := None.
Definition ems (v : string) (base : num) : option num :=
  if String.eqb v "2em" then Some (num_add base base) else if String.eqb v "40px" then Some (NInt 40) else None.
Definition same (n : num) : num := n.
Definition demo_root : list dnode := [Tag 1 (Some "margin: 1px 2px") [Tag 2 None []]].
Definition demo_select (selector : string) : option (list dnode) :=
  if String.eqb selector "*" then Some [Tag 1 (Some "margin: 1px 2px") [Tag 2 None []]; Tag 2 None []]
  else if String.eqb selector ".a" then Some [Tag 1 None []] else Some [].
Definition demo_sheet : list css_node :=
  [ BlockRule "media" [StyleRule ".a" [CssDecl "color" "red" false; CssDecl "margin" "9px" false; CssDecl "font-size" "40px" false]];
    StyleRule ".a" [CssDecl "color" "blue" false; CssDecl "margin-top" "7px" true] ].
Definition demo_page : result styled := buildStaticStyleMap no_color ems same demo_select (fun _ => Some demo_sheet) demo_root "".

Lemma page_styles_are_cascaded_witness :
  exists d, demo_page = Ok d /\ assoc_get "color" (getStyle d 2) = Some "blue" /\ assoc_get "marginTop" (getStyle d 1) = Some "7px"
  /\ exists v, assoc_get "marginRight" (getStyle d 1) = Some v.
Proof.
  eexists. split; [reflexivity|]. split; [by vm_compute|]. split; [by vm_compute|].
  destruct (page_styles_are_cascaded no_color ems same demo_select (fun _ => Some demo_sheet) demo_root "" _ _ eq_refl eq_refl
    ltac:(by apply (bool_decide_unpack _); vm_compute) 1 (Some "margin: 1px 2px") [Tag 2 None []] None []
    ltac:(apply placed_here; apply list_elem_of_here) "marginRight" "0px" eq_refl) as (v & Hv & _).
  by exists v.
Defined.

(** ** What the page of a browser would differ in *)

(** The names of custom properties are compared without regard to case where they are set, and with it where they are used. *)
Example custom_name_lost : exists declared, expandStaticDeclaration "--Brand" "red" = declared
  /\ resolveVarRefs "var(--Brand)" declared = "var(--Brand)".
Proof. eexists. split; [vm_compute; reflexivity|by vm_compute]. Qed.

(** The shorthand without a border takes none away. *)
Example border_none_keeps : expandStaticDeclaration "border" "none" = [] /\ expandStaticDeclaration "border" "0" = [].
Proof. split; by vm_compute. Qed.

(** A hash inside an attribute selector counts as an identifier. *)
Example hash_in_attribute : staticSpecificity ("a[href=" +:+ s_dq +:+ "#top" +:+ s_dq +:+ "]") = Specificity 1 1 1.
Proof. by vm_compute. Qed.

(** A letter spacing in em takes the font size of the element only when it is declared after it. *)
Definition spacing_of (l : list (string * string)) : option string :=
  assoc_get "letterSpacing" (computed_values no_color ems same
    ((fun pv => (pv.1, Decl (Meta false (Specificity 0 1 0) 0 false) pv.2)) <$> l) [] None).
Example spacing_depends_on_order :
  spacing_of [("fontSize", "40px"); ("letterSpacing", "2em")] = Some "80px" /\ spacing_of [("letterSpacing", "2em"); ("fontSize", "40px")] = Some "32px".
Proof. split; by vm_compute. Qed.
