(* ===== verification/CommitVerify.v ===== *)
(** * Verifying copy edits in the sources ([live-commit-manual-edits.mjs], the checks)

    After an agent has applied a batch of staged copy edits, every operation of an entry is looked for in the places
    of the sources where it should show. The batch is the one the evidence builder makes: entries, operations and
    candidates are objects, and the code's [x || []] is a list or absent. *)
From S2P Require Import Prelude JsString JsValue JsRegex RegexFacts NodePath PollLanes Files ApplyFiles SourceSearch.
Local Open Scope Z_scope.
Local Open Scope list_scope.

(** [x || []]. *)
Definition items (v : js) : list js := match v with JArr l => l | _ => [] end.
Definition str_or (v : js) : string := match v with JStr s => s | _ => "" end.

(** ** Summaries *)

Definition countOps (entries : list js) : nat := foldl (fun n e => n + length (items e.["ops"]))%nat 0%nat entries.

Definition applied_op (entry op : js) : js :=
  JObj [("id", entry.["id"]); ("ref", op.["ref"]); ("originalText", op.["originalText"]); ("newText", op.["newText"])].
Definition summarizeAppliedEntries (entries ids : list js) : list js :=
  bfilter (fun e => set_has ids e.["id"]) entries ≫= (fun e => applied_op e <$> items e.["ops"]).

Definition candidate_matches (c : js) : list js :=
  (if truthy c.["sourceHint"] then [c.["sourceHint"]] else [])
  ++ items c.["textMatches"] ++ items c.["objectKeyMatches"] ++ items c.["locatorMatches"] ++ items c.["contextTextMatches"].
Definition candidatesForEntry (batch entryId : js) : list js :=
  take 12 (bfilter (fun c => c.["entryId"] === entryId) (items batch.["candidates"]) ≫= candidate_matches).

Definition failed_by_id (failed : list js) : jmap js :=
  foldl (fun m item => let entryId := item.["entryId"] ||? item.["id"] in if truthy entryId then map_set entryId item m else m) [] failed.
Definition normalizeFailedEntries (batch : js) (failed : list js) (fallbackReason : js) : list js :=
  omap (fun entry =>
    match map_get entry.["id"] (failed_by_id failed) with
    | None => None
    | Some item => Some (JObj
        [ ("id", entry.["id"]); ("reason", item.["reason"] ||? item.["message"] ||? fallbackReason ||? JStr "failed");
          ("candidates", match items item.["candidates"] with [] => JArr (candidatesForEntry batch entry.["id"]) | l => JArr l end) ])
    end) (items batch.["entries"]).

Definition failure_id (v : js) : option string := match v.["id"] with JStr "" => None | JStr i => Some i | _ => None end.
Definition joined_failure (old item : js) : js :=
  JObj (assoc_merge (assoc_merge (own_props old) (own_props item))
    [("candidates", item.["candidates"] ||? old.["candidates"]); ("checks", item.["checks"] ||? old.["checks"])]).
Definition merge_failure (out : list js) (item : js) : list js :=
  if negb (truthy item) || negb (is_objecty item) then out else
  match failure_id item with
  | None => out ++ [item]
  | Some id =>
    match find_index (fun o => bool_decide (failure_id o = Some id)) out with
    | None => out ++ [item]
    | Some i => <[i := joined_failure (default JUndef (out !! i)) item]> out
    end
  end.
Definition mergeFailedEntries (groups : list (list js)) : list js := foldl merge_failure [] (concat groups).

Definition uniqueStrings (values : list js) : list string :=
  foldl (fun acc v => match v with
                      | JStr s => if String.eqb (trim s) "" || existsb (String.eqb s) acc then acc else acc ++ [s]
                      | _ => acc
                      end) [] values.
Definition mergeUniqueStrings (groups : list (list string)) : list string := uniqueStrings (JStr <$> concat groups).
Definition allEntryIds (batch : js) : list js := bfilter truthy ((fun e => e.["id"]) <$> items batch.["entries"]).

(** [env] is the variable IMPECCABLE_LIVE_MANUAL_EDIT_REPAIR_ATTEMPTS. *)
Definition DEFAULT_REPAIR_ATTEMPTS : Z := 3.
Definition repair_value (env : option string) : num :=
  match env with Some "" | None => NInt DEFAULT_REPAIR_ATTEMPTS | Some t => string_to_num t end.
Definition repairAttemptLimit (env : option string) : nat :=
  match repair_value env with
  | NInt z => Z.to_nat (Z.max 1 (Z.min 10 z))
  | NFrac n d => Z.to_nat (Z.max 1 (Z.min 10 (Z.quot n (Zpos d))))
  | NInf _ | NNaN => Z.to_nat DEFAULT_REPAIR_ATTEMPTS
  end.

(** A property that is copied when it is there. *)
Definition when (k : string) (v : js) : list (string * js) := if truthy v then [(k, v)] else [].
Definition place (c : js) : js :=
  JObj [("file", c.["file"]); ("line", c.["line"]); ("kind", c.["kind"]); ("reason", c.["reason"])].
Definition summarize_item (item : js) : js :=
  JObj [ ("ref", item.["ref"]); ("reason", item.["reason"] ||? item.["detail"]); ("detail", item.["detail"]);
         ("candidates", match item.["candidates"] with JArr l => JArr (place <$> take 6 l) | _ => JUndef end) ].
Definition summarize_failure (f : js) : js :=
  JObj ([("reason", f.["reason"] ||? f.["detail"] ||? JStr "validation_failed")]
    ++ when "entryId" (f.["id"] ||? f.["entryId"]) ++ when "ref" f.["ref"] ++ when "detail" f.["detail"] ++ when "file" f.["file"]
    ++ when "message" f.["message"] ++ when "marker" f.["marker"]
    ++ match f.["files"] with JArr l => [("files", JArr (take 8 l))] | _ => [] end
    ++ match f.["candidates"] with JArr l => [("candidates", JArr (place <$> take 8 l))] | _ => [] end
    ++ match f.["failures"] with JArr l => [("failures", JArr (summarize_item <$> take 8 l))] | _ => [] end
    ++ when "checks" f.["checks"]).
Definition summarizeRepairFailures (failures : list js) : list js := take 20 (summarize_failure <$> failures).

(** ** Lines that show an operation *)

Definition lineShowsAppliedOp (line : string) (op : js) : bool :=
  let originalText := str_or op.["originalText"] in
  let newText := str_or op.["newText"] in
  if (op.["deleted"] === JBool true) || String.eqb newText "" then negb (String.eqb originalText "") && negb (includes originalText line)
  else if negb (includes newText line) then false
  else negb (negb (String.eqb originalText "") && negb (includes originalText newText) && includes originalText line).

Definition normalizeVerificationText (text : string) : string := trim (re_replace_all (rplus rspace) (fun _ => " ") text).

Definition windowShowsAppliedOp (lines : list string) (op : js) : bool :=
  let newText := str_or op.["newText"] in
  if String.eqb newText "" then false else
  let new := normalizeVerificationText newText in
  let original := normalizeVerificationText (str_or op.["originalText"]) in
  let window := normalizeVerificationText (join s_nl lines) in
  if String.eqb new "" || negb (includes new window) then false
  else negb (negb (String.eqb original "") && negb (includes original new) && includes original window).

Definition class_names (op : js) : list js := bfilter truthy (items op.["classes"]).
Definition opHasLocator (op : js) : bool := truthy op.["tag"] || truthy op.["elementId"] || negb (bool_decide (class_names op = [])).
Definition lineMatchesManualEditLocator (line : string) (op : js) : bool :=
  (if truthy op.["tag"]
   then re_test (lit "<" ⋅ rstar rspace ⋅ liti (to_str op.["tag"]) ⋅ RLook false (RClass (fun c => is_space c || one_of ">/" c) ∥ REol))%re line else true)
  && (if truthy op.["elementId"]
      then re_test (RWordB ⋅ lit "id" ⋅ rstar rspace ⋅ lit "=" ⋅ rstar rspace ⋅ RClass (fun c => Ascii.eqb c DQ || Ascii.eqb c "'")
                    ⋅ lit (to_str op.["elementId"]) ⋅ RClass (fun c => Ascii.eqb c DQ || Ascii.eqb c "'"))%re line else true)
  && forallb (fun name => includes (to_str name) line) (class_names op).

Definition key_start : re := (RBol ∥ RClass (fun c => is_space c || one_of ",{" c))%re.
Definition QUOTES : string := String DQ "'`".
Definition is_identifier (text : string) : bool :=
  match text with
  | String c rest => (is_alpha c || one_of "_$" c) && sforall (fun c => is_word c || Ascii.eqb c "$") rest
  | "" => false
  end%string.
Definition lineHasObjectKey (line : string) (text : js) : bool :=
  match text with
  | JStr t =>
    if String.eqb t "" then false
    else re_test (key_start ⋅ RGroup 2 (RClass (one_of QUOTES)) ⋅ lit t ⋅ RBack 2 ⋅ rstar rspace ⋅ lit ":")%re line
         || (is_identifier t && re_test (key_start ⋅ lit t ⋅ rstar rspace ⋅ lit ":")%re line)
  | _ => false
  end.

(** ** Places *)

(** A 1-based line: a number from 1 on. *)
Definition floor_of (n : num) : Z := match n with NInt z => z | NFrac n d => n / Zpos d | _ => 0 end.
Definition nth_line (lines : list string) (line : num) : string :=
  match line with NInt z => if z <? 1 then "" else default "" (lines !! Z.to_nat (z - 1)) | _ => "" end.
(** [lines.slice(max(0, line - before), min(length, line + after))]. *)
Definition window (lines : list string) (line : num) (before after : Z) : list string :=
  let start := Z.max 0 (floor_of line - before) in
  let stop := Z.min (Z.of_nat (length lines)) (floor_of line + after) in
  take (Z.to_nat (stop - start)) (drop (Z.to_nat start) lines).

Record target := Target { t_file : string; t_line : num; t_kind : string; t_reported : bool }.
Definition target_key (t : target) : string := t_file t +:+ ":" +:+ num_to_string (t_line t) +:+ ":" +:+ t_kind t.
Definition target_js (t : target) : js := JObj [("file", JStr (t_file t)); ("line", JNum (t_line t)); ("kind", JStr (t_kind t))].

Definition verificationTargetPassesLines (lines : list string) (t : target) (op : js) : bool :=
  let line := nth_line lines (t_line t) in
  let originalText := str_or op.["originalText"] in
  if lineShowsAppliedOp line op then true
  else if negb (String.eqb originalText "") && includes originalText line then false
  else if negb (t_reported t || includes "context_text_match" (t_kind t) || includes "object_key_match" (t_kind t) || includes "text_match" (t_kind t)) then false
  else
    let radius := if includes "context_text_match" (t_kind t) then 20 else 4 in
    let windowLines := window lines (t_line t) (radius + 1) radius in
    existsb (fun l => lineShowsAppliedOp l op) windowLines || windowShowsAppliedOp windowLines op.

Section Sources.
Context (git_ignored : string -> bool) (cwd : string).
Implicit Types s : fsys.

Definition normalizeProjectSourcePath (file : js) (requireExists : bool) s : option string :=
  match file with
  | JStr f =>
    if String.eqb f "" then None else
    let absolute := if is_absolute f then f else resolve cwd f in
    let rel := relative cwd absolute in
    if negb (in_tree rel) then None
    else if requireExists && negb (existsSync absolute s) then None
    else if isGeneratedFile git_ignored cwd absolute s then None
    else Some rel
  | _ => None
  end.
Definition normalizeRelativeFile (file : js) s : option string := normalizeProjectSourcePath file true s.
Definition normalizeRollbackPath (file : js) s : option string := normalizeProjectSourcePath file false s.
Definition lines_of (rel : string) s : option (list string) := split_lines <$> f_text s !! resolve cwd rel.

Definition sourceHintWindowFailure (op : js) s : option js :=
  let hint := op.["sourceHint"] in
  if negb (truthy hint.["file"]) || negb (truthy hint.["line"]) then None else
  rel ← normalizeRelativeFile hint.["file"] s;
  lines ← lines_of rel s;
  let n := match to_num hint.["line"] with NNaN => NInt 1 | n => if num_ltb n (NInt 1) then NInt 1 else n end in
  let originalText := str_or op.["originalText"] in
  if negb (String.eqb originalText "") && includes originalText (nth_line lines n) && negb (lineShowsAppliedOp (nth_line lines n) op)
  then Some (JObj [("file", JStr rel); ("line", JNum n); ("reason", JStr "source_hint_still_contains_original_text")])
  else None.

Definition same_op (op c : js) : bool := (c.["entryId"] === op.["entryId"]) && (c.["ref"] === op.["ref"]).
Definition siblingCandidatesForEntry (batch op : js) : list js :=
  if negb (truthy op.["entryId"]) then []
  else bfilter (fun c => (c.["entryId"] === op.["entryId"]) && negb (c.["ref"] === op.["ref"])) (items batch.["candidates"]).

(** The places of the reported files where the element may be. *)
Definition locatorTargetsInFile (rel : string) (op : js) s : list target :=
  if negb (opHasLocator op) then [] else
  match lines_of rel s with
  | None => []
  | Some lines => take 20 (omap (fun il => if lineMatchesManualEditLocator il.2 op
                                          then Some (Target rel (NInt (Z.of_nat il.1 + 1)) "reported_locator_match" false) else None)
                               (imap pair lines))
  end.

Definition place_of (reported : list string) s (file line : js) (kind : string) : list target :=
  match normalizeRelativeFile file s, to_num line with
  | Some rel, n => if negb (num_is_finite n) || num_ltb n (NInt 1) then [] else [Target rel n kind (existsb (String.eqb rel) reported)]
  | None, _ => []
  end.
Definition match_places (reported : list string) s (kind : string) (l : js) : list target :=
  items l ≫= (fun m => place_of reported s m.["file"] m.["line"] kind).
Definition hint_place (reported : list string) s (kind : string) (c : js) : list target :=
  place_of reported s (c.["sourceHint"].["relativeFile"] ||? c.["sourceHint"].["file"]) c.["sourceHint"].["line"] kind.

Definition first_of_each (l : list target) : list target :=
  (foldl (fun acc t => if existsb (String.eqb (target_key t)) acc.1 then acc else (target_key t :: acc.1, acc.2 ++ [t])) ([], []) l).2.

Definition verificationTargetsForOp (batch op : js) (reported : list string) s : list target :=
  let c := default JUndef (List.find (same_op op) (items batch.["candidates"])) in
  let own := place_of reported s op.["sourceHint"].["file"] op.["sourceHint"].["line"] "source_hint"
    ++ hint_place reported s "candidate_source_hint" c
    ++ match_places reported s "text_match" c.["textMatches"] ++ match_places reported s "object_key_match" c.["objectKeyMatches"]
    ++ match_places reported s "locator_match" c.["locatorMatches"] ++ match_places reported s "context_text_match" c.["contextTextMatches"] in
  let siblings := siblingCandidatesForEntry batch op ≫= (fun c =>
    hint_place reported s "entry_source_hint" c ++ match_places reported s "entry_text_match" c.["textMatches"]
    ++ match_places reported s "entry_object_key_match" c.["objectKeyMatches"] ++ match_places reported s "entry_context_text_match" c.["contextTextMatches"]) in
  first_of_each (own ++ siblings ++ (reported ≫= (fun rel => locatorTargetsInFile rel op s))).

Definition verificationTargetPasses (op : js) s (t : target) : bool :=
  match lines_of (t_file t) s with Some lines => verificationTargetPassesLines lines t op | None => false end.

Definition objectKeyMatchStillUsesOriginal (op m : js) s : bool :=
  match normalizeRelativeFile m.["file"] s, to_num m.["line"] with
  | Some rel, n =>
    if negb (num_is_finite n) || num_ltb n (NInt 1) then false else
    match lines_of rel s with
    | None => false
    | Some lines =>
      let windowLines := window lines n 4 3 in
      negb (existsb (fun l => lineHasObjectKey l op.["newText"]) windowLines) && existsb (fun l => lineHasObjectKey l op.["originalText"]) windowLines
    end
  | None, _ => false
  end.
Definition key_failure (op m : js) s : js :=
  JObj [ ("ref", op.["ref"]); ("reason", JStr "source_verification_failed"); ("detail", JStr "edited_text_source_key_dependency_not_updated");
         ("candidates", JArr [JObj
           [ ("file", match normalizeRelativeFile m.["file"] s with Some rel => JStr rel | None => m.["file"] end); ("line", m.["line"]);
             ("kind", JStr "object_key_match");
             ("reason", JStr "edited text is also a source key; update the coupled key to newText or fail the entry") ]]) ].
Definition coupledObjectKeyFailuresForOp (batch op : js) s : list js :=
  match op.["originalText"], op.["newText"] with
  | JStr o, JStr n =>
    if String.eqb o n then [] else
    (fun m => key_failure op m s) <$> bfilter (fun m => objectKeyMatchStillUsesOriginal op m s)
      (bfilter (same_op op) (items batch.["candidates"]) ≫= (fun c => items c.["objectKeyMatches"]))
  | _, _ => []
  end.

(** ** An entry *)

Definition op_of (entry rawOp : js) : js :=
  let op := spread_with rawOp [("entryId", entry.["id"])] in
  if (op.["deleted"] === JBool true) && negb (is_string op.["newText"]) then op.["newText" := JStr ""] else op.
Definition op_failure (op : js) (detail : string) (candidates : list js) : js :=
  JObj [("ref", op.["ref"]); ("reason", JStr "source_verification_failed"); ("detail", JStr detail); ("candidates", JArr (take 12 candidates))].

Definition verify_op (batch entry : js) (reported : list string) s (rawOp : js) : list js :=
  let op := op_of entry rawOp in
  let known := candidatesForEntry batch entry.["id"] in
  match op.["newText"] with
  | JStr newText =>
    let targets := verificationTargetsForOp batch op reported s in
    let places := target_js <$> targets in
    match coupledObjectKeyFailuresForOp batch op s with
    | [] =>
      if existsb (verificationTargetPasses op s) targets then [] else
      match sourceHintWindowFailure op s with
      | Some hinted => [op_failure op (str_or hinted.["reason"]) (hinted :: places ++ known)]
      | None => [op_failure op (if String.eqb newText "" then "originalText_still_present_in_plausible_source_location"
                                else "newText_not_found_in_plausible_source_location") (places ++ known)]
      end
    | coupled => (fun f => spread_with f [("candidates", JArr (take 12 (items f.["candidates"] ++ places ++ known)))]) <$> coupled
    end
  | _ => [op_failure op "missing_newText" known]
  end.
Definition verifyAppliedEntry (batch entry : js) (reported : list string) s : list js :=
  items entry.["ops"] ≫= verify_op batch entry reported s.

(** ** Changes of entries that were not applied *)

Notation snapshot := (list (string * option string)).
Definition snapshotTargetPasses (snap : snapshot) (op : js) (t : target) : bool :=
  match assoc_get (t_file t) snap with
  | Some (Some before) => verificationTargetPassesLines (split_lines before) t op
  | _ => false
  end.
Definition leaked_op (batch entry : js) (reported : list string) (snap : snapshot) s (rawOp : js) : option js :=
  let op := spread_with rawOp [("entryId", entry.["id"])] in
  match op.["newText"] with
  | JStr newText =>
    if String.eqb newText "" then None else
    match bfilter (fun t => verificationTargetPasses op s t && negb (snapshotTargetPasses snap op t)) (verificationTargetsForOp batch op reported s) with
    | [] => None
    | leaked => Some (JObj [("id", entry.["id"]); ("reason", JStr "failed_entry_source_changed"); ("ref", op.["ref"]); ("newText", op.["newText"]);
                            ("candidates", JArr (take 12 ((target_js <$> leaked) ++ candidatesForEntry batch entry.["id"])))])
    end
  | _ => None
  end.
Definition findUnappliedEntrySourceChanges (batch : js) (entries : list js) (reported : list string) (snap : snapshot) s : list js :=
  omap (fun entry => head (omap (leaked_op batch entry reported snap s) (items entry.["ops"]))) entries.
End Sources.
