(* ===== verification/CopyEvidence.v ===== *)
(** * Evidence for staged copy edits ([live-manual-edit-evidence.mjs])

    What the agent is given: the staged operations, with the places of the sources where each may be. The entries of the
    buffer and their operations are objects. What [fs.realpathSync] and [git check-ignore] answer are arguments. *)
From S2P Require Import Prelude JsString JsValue Json JsRegex RegexFacts NodePath Files ManualEditsBuffer SourceSearch CommitVerify.
Local Open Scope Z_scope.
Local Open Scope list_scope.

Definition EVIDENCE_VERSION : Z := 1.
Definition TEXT_EXTENSIONS : list string :=
  [".html"; ".jsx"; ".tsx"; ".vue"; ".svelte"; ".astro"; ".js"; ".mjs"; ".ts"; ".ex"; ".heex"; ".eex"].
Definition SEARCH_DIRS : list string :=
  ["src"; "app"; "pages"; "components"; "public"; "views"; "templates"; "site"; "lib"; "data"].
Definition STRONG_LITERAL_MATCH_LIMIT : nat := 8.
Definition WEAK_LITERAL_MATCH_LIMIT : nat := 4.
Definition OBJECT_KEY_MATCH_LIMIT : nat := 8.
Definition LOCATOR_MATCH_LIMIT : nat := 4.
Definition CONTEXT_MATCH_LIMIT : nat := 8.
Definition CONTEXT_MATCH_PER_HINT : nat := 2.
Definition SKIP_DIRS : list string :=
  ["node_modules"; ".git"; ".impeccable"; ".astro"; ".next"; ".nuxt"; ".svelte-kit"; "dist"; "build"; "out"; "coverage"].

(** ** Texts *)

(** [String(value || '')]. *)
Definition text_or_empty (v : js) : string := to_str (v ||? JStr "").
Definition normalizeText (v : js) : string := trim (re_replace_all (rplus rspace) (fun _ => " ") (text_or_empty v)).
Definition decodeBasicHtml (value : string) : string :=
  let replaced (from to text : string) := re_replace_all (lit from) (fun _ => to) text in
  replaced "&gt;" ">" (replaced "&lt;" "<" (replaced "&amp;" "&" (replaced "&apos;" "'" (replaced "&#39;" "'" (replaced "&quot;" s_dq value))))).

Definition isWeakSourceNeedle (text : string) : bool :=
  let normalized := normalizeText (JStr text) in
  (slen normalized <? 4)%nat
  || (negb (String.eqb normalized "") && sforall (fun c => is_digit c || is_space c || one_of ".,+-%" c) normalized).
Definition literalMatchLimit (text : string) : nat :=
  if isWeakSourceNeedle text then WEAK_LITERAL_MATCH_LIMIT else STRONG_LITERAL_MATCH_LIMIT.

(** ** Context hints *)

(** The set of hints with one more text, when it says something and is not a text of the operation. *)
Definition add_hint (op : js) (hints : list string) (value : js) : list string :=
  let text := normalizeText (JStr (decodeBasicHtml (text_or_empty value))) in
  if (slen text <? 3)%nat || (160 <? slen text)%nat then hints
  else if String.eqb text (normalizeText op.["originalText"]) || String.eqb text (normalizeText op.["newText"]) then hints
  else if existsb (String.eqb text) hints then hints else hints ++ [text].
Definition original_text_re : re :=
  (lit "data-impeccable-original-text=" ⋅ lit s_dq ⋅ RGroup 1 (rstar (RClass (fun c => negb (Ascii.eqb c DQ)))) ⋅ lit s_dq)%re.
Definition chunk_re : re := (RRep true 2 None rspace ∥ ch NL ∥ ch (chr 9))%re.
Definition hint_values (entry op : js) : list js :=
  ((fun item => match item with JStr _ => item | _ => item.["text"] end) <$> items op.["nearbyEditableTexts"])
  ++ match entry.["element"].["outerHTML"] with
     | JStr outer => (fun m => JStr (group_or "" m 1)) <$> re_match_all original_text_re outer
     | _ => []
     end
  ++ match entry.["element"].["textContent"] with JStr t => JStr <$> re_split chunk_re t | _ => [] end.
Definition op_hints (entry op : js) : list string := take 16 (foldl (add_hint op) [] (hint_values entry op)).
Definition buildContextHintsByRef (entry : js) : jmap (list string) :=
  foldl (fun m op => map_set op.["ref"] (op_hints entry op) m) [] (items entry.["ops"]).

Definition list_or_empty (v : js) : js := match v with JArr l => JArr l | _ => JArr [] end.
Definition flat_op (entry : js) (hints : jmap (list string)) (op : js) : js :=
  JObj
    [ ("entryId", entry.["id"]); ("pageUrl", entry.["pageUrl"]); ("ref", op.["ref"]); ("contextRef", op.["contextRef"] ||? JNull);
      ("tag", op.["tag"]); ("elementId", op.["elementId"] ||? JNull); ("classes", list_or_empty op.["classes"]);
      ("originalText", op.["originalText"]); ("newText", op.["newText"]); ("deleted", JBool (op.["deleted"] === JBool true));
      ("sourceHint", op.["sourceHint"] ||? JNull); ("leaf", op.["leaf"] ||? JNull);
      ("nearbyEditableTexts", list_or_empty op.["nearbyEditableTexts"]); ("container", op.["container"] ||? JNull);
      ("contextHints", JArr (JStr <$> default [] (map_get op.["ref"] hints))) ].
Definition flattenOps (entries : list js) : list js :=
  entries ≫= (fun entry => flat_op entry (buildContextHintsByRef entry) <$> items entry.["ops"]).

(** ** Matches in the files of the project *)

Record search_file := SearchFile { sf_file : string; sf_relative : string; sf_content : string }.

Definition matchForIndex (file : search_file) (kind needle : string) (index : nat) : js :=
  let line := length (split_lines (stake index (sf_content file))) in
  let lineText := default "" (split_lines (sf_content file) !! (line - 1)%nat) in
  JObj [ ("kind", JStr kind); ("file", JStr (sf_relative file)); ("line", int (Z.of_nat line)); ("needle", JStr needle);
         ("excerpt", JStr (stake 240 (trim lineText))) ].

(** At most [room] places of a text, one after the other. *)
Fixpoint occurrences (room : nat) (text content : string) (from : nat) : list nat :=
  match room with
  | O => []
  | S room => match index_of_from text content from with
              | Some index => index :: occurrences room text content (index + Nat.max 1 (slen text))
              | None => []
              end
  end.
Fixpoint match_files_up_to (room : nat) (kind text : string) (files : list search_file) : list js :=
  match files with
  | [] => []
  | file :: files =>
    let found := matchForIndex file kind text <$> occurrences room text (sf_content file) 0 in
    found ++ match_files_up_to (room - length found) kind text files
  end.
Definition findMatches (files : list search_file) (needle : js) (kind : string) (max : nat) : list js :=
  let text := text_or_empty needle in
  if String.eqb text "" then [] else match_files_up_to max kind text files.
Definition findLiteralMatches (files : list search_file) (needle : string) (max : nat) : list js := findMatches files (JStr needle) "text" max.

Definition key_re (text : string) : re :=
  (RGroup 1 (RClass (one_of QUOTES)) ⋅ lit text ⋅ RBack 1 ⋅ RLook false (rstar rspace ⋅ lit ":"))%re.
Definition findObjectKeyMatches (files : list search_file) (text : string) (max : nat) : list js :=
  take max (files ≫= (fun file => (fun m => matchForIndex file "object_key" text (m_index m)) <$> re_match_all (key_re text) (sf_content file))).

(** The first [max] matches, each key once. *)
Definition distinct_up_to (max : nat) (l : list (string * js)) : list js :=
  (foldl (fun acc km => if (max <=? length acc.2)%nat || existsb (String.eqb km.1) acc.1 then acc
                        else (km.1 :: acc.1, acc.2 ++ [km.2])) ([], []) l).2.
Definition with_needle (needle m : js) : js := spread_with m [("needle", needle)].
Definition place_key (m : js) : string := to_str m.["file"] +:+ ":" +:+ to_str m.["line"].
Definition locator_needles (op : js) : list (string * js) :=
  (if truthy op.["elementId"] then [("id", op.["elementId"])] else [])
  ++ ((fun cls => ("class", cls)) <$> bfilter truthy (items op.["classes"]))
  ++ (if truthy op.["tag"] then [("tag", JStr ("<" +:+ to_str op.["tag"]))] else []).
Definition findLocatorMatches (files : list search_file) (op : js) (max : nat) : list js :=
  distinct_up_to max (locator_needles op ≫= (fun kn =>
    (fun m => (place_key m +:+ ":" +:+ kn.1 +:+ ":" +:+ to_str kn.2, with_needle kn.2 m)) <$> findMatches files kn.2 kn.1 max)).
Definition findContextMatches (files : list search_file) (hints : list js) (maxPerHint max : nat) : list js :=
  distinct_up_to max (hints ≫= (fun hint =>
    (fun m => (place_key m +:+ ":" +:+ to_str hint, with_needle hint m)) <$> findMatches files hint "context" maxPerHint)).

(** ** Source hints *)

Definition finite_or_null (v : js) : js := let n := to_num v in if num_is_finite n then JNum n else JNull.
Definition loc_re : re := (RBol ⋅ RGroup 1 (rplus (RClass is_digit)) ⋅ ropt (lit ":" ⋅ RGroup 2 (rplus (RClass is_digit))))%re.
Definition string_or_empty (v : js) : js := match v with JStr _ => v | _ => JStr "" end.
(** The line and the column: numbers, or what [loc] says. *)
Definition hint_place_of (hint : js) : js * js :=
  let line := finite_or_null hint.["line"] in
  let column := finite_or_null hint.["column"] in
  match hint.["loc"] with
  | JStr loc =>
    if negb (truthy line) || negb (truthy column) then
      match re_exec loc_re loc with
      | Some m => (JNum (string_to_num (group_or "" m 1)), match group m 2 with Some c => JNum (string_to_num c) | None => column end)
      | None => (line, column)
      end
    else (line, column)
  | _ => (line, column)
  end.
Definition normalizeSourceHint (hint : js) : js :=
  if negb (truthy hint) || negb (is_objecty hint) then JObj [] else
  let p := hint_place_of hint in
  JObj [("file", string_or_empty hint.["file"]); ("loc", string_or_empty hint.["loc"]); ("line", p.1); ("column", p.2)].

(** An index given to [slice], and [slice] itself from an index that is not negative. *)
Definition trunc_of (n : num) : Z := match n with NInt z => z | NFrac n d => Z.quot n (Zpos d) | _ => 0 end.
Definition slice_to {A} (l : list A) (i j : Z) : list A :=
  let j := if j <? 0 then Z.max 0 (Z.of_nat (length l) + j) else j in
  take (Z.to_nat (j - i)) (drop (Z.to_nat i) l).

Section Evidence.
Context (git_ignored : string -> bool) (realpath : string -> option string) (cwd liveDir : string).
Implicit Types s : fsys.

Definition isPathInsideOrEqual (file : string) : bool :=
  let rel := relative cwd file in String.eqb rel "" || in_tree rel.

Definition near_hint (op hint : js) (relativeFile content : string) : js :=
  let lines := split_lines content in
  let line := match hint.["line"] with JNum n => if truthy (JNum n) then n else NInt 1 | _ => NInt 1 end in
  let start := let n := num_add line (NInt (-4)) in if num_ltb n (NInt 0) then NInt 0 else n in
  let stop := let n := num_add line (NInt 3) in if num_ltb n (NInt (Z.of_nat (length lines))) then n else NInt (Z.of_nat (length lines)) in
  let shown := slice_to lines (trunc_of start) (trunc_of stop) in
  let found := match op.["originalText"] with JStr t => includes t (join s_nl shown) | _ => false end in
  spread_with hint
    [ ("status", JStr (if found then "ok" else "text_not_found_near_hint")); ("relativeFile", JStr relativeFile);
      ("excerpt", JArr (imap (fun index text => JObj [("line", JNum (num_add start (NInt (Z.of_nat index + 1)))); ("text", JStr (stake 240 text))]) shown)) ].
(** Reading a directory is an error that nothing here catches. *)
Definition analyzeSourceHint (op : js) s : result js :=
  let hint := normalizeSourceHint op.["sourceHint"] in
  if negb (truthy hint.["file"]) then Ok JNull else
  let file := resolve cwd (str_or hint.["file"]) in
  let relativeFile := relative cwd file in
  let answer (status relativeFile : string) := spread_with hint [("status", JStr status); ("relativeFile", JStr relativeFile)] in
  if negb (isPathInsideOrEqual file) then Ok (answer "outside_cwd" (str_or hint.["file"]))
  else if negb (existsSync file s) then Ok (answer "file_missing" relativeFile)
  else if isGeneratedFile git_ignored cwd file s then Ok (answer "generated" relativeFile)
  else near_hint op hint relativeFile <$> (readFileSync file s).1.

(** ** The files that are searched *)

Record searched := Searched { se_out : list search_file; se_dirs : list string; se_files : list string }.
Definition maybeAddSearchFile s (file : string) (acc : searched) : searched :=
  match realpath file with
  | None => acc
  | Some realFile =>
    if existsb (String.eqb realFile) (se_files acc) then acc else
    let acc := Searched (se_out acc) (se_dirs acc) (realFile :: se_files acc) in
    if isGeneratedFile git_ignored cwd file s then acc else
    match f_text s !! file with
    | None => acc
    | Some content => Searched (se_out acc ++ [SearchFile file (relative cwd file) content]) (se_dirs acc) (se_files acc)
    end
  end.
Definition text_file s (dir name : string) : bool :=
  bool_decide (is_Some (f_text s !! path_join [dir; name])) && existsb (String.eqb (to_lower (extname name))) TEXT_EXTENSIONS.
Definition scan_name (visit : string -> searched -> searched) s (dir : string) (acc : searched) (name : string) : searched :=
  let fullPath := path_join [dir; name] in
  if is_dir fullPath s then (if existsb (String.eqb name) SKIP_DIRS then acc else visit fullPath acc)
  else if text_file s dir name then maybeAddSearchFile s fullPath acc else acc.
(** [levels] is [8 - depth]. *)
Fixpoint scanDir s (levels : nat) (dir : string) (acc : searched) : searched :=
  match levels with
  | O => acc
  | S levels =>
    if negb (existsSync dir s) then acc else
    match realpath dir with
    | None => acc
    | Some realDir =>
      if existsb (String.eqb realDir) (se_dirs acc) then acc else
      let acc := Searched (se_out acc) (realDir :: se_dirs acc) (se_files acc) in
      match (readdirSync dir s).1 with
      | Throw _ => acc
      | Ok names => foldl (scan_name (scanDir s levels) s dir) acc names
      end
    end
  end.
Definition scanRootFiles s (acc : searched) : searched :=
  match (readdirSync cwd s).1 with
  | Throw _ => acc
  | Ok names => foldl (fun acc name => if text_file s cwd name then maybeAddSearchFile s (path_join [cwd; name]) acc else acc) acc names
  end.
Definition collectSearchFiles s : list search_file :=
  se_out (scanRootFiles s (foldl (fun acc dir => scanDir s 8 (path_join [cwd; dir]) acc) (Searched [] [] []) SEARCH_DIRS)).

(** ** The evidence *)

Definition buildCandidatesForOp (files : list search_file) s (op : js) : result js :=
  let originalText := text_or_empty op.["originalText"] in
  let found (l : list js) := JArr (if String.eqb originalText "" then [] else l) in
  sourceHint ← analyzeSourceHint op s;
  mret (JObj
    [ ("entryId", op.["entryId"]); ("ref", op.["ref"]); ("originalText", JStr originalText); ("sourceHint", sourceHint);
      ("textMatches", found (findLiteralMatches files originalText (literalMatchLimit originalText)));
      ("objectKeyMatches", found (findObjectKeyMatches files originalText OBJECT_KEY_MATCH_LIMIT));
      ("locatorMatches", JArr (findLocatorMatches files op LOCATOR_MATCH_LIMIT));
      ("contextTextMatches", JArr (findContextMatches files (items op.["contextHints"]) CONTEXT_MATCH_PER_HINT CONTEXT_MATCH_LIMIT)) ]).
Fixpoint build_all (files : list search_file) s (ops : list js) : result (list js) :=
  match ops with
  | [] => mret []
  | op :: ops => c ← buildCandidatesForOp files s op; cs ← build_all files s ops; mret (c :: cs)
  end.

Definition buildManualEditEvidence (pageUrl : js) : eff fsys js :=
  all ← readBuffer liveDir;
  let entries := if truthy pageUrl then bfilter (fun e => e.["pageUrl"] === pageUrl) all else all in
  let opCount := countOps entries in
  if (opCount =? 0)%nat
  then mret (JObj [("pageUrl", pageUrl); ("count", int 0); ("entries", JArr []); ("ops", JArr []); ("candidates", JArr [])])
  else
    let ops := flattenOps entries in
    candidates ← ((fun s => (build_all (collectSearchFiles s) s ops, s)) : eff fsys (list js));
    mret (JObj
      [ ("version", int EVIDENCE_VERSION); ("pageUrl", pageUrl ||? JNull); ("count", int (Z.of_nat opCount)); ("entries", JArr entries);
        ("ops", JArr ops);
        ("context", JObj [ ("cwd", JStr cwd); ("bufferPath", JStr (relative cwd (getBufferPath liveDir)));
                           ("totalEntries", int (Z.of_nat (length entries))); ("totalOps", int (Z.of_nat opCount)) ]);
        ("candidates", JArr candidates) ]).
End Evidence.

(** * Theorems *)

(** ** Lines *)

Lemma split_char_start sep t b : no_char sep t = true -> exists w ws, split_char sep (t +:+ b) = (t +:+ w) :: ws.
Proof.
  unfold no_char. induction t as [|c t IH]; simpl; intros H.
  - destruct (split_char sep b) as [|w ws] eqn:E; [by apply split_char_nonempty in E|eauto].
  - split_bools. destruct IH as (w & ws & ->); [done|]. destruct (Ascii.eqb c sep); [done|eauto].
Qed.

(** The line a text stands in is the number of line breaks before it. *)
Lemma split_char_at sep a t b : no_char sep t = true ->
  exists l, split_char sep (a +:+ t +:+ b) !! (length (split_char sep a) - 1)%nat = Some l /\ includes t l = true.
Proof.
  intros Ht. induction a as [|c a IH]; simpl.
  - destruct (split_char_start sep t b Ht) as (w & ws & ->). exists (t +:+ w). split; [done|]. apply includes_iff. by exists "", w.
  - destruct IH as (l & Hl & Hi). pose proof (split_char_nonempty sep a) as Ha. pose proof (split_char_nonempty sep (a +:+ t +:+ b)) as Hab.
    destruct (Ascii.eqb c sep).
    + destruct (split_char sep a) as [|w ws]; [done|]. simpl in *. rewrite Nat.sub_0_r in Hl. eauto.
    + destruct (split_char sep a) as [|w ws]; [done|]. destruct (split_char sep (a +:+ t +:+ b)) as [|w' ws']; [done|]. simpl in *.
      destruct (length ws) as [|n]; simpl in *; [|eauto]. injection Hl as <-. exists (String c w'). split; [done|].
      apply includes_iff in Hi as (x & y & ->). apply includes_iff. by exists (String c x), y.
Qed.

Lemma index_from_spec p s from i : index_of_from p s from = Some i -> exists b, s = stake i s +:+ p +:+ b.
Proof.
  unfold index_of_from. destruct (index_of p (sdrop from s)) as [k|] eqn:E; [|done]. intros [= <-].
  apply index_of_Some in E as (a & b & E & <-). exists b.
  destruct (decide (from <= slen s)%nat) as [Hf|Hf].
  - assert (s = (stake from s +:+ a) +:+ p +:+ b) as Hs by (rewrite sapp_assoc, <-E; symmetry; apply stake_sdrop).
    assert (slen (stake from s +:+ a) = (slen a + from)%nat) as Hl by (rewrite slen_app, slen_stake; lia).
    rewrite Hs at 2. by rewrite <-Hl, stake_app.
  - assert (slen (sdrop from s) = 0%nat) as H0 by (rewrite slen_sdrop; lia). rewrite E, !slen_app in H0.
    destruct a, p, b; try done. simpl in *. pose proof (stake_sdrop from s) as Hs. by rewrite E in Hs.
Qed.

Lemma occurrences_spec room p s from i : i ∈ occurrences room p s from -> exists b, s = stake i s +:+ p +:+ b.
Proof.
  revert from; induction room as [|room IH]; intros from; simpl; [by intros ?%elem_of_nil|].
  destruct (index_of_from p s from) as [k|] eqn:E; [|by intros ?%elem_of_nil].
  intros [->|H]%elem_of_cons; [by apply index_from_spec in E|eauto].
Qed.
Lemma occurrences_none room p s : (0 < room)%nat -> occurrences room p s 0 = [] <-> includes p s = false.
Proof. destruct room as [|room]; [lia|]. intros _. simpl. unfold index_of_from, includes. simpl. by destruct (index_of p s). Qed.

(** ** Matches *)

(** A match names a line of a file that has the text. *)
Definition located (files : list search_file) (text : string) (m : js) : Prop :=
  exists f line l, f ∈ files /\ m.["file"] = JStr (sf_relative f) /\ m.["line"] = int (Z.of_nat line) /\ (1 <= line)%nat
  /\ split_lines (sf_content f) !! (line - 1)%nat = Some l /\ includes text l = true.

Lemma match_located files file kind text i room : file ∈ files -> no_char NL text = true -> i ∈ occurrences room text (sf_content file) 0 ->
  located files text (matchForIndex file kind text i).
Proof.
  intros Hf Ht (b & Hc)%occurrences_spec.
  destruct (split_char_at NL (stake i (sf_content file)) text b Ht) as (l & Hl & Hi). rewrite <-Hc in Hl.
  exists file, (length (split_lines (stake i (sf_content file)))), l. repeat (split; [done|]). split; [|done].
  pose proof (split_char_nonempty NL (stake i (sf_content file))). unfold split_lines. destruct (split_char _ _); [done|simpl; lia].
Qed.

Lemma located_more files more text m : located files text m -> files ⊆ more -> located more text m.
Proof. intros (f & line & l & Hf & H) Hs. exists f, line, l. split; [by apply Hs|done]. Qed.

Lemma matches_located kind text : no_char NL text = true -> forall files room m, m ∈ match_files_up_to room kind text files -> located files text m.
Proof.
  intros Ht. induction files as [|file files IH]; intros room m; simpl; [by intros ?%elem_of_nil|].
  intros [(i & -> & Hi)%list_elem_of_fmap|H]%elem_of_app; [by eapply match_located; [apply list_elem_of_here|..]|].
  eapply located_more; [by apply IH in H|]. intros x. apply list_elem_of_further.
Qed.

Lemma matches_none kind text files room : (0 < room)%nat ->
  match_files_up_to room kind text files = [] <-> forall f, f ∈ files -> includes text (sf_content f) = false.
Proof.
  intros Hr. revert room Hr. induction files as [|file files IH]; intros room Hr; simpl; [by split; [intros _ ? ?%elem_of_nil|]|].
  split.
  - intros [H H']%app_eq_nil f. apply fmap_nil_inv in H. rewrite H in H'. simpl in H'. rewrite Nat.sub_0_r in H'.
    intros [->|Hf]%elem_of_cons; [by apply occurrences_none in H|by apply (IH room)].
  - intros H. rewrite (proj2 (occurrences_none room text (sf_content file) Hr)) by (apply H, list_elem_of_here). simpl. rewrite Nat.sub_0_r.
    apply IH; [done|]. intros f Hf. by apply H, list_elem_of_further.
Qed.
Lemma occurrences_length room p s from : (length (occurrences room p s from) <= room)%nat.
Proof. revert from; induction room as [|room IH]; intros from; simpl; [done|]. destruct (index_of_from p s from); simpl; [specialize (IH (n + Nat.max 1 (slen p))%nat); lia|lia]. Qed.
Lemma matches_length room kind text files : (length (match_files_up_to room kind text files) <= room)%nat.
Proof.
  revert room; induction files as [|file files IH]; intros room; simpl; [lia|]. rewrite length_app, length_fmap.
  pose proof (occurrences_length room text (sf_content file) 0). specialize (IH (room - length (occurrences room text (sf_content file) 0))%nat). lia.
Qed.

(** ** The files that are searched *)

Lemma foldl_inv {A B} (P : B -> Prop) (step : B -> A -> B) l acc :
  P acc -> (forall acc x, x ∈ l -> P acc -> P (step acc x)) -> P (foldl step acc l).
Proof.
  revert acc; induction l as [|x l IH]; intros acc Ha Hs; [done|]. cbn [foldl]. apply IH; [by apply Hs; [apply list_elem_of_here|]|].
  intros acc' y Hy. by apply Hs, list_elem_of_further.
Qed.

Section Searched.
Context (git_ignored : string -> bool) (realpath : string -> option string) (cwd liveDir : string).
Implicit Types s : fsys.

(** A source file of the project: reached without entering a directory that is skipped, of a known extension and not
    generated. *)
Definition project_source s (f : search_file) : Prop :=
  f_text s !! sf_file f = Some (sf_content f) /\ sf_relative f = relative cwd (sf_file f)
  /\ isGeneratedFile git_ignored cwd (sf_file f) s = false
  /\ ((exists name, sf_file f = path_join [cwd; name])
      \/ exists dir n, dir ∈ SEARCH_DIRS /\ reaches SKIP_DIRS n (path_join [cwd; dir]) (sf_file f)).

Lemma foldl_out {A} (P : search_file -> Prop) (step : searched -> A -> searched) l acc :
  (forall acc x, x ∈ l -> Forall P (se_out acc) -> Forall P (se_out (step acc x))) -> Forall P (se_out acc) -> Forall P (se_out (foldl step acc l)).
Proof. intros Hs Ha. by apply (foldl_inv (fun acc => Forall P (se_out acc))). Qed.
Lemma added_file (P : search_file -> Prop) s file acc :
  (forall content, f_text s !! file = Some content -> isGeneratedFile git_ignored cwd file s = false -> P (SearchFile file (relative cwd file) content)) ->
  Forall P (se_out acc) -> Forall P (se_out (maybeAddSearchFile git_ignored realpath cwd s file acc)).
Proof.
  intros HP Ha. unfold maybeAddSearchFile. destruct (realpath file); [|done]. destruct (existsb _ _); [done|].
  destruct (isGeneratedFile _ _ _ _) eqn:Eg; [done|]. simpl. destruct (f_text s !! file) eqn:Ef; [|done]. simpl. apply Forall_app. split; [done|].
  apply Forall_singleton. by apply HP.
Qed.
Lemma scanned_files s (P : search_file -> Prop) levels : forall dir acc,
  (forall n file content, reaches SKIP_DIRS n dir file -> f_text s !! file = Some content -> isGeneratedFile git_ignored cwd file s = false ->
     P (SearchFile file (relative cwd file) content)) ->
  Forall P (se_out acc) -> Forall P (se_out (scanDir git_ignored realpath cwd s levels dir acc)).
Proof.
  induction levels as [|levels IH]; intros dir acc HP Ha; simpl; [done|].
  destruct (negb _); [done|]. destruct (realpath dir); [|done]. destruct (existsb _ _); [done|].
  destruct (readdirSync dir s).1 as [names|]; [|done]. apply foldl_out; [|done]. intros acc' name _ Ha'. unfold scan_name.
  destruct (is_dir _ _).
  - destruct (existsb (String.eqb name) SKIP_DIRS) eqn:Ek; [done|]. apply IH; [|done]. intros n file content Hn. apply (HP (S n)). econstructor; [|done].
    intros Hk. apply not_true_iff_false in Ek. apply Ek, existsb_exists. exists name. split; [by apply list_elem_of_In|by apply String.eqb_eq].
  - destruct (text_file _ _ _); [|done]. apply added_file; [|done]. intros content. apply (HP 0%nat). constructor.
Qed.
Lemma searched_sources s : Forall (project_source s) (collectSearchFiles git_ignored realpath cwd s).
Proof.
  unfold collectSearchFiles, scanRootFiles.
  assert (Forall (project_source s) (se_out (foldl (fun acc dir => scanDir git_ignored realpath cwd s 8 (path_join [cwd; dir]) acc) (Searched [] [] []) SEARCH_DIRS))) as H.
  { apply foldl_out; [|by constructor]. intros acc dir Hd. apply scanned_files. intros n file content Hr Hc Hg. repeat (split; [done|]). right. eauto. }
  destruct (readdirSync cwd s).1 as [names|]; [|done]. apply foldl_out; [|done]. intros acc name _ Ha. destruct (text_file _ _ _); [|done].
  apply added_file; [|done]. intros content Hc Hg. repeat (split; [done|]). left. eauto.
Qed.
End Searched.

(** ** Nothing that should be searched is left out *)

Notation plain := (Forall (fun s => plain_seg s = true)).

Lemma plain_name name : plain_seg name = true -> name <> "" /\ no_char SLASH name = true.
Proof. unfold plain_seg. intros H. split_bools. split; [by intros ->|done]. Qed.
Lemma split_base_plain w r : no_char SLASH w = true -> split_base (w +:+ String SLASH r) = (w, Some r).
Proof.
  unfold no_char. induction w as [|c w IH]; [done|]. cbn [sforall append split_base]. intros [Hc Hw]%andb_true_iff.
  apply negb_true_iff in Hc. rewrite Hc. by rewrite (IH Hw).
Qed.
Lemma drop_slashes_plain w r : w <> "" -> no_char SLASH w = true -> drop_slashes (w +:+ r) = w +:+ r.
Proof.
  destruct w as [|c w]; [done|]. intros _. unfold no_char. cbn [sforall append drop_slashes]. intros [Hc _]%andb_true_iff.
  apply negb_true_iff in Hc. by rewrite Hc.
Qed.
Lemma srev_plain name : plain_seg name = true -> srev name <> "" /\ no_char SLASH (srev name) = true.
Proof.
  intros [Hne Hs]%plain_name. split; [intros E; apply (f_equal srev) in E; by rewrite srev_involutive in E|].
  clear Hne. revert Hs. unfold no_char. induction name as [|c name IH]; [done|]. cbn [sforall]. intros [Hc Hn]%andb_true_iff.
  rewrite srev_cons, sforall_app, IH by done. cbn [sforall]. by rewrite Hc.
Qed.
Lemma join_snoc (l : list string) x : l <> [] -> join "/" (l ++ [x]) = join "/" l +:+ "/" +:+ x.
Proof. induction l as [|y l IH]; [done|]. intros _. destruct l as [|z l]; [done|]. cbn [app join] in *. rewrite IH by done. by rewrite !sapp_assoc. Qed.

(** The directory and the name of a path. *)
Lemma file_of_dir l name : plain (l ++ [name]) -> dirname (of_segs (l ++ [name])) = of_segs l /\ basename (of_segs (l ++ [name])) = name.
Proof.
  intros [Hl Hn]%Forall_app. rewrite Forall_singleton in Hn. destruct (srev_plain name Hn) as [Hne Hs].
  unfold dirname, basename, of_segs. destruct l as [|d l _] using rev_ind.
  - cbn [app join]. rewrite srev_append. change (srev "/") with (String SLASH ""). rewrite drop_slashes_plain, split_base_plain by done. cbn [fst snd].
    by rewrite srev_involutive.
  - apply Forall_app in Hl as [_ Hd]. rewrite Forall_singleton in Hd. destruct (srev_plain d Hd) as [Hdne Hds].
    rewrite (join_snoc (l ++ [d])) by (by destruct l). set (p := join "/" (l ++ [d])).
    assert (exists q, srev ("/" +:+ p) = srev d +:+ q) as [q Hq].
    { subst p. destruct l as [|x l]; [exists (String SLASH ""); cbn [app join]; by rewrite srev_append|]. rewrite join_snoc by done.
      exists (srev ("/" +:+ join "/" (x :: l) +:+ "/")). by rewrite <- srev_append, !sapp_assoc. }
    assert (srev ("/" +:+ p +:+ "/" +:+ name) = srev name +:+ String SLASH (srev ("/" +:+ p))) as ->.
    { rewrite <- (sapp_assoc "/"), <- (sapp_assoc ("/" +:+ p)), srev_append. f_equal. by rewrite srev_append. }
    rewrite drop_slashes_plain, split_base_plain by done. cbn [fst snd]. rewrite srev_involutive. split; [|done].
    rewrite Hq, drop_slashes_plain by done. assert (srev (srev d +:+ q) = "/" +:+ p) as E by (by rewrite <- Hq, srev_involutive).
    by destruct (srev d +:+ q).
Qed.

(** Every path of the file system in normal form, and no symbolic links. *)
Definition canonical (s : fsys) : Prop :=
  forall p, is_Some (f_text s !! p) \/ p ∈ f_dirs s -> exists l, plain l /\ p = of_segs l.
Definition no_links (realpath : string -> option string) (s : fsys) : Prop :=
  forall p, existsSync p s = true -> realpath p = Some p.

(** The elements of a fold that reach a goal: [x] does, what is folded before leaves it possible, what comes after
    does not undo it. *)
Lemma foldl_reaches {A B} (step : B -> A -> B) (I G : B -> Prop) (x : A) `{EqDecision A} :
  (forall acc y, G acc -> G (step acc y)) -> (forall acc, I acc -> G (step acc x)) ->
  forall l, (forall acc y, y ∈ l -> y <> x -> I acc -> I (step acc y)) ->
  x ∈ l -> forall acc, I acc -> G (foldl step acc l).
Proof.
  intros Hg Hx. induction l as [|y l IH]; intros Hi Hin acc Ha; [by apply elem_of_nil in Hin|]. cbn [foldl].
  destruct (decide (y = x)) as [->|Hne].
  - assert (forall acc, G acc -> G (foldl step acc l)) as Hk; [|by apply Hk, Hx].
    clear -Hg. induction l as [|y l IH]; intros acc Ha; [done|]. cbn [foldl]. by apply IH, Hg.
  - apply IH; [|by apply elem_of_cons in Hin as [|]; congruence|].
    + intros acc' z Hz. by apply Hi, list_elem_of_further.
    + apply Hi; [apply list_elem_of_here|done..].
Qed.

Section Complete.
Context (git_ignored : string -> bool) (realpath : string -> option string) (s : fsys) (c : list string).
Context (tidy : canonical s) (unlinked : no_links realpath s) (c_plain : plain c).
Local Notation cwd := (of_segs c).
Local Notation scan := (scanDir git_ignored realpath cwd s).
Local Notation add := (maybeAddSearchFile git_ignored realpath cwd s).

(** A directory or a file below [l]. *)
Definition below (l : list string) (p : string) : Prop := exists m, plain (l ++ m) /\ p = of_segs (l ++ m).
Lemma below_apart l a b p : below (l ++ [a]) p -> below (l ++ [b]) p -> a = b.
Proof.
  intros (m & Hm & ->) (m' & Hm' & E). apply of_segs_inj in E; [|done..]. rewrite <- !app_assoc in E. apply app_inv_head in E. by injection E as ->.
Qed.
Lemma below_up l a p : below (l ++ [a]) p -> below l p.
Proof. intros (m & Hm & ->). exists (a :: m). by rewrite <- app_assoc in Hm |- *. Qed.
Lemma not_below_self l a : plain l -> ~ below (l ++ [a]) (of_segs l).
Proof.
  intros Hl (m & Hm & E). apply of_segs_inj in E; [|done..]. apply (f_equal length) in E. rewrite !length_app in E. cbn [length] in E. lia.
Qed.

(** The names of a directory are those of the paths in it. *)
Lemma names_of l name : plain (l ++ [name]) -> is_dir (of_segs l) s = true ->
  (is_Some (f_text s !! of_segs (l ++ [name])) \/ of_segs (l ++ [name]) ∈ f_dirs s) ->
  exists names, (readdirSync (of_segs l) s).1 = Ok names /\ name ∈ names.
Proof.
  intros Hp Hd Hin. unfold readdirSync. rewrite Hd. cbn [negb fst]. eexists. split; [reflexivity|].
  destruct (file_of_dir l name Hp) as [Ed En]. apply list_elem_of_fmap. exists (of_segs (l ++ [name])). split; [done|].
  apply bfilter_elem_of. split.
  - apply elem_of_app. destruct Hin as [[t Ht]|Hin]; [left|right; by apply elem_of_elements].
    apply list_elem_of_fmap. exists (of_segs (l ++ [name]), t). split; [done|]. by apply elem_of_map_to_list.
  - rewrite Ed, String.eqb_refl. cbn [andb]. apply negb_true_iff, String.eqb_neq. intros E.
    apply of_segs_inj in E; [|done|by apply Forall_app in Hp as [? _]]. apply (f_equal length) in E. rewrite length_app in E. cbn [length] in E. lia.
Qed.
Lemma names_plain l names name : plain l -> (readdirSync (of_segs l) s).1 = Ok names -> name ∈ names -> plain (l ++ [name]).
Proof.
  intros Hl. unfold readdirSync. destruct (negb _); [done|]. cbn [fst]. intros [= <-] (p & -> & [Hin Hp]%bfilter_elem_of)%list_elem_of_fmap.
  apply andb_true_iff in Hp as [Ed%String.eqb_eq Hne%negb_true_iff%String.eqb_neq].
  destruct (tidy p) as (q & Hq & ->).
  { apply elem_of_app in Hin as [Hin|Hin]; [left|right; by apply elem_of_elements].
    apply list_elem_of_fmap in Hin as ([p' t] & -> & Ht). apply elem_of_map_to_list in Ht. by exists t. }
  destruct q as [|x q _] using rev_ind; [by rewrite <- Ed in Hne|]. destruct (file_of_dir q x Hq) as [Ed' ->]. rewrite Ed' in Ed.
  apply of_segs_inj in Ed; [by subst|by apply Forall_app in Hq as [? _]|done].
Qed.

(** Files that were seen and are sources are in the result. *)
Definition seen_kept (acc : searched) : Prop := forall p content, p ∈ se_files acc ->
  f_text s !! p = Some content -> isGeneratedFile git_ignored cwd p s = false -> SearchFile p (relative cwd p) content ∈ se_out acc.
Lemma add_keeps p acc : is_Some (f_text s !! p) -> seen_kept acc ->
  seen_kept (add p acc) /\ se_dirs (add p acc) = se_dirs acc
  /\ forall content, f_text s !! p = Some content -> isGeneratedFile git_ignored cwd p s = false -> SearchFile p (relative cwd p) content ∈ se_out (add p acc).
Proof.
  intros [t Ht] Hk. unfold maybeAddSearchFile.
  rewrite (unlinked p) by (unfold existsSync; rewrite Ht; by rewrite bool_decide_true by eauto).
  destruct (existsb (String.eqb p) (se_files acc)) eqn:E.
  { split; [done|]. split; [done|]. intros content Hc Hg. apply Hk; [|done..]. apply existsb_exists in E as (q & Hq & ->%String.eqb_eq).
    by apply list_elem_of_In. }
  destruct (isGeneratedFile git_ignored cwd p s) eqn:Eg.
  { split; [|split; [done|by intros]]. intros q content [->|Hq]%elem_of_cons Hc Hg; [by rewrite Eg in Hg|by apply Hk]. }
  rewrite Ht. cbn [se_out se_dirs se_files]. split; [|split; [done|]].
  - intros q content [->|Hq]%elem_of_cons Hc Hg; cbn [se_out]; apply elem_of_app.
    + right. rewrite Ht in Hc. injection Hc as <-. by apply list_elem_of_singleton.
    + left. by apply Hk.
  - intros content [= <-] _. apply elem_of_app. right. by apply list_elem_of_singleton.
Qed.
Lemma add_grows p acc x : x ∈ se_out acc -> x ∈ se_out (add p acc).
Proof.
  intros H. unfold maybeAddSearchFile. destruct (realpath p); [|done]. destruct (existsb _ _); [done|]. destruct (isGeneratedFile _ _ _ _); [done|].
  cbn [se_out se_dirs se_files]. destruct (f_text s !! p); [|done]. cbn [se_out]. apply elem_of_app. by left.
Qed.

Lemma text_file_is dir name : text_file s dir name = true -> is_Some (f_text s !! path_join [dir; name]).
Proof. unfold text_file. by intros [H%bool_decide_eq_true _]%andb_true_iff. Qed.

Lemma scan_grows levels : forall dir acc x, x ∈ se_out acc -> x ∈ se_out (scan levels dir acc).
Proof.
  induction levels as [|levels IH]; intros dir acc x H; [done|]. cbn [scanDir]. destruct (negb _); [done|]. destruct (realpath dir); [|done].
  destruct (existsb _ _); [done|]. destruct (readdirSync dir s).1 as [names|]; [|done].
  apply (foldl_inv (fun acc => x ∈ se_out acc)); [done|]. intros acc' name _ Ha. unfold scan_name.
  destruct (is_dir _ _); [destruct (existsb _ _); [done|by apply IH]|]. destruct (text_file _ _ _); [by apply add_grows|done].
Qed.

Lemma name_grows levels dir acc name x : x ∈ se_out acc -> x ∈ se_out (scan_name git_ignored realpath cwd (scan levels) s dir acc name).
Proof.
  intros H. unfold scan_name. destruct (is_dir _ _); [destruct (existsb _ _); [done|by apply scan_grows]|].
  destruct (text_file _ _ _); [by apply add_grows|done].
Qed.

(** A scan keeps what was seen, and enters directories below its own only. *)
Definition entered (l : list string) (old acc : searched) : Prop :=
  seen_kept acc /\ forall x, x ∈ se_dirs acc -> x ∈ se_dirs old \/ below l x.
Lemma entered_name levels l acc name :
  (forall l acc, plain l -> seen_kept acc -> entered l acc (scan levels (of_segs l) acc)) ->
  plain (l ++ [name]) -> seen_kept acc -> entered (l ++ [name]) acc (scan_name git_ignored realpath cwd (scan levels) s (of_segs l) acc name).
Proof.
  intros IH Hp Ha. unfold scan_name. rewrite path_join_file by (apply Forall_app in Hp as [? ?%Forall_inv]; done).
  destruct (is_dir _ _).
  - destruct (existsb _ _); [split; [done|by left]|]. by apply IH.
  - destruct (text_file s (of_segs l) name) eqn:E; [|split; [done|by left]]. apply text_file_is in E.
    rewrite path_join_file in E by (apply Forall_app in Hp as [? ?%Forall_inv]; done).
    destruct (add_keeps _ _ E Ha) as (Hk & Hd & _). split; [done|]. intros x. rewrite Hd. by left.
Qed.
Lemma scan_enters levels : forall l acc, plain l -> seen_kept acc -> entered l acc (scan levels (of_segs l) acc).
Proof.
  induction levels as [|levels IH]; intros l acc Hl Ha; [split; [done|by left]|]. cbn [scanDir].
  destruct (existsSync (of_segs l) s) eqn:Ex; [|split; [done|by left]]. cbn [negb]. rewrite (unlinked _ Ex).
  destruct (existsb _ _); [split; [done|by left]|].
  set (acc1 := Searched _ _ _). assert (entered l acc acc1) as H1.
  { split; [exact Ha|]. intros x [->|Hx]%elem_of_cons; [right; exists []; by rewrite app_nil_r|by left]. }
  destruct (readdirSync (of_segs l) s).1 as [names|] eqn:En; [|done].
  apply (foldl_inv (entered l acc)); [done|]. intros acc2 name Hname [Hk Hd].
  pose proof (names_plain l names name Hl En Hname) as Hp.
  destruct (entered_name levels l acc2 name IH Hp Hk) as [Hk' Hd']. split; [done|].
  intros x [Hx|Hx]%Hd'; [by apply Hd|right; by eapply below_up].
Qed.

(** A file that a scan of [l] must find: [m] are the directories between. *)
Record due (l m : list string) (name content : string) : Prop := Due {
  du_plain : plain (l ++ m ++ [name]);
  du_dirs : forall k, (k <= length m)%nat -> is_dir (of_segs (l ++ take k m)) s = true;
  du_kept : Forall (fun d => ~ d ∈ SKIP_DIRS) m;
  du_text : f_text s !! of_segs (l ++ m ++ [name]) = Some content;
  du_file : is_dir (of_segs (l ++ m ++ [name])) s = false;
  du_ext : existsb (String.eqb (to_lower (extname name))) TEXT_EXTENSIONS = true;
  du_source : isGeneratedFile git_ignored cwd (of_segs (l ++ m ++ [name])) s = false }.
Definition due_file (l m : list string) (name content : string) : search_file :=
  SearchFile (of_segs (l ++ m ++ [name])) (relative cwd (of_segs (l ++ m ++ [name]))) content.

Lemma due_below l d m name content : due l (d :: m) name content -> due (l ++ [d]) m name content.
Proof.
  intros [H1 H2 H3 H4 H5 H6 H7]. cbn [app] in *. constructor; rewrite <- ?app_assoc; cbn [app]; try done.
  - intros k Hk. rewrite <- app_assoc. apply (H2 (S k)). cbn [length]. lia.
  - by apply Forall_cons in H3 as [_ ?].
Qed.
Lemma due_here l name content acc : due l [] name content -> seen_kept acc ->
  due_file l [] name content ∈ se_out (if text_file s (of_segs l) name then add (path_join [of_segs l; name]) acc else acc).
Proof.
  intros [H1 H2 _ H4 H5 H6 H7] Hk. cbn [app] in *. unfold due_file, text_file. cbn [app].
  rewrite path_join_file by (apply Forall_app in H1 as [? ?%Forall_inv]; done). rewrite H4, H6, bool_decide_true by eauto. cbn [andb].
  destruct (add_keeps (of_segs (l ++ [name])) acc) as (_ & _ & Ha); [by rewrite H4|done|by apply Ha].
Qed.
Lemma scan_finds levels : forall l m name content acc, due l m name content -> (length m < levels)%nat ->
  seen_kept acc -> (forall x, x ∈ se_dirs acc -> ~ below l x) ->
  due_file l m name content ∈ se_out (scan levels (of_segs l) acc).
Proof.
  induction levels as [|levels IH]; intros l m name content acc Hdue Hm Hk Hfresh; [lia|]. cbn [scanDir].
  assert (plain l) as Hl by (by apply (du_plain _ _ _ _) in Hdue; apply Forall_app in Hdue as [? _]).
  assert (is_dir (of_segs l) s = true) as Hd by (pose proof (du_dirs _ _ _ _ Hdue 0%nat ltac:(lia)) as H; cbn [take] in H; by rewrite app_nil_r in H).
  assert (existsSync (of_segs l) s = true) as Ex by (unfold existsSync; by rewrite Hd, orb_true_r). rewrite Ex. cbn [negb]. rewrite (unlinked _ Ex).
  assert (below l (of_segs l)) as Hself by (exists []; by rewrite app_nil_r).
  destruct (existsb _ (se_dirs acc)) eqn:Eseen.
  { apply existsb_exists in Eseen as (x & Hx%list_elem_of_In & <-%String.eqb_eq). by apply Hfresh in Hx. }
  set (first := hd name m). assert (plain (l ++ [first])) as Hfirst.
  { pose proof (du_plain _ _ _ _ Hdue) as H. apply Forall_app in H as [_ H]. apply Forall_app. split; [done|]. apply Forall_singleton.
    subst first. destruct m; by apply Forall_inv in H. }
  destruct (names_of l first Hfirst Hd) as (names & En & Hin).
  { destruct m as [|d m]; [left; exists content; exact (du_text _ _ _ _ Hdue)|right].
    pose proof (du_dirs _ _ _ _ Hdue 1%nat ltac:(cbn [length]; lia)) as H. by apply bool_decide_eq_true in H. }
  rewrite En. apply (foldl_reaches _ (fun acc => seen_kept acc /\ forall x, x ∈ se_dirs acc -> ~ below (l ++ [first]) x)
    (fun acc => due_file l m name content ∈ se_out acc) first).
  - intros acc' y. apply name_grows.
  - intros acc' [Hk' Hf']. unfold scan_name. subst first. destruct m as [|d m]; cbn [hd] in *.
    + rewrite path_join_file by (apply Forall_app in Hfirst as [? ?%Forall_inv]; done).
      rewrite (du_file _ _ _ _ Hdue : is_dir (of_segs (l ++ [name])) s = false).
      rewrite <- path_join_file by (apply Forall_app in Hfirst as [? ?%Forall_inv]; done). by apply due_here.
    + rewrite path_join_file by (apply Forall_app in Hfirst as [? ?%Forall_inv]; done).
      rewrite (du_dirs _ _ _ _ Hdue 1%nat ltac:(cbn [length]; lia) : is_dir (of_segs (l ++ [d])) s = true).
      assert (existsb (String.eqb d) SKIP_DIRS = false) as ->.
      { pose proof (Forall_inv (du_kept _ _ _ _ Hdue)) as Hs. apply not_true_iff_false. intros (x & Hx%list_elem_of_In & ->%String.eqb_eq)%existsb_exists. done. }
      apply due_below in Hdue as Hdue'. replace (due_file l (d :: m) name content) with (due_file (l ++ [d]) m name content)
        by (unfold due_file; by rewrite <- app_assoc).
      apply IH; [done|cbn [length] in Hm; lia|done|done].
  - intros acc' y Hy Hne [Hk' Hf']. pose proof (names_plain l names y Hl En Hy) as Hp.
    destruct (entered_name levels l acc' y (scan_enters levels) Hp Hk') as [Hk2 Hd2]. split; [done|].
    intros x [Hx|Hx]%Hd2 Hb; [by apply (Hf' x)|]. by apply Hne, (below_apart l y first x).
  - done.
  - split; [done|]. intros x [->|Hx]%elem_of_cons Hb; [by apply (not_below_self l first)|]. by apply (Hfresh x); [|eapply below_up].
Qed.

(** A source file of the project by its place: in the project root, or at most eight directories deep in one of the
    search directories, below none that is skipped. *)
Inductive to_find : string -> string -> Prop :=
| find_root name content : due c [] name content -> to_find (of_segs (c ++ [name])) content
| find_below d m name content : d ∈ SEARCH_DIRS -> (length m < 8)%nat -> due (c ++ [d]) m name content ->
    to_find (of_segs ((c ++ [d]) ++ m ++ [name])) content.

Lemma search_dir_plain d : d ∈ SEARCH_DIRS -> plain (c ++ [d]).
Proof.
  intros Hd. apply Forall_app. split; [done|]. apply Forall_singleton. revert d Hd. apply Forall_forall. by repeat constructor.
Qed.
Lemma root_step_grows (acc : searched) name x : x ∈ se_out acc ->
  x ∈ se_out (if text_file s cwd name then add (path_join [cwd; name]) acc else acc).
Proof. intros H. destruct (text_file _ _ _); [by apply add_grows|done]. Qed.
Lemma root_scan_grows acc x : x ∈ se_out acc -> x ∈ se_out (scanRootFiles git_ignored realpath cwd s acc).
Proof.
  intros H. unfold scanRootFiles. destruct (readdirSync cwd s).1 as [names|]; [|done].
  apply (foldl_inv (fun acc => x ∈ se_out acc)); [done|]. intros acc' name _. apply root_step_grows.
Qed.
Lemma dir_step_enters acc d : d ∈ SEARCH_DIRS -> seen_kept acc -> entered (c ++ [d]) acc (scan 8 (path_join [cwd; d]) acc).
Proof.
  intros Hd Hk. pose proof (search_dir_plain d Hd) as Hp. rewrite path_join_file by (apply Forall_app in Hp as [? ?%Forall_inv]; done).
  by apply scan_enters.
Qed.

Lemma search_complete p content : to_find p content ->
  SearchFile p (relative cwd p) content ∈ collectSearchFiles git_ignored realpath cwd s.
Proof.
  intros [name t Hdue|d m name t Hd Hm Hdue]; unfold collectSearchFiles.
  - set (acc := foldl _ _ SEARCH_DIRS). assert (seen_kept acc) as Hk.
    { apply (foldl_inv seen_kept); [by intros ? ? ?%elem_of_nil|]. intros acc' d Hd Hk. by apply (dir_step_enters acc' d Hd Hk). }
    pose proof (du_plain _ _ _ _ Hdue) as Hp. cbn [app] in Hp.
    pose proof (du_dirs _ _ _ _ Hdue 0%nat ltac:(cbn [length]; lia)) as Hc. cbn [take] in Hc. rewrite app_nil_r in Hc.
    destruct (names_of c name Hp Hc) as (names & En & Hin); [left; exists t; exact (du_text _ _ _ _ Hdue)|].
    unfold scanRootFiles. rewrite En.
    apply (foldl_reaches _ seen_kept (fun acc => due_file c [] name t ∈ se_out acc) name); [|by intros; apply due_here| |done|done].
    + intros acc' y. apply root_step_grows.
    + intros acc' y _ _ Hk'. destruct (text_file s cwd y) eqn:E; [|done]. apply text_file_is in E. by apply add_keeps.
  - apply root_scan_grows.
    apply (foldl_reaches _ (fun acc => seen_kept acc /\ forall x, x ∈ se_dirs acc -> ~ below (c ++ [d]) x)
             (fun acc => due_file (c ++ [d]) m name t ∈ se_out acc) d); [| | |done|].
    + intros acc y. apply scan_grows.
    + intros acc [Hk Hf]. pose proof (search_dir_plain d Hd) as Hp. rewrite path_join_file by (apply Forall_app in Hp as [? ?%Forall_inv]; done).
      by apply scan_finds.
    + intros acc y Hy Hne [Hk Hf]. destruct (dir_step_enters acc y Hy Hk) as [Hk' Hd']. split; [done|].
      intros x [Hx|Hx]%Hd' Hb; [by apply (Hf x)|]. by apply Hne, (below_apart c y d x).
    + split; [by intros ? ? ?%elem_of_nil|by intros ? ?%elem_of_nil].
Qed.
End Complete.

(** ** The evidence *)

Lemma readBuffer_same liveDir strict (s : fsys) : (readBufferInternal liveDir strict s).2 = s.
Proof.
  assert (keeps (fun s' => s' = s) (readBufferInternal liveDir strict)) as H by (unfold readBufferInternal; keep; by intros ? ->).
  by apply H.
Qed.

(** What the evidence of an operation says of its text, when it is one line: places where it is, and none only when no
    file has it. *)
Definition found_by (files : list search_file) (op c : js) : Prop :=
  c.["entryId"] = op.["entryId"] /\ c.["ref"] = op.["ref"]
  /\ forall text, op.["originalText"] = JStr text -> text <> "" -> no_char NL text = true ->
     exists ms, c.["textMatches"] = JArr ms /\ (length ms <= STRONG_LITERAL_MATCH_LIMIT)%nat /\ Forall (located files text) ms
     /\ (ms = [] <-> forall f, f ∈ files -> includes text (sf_content f) = false).

Lemma limit_ok text : (0 < literalMatchLimit text <= STRONG_LITERAL_MATCH_LIMIT)%nat.
Proof. unfold literalMatchLimit. destruct (isWeakSourceNeedle text); unfold WEAK_LITERAL_MATCH_LIMIT, STRONG_LITERAL_MATCH_LIMIT; lia. Qed.

Lemma build_found git_ignored cwd files s op c : buildCandidatesForOp git_ignored cwd files s op = Ok c -> found_by files op c.
Proof.
  unfold buildCandidatesForOp. destruct (analyzeSourceHint _ _ _ _) as [hint|]; [|done]. simpl. intros [= <-].
  split; [done|]. split; [done|]. intros text Ht Hne Hnl. simpl. unfold text_or_empty. rewrite Ht. unfold or_else. simpl.
  assert (String.eqb text "" = false) as E by (by apply String.eqb_neq). unfold truthy. rewrite E. simpl. rewrite E.
  eexists. split; [reflexivity|]. unfold findLiteralMatches, findMatches, text_or_empty, or_else, truthy. rewrite E. simpl. rewrite E.
  pose proof (limit_ok text) as Hl. split; [|split].
  - pose proof (matches_length (literalMatchLimit text) "text" text files). lia.
  - apply Forall_forall. intros m. by apply matches_located.
  - apply matches_none. lia.
Qed.
Lemma build_all_found git_ignored cwd files s ops cs : build_all git_ignored cwd files s ops = Ok cs -> Forall2 (found_by files) ops cs.
Proof.
  revert cs; induction ops as [|op ops IH]; intros cs; simpl; [intros [= <-]; constructor|].
  destruct (buildCandidatesForOp _ _ _ _ op) as [c|] eqn:E; [|done]. destruct (build_all _ _ _ _ ops) as [cs'|]; [|done].
  intros [= <-]. constructor; [by apply build_found in E|by apply IH].
Qed.

Lemma evidence_keeps git_ignored realpath cwd liveDir pageUrl s batch s' :
  buildManualEditEvidence git_ignored realpath cwd liveDir pageUrl s = (Ok batch, s') -> s' = s.
Proof.
  unfold buildManualEditEvidence. intros H. apply eff_bind_ok in H as (all & s1 & Hr & H).
  assert (s1 = s) as -> by (pose proof (readBuffer_same liveDir false s) as E; unfold readBuffer in Hr; by rewrite Hr in E). cbv zeta in H.
  destruct (_ =? 0)%nat; [by injection H as _ <-|].
  apply eff_bind_ok in H as (cs & s1 & Hb & H). injection Hb as Hb <-. by injection H as _ <-.
Qed.

(** An operation of a staged entry, and what its candidate says. *)
Definition staged_ops (entries : list js) : list (js * js) := entries ≫= (fun e => (fun op => (e, op)) <$> items e.["ops"]).
Definition answers (files : list search_file) (eo : js * js) (cand : js) : Prop :=
  cand.["entryId"] = eo.1.["id"] /\ cand.["ref"] = eo.2.["ref"]
  /\ forall text, eo.2.["originalText"] = JStr text -> text <> "" -> no_char NL text = true ->
     exists ms, cand.["textMatches"] = JArr ms /\ (length ms <= STRONG_LITERAL_MATCH_LIMIT)%nat /\ Forall (located files text) ms
     /\ (ms = [] <-> forall f, f ∈ files -> includes text (sf_content f) = false).
Lemma flat_answers files entries cands : Forall2 (found_by files) (flattenOps entries) cands -> Forall2 (answers files) (staged_ops entries) cands.
Proof.
  unfold flattenOps, staged_ops. revert cands. induction entries as [|e entries IH]; intros cands; [by inversion 1; constructor|].
  cbn [mbind list_bind]. intros (c1 & c2 & H1 & H2 & ->)%Forall2_app_inv_l. apply Forall2_app; [|by apply IH].
  clear IH H2. revert c1 H1. generalize (buildContextHintsByRef e) as hints. induction (items e.["ops"]) as [|op ops IH]; intros hints c1 H1.
  - by inversion H1.
  - cbn [fmap list_fmap] in H1 |- *. inversion H1 as [|? cand ? c1' Hc Hr]; subst. constructor; [exact Hc|by apply (IH hints)].
Qed.
Lemma no_ops entries : countOps entries = 0%nat -> staged_ops entries = [].
Proof.
  unfold countOps. assert (forall n, foldl (fun n e => n + length (items e.["ops"]))%nat n entries = 0%nat -> n = 0%nat /\ staged_ops entries = []) as H.
  { induction entries as [|e entries IH]; intros n; [done|]. cbn [foldl]. intros [Hn Hs]%IH. split; [lia|].
    unfold staged_ops in *. cbn [mbind list_bind]. rewrite Hs. destruct (items e.["ops"]); [done|cbn [length] in Hn; lia]. }
  intros [_ Hs]%H. exact Hs.
Qed.


(** ** An example *)

Definition demo_cwd : string := "/p".
Definition demo_entries : list js :=
  [JObj [("id", JStr "e1"); ("pageUrl", JStr "/");
    ("ops", JArr [JObj [("ref", JStr "r1"); ("tag", JStr "h1"); ("originalText", JStr "Welcome home"); ("newText", JStr "Hello")]])]].
Definition demo_staged : string := json_stringify2 (buffer demo_entries).
Definition demo_project : fsys :=
  Fsys {[ "/p/.impeccable/live/pending-manual-edits.json" := demo_staged;
          "/p/src/page.html" := "<main>" +:+ s_nl +:+ "  <h1>Welcome home</h1>" +:+ s_nl +:+ "</main>" ]} {[ "/p"; "/p/src" ]}.
Definition demo_evidence : result js * fsys :=
  buildManualEditEvidence (fun _ => false) Some demo_cwd "/p/.impeccable/live" (JStr "/") demo_project.

Definition paths_of (s : fsys) : list string := (map_to_list (f_text s)).*1 ++ elements (f_dirs s).
Lemma canonical_ok s : Forall (fun p => p = of_segs (norm_segs false [] (segs_of p))) (paths_of s) -> canonical s.
Proof.
  rewrite Forall_forall. intros H p Hp. exists (norm_segs false [] (segs_of p)). split.
  - apply norm_segs_abs_plain; [constructor|apply split_no_sep].
  - apply H. unfold paths_of. apply elem_of_app. destruct Hp as [[t Ht]|Hp]; [left|right; by apply elem_of_elements].
    apply list_elem_of_fmap. exists (p, t). split; [done|]. by apply elem_of_map_to_list.
Qed.
Lemma demo_due : to_find (fun _ => false) demo_project ["p"] "/p/src/page.html" ("<main>" +:+ s_nl +:+ "  <h1>Welcome home</h1>" +:+ s_nl +:+ "</main>").
Proof.
  apply (find_below (fun _ => false) demo_project ["p"] "src" [] "page.html"); [apply list_elem_of_here|cbn; lia|]. constructor; try (vm_compute; reflexivity).
  - by repeat constructor.
  - intros k _. destruct k; vm_compute; reflexivity.
  - constructor.
Qed.

Definition demo_batch : js := match demo_evidence.1 with Ok b => b | Throw _ => JUndef end.
