(* ===== verification/CommitEdits.v ===== *)
(** * Committing copy edits ([live-commit-manual-edits.mjs])

    The staged copy edits are handed to an agent as one batch; what it may touch is saved before, what it reports is
    checked against the sources, and the entries that were found there are taken out of the buffer. A result that does
    not hold together is rolled back; one that only fails a check goes back to the agent for a bounded number of
    repairs. The agent is an argument: it may do anything to the files, and answer anything or throw. So are the syntax
    checks of live-copy-edit-agent.mjs, and what [fs.realpathSync] and [git check-ignore] answer. *)
From S2P Require Import Prelude JsString JsValue JsRegex RegexFacts NodePath PollLanes Files ManualEditsBuffer ApplyFiles SourceSearch CommitVerify CopyEvidence.
Local Open Scope Z_scope.
Local Open Scope list_scope.

Definition ROLLBACK_EXTENSIONS : list string :=
  [ ".astro"; ".cjs"; ".css"; ".eex"; ".ex"; ".heex"; ".htm"; ".html"; ".js"; ".json"; ".jsx"; ".md"; ".mdx"; ".mjs"; ".scss";
    ".svelte"; ".svg"; ".ts"; ".tsx"; ".txt"; ".vue"; ".yaml"; ".yml" ].
Definition ROLLBACK_SKIP_DIRS : list string :=
  [ ".astro"; ".git"; ".impeccable"; ".next"; ".nuxt"; ".svelte-kit"; "build"; "coverage"; "dist"; "node_modules"; "out" ].

(** The answer of the agent, as [normalizeBatchResult] of live-copy-edit-agent.mjs leaves it. *)
Record answer := Answer {
  an_status : string; an_message : js; an_applied : list string; an_failed : list js;
  an_files : list string; an_notes : list string; an_warnings : list js }.
Definition strings_of (v : js) : list string := omap (fun x => match x with JStr s => Some s | _ => None end) (items v).
Definition failed_item (item : js) : js :=
  JObj [ ("entryId", item.["entryId"] ||? item.["id"] ||? JNull); ("reason", item.["reason"] ||? item.["message"] ||? JStr "failed");
         ("candidates", match item.["candidates"] with JArr l => JArr l | _ => JArr [] end) ].
Definition warning_item (w : js) : js := match w with JStr _ => JObj [("message", w)] | _ => w end.
Definition normalizeBatchResult (raw : js) : answer :=
  Answer (if raw.["status"] === JStr "partial" then "partial" else if raw.["status"] === JStr "error" then "error" else "done")
    (raw.["message"] ||? JNull) (strings_of raw.["appliedEntryIds"]) (failed_item <$> bfilter truthy (items raw.["failed"]))
    (strings_of raw.["files"]) (strings_of raw.["notes"])
    (bfilter (fun w => truthy w && is_objecty w) (warning_item <$> bfilter truthy (items raw.["warnings"]))).

Record checks := Checks { ck_ok : bool; ck_failures : list js; ck_warnings : list js }.
Notation snapshot := (list (string * option string)).
Notation counts := (num * list (string * num))%type.

(** What the command prints. *)
Record repair_note := RepairNote { rn_status : string; rn_attempts : nat; rn_max : nat; rn_transaction : js; rn_failures : list js; rn_files : list string }.
Record report := Report {
  rp_applied : list js; rp_failed : list js; rp_files : list string; rp_cleared : nat; rp_count : nat; rp_reason : js; rp_message : js;
  rp_unreported : list string; rp_notes : list string; rp_warnings : list js;
  rp_rollback : option rollback; rp_repair : option repair_note; rp_counts : counts }.

Section Commit.
Context (git_ignored : string -> bool) (realpath : string -> option string) (cwd liveDir : string).
Context (agent : js -> eff fsys js) (postChecks : list string -> fsys -> checks).
Context (env : option string) (transactionId : js).
Implicit Types s : fsys.
Notation rollback_path := (normalizeRollbackPath git_ignored cwd).
Notation relative_file := (normalizeRelativeFile git_ignored cwd).
Notation verify := (verifyAppliedEntry git_ignored cwd).

Definition runCopyEditBatchAgent (batch : js) : eff fsys answer := raw ← agent batch; mret (normalizeBatchResult raw).

(** ** Files that may be rolled back *)

Record scan := Scan { sc_out : list string; sc_dirs : list string; sc_files : list string }.
Definition scan_file s (dir name : string) (acc : scan) : scan :=
  let absolute := path_join [dir; name] in
  if negb (existsb (String.eqb (to_lower (extname name))) ROLLBACK_EXTENSIONS) || isGeneratedFile git_ignored cwd absolute s then acc else
  match realpath absolute with
  | None => acc
  | Some realFile =>
    if existsb (String.eqb realFile) (sc_files acc) then acc else
    let acc := Scan (sc_out acc) (sc_dirs acc) (realFile :: sc_files acc) in
    if in_tree (relative cwd absolute) then Scan (sc_out acc ++ [relative cwd absolute]) (sc_dirs acc) (sc_files acc) else acc
  end.
Definition scan_entry (visit : string -> scan -> scan) s (dir : string) (acc : scan) (name : string) : scan :=
  let absolute := path_join [dir; name] in
  if is_dir absolute s then (if existsb (String.eqb name) ROLLBACK_SKIP_DIRS then acc else visit absolute acc)
  else if bool_decide (is_Some (f_text s !! absolute)) then scan_file s dir name acc else acc.
(** [levels] is [11 - depth]. *)
Fixpoint scanRollbackDir s (levels : nat) (dir : string) (acc : scan) : scan :=
  match levels with
  | O => acc
  | S levels =>
    match realpath dir with
    | None => acc
    | Some realDir =>
      if existsb (String.eqb realDir) (sc_dirs acc) then acc else
      let acc := Scan (sc_out acc) (realDir :: sc_dirs acc) (sc_files acc) in
      match (readdirSync dir s).1 with
      | Throw _ => acc
      | Ok names => foldl (scan_entry (scanRollbackDir s levels) s dir) acc names
      end
    end
  end.
Definition collectRollbackFiles s : list string := sc_out (scanRollbackDir s 11 cwd (Scan [] [] [])).

Definition normalized (files : list js) s : list string := omap (fun f => rollback_path f s) files.

Definition save_file s (snap : snapshot) (rel : string) : snapshot :=
  match f_text s !! resolve cwd rel with
  | Some content => assoc_set rel (Some content) snap
  | None => if is_dir (resolve cwd rel) s then snap else assoc_set rel None snap
  end.
Definition snapshotRollbackFiles (files : list string) s : snapshot :=
  foldl (save_file s) []
    (match files with [] => collectRollbackFiles s | _ => normalized (JStr <$> uniqueStrings (JStr <$> files)) s end).

(** The kind of change of a saved file, if there is one. *)
Definition change_of s (rel : string) (before : option string) : option string :=
  let absolute := resolve cwd rel in
  match before with
  | None => if existsSync absolute s then Some "added" else None
  | Some content =>
    if negb (existsSync absolute s) then Some "deleted" else
    match f_text s !! absolute with
    | Some now => if String.eqb now content then None else Some "modified"
    | None => None
    end
  end.
Definition changedFilesSinceSnapshot (snap : snapshot) (scopeFiles : list string) s : list (string * string) :=
  let scoped := match scopeFiles with [] => None | _ => Some (normalized (JStr <$> scopeFiles) s) end in
  let current := match scoped with Some l => l | None => collectRollbackFiles s end in
  let changed := omap (fun rb =>
      if match scoped with Some l => negb (existsb (String.eqb rb.1) l) | None => false end then None
      else (fun kind => (rb.1, kind)) <$> change_of s rb.1 rb.2) snap in
  foldl (fun acc rel => match assoc_get rel snap with Some _ => acc | None => assoc_set rel "unknown" acc end) changed current.

Definition rollback_failure (file reason : string) (message : list (string * js)) : js :=
  JObj ([("file", JStr file); ("reason", JStr reason)] ++ message).
(** One file of the rollback. *)
Definition roll_back (snap : snapshot) (scope : list string) (r : rollback) (item : string * string) : eff fsys rollback :=
  let file := item.1 in
  let absolute := resolve cwd file in
  let done_ := Rollback (rolledBackFiles r ++ [file]) (rollbackFailures r) in
  let failed_ f := Rollback (rolledBackFiles r) (rollbackFailures r ++ [f]) in
  if negb (existsb (String.eqb file) scope) then mret r else
  attempt
    (match assoc_get file snap with
     | Some (Some content) => _ ← mkdirp (dirname absolute); _ ← writeFileSync absolute content; mret done_
     | Some None =>
       there ← get (existsSync absolute);
       if String.eqb item.2 "added" && there then _ ← unlinkSync absolute; mret done_
       else mret (failed_ (rollback_failure file "no_snapshot" []))
     | None => mret (failed_ (rollback_failure file "no_snapshot" []))
     end)
    (fun err => mret (failed_ (rollback_failure file "restore_failed" [("message", JStr (err_message err))]))).
Fixpoint roll_back_all (snap : snapshot) (scope : list string) (r : rollback) (l : list (string * string)) : eff fsys rollback :=
  match l with
  | [] => mret r
  | item :: l => r ← roll_back snap scope r item; roll_back_all snap scope r l
  end.
Definition add_reported (snap : snapshot) s (byFile : list (string * string)) (file : string) : list (string * string) :=
  match rollback_path (JStr file) s with
  | Some rel => match assoc_get rel byFile with
                | Some _ => byFile
                | None => assoc_set rel (match assoc_get rel snap with Some _ => "reported" | None => "unknown" end) byFile
                end
  | None => byFile
  end.
Definition rollbackChangedFiles (snap : snapshot) (extraFiles scopeFiles : list string) : eff fsys rollback :=
  scope ← get (normalized (JStr <$> (scopeFiles ++ extraFiles)));
  changed ← get (changedFilesSinceSnapshot snap scope);
  byFile ← get (fun s => foldl (add_reported snap s) changed extraFiles);
  roll_back_all snap scope (Rollback [] []) byFile.

Definition op_files (entry : js) : list js := (fun op => op.["sourceHint"].["file"]) <$> items entry.["ops"].
Definition match_files (l : js) : list js := (fun m => m.["file"]) <$> items l.
Definition candidate_sources (c : js) : list js :=
  [c.["sourceHint"].["relativeFile"]; c.["sourceHint"].["file"]] ++ match_files c.["textMatches"] ++ match_files c.["objectKeyMatches"]
  ++ match_files c.["locatorMatches"] ++ match_files c.["contextTextMatches"].
Definition named_files (batch : js) (extraFiles : list string) : list js :=
  JStr <$> uniqueStrings
    ((items batch.["entries"] ≫= op_files) ++ (items batch.["candidates"] ≫= candidate_sources) ++ (JStr <$> extraFiles)).
Definition collectApplyOwnedFiles (batch : js) (extraFiles : list string) s : list string := normalized (named_files batch extraFiles) s.

Definition unreportedChangedFiles (snap : snapshot) (reported scopeFiles : list string) s : list string :=
  let known := normalized (JStr <$> reported) s in
  let scope := normalized (JStr <$> scopeFiles) s in
  bfilter (fun f => existsb (String.eqb f) scope && negb (existsb (String.eqb f) known)) ((changedFilesSinceSnapshot snap scope s).*1).

(** ** Entries *)

Definition has_id (ids : list string) (entry : js) : bool := match entry.["id"] with JStr i => existsb (String.eqb i) ids | _ => false end.
Definition verificationFailuresForEntries (batch : js) (entries : list js) (reason : js) (extra : list (string * js)) : list js :=
  (fun entry => JObj ([("id", entry.["id"]); ("reason", reason); ("candidates", JArr (candidatesForEntry batch entry.["id"]))] ++ extra)) <$> entries.
Definition verification_failed (batch entry : js) (failures : list js) : js :=
  JObj [("id", entry.["id"]); ("reason", JStr "source_verification_failed"); ("failures", JArr failures); ("candidates", JArr (candidatesForEntry batch entry.["id"]))].

Definition clearAppliedEntries (ids : list js) : eff fsys nat :=
  match ids with
  | [] => mret 0%nat
  | _ =>
    entries ← readBuffer liveDir;
    _ ← writeBuffer liveDir (bfilter (fun e => negb (set_has ids e.["id"])) entries);
    mret (countOps (bfilter (fun e => set_has ids e.["id"]) entries))
  end.

(** The ids of the entries that pass, and the failures of the others. *)
Definition verified_ids (batch : js) (entries : list js) (reported : list string) s : list js :=
  (fun e => e.["id"]) <$> bfilter (fun e => bool_decide (verify batch e reported s = [])) entries.
Definition unverified (batch : js) (entries : list js) (reported : list string) s : list js :=
  omap (fun e => match verify batch e reported s with [] => None | failures => Some (verification_failed batch e failures) end) entries.
Definition reported_files (files : list string) s : list string := omap (fun f => relative_file (JStr f) s) (uniqueStrings (JStr <$> files)).

Record verified := Verified { vf_ids : list js; vf_failed : list js }.
Definition verifyEntriesAfterRepair (batch : js) (appliedEntryIds files : list string) s : verified :=
  let reported := reported_files files s in
  let entries := bfilter (has_id appliedEntryIds) (items batch.["entries"]) in
  Verified (verified_ids batch entries reported s) (unverified batch entries reported s).

(** ** Repairs *)

Record progress := Progress {
  pg_files : list string; pg_applied : list string; pg_failed : list js; pg_notes : list string; pg_warnings : list js; pg_failures : list js }.
Definition failing (p : progress) (failures : list js) : progress :=
  Progress (pg_files p) (pg_applied p) (pg_failed p) (pg_notes p) (pg_warnings p) failures.

Definition repair_request (attempt max : nat) (reason : string) (p : progress) (pageUrl : js) : js :=
  JObj [ ("attempt", int (Z.of_nat attempt)); ("maxAttempts", int (Z.of_nat max)); ("transactionId", transactionId ||? JNull);
         ("reason", JStr reason); ("failures", JArr (summarizeRepairFailures (pg_failures p))); ("files", JArr (JStr <$> pg_files p)); ("pageUrl", pageUrl) ].
Definition buildRepairBatch (batch repair : js) : js := spread_with batch [("repair", repair)].

(** What the answer of a repair adds. *)
Definition repaired (batch : js) (p : progress) (a : answer) : progress :=
  Progress (mergeUniqueStrings [pg_files p; an_files a]) (mergeUniqueStrings [pg_applied p; an_applied a])
    (mergeFailedEntries [pg_failed p; normalizeFailedEntries batch (an_failed a) (JStr "repair_failed")])
    (pg_notes p ++ an_notes a) (pg_warnings p ++ an_warnings a) (pg_failures p).

(** Taking the verified entries out of the buffer, and the report. *)
Definition conclude (ids : list js) (r : nat -> counts -> report) : eff fsys report :=
  cleared ← clearAppliedEntries ids; c ← countByPage liveDir; mret (r cleared c).

Definition needs_decision (batch : js) (max : nat) (reason : string) (p : progress) (count : nat) : eff fsys report :=
  let entries := items batch.["entries"] in
  let decided := match pg_applied p with
    | [] => verificationFailuresForEntries batch entries (JStr reason) [("checks", JArr (pg_failures p))]
    | ids => (fun e => JObj [("id", e.["id"]); ("reason", JStr reason); ("checks", JArr (pg_failures p)); ("candidates", JArr (candidatesForEntry batch e.["id"]))])
             <$> bfilter (has_id ids) entries
    end in
  c ← countByPage liveDir;
  mret (Report [] (mergeFailedEntries [decided; pg_failed p]) (pg_files p) 0 count (JStr "manual_edit_repair_needs_decision") JUndef [] (pg_notes p) (pg_warnings p)
          None (Some (RepairNote "needs_decision" max max (transactionId ||? JNull) (summarizeRepairFailures (pg_failures p)) (pg_files p))) c).

Fixpoint repair_loop (batch : js) (pageUrl : js) (count max : nat) (reason : string) (tries round : nat) (p : progress) : eff fsys report :=
  match tries with
  | O => needs_decision batch max reason p count
  | S tries =>
    let again := repair_loop batch pageUrl count max reason tries (S round) in
    asked ← attempt (a ← runCopyEditBatchAgent (buildRepairBatch batch (repair_request round max reason p pageUrl)); mret (inr a))
                    (fun err => mret (inl err));
    match (asked : js_error + answer) with
    | inl err => again (failing p [JObj [("reason", JStr "repair_agent_failed"); ("message", JStr (err_message err))]])
    | inr a =>
      let p := repaired batch p a in
      v ← get (verifyEntriesAfterRepair batch (pg_applied p) (pg_files p));
      match vf_failed v with
      | _ :: _ => again (failing p (vf_failed v))
      | [] =>
        ck ← get (postChecks (pg_files p));
        let p := Progress (pg_files p) (pg_applied p) (pg_failed p) (pg_notes p) (pg_warnings p ++ ck_warnings ck) (pg_failures p) in
        if negb (ck_ok ck) then again (failing p (ck_failures ck)) else
        conclude (vf_ids v) (fun cleared c =>
          Report (summarizeAppliedEntries (items batch.["entries"]) (vf_ids v))
            (bfilter (fun item => negb (set_has (vf_ids v) item.["id"])) (mergeFailedEntries [pg_failed p])) (pg_files p) cleared count JUndef JUndef [] (pg_notes p) (pg_warnings p)
            None (Some (RepairNote "repaired" round max (transactionId ||? JNull) [] [])) c)
      end
    end
  end.
Definition repairPostApplyValidation (batch pageUrl : js) (count : nat) (reason : string) (p : progress) : eff fsys report :=
  let max := repairAttemptLimit env in repair_loop batch pageUrl count max reason max 1 p.

(** ** The command *)

Definition empty_report (count : nat) (files : list string) (failed : list js) (reason : js) (notes : list string) (r : option rollback) (c : counts) : report :=
  Report [] failed files 0 count reason JUndef [] notes [] r None c.

(** A report after the rollback of what the agent did. *)
Definition roll_back_and_report (snap : snapshot) (extraFiles scope : list string) (r : rollback -> counts -> report) : eff fsys report :=
  rb ← rollbackChangedFiles snap extraFiles scope; c ← countByPage liveDir; mret (r rb c).

(** What the checks of the first answer find. *)
Definition repair_after (batch pageUrl : js) (count : nat) (a : answer) (reason : string) (applied : list string) (failed failures warnings : list js) : eff fsys report :=
  repairPostApplyValidation batch pageUrl count reason
    (Progress (mergeUniqueStrings [an_files a]) (mergeUniqueStrings [applied]) failed (an_notes a) (an_warnings a ++ warnings) failures).

Definition not_applied (batch : js) (applied : list string) (aiFailed : list js) : list js :=
  bfilter (fun e => negb (has_id applied e) && negb (existsb (fun item => item.["id"] === e.["id"]) aiFailed)) (items batch.["entries"]).

(** The rest of the checks, with the reported files that are sources. *)
Definition weigh_answer (batch pageUrl : js) (count : nat) (snap : snapshot) (a : answer) (applied : list string) (aiFailed : list js) (scope reported : list string) : eff fsys report :=
  let entries := items batch.["entries"] in
  let reportedEntries := bfilter (has_id applied) entries in
  verifiedIds ← get (verified_ids batch reportedEntries reported);
  verificationFailed ← get (unverified batch reportedEntries reported);
  let nonRepairFailed := verificationFailuresForEntries batch
    (if String.eqb (an_status a) "done" || String.eqb (an_status a) "partial" then not_applied batch applied aiFailed else []) (JStr "not_reported_applied") []
    ++ aiFailed in
  let failed := verificationFailed ++ nonRepairFailed in
  leaked ← get (findUnappliedEntrySourceChanges git_ignored cwd batch (bfilter (fun e => negb (has_id applied e)) entries) reported snap);
  match leaked, verificationFailed with
  | _ :: _, _ =>
    let leakedIds := bfilter truthy ((fun item => item.["id"]) <$> leaked) in
    roll_back_and_report snap (an_files a) scope (fun rb c =>
      empty_report count (an_files a)
        (leaked ++ bfilter (fun item => negb (set_has leakedIds item.["id"])) failed
         ++ verificationFailuresForEntries batch (bfilter (fun e => set_has verifiedIds e.["id"]) reportedEntries) (JStr "rolled_back_due_to_failed_entry_source_changed") [])
        JUndef (an_notes a) (Some rb) c)
  | [], _ :: _ => repair_after batch pageUrl count a "source_verification_failed" applied nonRepairFailed verificationFailed []
  | [], [] =>
    ck ← get (postChecks (an_files a));
    if negb (ck_ok ck) then
      let ids := match verifiedIds with [] => bfilter truthy ((fun e => e.["id"]) <$> entries) | l => l end in
      repair_after batch pageUrl count a "post_apply_validation_failed" (strings_of (JArr ids)) failed (ck_failures ck) (ck_warnings ck)
    else
      conclude verifiedIds (fun cleared c =>
        Report (summarizeAppliedEntries entries verifiedIds) failed (an_files a) cleared count JUndef JUndef [] (an_notes a) (an_warnings a ++ ck_warnings ck) None None c)
  end.

Definition check_answer (batch pageUrl : js) (count : nat) (snap : snapshot) (a : answer) (applied : list string) (aiFailed : list js) (scope : list string) : eff fsys report :=
  reported ← get (reported_files (an_files a));
  if negb (bool_decide (applied = [])) && bool_decide (reported = []) then
    repair_after batch pageUrl count a "missing_touched_files" applied aiFailed
      (verificationFailuresForEntries batch (bfilter (has_id applied) (items batch.["entries"])) (JStr "missing_touched_files") []) []
  else weigh_answer batch pageUrl count snap a applied aiFailed scope reported.

Definition take_answer (batch pageUrl : js) (count : nat) (snap : snapshot) (a : answer) : eff fsys report :=
  let entries := items batch.["entries"] in
  scope ← get (collectApplyOwnedFiles batch (an_files a));
  let back extra failed := roll_back_and_report snap (an_files a) (scope ++ extra) (fun rb c => empty_report count (an_files a) failed JUndef (an_notes a) (Some rb) c) in
  if String.eqb (an_status a) "error" then
    let message := an_message a ||? JStr "AI copy edit failed" in
    back [] (match normalizeFailedEntries batch (an_failed a) message with
             | [] => verificationFailuresForEntries batch entries message []
             | failed => failed
             end)
  else
  let applied := uniqueStrings (JStr <$> an_applied a) in
  let aiFailed := normalizeFailedEntries batch (an_failed a) (JStr "AI copy edit failed") in
  let conflicting := bfilter (fun id => existsb (fun item => item.["id"] === JStr id) aiFailed) applied in
  if negb (bool_decide (conflicting = [])) then
    back [] (verificationFailuresForEntries batch (bfilter (has_id conflicting) entries) (JStr "conflicting_apply_result") []
             ++ bfilter (fun item => negb (has_id conflicting item)) aiFailed)
  else
  unreported ← get (unreportedChangedFiles snap (an_files a) scope);
  if negb (bool_decide (unreported = [])) then
    roll_back_and_report snap (an_files a) (scope ++ unreported) (fun rb c =>
      Report [] (verificationFailuresForEntries batch entries (JStr "unreported_source_changes") [("files", JArr (JStr <$> unreported))])
        (an_files a) 0 count JUndef JUndef unreported (an_notes a) [] (Some rb) None c)
  else if String.eqb (an_status a) "done" && bool_decide (applied = []) then
    back [] (verificationFailuresForEntries batch entries (JStr "missing_applied_entry_ids") [])
  else check_answer batch pageUrl count snap a applied aiFailed scope.

(** [repairOnly] takes every entry as applied. *)
Definition repair_only (batch : js) s : answer :=
  Answer "done" JUndef (strings_of (JArr (allEntryIds batch))) [] (collectApplyOwnedFiles batch [] s) ["repair-only validation pass"] [].

(** The batch that is given, or the evidence of the page. *)
Definition batch_of (pageUrl : js) (providedBatch : option js) : eff fsys js :=
  match providedBatch with Some batch => mret batch | None => buildManualEditEvidence git_ignored realpath cwd liveDir pageUrl end.

Definition commitManualEdits (repairOnly : bool) (pageUrl : js) (providedBatch : option js) : eff fsys report :=
  read ← attempt (_ ← readBufferStrict liveDir; mret None) (fun err => mret (Some (err_message err)));
  match (read : option string) with
  | Some message =>
    c ← countByPage liveDir; mret (Report [] [] [] 0 0 (JStr "manual_edit_buffer_invalid") (JStr message) [] [] [] None None c)
  | None =>
    batch ← batch_of pageUrl providedBatch;
    let entries := items batch.["entries"] in
    let count := countOps entries in
    if (count =? 0)%nat then c ← countByPage liveDir; mret (empty_report 0 [] [] (JStr "no_pending_edits") [] None c) else
    scope ← get (collectApplyOwnedFiles batch []);
    snap ← get (snapshotRollbackFiles scope);
    asked ← (if repairOnly then a ← get (repair_only batch); mret (inr a)
             else attempt (a ← runCopyEditBatchAgent batch; mret (inr a)) (fun err => mret (inl err)));
    match (asked : js_error + answer) with
    | inl err =>
      roll_back_and_report snap [] scope (fun rb c =>
        empty_report count [] (verificationFailuresForEntries batch entries (JStr (err_message err)) []) JUndef [] (Some rb) c)
    | inr a => take_answer batch pageUrl count snap a
    end
  end.
End Commit.
