(* ===== verification/CommitFacts.v ===== *)
(** * What a commit of copy edits guarantees

    An entry is reported as applied, and taken out of the buffer, only when the new text of each of its operations was
    found in the sources; and a commit that is rolled back leaves the files of the batch as they were. *)
From S2P Require Import Prelude JsString JsValue Json JsRegex RegexFacts NodePath PollLanes Files ManualEditsBuffer ApplyFiles SourceSearch CommitVerify CopyEvidence CommitEdits.
Local Open Scope Z_scope.
Local Open Scope list_scope.

(** ** Text in the sources *)

Section Shows.
Context (git_ignored : string -> bool) (cwd : string).
Context (Hcwd : is_absolute cwd = true).
Implicit Types s : fsys.

(** The text stands in a line, or up to white space in consecutive lines. *)
Definition in_lines (text : string) (lines : list string) : Prop :=
  (exists l, l ∈ lines /\ includes text l = true)
  \/ (exists m k, includes (normalizeVerificationText text) (normalizeVerificationText (join s_nl (take m (drop k lines)))) = true).
(** A source file of the project shows the text: a file below the root that is not generated. *)
Definition source_shows s (text : string) : Prop :=
  exists rel content, in_project cwd (resolve cwd rel) /\ f_text s !! resolve cwd rel = Some content
  /\ in_lines text (split_lines content).

Lemma shows_new line op n : op.["newText"] = JStr n -> n <> "" -> op.["deleted"] <> JBool true ->
  lineShowsAppliedOp line op = true -> includes n line = true.
Proof.
  intros En Hn Hd. unfold lineShowsAppliedOp. rewrite En. cbn [str_or].
  assert ((op.["deleted"] === JBool true) = false) as ->.
  { destruct (op.["deleted"]); simpl; try done. by destruct b. }
  apply String.eqb_neq in Hn as ->. cbn [orb]. by destruct (includes n line).
Qed.

Lemma window_shows_new lines op n : op.["newText"] = JStr n -> windowShowsAppliedOp lines op = true ->
  includes (normalizeVerificationText n) (normalizeVerificationText (join s_nl lines)) = true.
Proof.
  intros En. unfold windowShowsAppliedOp. rewrite En. cbn [str_or]. destruct (String.eqb n ""); [done|].
  by destruct (includes _ (normalizeVerificationText (join s_nl lines))); [|rewrite orb_true_r].
Qed.

Lemma nth_line_shows lines line op n : op.["newText"] = JStr n -> n <> "" -> op.["deleted"] <> JBool true ->
  lineShowsAppliedOp (nth_line lines line) op = true -> exists l, l ∈ lines /\ includes n l = true.
Proof.
  intros En Hn Hd H. apply (shows_new _ _ n) in H; [|done..]. exists (nth_line lines line). split; [|done].
  assert (forall t, includes n t = true -> t <> "") as Hne.
  { intros t (a & b & ->)%includes_iff. destruct a; [|done]. by destruct n. }
  apply Hne in H. revert H. unfold nth_line. destruct line as [z| | |]; try done. destruct (z <? 1); [done|].
  destruct (lines !! Z.to_nat (z - 1)) eqn:E; [|done]. intros _. by apply list_elem_of_lookup_2 in E.
Qed.

Lemma target_shows lines t op n : op.["newText"] = JStr n -> n <> "" -> op.["deleted"] <> JBool true ->
  verificationTargetPassesLines lines t op = true -> in_lines n lines.
Proof.
  intros En Hn Hd. unfold verificationTargetPassesLines. cbv zeta.
  destruct (lineShowsAppliedOp (nth_line _ _) op) eqn:El; [intros _; left; by apply (nth_line_shows lines (t_line t) op)|].
  destruct (_ && _); [done|]. destruct (negb _); [done|]. unfold window.
  set (m := Z.to_nat _). set (k := Z.to_nat (Z.max 0 _)). intros [H|H]%orb_true_iff.
  - apply existsb_exists in H as (l & Hl%list_elem_of_In & H). left. exists l. split; [|by apply (shows_new l op)].
    apply list_elem_of_lookup in Hl as (i & Hi). apply lookup_take_Some in Hi as [Hi _]. rewrite lookup_drop in Hi. by apply list_elem_of_lookup_2 in Hi.
  - right. exists m, k. by apply (window_shows_new _ op).
Qed.

Lemma source_path file e rel s : normalizeProjectSourcePath git_ignored cwd file e s = Some rel -> in_project cwd (resolve cwd rel).
Proof.
  destruct file as [| | | |f| |]; try done. unfold normalizeProjectSourcePath. destruct (String.eqb f ""); [done|]. cbv zeta.
  destruct (in_tree _) eqn:Ht; [|done]. cbn [negb]. destruct (e && _); [done|]. destruct (isGeneratedFile _ _ _ _); [done|]. intros [= <-].
  apply resolve_relative; [done| |done]. destruct (is_absolute f) eqn:Ef; [done|reflexivity].
Qed.

(** Every place that is looked at is in a file of the project. *)
Definition ours (t : target) : Prop := in_project cwd (resolve cwd (t_file t)).
Lemma place_ours reported s file line kind : Forall ours (place_of git_ignored cwd reported s file line kind).
Proof.
  unfold place_of. destruct (normalizeRelativeFile _ _ _ _) as [rel|] eqn:E; [|constructor]. destruct (_ || _); [constructor|].
  constructor; [|constructor]. by apply source_path in E.
Qed.
Lemma match_places_ours reported s kind l : Forall ours (match_places git_ignored cwd reported s kind l).
Proof.
  unfold match_places. apply Forall_forall. intros t (m & Ht & _)%list_elem_of_bind.
  pose proof (place_ours reported s m.["file"] m.["line"] kind) as H. rewrite Forall_forall in H. auto.
Qed.
Lemma first_of_each_elem l t : t ∈ first_of_each l -> t ∈ l.
Proof.
  unfold first_of_each. assert (forall acc, t ∈ (foldl (fun acc t => if existsb (String.eqb (target_key t)) acc.1 then acc else (target_key t :: acc.1, acc.2 ++ [t])) acc l).2 -> t ∈ acc.2 \/ t ∈ l) as H.
  { induction l as [|u l IH]; intros acc; [by left|]. cbn [foldl]. intros H%IH. rewrite elem_of_cons.
    destruct (existsb _ acc.1); [tauto|]. cbn [snd] in H. rewrite elem_of_app, list_elem_of_singleton in H. tauto. }
  intros [Ht|Ht]%H; [by apply elem_of_nil in Ht|done].
Qed.

Definition project_files (reported : list string) : Prop := Forall (fun rel => in_project cwd (resolve cwd rel)) reported.
Lemma targets_ours batch op reported s : project_files reported -> Forall ours (verificationTargetsForOp git_ignored cwd batch op reported s).
Proof.
  intros Hr. apply Forall_forall. intros t Ht%first_of_each_elem. revert t Ht. rewrite <- Forall_forall.
  repeat first [apply Forall_app; split|apply place_ours|apply match_places_ours].
  - apply Forall_forall. intros t (c & Ht & _)%list_elem_of_bind. revert t Ht. rewrite <- Forall_forall.
    repeat first [apply Forall_app; split|apply place_ours|apply match_places_ours].
  - apply Forall_forall. intros t (rel & Ht & Hrel)%list_elem_of_bind. unfold project_files in Hr. rewrite Forall_forall in Hr.
    revert t Ht. rewrite <- Forall_forall. unfold locatorTargetsInFile. destruct (negb _); [constructor|].
    destruct (lines_of _ _ _); [|constructor]. apply Forall_take, Forall_forall. intros t Ht%list_elem_of_omap.
    destruct Ht as ([i l0] & _ & Ht). destruct (lineMatchesManualEditLocator _ _); [|done]. injection Ht as <-. by apply Hr.
Qed.

Lemma op_of_new entry rawOp n : rawOp.["newText"] = JStr n ->
  (op_of entry rawOp).["newText"] = JStr n /\ (op_of entry rawOp).["deleted"] = rawOp.["deleted"].
Proof.
  intros En. destruct rawOp as [| | | | | |o]; try done. unfold op_of, spread_with. cbn [own_props assoc_merge foldl fst snd].
  set (op := JObj (assoc_set "entryId" entry.["id"] o)).
  assert (forall k, k <> "entryId" -> op.[k] = (JObj o).[k]) as Hg.
  { intros k Hk. unfold op. cbn [jget]. by rewrite assoc_get_set_ne. }
  assert (op.["newText"] = JStr n) as Eo by (rewrite Hg by done; exact En).
  change (assoc_merge o [("entryId", entry.["id"])]) with (assoc_set "entryId" entry.["id"] o). fold op.
  rewrite Eo. cbn [is_string negb]. rewrite andb_false_r. split; [done|]. by apply Hg.
Qed.

(** An operation without failures shows its text in the sources. *)
Lemma verified_op_shows batch entry reported s rawOp n : project_files reported ->
  verify_op git_ignored cwd batch entry reported s rawOp = [] ->
  rawOp.["newText"] = JStr n -> n <> "" -> rawOp.["deleted"] <> JBool true -> source_shows s n.
Proof.
  intros Hr Hv En Hn Hd. apply (op_of_new entry) in En as [En Ed]. rewrite <- Ed in Hd. unfold verify_op in Hv. cbv zeta in Hv. rewrite En in Hv.
  destruct (coupledObjectKeyFailuresForOp _ _ _ _ _) as [|f fs]; [|done].
  destruct (existsb _ _) eqn:Ex; [|by destruct (sourceHintWindowFailure _ _ _ _)].
  apply existsb_exists in Ex as (t & Ht%list_elem_of_In & Hp).
  pose proof (targets_ours batch (op_of entry rawOp) reported s Hr) as Ho. rewrite Forall_forall in Ho. specialize (Ho t Ht).
  unfold verificationTargetPasses, lines_of in Hp. destruct (f_text s !! resolve cwd (t_file t)) as [content|] eqn:Ec; [|done]. cbn in Hp.
  exists (t_file t), content. split; [done|]. split; [done|]. by apply (target_shows _ t (op_of entry rawOp)).
Qed.

Lemma verified_entry_shows batch entry reported s : project_files reported -> verifyAppliedEntry git_ignored cwd batch entry reported s = [] ->
  forall op n, op ∈ items entry.["ops"] -> op.["newText"] = JStr n -> n <> "" -> op.["deleted"] <> JBool true -> source_shows s n.
Proof.
  intros Hr Hv op n Hop. apply (verified_op_shows batch entry reported); [done|]. unfold verifyAppliedEntry in Hv.
  induction (items entry.["ops"]) as [|o ops IH]; [by apply elem_of_nil in Hop|]. cbn [mbind list_bind] in Hv.
  apply app_eq_nil in Hv as [Hv Hvs]. apply elem_of_cons in Hop as [->|Hop]; auto.
Qed.

Lemma reported_ours files s : project_files (reported_files git_ignored cwd files s).
Proof. apply Forall_forall. intros rel (f & _ & H)%list_elem_of_omap. exact (source_path _ _ _ _ H). Qed.
End Shows.

(** ** The buffer *)

Section Buffer.
Context (liveDir : string).
Notation bufferPath := (getBufferPath liveDir).
Implicit Types s : fsys.

Lemma countByPage_same s : (countByPage liveDir s).2 = s.
Proof.
  assert (keeps (fun s' => s' = s) (countByPage liveDir)) as H; [|by apply H].
  unfold countByPage. apply keeps_bind; [|intros; apply keeps_lift]. intros s0 ->. apply readBuffer_same.
Qed.

(** What taking [ids] out of the buffer leaves of the files. *)
Definition cleared ids s s' : Prop :=
  (forall p, p <> bufferPath -> f_text s' !! p = f_text s !! p)
  /\ (ids = [] /\ s' = s
      \/ exists entries, f_text s' !! bufferPath = Some (json_stringify2 (buffer (bfilter (fun e => negb (set_has ids e.["id"])) entries)))
         /\ readBuffer liveDir s = (Ok entries, s)).

Lemma clear_spec ids s n s' : clearAppliedEntries liveDir ids s = (Ok n, s') -> cleared ids s s'.
Proof.
  unfold clearAppliedEntries. destruct ids as [|i ids]; [intros [= _ <-]; split; [done|by left]|]. generalize (i :: ids). clear i ids. intros ids.
  intros (entries & s1 & Hr & H)%eff_bind_ok. assert (s1 = s) as ->.
  { pose proof (readBuffer_same liveDir false s) as E. unfold readBuffer in Hr. by rewrite Hr in E. }
  apply eff_bind_ok in H as (? & s2 & Hw & H). injection H as _ <-.
  unfold writeBuffer in Hw. apply eff_bind_ok in Hw as (? & s3 & Hm & Hw). unfold mkdirp, upd in Hm. injection Hm as _ <-.
  unfold writeFileSync in Hw. destruct (is_dir _ _); [done|]. injection Hw as _ <-. unfold set_text, cleared. cbn [f_text]. split.
  - intros p Hp. by rewrite lookup_insert_ne.
  - right. exists entries. split; [apply lookup_insert_eq|done].
Qed.
End Buffer.

(** ** Commits *)

Section Commit.
Context (git_ignored : string -> bool) (realpath : string -> option string) (cwd liveDir : string).
Context (agent : js -> eff fsys js) (postChecks : list string -> fsys -> checks).
Context (env : option string) (transactionId : js).
Context (Hcwd : is_absolute cwd = true).
Implicit Types s : fsys.
Notation commit := (commitManualEdits git_ignored realpath cwd liveDir agent postChecks env transactionId).
Notation batch_of := (batch_of git_ignored realpath cwd liveDir).
Notation verify := (verifyAppliedEntry git_ignored cwd).

(** The entries of [ids] are verified in [s]. *)
Definition all_verified (batch : js) (ids : list js) s : Prop :=
  exists reported, project_files cwd reported
  /\ forall e, e ∈ items batch.["entries"] -> set_has ids e.["id"] = true -> verify batch e reported s = [].

(** What a report says was applied. *)
Definition sound (batch : js) (r : report) s' : Prop :=
  exists ids s1, rp_applied r = summarizeAppliedEntries (items batch.["entries"]) ids
  /\ all_verified batch ids s1 /\ cleared liveDir ids s1 s'.

Lemma nothing_applied batch r s : rp_applied r = [] -> sound batch r s.
Proof.
  intros E. exists [], s. rewrite E. split; [|split; [|split; [done|by left]]].
  - unfold summarizeAppliedEntries. by rewrite bfilter_none.
  - exists []. split; [constructor|done].
Qed.

Lemma conclude_sound batch ids k s r s' : all_verified batch ids s -> (forall n c, rp_applied (k n c) = summarizeAppliedEntries (items batch.["entries"]) ids) ->
  conclude liveDir ids k s = (Ok r, s') -> sound batch r s'.
Proof.
  intros Hv Hk. unfold conclude. intros (n & s1 & Hc & H)%eff_bind_ok. apply eff_bind_ok in H as (c & s2 & Hn & H). injection H as <- <-.
  pose proof (countByPage_same liveDir s1) as E. rewrite Hn in E. simpl in E. subst s2.
  exists ids, s. split; [apply Hk|]. split; [done|]. by apply clear_spec in Hc.
Qed.

Lemma counted_ret (r : counts -> report) s r' s' : (c ← countByPage liveDir; mret (r c)) s = (Ok r', s') -> (exists c, r' = r c) /\ s' = s.
Proof.
  intros (c & s1 & Hn & H)%eff_bind_ok. injection H as <- <-. pose proof (countByPage_same liveDir s) as E. rewrite Hn in E. simpl in E. subst s1. eauto.
Qed.

Definition distinct_ids (batch : js) : Prop := NoDup ((fun e => e.["id"]) <$> items batch.["entries"]).

Lemma same_entry batch e e' : distinct_ids batch -> e ∈ items batch.["entries"] -> e' ∈ items batch.["entries"] -> e.["id"] = e'.["id"] -> e = e'.
Proof.
  unfold distinct_ids. induction (items batch.["entries"]) as [|x l IH]; intros Hd He He' E; [by apply elem_of_nil in He|].
  cbn [fmap list_fmap] in Hd. apply NoDup_cons in Hd as [Hn Hd].
  apply elem_of_cons in He as [->|He]; apply elem_of_cons in He' as [->|He']; [done| | |by apply IH].
  - exfalso. apply Hn. rewrite E. by apply (list_elem_of_fmap_2 (fun e => e.["id"])).
  - exfalso. apply Hn. rewrite <- E. by apply (list_elem_of_fmap_2 (fun e => e.["id"])).
Qed.

Lemma has_id_str applied e : has_id applied e = true -> exists i, e.["id"] = JStr i.
Proof. unfold has_id. destruct (e.["id"]); try done. eauto. Qed.

(** The ids that were verified stand for entries without failures. *)
Lemma verified_ids_spec batch applied files s : distinct_ids batch ->
  all_verified batch (verified_ids git_ignored cwd batch (bfilter (has_id applied) (items batch.["entries"])) (reported_files git_ignored cwd files s) s) s.
Proof.
  intros Hd. exists (reported_files git_ignored cwd files s). split; [by apply reported_ours|]. intros e He Hh.
  unfold set_has in Hh. apply existsb_exists in Hh as (v & Hv%list_elem_of_In & Hs).
  apply list_elem_of_fmap in Hv as (e' & -> & He'). apply bfilter_elem_of in He' as [He' Hok].
  apply bfilter_elem_of in He' as [He' Hid]. apply has_id_str in Hid as [i Ei]. rewrite Ei in Hs.
  assert (e.["id"] = JStr i) as E.
  { destruct (e.["id"]); simpl in Hs; try done. apply String.eqb_eq in Hs. by subst. }
  assert (e = e') as -> by (apply (same_entry batch); [done..|by rewrite E, Ei]). by apply bool_decide_eq_true in Hok.
Qed.

Lemma repair_sound batch pageUrl count max reason tries : distinct_ids batch -> forall round p s r s',
  repair_loop git_ignored cwd liveDir agent postChecks transactionId batch pageUrl count max reason tries round p s = (Ok r, s') -> sound batch r s'.
Proof.
  intros Hd. induction tries as [|tries IH]; intros round p s r s'; cbn [repair_loop].
  - unfold needs_decision. cbv zeta. intros [(c & ->) ->]%counted_ret. by apply nothing_applied.
  - cbv zeta. intros (asked & s1 & _ & H)%eff_bind_ok. destruct asked as [err|a]; [by apply IH in H|].
    apply eff_bind_ok in H as (v & s2 & Hv & H). injection Hv as <- <-.
    destruct (vf_failed _); [|by apply IH in H].
    apply eff_bind_ok in H as (ck & s3 & Hck & H). injection Hck as <- <-.
    destruct (negb (ck_ok _)); [by apply IH in H|].
    apply (conclude_sound batch) in H; [done| |by intros]. by apply verified_ids_spec.
Qed.

Lemma rolled_back_sound batch snap extra scope k s r s' : (forall rb c, rp_applied (k rb c) = []) ->
  roll_back_and_report git_ignored realpath cwd liveDir snap extra scope k s = (Ok r, s') -> sound batch r s'.
Proof.
  intros Hk. unfold roll_back_and_report. intros (rb & s1 & _ & H)%eff_bind_ok. apply counted_ret in H as [(c & ->) ->].
  by apply nothing_applied.
Qed.

Lemma weigh_sound batch pageUrl count snap a applied aiFailed scope s r s' : distinct_ids batch ->
  weigh_answer git_ignored realpath cwd liveDir agent postChecks env transactionId batch pageUrl count snap a applied aiFailed scope
    (reported_files git_ignored cwd (an_files a) s) s = (Ok r, s') -> sound batch r s'.
Proof.
  intros Hd. unfold weigh_answer. cbv zeta. intros (ids & s1 & Hi & H)%eff_bind_ok. injection Hi as <- <-.
  apply eff_bind_ok in H as (failures & s1 & Hf & H). injection Hf as <- <-.
  apply eff_bind_ok in H as (leaked & s1 & Hl & H). injection Hl as <- <-.
  destruct (findUnappliedEntrySourceChanges _ _ _ _ _ _ _) as [|x leaked]; [|by apply (rolled_back_sound batch) in H].
  destruct (unverified _ _ _ _ _ _) as [|x failures]; [|by apply repair_sound in H].
  apply eff_bind_ok in H as (ck & s1 & Hck & H). injection Hck as <- <-.
  destruct (negb _); [by apply repair_sound in H|]. apply (conclude_sound batch) in H; [done| |by intros]. by apply verified_ids_spec.
Qed.

Lemma check_sound batch pageUrl count snap a applied aiFailed scope s r s' : distinct_ids batch ->
  check_answer git_ignored realpath cwd liveDir agent postChecks env transactionId batch pageUrl count snap a applied aiFailed scope s = (Ok r, s') -> sound batch r s'.
Proof.
  intros Hd. unfold check_answer. intros (reported & s1 & Hr & H)%eff_bind_ok. injection Hr as <- <-.
  destruct (_ && _); [by apply repair_sound in H|by apply weigh_sound in H].
Qed.

Lemma take_sound batch pageUrl count snap a s r s' : distinct_ids batch ->
  take_answer git_ignored realpath cwd liveDir agent postChecks env transactionId batch pageUrl count snap a s = (Ok r, s') -> sound batch r s'.
Proof.
  intros Hd. unfold take_answer. cbv zeta. intros (scope & s1 & Hs & H)%eff_bind_ok. injection Hs as <- <-.
  destruct (String.eqb _ "error"); [by apply (rolled_back_sound batch) in H|].
  destruct (negb _); [by apply (rolled_back_sound batch) in H|].
  apply eff_bind_ok in H as (unreported & s1 & Hu & H). injection Hu as <- <-.
  destruct (negb _); [by apply (rolled_back_sound batch) in H|].
  destruct (_ && _); [by apply (rolled_back_sound batch) in H|]. by apply check_sound in H.
Qed.

Lemma batch_same pageUrl providedBatch s batch b s1 : (batch_of pageUrl providedBatch s).1 = Ok batch ->
  batch_of pageUrl providedBatch s = (Ok b, s1) -> b = batch /\ s1 = s.
Proof.
  intros H1 H2. rewrite H2 in H1. injection H1 as ->. split; [done|].
  destruct providedBatch as [given|]; simpl in H2; [by injection H2 as _ <-|]. by apply evidence_keeps in H2.
Qed.

(** C20: What a commit reports as applied was found in the sources. Whatever the agent does to the files and whatever it
    answers, in however many repairs: when the command returns a report, there are ids such that the report lists as
    applied the operations of those entries, the command took exactly the entries with those ids out of the buffer and
    changed no other file after it had checked, and in the state that was checked the new text of every such operation
    (unless it is a deletion) stands in a file of the project, in a line or up to white space in consecutive lines. *)
Theorem applied_edits_are_in_the_sources repairOnly pageUrl providedBatch batch s r s' :
  (batch_of pageUrl providedBatch s).1 = Ok batch -> distinct_ids batch ->
  commit repairOnly pageUrl providedBatch s = (Ok r, s') ->
  exists ids s1, rp_applied r = summarizeAppliedEntries (items batch.["entries"]) ids
  /\ cleared liveDir ids s1 s'
  /\ forall entry op n, entry ∈ items batch.["entries"] -> set_has ids entry.["id"] = true -> op ∈ items entry.["ops"] ->
     op.["newText"] = JStr n -> n <> "" -> op.["deleted"] <> JBool true -> source_shows cwd s1 n.
Proof.
  intros Hb Hd H. assert (sound batch r s') as (ids & s1 & Ha & (reported & Hr & Hv) & Hc).
  2: { exists ids, s1. split; [done|]. split; [done|]. intros entry op n He Hi Hop. by apply (verified_entry_shows git_ignored cwd Hcwd batch entry reported); auto. }
  unfold commitManualEdits in H. apply eff_bind_ok in H as (read & s1 & Hr & H).
  assert (s1 = s) as ->.
  { assert (keeps (fun s' => s' = s) (attempt (_ ← readBufferStrict liveDir; mret None) (fun err => mret (Some (err_message err))) : eff fsys (option string))) as Hk.
    { keep. intros s0 ->. apply readBuffer_same. }
    specialize (Hk s eq_refl). by rewrite Hr in Hk. }
  destruct read as [message|]; [apply counted_ret in H as [(c & ->) ->]; by apply nothing_applied|].
  apply eff_bind_ok in H as (b & s1 & Hb' & H). apply (batch_same pageUrl providedBatch s batch b s1 Hb) in Hb' as [-> ->]. cbv zeta in H.
  destruct (_ =? 0)%nat; [apply counted_ret in H as [(c & ->) ->]; by apply nothing_applied|].
  apply eff_bind_ok in H as (scope & s1 & Hs & H). injection Hs as <- <-.
  apply eff_bind_ok in H as (snap & s1 & Hs & H). injection Hs as <- <-.
  apply eff_bind_ok in H as ([err|a] & s1 & _ & H); [by apply (rolled_back_sound batch) in H|by apply take_sound in H].
Qed.

(** ** Rollback *)

Notation rollback_path := (normalizeRollbackPath git_ignored cwd).
Notation abs f := (resolve cwd f).
Definition as_before s0 p s : Prop := f_text s !! p = f_text s0 !! p.
Definition truthful (snap : snapshot) s0 : Prop := forall rel b, assoc_get rel snap = Some b -> b = f_text s0 !! abs rel.
Definition not_restored (r : rollback) (file : string) : Prop := exists f, f ∈ rollbackFailures r /\ f.["file"] = JStr file.

Lemma saved_truthful files s : truthful (foldl (save_file cwd s) [] files) s.
Proof.
  assert (forall snap, truthful snap s -> truthful (foldl (save_file cwd s) snap files) s) as H; [|by apply H].
  induction files as [|rel files IH]; intros snap Hs; [done|]. cbn [foldl]. apply IH. unfold save_file.
  assert (forall b, b = f_text s !! abs rel -> truthful (assoc_set rel b snap) s) as Hset.
  { intros b Hb rel' b'. rewrite assoc_get_set. destruct (String.eqb_spec rel' rel) as [->|]; [by intros [= <-]|by apply Hs]. }
  destruct (f_text s !! abs rel) as [t|] eqn:E; [by apply Hset|]. destruct (is_dir _ _); [done|by apply Hset].
Qed.

(** A step of the rollback spoils nothing, and settles its file. *)
Record step_ok s0 (r : rollback) s (r' : rollback) s' : Prop := {
  st_kept : forall p, as_before s0 p s -> as_before s0 p s';
  st_failures : forall f, not_restored r f -> not_restored r' f }.
Definition settled s0 (r : rollback) s (file : string) : Prop := as_before s0 (abs file) s \/ not_restored r file.

Lemma not_restored_new r file f reason message : f = rollback_failure file reason message -> not_restored (Rollback (rolledBackFiles r) (rollbackFailures r ++ [f])) file.
Proof. intros ->. eexists. split; [cbn; apply elem_of_app; right; apply list_elem_of_here|done]. Qed.
Lemma not_restored_old r file l more : not_restored r file -> not_restored (Rollback l (rollbackFailures r ++ more)) file.
Proof. intros (f & Hf & E). exists f. split; [cbn; apply elem_of_app; by left|done]. Qed.

Lemma roll_back_ok snap s0 scope r item s : truthful snap s0 ->
  exists r', (roll_back cwd snap scope r item s).1 = Ok r' /\ step_ok s0 r s r' (roll_back cwd snap scope r item s).2
  /\ (item.1 ∈ scope -> settled s0 r' (roll_back cwd snap scope r item s).2 item.1).
Proof.
  intros Ht. unfold roll_back. cbv zeta. destruct item as [file kind]. cbn [fst snd].
  destruct (existsb (String.eqb file) scope) eqn:Es; cbn [negb].
  2: { exists r. split; [done|]. split; [by split|]. intros Hin. exfalso.
       assert (existsb (String.eqb file) scope = true); [|congruence]. apply existsb_exists. exists file. split; [by apply list_elem_of_In|apply String.eqb_refl]. }
  assert (forall f, step_ok s0 r s (Rollback (rolledBackFiles r) (rollbackFailures r ++ [f])) s) as Hfail.
  { intros f. split; [done|]. intros g. apply not_restored_old. }
  pose proof (Ht file) as Hb. destruct (assoc_get file snap) as [[content|]|].
  - specialize (Hb _ eq_refl). unfold attempt, mbind, eff_bind, mkdirp, upd, writeFileSync. cbv beta iota zeta. destruct (is_dir _ _).
    + eexists. split; [reflexivity|]. split.
      * split; [done|]. intros g. apply not_restored_old.
      * intros _. right. by eapply not_restored_new.
    + eexists. split; [reflexivity|]. split.
      * split.
        -- intros p. unfold as_before. cbn [set_text f_text mret eff_ret snd]. destruct (decide (p = abs file)) as [->|Hne]; [by rewrite lookup_insert_eq|by rewrite lookup_insert_ne].
        -- intros g (f & Hf & E). by exists f.
      * intros _. left. unfold as_before. cbn [set_text f_text mret eff_ret snd]. by rewrite lookup_insert_eq.
  - specialize (Hb _ eq_refl). unfold attempt, mbind, eff_bind, get, mret, eff_ret. cbv beta iota zeta. destruct (_ && _).
    + unfold unlinkSync. destruct (f_text s !! abs file) eqn:E.
      * eexists. split; [reflexivity|]. split.
        -- split.
           ++ intros p. unfold as_before. cbn [set_text f_text snd]. destruct (decide (p = abs file)) as [->|Hne]; [by rewrite lookup_delete_eq|by rewrite lookup_delete_ne].
           ++ intros g (f & Hf & E'). by exists f.
        -- intros _. left. unfold as_before. cbn [set_text f_text snd]. by rewrite lookup_delete_eq.
      * eexists. split; [reflexivity|]. split; [|intros _; right; by eapply not_restored_new].
        split; [done|]. intros g. apply not_restored_old.
    + eexists. split; [reflexivity|]. split; [apply Hfail|]. intros _. right. by eapply not_restored_new.
  - eexists. split; [reflexivity|]. split; [apply Hfail|]. intros _. right. by eapply not_restored_new.
Qed.

Lemma roll_back_all_ok snap s0 scope l : truthful snap s0 -> forall r s,
  exists r', (roll_back_all cwd snap scope r l s).1 = Ok r' /\ step_ok s0 r s r' (roll_back_all cwd snap scope r l s).2
  /\ forall item, item ∈ l -> item.1 ∈ scope -> settled s0 r' (roll_back_all cwd snap scope r l s).2 item.1.
Proof.
  intros Ht. induction l as [|x l IH]; intros r s; cbn [roll_back_all].
  { exists r. split; [done|]. split; [by split|]. by intros ? ?%elem_of_nil. }
  unfold mbind, eff_bind. destruct (roll_back_ok snap s0 scope r x s Ht) as (r1 & E1 & [Hk Hf] & Hx).
  destruct (roll_back cwd snap scope r x s) as [res s1]. cbn [fst snd] in *. subst res.
  destruct (IH r1 s1) as (r2 & E2 & [Hk2 Hf2] & Hl). exists r2. split; [done|]. split.
  - split; [auto|auto].
  - intros item [->|Hin]%elem_of_cons Hs; [|by apply Hl]. destruct (Hx Hs) as [H|H]; [left; by apply Hk2|right; by apply Hf2].
Qed.

(** *** Every file that needs it is on the list *)

Lemma normalized_elem files rel s : rel ∈ normalized git_ignored cwd files s <-> exists f, f ∈ files /\ rollback_path f s = Some rel.
Proof. apply list_elem_of_omap. Qed.
Lemma normalized_str l rel s : rel ∈ l -> rollback_path (JStr rel) s = Some rel -> rel ∈ normalized git_ignored cwd (JStr <$> l) s.
Proof. intros Hl Hr. apply normalized_elem. exists (JStr rel). split; [by apply (list_elem_of_fmap_2 JStr)|done]. Qed.

Lemma keys_set_mono {A} k k' (v : A) l : k ∈ keys l -> k ∈ keys (assoc_set k' v l).
Proof. rewrite keys_assoc_set. case_decide; [done|]. rewrite elem_of_app. tauto. Qed.
Lemma keys_set_self {A} k (v : A) l : k ∈ keys (assoc_set k v l).
Proof. rewrite keys_assoc_set. case_decide; [done|]. rewrite elem_of_app. right. apply list_elem_of_here. Qed.

Definition list_unknown (snap : snapshot) (acc : list (string * string)) (rel : string) : list (string * string) :=
  match assoc_get rel snap with Some _ => acc | None => assoc_set rel "unknown" acc end.
Lemma unknown_mono snap more acc rel : rel ∈ keys acc -> rel ∈ keys (foldl (list_unknown snap) acc more).
Proof.
  revert acc; induction more as [|y more IH]; intros acc Ha; [done|]. cbn [foldl]. apply IH. unfold list_unknown.
  destruct (assoc_get y snap); [done|by apply keys_set_mono].
Qed.

(** A file that is not on the list of changes is as it was, or a directory now. *)
Lemma unchanged_kept snap scopeFiles s0 s rel : truthful snap s0 -> rel ∈ scopeFiles -> rollback_path (JStr rel) s = Some rel ->
  rel ∈ keys (changedFilesSinceSnapshot git_ignored realpath cwd snap scopeFiles s) \/ as_before s0 (abs rel) s \/ is_dir (abs rel) s = true.
Proof.
  intros Ht Hin Hr. unfold changedFilesSinceSnapshot. destruct scopeFiles as [|x l]; [by apply elem_of_nil in Hin|].
  set (scoped := normalized git_ignored cwd (JStr <$> x :: l) s).
  assert (rel ∈ scoped) as Hs by by apply normalized_str. cbv zeta beta iota.
  set (changed := omap _ snap).
  fold (list_unknown snap).
  destruct (assoc_get rel snap) as [b|] eqn:E.
  - pose proof (Ht _ _ E) as Hb. destruct (change_of cwd s rel b) as [kind|] eqn:Ec.
    + left. apply unknown_mono. unfold keys. apply (list_elem_of_fmap_2 fst _ (rel, kind)). unfold changed. apply list_elem_of_omap.
      exists (rel, b). split; [apply list_elem_of_In; by apply assoc_get_In|]. cbn [fst snd].
      assert (existsb (String.eqb rel) scoped = true) as ->; [|by rewrite Ec].
      apply existsb_exists. exists rel. split; [by apply list_elem_of_In|apply String.eqb_refl].
    + right. unfold change_of in Ec. unfold as_before. destruct b as [content|].
      * unfold existsSync in Ec. destruct (f_text s !! abs rel) as [now|] eqn:En.
        -- cbn in Ec. destruct (String.eqb_spec now content) as [->|]; [|done]. left. by rewrite <- Hb.
        -- cbn in Ec. right. by destruct (is_dir _ _).
      * left. destruct (existsSync _ s) eqn:Ex; [done|]. unfold existsSync in Ex. apply orb_false_iff in Ex as [Ex _].
        apply bool_decide_eq_false in Ex. rewrite <- Hb. by destruct (f_text s !! abs rel); [exfalso; apply Ex; eauto|].
  - left. revert Hs. generalize changed. induction scoped as [|y scoped IH]; intros acc Hs; [by apply elem_of_nil in Hs|]. cbn [foldl].
    apply elem_of_cons in Hs as [->|Hs]; [|by apply IH]. apply unknown_mono. unfold list_unknown. rewrite E. apply keys_set_self.
Qed.

Lemma reported_mono snap s extra acc rel : rel ∈ keys acc -> rel ∈ keys (foldl (add_reported git_ignored cwd snap s) acc extra).
Proof.
  revert acc; induction extra as [|f extra IH]; intros acc Ha; [done|]. cbn [foldl]. apply IH. unfold add_reported.
  destruct (rollback_path _ _); [|done]. destruct (assoc_get _ acc); [done|by apply keys_set_mono].
Qed.

(** A rollback settles the files of its scope. *)
Lemma rollback_settles snap extra scopeFiles s0 s rel : truthful snap s0 -> rel ∈ scopeFiles -> rollback_path (JStr rel) s = Some rel ->
  exists rb s', rollbackChangedFiles git_ignored realpath cwd snap extra scopeFiles s = (Ok rb, s')
  /\ (settled s0 rb s' rel \/ is_dir (abs rel) s = true).
Proof.
  intros Ht Hin Hr. unfold rollbackChangedFiles, get, mbind, eff_bind. cbv beta iota.
  set (scope := normalized git_ignored cwd (JStr <$> (scopeFiles ++ extra)) s).
  assert (rel ∈ scope) as Hs by (apply normalized_str; [apply elem_of_app; by left|done]).
  set (byFile := foldl _ _ extra). destruct (roll_back_all_ok snap s0 scope byFile Ht (Rollback [] []) s) as (rb & E & [Hk _] & Hl).
  destruct (roll_back_all cwd snap scope (Rollback [] []) byFile s) as [res s'] eqn:Er. cbn [fst snd] in *. subst res.
  exists rb, s'. split; [done|].
  destruct (unchanged_kept snap scope s0 s rel Ht Hs Hr) as [Hc|[Hb|Hd]]; [|left; left; by apply Hk|by right].
  left. apply (reported_mono snap s extra) in Hc. fold byFile in Hc.
  unfold keys in Hc. apply list_elem_of_fmap in Hc as (item & -> & Hc). by apply Hl.
Qed.

(** *** Commits that roll back *)

Lemma conclude_no_rollback ids k s r s' : (forall n c, rp_rollback (k n c) = None) -> conclude liveDir ids k s = (Ok r, s') -> rp_rollback r = None.
Proof.
  intros Hk. unfold conclude. intros (n & s1 & _ & H)%eff_bind_ok. apply eff_bind_ok in H as (c & s2 & _ & H). injection H as <- <-. apply Hk.
Qed.

Lemma repair_no_rollback batch pageUrl count max reason tries : forall round p s r s',
  repair_loop git_ignored cwd liveDir agent postChecks transactionId batch pageUrl count max reason tries round p s = (Ok r, s') -> rp_rollback r = None.
Proof.
  induction tries as [|tries IH]; intros round p s r s'; cbn [repair_loop]; cbv zeta.
  - unfold needs_decision. cbv zeta. intros [(c & ->) ->]%counted_ret. done.
  - intros (asked & s1 & _ & H)%eff_bind_ok. destruct asked as [err|a]; [by apply IH in H|].
    apply eff_bind_ok in H as (v & s2 & Hv & H). injection Hv as <- <-. destruct (vf_failed _); [|by apply IH in H].
    apply eff_bind_ok in H as (ck & s3 & Hck & H). injection Hck as <- <-. destruct (negb (ck_ok _)); [by apply IH in H|].
    by apply conclude_no_rollback in H.
Qed.

(** What is restored of the files in [names], from the state [s0] of the snapshot, after the agent left [s1]. *)
Definition restores s0 s1 (names : list string) (r : report) s' : Prop :=
  forall rb, rp_rollback r = Some rb -> forall rel, rel ∈ names -> settled s0 rb s' rel \/ is_dir (abs rel) s1 = true.

Lemma no_rollback_restores s0 s1 names r s' : rp_rollback r = None -> restores s0 s1 names r s'.
Proof. intros E rb. by rewrite E. Qed.

Lemma rolled_back_restores snap extra scope names k s0 s r s' : truthful snap s0 ->
  (forall rel, rel ∈ names -> rel ∈ scope /\ rollback_path (JStr rel) s = Some rel) -> (forall rb c, rp_rollback (k rb c) = Some rb) ->
  roll_back_and_report git_ignored realpath cwd liveDir snap extra scope k s = (Ok r, s') -> restores s0 s names r s'.
Proof.
  intros Ht Hn Hk. unfold roll_back_and_report. intros (rb & s1 & Hr & H)%eff_bind_ok. apply counted_ret in H as [(c & ->) ->].
  intros rb' Hrb rel Hrel. rewrite Hk in Hrb. injection Hrb as <-. destruct (Hn rel Hrel) as [Hs Hp].
  destruct (rollback_settles snap extra scope s0 s rel Ht Hs Hp) as (rb2 & s2 & E & Hres). rewrite Hr in E. by injection E as -> ->.
Qed.

Lemma uniqueStrings_elem l t : t ∈ uniqueStrings l <-> JStr t ∈ l /\ trim t <> "".
Proof.
  unfold uniqueStrings. set (f := fun acc v => _).
  assert (forall acc, t ∈ foldl f acc l <-> t ∈ acc \/ (JStr t ∈ l /\ trim t <> "")) as H; [|rewrite H, elem_of_nil; tauto].
  induction l as [|v l IH]; intros acc; [cbn [foldl]; rewrite elem_of_nil; tauto|]. cbn [foldl]. rewrite IH, elem_of_cons. clear IH. unfold f.
  destruct v as [| | | |u| |]; try naive_solver. destruct (String.eqb_spec (trim u) "") as [Eu|Hu]; cbn [orb]; [naive_solver|].
  destruct (existsb (String.eqb u) acc) eqn:Ex; [|rewrite elem_of_app, list_elem_of_singleton; naive_solver].
  apply existsb_exists in Ex as (u' & Hu'%list_elem_of_In & <-%String.eqb_eq). naive_solver.
Qed.

Lemma named_more batch extra file : file ∈ named_files batch [] -> file ∈ named_files batch extra.
Proof.
  unfold named_files. rewrite !list_elem_of_fmap. intros (t & -> & Ht). exists t. split; [done|].
  rewrite uniqueStrings_elem, !elem_of_app in *. cbn [fmap list_fmap] in Ht. rewrite elem_of_nil in Ht. tauto.
Qed.

(** A name of the batch stands for the source [rel] before the agent and after it. *)
Definition same_source (batch : js) s s1 (rel : string) : Prop :=
  (exists file, file ∈ named_files batch [] /\ rollback_path file s = Some rel /\ rollback_path file s1 = Some rel)
  /\ rollback_path (JStr rel) s1 = Some rel.
Notation owned := (collectApplyOwnedFiles git_ignored cwd).

Lemma owned_after batch extra s s1 rel : same_source batch s s1 rel ->
  rel ∈ owned batch [] s /\ rel ∈ owned batch extra s1 /\ rollback_path (JStr rel) s1 = Some rel.
Proof.
  intros ((file & Hf & Hr & Hr1) & Hrel). split; [|split; [|done]]; apply normalized_elem; exists file; [done|]. by split; [apply named_more|].
Qed.

Lemma check_restores batch pageUrl count snap a applied aiFailed scope names s0 s r s' : truthful snap s0 ->
  (forall rel, rel ∈ names -> rel ∈ scope /\ rollback_path (JStr rel) s = Some rel) ->
  check_answer git_ignored realpath cwd liveDir agent postChecks env transactionId batch pageUrl count snap a applied aiFailed scope s = (Ok r, s') ->
  restores s0 s names r s'.
Proof.
  intros Ht Hn. unfold check_answer. intros (reported & s1 & Hr & H)%eff_bind_ok. injection Hr as <- <-.
  destruct (_ && _); [apply repair_no_rollback in H; by apply no_rollback_restores|]. unfold weigh_answer in H. cbv zeta in H.
  apply eff_bind_ok in H as (ids & s1 & Hi & H). injection Hi as <- <-. apply eff_bind_ok in H as (failures & s1 & Hf & H). injection Hf as <- <-.
  apply eff_bind_ok in H as (leaked & s1 & Hl & H). injection Hl as <- <-.
  destruct (findUnappliedEntrySourceChanges _ _ _ _ _ _ _) as [|x leaked]; [|by apply (rolled_back_restores snap _ scope names _ s0) in H].
  apply no_rollback_restores.
  destruct (unverified _ _ _ _ _ _) as [|x failures]; [|by apply repair_no_rollback in H].
  apply eff_bind_ok in H as (ck & s1 & Hck & H). injection Hck as <- <-.
  destruct (negb _); [by apply repair_no_rollback in H|by apply conclude_no_rollback in H].
Qed.

Lemma take_restores batch pageUrl count snap a names s0 s r s' : truthful snap s0 -> (forall rel, rel ∈ names -> same_source batch s0 s rel) ->
  take_answer git_ignored realpath cwd liveDir agent postChecks env transactionId batch pageUrl count snap a s = (Ok r, s') ->
  restores s0 s names r s'.
Proof.
  intros Ht Hs. unfold take_answer. cbv zeta. intros (scope & s1 & E & H)%eff_bind_ok. injection E as <- <-.
  assert (forall more rel, rel ∈ names -> rel ∈ owned batch (an_files a) s ++ more /\ rollback_path (JStr rel) s = Some rel) as Hn.
  { intros more rel Hrel. destruct (owned_after batch (an_files a) s0 s rel (Hs rel Hrel)) as (_ & ? & ?). split; [|done]. apply elem_of_app. by left. }
  assert (forall k more, (forall rb c, rp_rollback (k rb c) = Some rb) -> roll_back_and_report git_ignored realpath cwd liveDir snap (an_files a) (owned batch (an_files a) s ++ more) k s = (Ok r, s')
    -> restores s0 s names r s') as Hback.
  { intros k more Hk HH. by apply (rolled_back_restores snap _ _ names _ s0) in HH; [| |apply Hn|]. }
  destruct (String.eqb _ "error"); [by apply Hback in H|]. destruct (negb _); [by apply Hback in H|].
  apply eff_bind_ok in H as (unreported & s1 & Hu & H). injection Hu as <- <-.
  destruct (negb _); [by apply Hback in H|]. destruct (_ && _); [by apply Hback in H|].
  apply (check_restores _ _ _ _ _ _ _ _ names s0) in H; [done|done|].
  intros rel Hrel. by apply (owned_after batch (an_files a) s0 s rel (Hs rel Hrel)).
Qed.

(** C21: A commit that is rolled back leaves the files of its batch as they were. Whatever the agent did to them and
    whether it answered or threw: when the report of the command is one of a rollback, a file that the batch names, as a
    source of the project before the agent and still after it (it has not come to count as generated or ignored), has
    the text it had before the command, or is listed among the failures of the rollback, or the agent has put a
    directory in its place. *)
Theorem rolled_back_commit_restores (repairOnly : bool) pageUrl (providedBatch : option js) batch s r s' rb :
  (batch_of pageUrl providedBatch s).1 = Ok batch ->
  let s1 := if repairOnly then s else (agent batch s).2 in
  commit repairOnly pageUrl providedBatch s = (Ok r, s') -> rp_rollback r = Some rb ->
  forall rel, same_source batch s s1 rel ->
  f_text s' !! abs rel = f_text s !! abs rel \/ not_restored rb rel \/ is_dir (abs rel) s1 = true.
Proof.
  intros Hb s1 H Hrb rel Hs.
  assert (restores s s1 [rel] r s') as Hres.
  2:{ destruct (Hres rb Hrb rel) as [[Hx|Hx]|Hx]; [by apply list_elem_of_singleton|by left|auto|auto]. }
  assert (forall x, x ∈ [rel] -> same_source batch s s1 x) as Hall by (by intros x ->%list_elem_of_singleton).
  unfold commitManualEdits in H. apply eff_bind_ok in H as (read & s2 & Hr & H).
  assert (s2 = s) as ->.
  { assert (keeps (fun s' => s' = s) (attempt (_ ← readBufferStrict liveDir; mret None) (fun err => mret (Some (err_message err))) : eff fsys (option string))) as Hk.
    { keep. intros s0 ->. apply readBuffer_same. }
    specialize (Hk s eq_refl). by rewrite Hr in Hk. }
  destruct read as [message|]; [apply counted_ret in H as [(c & ->) ->]; by apply no_rollback_restores|].
  apply eff_bind_ok in H as (b & s2 & Hb' & H). apply (batch_same pageUrl providedBatch s batch b s2 Hb) in Hb' as [-> ->]. cbv zeta in H.
  destruct (_ =? 0)%nat; [apply counted_ret in H as [(c & ->) ->]; by apply no_rollback_restores|].
  apply eff_bind_ok in H as (scope & s2 & E & H). injection E as <- <-.
  apply eff_bind_ok in H as (snap & s2 & E & H). injection E as <- <-.
  set (snap := snapshotRollbackFiles _ _ _ _ _) in *. assert (truthful snap s) as Ht by apply saved_truthful.
  apply eff_bind_ok in H as (asked & s2 & Ha & H).
  assert (s2 = s1) as ->.
  { subst s1. destruct repairOnly; [by injection Ha as _ ->|]. unfold attempt, runCopyEditBatchAgent, mbind, eff_bind in Ha.
    destruct (agent batch s) as [[raw|e] s3]; by injection Ha as _ ->. }
  destruct asked as [err|a]; [|by apply (take_restores batch _ _ snap _ [rel] s) in H].
  apply (rolled_back_restores snap _ _ [rel] _ s) in H; [done|done| |done].
  intros x Hx. by destruct (owned_after batch [] s s1 x (Hall x Hx)) as (? & _ & ?).
Qed.
End Commit.

(** The number of repairs is between one and ten, whatever the environment says. *)
Theorem repairs_are_bounded env : (1 <= repairAttemptLimit env <= 10)%nat.
Proof. unfold repairAttemptLimit. unfold DEFAULT_REPAIR_ATTEMPTS. destruct (repair_value env); lia. Qed.

(** ** A commit *)

Definition demo_op (new : string) : js :=
  JObj [("ref", JStr "r1"); ("tag", JStr "h1"); ("originalText", JStr "Old"); ("newText", JStr new);
        ("sourceHint", JObj [("file", JStr "a.html"); ("line", int 1)])].
Definition demo_batch (op : js) : js :=
  JObj [("entries", JArr [JObj [("id", JStr "e1"); ("pageUrl", JStr "/"); ("ops", JArr [op])]]); ("candidates", JArr [])].
Definition demo_files : fsys := Fsys {[ "/p/a.html" := "<h1>Old</h1>" ]} {[ "/"; "/p" ]}.
(** An agent that edits the file and reports it; one that breaks it and throws. *)
Definition good_agent (_ : js) : eff fsys js :=
  _ ← writeFileSync "/p/a.html" "<h1>New</h1>";
  mret (JObj [("status", JStr "done"); ("appliedEntryIds", JArr [JStr "e1"]); ("files", JArr [JStr "a.html"])]).
Definition bad_agent (_ : js) : eff fsys js := _ ← writeFileSync "/p/a.html" "<h1>N"; lift (Throw (error "timeout")).
Definition no_checks (_ : list string) (_ : fsys) : checks := Checks true [] [].
Definition demo_commit (agent : js -> eff fsys js) (providedBatch : option js) : fsys -> result report * fsys :=
  commitManualEdits (fun _ => false) Some "/p" "/p/.impeccable/live" agent no_checks None JNull false (JStr "/") providedBatch.
(** The edit is staged in the buffer, and the batch is its evidence. *)
Definition staged_files : fsys :=
  Fsys (<[ "/p/.impeccable/live/pending-manual-edits.json" := json_stringify2 (buffer (items (demo_batch (demo_op "New")).["entries"])) ]> (f_text demo_files)) (f_dirs demo_files).
Definition staged_batch : js :=
  match (batch_of (fun _ => false) Some "/p" "/p/.impeccable/live" (JStr "/") None staged_files).1 with Ok batch => batch | Throw _ => JNull end.

Lemma applied_edits_are_in_the_sources_witness :
  exists r s', demo_commit good_agent None staged_files = (Ok r, s') /\ rp_applied r <> []
  /\ exists ids s1, rp_applied r = summarizeAppliedEntries (items staged_batch.["entries"]) ids
     /\ cleared "/p/.impeccable/live" ids s1 s'.
Proof.
  eexists _, _. split; [vm_compute; reflexivity|]. split; [done|].
  edestruct (applied_edits_are_in_the_sources (fun _ => false) Some "/p" "/p/.impeccable/live" good_agent no_checks None JNull eq_refl
    false (JStr "/") None staged_batch staged_files) as (ids & s1 & H1 & H2 & _).
  - vm_compute. reflexivity.
  - vm_compute. apply NoDup_singleton.
  - vm_compute. reflexivity.
  - exists ids, s1. split; [exact H1|exact H2].
Defined.

Lemma demo_same : same_source (fun _ => false) "/p" (demo_batch (demo_op "New")) demo_files (bad_agent JNull demo_files).2 "a.html".
Proof. split; [exists (JStr "a.html"); split; [by left|by split; vm_compute]|by vm_compute]. Qed.

Lemma rolled_back_commit_restores_witness :
  exists r s' rb, demo_commit bad_agent (Some (demo_batch (demo_op "New"))) demo_files = (Ok r, s') /\ rp_rollback r = Some rb
  /\ (f_text s' !! "/p/a.html" = Some "<h1>Old</h1>" \/ not_restored rb "a.html").
Proof.
  eexists _, _, _. split; [vm_compute; reflexivity|]. split; [reflexivity|].
  destruct (rolled_back_commit_restores (fun _ => false) Some "/p" "/p/.impeccable/live" bad_agent no_checks None JNull
    false (JStr "/") (Some (demo_batch (demo_op "New"))) (demo_batch (demo_op "New")) demo_files _ _ _ eq_refl
    ltac:(vm_compute; reflexivity) eq_refl "a.html" demo_same) as [H|[H|H]];
    [by left|by right|by vm_compute in H].
Defined.

(** A deletion passes where any place looked at does not have the text: here in a line that was never the element's. *)
Example deletion_passes_elsewhere :
  let op := JObj [("ref", JStr "r1"); ("originalText", JStr "Old"); ("newText", JStr ""); ("deleted", JBool true);
                  ("sourceHint", JObj [("file", JStr "a.html"); ("line", int 7)])] in
  verifyAppliedEntry (fun _ => false) "/p" (demo_batch op) (JObj [("id", JStr "e1"); ("ops", JArr [op])]) [] demo_files = [].
Proof. by vm_compute. Qed.

(** An agent that marks a file as generated keeps it from being rolled back: the hypothesis matters. *)
Definition marking_agent (_ : js) : eff fsys js := _ ← writeFileSync "/p/a.html" "<!-- DO NOT EDIT --><h1>N"; lift (Throw (error "timeout")).
Example marked_file_not_restored :
  exists r s', demo_commit marking_agent (Some (demo_batch (demo_op "New"))) demo_files = (Ok r, s')
  /\ rp_rollback r = Some (Rollback [] []) /\ f_text s' !! "/p/a.html" = Some "<!-- DO NOT EDIT --><h1>N".
Proof. eexists _, _. split; [vm_compute; reflexivity|]. split; [reflexivity|by vm_compute]. Qed.

(** So does an agent that puts a directory in the place of the file. *)
Definition moving_agent (_ : js) : eff fsys js := _ ← unlinkSync "/p/a.html"; _ ← mkdirp "/p/a.html"; lift (Throw (error "timeout")).
Example directory_not_restored :
  exists r s', demo_commit moving_agent (Some (demo_batch (demo_op "New"))) demo_files = (Ok r, s')
  /\ rp_rollback r = Some (Rollback [] []) /\ f_text s' !! "/p/a.html" = None.
Proof. eexists _, _. split; [vm_compute; reflexivity|]. split; [reflexivity|by vm_compute]. Qed.
