(* ===== verification/HookManifests.v ===== *)
(** * The hook manifests of the harnesses ([hook-admin.mjs], the manifests)

    Claude Code, Codex, Cursor and Copilot read their hooks from a JSON file each. Enabling the design hook puts its
    entries there, next to the hooks of the user. *)
From S2P Require Import Prelude JsString JsValue Json NodePath PollLanes Files IgnoreConfig HookCache.
Local Open Scope Z_scope.
Local Open Scope list_scope.

Definition IMPECCABLE_HOOK_COMMAND_MARKERS : list string :=
  ["skills/impeccable/scripts/hook-probe.mjs"; "skills/impeccable/scripts/hook.mjs"; "skills/impeccable/scripts/hook-before-edit.mjs";
   "skills/impeccable/scripts/hook-after-edit.mjs"; "skills/impeccable/scripts/hook-stop.mjs"].
Definition TIMEOUT_SECONDS : Z := 5.
Definition STATUS_MESSAGE : string := "Checking UI changes".
Definition STOP_TIMEOUT_SECONDS : Z := 30.
Definition STOP_STATUS_MESSAGE : string := "Design deep pass".

Definition command_hook (command : string) (timeout : Z) (statusMessage : string) : js :=
  JObj [("type", JStr "command"); ("command", JStr command); ("timeout", int timeout); ("statusMessage", JStr statusMessage)].
Definition stopManifestEntry (command : string) : js :=
  JObj [("hooks", JArr [command_hook command STOP_TIMEOUT_SECONDS STOP_STATUS_MESSAGE])].

Record manifest_target := ManifestTarget {
  provider : string; skillRel : string; destRel : string; sharedDestRel : option string; manifest : js }.
Definition quoted (s : string) : string := "node " +:+ s_dq +:+ s +:+ s_dq.
Definition claude_command : string := quoted "${CLAUDE_PROJECT_DIR}/.claude/skills/impeccable/scripts/hook.mjs".
Definition claude_target : manifest_target :=
  ManifestTarget ".claude" ".claude/skills/impeccable" ".claude/settings.local.json" (Some ".claude/settings.json")
    (JObj [ ("description", JStr "Impeccable design detector: immediate-tier checks after Edit/Write/MultiEdit on UI files, full-rule deep pass on Stop.");
            ("hooks", JObj
              [ ("PostToolUse", JArr [JObj [("matcher", JStr "Edit|Write|MultiEdit"); ("hooks", JArr [command_hook claude_command TIMEOUT_SECONDS STATUS_MESSAGE])]]);
                ("Stop", JArr [stopManifestEntry claude_command]) ]) ]).
Definition agents_command : string := quoted ".agents/skills/impeccable/scripts/hook.mjs".
Definition agents_target : manifest_target :=
  ManifestTarget ".agents" ".agents/skills/impeccable" ".codex/hooks.json" None
    (JObj [ ("hooks", JObj
              [ ("PostToolUse", JArr [JObj [("matcher", JStr "Edit|Write|apply_patch"); ("hooks", JArr [command_hook agents_command TIMEOUT_SECONDS STATUS_MESSAGE])]]);
                ("Stop", JArr [stopManifestEntry agents_command]) ]) ]).
Definition cursor_target : manifest_target :=
  ManifestTarget ".cursor" ".cursor/skills/impeccable" ".cursor/hooks.json" None
    (JObj [ ("version", int 1);
            ("hooks", JObj [("preToolUse", JArr [JObj [("command", JStr (quoted ".cursor/skills/impeccable/scripts/hook-before-edit.mjs")); ("timeout", int TIMEOUT_SECONDS)]])]) ]).
Definition github_target : manifest_target :=
  ManifestTarget ".github" ".github/skills/impeccable" ".github/hooks/impeccable.json" None
    (JObj [ ("version", int 1);
            ("hooks", JObj [("postToolUse", JArr [JObj
              [ ("type", JStr "command"); ("matcher", JStr "edit|create|apply_patch");
                ("bash", JStr (quoted "$(git rev-parse --show-toplevel)/.github/skills/impeccable/scripts/hook.mjs"));
                ("timeoutSec", int TIMEOUT_SECONDS) ]])]) ]).
Definition HOOK_MANIFEST_TARGETS : list manifest_target := [claude_target; agents_target; cursor_target; github_target].

(** ** Entries of the design hook *)

Definition has_marker (s : string) : bool := existsb (fun marker => includes marker s) IMPECCABLE_HOOK_COMMAND_MARKERS.
Fixpoint valueHasImpeccableHookMarker (value : js) : bool :=
  match value with
  | JStr s => has_marker s
  | JArr l => existsb valueHasImpeccableHookMarker l
  | JObj o => existsb (fun kv => match kv with (_, v) => valueHasImpeccableHookMarker v end) o
  | _ => false
  end.

(** The entry itself runs a script of the hook. *)
Definition marked (entry : js) : bool :=
  valueHasImpeccableHookMarker entry.["command"] || valueHasImpeccableHookMarker entry.["args"]
  || valueHasImpeccableHookMarker entry.["bash"] || valueHasImpeccableHookMarker entry.["powershell"].
(** What is left of an entry whose hooks are [hooks], when these are [stripped]; [null] when nothing is. *)
Definition strip_with (entry : js) (hooks stripped : list js) : js :=
  let strippedHooks := bfilter truthy stripped in
  if bool_decide (strippedHooks = []) && existsb valueHasImpeccableHookMarker hooks then JNull
  else spread_with entry [("hooks", JArr strippedHooks)].
(** The recursion is on the hooks of an entry, a part of it: [parts] are the stripped lists of its properties. *)
Fixpoint stripImpeccableHookEntry (entry : js) : js :=
  match entry with
  | JObj o =>
    let parts := map (fun kv => match kv with (k, JArr l) => (k, map stripImpeccableHookEntry l) | (k, _) => (k, []) end) o in
    if marked entry then JNull else
    match entry.["hooks"] with JArr hooks => strip_with entry hooks (default [] (assoc_get "hooks" parts)) | _ => entry end
  | _ => entry
  end.
Definition stripImpeccableHookEntries (entries : js) : list js :=
  match entries with JArr l => bfilter truthy (stripImpeccableHookEntry <$> l) | _ => [] end.

(** ** Merging and pruning *)

Definition object_or_empty (v : js) : js := if plain_object v then v else JObj [].
Definition when_defined (k : string) (v : js) : list (string * js) := if is_undef v then [] else [(k, v)].
Definition merged_entries (existingHooks freshHooks : js) (event : string) : list js :=
  stripImpeccableHookEntries existingHooks.[event] ++ elements_of freshHooks.[event].
Definition add_event (existingHooks freshHooks : js) (hooks : list (string * js)) (event : string) : list (string * js) :=
  match merged_entries existingHooks freshHooks event with [] => hooks | l => assoc_set event (JArr l) hooks end.
Definition mergeHookManifests (existing fresh : js) : js :=
  let existingObject := object_or_empty existing in
  let freshObject := object_or_empty fresh in
  let existingHooks := object_or_empty existingObject.["hooks"] in
  let freshHooks := object_or_empty freshObject.["hooks"] in
  let hookEvents := uniq (keys (own_props existingHooks) ++ keys (own_props freshHooks)) in
  let merged := spread_with existingObject
    ([("hooks", JObj [])] ++ when_defined "version" freshObject.["version"] ++ when_defined "description" freshObject.["description"]) in
  merged.["hooks" := JObj (foldl (add_event existingHooks freshHooks) [] hookEvents)].

Definition read_json (filePath : string) : eff fsys js :=
  text ← readFileSync filePath;
  match json_parse text with Some v => mret v | None => lift (Throw (error "Unexpected token")) end.
Definition fileHasImpeccableHookMarker (filePath : string) : eff fsys bool :=
  there ← get (existsSync filePath);
  if negb there then mret false else
  attempt (parsed ← read_json filePath;
           mret (plain_object parsed && truthy parsed.["hooks"] && is_objecty parsed.["hooks"] && valueHasImpeccableHookMarker parsed.["hooks"]))
          (fun _ => mret false).

Definition cleaned_hooks (hooks : js) : list (string * js) :=
  foldl (fun cleaned kv => match stripImpeccableHookEntries kv.2 with [] => cleaned | kept => assoc_set kv.1 (JArr kept) cleaned end) []
    (own_props (object_or_empty hooks)).
Definition pruned (parsed : js) : js :=
  match cleaned_hooks parsed.["hooks"] with
  | [] => jdel (jdel (jdel (spread parsed) "hooks") "description") "version"
  | cleaned => (spread parsed).["hooks" := JObj cleaned]
  end.
Definition pruneImpeccableHookFromManifest (manifestPath : string) : eff fsys bool :=
  has ← fileHasImpeccableHookMarker manifestPath;
  if negb has then mret false else
  parsed ← attempt (v ← read_json manifestPath; mret (Some v)) (fun _ => mret None);
  match (parsed : option js) with
  | None => mret false
  | Some parsed =>
    let next := pruned parsed in
    _ ← (if bool_decide (own_props next = []) then unlinkSync manifestPath else writeFileSync manifestPath (json_stringify2 next +:+ s_nl));
    mret true
  end.

(** ** Repairing *)

Record repair := Repair { written : list string; already : list string; backups : list string }.
Definition no_repair : repair := Repair [] [] [].

Definition safeReadText (filePath : string) : eff fsys (option string) :=
  attempt (text ← readFileSync filePath; mret (Some text)) (fun _ => mret None).
Definition copyFileSync (from to : string) : eff fsys unit := text ← readFileSync from; writeFileSync to text.

(** What the file should hold, and the backup made of one that cannot be read. *)
Definition next_manifest (dest : string) (fresh : js) : eff fsys (js * list string) :=
  there ← get (existsSync dest);
  if negb there then mret (fresh, []) else
  attempt (existing ← read_json dest; mret (mergeHookManifests existing fresh, []))
          (fun _ => _ ← copyFileSync dest (dest +:+ ".bak"); mret (fresh, [dest +:+ ".bak"])).
Definition repair_target (cwd : string) (result : repair) (target : manifest_target) : eff fsys repair :=
  installed ← get (existsSync (path_join [cwd; skillRel target]));
  if negb installed then mret result else
  let dest := path_join [cwd; destRel target] in
  shared ← match sharedDestRel target with Some rel => fileHasImpeccableHookMarker (path_join [cwd; rel]) | None => mret false end;
  if shared : bool then
    _ ← pruneImpeccableHookFromManifest dest;
    mret (Repair (written result) (already result ++ [provider target]) (backups result))
  else
    next ← next_manifest dest (manifest target);
    let serialized := json_stringify2 (next : js * list string).1 +:+ s_nl in
    there ← get (existsSync dest);
    current ← (if there : bool then safeReadText dest else mret None);
    if bool_decide (current = Some serialized)
    then mret (Repair (written result) (already result ++ [provider target]) (backups result ++ next.2))
    else
      _ ← mkdirp (dirname dest);
      _ ← writeFileSync dest serialized;
      mret (Repair (written result ++ [provider target]) (already result) (backups result ++ next.2)).
Fixpoint repair_targets (cwd : string) (result : repair) (targets : list manifest_target) : eff fsys repair :=
  match targets with
  | [] => mret result
  | target :: targets => result ← repair_target cwd result target; repair_targets cwd result targets
  end.
Definition repairHookManifests (cwd : string) : eff fsys repair := repair_targets cwd no_repair HOOK_MANIFEST_TARGETS.

(** * Theorems *)

Lemma assoc_set_same {A} k (v : A) l : assoc_get k l = Some v -> assoc_set k v l = l.
Proof.
  induction l as [|[k' v'] l IH]; simpl; [done|]. destruct (String.eqb_spec k k') as [->|Hk]; [by intros [= ->]|]. intros H. by rewrite IH.
Qed.

(** ** Entries *)

(** A value in which a string names a script of the design hook. *)
Inductive mentions : js -> Prop :=
| mentions_string s marker : marker ∈ IMPECCABLE_HOOK_COMMAND_MARKERS -> includes marker s = true -> mentions (JStr s)
| mentions_element l v : v ∈ l -> mentions v -> mentions (JArr l)
| mentions_property o k v : (k, v) ∈ o -> mentions v -> mentions (JObj o).
Definition SCRIPT_KEYS : list string := ["command"; "args"; "bash"; "powershell"].
(** An entry that runs a script of the design hook, itself or by one of its hooks. *)
Inductive runs : js -> Prop :=
| runs_here entry k : k ∈ SCRIPT_KEYS -> mentions entry.[k] -> runs entry
| runs_nested entry hooks h : entry.["hooks"] = JArr hooks -> h ∈ hooks -> runs h -> runs entry.
(** An entry of the user: a value that is not falsy, and so are the hooks in it, none of which is the design hook's. *)
Inductive foreign : js -> Prop :=
| foreign_entry entry : truthy entry = true -> (forall k, k ∈ SCRIPT_KEYS -> ~ mentions entry.[k]) ->
    (forall hooks h, entry.["hooks"] = JArr hooks -> h ∈ hooks -> foreign h) -> foreign entry.

Lemma has_marker_spec v : valueHasImpeccableHookMarker v = true <-> mentions v.
Proof.
  induction v as [| |b|n|s|l IH|o IH] using js_ind; simpl; try (split; [done|by inversion 1]).
  - unfold has_marker. rewrite existsb_exists. split.
    + intros (m & Hm & Hi). econstructor; [by apply list_elem_of_In|done].
    + inversion 1; subst. eexists. split; [by apply list_elem_of_In|done].
  - rewrite Forall_forall in IH. rewrite existsb_exists. split.
    + intros (x & Hx%list_elem_of_In & Hv). econstructor; [done|by apply IH].
    + inversion 1 as [|l' v Hv Hm|]; subst. exists v. split; [by apply list_elem_of_In|by apply IH].
  - rewrite Forall_forall in IH. rewrite existsb_exists. split.
    + intros ([k v] & Hx%list_elem_of_In & Hv). econstructor; [done|]. by apply (IH (k, v)).
    + inversion 1 as [| |o' k v Hv Hm]; subst. exists (k, v). split; [by apply list_elem_of_In|]. by apply (IH (k, v)).
Qed.
Lemma marked_spec entry : marked entry = true <-> exists k, k ∈ SCRIPT_KEYS /\ mentions entry.[k].
Proof.
  unfold marked, SCRIPT_KEYS. rewrite !orb_true_iff, !has_marker_spec. split.
  - intros [[[H|H]|H]|H]; (eexists; split; [|exact H]; set_solver).
  - intros (k & Hk & H). repeat (apply elem_of_cons in Hk as [->|Hk]; [tauto|]). by apply elem_of_nil in Hk.
Qed.
Lemma unmarked_spec entry : (forall k, k ∈ SCRIPT_KEYS -> ~ mentions entry.[k]) -> marked entry = false.
Proof. intros H. apply not_true_iff_false. intros (k & Hk & Hm)%marked_spec. by apply (H k). Qed.

Lemma stripped_part (f : js -> js) key hooks o : assoc_get key o = Some (JArr hooks) ->
  assoc_get key (map (fun kv : string * js => match kv with (k, JArr l) => (k, map f l) | (k, _) => (k, []) end) o) = Some (map f hooks).
Proof.
  induction o as [|[k x] o IH]; simpl; [done|]. intros E.
  destruct (String.eqb_spec key k) as [->|Hk]; [injection E as ->; simpl; by rewrite String.eqb_refl|].
  apply String.eqb_neq in Hk. destruct x; simpl; rewrite Hk; by apply IH.
Qed.
Lemma strip_eq o : stripImpeccableHookEntry (JObj o) =
  if marked (JObj o) then JNull else
  match (JObj o).["hooks"] with JArr hooks => strip_with (JObj o) hooks (stripImpeccableHookEntry <$> hooks) | _ => JObj o end.
Proof.
  cbn [stripImpeccableHookEntry]. destruct (marked (JObj o)); [done|]. destruct ((JObj o).["hooks"]) as [| | | | |hooks|] eqn:E; try done.
  unfold jget in E. destruct (assoc_get "hooks" o) as [v|] eqn:E'; [|done]. cbn [default from_option] in E. simpl in E. subst v.
  by rewrite (stripped_part _ _ _ _ E').
Qed.
Lemma only_objects_run v : is_obj v = false -> ~ runs v.
Proof.
  intros Hv H. assert (forall k, k ∈ "hooks" :: SCRIPT_KEYS -> v.[k] = JUndef) as Hk.
  { intros k Hk. unfold SCRIPT_KEYS in Hk. repeat (apply elem_of_cons in Hk as [->|Hk]; [by destruct v|]). by apply elem_of_nil in Hk. }
  destruct H as [e k Hin Hm|e hooks h H]; [|by rewrite Hk in H by apply list_elem_of_here].
  rewrite Hk in Hm by by apply list_elem_of_further. by inversion Hm.
Qed.
(** The hooks of an entry are parts of it. *)
Lemma hooks_smaller (P : js -> Prop) o hooks :
  Forall (fun kv => forall l, kv.2 = JArr l -> Forall P l) o -> (JObj o).["hooks"] = JArr hooks -> Forall P hooks.
Proof.
  intros Ho H. simpl in H. destruct (assoc_get "hooks" o) as [v|] eqn:E; [|done]. simpl in H. subst v.
  apply assoc_get_In in E. rewrite Forall_forall in Ho. apply (Ho ("hooks", JArr hooks)); [by apply list_elem_of_In|done].
Qed.
(** Induction on an entry and its hooks. *)
Lemma entry_ind (P : js -> Prop) : (forall v, is_obj v = false -> P v) ->
  (forall o, (forall hooks, (JObj o).["hooks"] = JArr hooks -> Forall P hooks) -> P (JObj o)) -> forall v, P v.
Proof.
  intros H1 H2 v. assert (P v /\ forall l, v = JArr l -> Forall P l) as [H _]; [|done].
  induction v as [| | | | |l Hl|o Ho] using js_ind; try (split; [by apply H1|done]).
  - split; [by apply H1|]. intros l' [= <-]. eapply Forall_impl; [exact Hl|]. by intros x [Hx _].
  - split; [|done]. apply H2. intros hooks. apply hooks_smaller. eapply Forall_impl; [exact Ho|]. by intros kv [_ Hkv].
Qed.

Lemma strip_runs_not v : truthy (stripImpeccableHookEntry v) = true -> ~ runs (stripImpeccableHookEntry v).
Proof.
  induction v as [v Hv|o IH] using entry_ind.
  { intros _. assert (stripImpeccableHookEntry v = v) as -> by (by destruct v). by apply only_objects_run. }
  rewrite strip_eq. destruct (marked (JObj o)) eqn:Em; [done|]. intros Ht Hr.
  assert (forall e, (forall k, k <> "hooks" -> e.[k] = (JObj o).[k]) -> marked e = false) as Hm.
  { intros e He. rewrite <-Em. unfold marked. by rewrite !He. }
  destruct ((JObj o).["hooks"]) as [| | | | |hooks|] eqn:Eh.
  1-5,7: destruct Hr as [e k Hin Hk|e hooks h He]; [|by rewrite He in Eh];
    assert (marked e = true) by (apply marked_spec; by exists k); congruence.
  unfold strip_with in *. destruct (bool_decide _ && _); [done|].
  remember (spread_with (JObj o) [("hooks", JArr (bfilter truthy (stripImpeccableHookEntry <$> hooks)))]) as e eqn:Ee.
  assert (e.["hooks"] = JArr (bfilter truthy (stripImpeccableHookEntry <$> hooks))) as Hh.
  { subst e. rewrite jget_spread_with; [done|done|apply NoDup_singleton]. }
  destruct Hr as [e key Hin Hx|e hooks' h Hx Hin Hr].
  - assert (marked e = true) as Hx' by (apply marked_spec; by exists key). rewrite Hm in Hx'; [done|]. intros k Hk. subst e. rewrite jget_spread_with; [|done|apply NoDup_singleton]. simpl. apply String.eqb_neq in Hk. by rewrite Hk.
  - rewrite Hh in Hx. injection Hx as <-. apply bfilter_elem_of in Hin as [Hin Htr]. apply list_elem_of_fmap in Hin as (x & -> & Hx).
    specialize (IH hooks eq_refl). rewrite Forall_forall in IH. by apply (IH x).
Qed.

Lemma strip_foreign v : foreign v -> stripImpeccableHookEntry v = v.
Proof.
  induction v as [v Hv|o IH] using entry_ind; [by destruct v|].
  intros Hf. inversion Hf as [e Ht Hm%unmarked_spec Hh]; subst. rewrite strip_eq, Hm. destruct ((JObj o).["hooks"]) as [| | | | |hooks|] eqn:Eh; try done.
  assert (stripImpeccableHookEntry <$> hooks = hooks) as E1.
  { specialize (IH hooks eq_refl).
    rewrite <-(list_fmap_id hooks) at 2. apply list_fmap_ext. intros i x Hx. apply list_elem_of_lookup_2 in Hx.
    rewrite Forall_forall in IH. apply IH; [done|]. by apply (Hh hooks). }
  assert (bfilter truthy hooks = hooks) as E2.
  { apply bfilter_all. intros x Hx. specialize (Hh hooks x eq_refl Hx). by inversion Hh. }
  assert (spread_with (JObj o) [("hooks", JArr hooks)] = JObj o) as E3.
  { change (JObj (assoc_set "hooks" (JArr hooks) o) = JObj o). f_equal. apply assoc_set_same. unfold jget in Eh.
    destruct (assoc_get "hooks" o); simpl in Eh; congruence. }
  unfold strip_with. rewrite E1, E2, E3. by destruct (bool_decide_reflect (hooks = [])) as [->|].
Qed.
Lemma stripped_foreign l : Forall foreign l -> stripImpeccableHookEntries (JArr l) = l.
Proof.
  intros H. simpl. rewrite (list_fmap_ext _ id), list_fmap_id.
  - apply bfilter_all. intros x Hx. rewrite Forall_forall in H. by destruct (H x Hx).
  - intros i x Hx. apply strip_foreign. rewrite Forall_forall in H. eapply H, list_elem_of_lookup_2, Hx.
Qed.
Lemma strip_idem v : stripImpeccableHookEntry (stripImpeccableHookEntry v) = stripImpeccableHookEntry v.
Proof.
  induction v as [v Hv|o IH] using entry_ind; [by destruct v|].
  rewrite strip_eq. destruct (marked (JObj o)) eqn:Em; [done|].
  destruct ((JObj o).["hooks"]) as [| | | | |hooks|] eqn:Eh; try by rewrite strip_eq, Em, Eh.
  set (ls := bfilter truthy (stripImpeccableHookEntry <$> hooks)). unfold strip_with at 1 2. fold ls.
  destruct (bool_decide _ && _); [done|].
  assert (stripImpeccableHookEntry <$> ls = ls) as E1.
  { rewrite <-(list_fmap_id ls) at 2. apply list_fmap_ext. intros i x Hx. apply list_elem_of_lookup_2 in Hx. unfold ls in Hx.
    apply bfilter_elem_of in Hx as [Hx _]. apply list_elem_of_fmap in Hx as (y & -> & Hy). specialize (IH hooks eq_refl). rewrite Forall_forall in IH. by apply IH. }
  assert (bfilter truthy ls = ls) as E2 by (unfold ls; rewrite bfilter_bfilter; apply bfilter_ext; intros x; by destruct (truthy x)).
  assert (assoc_get "hooks" (assoc_set "hooks" (JArr ls) o) = Some (JArr ls)) as Hg by apply assoc_get_set_eq.
  change (spread_with (JObj o) [("hooks", JArr ls)]) with (JObj (assoc_set "hooks" (JArr ls) o)). rewrite strip_eq.
  assert (marked (JObj (assoc_set "hooks" (JArr ls) o)) = false) as ->.
  { rewrite <-Em. unfold marked. simpl. by rewrite !assoc_get_set_ne. }
  simpl jget. rewrite Hg. simpl. unfold strip_with. rewrite E1, E2.
  assert (bool_decide (ls = []) && existsb valueHasImpeccableHookMarker ls = false) as ->.
  { destruct (bool_decide_reflect (ls = [])) as [->|]; done. }
  unfold spread_with, assoc_merge. simpl. by rewrite assoc_set_twice.
Qed.

(** ** Merged manifests *)

Lemma uniq_more (l acc : list string) :
  exists rest, foldl (fun acc x => if bool_decide (x ∈ acc) then acc else acc ++ [x]) acc l = acc ++ rest /\ forall x, x ∈ rest -> x ∈ l /\ x ∉ acc.
Proof.
  revert acc; induction l as [|y l IH]; intros acc; cbn [foldl]; [exists []; split; [by rewrite app_nil_r|by intros x ?%elem_of_nil]|].
  destruct (bool_decide_reflect (y ∈ acc)) as [Hy|Hy].
  - destruct (IH acc) as (rest & -> & H). exists rest. split; [done|]. intros x Hx. destruct (H x Hx). split; [by apply elem_of_cons; right|done].
  - destruct (IH (acc ++ [y])) as (rest & -> & H). exists (y :: rest). split; [by rewrite <-app_assoc|]. intros x [->|Hx]%elem_of_cons; [split; [apply list_elem_of_here|done]|].
    destruct (H x Hx) as [H1 H2]. split; [by apply elem_of_cons; right|]. intros Hn. apply H2, elem_of_app. by left.
Qed.

Section Merge.
Context (existingHooks freshHooks : js).
Notation entries := (merged_entries existingHooks freshHooks).
Definition has_entries_for (event : string) : bool := match entries event with [] => false | _ => true end.

Lemma add_events l : forall hooks, NoDup (keys hooks ++ l) ->
  foldl (add_event existingHooks freshHooks) hooks l = hooks ++ ((fun event => (event, JArr (entries event))) <$> bfilter has_entries_for l).
Proof.
  induction l as [|event l IH]; intros hooks Hd; cbn [foldl bfilter fmap]; [by rewrite app_nil_r|].
  unfold add_event at 2, has_entries_for at 1. destruct (entries event) as [|e es] eqn:E.
  - apply IH. apply NoDup_app in Hd as (H1 & H2 & H3). apply NoDup_cons in H3 as [_ H3]. apply NoDup_app. split_and!; [done| |done].
    intros x Hx Hl. apply (H2 x Hx). by apply elem_of_cons; right.
  - assert (assoc_get event hooks = None) as Hn.
    { apply assoc_get_None. intros Hx. apply NoDup_app in Hd as (_ & H2 & _). apply (H2 event Hx), list_elem_of_here. }
    rewrite assoc_set_fresh by done. rewrite IH.
    + cbn [fmap list_fmap]. rewrite E, <-app_assoc. done.
    + rewrite keys_app. simpl. by rewrite <-app_assoc.
Qed.

Notation events := (uniq (keys (own_props existingHooks) ++ keys (own_props freshHooks))).
Definition merged_hooks : list (string * js) := foldl (add_event existingHooks freshHooks) [] events.

Lemma merged_hooks_eq : merged_hooks = (fun event => (event, JArr (entries event))) <$> bfilter has_entries_for events.
Proof. unfold merged_hooks. rewrite add_events; [done|]. apply uniq_NoDup. Qed.
Lemma merged_keys : keys merged_hooks = bfilter has_entries_for events.
Proof. rewrite merged_hooks_eq. unfold keys. rewrite <-list_fmap_compose. apply list_fmap_id. Qed.

Lemma merged_get event : is_obj existingHooks = true -> is_obj freshHooks = true -> elements_of (JObj merged_hooks).[event] = entries event.
Proof.
  intros He Hf. simpl. destruct (assoc_get event merged_hooks) as [v|] eqn:E.
  - apply assoc_get_In, list_elem_of_In in E. rewrite merged_hooks_eq in E. apply list_elem_of_fmap in E as (x & [= -> ->] & _). done.
  - apply assoc_get_None in E. rewrite merged_keys in E. simpl.
    destruct (decide (event ∈ events)) as [Hi|Hi].
    + destruct (has_entries_for event) eqn:Eh; [exfalso; by apply E, bfilter_elem_of|]. unfold has_entries_for in Eh. by destruct (entries event).
    + unfold merged_entries. rewrite elem_uniq, elem_of_app in Hi. destruct existingHooks as [| | | | | |o1], freshHooks as [| | | | | |o2]; try done.
      simpl in *. rewrite (proj2 (assoc_get_None event o1)), (proj2 (assoc_get_None event o2)) by tauto. done.
Qed.
End Merge.

(** Merging again changes no event. *)
Lemma merge_hooks_again existingHooks freshHooks : is_obj existingHooks = true -> is_obj freshHooks = true ->
  (forall event, stripImpeccableHookEntries freshHooks.[event] = []) ->
  merged_hooks (JObj (merged_hooks existingHooks freshHooks)) freshHooks = merged_hooks existingHooks freshHooks.
Proof.
  intros He Hf Hown. set (H := merged_hooks existingHooks freshHooks).
  assert (forall event, merged_entries (JObj H) freshHooks event = merged_entries existingHooks freshHooks event) as Hm.
  { intros event. unfold merged_entries at 1. assert (stripImpeccableHookEntries (JObj H).[event] = stripImpeccableHookEntries existingHooks.[event]) as E; [|by rewrite E].
    assert (stripImpeccableHookEntries (JObj H).[event] = bfilter truthy (stripImpeccableHookEntry <$> elements_of (JObj H).[event])) as -> by (by destruct ((JObj H).[event])).
    unfold H. rewrite merged_get by done. unfold merged_entries. rewrite fmap_app, bfilter_app.
    assert (bfilter truthy (stripImpeccableHookEntry <$> elements_of freshHooks.[event]) = []) as ->.
    { specialize (Hown event). by destruct (freshHooks.[event]). }
    rewrite app_nil_r. destruct (existingHooks.[event]) as [| | | | |l|]; try done. simpl.
    transitivity (bfilter truthy (bfilter truthy (stripImpeccableHookEntry <$> l))).
    - f_equal. rewrite <-(list_fmap_id (bfilter truthy _)) at 2. apply list_fmap_ext. intros i x Hx. apply list_elem_of_lookup_2 in Hx.
      apply bfilter_elem_of in Hx as [Hx _]. apply list_elem_of_fmap in Hx as (y & -> & _). apply strip_idem.
    - rewrite bfilter_bfilter. apply bfilter_ext. intros x. by destruct (truthy x). }
  assert (forall event, has_entries_for (JObj H) freshHooks event = has_entries_for existingHooks freshHooks event) as Hh.
  { intros event. unfold has_entries_for. by rewrite Hm. }
  rewrite (merged_hooks_eq (JObj H)). rewrite (bfilter_ext _ _ _ Hh). simpl own_props. unfold H at 2. rewrite merged_keys.
  set (events := uniq (keys (own_props existingHooks) ++ keys (own_props freshHooks))).
  assert (bfilter (has_entries_for existingHooks freshHooks) (uniq (bfilter (has_entries_for existingHooks freshHooks) events ++ keys (own_props freshHooks)))
          = bfilter (has_entries_for existingHooks freshHooks) events) as ->.
  { unfold uniq at 1. rewrite foldl_app. fold (uniq (bfilter (has_entries_for existingHooks freshHooks) events)).
    rewrite uniq_id by (eapply sublist_NoDup; [apply uniq_NoDup|apply bfilter_sublist]).
    destruct (uniq_more (keys (own_props freshHooks)) (bfilter (has_entries_for existingHooks freshHooks) events)) as (rest & -> & Hrest).
    rewrite bfilter_app, bfilter_bfilter. rewrite (bfilter_none _ rest); [rewrite app_nil_r; apply bfilter_ext; intros x; by destruct (has_entries_for _ _ x)|].
    intros x Hx. destruct (Hrest x Hx) as [H1 H2]. destruct (has_entries_for existingHooks freshHooks x) eqn:E; [|done]. exfalso. apply H2, bfilter_elem_of. split; [|done].
    apply elem_uniq, elem_of_app. by right. }
  transitivity ((fun event => (event, JArr (merged_entries existingHooks freshHooks event))) <$> bfilter (has_entries_for existingHooks freshHooks) events);
    [|symmetry; apply merged_hooks_eq]. apply list_fmap_ext. intros i x _. by rewrite Hm.
Qed.

Lemma object_or_empty_obj v : is_obj (object_or_empty v) = true.
Proof. unfold object_or_empty. destruct (plain_object v) eqn:E; [|done]. by apply plain_object_obj in E as [o ->]. Qed.
Lemma object_or_empty_same v : is_obj v = true -> object_or_empty v = v.
Proof. by destruct v. Qed.

(** The manifest without its hooks. *)
Definition merged_base (existing fresh : js) : list (string * js) :=
  assoc_merge (own_props (object_or_empty existing))
    ([("hooks", JObj [])] ++ when_defined "version" (object_or_empty fresh).["version"] ++ when_defined "description" (object_or_empty fresh).["description"]).
Notation hooks_in v := (object_or_empty (object_or_empty v).["hooks"]).

Lemma merge_eq existing fresh :
  mergeHookManifests existing fresh = JObj (assoc_set "hooks" (JObj (merged_hooks (hooks_in existing) (hooks_in fresh))) (merged_base existing fresh)).
Proof. reflexivity. Qed.

Lemma assoc_merge_same {A} (l extra : list (string * A)) : Forall (fun kv => assoc_get kv.1 l = Some kv.2) extra -> assoc_merge l extra = l.
Proof.
  unfold assoc_merge. revert l; induction extra as [|[k v] extra IH]; intros l H; [done|]. apply Forall_cons in H as [Hk H]. cbn [foldl fst snd] in *.
  rewrite assoc_set_same by done. by apply IH.
Qed.
Lemma extras_NoDup (v d : js) : NoDup (keys ([("hooks", JObj [])] ++ when_defined "version" v ++ when_defined "description" d)).
Proof. unfold when_defined. destruct (is_undef v), (is_undef d); by vm_compute; repeat (constructor; [set_solver|]); constructor. Qed.

(** Merging what was merged changes nothing. *)
Lemma merge_again existing fresh : (forall event, stripImpeccableHookEntries (hooks_in fresh).[event] = []) ->
  mergeHookManifests (mergeHookManifests existing fresh) fresh = mergeHookManifests existing fresh.
Proof.
  intros Hown. rewrite (merge_eq (mergeHookManifests existing fresh)).
  set (m := mergeHookManifests existing fresh). assert (is_obj m = true) as Hm by done.
  assert (hooks_in m = JObj (merged_hooks (hooks_in existing) (hooks_in fresh))) as ->.
  { rewrite (object_or_empty_same m) by done. unfold m. rewrite merge_eq. simpl. by rewrite assoc_get_set_eq. }
  rewrite merge_hooks_again by (apply object_or_empty_obj || done).
  unfold merged_base. rewrite (object_or_empty_same m) by done. unfold m. rewrite merge_eq. cbn [own_props].
  set (H := JObj (merged_hooks (hooks_in existing) (hooks_in fresh))). unfold assoc_merge at 1. cbn [app foldl fst snd].
  rewrite assoc_set_twice. fold (assoc_merge (assoc_set "hooks" (JObj []) (merged_base existing fresh))
    (when_defined "version" (object_or_empty fresh).["version"] ++ when_defined "description" (object_or_empty fresh).["description"])).
  rewrite assoc_merge_same; [by rewrite assoc_set_twice|].
  apply Forall_forall. intros [k v] Hkv. cbn [fst snd].
  assert (k <> "hooks" /\ assoc_get k (merged_base existing fresh) = Some v) as [Hk Hg]; [|by rewrite assoc_get_set_ne].
  unfold merged_base. rewrite assoc_get_merge by apply extras_NoDup. revert Hkv. unfold when_defined.
  destruct (is_undef (object_or_empty fresh).["version"]), (is_undef (object_or_empty fresh).["description"]); simpl; intros Hkv;
    repeat (apply elem_of_cons in Hkv as [[= -> ->]|Hkv]; [done|]); by apply elem_of_nil in Hkv.
Qed.

(** The entries the code adds are the design hook's. *)
Lemma targets_own target event : target ∈ HOOK_MANIFEST_TARGETS -> stripImpeccableHookEntries (hooks_in (manifest target)).[event] = [].
Proof.
  intros H. repeat (apply elem_of_cons in H as [->|H]; [|]); [..|by apply elem_of_nil in H].
  all: cbn [manifest claude_target agents_target cursor_target github_target]; unfold object_or_empty, plain_object, jget; simpl truthy; cbn [is_objecty is_array negb andb assoc_get default];
    repeat (simpl; match goal with |- context [String.eqb ?a ?b] => destruct (String.eqb_spec a b) end; [subst; vm_compute; reflexivity|]); done.
Qed.

(** Foreign entries stay, in their order. *)
Lemma strip_sublist fs l : fs `sublist_of` l -> Forall foreign fs -> fs `sublist_of` bfilter truthy (stripImpeccableHookEntry <$> l).
Proof.
  induction 1 as [|x fs l Hs IH|x fs l Hs IH]; intros Hf; [constructor| |].
  - apply Forall_cons in Hf as [Hx Hf]. rewrite fmap_cons, (strip_foreign x Hx). destruct Hx as [x Ht _ _]. cbn [bfilter]. rewrite Ht.
    by apply sublist_skip, IH.
  - rewrite fmap_cons. cbn [bfilter]. destruct (truthy _); [by apply sublist_cons, IH|by apply IH].
Qed.
(** A group with hooks of the user and of the design hook: it stays, with the former. *)
Lemma strip_group o hooks fs : (forall k, k ∈ SCRIPT_KEYS -> ~ mentions (JObj o).[k]) -> (JObj o).["hooks"] = JArr hooks ->
  fs <> [] -> fs `sublist_of` hooks -> Forall foreign fs ->
  let group := stripImpeccableHookEntry (JObj o) in
  truthy group = true /\ (forall k, k <> "hooks" -> group.[k] = (JObj o).[k])
  /\ exists hooks', group.["hooks"] = JArr hooks' /\ fs `sublist_of` hooks'.
Proof.
  intros Hm%unmarked_spec Eh Hne Hs Hf. cbv zeta. rewrite strip_eq, Hm, Eh. unfold strip_with.
  pose proof (strip_sublist fs hooks Hs Hf) as Hs'. set (left := bfilter truthy _) in *.
  assert (bool_decide (left = []) = false) as ->.
  { apply bool_decide_eq_false. intros E. rewrite E in Hs'. apply sublist_nil_r in Hs'. done. }
  cbn [andb]. split; [done|]. split.
  - intros k Hk. rewrite jget_spread_with; [|done|apply NoDup_singleton]. simpl. apply String.eqb_neq in Hk. by rewrite Hk.
  - exists left. split; [|done]. by rewrite jget_spread_with; [|done|apply NoDup_singleton].
Qed.

(** C33: Repairing a manifest replaces the design hook's entries and nothing else. Whatever JSON value the manifest of a
    harness holds, the repaired one has every property of it but the hooks, the version and the description; for each
    event it has what is left of the entries that were there, followed by the fresh ones, and none of the former runs the
    design hook. The entries of the user are among the former, as they are and in their order; an entry that is a group
    of hooks, some of the user and some the design hook's, stays as well, with its other properties and every hook of the
    user in its order. Repairing again changes nothing. *)
Theorem repair_keeps_foreign_hooks target existing : target ∈ HOOK_MANIFEST_TARGETS ->
  let fresh := manifest target in
  let repaired := mergeHookManifests existing fresh in
  let kept event := stripImpeccableHookEntries (object_or_empty (object_or_empty existing).["hooks"]).[event] in
  (forall k, k ∉ ["hooks"; "version"; "description"] -> repaired.[k] = (object_or_empty existing).[k])
  /\ (forall event, elements_of (repaired.["hooks"]).[event] = kept event ++ elements_of (fresh.["hooks"]).[event])
  /\ (forall event entry, entry ∈ kept event -> ~ runs entry)
  /\ (forall event l fs, (object_or_empty (object_or_empty existing).["hooks"]).[event] = JArr l -> fs `sublist_of` l -> Forall foreign fs ->
      fs `sublist_of` kept event)
  /\ (forall event l entry hooks fs, (object_or_empty (object_or_empty existing).["hooks"]).[event] = JArr l -> entry ∈ l ->
      (forall k, k ∈ SCRIPT_KEYS -> ~ mentions entry.[k]) -> entry.["hooks"] = JArr hooks -> fs <> [] -> fs `sublist_of` hooks -> Forall foreign fs ->
      exists group, group ∈ kept event /\ (forall k, k <> "hooks" -> group.[k] = entry.[k])
        /\ exists hooks', group.["hooks"] = JArr hooks' /\ fs `sublist_of` hooks')
  /\ mergeHookManifests repaired fresh = repaired.
Proof.
  intros Ht fresh repaired kept. split; [|split; [|split; [|split; [|split]]]].
  - intros k Hk. unfold repaired. rewrite merge_eq. simpl. rewrite assoc_get_set_ne by set_solver. unfold merged_base.
    rewrite assoc_get_merge by apply extras_NoDup. pose proof (object_or_empty_obj existing) as Ho. destruct (object_or_empty existing) as [| | | | | |o]; try done.
    unfold when_defined. assert (String.eqb k "hooks" = false /\ String.eqb k "version" = false /\ String.eqb k "description" = false) as (E1 & E2 & E3).
    { rewrite !String.eqb_neq. set_solver. }
    destruct (is_undef (object_or_empty fresh).["version"]), (is_undef (object_or_empty fresh).["description"]); cbn [app assoc_get]; by rewrite ?E1, ?E2, ?E3.
  - intros event. unfold repaired. rewrite merge_eq. assert (forall (v : js) o, (JObj (assoc_set "hooks" v o)).["hooks"] = v) as -> by (intros v o; simpl; by rewrite assoc_get_set_eq).
    rewrite merged_get by apply object_or_empty_obj. unfold merged_entries. f_equal. unfold fresh.
    repeat (apply elem_of_cons in Ht as [->|Ht]; [reflexivity|]). by apply elem_of_nil in Ht.
  - intros event entry. unfold kept. destruct ((object_or_empty _).[event]) as [| | | | |l|]; try by intros ?%elem_of_nil. simpl.
    intros [Hin Htr]%bfilter_elem_of. apply list_elem_of_fmap in Hin as (x & -> & _). by apply strip_runs_not.
  - intros event l fs El Hs Hf. unfold kept. rewrite El. by apply strip_sublist.
  - intros event l entry hooks fs El Hin Hm Eh Hne Hs Hf. destruct entry as [| | | | | |o]; try done.
    destruct (strip_group o hooks fs Hm Eh Hne Hs Hf) as (Htr & Hk & Hh). exists (stripImpeccableHookEntry (JObj o)). split; [|done].
    unfold kept. rewrite El. apply bfilter_elem_of. split; [by apply list_elem_of_fmap_2|done].
  - apply merge_again. intros event. by apply targets_own.
Qed.

(** ** The files that are written *)

Definition manifest_files (cwd : string) : list string := (fun t => path_join [cwd; destRel t]) <$> HOOK_MANIFEST_TARGETS.
Definition is_manifest (cwd p : string) : Prop := p ∈ manifest_files cwd \/ exists q, q ∈ manifest_files cwd /\ p = q +:+ ".bak".

Lemma touches_json P p : only_touches P (read_json p).
Proof. unfold read_json. touch. Qed.
#[local] Hint Resolve touches_json : touches.
Lemma repair_touches cwd result target : target ∈ HOOK_MANIFEST_TARGETS -> only_touches (is_manifest cwd) (repair_target cwd result target).
Proof.
  intros Ht. assert (is_manifest cwd (path_join [cwd; destRel target])) as H1 by (left; apply list_elem_of_fmap; by exists target).
  assert (is_manifest cwd (path_join [cwd; destRel target] +:+ ".bak")) as H2 by (right; eexists; split; [apply list_elem_of_fmap; by exists target|done]).
  unfold repair_target, pruneImpeccableHookFromManifest, fileHasImpeccableHookMarker, next_manifest, copyFileSync, safeReadText. touch; auto using touches_write, touches_unlink.
Qed.
Theorem repair_writes_manifests cwd : only_touches (is_manifest cwd) (repairHookManifests cwd).
Proof.
  unfold repairHookManifests. assert (Forall (fun t => t ∈ HOOK_MANIFEST_TARGETS) HOOK_MANIFEST_TARGETS) as H by by apply Forall_forall.
  revert H. generalize no_repair. generalize HOOK_MANIFEST_TARGETS at 2 3. intros l. induction l as [|t l IH]; intros r H; cbn [repair_targets]; [apply touches_ret|].
  apply Forall_cons in H as [Ht H]. apply touches_bind; [by apply repair_touches|]. intros r'. by apply IH.
Qed.

(** A manifest in which the user has a hook of their own next to one of the design hook, and a group with both. *)
Definition demo_entry (command : string) : js := JObj [("command", JStr command); ("timeout", int 5)].
Definition demo_hook : js := demo_entry ".cursor/skills/impeccable/scripts/hook.mjs".
Definition demo_group : js := JObj [("matcher", JStr "Edit"); ("hooks", JArr [demo_hook; demo_entry "make lint"])].
Definition demo_manifest : js :=
  JObj [("theme", JStr "dark"); ("hooks", JObj [("preToolUse", JArr [demo_entry "make lint"; demo_hook; demo_group])])].
Lemma unmarked_no_script entry : marked entry = false -> forall k, k ∈ SCRIPT_KEYS -> ~ mentions entry.[k].
Proof. intros H k Hk Hm. assert (marked entry = true) as E by (apply marked_spec; by exists k). by rewrite E in H. Qed.
Lemma demo_foreign : foreign (demo_entry "make lint").
Proof. apply foreign_entry; [done|apply unmarked_no_script; by vm_compute|done]. Qed.

Lemma repair_keeps_foreign_hooks_witness :
  let repaired := mergeHookManifests demo_manifest (manifest cursor_target) in
  repaired.["theme"] = JStr "dark" /\ length (elements_of (repaired.["hooks"]).["preToolUse"]) = 3%nat
  /\ (exists group hooks, group ∈ elements_of (repaired.["hooks"]).["preToolUse"] /\ group.["matcher"] = JStr "Edit"
      /\ group.["hooks"] = JArr hooks /\ demo_entry "make lint" ∈ hooks)
  /\ mergeHookManifests repaired (manifest cursor_target) = repaired.
Proof.
  destruct (repair_keeps_foreign_hooks cursor_target demo_manifest) as (H1 & H2 & _ & _ & H5 & H6).
  { unfold HOOK_MANIFEST_TARGETS. do 2 apply list_elem_of_further. apply list_elem_of_here. }
  destruct (H5 "preToolUse" _ demo_group [demo_hook; demo_entry "make lint"] [demo_entry "make lint"] eq_refl) as (group & Hg & Hk & hooks & Hh & Hs);
    [do 2 apply list_elem_of_further; apply list_elem_of_here|apply unmarked_no_script; by vm_compute|done|done|apply sublist_cons, sublist_skip, sublist_nil
    |apply Forall_singleton, demo_foreign|].
  split; [rewrite H1; [reflexivity|set_solver]|]. split; [by rewrite H2|]. split; [|exact H6].
  exists group, hooks. rewrite H2. split; [apply elem_of_app; by left|]. split; [by rewrite Hk|]. split; [done|].
  apply (elem_of_sublist [demo_entry "make lint"]); [apply list_elem_of_here|exact Hs].
Defined.
