(* ===== verification/HookAdmin.v ===== *)
(** * Administration of the design hook ([hook-admin.mjs])

    The command that switches the hook on and off, records waivers, and resets the configuration. The functions it takes
    from [hook-lib.mjs] are those of IgnoreConfig, HookConfig and HookCache, and so is [mergeIgnoreValueEntries], which it
    repeats. *)
From S2P Require Import Prelude JsString JsValue Json NodePath Vocabulary EventValidation PollLanes Files IgnoreConfig HookConfig HookCache HookManifests.
Local Open Scope Z_scope.
Local Open Scope list_scope.

Definition ACTIONS : list string := ["status"; "on"; "off"; "ignore-rule"; "ignore-file"; "ignore-value"; "reset"].
Definition getPendingPath (cwd : string) : string := path_join [cwd; ".impeccable"; "hook.pending.json"].

(** ** The configuration files *)

Record raw_file := RawFile { rf_exists : bool; rf_malformed : bool; rf_raw : js }.
Definition readRawConfigFile (filePath : string) : eff fsys raw_file :=
  there ← get (existsSync filePath);
  if negb there then mret (RawFile false false JNull) else
  attempt (raw ← read_json filePath; mret (RawFile true false raw)) (fun _ => mret (RawFile true true JNull)).

Definition is_detector_key (kv : string * js) : bool := has_str DETECTOR_CONFIG_KEYS (JStr kv.1).
Definition stripDetectorKeys (raw : js) : js := JObj (if plain_object raw then bfilter (fun kv => negb (is_detector_key kv)) (own_props raw) else []).
Definition pickDetectorKeys (raw : js) : js := JObj (if plain_object raw then bfilter is_detector_key (own_props raw) else []).

Definition limit_of (limits : js) (k : string) : string * js := (k, if is_finite limits.[k] then limits.[k] else DEFAULT_LIMITS.[k]).
Definition mergeHookConfig (existing : js) : js :=
  let base := if truthy existing && is_objecty existing then existing else JObj [] in
  JObj [("enabled", enabled_of base); ("limits", JObj [limit_of base.["limits"] "maxFindings"; limit_of base.["limits"] "maxChars"])].

(** [seed] is the result of another merge. *)
Definition merge_seed (seed : option js) : js :=
  match seed with
  | None => JObj [("ignoreRules", JArr []); ("ignoreFiles", JArr []); ("ignoreValues", JArr [])]
  | Some seed =>
    let out := JObj [("ignoreRules", JArr (elements_of seed.["ignoreRules"])); ("ignoreFiles", JArr (elements_of seed.["ignoreFiles"]));
                     ("ignoreValues", JArr (normalizeIgnoreValueEntries seed.["ignoreValues"]))] in
    let out := if plain_object seed.["designSystem"] then out.["designSystem" := spread seed.["designSystem"]] else out in
    if advisory_setting seed then out.["advisoryRules" := seed.["advisoryRules"]] else out
  end.
Definition merged_strings (base out : js) (k : string) : js :=
  match base.[k] with JArr l => out.[k := strings (uniqueStrings (elements_of out.[k] ++ l))] | _ => out end.
Definition mergeDetectorConfig (existing : js) (seed : option js) : js :=
  let base := if truthy existing && is_objecty existing then existing else JObj [] in
  let out := merge_seed seed in
  let out := if plain_object base.["designSystem"]
    then out.["designSystem" := spread_with (out.["designSystem"] ||? JObj []) [("enabled", enabled_of base.["designSystem"])]] else out in
  let out := if advisory_setting base then out.["advisoryRules" := base.["advisoryRules"]] else out in
  let out := merged_strings base out "ignoreRules" in
  let out := merged_strings base out "ignoreFiles" in
  match base.["ignoreValues"] with
  | JArr l => out.["ignoreValues" := JArr (mergeIgnoreValues out.["ignoreValues"] (JArr l))]
  | _ => out
  end.

Definition raw_detector (unified : js) : js := mergeDetectorConfig (detectorSection unified) (Some (mergeDetectorConfig (hookSection unified) None)).
Definition readRawHookConfig (cwd : string) (local : bool) : eff fsys js :=
  info ← readRawConfigFile (configFile cwd local); mret (hookSection (rf_raw info)).
Definition readRawDetectorConfig (cwd : string) (local : bool) : eff fsys js :=
  info ← readRawConfigFile (configFile cwd local); mret (raw_detector (rf_raw info)).

(** What the file holds after hook settings, or detector settings, are written. *)
Definition next_hook (existing hookConfig : js) : js :=
  let existingHook := stripDetectorKeys (hookSection existing) in
  let legacyDetector := pickDetectorKeys (hookSection existing) in
  let next := spread_with existing [("hook", spread_with existingHook (own_props hookConfig))] in
  if (0 <? length (own_props legacyDetector))%nat then
    let existingDetector := detectorSection existing ||? JObj [] in
    next.["detector" := spread_with existingDetector (own_props (mergeDetectorConfig existingDetector (Some (mergeDetectorConfig legacyDetector None))))]
  else next.
Definition next_detector (existing detectorConfig : js) : js :=
  let nextHook := stripDetectorKeys (hookSection existing) in
  let existingDetectorSection := detectorSection existing ||? JObj [] in
  let existingDetector := mergeDetectorConfig existingDetectorSection None in
  let next := spread_with existing
    [("detector", spread_with existingDetectorSection (own_props (mergeDetectorConfig detectorConfig (Some existingDetector))))] in
  if (0 <? length (own_props nextHook))%nat then next.["hook" := nextHook] else jdel next "hook".

Section Admin.
Context (cwd0 cwd : string).

Definition write_config (local : bool) (next : js -> js) : eff fsys string :=
  let filePath := configFile cwd local in
  _ ← (if local then _ ← ensureHookGitExcludes cwd0 cwd; mret tt else mret tt);
  info ← readRawConfigFile filePath;
  _ ← write_json filePath (next (object_or_empty (rf_raw info)));
  mret filePath.
Definition writeHookConfig (hookConfig : js) (local : bool) : eff fsys string := write_config local (fun existing => next_hook existing hookConfig).
Definition writeDetectorConfig (detectorConfig : js) (local : bool) : eff fsys string := write_config local (fun existing => next_detector existing detectorConfig).

(** [path.relative(cwd, p) || p]. *)
Definition shown (p other : string) : string := let rel := relative cwd p in if String.eqb rel "" then other else rel.

(** ** Status *)

Definition file_state (info : raw_file) (relPath absent : string) : string :=
  if rf_malformed info then relPath +:+ " (malformed; ignored)" else if rf_exists info then relPath else relPath +:+ " (" +:+ absent +:+ ")".
Definition value_line (entry : js) : string :=
  to_str entry.["rule"] +:+ "=" +:+ to_str entry.["value"]
  +:+ match entry.["files"] with JArr ((_ :: _) as l) => " [" +:+ join ", " (to_str <$> l) +:+ "]" | _ => "" end.
Definition or_none (l : list string) : string := match l with [] => "(none)" | _ => join ", " l end.
Definition statusReport (envKill : option string) : eff fsys string :=
  shared ← readRawConfigFile (getConfigPath cwd);
  local ← readRawConfigFile (getLocalConfigPath cwd);
  cfg ← readConfig cwd;
  cached ← get (existsSync (getCachePath cwd));
  let envState := match envKill with Some "" | None => "unset" | Some v => "IMPECCABLE_HOOK_DISABLED=" +:+ v end in
  let cachePath := shown (getCachePath cwd) ".impeccable/hook.cache.json" in
  mret (join s_nl
    [ "Impeccable design hook";
      "  state:        " +:+ (if truthy cfg.["enabled"] then "enabled" else "disabled");
      "  shared file:  " +:+ file_state shared (shown (getConfigPath cwd) ".impeccable/config.json") "using defaults; file not present";
      "  local file:   " +:+ file_state local (shown (getLocalConfigPath cwd) ".impeccable/config.local.json") "not present";
      "  ignoreRules:  " +:+ or_none (to_str <$> elements_of cfg.["ignoreRules"]);
      "  ignoreFiles:  " +:+ or_none (to_str <$> elements_of cfg.["ignoreFiles"]);
      "  ignoreValues: " +:+ or_none (value_line <$> elements_of cfg.["ignoreValues"]);
      "  maxFindings:  " +:+ to_str cfg.["limits"].["maxFindings"];
      "  maxChars:     " +:+ to_str cfg.["limits"].["maxChars"];
      "  env override: " +:+ envState;
      "  cache file:   " +:+ (if cached : bool then cachePath else cachePath +:+ " (not present)") ]).

(** ** On and off *)

Definition repair_note (r : repair) : string :=
  match written r, already r with
  | _ :: _, _ => "Installed or repaired hook manifests for: " +:+ join ", " (written r) +:+ "."
  | [], _ :: _ => "Hook manifests already installed for: " +:+ join ", " (already r) +:+ "."
  | [], [] => "No installed provider skill folders found to repair."
  end.
Definition setEnabled (value : bool) : eff fsys string :=
  raw ← readRawHookConfig cwd false;
  target ← writeHookConfig ((mergeHookConfig raw).["enabled" := JBool value]) false;
  if negb value then mret ("Design hook disabled for this project (wrote " +:+ shown target target +:+ ").") else
  localTarget ← writeHookConfig (JObj [("consent", JStr "accepted")]) true;
  repaired ← repairHookManifests cwd;
  mret (join " "
    ([ "Design hook enabled for this project (wrote " +:+ shown target target +:+ ").";
       "Recorded local hook consent in " +:+ shown localTarget localTarget +:+ "."; repair_note repaired ]
     ++ match backups repaired with
        | [] => []
        | l => ["Backed up malformed manifest(s): " +:+ join ", " ((fun p => shown p p) <$> l) +:+ "."]
        end)).

(** ** Waivers *)

Definition normalizeRuleId (rule : string) : string := to_lower (trim rule).

(** The arguments of ignore-rule; [reason] while those after [--reason] are skipped. *)
Record rule_args := RuleArgs { ra_positionals : list string; ra_allValues : bool }.
Fixpoint rule_args_of (args : list string) (reason : bool) (acc : rule_args) : result rule_args :=
  match args with
  | [] => Ok acc
  | arg :: args =>
    if reason && negb (starts_with "--" arg) then rule_args_of args true acc
    else if String.eqb arg "--all-values" then rule_args_of args false (RuleArgs (ra_positionals acc) true)
    else if String.eqb arg "--reason" then rule_args_of args true acc
    else if starts_with "--reason=" arg then rule_args_of args false acc
    else if starts_with "--" arg then Throw (error ("Unknown ignore-rule flag: " +:+ arg))
    else rule_args_of args false (RuleArgs (ra_positionals acc ++ [arg]) (ra_allValues acc))
  end.
Definition parseIgnoreRuleArgs (args : list string) : result (string * bool) :=
  parsed ← rule_args_of args false (RuleArgs [] false);
  mret (normalizeRuleId (default "" (head (ra_positionals parsed))), ra_allValues parsed).

Definition fail {A} (message : string) : eff fsys A := lift (Throw (error message)).
(** [if (!l.includes(x)) l.push(x)] on a list of the configuration. *)
Definition push_string (config : js) (k x : string) : js :=
  let l := elements_of config.[k] in
  if existsb (fun v => v === JStr x) l then config else config.[k := JArr (l ++ [JStr x])].
Definition listed (config : js) (k : string) : string := join ", " (to_str <$> elements_of config.[k]).

Definition FONT_RULE_ADVICE : string :=
  "overused-font is value-specific by default. Use " +:+ IMPECCABLE_COMMAND +:+ " hooks ignore-value overused-font <font> for a confirmed font, or "
  +:+ IMPECCABLE_COMMAND +:+ " hooks ignore-rule overused-font --all-values only when the user asked to ignore overused fonts generally.".
Definition addIgnoreRule (args : list string) : eff fsys string :=
  parsed ← lift (parseIgnoreRuleArgs args);
  let rule := (parsed : string * bool).1 in
  if String.eqb rule "" then fail ("Pass a rule id, e.g. " +:+ IMPECCABLE_COMMAND +:+ " hooks ignore-rule side-tab") else
  if String.eqb rule "overused-font" && negb parsed.2 then fail FONT_RULE_ADVICE else
  raw ← readRawDetectorConfig cwd false;
  let config := push_string (mergeDetectorConfig raw None) "ignoreRules" rule in
  _ ← writeDetectorConfig config false;
  mret ("Added " +:+ s_dq +:+ rule +:+ s_dq +:+ " to detector.ignoreRules. Current: " +:+ listed config "ignoreRules").

Record file_args := FileArgs { fa_positionals : list string; fa_shared : bool; fa_local : bool }.
Fixpoint file_args_of (args : list string) (acc : file_args) : result file_args :=
  match args with
  | [] => Ok acc
  | arg :: args =>
    if String.eqb arg "--shared" then file_args_of args (FileArgs (fa_positionals acc) true (fa_local acc))
    else if String.eqb arg "--local" then file_args_of args (FileArgs (fa_positionals acc) (fa_shared acc) true)
    else if String.eqb arg "--reason" || starts_with "--reason=" arg then
      Throw (error "--reason is not supported for ignore-file because detector.ignoreFiles stores globs only; use ignore-value when a documented rule-specific exception fits")
    else if starts_with "--" arg then Throw (error ("Unknown ignore-file flag: " +:+ arg))
    else file_args_of args (FileArgs (fa_positionals acc ++ [arg]) (fa_shared acc) (fa_local acc))
  end.
Definition ONE_SCOPE : string := "Pass only one scope flag: --shared or --local".
Definition parseIgnoreFileArgs (args : list string) : result (string * bool) :=
  parsed ← file_args_of args (FileArgs [] false false);
  if fa_shared parsed && fa_local parsed then Throw (error ONE_SCOPE)
  else if (1 <? length (fa_positionals parsed))%nat then Throw (error "Pass exactly one glob to ignore-file")
  else Ok (default "" (head (fa_positionals parsed)), fa_local parsed).
Definition addIgnoreFile (args : list string) : eff fsys string :=
  parsed ← lift (parseIgnoreFileArgs args);
  let glob := (parsed : string * bool).1 in
  let local := parsed.2 in
  if String.eqb glob "" then fail ("Pass a glob, e.g. " +:+ IMPECCABLE_COMMAND +:+ " hooks ignore-file " +:+ s_dq +:+ "src/legacy/**" +:+ s_dq) else
  raw ← readRawDetectorConfig cwd local;
  let config := push_string (mergeDetectorConfig raw None) "ignoreFiles" glob in
  target ← writeDetectorConfig config local;
  mret ("Added " +:+ s_dq +:+ glob +:+ s_dq +:+ " to " +:+ (if local then "local detector.ignoreFiles" else "shared detector.ignoreFiles")
        +:+ " (" +:+ shown target target +:+ "). Current: " +:+ listed config "ignoreFiles").

Definition requireGlob (raw flag : string) : result string :=
  let glob := trim raw in
  if String.eqb glob "" then Throw (error (flag +:+ " requires a non-empty glob"))
  else if starts_with "--" glob then Throw (error (flag +:+ " requires a glob, got the flag " +:+ glob))
  else Ok glob.

(** What the next argument of ignore-value is: any, one more word of the reason, or the glob of a flag. *)
Inductive arg_mode := AnyArg | ReasonWord (chunks : list string) | GlobOf (flag : string).
Record value_args := ValueArgs { va_positionals : list string; va_files : list string; va_shared : bool; va_local : bool; va_reason : string }.
Definition with_positional (acc : value_args) (p : string) : value_args := ValueArgs (va_positionals acc ++ [p]) (va_files acc) (va_shared acc) (va_local acc) (va_reason acc).
Definition with_glob (acc : value_args) (glob : string) : value_args := ValueArgs (va_positionals acc) (va_files acc ++ [glob]) (va_shared acc) (va_local acc) (va_reason acc).
Definition with_reason (acc : value_args) (reason : string) : value_args := ValueArgs (va_positionals acc) (va_files acc) (va_shared acc) (va_local acc) reason.
(** An argument that is not the word of a reason or the glob of a flag. *)
Definition value_arg (arg : string) (acc : value_args) : result (arg_mode * value_args) :=
  if String.eqb arg "--shared" then Ok (AnyArg, ValueArgs (va_positionals acc) (va_files acc) true (va_local acc) (va_reason acc))
  else if String.eqb arg "--local" then Ok (AnyArg, ValueArgs (va_positionals acc) (va_files acc) (va_shared acc) true (va_reason acc))
  else if String.eqb arg "--reason" then Ok (ReasonWord [], with_reason acc "")
  else if starts_with "--reason=" arg then Ok (AnyArg, with_reason acc (trim (sdrop (slen "--reason=") arg)))
  else if String.eqb arg "--file" || String.eqb arg "--files" then Ok (GlobOf arg, acc)
  else if starts_with "--file=" arg then glob ← requireGlob (sdrop (slen "--file=") arg) "--file"; mret (AnyArg, with_glob acc glob)
  else if starts_with "--files=" arg then glob ← requireGlob (sdrop (slen "--files=") arg) "--files"; mret (AnyArg, with_glob acc glob)
  else if starts_with "--" arg then Throw (error ("Unknown ignore-value flag: " +:+ arg))
  else Ok (AnyArg, with_positional acc arg).
Fixpoint value_args_of (args : list string) (mode : arg_mode) (acc : value_args) : result value_args :=
  match args with
  | [] => match mode with GlobOf flag => Throw (error (flag +:+ " requires a glob")) | _ => Ok acc end
  | arg :: args =>
    next ← match mode with
           | GlobOf flag => glob ← requireGlob arg flag; mret (AnyArg, with_glob acc glob)
           | ReasonWord chunks =>
             if starts_with "--" arg then value_arg arg acc
             else Ok (ReasonWord (chunks ++ [arg]), with_reason acc (trim (join " " (chunks ++ [arg]))))
           | AnyArg => value_arg arg acc
           end;
    value_args_of args (next : arg_mode * value_args).1 next.2
  end.
Record ignore_value := IgnoreValue { iv_rule : string; iv_value : string; iv_files : list string; iv_shared : bool; iv_local : bool; iv_reason : string }.
Definition sort_strings (l : list string) : list string := sort_by (fun a b => negb (string_leb b a)) l.
Definition parseIgnoreValueArgs (args : list string) : result ignore_value :=
  acc ← value_args_of args AnyArg (ValueArgs [] [] false false "");
  mret (IgnoreValue (normalizeRuleId (default "" (head (va_positionals acc)))) (normalizeIgnoreValue (JStr (join " " (tail (va_positionals acc)))))
          (sort_strings (uniq (bfilter (fun f => negb (String.eqb f "")) (va_files acc)))) (va_shared acc) (va_local acc) (va_reason acc)).

Definition wildcard_advice (rule : string) : string :=
  let ignore_rule := IMPECCABLE_COMMAND +:+ " hooks ignore-rule " +:+ rule in
  "Wildcard value ignores must be scoped with --file <glob>, e.g. " +:+ IMPECCABLE_COMMAND +:+ " hooks ignore-value design-system-font-size "
  +:+ s_dq +:+ "*" +:+ s_dq +:+ " --file " +:+ s_dq +:+ "src/widget.js" +:+ s_dq +:+ ". To suppress the rule project-wide use "
  +:+ (if String.eqb rule "overused-font" then ignore_rule +:+ " --all-values" else ignore_rule) +:+ ".".
Definition scoped_entry (v : ignore_value) : js :=
  JObj ([("rule", JStr (iv_rule v)); ("value", JStr (iv_value v))] ++ match iv_files v with [] => [] | l => [("files", strings l)] end).
Definition put_value (createdAt : string) (v : ignore_value) (entries : list js) : list js :=
  let reason := if String.eqb (iv_reason v) "" then [] else [("reason", JStr (iv_reason v))] in
  match find_index (fun e => String.eqb (entry_key e) (entry_key (scoped_entry v))) entries with
  | Some i => match reason with [] => entries | _ => <[i := spread_with (default JUndef (entries !! i)) reason]> entries end
  | None => entries ++ [spread_with (scoped_entry v) ([("createdAt", JStr createdAt)] ++ reason)]
  end.
Definition addIgnoreValue (createdAt : string) (args : list string) : eff fsys string :=
  v ← lift (parseIgnoreValueArgs args);
  if String.eqb (iv_rule v) "" || String.eqb (iv_value v) ""
  then fail ("Pass a rule id and value, e.g. " +:+ IMPECCABLE_COMMAND +:+ " hooks ignore-value overused-font Inter")
  else if iv_shared v && iv_local v then fail ONE_SCOPE
  else if String.eqb (iv_value v) "*" && bool_decide (iv_files v = []) then fail (wildcard_advice (iv_rule v))
  else
    raw ← readRawDetectorConfig cwd (iv_local v);
    let config := mergeDetectorConfig raw None in
    target ← writeDetectorConfig (config.["ignoreValues" := JArr (put_value createdAt v (elements_of config.["ignoreValues"]))]) (iv_local v);
    mret ("Added " +:+ iv_rule v +:+ "=" +:+ iv_value v +:+ match iv_files v with [] => "" | l => " scoped to " +:+ join ", " l end
          +:+ " to " +:+ (if iv_local v then "local detector.ignoreValues" else "shared detector.ignoreValues") +:+ " (" +:+ shown target target +:+ ").").

(** ** Reset *)

(** The removal of one file or of its sections; [None] when there is nothing to remove, or it failed. *)
Definition reset_config (filePath : string) : eff fsys (option string) :=
  attempt
    (info ← readRawConfigFile filePath;
     let raw := rf_raw info in
     if negb (plain_object raw) || (negb (hasOwn raw "hook") && negb (hasOwn raw "detector")) then mret None else
     let rest := jdel (jdel raw "hook") "detector" in
     _ ← (if bool_decide (own_props rest = []) then unlinkSync filePath else writeFileSync filePath (json_stringify2 rest +:+ s_nl));
     mret (Some (shown filePath filePath)))
    (fun _ => mret None).
Definition reset_state (filePath : string) : eff fsys (option string) :=
  attempt (there ← get (existsSync filePath);
           if negb there then mret None else _ ← unlinkSync filePath; mret (Some (shown filePath filePath)))
          (fun _ => mret None).
Definition reset : eff fsys string :=
  a ← reset_config (getConfigPath cwd);
  b ← reset_config (getLocalConfigPath cwd);
  c ← reset_state (getCachePath cwd);
  d ← reset_state (getPendingPath cwd);
  let removed := omap id [a; b; c; d] in
  mret (match removed with
        | [] => "No hook config or cache to remove. Already at defaults."
        | l => "Reset design hook config and cache (removed: " +:+ join ", " l +:+ ")."
        end).

(** ** The command *)

(** What the process prints, and its exit code. *)
Record outcome := Outcome { o_stdout : string; o_stderr : string; o_code : Z }.
Definition run_action (envKill : option string) (createdAt action : string) (rest : list string) : eff fsys string :=
  if String.eqb action "status" then statusReport envKill
  else if String.eqb action "on" then setEnabled true
  else if String.eqb action "off" then setEnabled false
  else if String.eqb action "ignore-rule" then addIgnoreRule rest
  else if String.eqb action "ignore-file" then addIgnoreFile rest
  else if String.eqb action "ignore-value" then addIgnoreValue createdAt rest
  else reset.
Definition admin_main (envKill : option string) (createdAt : string) (args : list string) : eff fsys outcome :=
  let action := to_lower (match args with "" :: _ | [] => "status" | a :: _ => a end) in
  if negb (existsb (String.eqb action) ACTIONS)
  then mret (Outcome "" ("Unknown action: " +:+ action +:+ s_nl +:+ "Valid: " +:+ join ", " ACTIONS +:+ s_nl) 1)
  else attempt (out ← run_action envKill createdAt action (tail args); mret (Outcome (out +:+ s_nl) "" 0))
               (fun err => mret (Outcome "" ("Error: " +:+ err_message err +:+ s_nl) 1)).
End Admin.

(** * Theorems *)

(** ** Lists of strings *)

Definition strs (v : js) (k : string) : list string := to_str <$> elements_of v.[k].

Lemma strs_strings v k l : v.[k] = strings l -> strs v k = l.
Proof. unfold strs, strings. intros ->. simpl. rewrite <-list_fmap_compose. apply list_fmap_id. Qed.
Lemma strs_set v k k' x : is_obj v = true -> k <> k' -> strs (v.[k' := x]) k = strs v k.
Proof. intros Hv Hk. unfold strs. rewrite jget_jset by done. apply String.eqb_neq in Hk. by rewrite Hk. Qed.
Lemma merged_strings_obj base out k : is_obj out = true -> is_obj (merged_strings base out k) = true.
Proof. intros H. unfold merged_strings. destruct (base.[k]); try done. by rewrite is_obj_jset. Qed.
Lemma merged_strings_self base out k x : is_obj out = true -> x ∈ strs (merged_strings base out k) k <-> x ∈ strs out k \/ x ∈ strs base k.
Proof.
  intros Ho. unfold merged_strings. destruct (base.[k]) as [| | | | |l|] eqn:E.
  6: { rewrite (strs_strings _ _ (uniqueStrings (elements_of out.[k] ++ l))) by (by rewrite jget_jset, String.eqb_refl).
       unfold uniqueStrings. rewrite elem_uniq, fmap_app, elem_of_app. unfold strs at 2. by rewrite E. }
  all: assert (strs base k = []) as -> by (unfold strs; by rewrite E); rewrite elem_of_nil; tauto.
Qed.
Lemma merged_strings_other base out k k' : is_obj out = true -> k <> k' -> strs (merged_strings base out k') k = strs out k.
Proof. intros Ho Hk. unfold merged_strings. destruct (base.[k']); try done. by apply strs_set. Qed.

Lemma merge_seed_obj seed : is_obj (merge_seed seed) = true.
Proof. unfold merge_seed. destruct seed as [seed|]; [|done]. destruct (plain_object _), (advisory_setting _); by rewrite ?is_obj_jset. Qed.
Lemma merge_seed_strs seed k : k = "ignoreRules" \/ k = "ignoreFiles" -> strs (merge_seed seed) k = match seed with Some seed => strs seed k | None => [] end.
Proof.
  intros Hk. assert (k <> "designSystem" /\ k <> "advisoryRules") as [H1 H2] by (destruct Hk as [->| ->]; done).
  unfold merge_seed. destruct seed as [seed|]; [|by destruct Hk as [->| ->]].
  destruct (plain_object _), (advisory_setting _); rewrite ?strs_set by (rewrite ?is_obj_jset; done); destruct Hk as [->| ->]; done.
Qed.

(** The rules, or the files, of a merge are those of both. *)
Lemma merge_strs existing seed k x : k = "ignoreRules" \/ k = "ignoreFiles" ->
  x ∈ strs (mergeDetectorConfig existing seed) k <-> x ∈ match seed with Some seed => strs seed k | None => [] end \/ x ∈ strs existing k.
Proof.
  intros Hk. assert (k <> "designSystem" /\ k <> "advisoryRules" /\ k <> "ignoreValues") as (H1 & H2 & H3) by (destruct Hk as [->| ->]; done).
  unfold mergeDetectorConfig. set (base := if truthy existing && is_objecty existing then existing else JObj []).
  assert (strs base k = strs existing k) as Hb.
  { unfold base. destruct (truthy existing && is_objecty existing) eqn:E; [done|]. unfold strs. destruct existing; destruct Hk as [->| ->]; done. }
  rewrite <-(merge_seed_strs seed k Hk), <-Hb.
  set (out1 := if plain_object base.["designSystem"] then _ else merge_seed seed).
  assert (is_obj out1 = true /\ strs out1 k = strs (merge_seed seed) k) as [Ho1 <-].
  { unfold out1. pose proof (merge_seed_obj seed). destruct (plain_object _); [|done]. rewrite is_obj_jset. split; [done|by apply strs_set]. }
  set (out2 := if advisory_setting base then _ else out1).
  assert (is_obj out2 = true /\ strs out2 k = strs out1 k) as [Ho2 <-].
  { unfold out2. destruct (advisory_setting base); [|done]. rewrite is_obj_jset. split; [done|by apply strs_set]. }
  set (out4 := merged_strings base (merged_strings base out2 "ignoreRules") "ignoreFiles").
  assert (is_obj (merged_strings base out2 "ignoreRules") = true) as Ho3 by by apply merged_strings_obj.
  assert (is_obj out4 = true) as Ho4 by by apply merged_strings_obj.
  transitivity (x ∈ strs out4 k).
  - destruct (base.["ignoreValues"]); try done. by rewrite strs_set.
  - unfold out4. destruct Hk as [->| ->].
    + rewrite merged_strings_other by done. by apply merged_strings_self.
    + rewrite merged_strings_self by done. by rewrite merged_strings_other.
Qed.
Lemma raw_detector_strs v k x : k = "ignoreRules" \/ k = "ignoreFiles" ->
  x ∈ strs (raw_detector v) k <-> x ∈ strs (hookSection v) k \/ x ∈ strs (detectorSection v) k.
Proof. intros Hk. unfold raw_detector. rewrite merge_strs by done. cbn beta iota. rewrite merge_strs, elem_of_nil by done. tauto. Qed.

(** ** What a merge stores *)

Notation stored v := (exists o, v = JObj o /\ parsed (JObj o)).

Lemma stored_set k x v : is_undef x = false -> parsed x -> stored v -> stored (v.[k := x]).
Proof. intros Hu Hx (o & -> & Ho). eexists. split; [reflexivity|]. by apply parsed_set. Qed.
Lemma stored_list v k : stored v -> parsed (JArr (elements_of v.[k])).
Proof.
  intros (o & -> & Ho). pose proof (parsed_get o k Ho) as Hg. destruct ((JObj o).[k]) as [| | | | |l|] eqn:E; try (apply parsed_arr; constructor). by apply Hg.
Qed.
Lemma stored_advisory raw v : stored v -> stored (if advisory_setting raw then v.["advisoryRules" := raw.["advisoryRules"]] else v).
Proof.
  intros Hv. destruct (advisory_setting raw) eqn:H; [|done]. unfold advisory_setting in H.
  apply orb_true_iff in H as [->%strict_eq_str| ->%strict_eq_str]; (apply stored_set; [done|apply parsed_str|done]).
Qed.
(** The design system of a seed is an object, or absent. *)
Definition seeded (v : js) : Prop := stored v /\ (is_undef v.["designSystem"] = true \/ stored v.["designSystem"]).
Lemma seed_stored seed : (forall v, seed = Some v -> stored v) -> seeded (merge_seed seed).
Proof.
  intros Hseed. unfold merge_seed. destruct seed as [v|].
  2: { split; [|by left]. eexists; split; [reflexivity|]. apply parsed_obj. split; [apply (bool_decide_unpack _); vm_compute; exact I|]. by repeat constructor. }
  specialize (Hseed v eq_refl).
  assert (stored (JObj [("ignoreRules", JArr (elements_of v.["ignoreRules"])); ("ignoreFiles", JArr (elements_of v.["ignoreFiles"]));
                        ("ignoreValues", JArr (normalizeIgnoreValueEntries v.["ignoreValues"]))])) as H0.
  { eexists; split; [reflexivity|]. apply parsed_obj. split; [apply (bool_decide_unpack _); vm_compute; exact I|].
    repeat (apply Forall_cons; split; [split; [done|]|]); [by apply stored_list..|apply parsed_entries|constructor]. }
  destruct (plain_object v.["designSystem"]) eqn:Ep.
  - destruct Hseed as (o & -> & Ho). apply plain_object_obj in Ep as [od Ed]. rewrite Ed. simpl spread.
    assert (parsed (JObj od)) as Hd by (rewrite <-Ed; apply parsed_get; [done|by rewrite Ed]).
    split; [apply stored_advisory, stored_set; [done|done|exact H0]|right]. exists od. split; [|done]. by destruct (advisory_setting _).
  - split; [by apply stored_advisory|left]. by destruct (advisory_setting _).
Qed.
Lemma merge_stored existing seed : (forall v, seed = Some v -> stored v) -> stored (mergeDetectorConfig existing seed).
Proof.
  intros Hseed. destruct (seed_stored seed Hseed) as [Ho Hd]. unfold mergeDetectorConfig.
  set (base := if truthy existing && is_objecty existing then existing else JObj []).
  assert (forall k v, stored v -> stored (merged_strings base v k)) as Hstr.
  { intros k v Hv. unfold merged_strings. destruct (base.[k]); try done. apply stored_set; [done|apply parsed_strings|done]. }
  set (out1 := if plain_object base.["designSystem"] then _ else merge_seed seed).
  assert (stored out1) as H1.
  { unfold out1. destruct (plain_object base.["designSystem"]); [|done]. apply stored_set; [done| |done].
    assert (stored ((merge_seed seed).["designSystem"] ||? JObj [])) as (od & -> & Hod).
    { unfold or_else. destruct Hd as [Hu|(od & -> & Hod)]; [|by exists od]. destruct ((merge_seed seed).["designSystem"]); try done. exists []. split; [done|]. apply parsed_obj. split; constructor. }
    apply parsed_spread; [done|]. by apply Forall_singleton. }
  set (out4 := merged_strings base (merged_strings base _ "ignoreRules") "ignoreFiles").
  assert (stored out4) as H4 by (apply Hstr, Hstr; by apply stored_advisory).
  destruct (base.["ignoreValues"]); try done. apply stored_set; [done| |done]. apply parsed_arr. unfold mergeIgnoreValues, set_entries.
  apply (map_values entry_key parsed); apply Forall_forall; intros x (e & _ & He)%list_elem_of_omap; by eapply parsed_entry.
Qed.
Lemma raw_detector_stored v : stored (raw_detector v).
Proof. apply merge_stored. intros v' [= <-]. by apply merge_stored. Qed.

(** ** What is written *)

Definition listy (v : js) (k : string) : Prop := is_obj v = true /\ is_array v.[k] = true.
Lemma listy_set v k k' x : listy v k -> (k = k' -> is_array x = true) -> listy (v.[k' := x]) k.
Proof.
  intros [Ho Hl] Hx. split; [by rewrite is_obj_jset|]. rewrite jget_jset by done. destruct (String.eqb_spec k k'); [by apply Hx|done].
Qed.
Lemma merge_listy existing seed k : k = "ignoreRules" \/ k = "ignoreFiles" -> listy (mergeDetectorConfig existing seed) k.
Proof.
  intros Hk. assert (k <> "designSystem" /\ k <> "advisoryRules" /\ k <> "ignoreValues") as (H1 & H2 & H3) by (destruct Hk as [->| ->]; done).
  assert (listy (merge_seed seed) k) as H0.
  { unfold merge_seed. destruct seed as [seed|]; [|by destruct Hk as [->| ->]].
    destruct (plain_object _), (advisory_setting _); repeat (apply listy_set; [|done]); by destruct Hk as [->| ->]. }
  assert (forall base v k', listy v k -> listy (merged_strings base v k') k) as Hs.
  { intros base v k' Hv. unfold merged_strings. destruct (base.[k']); try done. by apply listy_set. }
  unfold mergeDetectorConfig. set (base := if truthy existing && is_objecty existing then existing else JObj []).
  assert (forall (b : bool) k' x v, k <> k' -> listy v k -> listy (if b then v.[k' := x] else v) k) as Hif by (intros [] k' x v Hne Hv; [by apply listy_set|done]).
  assert (forall v, listy v k -> listy (merged_strings base (merged_strings base v "ignoreRules") "ignoreFiles") k) as Hss by (intros v Hv; by apply Hs, Hs).
  destruct (base.["ignoreValues"]); try apply listy_set; try done; by apply Hss, Hif, Hif.
Qed.

Lemma kept_props (h : list (string * js)) k : k ∉ DETECTOR_CONFIG_KEYS ->
  assoc_get k (bfilter (fun kv => negb (is_detector_key kv)) h) = assoc_get k h.
Proof.
  intros Hk. induction h as [|[k' v] h IH]; [done|]. cbn [bfilter assoc_get].
  destruct (String.eqb_spec k k') as [->|Hne].
  - assert (is_detector_key (k', v) = false) as ->; [|cbn [negb assoc_get]; by rewrite String.eqb_refl].
    apply not_true_iff_false. unfold is_detector_key. intros (s & [= <-] & Hs)%has_str_iff. done.
  - apply String.eqb_neq in Hne. destruct (negb _); cbn [assoc_get]; by rewrite ?Hne.
Qed.
Lemma hookSection_cases v : hookSection v = JNull \/ exists h, hookSection v = JObj h /\ v.["hook"] = JObj h.
Proof. unfold hookSection. destruct (truthy v && plain_object v.["hook"]) eqn:E; [|by left]. apply andb_true_iff in E as [_ E]. apply plain_object_obj in E as [h ->]. right. by exists h. Qed.
Lemma detectorSection_cases v : detectorSection v = JNull \/ exists d, detectorSection v = JObj d /\ v.["detector"] = JObj d.
Proof. unfold detectorSection. destruct (truthy v && plain_object v.["detector"]) eqn:E; [|by left]. apply andb_true_iff in E as [_ E]. apply plain_object_obj in E as [d ->]. right. by exists d. Qed.

(** The hook section without the keys of the detector. *)
Lemma stripped_hook v : exists h, stripDetectorKeys (hookSection v) = JObj h
  /\ (forall k, k ∉ DETECTOR_CONFIG_KEYS -> (JObj h).[k] = (hookSection v).[k])
  /\ (forall k, k ∈ DETECTOR_CONFIG_KEYS -> assoc_get k h = None) /\ (parsed v -> is_obj v = true -> parsed (JObj h)).
Proof.
  unfold stripDetectorKeys. destruct (hookSection_cases v) as [->|(h & -> & Eh)].
  - exists []. split; [done|]. split; [done|]. split; [done|]. intros _ _. apply parsed_obj. split; constructor.
  - exists (bfilter (fun kv => negb (is_detector_key kv)) h). split; [done|]. split; [|split].
    + intros k Hk. simpl. by rewrite kept_props.
    + intros k Hk. by apply stripped_get.
    + intros Hp Hv. destruct v as [| | | | | |o]; try done. assert (parsed (JObj h)) as Hh by (rewrite <-Eh; apply parsed_get; [done|by rewrite Eh]).
      eapply parsed_sub; [exact Hh|apply bfilter_sublist].
Qed.

Lemma next_detector_spec o cfg : parsed (JObj o) ->
  let next := next_detector (JObj o) cfg in
  stored next
  /\ (forall k, k <> "hook" -> k <> "detector" -> next.[k] = (JObj o).[k])
  /\ (forall k x, k = "ignoreRules" \/ k = "ignoreFiles" -> x ∈ strs (raw_detector next) k <-> x ∈ strs (detectorSection (JObj o)) k \/ x ∈ strs cfg k)
  /\ (forall k, k ∉ DETECTOR_CONFIG_KEYS -> (hookSection next).[k] = (hookSection (JObj o)).[k]).
Proof.
  intros Ho. destruct (stripped_hook (JObj o)) as (h & Eh & Hget & Hnone & Hph). specialize (Hph Ho eq_refl).
  unfold next_detector. rewrite Eh. set (section := detectorSection (JObj o) ||? JObj []).
  assert (stored section /\ strs section = strs (detectorSection (JObj o))) as [Hsec Hss].
  { unfold section. destruct (detectorSection_cases (JObj o)) as [->|(d & -> & Ed)]; [split; [|done]; exists []; split; [done|]; apply parsed_obj; split; constructor|].
    split; [|done]. exists d. split; [done|]. rewrite <-Ed. apply parsed_get; [done|by rewrite Ed]. }
  destruct (merge_stored cfg (Some (mergeDetectorConfig section None))) as (m & Em & Hm); [intros v [= <-]; by apply merge_stored|].
  pose proof (proj1 (parsed_obj m) Hm) as [Hmd Hmf]. destruct Hsec as (sec & Esec & Hsec). rewrite Em, Esec. cbn [own_props].
  set (D := spread_with (JObj sec) m). assert (parsed D) as HD by by apply parsed_spread.
  assert (forall k x, k = "ignoreRules" \/ k = "ignoreFiles" -> x ∈ strs D k <-> x ∈ strs (detectorSection (JObj o)) k \/ x ∈ strs cfg k) as HDs.
  { intros k x Hk. assert (strs D k = strs (mergeDetectorConfig cfg (Some (mergeDetectorConfig section None))) k) as ->.
    { destruct (merge_listy cfg (Some (mergeDetectorConfig section None)) k Hk) as [_ Hl]. rewrite Em in Hl |- *. unfold strs, D. rewrite jget_spread_with by done.
      simpl in *. by destruct (assoc_get k m). }
    rewrite merge_strs by done. cbn beta iota. rewrite merge_strs, elem_of_nil, Hss by done. tauto. }
  assert (forall next, next.["detector"] = D -> (hookSection next = JNull \/ hookSection next = JObj h) -> truthy next = true ->
    forall k x, k = "ignoreRules" \/ k = "ignoreFiles" -> x ∈ strs (raw_detector next) k <-> x ∈ strs (detectorSection (JObj o)) k \/ x ∈ strs cfg k) as Hraw.
  { intros next Ed Ehk Ht k x Hk. rewrite raw_detector_strs by done. assert (detectorSection next = D) as ->.
    { unfold detectorSection. rewrite Ed, Ht. done. }
    rewrite HDs by done. assert (strs (hookSection next) k = []) as ->; [|rewrite elem_of_nil; tauto].
    destruct Ehk as [->| ->]; [done|]. unfold strs. simpl. rewrite Hnone; [done|]. unfold DETECTOR_CONFIG_KEYS. destruct Hk as [->| ->]; set_solver. }
  assert (parsed (JObj (assoc_set "detector" D o))) as Hn by by apply parsed_set.
  change (spread_with (JObj o) [("detector", D)]) with (JObj (assoc_set "detector" D o)). cbn [own_props].
  destruct (0 <? length h)%nat eqn:El; cbv zeta.
  - split; [|split; [|split]].
    + apply stored_set; [done|done|by eexists].
    + intros k H1 H2. simpl. by rewrite !assoc_get_set_ne.
    + apply Hraw; [|right|done]; [by rewrite jget_jset by done; simpl; rewrite assoc_get_set_eq|]. unfold hookSection. rewrite jget_jset by done. by destruct h.
    + intros k Hk. assert (hookSection ((JObj (assoc_set "detector" D o)).["hook" := JObj h]) = JObj h) as ->; [|by apply Hget].
      unfold hookSection. rewrite jget_jset by done. by destruct h.
  - destruct h as [|]; [|done]. split; [|split; [|split]].
    + eexists. split; [reflexivity|]. eapply parsed_sub; [exact Hn|apply assoc_del_sublist].
    + intros k H1 H2. simpl. rewrite assoc_get_del. apply String.eqb_neq in H1. rewrite H1. by rewrite assoc_get_set_ne.
    + apply Hraw; [|left|done]; [simpl; by rewrite assoc_get_del, assoc_get_set_eq|]. unfold hookSection. simpl. by rewrite assoc_get_del.
    + intros k Hk. rewrite <-Hget by done. unfold hookSection. simpl. by rewrite assoc_get_del.
Qed.

(** ** In the files *)

(** The object a configuration file holds; the empty one when it is missing or malformed. *)
Definition config_at (p : string) (s : fsys) : js :=
  match f_text s !! p with
  | Some t => match json_parse t with Some v => object_or_empty v | None => JObj [] end
  | None => JObj []
  end.
Lemma readRaw_eq p s : exists info, readRawConfigFile p s = (Ok info, s) /\ object_or_empty (rf_raw info) = config_at p s.
Proof.
  unfold readRawConfigFile, config_at, attempt, read_json, mbind, eff_bind, get, existsSync, readFileSync. cbn beta iota.
  destruct (f_text s !! p) as [t|] eqn:E; rewrite ?E.
  - rewrite bool_decide_true by done. cbn [orb negb]. rewrite E. destruct (json_parse t); eexists; split; reflexivity.
  - rewrite bool_decide_false by (by intros [? ?]). cbn [orb]. destruct (is_dir p s); cbn [negb]; rewrite ?E; eexists; split; reflexivity.
Qed.
Lemma sections_of v : hookSection v = hookSection (object_or_empty v) /\ detectorSection v = detectorSection (object_or_empty v).
Proof.
  unfold object_or_empty. destruct (plain_object v) eqn:E; [done|]. unfold hookSection, detectorSection.
  destruct v as [| |b|n|t|l|o]; try done; simpl; rewrite ?andb_false_r; done.
Qed.
Lemma raw_detector_of v : raw_detector v = raw_detector (object_or_empty v).
Proof. unfold raw_detector. by destruct (sections_of v) as [-> ->]. Qed.
Lemma config_at_obj p s : is_obj (config_at p s) = true.
Proof. unfold config_at. destruct (f_text s !! p); [|done]. destruct (json_parse s0); [apply object_or_empty_obj|done]. Qed.

Lemma write_json_ok p o s u s' : parsed (JObj o) -> write_json p (JObj o) s = (Ok u, s') ->
  config_at p s' = JObj o /\ forall q, q <> p -> f_text s' !! q = f_text s !! q.
Proof.
  intros [Hok Hn] H. unfold write_json, mkdirp, upd, mbind, eff_bind, writeFileSync in H. cbn beta iota in H. destruct (is_dir p _); [done|]. injection H as _ <-. cbn [f_text set_text].
  split; [|intros q Hq; by rewrite lookup_insert_ne]. unfold config_at. cbn [f_text set_text]. rewrite lookup_insert_eq. unfold json_stringify2.
  rewrite parse_print_nl by done. by rewrite Hn.
Qed.

(** Writing the shared configuration. *)
Lemma write_shared cwd0 cwd next s p s' : stored (next (config_at (getConfigPath cwd) s)) ->
  write_config cwd0 cwd false next s = (Ok p, s') ->
  config_at (getConfigPath cwd) s' = next (config_at (getConfigPath cwd) s) /\ forall q, q <> getConfigPath cwd -> f_text s' !! q = f_text s !! q.
Proof.
  intros (o & Eo & Ho) H. unfold write_config in H. cbn [configFile] in H. apply eff_bind_ok in H as (u & s1 & E & H). injection E as _ <-.
  apply eff_bind_ok in H as (info & s1 & E & H). destruct (readRaw_eq (getConfigPath cwd) s) as (info' & Ei & Hi). rewrite Ei in E. injection E as <- <-.
  rewrite Hi in H. apply eff_bind_ok in H as (u' & s1 & Ew & H). injection H as _ <-. rewrite Eo in Ew |- *. by apply write_json_ok in Ew.
Qed.

(** C34: A rule that is ignored is recorded, and nothing else changes. When the command ignore-rule succeeds, the shared
    configuration reads back the rules it had, in whichever section, and the one that was named; it has the same globs,
    every setting of the hook that is not the detector's, and every other section as before; and no other file has
    changed. Provided the configuration is JSON as [JSON.stringify] would print it (its keys distinct), missing or
    malformed. *)
Theorem ignored_rule_is_recorded cwd0 cwd args rule allValues s msg s' :
  parseIgnoreRuleArgs args = Ok (rule, allValues) -> parsed (config_at (getConfigPath cwd) s) ->
  addIgnoreRule cwd0 cwd args s = (Ok msg, s') ->
  let before := config_at (getConfigPath cwd) s in
  let after := config_at (getConfigPath cwd) s' in
  (forall x, x ∈ strs (raw_detector after) "ignoreRules" <-> x ∈ strs (raw_detector before) "ignoreRules" \/ x = rule)
  /\ (forall x, x ∈ strs (raw_detector after) "ignoreFiles" <-> x ∈ strs (raw_detector before) "ignoreFiles")
  /\ (forall k, k ∉ DETECTOR_CONFIG_KEYS -> (hookSection after).[k] = (hookSection before).[k])
  /\ (forall k, k <> "hook" -> k <> "detector" -> after.[k] = before.[k])
  /\ (forall p, p <> getConfigPath cwd -> f_text s' !! p = f_text s !! p).
Proof.
  intros Hargs Hp H before after. unfold addIgnoreRule in H. rewrite Hargs in H. apply eff_bind_ok in H as (pr & s1 & E & H). injection E as <- <-.
  cbn [fst snd] in H. cbv zeta in H. destruct (String.eqb rule ""); [done|]. destruct (String.eqb rule "overused-font" && negb allValues); [done|].
  apply eff_bind_ok in H as (raw & s1 & Er & H). assert (raw = raw_detector before /\ s1 = s) as [-> ->].
  { unfold readRawDetectorConfig in Er. apply eff_bind_ok in Er as (info & s2 & E & Er). destruct (readRaw_eq (getConfigPath cwd) s) as (info' & Ei & Hi).
    cbn [configFile] in E. rewrite Ei in E. injection E as <- <-. injection Er as <- <-. split; [|done]. unfold before. rewrite <-Hi. apply raw_detector_of. }
  apply eff_bind_ok in H as (p & s1 & Hw & H). injection H as _ <-.
  set (config := push_string (mergeDetectorConfig (raw_detector before) None) "ignoreRules" rule) in Hw.
  pose proof (config_at_obj (getConfigPath cwd) s) as Hob. fold before in Hob, Hp. destruct before as [| | | | | |o] eqn:Eb; try done.
  destruct (next_detector_spec o config Hp) as (Hs & Hk & Hr & Hh). unfold writeDetectorConfig in Hw. unfold before in Eb.
  apply write_shared in Hw as [Ha Hq]; [|by rewrite Eb]. rewrite Eb in Ha. unfold after. rewrite Ha.
  assert (forall k, k = "ignoreRules" \/ k = "ignoreFiles" -> forall x, x ∈ strs (mergeDetectorConfig (raw_detector (JObj o)) None) k <-> x ∈ strs (raw_detector (JObj o)) k) as Hm.
  { intros k Hkk x. rewrite merge_strs, elem_of_nil by done. tauto. }
  assert (forall x, x ∈ strs config "ignoreRules" <-> x ∈ strs (raw_detector (JObj o)) "ignoreRules" \/ x = rule) as Hc1.
  { intros x. rewrite <-(Hm "ignoreRules") by auto. unfold config, push_string. destruct (merge_listy (raw_detector (JObj o)) None "ignoreRules" (or_introl eq_refl)) as [Ho1 _].
    set (m := mergeDetectorConfig (raw_detector (JObj o)) None) in *. destruct (existsb _ _) eqn:Ee.
    - split; [by left|]. intros [?| ->]; [done|]. apply existsb_exists in Ee as (v & Hv & ->%strict_eq_str). apply list_elem_of_fmap. exists (JStr rule). split; [done|by apply list_elem_of_In].
    - unfold strs at 1. rewrite jget_jset, String.eqb_refl by done. simpl. rewrite fmap_app, elem_of_app. simpl. rewrite list_elem_of_singleton. done. }
  assert (forall x, x ∈ strs config "ignoreFiles" <-> x ∈ strs (raw_detector (JObj o)) "ignoreFiles") as Hc2.
  { intros x. rewrite <-(Hm "ignoreFiles") by auto. unfold config, push_string. destruct (existsb _ _); [done|]. rewrite strs_set; [done| |done]. by destruct (merge_listy (raw_detector (JObj o)) None "ignoreRules" (or_introl eq_refl)). }
  split; [|split; [|split; [|split]]]; [| |done|done|done].
  - intros x. rewrite Hr, Hc1 by auto. rewrite (raw_detector_strs (JObj o)) by auto. tauto.
  - intros x. rewrite Hr, Hc2 by auto. rewrite (raw_detector_strs (JObj o)) by auto. tauto.
Qed.

(** ** Examples *)

Definition demo_config : js :=
  JObj [("updateCheck", JBool false); ("hook", JObj [("quiet", JBool true); ("limits", JObj [("maxFindings", int 2); ("maxFileBytes", int 900)])]);
        ("detector", JObj [("ignoreRules", JArr [JStr "side-tab"])])].
Definition demo_home : fsys := Fsys {[ "/p/.impeccable/config.json" := json_stringify2 demo_config +:+ s_nl ]} {[ "/"; "/p"; "/p/.impeccable" ]}.

Lemma ignored_rule_is_recorded_witness :
  exists msg s', addIgnoreRule "/p" "/p" ["Tiny-Text"; "--reason"; "small print"] demo_home = (Ok msg, s')
  /\ "tiny-text" ∈ strs (raw_detector (config_at "/p/.impeccable/config.json" s')) "ignoreRules"
  /\ (config_at "/p/.impeccable/config.json" s').["updateCheck"] = JBool false.
Proof.
  eexists _, _. split; [vm_compute; reflexivity|].
  edestruct (ignored_rule_is_recorded "/p" "/p" ["Tiny-Text"; "--reason"; "small print"] "tiny-text" false demo_home) as (H1 & _ & _ & H4 & _).
  - reflexivity.
  - assert (json_okb demo_config = true /\ json_norm demo_config = demo_config) as [Hb Hn] by (split; vm_compute; reflexivity).
    assert (config_at (getConfigPath "/p") demo_home = demo_config) as -> by (vm_compute; reflexivity). split; [by apply json_okb_sound|done].
  - vm_compute. reflexivity.
  - split; [apply H1; by right|]. exact (H4 "updateCheck" ltac:(done) ltac:(done)).
Defined.

(** Switching the hook on or off drops the limit on the size of a file, which [mergeHookConfig] does not know. *)
Example size_limit_lost :
  let off := (setEnabled "/p" "/p" false demo_home).2 in
  (hookSection (config_at "/p/.impeccable/config.json" demo_home)).["limits"].["maxFileBytes"] = int 900
  /\ (hookSection (config_at "/p/.impeccable/config.json" off)).["limits"] = JObj [("maxFindings", int 2); ("maxChars", int 8000)].
Proof. by vm_compute. Qed.
(** A configuration with a syntax error is replaced, not kept. *)
Example malformed_config_lost :
  let broken := Fsys {[ "/p/.impeccable/config.json" := "{ updateCheck: false }" ]} (f_dirs demo_home) in
  (f_text (setEnabled "/p" "/p" false broken).2 !! "/p/.impeccable/config.json.bak" = None)
  /\ (config_at "/p/.impeccable/config.json" (setEnabled "/p" "/p" false broken).2).["updateCheck"] = JUndef.
Proof. by vm_compute. Qed.
(** The local file can leave the hook enabled after it was switched off. *)
Example still_enabled :
  let s := Fsys {[ "/p/.impeccable/config.local.json" := json_stringify (JObj [("hook", JObj [("enabled", JBool true)])]) ]} (f_dirs demo_home) in
  (config ← readConfig "/p"; mret config.["enabled"]) (setEnabled "/p" "/p" false s).2 = (Ok (JBool true), (setEnabled "/p" "/p" false s).2).
Proof. by vm_compute. Qed.
