(* ===== verification/AcceptCss.v ===== *)
(** * Accepting the styles of a variant ([live/accept-css.mjs])

    The style sheet of the accepted variant is merged into the one of the component, its parameters are replaced by the
    values the user chose, and selectors the framework's compiler reports as unused are removed. The compiler is an
    argument. The positions of a node ([start], [end], [preludeStart]), which nothing reads, are left out. *)
From S2P Require Import Prelude JsString JsValue JsRegex RegexFacts TagStrategy BlockText.
Local Open Scope nat_scope.
Local Open Scope list_scope.

(** ** Scanning *)

(** What a character is part of: the sheet itself, a string (after a backslash the next character is taken as it is), or a
    comment, of which [Opening] and [Closing] are the second character of the two delimiters. *)
Inductive mode := Plain | InQuote (q : ascii) | Escaped (q : ascii) | Opening | InComment | Closing.
Definition next_is (c : ascii) (s : string) : bool := match s with String d _ => Ascii.eqb c d | _ => false end.
Definition next_mode (m : mode) (c : ascii) (rest : string) : mode :=
  match m with
  | Plain => if Ascii.eqb c DQ || Ascii.eqb c "'" then InQuote c else if Ascii.eqb c "/" && next_is "*" rest then Opening else Plain
  | InQuote q => if Ascii.eqb c "\" then Escaped q else if Ascii.eqb c q then Plain else InQuote q
  | Escaped q => InQuote q
  | Opening => InComment
  | InComment => if Ascii.eqb c "*" && next_is "/" rest then Closing else InComment
  | Closing => Plain
  end.
Definition is_plain (m : mode) : bool := match m with Plain => true | _ => false end.

Inductive boundary := BlockAt (i : nat) | StatementAt (i : nat) | NoBoundary.
Fixpoint scan_boundary (m : mode) (i : nat) (s : string) : boundary :=
  match s with
  | EmptyString => NoBoundary
  | String c s =>
    if is_plain m && Ascii.eqb c "{" then BlockAt i
    else if is_plain m && Ascii.eqb c ";" then StatementAt i
    else scan_boundary (next_mode m c s) (S i) s
  end.
Definition scanToBlockOrStatementEnd (text : string) : boundary := scan_boundary Plain 0 text.

(** [depth] is one less than that of the code. *)
Fixpoint scan_end (m : mode) (depth i : nat) (s : string) : nat :=
  match s with
  | EmptyString => i
  | String c s =>
    if is_plain m && Ascii.eqb c "{" then scan_end m (S depth) (S i) s
    else if is_plain m && Ascii.eqb c "}" then match depth with O => i | S depth => scan_end m depth (S i) s end
    else scan_end (next_mode m c s) depth (S i) s
  end.
Definition scanBlockEnd (text : string) (from : nat) : nat := from + scan_end Plain 0 0 (sdrop from text).

(** ** Parsing *)

Inductive node :=
| Rule (prelude body : string)
| AtBlock (name prelude : string) (children : list node)
| AtBody (name prelude body : string)
| AtStatement (name prelude : string)
| Comment (text : string).

Definition at_name (prelude : string) : string :=
  match re_exec (RBol ⋅ lit "@" ⋅ RGroup 1 (rplus (RClass (fun c => is_alpha c || Ascii.eqb c "-"))))%re prelude with
  | Some m => group_or "" m 1
  | None => ""
  end.
Definition BLOCK_NAMES : list string := ["media"; "supports"; "layer"; "container"; "scope"].
Definition statement_node (raw : string) : list node :=
  if String.eqb raw "" then [] else [AtStatement (at_name raw) (re_replace (lit ";" ⋅ REol)%re (fun _ => "") raw)].
Definition block_node (parse : string -> list node) (prelude body : string) : list node :=
  if starts_with "@" prelude then
    let name := at_name prelude in
    if existsb (String.eqb name) BLOCK_NAMES then [AtBlock name prelude (parse body)] else [AtBody name prelude body]
  else if String.eqb prelude "" then [] else [Rule prelude body].

(** Each step, and each block, leaves a shorter text: the length is fuel enough ([parse_fuel]). *)
Fixpoint parse_nodes (fuel : nat) (text : string) : list node :=
  match fuel with
  | O => []
  | S fuel =>
    let text := trim_start text in
    if String.eqb text "" then []
    else if starts_with "/*" text then
      let stop := match index_of_from "*/" text 2 with Some close => close + 2 | None => slen text end in
      Comment (stake stop text) :: parse_nodes fuel (sdrop stop text)
    else
      match scanToBlockOrStatementEnd text with
      | NoBoundary => []
      | StatementAt i => statement_node (trim (stake (S i) text)) ++ parse_nodes fuel (sdrop (S i) text)
      | BlockAt i =>
        let bodyEnd := scanBlockEnd text (S i) in
        block_node (parse_nodes fuel) (trim (stake i text)) (slice (S i) bodyEnd text) ++ parse_nodes fuel (sdrop (Nat.min (slen text) (S bodyEnd)) text)
      end
  end.
Definition parseStylesheet (css : string) : list node := parse_nodes (S (slen css)) css.

(** ** Printing *)

Definition formatBody (body indent : string) : string :=
  let trimmed := trim body in
  if String.eqb trimmed "" then " " else
  let lines := bfilter (fun l => negb (String.eqb l "")) (trim <$> split_lines trimmed) in
  match lines with
  | [l] => if slen l <? 60 then " " +:+ l +:+ " " else s_nl +:+ indent +:+ "  " +:+ l +:+ s_nl +:+ indent
  | _ => s_nl +:+ join s_nl ((fun l => indent +:+ "  " +:+ l) <$> lines) +:+ s_nl +:+ indent
  end.
Fixpoint serialize_node (indent : string) (n : node) : list string :=
  match n with
  | Comment text => [indent +:+ text]
  | Rule prelude body | AtBody _ prelude body => [indent +:+ prelude +:+ " {" +:+ formatBody body indent +:+ "}"]
  | AtBlock _ prelude children =>
    [indent +:+ prelude +:+ " {"; join s_nl (flat_map (serialize_node (indent +:+ "  ")) children); indent +:+ "}"]
  | AtStatement _ prelude => [indent +:+ prelude +:+ ";"]
  end.
Definition serializeNodes (nodes : list node) (indent : string) : string := join s_nl (flat_map (serialize_node indent) nodes).

Definition combinator_re : re := (rstar rspace ⋅ RGroup 1 (RClass (one_of ">+~,")) ⋅ rstar rspace)%re.
Definition normalizeSelector (prelude : string) : string :=
  trim (re_replace_all combinator_re (fun m => group_or "" m 1) (re_replace_all (rplus rspace) (fun _ => " ") prelude)).

(** ** Merging *)

(** The maps of the code from selectors to nodes name the last rule, or block, of the level with a selector: they are
    filled in order, and a node is added only when its selector is in neither. *)
Fixpoint find_last {A B} (f : A -> option B) (l : list A) : option B :=
  match l with [] => None | x :: l => match find_last f l with Some b => Some b | None => f x end end.
Fixpoint update_last {A} (p : A -> bool) (f : A -> A) (l : list A) : list A :=
  match l with
  | [] => []
  | x :: l => if existsb p l then x :: update_last p f l else if p x then f x :: l else x :: l
  end.
Definition is_rule (key : string) (n : node) : bool := match n with Rule p _ => String.eqb (normalizeSelector p) key | _ => false end.
Definition is_block (key : string) (n : node) : bool := match n with AtBlock _ p _ => String.eqb (normalizeSelector p) key | _ => false end.
Definition rule_body (key : string) (n : node) : option string := if is_rule key n then match n with Rule _ b => Some b | _ => None end else None.
Definition block_children (key : string) (n : node) : option (list node) := if is_block key n then match n with AtBlock _ _ c => Some c | _ => None end else None.
Definition with_body (body : string) (n : node) : node := match n with Rule p _ => Rule p body | _ => n end.
Definition with_children (children : list node) (n : node) : node := match n with AtBlock name p _ => AtBlock name p children | _ => n end.
Definition has_children (n : node) : bool := match n with AtBlock _ _ _ => true | _ => false end.
(** Before the first block that has children, or at the end. *)
Fixpoint insert_rule (n : node) (l : list node) : list node :=
  match l with [] => [n] | x :: l => if has_children x then n :: x :: l else x :: insert_rule n l end.

Record level := Level { lv_nodes : list node; lv_touched : list string; lv_replaced : nat; lv_appended : nat }.
Definition merge_rule (key : string) (n : node) (body : string) (st : level) : level :=
  match find_last (rule_body key) (lv_nodes st) with
  | Some old =>
    let update b := update_last (is_rule key) (with_body b) (lv_nodes st) in
    if existsb (String.eqb key) (lv_touched st) then Level (update (trim old +:+ s_nl +:+ trim body)) (lv_touched st) (lv_replaced st) (lv_appended st)
    else if String.eqb (trim old) (trim body) then Level (lv_nodes st) (key :: lv_touched st) (lv_replaced st) (lv_appended st)
    else Level (update body) (key :: lv_touched st) (S (lv_replaced st)) (lv_appended st)
  | None => Level (insert_rule n (lv_nodes st)) (key :: lv_touched st) (lv_replaced st) (S (lv_appended st))
  end.
Definition push_node (n : node) (st : level) : level := Level (lv_nodes st ++ [n]) (lv_touched st) (lv_replaced st) (S (lv_appended st)).
Fixpoint merge_node (st : level) (n : node) : level :=
  match n with
  | Comment _ => st
  | Rule prelude body => merge_rule (normalizeSelector prelude) n body st
  | AtBlock _ prelude children =>
    let key := normalizeSelector prelude in
    match find_last (block_children key) (lv_nodes st) with
    | Some old =>
      let inner := fold_left merge_node children (Level old [] (lv_replaced st) (lv_appended st)) in
      Level (update_last (is_block key) (with_children (lv_nodes inner)) (lv_nodes st)) (lv_touched st) (lv_replaced inner) (lv_appended inner)
    | None => push_node n st
    end
  | _ => push_node n st
  end.
Definition mergeLevel (existing incoming : list node) : level := fold_left merge_node incoming (Level existing [] 0 0).
Record reconciled := Reconciled { rc_css : string; rc_replaced : nat; rc_appended : nat }.
Definition reconcileCss (existingCss variantCss : string) : reconciled :=
  let merged := mergeLevel (parseStylesheet existingCss) (parseStylesheet variantCss) in
  Reconciled (serializeNodes (lv_nodes merged) "") (lv_replaced merged) (lv_appended merged).

(** ** Parameters *)

(** The index after the parenthesis that closes the [depth + 1] open ones. *)
Fixpoint closing_paren (depth : nat) (s : string) : nat :=
  match s with
  | EmptyString => 0
  | String c s =>
    S (if Ascii.eqb c "(" then closing_paren (S depth) s
       else if Ascii.eqb c ")" then match depth with O => 0 | S depth => closing_paren depth s end
       else closing_paren depth s)
  end.
Definition name_ends (s : string) : bool := match s with EmptyString => true | String c _ => Ascii.eqb c ")" || Ascii.eqb c "," end.
Fixpoint substitute (fuel : nat) (needle value text : string) : string :=
  match fuel with
  | O => text
  | S fuel =>
    match index_of needle text with
    | None => text
    | Some idx =>
      let after := sdrop (idx + slen needle) text in
      if name_ends after then stake idx text +:+ value +:+ substitute fuel needle value (sdrop (closing_paren 0 after) after)
      else stake (idx + slen needle) text +:+ substitute fuel needle value after
    end
  end.
Definition substituteParamVar (css id value : string) : string := substitute (S (slen css)) ("var(--p-" +:+ id) value css.

Definition normalizeToggleForVar (value : js) : string :=
  if (value === JBool true) || (value === JStr "true") || (value === int 1) || (value === JStr "1") || (value === JStr "on") then "1" else "0".
Definition isToggleOn (value : js) : bool := String.eqb (normalizeToggleForVar value) "1".

Definition attr_re (id : string) : re :=
  (lit "[data-p-" ⋅ lit id ⋅ ropt (lit "=" ⋅ RGroup 1 (RClass (fun c => Ascii.eqb c DQ || Ascii.eqb c "'")) ⋅ RGroup 2 (rstar_lazy rdot) ⋅ RBack 1) ⋅ lit "]")%re.
(** Whether an attribute test fails for the chosen value. *)
Definition dead_branch (kind chosenValue : js) (expected : option string) : bool :=
  if kind === JStr "steps" then match expected with None => false | Some e => negb (String.eqb e (to_str chosenValue)) end
  else match expected with
       | Some e => negb (String.eqb e "on") || negb (isToggleOn chosenValue)
       | None => negb (isToggleOn chosenValue)
       end.
Definition clean_selector (out : string) : string :=
  let out := re_replace_all (lit ":global(" ⋅ rstar rspace ⋅ lit ")")%re (fun _ => "") out in
  let out := re_replace_all (rplus rspace) (fun _ => " ") out in
  trim (re_replace (RBol ⋅ rstar rspace ⋅ RClass (one_of ">+~") ⋅ rstar rspace)%re (fun _ => "") out).
Definition stripParamSelector (selector id : string) (kind chosenValue : js) : option string :=
  if existsb (fun m => dead_branch kind chosenValue (group m 2)) (re_match_all (attr_re id) selector) then None else
  match clean_selector (re_replace_all (attr_re id) (fun _ => "") selector) with "" => None | out => Some out end.

(** The chosen values: the declared parameters, then what was sent for others. *)
Definition chosen_values (params : list js) (values : js) : jmap (js * js) :=
  let declared := foldl (fun chosen param =>
    if negb (truthy param) || negb (truthy param.["id"]) then chosen else
    let id := to_str param.["id"] in
    let has := truthy values && bool_decide (id ∈ keys (own_props values)) in
    map_set param.["id"] (param.["kind"], if has then values.[id] else param.["default"]) chosen) [] params in
  foldl (fun chosen kv => if map_has (JStr kv.1) chosen then chosen else map_set (JStr kv.1) (JStr "range", kv.2) chosen) declared
    (if truthy values then own_props values else []).
Definition sentinel_re : re :=
  (RGroup 1 (RBol ∥ lit ";") ⋅ rstar rspace ⋅ lit "--impeccable-variant-ready" ⋅ rstar rspace ⋅ lit ":" ⋅ rstar (RClass (none_of ";{}")))%re.
Definition bake_body (chosen : jmap (js * js)) (body : string) : string :=
  let out := foldl (fun out c => substituteParamVar out (to_str c.1) (if c.2.1 === JStr "toggle" then normalizeToggleForVar c.2.2 else to_str c.2.2)) body chosen in
  let out := re_replace_all sentinel_re (fun m => group_or "" m 1) out in
  let out := re_replace_all (lit ";" ⋅ rstar rspace ⋅ lit ";")%re (fun _ => ";") out in
  re_replace (RBol ⋅ rstar rspace ⋅ lit ";" ⋅ rstar rspace)%re (fun _ => "") out.

(** ** Lists of selectors *)

Record cursor := Cursor { cu_bracket : nat; cu_paren : nat; cu_quote : option ascii; cu_escaped : bool }.
Definition step_cursor (c : ascii) (cu : cursor) : cursor :=
  match cu_quote cu with
  | Some q =>
    if cu_escaped cu then Cursor (cu_bracket cu) (cu_paren cu) (Some q) false
    else if Ascii.eqb c "\" then Cursor (cu_bracket cu) (cu_paren cu) (Some q) true
    else Cursor (cu_bracket cu) (cu_paren cu) (if Ascii.eqb c q then None else Some q) false
  | None =>
    if Ascii.eqb c DQ || Ascii.eqb c "'" then Cursor (cu_bracket cu) (cu_paren cu) (Some c) false
    else if Ascii.eqb c "[" then Cursor (S (cu_bracket cu)) (cu_paren cu) None false
    else if Ascii.eqb c "]" then Cursor (cu_bracket cu - 1) (cu_paren cu) None false
    else if Ascii.eqb c "(" then Cursor (cu_bracket cu) (S (cu_paren cu)) None false
    else if Ascii.eqb c ")" then Cursor (cu_bracket cu) (cu_paren cu - 1) None false
    else cu
  end.
Definition at_top (cu : cursor) : bool := match cu_quote cu with None => (cu_bracket cu =? 0) && (cu_paren cu =? 0) | Some _ => false end.
Fixpoint selector_parts (cu : cursor) (s : string) : list string :=
  match s with
  | EmptyString => [""]
  | String c s =>
    if at_top cu && Ascii.eqb c "," then "" :: selector_parts cu s
    else match selector_parts (step_cursor c cu) s with w :: ws => String c w :: ws | [] => [String c ""] end
  end.
Definition splitSelectorList (prelude : string) : list string :=
  bfilter (fun s => negb (String.eqb s "")) (trim <$> selector_parts (Cursor 0 0 None false) prelude).

(** One selector through the chosen values; [None] when it tests a branch that was not chosen. *)
Definition bake_selector (chosen : jmap (js * js)) (selector : string) : option string :=
  foldl (fun acc c => match acc with
    | None => None
    | Some selector =>
      if negb ((c.2.1 === JStr "steps") || (c.2.1 === JStr "toggle")) || negb (includes ("data-p-" +:+ to_str c.1) selector) then Some selector
      else stripParamSelector selector (to_str c.1) c.2.1 c.2.2
    end) (Some selector) chosen.
Definition bake_rule (chosen : jmap (js * js)) (prelude body : string) : list node :=
  let kept := bfilter (fun s => negb (String.eqb s "")) (trim <$> omap (bake_selector chosen) (splitSelectorList prelude)) in
  let body := bake_body chosen body in
  match kept with
  | [] => []
  | _ => if String.eqb (trim body) "" then [] else [Rule (join ", " kept) body]
  end.
Fixpoint bake_node (chosen : jmap (js * js)) (n : node) : list node :=
  match n with
  | AtBlock name prelude children => match flat_map (bake_node chosen) children with [] => [] | kept => [AtBlock name prelude kept] end
  | Rule prelude body => bake_rule chosen prelude body
  | AtBody name prelude body => [AtBody name prelude (bake_body chosen body)]
  | _ => [n]
  end.
Definition bakeParamValues (css : string) (params : list js) (values : js) : string :=
  serializeNodes (flat_map (bake_node (chosen_values params values)) (parseStylesheet css)) "".

(** ** Pruning *)

(** [s.slice(i, j)] for integers. The positions a compiler reports are not negative. *)
Definition slice_index (z : Z) (s : string) : nat := if (z <? 0)%Z then Z.to_nat (Z.of_nat (slen s) + z) else Nat.min (Z.to_nat z) (slen s).
Definition zslice (i j : Z) (s : string) : string := slice (slice_index i s) (slice_index j s) s.

Definition integer_of (v : js) : option Z := match v with JNum (NInt z) => Some z | _ => None end.
(** The range of a warning about an unused selector. *)
Definition unused_range (w : js) : option (Z * Z) :=
  if negb (w.["code"] === JStr "css_unused_selector") then None else
  match integer_of w.["start"].["character"], integer_of w.["end"].["character"] with
  | Some i, Some j => Some (i, j)
  | _, _ => None
  end.
Section Compiler.
(** The warnings of the compiler for a source, or an error. *)
Context (compileFn : string -> result (list js)).

Definition collectUnusedSelectors (componentSource : string) : list string :=
  match compileFn componentSource with
  | Ok warnings => foldl (fun acc s => if existsb (String.eqb s) acc then acc else acc ++ [s]) []
                     ((fun r => trim (zslice r.1 r.2 componentSource)) <$> omap unused_range warnings)
  | Throw _ => []
  end.

(** Going back from the selector to the start of the list it is in; [i] is one more than that of the code. *)
Definition closes_style_tag (source : string) (i : nat) : bool :=
  match last_index_of "<style" (stake (i + slen "<style") source) with
  | Some styleOpen => bool_decide (index_of_from ">" source styleOpen = Some i)
  | None => false
  end.
Fixpoint prelude_start (source : string) (start i : nat) : nat :=
  match i with
  | O => start
  | S i =>
    match char_at source i with
    | Some ch =>
      if Ascii.eqb ch "}" || Ascii.eqb ch "{" || Ascii.eqb ch ";" then S i
      else if Ascii.eqb ch ">" then (if closes_style_tag source i then S i else prelude_start source start i)
      else if i =? 0 then 0 else prelude_start source start i
    | None => start
    end
  end.
Fixpoint leading (f : ascii -> bool) (s : string) : nat := match s with String c s => if f c then S (leading f s) else 0 | "" => 0 end%string.
Definition removeSelectorAt (source : string) (start stop : nat) : option (string * string) :=
  match index_of_from "{" source stop with
  | None => None
  | Some braceIdx =>
    let bodyEnd := scanBlockEnd source (S braceIdx) in
    let preludeStart := prelude_start source start start in
    let prelude := slice preludeStart braceIdx source in
    let selectors := splitSelectorList prelude in
    let target := trim (slice start stop source) in
    let kept := bfilter (fun s => negb (String.eqb s target)) selectors in
    if length kept =? length selectors then None else
    match kept with
    | [] =>
      let ruleEnd := Nat.min (slen source) (S bodyEnd) in
      let ruleEnd := ruleEnd + leading (Ascii.eqb NL) (sdrop ruleEnd source) in
      let ruleStart := preludeStart - leading (fun c => Ascii.eqb c " " || Ascii.eqb c (chr 9)) (srev (stake preludeStart source)) in
      Some (target, stake ruleStart source +:+ sdrop ruleEnd source)
    | _ => Some (target, stake preludeStart source +:+ stake (leading is_space prelude) prelude +:+ join ", " kept +:+ " " +:+ sdrop braceIdx source)
    end
  end.
Definition remove_all (ranges : list (Z * Z)) (source : string) (removed : list string) : string * list string :=
  foldl (fun acc r => match removeSelectorAt acc.1 (slice_index r.1 acc.1) (slice_index r.2 acc.1) with
                      | Some (selector, next) => (next, acc.2 ++ [selector])
                      | None => acc
                      end) (source, removed) ranges.
Definition later (a b : Z * Z) : bool := (b.1 <? a.1)%Z.
Fixpoint prune_passes (passes : nat) (skip : list string) (source : string) (removed : list string) : string * list string :=
  match passes with
  | O => (source, removed)
  | S passes =>
    match compileFn source with
    | Throw _ => (source, removed)
    | Ok warnings =>
      let unused := sort_by later (bfilter (fun r => negb (existsb (String.eqb (trim (zslice r.1 r.2 source))) skip)) (omap unused_range warnings)) in
      if bool_decide (unused = []) then (source, removed) else
      let next := remove_all unused source removed in
      if String.eqb next.1 source then (source, next.2) else prune_passes passes skip next.1 next.2
    end
  end.
Definition pruneUnusedSelectors (componentSource : string) (skipSelectors : list string) : string * list string :=
  prune_passes 3 skipSelectors componentSource [].
End Compiler.

(** ** The selectors of a sheet *)

Definition add_selectors (out : list string) (prelude : string) : list string :=
  foldl (fun out s => let k := normalizeSelector s in if existsb (String.eqb k) out then out else out ++ [k]) out (splitSelectorList prelude).
Fixpoint collect_node (out : list string) (n : node) : list string :=
  match n with
  | Rule prelude _ => add_selectors out prelude
  | AtBlock _ _ children => fold_left collect_node children out
  | _ => out
  end.
Definition collectSelectorsFromNodes (nodes : list node) (out : list string) : list string := fold_left collect_node nodes out.
Definition collectAllSelectors (css : string) : list string := collectSelectorsFromNodes (parseStylesheet css) [].

(** * Theorems *)

(** ** The parser returns *)

Lemma slen_trim_start s : slen (trim_start s) <= slen s.
Proof. induction s as [|c s IH]; simpl; [lia|]. destruct (is_space c); simpl; lia. Qed.
Lemma slen_slice i j s : slen (slice i j s) <= slen s - i.
Proof. unfold slice. rewrite slen_stake, slen_sdrop. lia. Qed.
Lemma block_node_ext f g prelude body : f body = g body -> block_node f prelude body = block_node g prelude body.
Proof. unfold block_node. by intros ->. Qed.

(** More fuel than the length of the text changes nothing. *)
Lemma parse_fuel f1 : forall f2 text, slen text < f1 -> slen text < f2 -> parse_nodes f1 text = parse_nodes f2 text.
Proof.
  induction f1 as [|f1 IH]; intros f2 text H1 H2; [lia|]. destruct f2 as [|f2]; [lia|]. cbn [parse_nodes]. pose proof (slen_trim_start text) as Ht.
  set (t := trim_start text) in *. destruct (String.eqb_spec t "") as [|Hne]; [done|].
  assert (0 < slen t) as Hl by (destruct t; [done|simpl; lia]).
  assert (forall n, 0 < n -> parse_nodes f1 (sdrop n t) = parse_nodes f2 (sdrop n t)) as Hd by (intros n Hn; apply IH; rewrite slen_sdrop; lia).
  destruct (starts_with "/*" t).
  - rewrite Hd; [done|]. destruct (index_of_from _ _ _); lia.
  - destruct (scanToBlockOrStatementEnd t) as [i|i|]; [| |done].
    + rewrite Hd by lia. f_equal. apply block_node_ext. pose proof (slen_slice (S i) (scanBlockEnd t (S i)) t). apply IH; lia.
    + by rewrite Hd by lia.
Qed.

(** ** Rules *)

Section NodeInd.
Variable P : node -> Prop.
Hypothesis Hrule : forall p b, P (Rule p b).
Hypothesis Hblock : forall name p children, Forall P children -> P (AtBlock name p children).
Hypothesis Hbody : forall name p b, P (AtBody name p b).
Hypothesis Hstatement : forall name p, P (AtStatement name p).
Hypothesis Hcomment : forall t, P (Comment t).
Fixpoint node_nested_ind (n : node) : P n :=
  match n with
  | Rule p b => Hrule p b
  | AtBlock name p children => Hblock name p children ((fix go l : Forall P l :=
      match l with [] => Forall_nil_2 _ | x :: l => Forall_cons_2 _ _ _ (node_nested_ind x) (go l) end) children)
  | AtBody name p b => Hbody name p b
  | AtStatement name p => Hstatement name p
  | Comment t => Hcomment t
  end.
End NodeInd.

(** The rules of a sheet: the blocks each is in, its selector, its body. *)
Notation rule := (list string * string * string)%type.
Definition within (key : string) (r : rule) : rule := (key :: r.1.1, r.1.2, r.2).
Fixpoint rules_of (n : node) : list rule :=
  match n with
  | Rule prelude body => [([], normalizeSelector prelude, trim body)]
  | AtBlock _ prelude children => within (normalizeSelector prelude) <$> flat_map rules_of children
  | _ => []
  end.
Definition sheet (l : list node) : list rule := flat_map rules_of l.
(** A rule stands in a sheet; some rule for the selector does. *)
Definition has (l : list node) (c : list string) (k x : string) : Prop := (c, k, x) ∈ sheet l.
#[local] Instance has_dec l c k x : Decision (has l c k x) := ltac:(unfold has; exact _).
Definition dom (l : list node) (c : list string) (k : string) : Prop := exists x, has l c k x.

Lemma has_nil c k x : ~ has [] c k x.
Proof. apply not_elem_of_nil. Qed.
Lemma has_cons n l c k x : has (n :: l) c k x <-> (c, k, x) ∈ rules_of n \/ has l c k x.
Proof. unfold has, sheet. simpl. apply elem_of_app. Qed.
Lemma has_one n c k x : has [n] c k x <-> (c, k, x) ∈ rules_of n.
Proof. rewrite has_cons. split; [intros [?|H]; [done|by apply has_nil in H]|by left]. Qed.
Lemma has_snoc l n c k x : has (l ++ [n]) c k x <-> has l c k x \/ (c, k, x) ∈ rules_of n.
Proof. unfold has, sheet. rewrite flat_map_app. simpl. by rewrite app_nil_r, elem_of_app. Qed.
Lemma rule_elem c k x p b : (c, k, x) ∈ rules_of (Rule p b) <-> c = [] /\ k = normalizeSelector p /\ x = trim b.
Proof. simpl. rewrite list_elem_of_singleton. naive_solver. Qed.
Lemma block_elem c k x name p children : (c, k, x) ∈ rules_of (AtBlock name p children) <-> exists c', c = normalizeSelector p :: c' /\ has children c' k x.
Proof.
  simpl. rewrite list_elem_of_fmap. split.
  - intros ([[c' k'] x'] & [= -> -> ->] & H). by exists c'.
  - intros (c' & -> & H). by exists (c', k, x).
Qed.

Lemma find_last_exists {A B} (f : A -> option B) p l : (forall x, is_Some (f x) <-> p x = true) -> is_Some (find_last f l) <-> existsb p l = true.
Proof.
  intros Hf. induction l as [|x l IH]; simpl; [split; [by intros []|done]|]. rewrite orb_true_iff, <-IH, <-Hf.
  destruct (find_last f l); [split; [by right|eauto]|]. split; [by left|intros [?|[]]]; done.
Qed.
Lemma insert_elem n l c k x : has (insert_rule n l) c k x <-> has l c k x \/ (c, k, x) ∈ rules_of n.
Proof.
  induction l as [|y l IH]; simpl; [rewrite has_cons; tauto|]. destruct (has_children y); rewrite !has_cons; [tauto|]. rewrite IH. tauto.
Qed.

(** A new body for the last rule of a selector. *)
Lemma update_rule key b l : existsb (is_rule key) l = true ->
  has (update_last (is_rule key) (with_body b) l) [] key (trim b)
  /\ forall c k x, (c, k) <> ([], key) -> has (update_last (is_rule key) (with_body b) l) c k x <-> has l c k x.
Proof.
  induction l as [|y l IH]; [done|]. simpl. destruct (existsb (is_rule key) l) eqn:E.
  - intros _. destruct (IH eq_refl) as [H1 H2]. split; [rewrite has_cons; by right|]. intros c k x Hk. rewrite !has_cons. by rewrite H2.
  - rewrite orb_false_r. intros Hy. rewrite Hy. destruct y as [p b0| | | |]; try done. apply String.eqb_eq in Hy. split.
    + rewrite has_cons. left. by apply rule_elem.
    + intros c k x Hk. rewrite !has_cons. simpl with_body. rewrite !rule_elem. split; (intros [(-> & -> & _)|H]; [by rewrite Hy in Hk|by right]).
Qed.
Lemma rule_there key l : existsb (is_rule key) l = true -> dom l [] key.
Proof.
  induction l as [|y l IH]; [done|]. simpl. intros [Hy|H]%orb_true_iff.
  - destruct y as [p b| | | |]; try done. apply String.eqb_eq in Hy. exists (trim b). rewrite has_cons. left. by apply rule_elem.
  - destruct (IH H) as [x Hx]. exists x. rewrite has_cons. by right.
Qed.

(** New children for the last block of a selector. *)
Lemma update_block key new old l : find_last (block_children key) l = Some old ->
  let updated := update_last (is_block key) (with_children new) l in
  (forall c k x, (forall c', c <> key :: c') -> has updated c k x <-> has l c k x)
  /\ (forall c k x, has new c k x -> has updated (key :: c) k x)
  /\ (forall c k x, has old c k x -> has l (key :: c) k x)
  /\ (forall c k x, has updated (key :: c) k x -> has l (key :: c) k x \/ has new c k x)
  /\ (forall c k x, has l (key :: c) k x -> has updated (key :: c) k x \/ has old c k x).
Proof.
  cbv zeta. revert old. induction l as [|y l IH]; intros old; [done|]. simpl. intros Hf.
  assert (is_Some (find_last (block_children key) l) <-> existsb (is_block key) l = true) as Hex.
  { apply find_last_exists. intros z. unfold block_children. destruct (is_block key z) eqn:Ez; [|split; [by intros []|done]]. by destruct z. }
  destruct (find_last (block_children key) l) as [o|].
  - injection Hf as ->. rewrite (proj1 Hex) by eauto. destruct (IH old eq_refl) as (H1 & H2 & H3 & H4 & H5). split_and!.
    + intros c k x Hc. rewrite !has_cons. by rewrite H1.
    + intros c k x Hn. rewrite has_cons. right. by apply H2.
    + intros c k x Ho. rewrite has_cons. right. by apply H3.
    + intros c k x. rewrite !has_cons. intros [?|[?|?]%H4]; auto.
    + intros c k x. rewrite !has_cons. intros [?|[?|?]%H5]; auto.
  - assert (existsb (is_block key) l = false) as -> by (apply not_true_iff_false; rewrite <-Hex; by intros []).
    unfold block_children in Hf. destruct (is_block key y) eqn:Ey; [|done]. destruct y as [|name p ch| | |]; try done. injection Hf as ->.
    apply String.eqb_eq in Ey. split_and!; intros c k x; rewrite ?has_cons; cbn [with_children]; rewrite ?block_elem, ?Ey.
    + intros Hc. split; (intros [(c' & -> & _)|H]; [by destruct (Hc c')|by right]).
    + intros Hn. left. by exists c.
    + intros Ho. left. by exists c.
    + intros [(c' & [= <-] & H)|H]; auto.
    + intros [(c' & [= <-] & H)|H]; auto.
Qed.

(** ** Text in white space *)

Definition inked (x : string) : Prop := match x with String c _ => is_space c = false | "" => True end%string.
Lemma trim_start_inked s : inked (trim_start s).
Proof. induction s as [|c s IH]; [done|]. simpl. destruct (is_space c) eqn:E; [done|]. simpl. by rewrite E. Qed.
Lemma trim_start_keeps x s : inked x -> includes x s = true -> includes x (trim_start s) = true.
Proof.
  intros Hx. destruct x as [|c x]; [intros _; apply includes_iff; by exists "", (trim_start s)|].
  induction s as [|d s IH]; [done|]. intros (a & b & E)%includes_iff. simpl. destruct (is_space d) eqn:Ed; [|apply includes_iff; by exists a, b].
  apply IH. destruct a as [|e a]; [injection E as -> _; by rewrite Hx in Ed|]. injection E as _ ->. apply includes_iff. by exists a, b.
Qed.
Lemma includes_srev x s : includes x s = true -> includes (srev x) (srev s) = true.
Proof. intros (a & b & ->)%includes_iff. apply includes_iff. exists (srev b), (srev a). by rewrite !srev_append, sapp_assoc. Qed.
Lemma trim_inked b : inked (trim b) /\ inked (srev (trim b)).
Proof.
  unfold trim, trim_end. split; [|rewrite srev_involutive; apply trim_start_inked].
  pose proof (trim_start_inked b) as H. destruct (trim_start b) as [|c t]; [done|]. simpl in H.
  destruct (trim_start_split (srev (String c t))) as (w & Hw & E). apply (f_equal srev) in E. rewrite srev_involutive, srev_append in E.
  destruct (srev (trim_start (srev (String c t)))) as [|d r]; [done|]. injection E as -> _. done.
Qed.
(** Trimming a text does not touch a trimmed part of it. *)
Lemma trim_keeps b s : includes (trim b) s = true -> includes (trim b) (trim s) = true.
Proof.
  destruct (trim_inked b) as [H1 H2]. intros H. unfold trim at 2, trim_end. rewrite <- (srev_involutive (trim b)).
  apply includes_srev, trim_start_keeps; [done|]. by apply includes_srev, trim_start_keeps.
Qed.
Lemma includes_self x : includes x x = true.
Proof. apply includes_iff. exists "", "". by rewrite sapp_nil_r. Qed.
Lemma includes_at a x b : includes x (a +:+ x +:+ b) = true.
Proof. apply includes_iff. by exists a, b. Qed.
Lemma includes_trans x y z : includes x y = true -> includes y z = true -> includes x z = true.
Proof. intros (a & b & ->)%includes_iff (c & d & ->)%includes_iff. apply includes_iff. exists (c +:+ a), (b +:+ d). by rewrite !sapp_assoc. Qed.

(** ** Printing *)

(** A rule as it is printed: the selector, and a body with every line of the rule's that is not blank. *)
Definition printed_rule (css k x : string) : Prop := exists prelude body, normalizeSelector prelude = k
  /\ includes (prelude +:+ " {" +:+ body +:+ "}") css = true
  /\ forall line, line ∈ split_lines x -> trim line <> "" -> includes (trim line) body = true.

Lemma joined_in sep l x : x ∈ l -> includes x (join sep l) = true.
Proof.
  induction l as [|y l IH]; [by intros ?%elem_of_nil|]. intros [->|H]%elem_of_cons.
  - destruct l; [apply includes_self|]. cbn [join]. apply includes_iff. by exists "", (sep +:+ join sep (s :: l)).
  - destruct l as [|z l]; [by apply elem_of_nil in H|]. apply IH in H as (a & b & E)%includes_iff. change (join sep (y :: z :: l)) with (y +:+ sep +:+ join sep (z :: l)).
    rewrite E. apply includes_iff. exists (y +:+ sep +:+ a), b. by rewrite !sapp_assoc.
Qed.
Lemma formatBody_keeps body indent line : line ∈ split_lines (trim body) -> trim line <> "" -> includes (trim line) (formatBody body indent) = true.
Proof.
  intros Hl Hne. unfold formatBody. destruct (String.eqb_spec (trim body) "") as [E|_].
  { rewrite E in Hl. apply list_elem_of_singleton in Hl as ->. done. }
  set (lines := bfilter _ _). assert (trim line ∈ lines) as Hin.
  { apply bfilter_elem_of. split; [by apply list_elem_of_fmap_2|]. by apply negb_true_iff, String.eqb_neq. }
  assert (includes (trim line) (s_nl +:+ join s_nl ((fun l => indent +:+ "  " +:+ l) <$> lines) +:+ s_nl +:+ indent) = true) as Hmany.
  { eapply includes_trans; [|apply includes_at]. eapply includes_trans; [|apply joined_in, (list_elem_of_fmap_2 _ _ _ Hin)].
    apply includes_iff. exists (indent +:+ "  "), "". by rewrite sapp_nil_r, !sapp_assoc. }
  destruct lines as [|l [|l' ls]]; [done| |done]. apply list_elem_of_singleton in Hin as ->. destruct (slen l <? 60); [by apply (includes_at " " l " ")|].
  apply includes_iff. exists (s_nl +:+ indent +:+ "  "), (s_nl +:+ indent). by rewrite !sapp_assoc.
Qed.
Lemma printed_more css css' k x : printed_rule css k x -> includes css css' = true -> printed_rule css' k x.
Proof. intros (p & b & Hk & Hi & Hl) H. exists p, b. split; [done|]. split; [by eapply includes_trans|done]. Qed.
Lemma printed_part parts part k x : printed_rule part k x -> part ∈ parts -> printed_rule (join s_nl parts) k x.
Proof. intros H Hin. eapply printed_more; [done|by apply joined_in]. Qed.
Lemma node_printed n : forall indent c k x, (c, k, x) ∈ rules_of n -> exists part, part ∈ serialize_node indent n /\ printed_rule part k x.
Proof.
  induction n as [p b|name p children IH|name p b|name p|t] using node_nested_ind; intros indent c k x H; try by apply elem_of_nil in H.
  - apply rule_elem in H as (-> & -> & ->). cbn [serialize_node]. eexists. split; [by apply list_elem_of_singleton|].
    exists p, (formatBody b indent). split; [done|]. split; [|apply formatBody_keeps].
    apply includes_iff. exists indent, "". by rewrite sapp_nil_r.
  - apply block_elem in H as (c' & -> & H). cbn [serialize_node].
    exists (join s_nl (flat_map (serialize_node (indent +:+ "  ")) children)). split; [apply list_elem_of_further, list_elem_of_here|].
    unfold has, sheet in H. apply list_elem_of_In, in_flat_map in H as (n & Hn & H). rewrite Forall_forall in IH.
    apply list_elem_of_In in Hn as Hn'. destruct (IH n Hn' (indent +:+ "  ") c' k x) as (part & Hp & Hpr); [by apply list_elem_of_In|].
    eapply printed_part; [done|]. apply list_elem_of_In, in_flat_map. exists n. split; [done|by apply list_elem_of_In].
Qed.
Lemma sheet_printed l indent c k x : has l c k x -> printed_rule (serializeNodes l indent) k x.
Proof.
  unfold has, sheet. intros (n & Hn & H%list_elem_of_In)%list_elem_of_In%in_flat_map. apply (node_printed n indent) in H as (part & Hp & Hpr).
  eapply printed_part; [done|]. apply list_elem_of_In, in_flat_map. exists n. split; [done|by apply list_elem_of_In].
Qed.

(** ** Merging *)

Definition once (l : list node) : Prop := NoDup ((fun r => r.1) <$> sheet l).
Lemma once_app n l : once (n :: l) -> once [n] /\ once l /\ forall c k, dom [n] c k -> ~ dom l c k.
Proof.
  unfold once, sheet. simpl. rewrite app_nil_r, fmap_app. intros (H1 & H2 & H3)%NoDup_app. split; [done|]. split; [done|].
  intros c k [x Hx] [y Hy]. apply (H2 (c, k)); apply list_elem_of_fmap; [exists (c, k, x)|exists (c, k, y)]; (split; [done|]); [by apply has_one in Hx|done].
Qed.
Lemma once_block name p ch : once [AtBlock name p ch] -> once ch.
Proof.
  unfold once. intros H. assert (forall l : list rule, NoDup ((fun r => r.1) <$> (within (normalizeSelector p) <$> l)) -> NoDup ((fun r => r.1) <$> l)) as Hw.
  { induction l as [|r l IH]; intros Hl; [constructor|]. apply NoDup_cons in Hl as [Hr Hl]. apply NoDup_cons. split; [|by apply IH].
    intros Hin. apply Hr. apply list_elem_of_fmap in Hin as (r' & E & Hin). apply list_elem_of_fmap. exists (within (normalizeSelector p) r'). split; [unfold within; simpl; by rewrite E|by apply list_elem_of_fmap_2]. }
  apply Hw. unfold sheet in H. simpl in H. by rewrite app_nil_r in H.
Qed.

(** The blocks of a sheet, each by the blocks it is in; a sheet that has none twice. *)
Fixpoint blocks_of (n : node) : list (list string) :=
  match n with AtBlock _ p ch => [normalizeSelector p] :: (cons (normalizeSelector p) <$> flat_map blocks_of ch) | _ => [] end.
Definition blocks_once (l : list node) : Prop := NoDup (flat_map blocks_of l).

Lemma block_head n key c k x : (key :: c, k, x) ∈ rules_of n -> [key] ∈ blocks_of n.
Proof.
  destruct n as [p b|name p ch|name p b|name p|tx]; try by intros ?%elem_of_nil.
  - by intros (? & _)%rule_elem.
  - intros (c' & [= -> _] & _)%block_elem. apply list_elem_of_here.
Qed.
Lemma blocks_app n l : blocks_once (n :: l) -> blocks_once [n] /\ blocks_once l /\
  forall key c k c' k', dom [n] (key :: c) k -> ~ dom l (key :: c') k'.
Proof.
  unfold blocks_once. cbn [flat_map]. rewrite app_nil_r. intros (H1 & H2 & H3)%NoDup_app. split; [done|]. split; [done|].
  intros key c k c' k' [x Hx%has_one%block_head] [y Hy]. unfold has, sheet in Hy.
  apply list_elem_of_In, in_flat_map in Hy as (m & Hm & Hy%list_elem_of_In%block_head). apply (H2 [key]); [done|].
  apply list_elem_of_In, in_flat_map. exists m. split; [done|by apply list_elem_of_In].
Qed.
Lemma blocks_block name p ch : blocks_once [AtBlock name p ch] -> blocks_once ch.
Proof. unfold blocks_once. cbn [flat_map blocks_of]. rewrite app_nil_r. intros [_ H]%NoDup_cons. by apply NoDup_fmap_1 in H. Qed.

(** What is kept of a rule of the variant: its body is part of that of a rule there; outside all blocks, of the rule a
    further one of the same selector extends. *)
Definition extends (l : list node) (k x : string) : Prop := exists b, find_last (rule_body k) l = Some b /\ includes x (trim b) = true.
Definition kept (st : level) (c : list string) (k x : string) : Prop :=
  match c with
  | [] => k ∈ lv_touched st /\ extends (lv_nodes st) k x
  | _ => exists y, has (lv_nodes st) c k y /\ includes x y = true
  end.

(** What merging the nodes [l] makes of a level. *)
Definition merges (l : list node) (st st' : level) : Prop :=
  (forall c k, dom (lv_nodes st') c k <-> dom (lv_nodes st) c k \/ dom l c k)
  /\ (forall c k x, ~ dom l c k -> has (lv_nodes st') c k x <-> has (lv_nodes st) c k x)
  /\ (forall k, k ∈ lv_touched st' -> k ∈ lv_touched st \/ dom l [] k)
  /\ (once l -> (forall k, dom l [] k -> k ∉ lv_touched st) -> forall c k x, has l c k x -> has (lv_nodes st') c k x).
(** What it keeps. *)
Definition keeps_rules (l : list node) (st st' : level) : Prop :=
  (forall k x, kept st [] k x -> kept st' [] k x) /\ (blocks_once l -> forall c k x, has l c k x -> kept st' c k x).

Lemma merges_fold l : Forall (fun n => forall st, merges [n] st (merge_node st n)) l -> forall st, merges l st (fold_left merge_node l st).
Proof.
  induction 1 as [|n l Hn Hl IH]; intros st; simpl.
  - split_and!; [intros c k; split; [by left|intros [?|[x Hx]]; [done|by apply has_nil in Hx]]|done|by left|intros _ _ c k x Hx; by apply has_nil in Hx].
  - destruct (Hn st) as (A1 & B1 & T1 & C1). destruct (IH (merge_node st n)) as (A2 & B2 & T2 & C2). clear IH Hn.
    assert (forall c k, dom (n :: l) c k <-> dom [n] c k \/ dom l c k) as Hd.
    { intros c k. split; [intros [x Hx]; apply has_cons in Hx as [Hx|Hx]; [left; exists x; by apply has_one|right; by exists x]|].
      intros [[x Hx]|[x Hx]]; exists x; apply has_cons; [left; by apply has_one|by right]. }
    split_and!.
    + intros c k. rewrite A2, A1, Hd. tauto.
    + intros c k x Hk. rewrite Hd in Hk. rewrite B2, B1; tauto.
    + intros k Hk. apply T2 in Hk as [Hk|Hk]; [apply T1 in Hk as [?|?]|]; [by left|right; apply Hd; by left|right; apply Hd; by right].
    + intros Ho Ht c k x Hx. apply once_app in Ho as (O1 & O2 & O3). apply has_cons in Hx as [Hx|Hx].
      * apply B2; [apply O3; exists x; by apply has_one|]. apply C1; [done| |by apply has_one]. intros k' Hk'. apply Ht, Hd. by left.
      * apply C2; [done| |done]. intros k' Hk' Hin. apply T1 in Hin as [Hin|Hin]; [apply (Ht k'); [apply Hd; by right|done]|by apply (O3 [] k')].
Qed.

Lemma merges_push n st : merges [n] st (push_node n st).
Proof.
  unfold push_node. split_and!; cbn [lv_nodes lv_touched].
  - intros c k. unfold dom. setoid_rewrite has_snoc. setoid_rewrite has_one. naive_solver.
  - intros c k x Hk. rewrite has_snoc. split; [intros [?|Hx]; [done|]|by left]. exfalso. apply Hk. exists x. by apply has_one.
  - by left.
  - intros _ _ c k x Hx. rewrite has_snoc. right. by apply has_one.
Qed.

Lemma find_last_has key l old : find_last (rule_body key) l = Some old -> has l [] key (trim old).
Proof.
  induction l as [|y l IH]; [done|]. simpl. destruct (find_last (rule_body key) l) as [o|]; intros H; rewrite has_cons; [right; by apply IH|left].
  unfold rule_body in H. destruct (is_rule key y) eqn:Ey; [|done]. destruct y as [p b| | | |]; try done. injection H as ->. apply String.eqb_eq in Ey. by apply rule_elem.
Qed.
Lemma merges_rule p b st : merges [Rule p b] st (merge_node st (Rule p b)).
Proof.
  simpl. set (key := normalizeSelector p). unfold merge_rule.
  assert (forall c k, dom [Rule p b] c k <-> c = [] /\ k = key) as Hd.
  { intros c k. split; [intros [x Hx]; apply has_one, rule_elem in Hx; naive_solver|intros [-> ->]; exists (trim b); by apply has_one, rule_elem]. }
  assert (is_Some (find_last (rule_body key) (lv_nodes st)) <-> existsb (is_rule key) (lv_nodes st) = true) as Hex.
  { apply find_last_exists. intros z. unfold rule_body. destruct (is_rule key z) eqn:Ez; [|split; [by intros []|done]]. by destruct z. }
  assert (forall c k x, has [Rule p b] c k x -> c = [] /\ k = key /\ x = trim b) as Hh by (intros c k x Hx; by apply has_one, rule_elem in Hx).
  destruct (find_last (rule_body key) (lv_nodes st)) as [old|] eqn:Ef.
  - assert (existsb (is_rule key) (lv_nodes st) = true) as He by (apply Hex; eauto).
    assert (forall b' touched r a, (forall k, k ∈ touched -> k ∈ lv_touched st \/ k = key) ->
      ((forall k, dom [Rule p b] [] k -> k ∉ lv_touched st) -> trim b' = trim b) ->
      merges [Rule p b] st (Level (update_last (is_rule key) (with_body b') (lv_nodes st)) touched r a)) as Hupd.
    { intros b' touched r a Ht Hb. destruct (update_rule key b' (lv_nodes st) He) as [U1 U2]. split_and!; cbn [lv_nodes lv_touched].
      - intros c k. rewrite Hd. destruct (decide ((c, k) = ([], key))) as [[= -> ->]|Hne].
        + split; [auto|]. intros _. by exists (trim b').
        + unfold dom. setoid_rewrite U2; [|done]. naive_solver.
      - intros c k x Hk. apply U2. intros [= -> ->]. by apply Hk, Hd.
      - intros k Hk. rewrite Hd. destruct (Ht k Hk); auto.
      - intros _ Hto c k x (-> & -> & ->)%Hh. rewrite <-(Hb Hto). done. }
    destruct (existsb (String.eqb key) (lv_touched st)) eqn:Et.
    + apply Hupd; [by left|]. intros Hto. exfalso. apply (Hto key); [by apply Hd|]. apply existsb_exists in Et as (k & Hk & ->%String.eqb_eq). by apply list_elem_of_In.
    + destruct (String.eqb_spec (trim old) (trim b)) as [Eb|Eb]; [|apply Hupd; [intros k [->|Hk]%elem_of_cons; auto|done]].
      pose proof (find_last_has key (lv_nodes st) old Ef) as Hold. rewrite Eb in Hold.
      split_and!; cbn [lv_nodes lv_touched].
      * intros c k. rewrite Hd. split; [by left|]. intros [?|[-> ->]]; [done|by exists (trim b)].
      * done.
      * intros k [->|Hk]%elem_of_cons; [right; by apply Hd|by left].
      * intros _ _ c k x (-> & -> & ->)%Hh. done.
  - split_and!; cbn [lv_nodes lv_touched].
    + intros c k. unfold dom. setoid_rewrite insert_elem. setoid_rewrite has_one. naive_solver.
    + intros c k x Hk. rewrite insert_elem. split; [intros [?|Hx]; [done|]|by left]. exfalso. apply Hk. exists x. by apply has_one.
    + intros k [->|Hk]%elem_of_cons; [right; by apply Hd|by left].
    + intros _ _ c k x Hx. rewrite insert_elem. right. by apply has_one.
Qed.

Lemma merges_block name p children st : (forall st, merges children st (fold_left merge_node children st)) ->
  merges [AtBlock name p children] st (merge_node st (AtBlock name p children)).
Proof.
  intros Hc. cbn [merge_node]. set (key := normalizeSelector p). destruct (find_last (block_children key) (lv_nodes st)) as [old|] eqn:Ef; [|apply merges_push].
  set (inner := fold_left merge_node children (Level old [] (lv_replaced st) (lv_appended st))).
  destruct (Hc (Level old [] (lv_replaced st) (lv_appended st))) as (A & B & T & C). fold inner in A, B, T, C. cbn [lv_nodes lv_touched] in A, B, T, C.
  destruct (update_block key (lv_nodes inner) old (lv_nodes st) Ef) as (U1 & U2 & U3 & U4 & U5).
  assert (forall c k x, has [AtBlock name p children] c k x <-> exists c', c = key :: c' /\ has children c' k x) as Hh by (intros c k x; by rewrite has_one, block_elem).
  assert (forall c k, dom [AtBlock name p children] (key :: c) k <-> dom children c k) as Hd.
  { intros c k. unfold dom. setoid_rewrite Hh. split; [intros (x & c' & [= <-] & H); eauto|intros [x H]; eauto]. }
  assert (forall c : list string, (exists c', c = key :: c') \/ forall c', c <> key :: c') as Hcase.
  { intros [|k c]; [right; done|]. destruct (decide (k = key)) as [->|Hne]; [left; eauto|right; intros c' [= -> _]; done]. }
  split_and!; cbn [lv_nodes lv_touched].
  - intros c k. destruct (Hcase c) as [[c' ->]|Hne].
    + rewrite Hd. split.
      * intros [x [Hx|Hx]%U4]; [left; by exists x|]. assert (dom (lv_nodes inner) c' k) as Hin by by exists x. apply A in Hin as [[y Hy]|Hy]; [left; exists y; by apply U3|by right].
      * intros [[x [Hx|Hx]%U5]|Hx]; [by exists x| |].
        -- assert (dom (lv_nodes inner) c' k) as [y Hy] by (apply A; left; by exists x). exists y. by apply U2.
        -- assert (dom (lv_nodes inner) c' k) as [y Hy] by (apply A; by right). exists y. by apply U2.
    + split; [intros [x Hx]; left; exists x; by apply U1|]. intros [[x Hx]|[x Hx]]; [exists x; by apply U1|]. apply Hh in Hx as (c' & -> & _). by destruct (Hne c').
  - intros c k x Hk. destruct (Hcase c) as [[c' ->]|Hne]; [|by apply U1]. rewrite Hd in Hk. split.
    + intros [Hx|Hx]%U4; [done|]. apply U3. by apply B.
    + intros [Hx|Hx]%U5; [done|]. apply U2. by apply B.
  - by left.
  - intros Ho _ c k x Hx. apply Hh in Hx as (c' & -> & Hx). apply U2. apply C; [by apply once_block in Ho| |done]. intros k' _. apply not_elem_of_nil.
Qed.
Lemma merges_node n : forall st, merges [n] st (merge_node st n).
Proof.
  induction n as [p b|name p children IH|name p b|name p|t] using node_nested_ind; intros st.
  - apply merges_rule.
  - apply merges_block. intros st'. by apply merges_fold.
  - apply merges_push.
  - apply merges_push.
  - simpl. split_and!; [|done|by left|intros _ _ c k x Hx; apply has_one in Hx; by apply not_elem_of_nil in Hx].
    intros c k. split; [by left|]. intros [?|[x Hx]]; [done|]. apply has_one in Hx. by apply not_elem_of_nil in Hx.
Qed.

(** ** Rules with the same selector *)

Lemma find_last_other {A B} (f : A -> option B) (p : A -> bool) (g : A -> A) l :
  (forall a, p a = true -> f (g a) = f a) -> find_last f (update_last p g l) = find_last f l.
Proof.
  intros Hf. induction l as [|y l IH]; [done|]. cbn [update_last]. destruct (existsb p l); [cbn [find_last]; by rewrite IH|].
  destruct (p y) eqn:E; [|done]. cbn [find_last]. by rewrite Hf.
Qed.
Lemma find_last_updated key b l : existsb (is_rule key) l = true -> find_last (rule_body key) (update_last (is_rule key) (with_body b) l) = Some b.
Proof.
  assert (forall m, existsb (is_rule key) m = false -> find_last (rule_body key) m = None) as Hno.
  { induction m as [|y m IH]; [done|]. cbn [existsb find_last]. intros [Hy Hl]%orb_false_iff. rewrite IH by done. unfold rule_body. by rewrite Hy. }
  induction l as [|y l IH]; [done|]. cbn [existsb update_last]. destruct (existsb (is_rule key) l) eqn:E.
  - intros _. cbn [find_last]. by rewrite IH.
  - rewrite orb_false_r. intros Hy. rewrite Hy. cbn [find_last]. rewrite Hno by done. destruct y as [p b0| | | |]; try done.
    cbn [with_body]. unfold rule_body. cbn [is_rule] in *. by rewrite Hy.
Qed.
Lemma find_last_snoc {A B} (f : A -> option B) l x : f x = None -> find_last f (l ++ [x]) = find_last f l.
Proof. intros Hx. induction l as [|y l IH]; cbn [app find_last]; [by rewrite Hx|by rewrite IH]. Qed.
Lemma find_last_insert {B} (f : node -> option B) n l :
  f n = None \/ find_last f l = None -> find_last f (insert_rule n l) = match f n with Some b => Some b | None => find_last f l end.
Proof.
  induction l as [|y l IH]; cbn [insert_rule find_last]; [by destruct (f n)|]. intros Hn. destruct (has_children y); cbn [find_last].
  - destruct Hn as [-> | Hn]; [by destruct (find_last f l), (f y)|]. rewrite Hn. by destruct (f n).
  - destruct (find_last f l) as [b|] eqn:E.
    + destruct Hn as [Hn|]; [|done]. rewrite IH by (by left). by rewrite Hn.
    + rewrite IH by (by right). destruct (f n) eqn:Ef; [done|]. done.
Qed.

Lemma rule_body_other key k n : k <> key -> is_rule key n = true -> rule_body k n = None.
Proof.
  intros Hne Hr. destruct n as [p b| | | |]; try done. cbn [is_rule] in Hr. apply String.eqb_eq in Hr. unfold rule_body. cbn [is_rule].
  rewrite Hr. by destruct (String.eqb_spec key k) as [->|].
Qed.
Lemma with_body_rule key b n : is_rule key (with_body b n) = is_rule key n.
Proof. by destruct n. Qed.
Lemma updated_other key k b l : k <> key -> find_last (rule_body k) (update_last (is_rule key) (with_body b) l) = find_last (rule_body k) l.
Proof. intros Hne. apply find_last_other. intros n Hn. by rewrite !(rule_body_other key k) by (by rewrite ?with_body_rule). Qed.

Lemma keeps_same l st : (forall c k x, ~ has l c k x) -> keeps_rules l st st.
Proof. intros H. split; [done|]. intros _ c k x Hx. by apply H in Hx. Qed.
Lemma kept_here st c k x : has (lv_nodes st) c k x -> c <> [] -> kept st c k x.
Proof. destruct c; [done|]. intros Hx _. exists x. split; [done|apply includes_self]. Qed.
Lemma kept_has st c k x : kept st c k x -> exists y, has (lv_nodes st) c k y /\ includes x y = true.
Proof. destruct c; [|done]. intros (_ & b & Hb & Hx). exists (trim b). split; [by apply find_last_has|done]. Qed.

Lemma keeps_push n st : (forall k, rule_body k n = None) -> keeps_rules [n] st (push_node n st).
Proof.
  intros Hn. split.
  - intros k x (Hk & b & Hb & Hx). split; [done|]. exists b. split; [|done]. cbn [push_node lv_nodes]. by rewrite find_last_snoc.
  - intros _ c k x Hx. apply kept_here; [cbn [push_node lv_nodes]; rewrite has_snoc; right; by apply has_one|].
    intros ->. apply has_one in Hx. destruct n as [p b|name p ch|name p b|name p|tx]; try by apply elem_of_nil in Hx.
    + apply rule_elem in Hx as (_ & -> & ->). specialize (Hn (normalizeSelector p)). unfold rule_body in Hn. cbn [is_rule] in Hn. by rewrite String.eqb_refl in Hn.
    + by apply block_elem in Hx as (c' & ? & _).
Qed.

Lemma touched_in key l : existsb (String.eqb key) l = true <-> key ∈ l.
Proof.
  rewrite existsb_exists. split; [intros (k & Hk & ->%String.eqb_eq); by apply list_elem_of_In|]. intros H. exists key. split; [by apply list_elem_of_In|apply String.eqb_refl].
Qed.
Lemma keeps_rule p b st : keeps_rules [Rule p b] st (merge_node st (Rule p b)).
Proof.
  cbn [merge_node]. set (key := normalizeSelector p). unfold merge_rule.
  assert (forall st', key ∈ lv_touched st' -> (exists b', find_last (rule_body key) (lv_nodes st') = Some b' /\ includes (trim b) (trim b') = true
      /\ forall x, kept st [] key x -> includes x (trim b') = true) ->
    (forall k, k ∈ lv_touched st -> k ∈ lv_touched st') ->
    (forall k, k <> key -> find_last (rule_body k) (lv_nodes st') = find_last (rule_body k) (lv_nodes st)) -> keeps_rules [Rule p b] st st') as H.
  { intros st' Ht (b' & Hb' & Hb & Hold) Hmore Hoth. split.
    - intros k x Hk. pose proof Hk as (Hk1 & b0 & Hb0 & Hx). split; [by apply Hmore|]. destruct (decide (k = key)) as [->|Hne].
      + exists b'. split; [done|]. by apply Hold.
      + exists b0. by rewrite Hoth.
    - intros _ c k x (-> & -> & ->)%has_one%rule_elem. split; [done|]. by exists b'. }
  destruct (find_last (rule_body key) (lv_nodes st)) as [old|] eqn:Ef.
  - assert (existsb (is_rule key) (lv_nodes st) = true) as He.
    { rewrite <- (find_last_exists (rule_body key)); [by rewrite Ef|]. intros z. unfold rule_body. destruct (is_rule key z) eqn:Ez; [|split; [by intros []|done]]. by destruct z. }
    assert (forall x, kept st [] key x -> includes x (trim old) = true) as Hwas by (intros x (_ & b0 & Hb0 & Hx); rewrite Ef in Hb0; by injection Hb0 as <-).
    destruct (existsb (String.eqb key) (lv_touched st)) eqn:Et.
    + apply touched_in in Et. apply H; cbn [lv_nodes lv_touched]; [done| |done|intros k Hne; by apply updated_other].
      eexists. split; [by apply find_last_updated|]. split.
      * apply trim_keeps. apply includes_iff. exists (trim old +:+ s_nl), "". by rewrite sapp_nil_r, sapp_assoc.
      * intros x Hx%Hwas. eapply includes_trans; [done|]. apply trim_keeps. apply includes_iff. by exists "", (s_nl +:+ trim b).
    + assert (forall x, kept st [] key x -> False) as Hnew by (intros x [Hk _]; apply touched_in in Hk; by rewrite Et in Hk).
      destruct (String.eqb_spec (trim old) (trim b)) as [Eb|Eb].
      * apply H; cbn [lv_nodes lv_touched]; [apply list_elem_of_here| |intros k; by apply list_elem_of_further|done].
        exists old. split; [done|]. rewrite Eb. split; [apply includes_self|]. by intros x ?%Hnew.
      * apply H; cbn [lv_nodes lv_touched]; [apply list_elem_of_here| |intros k; by apply list_elem_of_further|intros k Hne; by apply updated_other].
        exists b. split; [by apply find_last_updated|]. split; [apply includes_self|]. by intros x ?%Hnew.
  - assert (rule_body key (Rule p b) = Some b) as Hb by (unfold rule_body; cbn [is_rule]; unfold key; by rewrite String.eqb_refl).
    apply H; cbn [lv_nodes lv_touched]; [apply list_elem_of_here| |intros k; by apply list_elem_of_further|].
    + exists b. rewrite find_last_insert by (by right). rewrite Hb. split; [done|]. split; [apply includes_self|].
      intros x (_ & b0 & Hb0 & _). by rewrite Ef in Hb0.
    + intros k Hne. assert (rule_body k (Rule p b) = None) as Hn by (apply (rule_body_other key); [done|]; cbn [is_rule]; apply String.eqb_refl).
      rewrite find_last_insert by (by left). by rewrite Hn.
Qed.

Lemma keeps_block name p children st : (forall st, keeps_rules children st (fold_left merge_node children st)) ->
  keeps_rules [AtBlock name p children] st (merge_node st (AtBlock name p children)).
Proof.
  intros Hc. cbn [merge_node]. set (key := normalizeSelector p). destruct (find_last (block_children key) (lv_nodes st)) as [old|] eqn:Ef; [|by apply keeps_push].
  set (inner := fold_left merge_node children (Level old [] (lv_replaced st) (lv_appended st))).
  destruct (Hc (Level old [] (lv_replaced st) (lv_appended st))) as [_ Hk]. fold inner in Hk.
  destruct (update_block key (lv_nodes inner) old (lv_nodes st) Ef) as (_ & U2 & _). split.
  - intros k x (Ht & b & Hb & Hx). split; [done|]. exists b. split; [|done]. cbn [lv_nodes]. rewrite find_last_other; [done|].
    intros n Hn. by destruct n.
  - intros Ho c k x (c' & -> & Hx)%has_one%block_elem. cbn [kept lv_nodes].
    apply blocks_block in Ho. destruct (kept_has inner c' k x (Hk Ho c' k x Hx)) as (y & Hy & Hi). exists y. split; [by apply U2|done].
Qed.
Lemma keeps_fold l : Forall (fun n => forall st, keeps_rules [n] st (merge_node st n)) l -> forall st, keeps_rules l st (fold_left merge_node l st).
Proof.
  induction 1 as [|n l Hn Hl IH]; intros st; simpl; [apply keeps_same; intros c k x; apply has_nil|].
  destruct (Hn st) as [P1 K1]. destruct (IH (merge_node st n)) as [P2 K2]. split; [by intros k x ?%P1%P2|].
  intros (O1 & O2 & O3)%blocks_app c k x [Hx|Hx]%has_cons; [|by apply K2]. apply has_one in Hx as Hx'. pose proof (K1 O1 c k x Hx') as Hkept.
  destruct c as [|key c]; [by apply P2|]. destruct Hkept as (y & Hy & Hi). exists y. split; [|done].
  destruct (merges_fold l) with (st := merge_node st n) as (_ & B & _); [apply Forall_forall; intros m _; apply merges_node|].
  apply B; [|done]. apply (O3 key c k). by exists x.
Qed.
Lemma keeps_node n : forall st, keeps_rules [n] st (merge_node st n).
Proof.
  induction n as [p b|name p children IH|name p b|name p|t] using node_nested_ind; intros st.
  - apply keeps_rule.
  - apply keeps_block. intros st'. by apply keeps_fold.
  - by apply keeps_push.
  - by apply keeps_push.
  - apply keeps_same. intros c k x Hx%has_one. by apply elem_of_nil in Hx.
Qed.


(** ** Examples *)

Definition demo_component : string := ".card { border: 1px } @media (max-width: 600px) { .card { padding: 0 } }".
Definition demo_variant : string := ".card { border: none } .note { margin: 0 } .card { color: red }".

(** The text that is printed: the new rule stands before the block. *)
Example printed : rc_css (reconcileCss demo_component demo_variant) =
  ".card {" +:+ s_nl +:+ "  border: none" +:+ s_nl +:+ "  color: red" +:+ s_nl +:+ "}" +:+ s_nl +:+ ".note { margin: 0 }" +:+ s_nl +:+ "@media (max-width: 600px) {" +:+ s_nl +:+ "  .card { padding: 0 }" +:+ s_nl +:+ "}".
Proof. by vm_compute. Qed.
(** Two blocks of the variant with the same condition: the second replaces what the first put there. *)
Example second_block_clobbers :
  has (lv_nodes (mergeLevel [] (parseStylesheet "@media print { .a { x: 1 } } @media print { .a { y: 2 } }"))) ["@media print"] ".a" "y: 2"
  /\ ~ includes "x: 1" (rc_css (reconcileCss "" "@media print { .a { x: 1 } } @media print { .a { y: 2 } }")) = true.
Proof. split; [apply (bool_decide_unpack _); vm_compute; exact I|by vm_compute]. Qed.
(** A block that holds no rules is appended again each time. *)
Example keyframes_doubled :
  let css := "@keyframes spin { to { rotate: 1turn } }" in rc_appended (reconcileCss css css) = 1.
Proof. by vm_compute. Qed.
(** Text that no rule follows is not printed, and bodies are laid out afresh. *)
Example not_kept : rc_css (reconcileCss (".a{x:1}" +:+ s_nl +:+ s_nl +:+ ".b{y:2} $rest") "") = ".a { x:1 }" +:+ s_nl +:+ ".b { y:2 }".
Proof. by vm_compute. Qed.
(** A toggle that is off, a step that was not chosen, and the value of a range. *)
Example baked :
  bakeParamValues ".card[data-p-shadow] { x: 1 } .card[data-p-size='big'] { x: 2 } .card[data-p-size='small'] { gap: var(--p-gap, calc(1px + 2px)) }"
    [JObj [("id", JStr "shadow"); ("kind", JStr "toggle"); ("default", JBool false)]; JObj [("id", JStr "size"); ("kind", JStr "steps"); ("default", JStr "small")]]
    (JObj [("gap", JStr "4px")]) = ".card { gap: 4px }".
Proof. by vm_compute. Qed.
Example removed :
  removeSelectorAt "<style>.a > .b, .c { x: 1 }</style>" 16 18 = Some (".c", "<style>.a > .b { x: 1 }</style>").
Proof. by vm_compute. Qed.
